(* ===== verification/_CoqProject ===== *)
-Q . S2P
Prelude.v
GoStr.v
GoPath.v
GoHttp.v
NetIP.v
NetIPFacts.v
GoFloat.v
FloatInt.v
Config.v
Router.v
ConfigValidate.v
ConfigFacts.v
GoCodec.v
GoText.v
ConfigStable.v
ConfigEnv.v
Cache.v
KeyLock.v
CachePolicy.v
ProxyHeaders.v
ClientIP.v
Upstream.v
Handler.v
RateLimit.v
Admission.v
SecPolicy.v
Waf.v
SecConfig.v
Gateway.v
SecConfigFacts.v
GoOS.v
ConfigPersist.v
SecPersist.v
ConfigPersistFacts.v
SecPersistFacts.v
AdminAuth.v
WafFacts.v
GatewayFacts.v
Ring.v
AccessLog.v
Generation.v
GenerationFacts.v
SecurityLog.v
SecurityLogFile.v
SecurityLogFacts.v
RestartFacts.v
RouteTable.v
Traffic.v
EnvFile.v
EnvFileFacts.v
SecPaths.v
SecPathsFacts.v
SecRuntime.v
Control.v
ControlFacts.v
SecRuntimeFacts.v
SecRuntimeSamples.v
SecProxy.v
SecMain.v
SecMainFacts.v
SecMainSamples.v
SecAdmin.v
SecAdminFacts.v
SecAdminSamples.v
AdminAPI.v
