(* ===== verification/Prelude.v ===== *)
(** * SecureEdge-Platform: a verification development (root file)

    The repository has two Go programs that run one behind the other.
    SecurityEdge (src/apps/securityedge) is the front: it decides for every
    request whether it may pass.  EdgeProxy (src/apps/edgeproxy) is the data
    plane: it selects a route, answers from its cache or from an origin, and
    balances, retries and fails over between origins.  Both keep bounded logs and
    can change their configuration while they run.

    ** How the development is organised

    A file models one component as the code is written: a [Record] for its
    state, one definition per function or method, [option] or a sum for an
    error.  A method that holds the component's mutex for its whole body is one
    step; where it does not, the critical sections are the steps.  Time is an
    argument.  The order in which a Go map is visited is an argument or the class
    [MapRange].  [int] and [int64] wrap at 64 bits where the code computes with
    numbers that can get there; [float64] is exact binary64.  An error is
    represented by the fixed part of its message.

    The language and its standard library:
    - Prelude (this file): byte strings, machine integers, times, lists.
    - GoStr, GoText, GoPath, GoCodec: [strings], [strconv], [unicode/utf8],
      [net/url], [path], [encoding/base64]; GoHttp: headers, requests, responses;
      NetIP, NetIPFacts: [net.IP], CIDR blocks and their text; GoFloat, FloatInt: [float64]; GoOS: files, the process
      environment, map order.

    EdgeProxy:
    - Config, ConfigValidate, ConfigEnv, ConfigPersist (internal/config): the
      structs, [Validate], the environment overrides, the atomic replacement of
      the file.  ConfigPersist and ConfigPersistFacts are written against the
      class [Document] (a kind of configuration with its validation), which both
      programs instantiate.  ConfigFacts: what validation guarantees; ConfigStable: validating
      again changes nothing.  ConfigPersistFacts: what a restart finds after a
      crash.
    - EnvFile, EnvFileFacts (internal/envfile): dotenv files, as transactions on
      the process environment.
    - Router (internal/router, and internal/routes of SecurityEdge), Cache and
      KeyLock (internal/cache), CachePolicy, ProxyHeaders, ClientIP, Upstream and
      Handler (internal/proxy): the data plane, composed in
      [Handler.fetchAndServe] and [Handler.handleRoute].  Generation: the state
      that a configuration makes, [ServeHTTP] over it; GenerationFacts.
    - Ring, AccessLog (internal/accesslog): the bounded log.
    - Control (internal/control, and the run loop of internal/server): updates,
      reloads, restarts and recovery, as steps of a relation over everything
      above.  ControlFacts: the invariant and the transactions.
    - AdminAPI (internal/admin): the handlers that show or change the
      configuration, over Control.

    SecurityEdge:
    - SecPolicy (structs of internal/config), RateLimit (internal/ratelimit),
      Admission (internal/admission), Waf and WafFacts (internal/waf), composed in
      Gateway and GatewayFacts (internal/gateway).
    - RouteTable (internal/routes): loading EdgeProxy's routes.
    - SecurityLog, SecurityLogFile, SecurityLogFacts, RestartFacts
      (internal/securitylog): the log in memory and on disk.
    - Traffic (internal/traffic): the activity window.
    - SecConfig, SecPersist (internal/config): its own configuration, with
      validation, overrides and the file; SecConfigFacts, SecPersistFacts.
    - SecPaths, SecPathsFacts (securityedge.go): which paths a configuration may
      write to.
    - SecRuntime (securityedge.go, watch.go, restart_preflight.go,
      internal/edgeadmin): a running instance, its reloads and its policy edits,
      over the disk, as operations that may fail or panic.  SecRuntimeFacts;
      SecRuntimeSamples has its theorems on concrete files.
    - SecProxy, SecMain (cmd/securityedge, internal/edgeprobe): the reverse proxy
      between the gateway and EdgeProxy; the watcher of the files and the
      succession of generations as a step relation.  SecMainFacts,
      SecMainSamples.
    - AdminAuth (internal/admin of both programs): the bearer token, and the
      lockout of clients that fail, by critical sections.
    - SecAdmin (internal/admin): the handlers that change the configuration, the
      policies, and EdgeProxy through its own admin API, over SecRuntime.
      SecAdminFacts, SecAdminSamples.

    ** What the theorems show

    - A request is forwarded only when every check of the gateway let it pass,
      against any interleaving with other requests; every request ends with its
      decision in the response, and admission is given back (GatewayFacts).  The
      firewall reports exactly the rules that match and leaves the body intact
      (WafFacts).  Rates, bans and concurrency limits hold (RateLimit, Admission).
    - A response that EdgeProxy stores may be stored, and is stored whole, under
      a key that separates requests that may get different answers (Handler,
      CachePolicy); the cache refines a bounded LRU list (Cache); the fill lock is
      a lock, live and without leaks (KeyLock); an origin is selected as its
      algorithm promises, calls are bounded, counters are balanced; shutdown
      closes every upgraded connection and returns without the help of a peer
      (Upstream, Handler).
    - The configuration that validation accepts is well formed, and then the route
      of a request does not depend on the order of the routes; both programs
      select the same route (ConfigFacts, RouteTable).  Changes that the
      environment masks are refused; replacing the file is atomic against crashes
      and failing calls; the environment is the deployment's with the last
      accepted dotenv file (ConfigEnv, ConfigPersistFacts, EnvFileFacts).
    - What EdgeProxy runs is always the configuration its manager holds for
      current; an update, a dotenv revision and a recovery happen as a whole or
      not at all; a configuration that was saved is the one that is loaded; an
      accepted configuration serves every request (ControlFacts,
      ConfigPersistFacts, Generation).  A response has the edge's own identifier
      and acknowledgement, a probe leaves no trace, the log has no secret
      (GenerationFacts).
    - The logs refine a list of the newest entries; paging and exports are exact;
      a restart gives the newest entries back; the activity window says when its
      counts are too small (AccessLog, SecurityLogFacts, RestartFacts, Traffic).

    - SecurityEdge has one configuration at a time: its parts are made from the
      configuration it serves and what was fixed at the start stays; an edit or a
      replacement is saved and served, or changes nothing; a restart is asked for
      only when the file holds what was accepted (SecRuntimeFacts).  What the file
      holds is normalised once more than what was accepted: the theorems say so,
      because the two differ where validating again changes a configuration.  The
      files it writes are other objects, links and all, than those it depends on
      (SecPathsFacts).  A route edit
      never restarts it, a revision of the environment is taken whole or not at
      all, and a restart that fails goes back (SecMainFacts).  EdgeProxy sees the
      client that SecurityEdge saw (SecProxy).
    - The admin APIs let in who has the token and limit guessing it (AdminAuth);
      the status of an update tells what has happened, and a change of one route
      leaves the others alone (SecAdminFacts, AdminAPI).  The names of routes that
      do not reach EdgeProxy, and answers that are not true, are pinned down
      (SecAdminFacts, SecAdminSamples).

    ** Fuel

    Recursion is structural wherever the loop has a structure.  The rest takes
    fuel that is shown or easily seen to be enough: JSON samples of the firewall
    recurse to the depth limit of the code (12 levels, fuel 13); the eviction
    loop of the cache has one unit per entry; decoding makes the code's 3 rounds;
    reading a line of the log file has one unit per byte and one more; a bisection
    of [n] elements has [n + 1]; the attempts of a request are the configured
    retries and one; the search for the nearest existing ancestor of a path
    ([SecPaths.nearest]) has one unit per byte of the path, and each step shortens
    it.  The theorem of each such loop is a total statement; that the goroutines
    of a shutdown come to an end is shown by a measure of their steps.

    ** Parameters

    What is not in the repository is an argument: the Unicode case tables
    ([Unicode]), resolving service names and parsing absolute URLs ([Resolve],
    [NetURL]), the regular-expression engine, HTML entities, the JSON, MIME and
    cookie parsers ([WafLib]), SHA-256, HTTP dates, RFC 3339 times, [math.Pow] and
    out-of-range float conversions ([FloatMath]), JSON coding of entries and
    configurations, the environment, the outcome of every system call, and what
    the network does.  A law that a theorem needs of one is its hypothesis, and a
    witness instantiates it.

    ** Conventions of the running programs

    A slice that [reflect.DeepEqual] may see is an [option] of a list, because a
    nil slice differs from an empty one; the lists of a policy, which validation
    makes anew, are lists, and [SecRuntime.copy_equal] says when a copy of them
    differs.  The map of route policies is taken not to be nil: a JSON null in its
    place is left out.  What a goroutine waits for (a lock, a closed connection,
    a wait group) is the premise of its step.  Policy edits through the admin API and
    changes of the files happen between two turns of a watcher, in any order; an
    edit is one step, as it holds its mutex.

    ** Not modelled

    Listeners, signals, flags, logging and TLS handshakes (internal/server without
    its run loop, the rest of cmd); the handlers of the administration servers
    that only show logs, metrics, bans and dashboards, and the history kept for
    the charts; the connectivity monitor, which is timers and network
    calls; the metrics registries, on which no decision depends; the health-check
    timer and the construction of transports in the upstream pool; the registry of
    hijacked connections in the gateway; cmd/origin-demo. *)

From Stdlib Require Export Ascii String ZArith Lia.
From stdpp Require Export base gmap strings list fin_maps relations.

Open Scope Z_scope.

(** ** Byte strings

    A Go [string] (or [[]byte]) is an immutable sequence of bytes: [str].
    Literals are written as usual; [lit] is a coercion. *)

Abbreviation str := (list ascii).

Definition lit (s : string) : str := list_ascii_of_string s.
Coercion lit : string >-> list.

Definition lits (l : list string) : list str := lit <$> l.

(** Go's [==] on strings, as a boolean. *)
Definition eqs (a b : str) : bool := bool_decide (a = b).
#[global] Arguments eqs : simpl never.
#[global] Arguments lit : simpl never.

(** Go's [len(s)] and [len(xs)], an [int]. *)
Definition len {A} (l : list A) : Z := Z.of_nat (length l).

Declare Scope go_scope.
Delimit Scope go_scope with go.
Infix "=?s" := eqs (at level 70, no associativity) : go_scope.
Open Scope go_scope.

(** ** Machine integers

    [int] and [int64] are two's complement 64-bit integers (the supported
    platforms are 64-bit), [uint64] is modulo 2^64. *)

Definition min_int64 : Z := - 2 ^ 63.
Definition max_int64 : Z := 2 ^ 63 - 1.
Definition wrap64 (z : Z) : Z := (z + 2 ^ 63) mod 2 ^ 64 - 2 ^ 63.
Definition wrapu64 (z : Z) : Z := z mod 2 ^ 64.
Definition max_uint64 : Z := 2 ^ 64 - 1.

Definition int64_ok (z : Z) : Prop := min_int64 <= z <= max_int64.
Definition uint64_ok (z : Z) : Prop := 0 <= z <= max_uint64.

(** ** [time.Time] and [time.Duration]

    A [Duration] is an [int64] number of nanoseconds.  A [Time] is modelled by
    the number of nanoseconds since the zero time (January 1, year 1 UTC), so
    [Time{}] is [0]; [Sub] saturates to the range of [Duration] as in Go. *)

Abbreviation duration := Z (only parsing).
Abbreviation time := Z (only parsing).

Definition nanosecond : duration := 1.
Definition millisecond : duration := 10 ^ 6.
Definition second : duration := 10 ^ 9.
Definition minute : duration := 60 * second.

Definition time_zero : time := 0.
Definition time_is_zero (t : time) : bool := t =? 0.
Definition time_before (t u : time) : bool := t <? u.
Definition time_after (t u : time) : bool := u <? t.
Definition time_equal (t u : time) : bool := t =? u.
Definition time_add (t : time) (d : duration) : time := t + d.
Definition time_sub (t u : time) : duration :=
  let d := t - u in
  if d <? min_int64 then min_int64
  else if max_int64 <? d then max_int64 else d.

(** [Duration] arithmetic wraps. *)
Definition dur_sub (a b : duration) : duration := wrap64 (a - b).
Definition dur_mul (a b : duration) : duration := wrap64 (a * b).

(** ** Tactics *)

(** Case analysis on the scrutinee of the first [if]/[match] of the goal. *)
Ltac case_goal :=
  match goal with
  | |- context [ match ?x with _ => _ end ] => destruct x eqn:?
  end.

Ltac case_hyp H :=
  match type of H with
  | context [ match ?x with _ => _ end ] => destruct x eqn:?
  end.

(** Boolean tests on integers turned into (in)equalities. *)
Ltac boolify :=
  repeat match goal with
  | H : (_ && _)%bool = true |- _ => apply andb_true_iff in H; destruct H
  | H : (_ || _)%bool = false |- _ => apply orb_false_iff in H; destruct H
  | H : negb _ = true |- _ => apply negb_true_iff in H
  | H : negb _ = false |- _ => apply negb_false_iff in H
  | H : (_ <? _) = true |- _ => apply Z.ltb_lt in H
  | H : (_ <? _) = false |- _ => apply Z.ltb_ge in H
  | H : (_ <=? _) = true |- _ => apply Z.leb_le in H
  | H : (_ <=? _) = false |- _ => apply Z.leb_gt in H
  | H : (_ =? _) = true |- _ => apply Z.eqb_eq in H
  | H : (_ =? _) = false |- _ => apply Z.eqb_neq in H
  | H : eqs _ _ = true |- _ => apply bool_decide_eq_true in H
  | H : eqs _ _ = false |- _ => apply bool_decide_eq_false in H
  | H : bool_decide _ = true |- _ => apply bool_decide_eq_true in H
  | H : bool_decide _ = false |- _ => apply bool_decide_eq_false in H
  end.

Ltac unfold_time :=
  unfold time_before, time_after, time_equal, time_add, time_is_zero in *.

(** ** Integers: bounds and wrap-around *)

Lemma wrap64_ok (z : Z) : int64_ok (wrap64 z).
Proof. unfold int64_ok, wrap64, min_int64, max_int64. pose proof (Z.mod_pos_bound (z + 2 ^ 63) (2 ^ 64)). lia. Qed.

Lemma wrap64_id (z : Z) : int64_ok z → wrap64 z = z.
Proof. unfold int64_ok, wrap64, min_int64, max_int64. intros. rewrite Z.mod_small; lia. Qed.

Lemma wrapu64_ok (z : Z) : uint64_ok (wrapu64 z).
Proof. unfold uint64_ok, wrapu64, max_uint64. pose proof (Z.mod_pos_bound z (2 ^ 64)). lia. Qed.

Lemma wrapu64_id (z : Z) : uint64_ok z → wrapu64 z = z.
Proof. unfold uint64_ok, wrapu64, max_uint64. intros. apply Z.mod_small. lia. Qed.

Lemma time_sub_ok (t u : time) : int64_ok (time_sub t u).
Proof.
  unfold time_sub, int64_ok, min_int64, max_int64.
  repeat case_goal; boolify; lia.
Qed.

Lemma time_sub_id (t u : time) : int64_ok (t - u) → time_sub t u = t - u.
Proof. unfold time_sub, int64_ok. intros. repeat case_goal; boolify; lia. Qed.

Lemma time_sub_neg (t u : time) : t < u → time_sub t u < 0.
Proof. unfold time_sub, min_int64, max_int64. intros. repeat case_goal; boolify; lia. Qed.

Lemma time_sub_nonneg (t u : time) : u <= t → 0 <= time_sub t u.
Proof. unfold time_sub, min_int64, max_int64. intros. repeat case_goal; boolify; lia. Qed.

(** ** Lists *)

Section lists.
Context {A : Type}.
Implicit Types (l k : list A).

Lemma len_nonneg l : 0 <= len l.
Proof. unfold len. lia. Qed.
Lemma len_nil : len (@nil A) = 0.
Proof. done. Qed.
Lemma len_cons (x : A) l : len (x :: l) = 1 + len l.
Proof. unfold len. simpl. lia. Qed.
Lemma len_app l k : len (l ++ k) = len l + len k.
Proof. unfold len. rewrite length_app. lia. Qed.
Lemma len_zero l : len l = 0 → l = [].
Proof. unfold len. destruct l; simpl; [done | lia]. Qed.

(** Sums of an integer measure over a list. *)
Definition zsum (f : A → Z) l : Z := foldr (λ x s, f x + s) 0 l.

Lemma zsum_cons f x l : zsum f (x :: l) = f x + zsum f l.
Proof. done. Qed.
Lemma zsum_app f l k : zsum f (l ++ k) = zsum f l + zsum f k.
Proof. induction l; simpl; [done | rewrite IHl; lia]. Qed.
Lemma zsum_nonneg f l : (∀ x, x ∈ l → 0 <= f x) → 0 <= zsum f l.
Proof.
  induction l as [|x l IH]; simpl; [lia|]. intros H.
  pose proof (H x (list_elem_of_here _ _)).
  assert (0 <= zsum f l) by (apply IH; intros; apply H; by constructor). lia.
Qed.
Lemma zsum_Permutation f l k : l ≡ₚ k → zsum f l = zsum f k.
Proof. induction 1; simpl; lia. Qed.
Lemma zsum_ext f g l : (∀ x, x ∈ l → f x = g x) → zsum f l = zsum g l.
Proof.
  induction l as [|x l IH]; simpl; [done|]. intros H.
  rewrite H by constructor. rewrite IH; [done|]. intros. apply H. by constructor.
Qed.
Lemma zsum_insert f l i x y : l !! i = Some x → zsum f (<[i := y]> l) = zsum f l - f x + f y.
Proof.
  revert i. induction l as [|z l IH]; intros [|i] H; simplify_eq/=; [lia|]. rewrite (IH i H). lia.
Qed.
Lemma zsum_elem f l x : (∀ x, x ∈ l → 0 <= f x) → x ∈ l → f x <= zsum f l.
Proof.
  induction l as [|z l IH]; intros Hf Hx; [by apply not_elem_of_nil in Hx|]. rewrite zsum_cons.
  apply elem_of_cons in Hx as [->|Hx].
  - pose proof (zsum_nonneg f l ltac:(intros; apply Hf; by constructor)). lia.
  - pose proof (Hf z ltac:(constructor)). pose proof (IH ltac:(intros; apply Hf; by constructor) Hx). lia.
Qed.
Lemma zsum_pos f l : (∀ x, x ∈ l → 0 <= f x) → 0 < zsum f l → ∃ x, x ∈ l ∧ 0 < f x.
Proof.
  induction l as [|z l IH]; intros Hf Hs; [simpl in Hs; lia|]. rewrite zsum_cons in Hs.
  destruct (decide (0 < f z)); [exists z; split; [constructor | done]|].
  destruct IH as (x & Hx & ?); [intros; apply Hf; by constructor | lia | exists x; split; [by constructor | done]].
Qed.
Lemma zsum_replicate f n x : zsum f (replicate n x) = Z.of_nat n * f x.
Proof. induction n; simpl; lia. Qed.
Lemma zsum_plus f g l : zsum (λ x, f x + g x) l = zsum f l + zsum g l.
Proof. induction l; simpl; lia. Qed.
Lemma zsum_single `{EA : EqDecision A} x c l : NoDup l → x ∈ l → zsum (λ y, if decide (y = x) then c else 0) l = c.
Proof.
  induction 1 as [|y l Hy Hl IH]; intros Hx; [by apply not_elem_of_nil in Hx|]. rewrite zsum_cons.
  apply elem_of_cons in Hx as [<-|Hx].
  - rewrite decide_True by done. rewrite (zsum_ext _ (λ _, 0)); [|intros z Hz; rewrite decide_False; [done|by intros ->]].
    clear. induction l; simpl; lia.
  - rewrite decide_False by (by intros ->). by rewrite IH.
Qed.
Lemma zsum_lower f c l : (∀ x, x ∈ l → c <= f x) → c * len l <= zsum f l.
Proof.
  induction l as [|y l IH]; intros H; [rewrite len_nil; simpl; lia|]. rewrite zsum_cons, len_cons.
  pose proof (H y ltac:(constructor)). pose proof (IH ltac:(intros; apply H; by constructor)). lia.
Qed.
Lemma zsum_le f g l : (∀ x, x ∈ l → f x <= g x) → zsum f l <= zsum g l.
Proof.
  induction l as [|y l IH]; intros H; [simpl; lia|]. rewrite !zsum_cons.
  pose proof (H y ltac:(constructor)). pose proof (IH ltac:(intros; apply H; by constructor)). lia.
Qed.
Lemma zsum_max f c l : zsum f l > c * len l → ∃ x, x ∈ l ∧ c < f x.
Proof.
  induction l as [|y l IH]; [rewrite len_nil; simpl; lia|]. rewrite zsum_cons, len_cons. intros H.
  destruct (decide (c < f y)); [exists y; split; [constructor|done]|].
  destruct IH as (x & Hx & ?); [lia|]. exists x. split; [by constructor | done].
Qed.
Lemma zsum_filter_split f (P : A → Prop) `{DP : ∀ x, Decision (P x)} l :
  zsum f l = zsum f (filter P l) + zsum f (filter (λ x, ¬ P x) l).
Proof.
  induction l as [|x l IH]; [done|]. rewrite !filter_cons. simpl.
  do 2 case_decide; try tauto; simpl; lia.
Qed.
End lists.

Section filter_lemmas.
Context {A B : Type}.
Implicit Types (l : list A).

Lemma fmap_filter_ext (f : A → B) (P : A → Prop) (Q : B → Prop)
    `{DP : ∀ x, Decision (P x)} `{DQ : ∀ y, Decision (Q y)} l :
  (∀ x, x ∈ l → P x ↔ Q (f x)) → f <$> filter P l = filter Q (f <$> l).
Proof.
  induction l as [|x l IH]; intros H; [done|]. rewrite fmap_cons, !filter_cons.
  assert (P x ↔ Q (f x)) as Hx by (apply H; constructor).
  rewrite <- IH by (intros; apply H; by constructor). do 2 case_decide; tauto || done.
Qed.

Lemma filter_all (P : A → Prop) `{DP : ∀ x, Decision (P x)} l : (∀ x, x ∈ l → P x) → filter P l = l.
Proof.
  induction l as [|x l IH]; intros H; [done|].
  rewrite filter_cons_True by (apply H; constructor).
  by rewrite IH by (intros; apply H; by constructor).
Qed.

Lemma filter_none (P : A → Prop) `{DP : ∀ x, Decision (P x)} l : (∀ x, x ∈ l → ¬ P x) → filter P l = [].
Proof.
  induction l as [|x l IH]; intros H; [done|].
  rewrite filter_cons_False by (apply H; constructor). apply IH. intros. apply H. by constructor.
Qed.

(** Taking out the one element whose identity [f x] is unique. *)
Lemma filter_id_perm `{EB : EqDecision B} (f : A → B) (x : A) l :
  NoDup (f <$> l) → x ∈ l → l ≡ₚ x :: filter (λ y, f y ≠ f x) l.
Proof.
  induction l as [|y l IH]; intros Hnd Hx; [by apply not_elem_of_nil in Hx|].
  rewrite fmap_cons in Hnd. apply NoDup_cons in Hnd as [Hy Hnd].
  apply elem_of_cons in Hx as [->|Hx].
  - rewrite filter_cons_False by naive_solver. constructor.
    rewrite filter_all; [done|]. intros z Hz Heq. apply Hy. rewrite <- Heq.
    by apply list_elem_of_fmap_2.
  - rewrite filter_cons_True; [|intros Heq; apply Hy; rewrite Heq; by apply list_elem_of_fmap_2].
    rewrite Permutation_swap. constructor. by apply IH.
Qed.

Lemma NoDup_fmap_eq (f : A → B) l x y : NoDup (f <$> l) → x ∈ l → y ∈ l → f x = f y → x = y.
Proof.
  induction l as [|z l IH]; intros Hnd Hx Hy Hf; [by apply not_elem_of_nil in Hx|].
  rewrite fmap_cons in Hnd. apply NoDup_cons in Hnd as [Hz Hnd].
  apply elem_of_cons in Hx as [->|Hx], Hy as [->|Hy]; [done| | |by apply IH].
  - destruct Hz. rewrite Hf. by apply list_elem_of_fmap_2.
  - destruct Hz. rewrite <- Hf. by apply list_elem_of_fmap_2.
Qed.
End filter_lemmas.

Lemma mapM_app_option {A B} (f : A → option B) l k :
  mapM f (l ++ k) = a ← mapM f l; b ← mapM f k; Some (a ++ b).
Proof.
  induction l as [|x l IH]; simpl.
  - by destruct (mapM f k).
  - rewrite IH. destruct (f x); simpl; [|done]. destruct (mapM f l); simpl; [|done]. by destruct (mapM f k).
Qed.

Create HintDb go discriminated.
Create Rewrite HintDb go_eqs.
#[export] Hint Resolve len_nonneg wrap64_ok wrapu64_ok time_sub_ok : go.
Create Rewrite HintDb golen.
#[export] Hint Rewrite @len_nil @len_cons @len_app : golen.

Lemma eqs_true (a b : str) : (a =?s b) = true ↔ a = b.
Proof. apply bool_decide_eq_true. Qed.
Lemma eqs_false (a b : str) : (a =?s b) = false ↔ a ≠ b.
Proof. apply bool_decide_eq_false. Qed.
Lemma eqs_refl (a : str) : (a =?s a) = true.
Proof. by apply eqs_true. Qed.
#[export] Hint Rewrite eqs_refl : go_eqs.
