(* ===== verification/GoStr.v ===== *)
(** * The part of Go's [strings], [unicode/utf8], [strconv] and [net/url] escaping
    that the program uses, on byte strings.

    ASCII behaviour is defined exactly.  The Unicode case tables that
    [strings.ToLower], [strings.ToUpper] and [strings.EqualFold] consult once
    they meet a byte >= 0x80 are data outside the repository: they are the
    fields of the class [Unicode], with the ASCII-only instance
    [unicode_ascii] used by concrete runs. *)

From S2P Require Import Prelude.

(** ** Bytes *)

Definition code (c : ascii) : Z := Z.of_N (N_of_ascii c).
Definition chr (n : Z) : ascii := ascii_of_N (Z.to_N n).
Definition in_range (lo hi c : ascii) : bool := (code lo <=? code c) && (code c <=? code hi).
(** [c >= utf8.RuneSelf] *)
Definition rune_self (c : ascii) : bool := 128 <=? code c.
Definition is_ascii (s : str) : bool := forallb (λ c, negb (rune_self c)) s.
#[global] Arguments rune_self : simpl never.
Definition is_digit (c : ascii) : bool := in_range "0" "9" c.
Definition is_lower (c : ascii) : bool := in_range "a" "z" c.
Definition is_upper (c : ascii) : bool := in_range "A" "Z" c.
Definition is_alnum (c : ascii) : bool := is_lower c || is_upper c || is_digit c.
Definition lower_ascii (c : ascii) : ascii := if is_upper c then chr (code c + 32) else c.
Definition upper_ascii (c : ascii) : ascii := if is_lower c then chr (code c - 32) else c.

Definition dquote : ascii := "034"%char.
Definition backslash : ascii := "092"%char.
Definition eqc (a b : ascii) : bool := bool_decide (a = b).
#[global] Arguments eqc : simpl never.
#[global] Arguments code : simpl never.
Infix "=?c" := eqc (at level 70, no associativity) : go_scope.
Definition mem_byte (c : ascii) (s : str) : bool := existsb (eqc c) s.

(** ** Case mapping *)

Class Unicode := {
  unicode_lower : str → str;          (* strings.Map(unicode.ToLower, s) *)
  unicode_upper : str → str;          (* strings.Map(unicode.ToUpper, s) *)
  unicode_fold : str → str → bool;    (* EqualFold from the first non-ASCII byte on *)
}.

Definition unicode_ascii : Unicode := {|
  unicode_lower := fmap lower_ascii;
  unicode_upper := fmap upper_ascii;
  unicode_fold s t := (lower_ascii <$> s) =?s (lower_ascii <$> t);
|}.

Section case.
Context {U : Unicode}.

Definition to_lower (s : str) : str :=
  if is_ascii s then lower_ascii <$> s else unicode_lower s.
Definition to_upper (s : str) : str :=
  if is_ascii s then upper_ascii <$> s else unicode_upper s.
Fixpoint equal_fold (s t : str) : bool :=
  match s, t with
  | [], [] => true
  | c :: s', d :: t' =>
      if rune_self c || rune_self d then unicode_fold s t
      else if lower_ascii c =?c lower_ascii d then equal_fold s' t' else false
  | _, _ => false
  end.
End case.

(** ** White space: [strings.TrimSpace]

    [unicode.IsSpace] holds of six ASCII bytes, of U+0085 and U+00A0 (two
    bytes in UTF-8) and of U+1680, U+2000-U+200A, U+2028, U+2029, U+202F,
    U+205F, U+3000 (three bytes). *)

Definition space1 (c : ascii) : bool :=
  (code c =? 32) || ((9 <=? code c) && (code c <=? 13)).
Definition space2 (c d : ascii) : bool :=
  (code c =? 194) && ((code d =? 133) || (code d =? 160)).
Definition space3 (c d e : ascii) : bool :=
  ((code c =? 225) && (code d =? 154) && (code e =? 128))
  || ((code c =? 226) && (code d =? 128)
      && (((128 <=? code e) && (code e <=? 138)) || (code e =? 168) || (code e =? 169) || (code e =? 175)))
  || ((code c =? 226) && (code d =? 129) && (code e =? 159))
  || ((code c =? 227) && (code d =? 128) && (code e =? 128)).

Fixpoint trim_runes (s2 : ascii → ascii → bool) (s3 : ascii → ascii → ascii → bool) (s : str) : str :=
  match s with
  | [] => []
  | c :: s1 =>
      if space1 c then trim_runes s2 s3 s1
      else match s1 with
      | [] => s
      | d :: t =>
          if s2 c d then trim_runes s2 s3 t
          else match t with
          | [] => s
          | e :: u => if s3 c d e then trim_runes s2 s3 u else s
          end
      end
  end.

Definition trim_left_space (s : str) : str := trim_runes space2 space3 s.
Definition trim_right_space (s : str) : str :=
  reverse (trim_runes (λ d c, space2 c d) (λ e d c, space3 c d e) (reverse s)).
Definition trim_space (s : str) : str := trim_right_space (trim_left_space s).

(** ** Prefixes, suffixes, cutting and splitting *)

Definition has_prefix (s p : str) : bool := bool_decide (p `prefix_of` s).
Definition has_suffix (s p : str) : bool := bool_decide (p `suffix_of` s).
Definition trim_prefix (s p : str) : str := if has_prefix s p then drop (length p) s else s.
Definition trim_suffix (s p : str) : str :=
  if has_suffix s p then take (length s - length p) s else s.

(** [strings.Trim(s, cutset)] for an ASCII cutset. *)
Fixpoint trim_left_bytes (cut : str) (s : str) : str :=
  match s with
  | [] => []
  | c :: s' => if mem_byte c cut then trim_left_bytes cut s' else s
  end.
Definition trim_bytes (cut : str) (s : str) : str :=
  reverse (trim_left_bytes cut (reverse (trim_left_bytes cut s))).

(** [strings.TrimRight] *)
Definition trim_right_bytes (cut : str) (s : str) : str := reverse (trim_left_bytes cut (reverse s)).

Fixpoint index_byte (s : str) (c : ascii) : option nat :=
  match s with
  | [] => None
  | d :: s' => if d =?c c then Some O else S <$> index_byte s' c
  end.
Definition last_index_byte (s : str) (c : ascii) : option nat :=
  (λ i, (length s - 1 - i)%nat) <$> index_byte (reverse s) c.
Definition contains_any (s chars : str) : bool := existsb (λ c, mem_byte c chars) s.
Fixpoint contains (s sub : str) : bool :=
  has_prefix s sub || match s with [] => false | _ :: s' => contains s' sub end.
Definition count_byte (s : str) (c : ascii) : nat := length (filter (λ d, d = c) s).

(** [strings.Split(s, sep)] for a one-byte separator. *)
Fixpoint split (s : str) (sep : ascii) : list str :=
  match s with
  | [] => [[]]
  | c :: s' =>
      if c =?c sep then [] :: split s' sep
      else match split s' sep with
           | p :: ps => (c :: p) :: ps
           | [] => [[c]]
           end
  end.

(** [strings.Cut(s, sep)] for a one-byte separator (also [SplitN(s, sep, 2)]). *)
Definition cut (s : str) (sep : ascii) : str * str * bool :=
  match index_byte s sep with
  | Some i => (take i s, drop (S i) s, true)
  | None => (s, [], false)
  end.

Fixpoint join (sep : str) (l : list str) : str :=
  match l with
  | [] => []
  | [x] => x
  | x :: l' => x ++ sep ++ join sep l'
  end.

(** Lexicographic order on bytes ([<] on Go strings). *)
Fixpoint str_ltb (a b : str) : bool :=
  match a, b with
  | _, [] => false
  | [], _ :: _ => true
  | c :: a', d :: b' => (code c <? code d) || ((c =?c d) && str_ltb a' b')
  end.

(** ** [strconv.ParseInt(s, 10, 64)]: an optional sign and decimal digits *)

Fixpoint parse_digits (acc : Z) (s : str) : option Z :=
  match s with
  | [] => Some acc
  | c :: s' => if is_digit c then parse_digits (acc * 10 + (code c - 48)) s' else None
  end.
Definition parse_int (s : str) : option Z :=
  let body neg t :=
    match t with
    | [] => None
    | _ => n ← parse_digits 0 t;
           let v := if neg : bool then - n else n in
           if (min_int64 <=? v) && (v <=? max_int64) then Some v else None
    end in
  match s with
  | c :: t => if c =?c "+" then body false t
              else if c =?c "-" then body true t else body false s
  | [] => None
  end.

(** [strconv.Itoa] *)
Definition itoa (z : Z) : str := lit (pretty.pretty z).

(** ** [url.PathUnescape] *)

Definition unhex (c : ascii) : option Z :=
  if is_digit c then Some (code c - 48)
  else if in_range "a" "f" c then Some (code c - 97 + 10)
  else if in_range "A" "F" c then Some (code c - 65 + 10)
  else None.
Fixpoint path_unescape (s : str) : option str :=
  match s with
  | [] => Some []
  | c :: t =>
      if c =?c "%" then
        match t with
        | a :: b :: u =>
            h ← unhex a; l ← unhex b; r ← path_unescape u; Some (chr (16 * h + l) :: r)
        | _ => None
        end
      else r ← path_unescape t; Some (c :: r)
  end.

(** ** Facts *)

Lemma eqc_true (a b : ascii) : (a =?c b) = true ↔ a = b.
Proof. apply bool_decide_eq_true. Qed.
Lemma eqc_false (a b : ascii) : (a =?c b) = false ↔ a ≠ b.
Proof. apply bool_decide_eq_false. Qed.
Lemma eqc_refl (a : ascii) : (a =?c a) = true.
Proof. by apply eqc_true. Qed.
#[export] Hint Rewrite eqc_refl : go_eqs.

(** Exhaustive check of a statement about one byte. *)
Ltac all_bytes c := destruct c as [[] [] [] [] [] [] [] []]; vm_compute; try done.

Lemma lower_ascii_idem c : lower_ascii (lower_ascii c) = lower_ascii c.
Proof. all_bytes c. Qed.
Lemma rune_self_lower c : rune_self (lower_ascii c) = rune_self c.
Proof. all_bytes c. Qed.

Lemma mem_byte_true c (s : str) : mem_byte c s = true ↔ c ∈ s.
Proof.
  unfold mem_byte. rewrite existsb_exists. setoid_rewrite eqc_true.
  setoid_rewrite <- list_elem_of_In. naive_solver.
Qed.

Lemma has_prefix_true (s p : str) : has_prefix s p = true ↔ p `prefix_of` s.
Proof. apply bool_decide_eq_true. Qed.
Lemma has_suffix_true (s p : str) : has_suffix s p = true ↔ p `suffix_of` s.
Proof. apply bool_decide_eq_true. Qed.
Lemma has_prefix_app (p s : str) : has_prefix (p ++ s) p = true.
Proof. apply has_prefix_true. by exists s. Qed.
Lemma has_suffix_app (p s : str) : has_suffix (s ++ p) p = true.
Proof. apply has_suffix_true. by exists s. Qed.

(** A text that starts with a byte other than the prefix's first one. *)
Lemma has_prefix_head (s p : str) c : head s = Some c → head p ≠ Some c → p ≠ [] → has_prefix s p = false.
Proof.
  intros Hs Hp Hne. apply bool_decide_eq_false_2. intros [t ->]. destruct p; [done|]. by simplify_eq/=.
Qed.
Lemma trim_prefix_app (p s : str) : trim_prefix (p ++ s) p = s.
Proof. unfold trim_prefix. by rewrite has_prefix_app, drop_app_length. Qed.
Lemma trim_suffix_app (p s : str) : trim_suffix (s ++ p) p = s.
Proof.
  unfold trim_suffix. rewrite has_suffix_app, length_app, Nat.add_sub.
  by rewrite take_app_length.
Qed.
Lemma trim_prefix_no (s p : str) : has_prefix s p = false → trim_prefix s p = s.
Proof. unfold trim_prefix. by intros ->. Qed.
Lemma trim_suffix_no (s p : str) : has_suffix s p = false → trim_suffix s p = s.
Proof. unfold trim_suffix. by intros ->. Qed.

(** Every byte string either lacks the prefix or is that prefix and a rest. *)
Lemma has_prefix_inv (s p : str) : has_prefix s p = true → ∃ t, s = p ++ t ∧ trim_prefix s p = t.
Proof. intros [t ->]%has_prefix_true. exists t. by rewrite trim_prefix_app. Qed.
Lemma has_suffix_inv (s p : str) : has_suffix s p = true → ∃ t, s = t ++ p ∧ trim_suffix s p = t.
Proof. intros [t ->]%has_suffix_true. exists t. by rewrite trim_suffix_app. Qed.

Section split.
Context (sep : ascii).
Implicit Types (s : str) (l : list str).

Lemma split_not_nil s : split s sep ≠ [].
Proof. destruct s as [|c s]; simpl; [done|]. repeat case_match; done. Qed.

Lemma split_no_sep s p : p ∈ split s sep → sep ∉ p.
Proof.
  revert p. induction s as [|c s IH]; intros p; simpl.
  - intros ->%list_elem_of_singleton. apply not_elem_of_nil.
  - destruct (c =?c sep) eqn:E.
    + intros [->|Hp]%elem_of_cons; [apply not_elem_of_nil | by apply IH].
    + apply eqc_false in E. destruct (split s sep) as [|q qs] eqn:Hs.
      * intros ->%list_elem_of_singleton. set_solver.
      * intros [->|Hp]%elem_of_cons; [|apply IH; set_solver].
        assert (sep ∉ q) by (apply IH; set_solver). set_solver.
Qed.

Lemma join_split s : join [sep] (split s sep) = s.
Proof.
  induction s as [|c s IH]; simpl; [done|].
  pose proof (split_not_nil s). destruct (c =?c sep) eqn:E.
  - apply eqc_true in E as ->. destruct (split s sep); simpl in *; [done|]. by rewrite IH.
  - destruct (split s sep) as [|q [|r rs]]; simpl in *; [done| |]; by f_equal.
Qed.

Lemma split_app p s : sep ∉ p → split (p ++ sep :: s) sep = p :: split s sep.
Proof.
  induction p as [|c p IH]; intros Hp; simpl.
  - by rewrite eqc_refl.
  - rewrite not_elem_of_cons in Hp. destruct Hp as [Hc Hp].
    destruct (c =?c sep) eqn:E; [apply eqc_true in E; congruence|]. by rewrite IH.
Qed.

Lemma split_single p : sep ∉ p → split p sep = [p].
Proof.
  induction p as [|c p IH]; intros Hp; simpl; [done|].
  rewrite not_elem_of_cons in Hp. destruct Hp as [Hc Hp].
  destruct (c =?c sep) eqn:E; [apply eqc_true in E; congruence|]. by rewrite IH.
Qed.

Lemma split_join l : l ≠ [] → Forall (λ p, sep ∉ p) l → split (join [sep] l) sep = l.
Proof.
  induction l as [|p l IH]; [done|]. intros _ [Hp Hl]%Forall_cons.
  destruct l as [|q l]; [by apply split_single|].
  change (join [sep] (p :: q :: l)) with (p ++ sep :: join [sep] (q :: l)).
  rewrite split_app by done. f_equal. by apply IH.
Qed.

Lemma join_concat x l : join [sep] (x :: l) = x ++ flat_map (cons sep) l.
Proof.
  revert x. induction l as [|y l IH]; intros x; [by rewrite app_nil_r|].
  transitivity (x ++ [sep] ++ join [sep] (y :: l)); [done|]. by rewrite IH.
Qed.
Lemma join_inj l1 l2 : l1 ≠ [] → l2 ≠ [] →
  Forall (λ p, sep ∉ p) l1 → Forall (λ p, sep ∉ p) l2 →
  join [sep] l1 = join [sep] l2 → l1 = l2.
Proof. intros. rewrite <- (split_join l1), <- (split_join l2) by done. by f_equal. Qed.
End split.

Lemma index_byte_Some (s : str) c i :
  index_byte s c = Some i → s = take i s ++ c :: drop (S i) s ∧ c ∉ take i s.
Proof.
  revert i. induction s as [|d s IH]; intros i; simpl; [done|].
  destruct (d =?c c) eqn:E.
  - intros [= <-]. apply eqc_true in E as ->. simpl. split; [done | apply not_elem_of_nil].
  - apply eqc_false in E. intros (j & Hj & ->)%fmap_Some. apply IH in Hj as [H1 H2].
    simpl. split; [by f_equal | set_solver].
Qed.
Lemma index_byte_None (s : str) c : index_byte s c = None ↔ c ∉ s.
Proof.
  induction s as [|d s IH]; simpl; [set_solver|]. destruct (d =?c c) eqn:E.
  - apply eqc_true in E as ->. set_solver.
  - apply eqc_false in E. rewrite fmap_None, IH. set_solver.
Qed.
Lemma cut_true (s : str) sep a b : cut s sep = (a, b, true) → s = a ++ sep :: b ∧ sep ∉ a.
Proof. unfold cut. case_match eqn:E; [|done]. intros [= <- <-]. by apply index_byte_Some. Qed.
Lemma cut_false (s : str) sep a b : cut s sep = (a, b, false) → a = s ∧ b = [] ∧ sep ∉ s.
Proof. unfold cut. case_match eqn:E; [done|]. intros [= <- <-]. by apply index_byte_None in E. Qed.

Lemma index_byte_app (p s : str) c : c ∉ p → index_byte (p ++ c :: s) c = Some (length p).
Proof.
  induction p as [|d p IH]; intros Hp; simpl; [by rewrite eqc_refl|].
  rewrite (proj2 (eqc_false _ _)) by set_solver. by rewrite IH by set_solver.
Qed.
Lemma cut_app (p s : str) c : c ∉ p → cut (p ++ c :: s) c = (p, s, true).
Proof.
  intros Hp. unfold cut. rewrite index_byte_app by done. rewrite take_app_length.
  change (S (length p)) with (1 + length p)%nat. rewrite Nat.add_comm, <- drop_drop, drop_app_length. done.
Qed.
Lemma cut_none (s : str) c : c ∉ s → cut s c = (s, [], false).
Proof. intros Hs. unfold cut. by rewrite (proj2 (index_byte_None s c) Hs). Qed.

Section case_facts.
Context {U : Unicode}.

Lemma is_ascii_cons c s : is_ascii (c :: s) = negb (rune_self c) && is_ascii s.
Proof. done. Qed.

Lemma to_lower_ascii_idem s : is_ascii s = true → to_lower (to_lower s) = to_lower s.
Proof.
  intros H. unfold to_lower at 2 3. rewrite H. unfold to_lower.
  assert (is_ascii (lower_ascii <$> s) = true) as ->.
  { unfold is_ascii in *. rewrite forallb_forall in *. intros c Hc.
    apply list_elem_of_In, list_elem_of_fmap in Hc as (d & -> & Hd).
    rewrite rune_self_lower. apply H. by apply list_elem_of_In. }
  rewrite <- list_fmap_compose. apply list_fmap_ext. intros i c _. simpl.
  apply lower_ascii_idem.
Qed.

Lemma to_lower_ascii_fmap s : is_ascii s = true → to_lower s = lower_ascii <$> s.
Proof. unfold to_lower. by intros ->. Qed.

(** On ASCII strings [EqualFold] is equality of the lower-cased strings. *)
Lemma equal_fold_ascii s t : is_ascii s = true → is_ascii t = true →
  equal_fold s t = true ↔ to_lower s = to_lower t.
Proof.
  intros Hs Ht. rewrite !to_lower_ascii_fmap by done. revert t Hs Ht.
  induction s as [|c s IH]; intros [|d t] Hs Ht; simpl; try done.
  rewrite is_ascii_cons in Hs, Ht. boolify.
  repeat match goal with H : rune_self _ = false |- _ => rewrite H end. simpl.
  destruct (lower_ascii c =?c lower_ascii d) eqn:E.
  - apply eqc_true in E. rewrite IH by done. split; [by intros; f_equal | by intros [=]].
  - apply eqc_false in E. split; [done | by intros [=]].
Qed.

Lemma equal_fold_refl_ascii s : is_ascii s = true → equal_fold s s = true.
Proof. intros. by apply equal_fold_ascii. Qed.
End case_facts.

(** ** [url.ParseRequestURI], the path of the result

    The origin form ("/path?query") is translated; the absolute form, which
    needs package url's authority parser, is the field of a class. *)

(** The last separator is where the parts without one begin. *)
Lemma str_ltb_asym a b : str_ltb a b = true → str_ltb b a = false.
Proof.
  revert b. induction a as [|c a IH]; intros [|d b]; [done..|]. cbn [str_ltb]. rewrite orb_true_iff, andb_true_iff.
  intros [H|[H1 H2]]; apply orb_false_iff; boolify.
  - split; [apply Z.ltb_ge; lia|]. apply andb_false_iff. left. apply eqc_false. intros ->. lia.
  - apply eqc_true in H1 as ->. split; [apply Z.ltb_irrefl|]. rewrite eqc_refl. by apply IH.
Qed.

Lemma str_ltb_total a b : str_ltb b a = false ∨ str_ltb a b = false.
Proof. destruct (str_ltb b a) eqn:E; [right; by apply str_ltb_asym|by left]. Qed.

Lemma sep_inj (x : ascii) (r r' c c' : str) : r ++ x :: c = r' ++ x :: c' → x ∉ c → x ∉ c' → r = r' ∧ c = c'.
Proof.
  revert r'. induction r as [|a r IH]; intros [|a' r'] He Hc Hc'; simpl in He.
  - by injection He as ->.
  - injection He as <- ->. destruct Hc. apply elem_of_app. right. by left.
  - injection He as -> <-. destruct Hc'. apply elem_of_app. right. by left.
  - injection He as -> He. by destruct (IH r' He Hc Hc') as [-> ->].
Qed.

(** ** Trimming white space *)

(** An ASCII byte that is not white space. *)
Definition solid (b : ascii) : bool := negb (rune_self b) && negb (space1 b).

Lemma trim_runes_solid s2 s3 s : (∀ c d, rune_self c = false → s2 c d = false) → (∀ c d e, rune_self c = false → s3 c d e = false) →
  (∀ c, head s = Some c → solid c = true) → trim_runes s2 s3 s = s.
Proof.
  intros H2 H3 Hh. destruct s as [|c s]; [done|]. specialize (Hh c eq_refl). apply andb_true_iff in Hh as [Hr Hs].
  apply negb_true_iff in Hr, Hs. cbn [trim_runes]. rewrite Hs. destruct s as [|d s]; [done|]. rewrite H2 by done.
  destruct s as [|e s]; [done|]. by rewrite H3.
Qed.

Lemma trim_space_ends s : (∀ c, head s = Some c → solid c = true) → (∀ c, last s = Some c → solid c = true) → trim_space s = s.
Proof.
  intros Hh Hl.
  assert (∀ c d, rune_self c = false → space2 c d = false ∧ space2 d c = false) as H2.
  { intros c d. unfold rune_self, space2. rewrite Z.leb_gt, !andb_false_iff, !orb_false_iff, !Z.eqb_neq. lia. }
  assert (∀ c d e, rune_self c = false → space3 c d e = false ∧ space3 d e c = false) as H3.
  { intros c d e. unfold rune_self, space3. rewrite Z.leb_gt, !orb_false_iff, !andb_false_iff, !orb_false_iff, !Z.eqb_neq, !andb_false_iff, !Z.leb_gt. lia. }
  unfold trim_space, trim_left_space, trim_right_space.
  rewrite (trim_runes_solid space2 space3 s); [|intros c d Hc; by destruct (H2 c d Hc)|intros c d e Hc; by destruct (H3 c d e Hc)|done].
  rewrite trim_runes_solid; [apply reverse_involutive|intros c d Hc; by destruct (H2 c d Hc)|intros c d e Hc; by destruct (H3 c e d Hc)|].
  intros c. rewrite head_reverse. apply Hl.
Qed.

Lemma trim_space_id s : forallb (λ b, negb (rune_self b) && negb (space1 b)) s = true → trim_space s = s.
Proof.
  rewrite forallb_forall. intros H. apply trim_space_ends; intros c Hc; apply H, list_elem_of_In.
  - by apply head_Some_elem_of.
  - by apply last_Some_elem_of.
Qed.

Class NetURL := { absolute_uri_path : str → option str }.

Definition ctl_byte (c : ascii) : bool := (code c <? 32) || (code c =? 127).

Definition ParseRequestURI_path {N : NetURL} (raw : str) : option str :=
  if existsb ctl_byte raw then None
  else if raw =?s [] then None
  else if raw =?s "*" then Some (lit "*")
  else if has_prefix raw "/" then path_unescape (fst (fst (cut raw "?")))
  else absolute_uri_path raw.
