(* ===== verification/GoPath.v ===== *)
(** * Paths: Go's [path.Clean]/[path.Join] and the request-path functions that
    every component shares.

    [canonicalRequestPath] and the segment-aware prefix test occur, with the
    same text, in edgeproxy's router, cache and proxy packages and in
    securityedge's routes and waf packages; the first theorems here say that
    a canonical path has no empty, "." or ".." segment, and that the byte-wise
    prefix test decides the prefix order on segments. *)

From S2P Require Import Prelude GoStr.

Definition slash : ascii := "/"%char.

(** ** [path.Clean] *)

(** One path element: [stack] holds the elements kept so far, last first. *)
Definition clean_step (rooted : bool) (stack : list str) (seg : str) : list str :=
  if (seg =?s []) || (seg =?s ".") then stack
  else if seg =?s ".." then
    match stack with
    | [] => if rooted then [] else [seg]
    | top :: rest => if top =?s ".." then seg :: stack else rest
    end
  else seg :: stack.

Definition clean_segs (rooted : bool) (p : str) : list str :=
  reverse (foldl (clean_step rooted) [] (split p slash)).

(** "/" followed by the elements separated by "/". *)
Definition render (segs : list str) : str := slash :: join [slash] segs.

Definition path_clean (p : str) : str :=
  match p with
  | [] => "."
  | _ =>
      let rooted := has_prefix p "/" in
      let segs := clean_segs rooted p in
      if rooted then render segs
      else match segs with [] => "." | _ => join [slash] segs end
  end.

(** [path.Join(a, b)] *)
Definition path_join (a b : str) : str :=
  match a, b with
  | [], [] => []
  | [], _ => path_clean b
  | _, [] => path_clean a
  | _, _ => path_clean (a ++ slash :: b)
  end.

(** ** Request paths *)

Definition canonicalRequestPath (value : str) : str :=
  if value =?s [] then "/"
  else
    let trailingSlash := has_suffix value "/" in
    let cleaned := path_clean (slash :: trim_prefix value "/") in
    if trailingSlash && negb (cleaned =?s "/") then cleaned ++ [slash] else cleaned.

Definition pathPrefixMatches (requestPath prefix : str) : bool :=
  if prefix =?s "/" then true
  else if requestPath =?s prefix then true
  else has_prefix requestPath prefix && (len prefix <? len requestPath)
       && bool_decide (requestPath !! length prefix = Some slash).

Definition joinPath (base next : str) : str :=
  let base := if base =?s [] then lit "/" else base in
  let next := if next =?s [] then lit "/" else next in
  let trailing := has_suffix next "/" in
  let joined := path_join base next in
  let joined := if trailing && negb (has_suffix joined "/") then joined ++ [slash] else joined in
  if has_prefix joined "/" then joined else slash :: joined.

(** ** Specification: paths as lists of segments *)

Definition seg_ok (s : str) : Prop := s ≠ [] ∧ s ≠ lit "." ∧ s ≠ lit ".." ∧ slash ∉ s.
#[export] Instance seg_ok_dec s : Decision (seg_ok s) := _.

(** The segments a request path denotes. *)
Definition request_segments (value : str) : list str := clean_segs true (slash :: trim_prefix value "/").

(** A path in canonical form: ok segments and possibly one final "/". *)
Definition canonical_form (segs : list str) (trailing : bool) : str :=
  render segs ++ (if trailing && negb (bool_decide (segs = [])) then [slash] else []).

(** ** Segment lemmas *)

Lemma split_app_sep (a b : str) c : split (a ++ c :: b) c = split a c ++ split b c.
Proof.
  induction a as [|d a IH]; simpl.
  - by rewrite eqc_refl.
  - rewrite IH. destruct (d =?c c); [done|].
    pose proof (split_not_nil c a). by destruct (split a c).
Qed.

Lemma seg_ok_no_slash segs : Forall seg_ok segs → Forall (λ p, slash ∉ p) segs.
Proof. intros H. eapply Forall_impl; [exact H|]. by intros p (_ & _ & _ & ?). Qed.

Lemma split_render segs : Forall seg_ok segs → segs ≠ [] → split (render segs) slash = [] :: segs.
Proof.
  intros Hs Hne. unfold render. simpl. f_equal.
  apply split_join; [done | by apply seg_ok_no_slash].
Qed.

Lemma split_canonical segs tr : Forall seg_ok segs → segs ≠ [] →
  split (canonical_form segs tr) slash = [] :: segs ++ (if tr then [[]] else []).
Proof.
  intros Hs Hne. unfold canonical_form. rewrite bool_decide_eq_false_2 by done.
  destruct tr; cbn [andb negb].
  - by rewrite split_app_sep, split_render.
  - rewrite !app_nil_r. by apply split_render.
Qed.

Lemma clean_step_ok stack seg : slash ∉ seg → Forall seg_ok stack → Forall seg_ok (clean_step true stack seg).
Proof.
  intros Hseg Hst. unfold clean_step.
  destruct (seg =?s []) eqn:E1; simpl; [done|]. destruct (seg =?s ".") eqn:E2; simpl; [done|].
  destruct (seg =?s "..") eqn:E3; boolify.
  - destruct stack as [|top rest]; [done|]. apply Forall_cons in Hst as [Htop Hrest].
    destruct (top =?s "..") eqn:E4; [|done]. boolify. subst. by destruct Htop as (_ & _ & ? & _).
  - constructor; [|done]. by repeat split.
Qed.

Lemma clean_segs_ok p : Forall seg_ok (clean_segs true p).
Proof.
  unfold clean_segs. rewrite Forall_reverse.
  assert (∀ segs stack, Forall (λ s, slash ∉ s) segs → Forall seg_ok stack →
    Forall seg_ok (foldl (clean_step true) stack segs)) as Hgen.
  { induction segs as [|s segs IH]; intros stack Hs Hst; simpl; [done|].
    apply Forall_cons in Hs as [??]. apply IH; [done|]. by apply clean_step_ok. }
  apply Hgen; [|constructor]. apply Forall_forall. intros s. apply split_no_sep.
Qed.

Lemma foldl_clean_ok segs stack : Forall seg_ok segs →
  foldl (clean_step true) stack segs = reverse segs ++ stack.
Proof.
  revert stack. induction segs as [|s segs IH]; intros stack; simpl; [done|].
  intros [(H1 & H2 & H3 & _) Hs]%Forall_cons.
  unfold clean_step at 2.
  assert ((s =?s []) = false) as -> by (by apply eqs_false).
  assert ((s =?s ".") = false) as -> by by apply eqs_false.
  assert ((s =?s "..") = false) as -> by by apply eqs_false. simpl.
  rewrite IH by done. by rewrite reverse_cons, <- app_assoc.
Qed.

Lemma clean_segs_canonical segs tr : Forall seg_ok segs → clean_segs true (canonical_form segs tr) = segs.
Proof.
  intros Hs. destruct (decide (segs = [])) as [->|Hne]; [destruct tr; reflexivity|].
  unfold clean_segs. rewrite split_canonical by done. simpl.
  rewrite foldl_app, (foldl_clean_ok segs), app_nil_r by done.
  destruct tr; simpl; [change (clean_step true (reverse segs) []) with (reverse segs)|];
    by rewrite reverse_involutive.
Qed.

Lemma path_clean_rooted p : path_clean (slash :: p) = render (clean_segs true (slash :: p)).
Proof. unfold path_clean. change (slash :: p) with (lit "/" ++ p). by rewrite has_prefix_app. Qed.

Lemma render_nil_iff segs : Forall seg_ok segs → render segs = lit "/" ↔ segs = [].
Proof.
  intros Hs. split; [|by intros ->]. destruct segs as [|s segs]; [done|].
  apply Forall_cons in Hs as [(H & _) _]. unfold render. destruct s; [done|].
  intros Heq. exfalso. destruct segs; simpl in Heq; discriminate.
Qed.

(** Every result of [canonicalRequestPath] is a canonical form. *)
Lemma canonical_is_form value :
  canonicalRequestPath value = canonical_form (request_segments value) (has_suffix value "/").
Proof.
  unfold canonicalRequestPath, canonical_form, request_segments.
  destruct (value =?s []) eqn:E; [apply eqs_true in E as ->; reflexivity|].
  rewrite path_clean_rooted. set (segs := clean_segs _ _).
  assert (Forall seg_ok segs) as Hok by apply clean_segs_ok.
  assert ((render segs =?s "/") = bool_decide (segs = [])) as ->.
  { apply bool_decide_ext. by apply render_nil_iff. }
  destruct (has_suffix value "/"); simpl; [|by rewrite app_nil_r].
  by destruct (bool_decide (segs = [])); simpl; rewrite ?app_nil_r.
Qed.

Lemma request_segments_ok value : Forall seg_ok (request_segments value).
Proof. apply clean_segs_ok. Qed.
#[export] Hint Resolve clean_segs_ok request_segments_ok : go.

Lemma request_segments_form segs tr : Forall seg_ok segs → request_segments (canonical_form segs tr) = segs.
Proof.
  intros Hs. unfold request_segments.
  assert (∃ t, canonical_form segs tr = lit "/" ++ t) as [t Ht] by (by eexists).
  rewrite Ht, trim_prefix_app. change (slash :: t) with (lit "/" ++ t). rewrite <- Ht.
  by apply clean_segs_canonical.
Qed.

Lemma form_trailing segs tr : Forall seg_ok segs →
  has_suffix (canonical_form segs tr) "/" = tr || bool_decide (segs = []).
Proof.
  intros Hs. unfold canonical_form. destruct (decide (segs = [])) as [->|Hne].
  { rewrite bool_decide_eq_true_2, orb_true_r, andb_false_r by done. reflexivity. }
  rewrite bool_decide_eq_false_2, orb_false_r by done. simpl. destruct tr; simpl.
  { change (slash :: join [slash] segs ++ [slash]) with (render segs ++ lit "/").
    apply has_suffix_app. }
  rewrite app_nil_r. apply bool_decide_eq_false. intros [k Hk].
  assert (split (render segs) slash = split k slash ++ [[]]) as H.
  { unfold render. rewrite Hk. apply (split_app_sep k []). }
  rewrite split_render in H by done. apply (f_equal last) in H.
  rewrite last_snoc, last_cons in H.
  destruct (last segs) as [z|] eqn:Hl; [|by apply last_None in Hl].
  injection H as ->. apply last_Some_elem_of in Hl.
  rewrite Forall_forall in Hs. by destruct (Hs _ Hl) as [? _].
Qed.

Lemma form_app_slash segs : Forall seg_ok segs → segs ≠ [] →
  canonical_form segs true = render segs ++ lit "/".
Proof. intros. unfold canonical_form. by rewrite bool_decide_eq_false_2. Qed.

(** The byte test and the segment order agree on canonical paths. *)
Lemma prefix_segments_sound ps rs tr rest :
  Forall seg_ok ps → ps ≠ [] → Forall seg_ok rs →
  canonical_form rs tr = render ps ++ slash :: rest → ps `prefix_of` rs.
Proof.
  intros Hps Hne Hrs Heq. apply (f_equal (λ s, split s slash)) in Heq.
  rewrite (split_app_sep (render ps)), split_render in Heq by done.
  destruct (decide (rs = [])) as [->|Hrne].
  { assert (split (canonical_form [] tr) slash = [[]; []]) as H by (destruct tr; reflexivity).
    rewrite H in Heq. destruct ps as [|p ps]; [done|]. exfalso.
    injection Heq as <- ?. by destruct (Forall_inv Hps). }
  rewrite split_canonical in Heq by done. simpl in Heq. injection Heq as Heq.
  apply (f_equal (filter (λ s : str, s ≠ []))) in Heq. rewrite !filter_app in Heq.
  assert (∀ l : list str, Forall seg_ok l → filter (λ s : str, s ≠ []) l = l) as Hid.
  { induction 1 as [|x l [Hx _] _ IH]; [done|]. by rewrite filter_cons_True, IH. }
  rewrite (Hid rs), (Hid ps) in Heq by done.
  exists (filter (λ s : str, s ≠ []) (split rest slash)). rewrite <- Heq.
  destruct tr; simpl; by rewrite app_nil_r.
Qed.

Lemma prefix_segments_complete ps rs tr : Forall seg_ok rs → ps ≠ [] → ps `prefix_of` rs →
  canonical_form rs tr = render ps ∨ ∃ rest, canonical_form rs tr = render ps ++ slash :: rest.
Proof.
  intros Hrs Hne [k ->]. apply Forall_app in Hrs as [Hps Hk].
  unfold canonical_form. rewrite bool_decide_eq_false_2 by (by destruct ps).
  rewrite andb_true_r. unfold render. destruct k as [|s k].
  - rewrite app_nil_r. destruct tr; [right; by exists [] | left; by rewrite app_nil_r].
  - right. assert (join [slash] (ps ++ s :: k) = join [slash] ps ++ slash :: join [slash] (s :: k)) as ->.
    { clear Hps. induction ps as [|p [|q ps] IH]; [done|done|].
      change (join [slash] ((p :: q :: ps) ++ s :: k)) with (p ++ [slash] ++ join [slash] ((q :: ps) ++ s :: k)).
      rewrite IH by done. change (join [slash] (p :: q :: ps)) with (p ++ [slash] ++ join [slash] (q :: ps)).
      by rewrite <- !app_assoc. }
    eexists. simpl. by rewrite <- !app_assoc.
Qed.

Lemma pathPrefixMatches_spec (p q : str) : q ≠ lit "/" →
  pathPrefixMatches p q = true ↔ p = q ∨ ∃ rest, p = q ++ slash :: rest.
Proof.
  intros Hq. unfold pathPrefixMatches. rewrite (proj2 (eqs_false _ _)) by done.
  destruct (p =?s q) eqn:E; [apply eqs_true in E; naive_solver|]. apply eqs_false in E.
  split.
  - intros H. boolify. apply has_prefix_inv in H as (t & -> & _). right.
    rewrite lookup_app_r, Nat.sub_diag in H0 by done.
    destruct t as [|c t]; [done|]. simpl in H0. injection H0 as ->. by exists t.
  - intros [->|[rest ->]]; [done|]. rewrite has_prefix_app, len_app, len_cons.
    rewrite lookup_app_r, Nat.sub_diag by done. rewrite bool_decide_eq_true_2 by done.
    pose proof (len_nonneg rest). rewrite andb_true_r. apply Z.ltb_lt. lia.
Qed.

Lemma canonical_idem (value : str) :
  canonicalRequestPath (canonicalRequestPath value) = canonicalRequestPath value.
Proof.
  rewrite (canonical_is_form (canonicalRequestPath value)), (canonical_is_form value).
  rewrite request_segments_form, form_trailing by auto with go.
  unfold canonical_form. by destruct (has_suffix _ _), (bool_decide _).
Qed.

Lemma canonical_slash (value : str) : ∃ t, canonicalRequestPath value = slash :: t.
Proof. rewrite canonical_is_form. by eexists. Qed.

Lemma prefix_segments_iff (value : str) (ps : list str) : Forall seg_ok ps →
  pathPrefixMatches (canonicalRequestPath value) (render ps) = true ↔ ps `prefix_of` request_segments value.
Proof.
  intros Hps. destruct (decide (ps = [])) as [->|Hne].
  { split; [intros _; apply prefix_nil | done]. }
  rewrite canonical_is_form, pathPrefixMatches_spec by by rewrite render_nil_iff.
  pose proof (request_segments_ok value) as Hrs. split.
  - intros [Heq|[rest Heq]]; [|by eapply prefix_segments_sound].
    apply (f_equal request_segments) in Heq. rewrite request_segments_form in Heq by done.
    assert (render ps = canonical_form ps false) as Hf by (unfold canonical_form; by rewrite app_nil_r).
    rewrite Hf, request_segments_form in Heq by done. by rewrite Heq.
  - by apply prefix_segments_complete.
Qed.

(** ** Joining *)

(** The non-empty elements of a path. *)
Definition elements (p : str) : list str := filter (λ s : str, s ≠ []) (split p slash).

(** Every non-empty element is a proper segment: no "." and no "..". *)
Definition plain_path (p : str) : Prop := Forall seg_ok (elements p).

Lemma elements_app a b : elements (a ++ slash :: b) = elements a ++ elements b.
Proof. unfold elements. by rewrite split_app_sep, filter_app. Qed.

Lemma filter_ne_ok segs : Forall seg_ok segs → filter (λ s : str, s ≠ []) segs = segs.
Proof. intros H. apply filter_all. intros s Hs. rewrite Forall_forall in H. by destruct (H s Hs). Qed.

Lemma elements_form segs tr : Forall seg_ok segs → elements (canonical_form segs tr) = segs.
Proof.
  intros Hs. unfold elements. destruct (decide (segs = [])) as [->|Hne]; [by destruct tr|].
  rewrite split_canonical by done. rewrite filter_cons_False by naive_solver.
  rewrite filter_app, filter_ne_ok by done. destruct tr; simpl; by rewrite app_nil_r.
Qed.

Lemma foldl_clean_elements l stack : Forall seg_ok (filter (λ s : str, s ≠ []) l) →
  foldl (clean_step true) stack l = reverse (filter (λ s : str, s ≠ []) l) ++ stack.
Proof.
  revert stack. induction l as [|s l IH]; intros stack H; [done|]. cbn [foldl].
  destruct (decide (s = [])) as [->|Hne].
  - rewrite filter_cons_False in H |- * by naive_solver. by apply IH.
  - rewrite filter_cons_True in H |- * by done. apply Forall_cons in H as [Hs Hl]. rewrite IH by done.
    pose proof (foldl_clean_ok [s] stack ltac:(by apply Forall_singleton)) as Hc. cbn [foldl] in Hc.
    by rewrite Hc, reverse_singleton, reverse_cons, <- app_assoc.
Qed.

Lemma request_segments_rooted base : base = [] ∨ head base = Some slash →
  request_segments base = clean_segs true (if base =?s [] then lit "/" else base).
Proof.
  intros [->|H]; [done|]. destruct base as [|c base]; simplify_eq/=. unfold request_segments.
  change (slash :: base) with (lit "/" ++ base). by rewrite trim_prefix_app.
Qed.

(** Joining a plain path to a rooted base appends its elements. *)
Lemma joinPath_form base next : base = [] ∨ head base = Some slash → plain_path next →
  ∃ tr, joinPath base next = canonical_form (request_segments base ++ elements next) tr.
Proof.
  intros Hb Hn. unfold joinPath. rewrite (request_segments_rooted base Hb).
  set (b := if base =?s [] then lit "/" else base). set (n := if next =?s [] then lit "/" else next).
  assert (elements n = elements next ∧ n ≠ []) as [He Hne].
  { unfold n. destruct (next =?s []) eqn:E; boolify; [subst; by split | done]. }
  assert (∃ t, b = slash :: t) as [t Hbt].
  { unfold b. destruct Hb as [->|Hb]; [by exists []|]. destruct base as [|c base]; simplify_eq/=. by exists base. }
  assert (path_join b n = render (clean_segs true b ++ elements next)) as ->.
  { unfold path_join. rewrite Hbt. destruct n as [|c n'] eqn:En; [done|]. rewrite <- En in *.
    rewrite <- app_comm_cons, path_clean_rooted, app_comm_cons, <- Hbt. f_equal. unfold clean_segs.
    rewrite split_app_sep, foldl_app, foldl_clean_elements.
    - rewrite reverse_app, reverse_involutive. fold (elements n). by rewrite He.
    - fold (elements n). by rewrite He. }
  assert (Forall seg_ok (clean_segs true b ++ elements next)) as Hok by (apply Forall_app; auto with go).
  set (S := clean_segs true b ++ elements next) in *.
  assert (render S = canonical_form S false) as Hr by (unfold canonical_form; by rewrite app_nil_r).
  assert (has_suffix (render S) "/" = bool_decide (S = [])) as Hsuf by (rewrite Hr; by apply form_trailing).
  exists (has_suffix n "/"). rewrite Hsuf. unfold canonical_form. change (lit "/") with [slash].
  assert (∀ t, has_prefix (render S ++ t) [slash] = true) as Hp.
  { intros t'. unfold render. rewrite <- app_comm_cons. apply (has_prefix_app (lit "/")). }
  destruct (has_suffix n [slash] && negb (bool_decide (S = []))); [by rewrite Hp|].
  rewrite app_nil_r. rewrite <- (app_nil_r (render S)) at 1. by rewrite Hp.
Qed.

(** ** Properties *)

(** a canonical request path starts with "/"; its segments are neither empty
    nor "." nor ".." and contain no "/", so no dot-segment survives routing;
    and canonicalising again changes nothing. *)
Theorem canonicalRequestPath_canonical (value : str) :
  (∃ segs trailing, canonicalRequestPath value = canonical_form segs trailing ∧ Forall seg_ok segs)
  ∧ canonicalRequestPath (canonicalRequestPath value) = canonicalRequestPath value.
Proof.
  split; [|apply canonical_idem]. eexists _, _. split; [apply canonical_is_form | apply request_segments_ok].
Qed.

(** the byte-wise prefix test of the routers is the segment order: a route
    with prefix /a/b matches the requests whose path starts with the segments
    a, b — never /a/bc, and never a path that leaves /a/b through "..". *)
Theorem pathPrefixMatches_segments (value : str) (ps : list str) :
  Forall seg_ok ps →
  pathPrefixMatches (canonicalRequestPath value) (render ps) = true ↔ ps `prefix_of` request_segments value.
Proof. apply prefix_segments_iff. Qed.

Lemma pathPrefixMatches_segments_witness :
  pathPrefixMatches (canonicalRequestPath "/api/v1/../v2//x/") (render (lits ["api"; "v2"])) = true.
Proof.
  apply (pathPrefixMatches_segments "/api/v1/../v2//x/" (lits ["api"; "v2"])).
  - repeat constructor; vm_compute; intros H; try discriminate H; set_solver.
  - exists (lits ["x"]). vm_compute. reflexivity.
Defined.
