(* ===== verification/GoHttp.v ===== *)
(** * [http.Header] and the request and response records

    A header maps canonical field names to their field-line values, in order. *)

From S2P Require Import Prelude GoStr.

(** Bytes allowed in an HTTP token ([textproto]'s and the program's own table). *)
Definition token_byte (c : ascii) : bool :=
  is_alnum c || mem_byte c "!#$%&'*+-.^_`|~".

(** [http.CanonicalHeaderKey] *)
Fixpoint canon_bytes (upper : bool) (s : str) : str :=
  match s with
  | [] => []
  | c :: s' =>
      let c' := if upper then upper_ascii c else lower_ascii c in
      c' :: canon_bytes (c' =?c "-") s'
  end.
Definition canonical_key (s : str) : str :=
  if forallb token_byte s then canon_bytes true s else s.

Abbreviation header := (gmap str (list str)).

Definition header_values (h : header) (name : str) : list str := default [] (h !! canonical_key name).
Definition header_get (h : header) (name : str) : str := default [] (head (header_values h name)).
Definition header_set (h : header) (name value : str) : header := <[canonical_key name := [value]]> h.
Definition header_add (h : header) (name value : str) : header :=
  <[canonical_key name := header_values h name ++ [value]]> h.
Definition header_del (h : header) (name : str) : header := delete (canonical_key name) h.

(** What [net/http] parses: every key is canonical. *)
Definition header_canonical (h : header) : Prop := ∀ k, is_Some (h !! k) → canonical_key k = k.

(** [url.URL]: the fields the program reads, and those [RequestURI] reads.
    [RawPath] and [Fragment] are left out: the program clears them before it
    prints a URL. *)
Record URL := mkURL {
  url_scheme : str;
  url_opaque : str;
  url_host : str;
  url_path : str;       (* decoded *)
  url_rawquery : str;
  url_forcequery : bool;
}.

Record Request := mkRequest {
  req_method : str;
  req_host : str;
  req_url : URL;
  req_header : header;
  req_remote : str;                   (* RemoteAddr *)
}.

Record Response := mkResponse {
  resp_status : Z;
  resp_header : header;
  resp_body : str;
}.

(** ** Facts *)

Lemma canon_bytes_idem u s : canon_bytes u (canon_bytes u s) = canon_bytes u s.
Proof.
  revert u. induction s as [|c s IH]; intros u; simpl; [done|].
  assert ((if u then upper_ascii else lower_ascii) ((if u then upper_ascii else lower_ascii) c)
          = (if u then upper_ascii else lower_ascii) c) as Hc.
  { destruct u; clear; all_bytes c. }
  destruct u; rewrite Hc, IH; done.
Qed.

Lemma token_canon u s : forallb token_byte (canon_bytes u s) = forallb token_byte s.
Proof.
  revert u. induction s as [|c s IH]; intros u; simpl; [done|]. rewrite IH. f_equal.
  destruct u; clear; all_bytes c.
Qed.

Lemma canonical_key_idem s : canonical_key (canonical_key s) = canonical_key s.
Proof.
  unfold canonical_key. destruct (forallb token_byte s) eqn:E; [|by rewrite E].
  by rewrite token_canon, E, canon_bytes_idem.
Qed.

Lemma canon_bytes_lower u s : canon_bytes u (lower_ascii <$> s) = canon_bytes u s.
Proof.
  revert u. induction s as [|c s IH]; intros u; simpl; [done|].
  assert ((if u then upper_ascii else lower_ascii) (lower_ascii c) = (if u then upper_ascii else lower_ascii) c) as Hc.
  { destruct u; clear; all_bytes c. }
  destruct u; by rewrite Hc, IH.
Qed.

Lemma lower_canon_bytes u s : lower_ascii <$> canon_bytes u s = lower_ascii <$> s.
Proof.
  revert u. induction s as [|c s IH]; intros u; cbn [canon_bytes]; [done|].
  rewrite !fmap_cons, IH. f_equal. destruct u; clear; all_bytes c.
Qed.

Lemma token_ascii s : forallb token_byte s = true → is_ascii s = true.
Proof.
  induction s as [|c s IH]; [done|]. rewrite is_ascii_cons. simpl. intros [Hc Hs]%andb_true_iff.
  rewrite (IH Hs), andb_true_r. revert Hc. clear. all_bytes c.
Qed.

Lemma token_lower s : forallb token_byte (lower_ascii <$> s) = forallb token_byte s.
Proof. induction s as [|c s IH]; [done|]. rewrite fmap_cons. simpl. rewrite IH. f_equal. all_bytes c. Qed.

(** Token names that agree up to case name the same header. *)
Lemma canonical_key_lower `{U : Unicode} s : forallb token_byte s = true →
  to_lower (canonical_key s) = lower_ascii <$> s ∧ canonical_key (lower_ascii <$> s) = canonical_key s.
Proof.
  intros Hs. unfold canonical_key. rewrite token_lower, Hs, canon_bytes_lower. split; [|done].
  rewrite to_lower_ascii_fmap by (apply token_ascii; by rewrite token_canon). apply lower_canon_bytes.
Qed.

Section header.
Implicit Types (h : header) (name value : str).

Lemma header_values_set h name value : header_values (header_set h name value) name = [value].
Proof. unfold header_values, header_set. by rewrite lookup_insert_eq. Qed.
Lemma header_values_set_ne h name name' value : canonical_key name ≠ canonical_key name' →
  header_values (header_set h name value) name' = header_values h name'.
Proof. intros. unfold header_values, header_set. by rewrite lookup_insert_ne. Qed.
Lemma header_get_set h name value : header_get (header_set h name value) name = value.
Proof. unfold header_get. by rewrite header_values_set. Qed.
Lemma header_get_set_ne h name name' value : canonical_key name ≠ canonical_key name' →
  header_get (header_set h name value) name' = header_get h name'.
Proof. intros. unfold header_get. by rewrite header_values_set_ne. Qed.
Lemma header_values_del h name : header_values (header_del h name) name = [].
Proof. unfold header_values, header_del. by rewrite lookup_delete_eq. Qed.
Lemma header_values_del_ne h name name' : canonical_key name ≠ canonical_key name' →
  header_values (header_del h name) name' = header_values h name'.
Proof. intros. unfold header_values, header_del. by rewrite lookup_delete_ne. Qed.
Lemma header_del_lookup h name k :
  header_del h name !! k = if decide (canonical_key name = k) then None else h !! k.
Proof. unfold header_del. by rewrite lookup_delete. Qed.

Lemma header_set_lookup h name value k :
  header_set h name value !! k = if decide (canonical_key name = k) then Some [value] else h !! k.
Proof. unfold header_set. by rewrite lookup_insert. Qed.
Lemma header_add_lookup h name value k :
  header_add h name value !! k
  = if decide (canonical_key name = k) then Some (header_values h name ++ [value]) else h !! k.
Proof. unfold header_add. by rewrite lookup_insert. Qed.

(** Deleting a list of names, the way the program does it. *)
Lemma header_del_foldl h names k :
  foldl header_del h names !! k = if decide (k ∈ canonical_key <$> names) then None else h !! k.
Proof.
  revert h. induction names as [|n names IH]; intros h; simpl; [done|].
  rewrite IH, header_del_lookup. repeat case_decide; set_solver.
Qed.
End header.
#[export] Hint Rewrite header_values_set header_get_set header_values_del : go_eqs.
