(* ===== verification/NetIP.v ===== *)
(** * The part of package [net] the program uses: addresses, networks, host:port

    [net.ParseIP] returns a 16-byte slice: an address is modelled by the
    128-bit integer those bytes denote, so an IPv4 address a.b.c.d is the
    mapped address ::ffff:a.b.c.d.  [ParseIP], [IP.String], [ParseCIDR],
    [IPNet.Contains] and [SplitHostPort] are translated from package net. *)

From S2P Require Import Prelude GoStr.

Abbreviation ip := Z (only parsing).

Definition v4_prefix : Z := 0xffff * 2 ^ 32.
(** [ip.To4() != nil], and the 32-bit value. *)
Definition is_v4 (a : ip) : bool := Z.shiftr a 32 =? 0xffff.
Definition v4_bits (a : ip) : Z := a mod 2 ^ 32.

(** ** [net.ParseIP] *)

Definition parse_v4_field (s : str) : option Z :=
  match s with
  | [] => None
  | c :: t =>
      if (c =?c "0") && (0 <? len t) then None
      else n ← parse_digits 0 s; if n <=? 255 then Some n else None
  end.

Definition parse_v4 (s : str) : option Z :=
  match split s "." with
  | [a; b; c; d] =>
      a ← parse_v4_field a; b ← parse_v4_field b; c ← parse_v4_field c; d ← parse_v4_field d;
      Some (((a * 256 + b) * 256 + c) * 256 + d)
  | _ => None
  end.

(** The maximal run of hex digits at the start of [s] and the rest. *)
Fixpoint hex_run (s : str) : str * str :=
  match s with
  | [] => ([], [])
  | c :: s' => if bool_decide (is_Some (unhex c))
               then let '(a, b) := hex_run s' in (c :: a, b) else ([], s)
  end.
Definition hex_value (s : str) : Z := foldl (λ acc c, acc * 16 + default 0 (unhex c)) 0 s.

(** The main loop of netip's parseIPv6: [groups] are the 16-bit groups read so
    far (last first), [ell] the number of groups before the "::".  The fuel is
    the number of groups an address can still take. *)
Fixpoint parse_v6_loop (fuel : nat) (groups : list Z) (ell : option nat) (s : str)
    : option (list Z * option nat * str) :=
  match fuel with
  | O => Some (groups, ell, s)
  | S fuel =>
      let '(run, rest) := hex_run s in
      if (len run =? 0) || (4 <? len run) then None
      else match rest with
      | c :: rest' =>
          if c =?c "." then
            if (bool_decide (ell = None)) && negb (len groups =? 6) then None
            else if 6 <? len groups then None
            else v ← parse_v4 s; Some (v mod 65536 :: v / 65536 :: groups, ell, [])
          else
            let groups := hex_value run :: groups in
            if negb (c =?c ":") then None
            else match rest' with
            | [] => None
            | d :: rest'' =>
                if d =?c ":" then
                  match ell with
                  | Some _ => None
                  | None =>
                      match rest'' with
                      | [] => Some (groups, Some (length groups), [])
                      | _ => parse_v6_loop fuel groups (Some (length groups)) rest''
                      end
                  end
                else parse_v6_loop fuel groups ell rest'
            end
      | [] => Some (hex_value run :: groups, ell, [])
      end
  end.

Definition groups_value (gs : list Z) : Z := foldl (λ acc g, acc * 65536 + g) 0 gs.

Definition parse_v6 (s : str) : option Z :=
  let '(ell, body) := if has_prefix s "::" then (Some 0%nat, drop 2 s) else (None, s) in
  if bool_decide (ell = Some 0%nat) && (len body =? 0) then Some 0
  else
    '(groups, ell, rest) ← parse_v6_loop 8 [] ell body;
    if negb (len rest =? 0) then None
    else
      let gs := reverse groups in
      if len gs <? 8 then
        match ell with
        | None => None
        | Some e => Some (groups_value (take e gs ++ replicate (8 - length gs) 0 ++ drop e gs))
        end
      else match ell with Some _ => None | None => Some (groups_value gs) end.

(** The first '.', ':' or '%' decides the family. *)
Fixpoint addr_family (s : str) : option ascii :=
  match s with
  | [] => None
  | c :: s' => if mem_byte c ".:%" then Some c else addr_family s'
  end.

Definition ParseIP (s : str) : option ip :=
  match addr_family s with
  | Some c =>
      if c =?c "." then (λ v, v4_prefix + v) <$> parse_v4 s
      else if c =?c ":" then
        if mem_byte "%" s then None (* a zone, or an empty one *) else parse_v6 s
      else None
  | None => None
  end.

(** ** [IP.String] *)

Definition hex_digit (n : Z) : ascii := if n <? 10 then chr (48 + n) else chr (87 + n).
Definition hex16 (g : Z) : str :=
  let d3 := g / 4096 in let d2 := g / 256 mod 16 in let d1 := g / 16 mod 16 in let d0 := g mod 16 in
  if 4096 <=? g then [hex_digit d3; hex_digit d2; hex_digit d1; hex_digit d0]
  else if 256 <=? g then [hex_digit d2; hex_digit d1; hex_digit d0]
  else if 16 <=? g then [hex_digit d1; hex_digit d0]
  else [hex_digit d0].

Definition ip_groups (a : ip) : list Z :=
  (λ i, a / 2 ^ (16 * i) mod 65536) <$> [7; 6; 5; 4; 3; 2; 1; 0].

Fixpoint zero_run (gs : list Z) : nat :=
  match gs with
  | g :: gs' => if g =? 0 then S (zero_run gs') else O
  | [] => O
  end.
(** The first longest run of at least two zero groups: (start, end). *)
Fixpoint best_run (i : nat) (best : nat * nat) (gs : list Z) : nat * nat :=
  match gs with
  | [] => best
  | _ :: gs' =>
      let l := zero_run gs in
      let best := if bool_decide (2 ≤ l)%nat && bool_decide (snd best - fst best < l)%nat
                  then (i, (i + l)%nat) else best in
      best_run (S i) best gs'
  end.

Definition string_v6 (a : ip) : str :=
  let gs := ip_groups a in
  let '(s, e) := best_run 0 (255%nat, 255%nat) gs in
  if bool_decide (s < 8)%nat
  then join ":" (hex16 <$> take s gs) ++ "::" ++ join ":" (hex16 <$> drop e gs)
  else join ":" (hex16 <$> gs).

Definition string_v4 (v : Z) : str :=
  join "." (itoa <$> [v / 2 ^ 24; v / 2 ^ 16 mod 256; v / 2 ^ 8 mod 256; v mod 256]).

Definition ip_string (a : ip) : str :=
  if is_v4 a then string_v4 (v4_bits a) else string_v6 a.

(** ** [net.ParseCIDR] and [IPNet.Contains] *)

Record IPNet := mkIPNet {
  net_ip : ip;         (* the masked address *)
  net_mask4 : bool;    (* the mask has 4 bytes (otherwise 16) *)
  net_ones : Z;        (* leading ones of the mask *)
}.

Definition mask_top (w n v : Z) : Z := Z.shiftl (Z.shiftr v (w - n)) (w - n).

(** net.dtoi: decimal digits, the whole string here, no sign. *)
Definition parse_mask (s : str) (bits : Z) : option Z :=
  match s with
  | [] => None
  | _ => n ← parse_digits 0 s; if n <=? bits then Some n else None
  end.

Definition ParseCIDR (s : str) : option IPNet :=
  let '(addr, mask, found) := cut s "/" in
  if negb found then None
  else
    a ← ParseIP addr;
    (* a dotted-decimal address has BitLen 32; a mapped one written in IPv6 has 128 *)
    let four := bool_decide (addr_family addr = Some "."%char) in
    n ← parse_mask mask (if four then 32 else 128);
    Some {| net_ip := if four then v4_prefix + mask_top 32 n (v4_bits a) else mask_top 128 n a;
            net_mask4 := four; net_ones := n |}.

Definition net_contains (n : IPNet) (a : ip) : bool :=
  if net_mask4 n then
    is_v4 a && (mask_top 32 (net_ones n) (v4_bits a) =? mask_top 32 (net_ones n) (v4_bits (net_ip n)))
  else if is_v4 (net_ip n) then
    let ones := Z.max 0 (net_ones n - 96) in
    is_v4 a && (mask_top 32 ones (v4_bits a) =? mask_top 32 ones (v4_bits (net_ip n)))
  else
    negb (is_v4 a) && (mask_top 128 (net_ones n) a =? mask_top 128 (net_ones n) (net_ip n)).

(** [ip.IsLoopback], [ip.IsUnspecified], [ip.Equal] *)
Definition ip_is_loopback (a : ip) : bool :=
  if is_v4 a then v4_bits a / 2 ^ 24 =? 127 else a =? 1.
Definition ip_is_unspecified (a : ip) : bool := (a =? v4_prefix) || (a =? 0).
Definition ip_equal (a b : ip) : bool := a =? b.

(** ** [net.SplitHostPort], [net.JoinHostPort] *)

Definition SplitHostPort (hostport : str) : option (str * str) :=
  i ← last_index_byte hostport ":";
  match hostport with
  | c :: _ =>
      if c =?c "[" then
        e ← index_byte hostport "]";
        if bool_decide (S e = i) then
          let host := take (e - 1) (drop 1 hostport) in
          if mem_byte "[" (drop 1 hostport) || mem_byte "]" (drop (S e) hostport) then None
          else Some (host, drop (S i) hostport)
        else None
      else
        let host := take i hostport in
        if mem_byte ":" host then None
        else if mem_byte "[" hostport || mem_byte "]" hostport then None
        else Some (host, drop (S i) hostport)
  | [] => None
  end.

Definition JoinHostPort (host port : str) : str :=
  if mem_byte ":" host then "[" ++ host ++ "]:" ++ port else host ++ ":" ++ port.
