(* ===== verification/NetIPFacts.v ===== *)
(** * Addresses print and parse back (NetIP.v)

    The text that [IP.String] and [IPNet.String] give is read back by [ParseIP]
    and [ParseCIDR]: dotted decimal, and hexadecimal groups with the longest run
    of zeros compressed. *)

From S2P Require Import Prelude GoStr NetIP.

Module NetFacts.

(** ** Decimal *)

Lemma itoa_digits z : 0 <= z <= 255 → parse_v4_field (itoa z) = Some z ∧ parse_digits 0 (itoa z) = Some z
  ∧ itoa z ≠ [] ∧ forallb is_digit (itoa z) = true.
Proof.
  intros Hz. assert (forallb (λ n, bool_decide (parse_v4_field (itoa (Z.of_nat n)) = Some (Z.of_nat n))
      && bool_decide (parse_digits 0 (itoa (Z.of_nat n)) = Some (Z.of_nat n))
      && negb (itoa (Z.of_nat n) =?s []) && forallb is_digit (itoa (Z.of_nat n))) (seq 0 256) = true) as Hall
    by (vm_compute; reflexivity).
  rewrite forallb_forall in Hall. specialize (Hall (Z.to_nat z)). rewrite in_seq, Z2Nat.id in Hall by lia.
  rewrite !andb_true_iff, !bool_decide_eq_true, negb_true_iff, eqs_false in Hall. destruct Hall as [[[? ?] ?] ?]; [lia|done].
Qed.

Lemma digits_no (c : ascii) s : forallb is_digit s = true → is_digit c = false → c ∉ s.
Proof. rewrite forallb_forall. intros H Hc Hin%list_elem_of_In. apply H in Hin. congruence. Qed.

(** The bytes before the first of ".:%" do not matter. *)
Lemma addr_family_skip s t : (∀ c, c ∈ s → mem_byte c ".:%" = false) → addr_family (s ++ t) = addr_family t.
Proof.
  induction s as [|c s IH]; intros H; [done|]. cbn [app addr_family]. rewrite (H c) by by left. apply IH. intros d Hd. apply H. by right.
Qed.

Lemma is_digit_family c : is_digit c = true → mem_byte c ".:%" = false.
Proof. clear. all_bytes c. Qed.

Lemma parse_string_v4 v : 0 <= v < 2 ^ 32 → parse_v4 (string_v4 v) = Some v ∧ addr_family (string_v4 v) = Some "."%char.
Proof.
  intros Hv. unfold string_v4. set (a := v / 2 ^ 24). set (b := v / 2 ^ 16 mod 256). set (c := v / 2 ^ 8 mod 256). set (d := v mod 256).
  assert (0 <= a <= 255) as Ha by (unfold a; Z.to_euclidean_division_equations; lia).
  assert (0 <= b <= 255 ∧ 0 <= c <= 255 ∧ 0 <= d <= 255) as (Hb & Hc & Hd)
    by (pose proof (Z.mod_pos_bound (v / 2 ^ 16) 256); pose proof (Z.mod_pos_bound (v / 2 ^ 8) 256); pose proof (Z.mod_pos_bound v 256); lia).
  assert (((a * 256 + b) * 256 + c) * 256 + d = v) as Hval by (unfold a, b, c, d; Z.to_euclidean_division_equations; lia).
  clearbody a b c d. destruct (itoa_digits a Ha) as (A1 & _ & A2 & A3). destruct (itoa_digits b Hb) as (B1 & _ & _ & B3).
  destruct (itoa_digits c Hc) as (C1 & _ & _ & C3). destruct (itoa_digits d Hd) as (D1 & _ & _ & D3). split.
  - unfold parse_v4. change (join "." (itoa <$> [a; b; c; d])) with (join ["."%char] (itoa <$> [a; b; c; d])).
    rewrite split_join; [|done|].
    + cbn [fmap list_fmap]. rewrite A1, B1, C1, D1. cbn [mbind option_bind]. by rewrite Hval.
    + repeat (apply Forall_cons; split; [by apply digits_no|]). apply Forall_nil_2.
  - change (join "." (itoa <$> [a; b; c; d])) with (itoa a ++ "." ++ join "." (itoa <$> [b; c; d])). rewrite addr_family_skip; [done|].
    intros x Hx. rewrite forallb_forall in A3. by apply is_digit_family, A3, list_elem_of_In.
Qed.

(** ** Hexadecimal groups *)

Lemma unhex_digit n : 0 <= n < 16 → unhex (hex_digit n) = Some n ∧ mem_byte (hex_digit n) ".:%" = false ∧ hex_digit n ≠ ":"%char.
Proof.
  intros Hn. assert (forallb (λ n, bool_decide (unhex (hex_digit (Z.of_nat n)) = Some (Z.of_nat n))
    && negb (mem_byte (hex_digit (Z.of_nat n)) ".:%") && negb (eqc (hex_digit (Z.of_nat n)) ":")) (seq 0 16) = true) as Hall
    by (vm_compute; reflexivity).
  rewrite forallb_forall in Hall. specialize (Hall (Z.to_nat n)). rewrite in_seq, Z2Nat.id in Hall by lia.
  rewrite !andb_true_iff, bool_decide_eq_true, !negb_true_iff, eqc_false in Hall. destruct Hall as [[? ?] ?]; [lia|done].
Qed.

(** The digits of a group. *)
Lemma hex16_spec g : 0 <= g < 65536 → ∃ ds, hex16 g = hex_digit <$> ds ∧ Forall (λ d, 0 <= d < 16) ds
  ∧ (1 <= length ds <= 4)%nat ∧ foldl (λ acc d, acc * 16 + d) 0 ds = g.
Proof.
  intros Hg. unfold hex16. set (d3 := g / 4096). set (d2 := g / 256 mod 16). set (d1 := g / 16 mod 16). set (d0 := g mod 16).
  assert (0 <= d3 < 16) by (unfold d3; Z.to_euclidean_division_equations; lia).
  assert (0 <= d2 < 16 ∧ 0 <= d1 < 16 ∧ 0 <= d0 < 16) as (? & ? & ?)
    by (pose proof (Z.mod_pos_bound (g / 256) 16); pose proof (Z.mod_pos_bound (g / 16) 16); pose proof (Z.mod_pos_bound g 16); lia).
  assert (g = ((d3 * 16 + d2) * 16 + d1) * 16 + d0) as Hval by (unfold d0, d1, d2, d3; Z.to_euclidean_division_equations; lia).
  clearbody d0 d1 d2 d3.
  destruct (Z.leb_spec 4096 g); [exists [d3; d2; d1; d0]|destruct (Z.leb_spec 256 g); [exists [d2; d1; d0]|
    destruct (Z.leb_spec 16 g); [exists [d1; d0]|exists [d0]]]].
  all: split; [done|split; [repeat (apply Forall_cons; split; [lia|]); apply Forall_nil_2|split; [simpl; lia|cbn [foldl]; lia]]].
Qed.

Definition ends_run (rest : str) : Prop := match rest with [] => True | c :: _ => unhex c = None end.

Lemma hex_run_digits ds rest : Forall (λ d, 0 <= d < 16) ds → ends_run rest →
  hex_run ((hex_digit <$> ds) ++ rest) = (hex_digit <$> ds, rest).
Proof.
  intros Hd Hr. induction Hd as [|d ds Hd _ IH].
  - destruct rest as [|c rest]; [done|]. cbn [ends_run] in Hr. cbn [fmap list_fmap app hex_run]. rewrite bool_decide_eq_false_2; [done|]. rewrite Hr. by intros [? ?].
  - rewrite fmap_cons. cbn [app hex_run]. destruct (unhex_digit d Hd) as [-> _]. rewrite bool_decide_eq_true_2 by by eexists. by rewrite IH.
Qed.

Lemma hex_value_digits ds : Forall (λ d, 0 <= d < 16) ds → hex_value (hex_digit <$> ds) = foldl (λ acc d, acc * 16 + d) 0 ds.
Proof.
  intros Hd. unfold hex_value.
  assert (∀ acc, foldl (λ acc c, acc * 16 + default 0 (unhex c)) acc (hex_digit <$> ds) = foldl (λ acc d, acc * 16 + d) acc ds) as H; [|done].
  induction Hd as [|d ds Hd _ IH]; intros acc; [done|]. rewrite fmap_cons. cbn [foldl]. destruct (unhex_digit d Hd) as [-> _]. apply IH.
Qed.

Lemma group_run g rest : 0 <= g < 65536 → ends_run rest →
  ∃ run, hex_run (hex16 g ++ rest) = (run, rest) ∧ hex_value run = g ∧ ((len run =? 0) || (4 <? len run)) = false.
Proof.
  intros Hg Hr. destruct (hex16_spec g Hg) as (ds & -> & Hd & Hl & Hv). exists (hex_digit <$> ds).
  split; [by apply hex_run_digits|]. split; [by rewrite hex_value_digits|]. unfold len. rewrite length_fmap.
  rewrite orb_false_iff, Z.eqb_neq, Z.ltb_ge. lia.
Qed.

Definition in_range (gs : list Z) : Prop := Forall (λ g, 0 <= g < 65536) gs.
Definition text (gs : list Z) : str := join ":" (hex16 <$> gs).

Lemma text_cons g gs : gs ≠ [] → text (g :: gs) = hex16 g ++ ":" ++ text gs.
Proof. by destruct gs. Qed.

Lemma hex16_head g rest : 0 <= g < 65536 → ∃ c s, hex16 g ++ rest = c :: s ∧ c ≠ ":"%char.
Proof.
  intros Hg. destruct (hex16_spec g Hg) as ([|d ds] & -> & Hd & Hl & _); [simpl in Hl; lia|]. inversion_clear Hd.
  rewrite fmap_cons. cbn [app]. do 2 eexists. split; [done|]. by apply unhex_digit.
Qed.

(** One group that a colon follows; [s] does not start with a colon. *)
Lemma loop_group fuel groups ell g c s : 0 <= g < 65536 → c ≠ ":"%char →
  parse_v6_loop (S fuel) groups ell (hex16 g ++ ":" ++ c :: s) = parse_v6_loop fuel (g :: groups) ell (c :: s).
Proof.
  intros Hg Hc. change (":" ++ c :: s) with (":"%char :: c :: s). destruct (group_run g (":"%char :: c :: s) Hg) as (run & Hrun & Hv & Hl); [done|]. cbn [parse_v6_loop].
  rewrite Hrun, Hl. change (":"%char =?c ".")%char with false.
  change (":"%char =?c ":")%char with true. cbn [negb]. cbv zeta. rewrite Hv. by rewrite (proj2 (eqc_false c ":")).
Qed.

Lemma loop_text gs fuel groups ell : in_range gs → gs ≠ [] → (length gs <= fuel)%nat →
  parse_v6_loop fuel groups ell (text gs) = Some (reverse gs ++ groups, ell, []).
Proof.
  intros Hgs. revert fuel groups. induction Hgs as [|g gs Hg Hgs IH]; intros fuel groups Hne Hf; [done|].
  destruct fuel as [|fuel]; [simpl in Hf; lia|]. destruct gs as [|g' gs].
  - destruct (group_run g [] Hg I) as (run & Hrun & Hv & Hl). cbn [parse_v6_loop]. rewrite app_nil_r in Hrun.
    change (text [g]) with (hex16 g). by rewrite Hrun, Hl, Hv.
  - rewrite text_cons by done. inversion_clear Hgs as [|? ? Hg' _].
    assert (∃ c s, text (g' :: gs) = c :: s ∧ c ≠ ":"%char) as (c & s & Es & Hc).
    { destruct gs as [|g'' gs]; [rewrite <- (app_nil_r (text [g'])); by apply (hex16_head g' [])|rewrite text_cons by done; by apply hex16_head]. }
    rewrite Es, loop_group by done. rewrite <- Es, IH by (done || simpl in *; lia). rewrite (reverse_cons (g' :: gs)). by rewrite <- (assoc_L (++)).
Qed.

Lemma text_head gs : in_range gs → gs ≠ [] → ∃ c s, text gs = c :: s ∧ c ≠ ":"%char.
Proof.
  intros Hgs Hne. destruct Hgs as [|g gs Hg _]; [done|]. destruct gs as [|g' gs].
  - rewrite <- (app_nil_r (text [g])). by apply (hex16_head g []).
  - rewrite text_cons by done. by apply hex16_head.
Qed.

(** Groups, the gap, and the groups after it. *)
Lemma loop_gap A B fuel groups : in_range A → in_range B → A ≠ [] → (length A + length B <= fuel)%nat →
  parse_v6_loop fuel groups None (text A ++ "::" ++ text B)
  = Some (reverse B ++ reverse A ++ groups, Some (length A + length groups)%nat, []).
Proof.
  intros HA HB. revert fuel groups. induction HA as [|g A Hg HA IH]; intros fuel groups Hne Hf; [done|].
  destruct fuel as [|fuel]; [simpl in Hf; lia|]. destruct A as [|g' A].
  - change (text [g]) with (hex16 g). change ("::" ++ text B) with (":"%char :: ":"%char :: text B).
    destruct (group_run g (":"%char :: ":"%char :: text B) Hg) as (run & Hrun & Hv & Hl); [done|]. cbn [parse_v6_loop].
    rewrite Hrun, Hl, Hv. change (":"%char =?c ".")%char with false. change (":"%char =?c ":")%char with true. cbn [negb]. cbv zeta.
    destruct (decide (B = [])) as [->|HBne]; [done|]. destruct (text_head B HB HBne) as (c & s & E & _). rewrite E, <- E.
    rewrite loop_text; [done|done|done|simpl in Hf; lia].
  - rewrite text_cons by done. rewrite <- !(assoc_L (++)).
    destruct (text_head (g' :: A) HA ltac:(done)) as (c & s & E & Hc). rewrite E. cbn [app]. rewrite loop_group by done.
    change (c :: s ++ "::" ++ text B) with ((c :: s) ++ "::" ++ text B). rewrite <- E, IH by (done || simpl in *; lia).
    rewrite (reverse_cons (g' :: A)), <- !(assoc_L (++)). cbn [length]. by rewrite Nat.add_succ_r.
Qed.

(** ** The longest run of zeros *)

Lemma zero_run_spec gs : (zero_run gs <= length gs)%nat ∧ ∀ k, (k < zero_run gs)%nat → gs !! k = Some 0.
Proof.
  induction gs as [|g gs [IH1 IH2]]; cbn [zero_run]; [split; [done|lia]|]. destruct (Z.eqb_spec g 0) as [->|]; [|split; [lia|lia]].
  split; [simpl; lia|]. intros [|k] Hk; [done|]. apply IH2. lia.
Qed.

(** No gap, or a gap of zeros. *)
Definition gap_ok (gs : list Z) (se : nat * nat) : Prop :=
  se = (255%nat, 255%nat) ∨ (se.1 < se.2 <= length gs)%nat ∧ ∀ k, (se.1 <= k < se.2)%nat → gs !! k = Some 0.

Lemma best_run_ok all gs i best : gs = drop i all → gap_ok all best → gap_ok all (best_run i best gs).
Proof.
  revert i best. induction gs as [|g gs IH]; intros i best Hgs Hb; cbn [best_run]; [done|].
  apply IH; [by rewrite <- Nat.add_1_r, <- drop_drop, <- Hgs|].
  case_match; [|done]. right. destruct (zero_run_spec (g :: gs)) as [H1 H2]. rewrite Hgs in H1 at 2. rewrite length_drop in H1.
  apply andb_true_iff in H as [H _]. apply bool_decide_eq_true in H. cbn [fst snd]. split; [lia|].
  intros k Hk. specialize (H2 (k - i)%nat ltac:(lia)). rewrite Hgs, lookup_drop in H2. by replace (i + (k - i))%nat with k in H2 by lia.
Qed.

Lemma gap_fill gs s e : (s < e <= length gs)%nat → (∀ k, (s <= k < e)%nat → gs !! k = Some 0) →
  take s gs ++ replicate (e - s) 0 ++ drop e gs = gs.
Proof.
  intros Hse Hz. rewrite <- (take_drop s gs) at 3. f_equal. apply list_eq. intros k. destruct (decide (k < e - s)%nat).
  - rewrite lookup_app_l by (by rewrite length_replicate). rewrite lookup_replicate_2 by done. rewrite lookup_drop, Hz by lia. done.
  - rewrite lookup_app_r by (rewrite length_replicate; lia). rewrite length_replicate, !lookup_drop. f_equal. lia.
Qed.

(** ** Whole addresses *)

Lemma ip_groups_ok a : in_range (ip_groups a) ∧ length (ip_groups a) = 8%nat.
Proof.
  split; [|done]. unfold ip_groups. apply Forall_fmap, Forall_forall. intros i _. apply Z.mod_pos_bound. lia.
Qed.

Lemma groups_value_ip a : 0 <= a < 2 ^ 128 → groups_value (ip_groups a) = a.
Proof.
  intros Ha.
  assert (∀ i, 0 <= i → a / 2 ^ (16 * (i + 1)) * 65536 + a / 2 ^ (16 * i) mod 65536 = a / 2 ^ (16 * i)) as Hstep.
  { intros i Hi. replace (2 ^ (16 * (i + 1))) with (2 ^ (16 * i) * 65536) by (change 65536 with (2 ^ 16); rewrite <- Z.pow_add_r by lia; f_equal; lia).
    rewrite <- Z.div_div by lia. rewrite (Z.div_mod (a / 2 ^ (16 * i)) 65536) at 3 by lia. lia. }
  assert (a / 2 ^ (16 * 7) mod 65536 = a / 2 ^ (16 * 7)) as H7.
  { apply Z.mod_small. split; [apply Z.div_pos; lia|]. apply Z.div_lt_upper_bound; [lia|]. change (2 ^ (16 * 7) * 65536) with (2 ^ 128). lia. }
  unfold groups_value, ip_groups. cbn [fmap list_fmap foldl]. rewrite H7. change (0 * 65536 + a / 2 ^ (16 * 7)) with (a / 2 ^ (16 * (6 + 1))).
  rewrite (Hstep 6) by lia. change (16 * 6) with (16 * (5 + 1)). rewrite (Hstep 5) by lia. change (16 * 5) with (16 * (4 + 1)).
  rewrite (Hstep 4) by lia. change (16 * 4) with (16 * (3 + 1)). rewrite (Hstep 3) by lia. change (16 * 3) with (16 * (2 + 1)).
  rewrite (Hstep 2) by lia. change (16 * 2) with (16 * (1 + 1)). rewrite (Hstep 1) by lia. change (16 * 1) with (16 * (0 + 1)).
  rewrite (Hstep 0) by lia. change (2 ^ (16 * 0)) with 1. apply Z.div_1_r.
Qed.

Lemma no_double_colon c s : c ≠ ":"%char → has_prefix (c :: s) "::" = false.
Proof. intros Hc. apply (has_prefix_head _ _ c); [done| |done]. change (head (lit "::")) with (Some ":"%char). congruence. Qed.

Lemma parse_string_v6 a : 0 <= a < 2 ^ 128 → parse_v6 (string_v6 a) = Some a.
Proof.
  intros Ha. destruct (ip_groups_ok a) as [Hr Hl]. pose proof (groups_value_ip a Ha) as Hv. unfold string_v6.
  assert (gap_ok (ip_groups a) (best_run 0 (255%nat, 255%nat) (ip_groups a))) as Hgap by (apply best_run_ok; [done|by left]).
  set (gs := ip_groups a) in *. clearbody gs. destruct (best_run _ _ _) as [s e].
  destruct Hgap as [[= -> ->]|[Hse Hz]]; cbn [fst snd] in *.
  - rewrite bool_decide_eq_false_2 by lia. fold (text gs).
    destruct (text_head gs Hr) as (c & t & E & Hc); [by intros ->|]. unfold parse_v6. rewrite E, no_double_colon, <- E by done.
    rewrite bool_decide_eq_false_2 by done. cbn [andb]. rewrite loop_text; [|done|by intros ->|lia]. cbn [mbind option_bind]. rewrite app_nil_r.
    change (len []) with 0. cbn [Z.eqb negb]. rewrite reverse_involutive. unfold len. rewrite Hl. cbn [Z.ltb Z.compare]. by rewrite Hv.
  - rewrite bool_decide_eq_true_2 by lia. fold (text (take s gs)) (text (drop e gs)).
    pose proof (gap_fill gs s e Hse Hz) as Hfill. set (A := take s gs) in *. set (B := drop e gs) in *.
    assert (in_range A ∧ in_range B) as [HA HB] by (split; [by apply Forall_take|by apply Forall_drop]).
    assert (length A = s ∧ length B = (8 - e)%nat) as [LA LB] by (split; [unfold A; rewrite length_take; lia|unfold B; rewrite length_drop; lia]).
    assert (∀ gs', gs' = A ++ B → Some (groups_value (take s gs' ++ replicate (8 - length gs') 0 ++ drop s gs')) = Some a) as Hend.
    { intros gs' ->. rewrite length_app, LA, LB. replace (8 - (s + (8 - e)))%nat with (e - s)%nat by lia.
      rewrite take_app_length', drop_app_length' by done. by rewrite Hfill, Hv. }
    unfold parse_v6. destruct (decide (A = [])) as [EA|EA].
    + rewrite EA in *. simpl in LA. subst s. change (text [] ++ "::" ++ text B) with ("::" ++ text B). rewrite has_prefix_app.
      change (drop 2 ("::" ++ text B)) with (text B). rewrite bool_decide_eq_true_2 by done. cbn [andb].
      destruct (decide (B = [])) as [EB|EB].
      * rewrite EB in *. change (len (text []) =? 0) with true. rewrite <- (Hend []) by done. by cbn.
      * destruct (text_head B HB EB) as (c & t & E & _). assert ((len (text B) =? 0) = false) as -> by (rewrite E; apply Z.eqb_neq; rewrite len_cons; pose proof (len_nonneg t); lia).
        rewrite loop_text by (done || lia). cbn [mbind option_bind]. rewrite app_nil_r, reverse_involutive. change (len []) with 0.
        cbn [Z.eqb negb]. destruct (Z.ltb_spec (len B) 8); [by apply Hend|unfold len in *; lia].
    + destruct (text_head A HA EA) as (c & t & E & Hc). assert (has_prefix (text A ++ "::" ++ text B) "::" = false) as ->
        by (rewrite E; by apply no_double_colon).
      rewrite bool_decide_eq_false_2 by done. cbn [andb]. rewrite loop_gap by (done || lia). cbn [mbind option_bind].
      rewrite app_nil_r, reverse_app, !reverse_involutive. change (len []) with 0. cbn [Z.eqb negb length]. rewrite Nat.add_0_r, LA.
      destruct (Z.ltb_spec (len (A ++ B)) 8) as [_|Hlt]; [by apply Hend|]. rewrite len_app in Hlt. unfold len in Hlt. lia.
Qed.

Lemma hex16_plain g c : 0 <= g < 65536 → c ∈ hex16 g → mem_byte c ".:%" = false.
Proof.
  intros Hg. destruct (hex16_spec g Hg) as (ds & -> & Hd & _). intros (d & -> & Hin)%list_elem_of_fmap.
  apply unhex_digit. by apply (proj1 (Forall_forall _ _) Hd).
Qed.

Lemma text_bytes gs c : in_range gs → c ∈ text gs → mem_byte c ".:%" = false ∨ c = ":"%char.
Proof.
  intros Hgs. induction Hgs as [|g gs Hg _ IH]; [by intros ?%elem_of_nil|]. destruct (decide (gs = [])) as [->|Hne].
  - intros Hc. left. by apply (hex16_plain g).
  - rewrite text_cons by done. intros [Hc|[Hc|Hc]%elem_of_app]%elem_of_app; [left; by apply (hex16_plain g)| |by apply IH].
    right. by apply list_elem_of_singleton in Hc.
Qed.

Lemma family_colon g rest : 0 <= g < 65536 → addr_family (hex16 g ++ ":" ++ rest) = Some ":"%char.
Proof. intros Hg. rewrite addr_family_skip; [done|]. intros c. by apply hex16_plain. Qed.

Lemma string_v6_family a : addr_family (string_v6 a) = Some ":"%char ∧ mem_byte "%" (string_v6 a) = false.
Proof.
  destruct (ip_groups_ok a) as [Hr Hl]. unfold string_v6. set (gs := ip_groups a) in *. clearbody gs.
  assert (∀ l, in_range l → "%"%char ∉ text l) as Hno by (intros l Hin H; by destruct (text_bytes _ _ Hin H)).
  destruct (best_run _ _ _) as [s e]. case_bool_decide.
  - fold (text (take s gs)) (text (drop e gs)).
    assert (in_range (take s gs) ∧ in_range (drop e gs)) as [HA HB] by (split; [by apply Forall_take|by apply Forall_drop]).
    set (A := take s gs) in *. set (B := drop e gs) in *. split.
    + destruct HA as [|g A Hg HA]; [done|]. destruct A as [|g' A]; [by apply (family_colon g (":" ++ text B))|].
      rewrite text_cons by done. rewrite <- !(assoc_L (++)). by apply family_colon.
    + apply not_true_iff_false. rewrite mem_byte_true, !elem_of_app. pose proof (Hno _ HA). pose proof (Hno _ HB).
      intros [?|[Hc|?]]; [done| |done]. change (lit "::") with [":"%char; ":"%char] in Hc.
      by rewrite !elem_of_cons, elem_of_nil in Hc; destruct Hc as [?|[?|[]]].
  - fold (text gs). split.
    + destruct Hr as [|g gs Hg Hr]; [done|]. destruct gs as [|g' gs]; [done|]. rewrite text_cons by done. by apply family_colon.
    + apply not_true_iff_false. rewrite mem_byte_true. by apply Hno.
Qed.

Lemma v4_split a : is_v4 a = true → v4_prefix + v4_bits a = a ∧ 0 <= v4_bits a < 2 ^ 32.
Proof.
  unfold is_v4, v4_bits, v4_prefix. rewrite Z.eqb_eq, Z.shiftr_div_pow2 by lia. intros H.
  pose proof (Z.div_mod a (2 ^ 32) ltac:(lia)). pose proof (Z.mod_pos_bound a (2 ^ 32) ltac:(lia)). lia.
Qed.

(** An address is read back from its text.  The text is unambiguous: two
    addresses never print alike. *)
Theorem ip_roundtrip a : 0 <= a < 2 ^ 128 → ParseIP (ip_string a) = Some a.
Proof.
  intros Ha. unfold ip_string, ParseIP. destruct (is_v4 a) eqn:E.
  - destruct (v4_split a E) as [Hs Hb]. destruct (parse_string_v4 (v4_bits a) Hb) as [Hp ->]. rewrite Hp. cbn. by rewrite Hs.
  - destruct (string_v6_family a) as [-> ->]. cbn [negb]. by apply parse_string_v6.
Qed.

Lemma ip_roundtrip_witness : ParseIP "2001:db8::1" = Some (0x20010db8 * 2 ^ 96 + 1) ∧ ip_string (0x20010db8 * 2 ^ 96 + 1) = lit "2001:db8::1".
Proof.
  assert (ip_string (0x20010db8 * 2 ^ 96 + 1) = lit "2001:db8::1") as E by (vm_compute; reflexivity). split; [|exact E].
  rewrite <- E. apply (ip_roundtrip (0x20010db8 * 2 ^ 96 + 1)). vm_compute. split; [discriminate|reflexivity].
Defined.

(** ** What is parsed is in range *)

Lemma parse_digits_nonneg acc s n : 0 <= acc → parse_digits acc s = Some n → 0 <= n.
Proof.
  revert acc. induction s as [|c s IH]; intros acc Ha; cbn [parse_digits]; [by intros [= <-]|].
  destruct (is_digit c) eqn:E; [|done]. apply IH. unfold is_digit, GoStr.in_range in E. boolify. change (code "0") with 48 in *. lia.
Qed.

Lemma parse_v4_field_range s n : parse_v4_field s = Some n → 0 <= n <= 255.
Proof.
  unfold parse_v4_field. destruct s as [|c s]; [done|]. destruct (_ && _); [done|].
  destruct (parse_digits 0 (c :: s)) as [m|] eqn:E; [|done]. cbn [mbind option_bind]. destruct (Z.leb_spec m 255); [|done].
  intros [= <-]. split; [by eapply parse_digits_nonneg; [|exact E]|done].
Qed.

Lemma parse_v4_range s v : parse_v4 s = Some v → 0 <= v < 2 ^ 32.
Proof.
  unfold parse_v4. destruct (split s ".") as [|a [|b [|c [|d [|]]]]]; try done.
  destruct (parse_v4_field a) as [a'|] eqn:Ea; [|done]. destruct (parse_v4_field b) as [b'|] eqn:Eb; [|done].
  destruct (parse_v4_field c) as [c'|] eqn:Ec; [|done]. destruct (parse_v4_field d) as [d'|] eqn:Ed; [|done].
  apply parse_v4_field_range in Ea, Eb, Ec, Ed. cbn [mbind option_bind]. intros [= <-]. lia.
Qed.

Lemma unhex_range c v : unhex c = Some v → 0 <= v < 16.
Proof.
  unfold unhex, is_digit, GoStr.in_range. change (code "0") with 48. change (code "9") with 57. change (code "a") with 97.
  change (code "f") with 102. change (code "A") with 65. change (code "F") with 70.
  repeat case_goal; intros [= <-]; boolify; lia.
Qed.

Lemma hex_value_range run : (length run <= 4)%nat → 0 <= hex_value run < 65536.
Proof.
  intros Hl. unfold hex_value.
  assert (∀ acc k, 0 <= acc < 16 ^ k → 0 <= k → 0 <= foldl (λ acc c, acc * 16 + default 0 (unhex c)) acc run < 16 ^ (k + len run)) as H.
  { clear Hl. induction run as [|c run IH]; intros acc k Ha Hk; [change (len []) with 0; by rewrite Z.add_0_r|].
    cbn [foldl]. rewrite len_cons. replace (k + (1 + len run)) with ((k + 1) + len run) by lia. apply IH; [|lia].
    rewrite Z.pow_add_r by lia. destruct (unhex c) as [v|] eqn:E; cbn [from_option default]; [apply unhex_range in E|]; unfold default, id; lia. }
  specialize (H 0 0 ltac:(done) ltac:(done)). assert (16 ^ (0 + len run) <= 16 ^ 4) by (apply Z.pow_le_mono_r; unfold len; lia).
  change (16 ^ 4) with 65536 in *. lia.
Qed.

Lemma loop_range fuel groups ell s gs e r : in_range groups → (length groups + fuel = 8)%nat →
  parse_v6_loop fuel groups ell s = Some (gs, e, r) → in_range gs ∧ (length gs <= 8)%nat.
Proof.
  revert groups ell s. induction fuel as [|fuel IH]; intros groups ell s Hg Hf; cbn [parse_v6_loop].
  { intros [= <- _ _]. split; [done|lia]. }
  destruct (hex_run s) as [run rest]. destruct (_ || _) eqn:El; [done|]. rewrite orb_false_iff, Z.eqb_neq, Z.ltb_ge in El.
  assert (in_range (hex_value run :: groups)) as Hg' by (constructor; [apply hex_value_range; unfold len in El; lia|done]).
  destruct rest as [|c rest]; [intros [= <- _ _]; split; [done|simpl; lia]|].
  destruct (c =?c ".").
  - destruct (_ && _); [done|]. destruct (Z.ltb_spec 6 (len groups)) as [|Hl]; [done|].
    destruct (parse_v4 s) as [v|] eqn:Ev; [|done]. apply parse_v4_range in Ev. cbn [mbind option_bind]. intros [= <- _ _].
    split; [|unfold len in Hl; simpl; lia]. constructor; [apply Z.mod_pos_bound; lia|]. constructor; [|done].
    split; [apply Z.div_pos; lia|]. apply Z.div_lt_upper_bound; lia.
  - destruct (negb _); [done|]. destruct rest as [|d rest]; [done|]. destruct (d =?c ":"); [|by apply IH; [|simpl; lia]].
    destruct ell; [done|]. destruct rest; [intros [= <- _ _]; split; [done|simpl; lia]|]. by apply IH; [|simpl; lia].
Qed.

Lemma groups_value_range gs : in_range gs → 0 <= groups_value gs < 65536 ^ len gs.
Proof.
  intros Hg. unfold groups_value.
  assert (∀ acc k, 0 <= acc < 65536 ^ k → 0 <= k → 0 <= foldl (λ acc g, acc * 65536 + g) acc gs < 65536 ^ (k + len gs)) as H.
  { induction Hg as [|g gs Hg _ IH]; intros acc k Ha Hk; [change (len []) with 0; by rewrite Z.add_0_r|].
    cbn [foldl]. rewrite len_cons. replace (k + (1 + len gs)) with ((k + 1) + len gs) by lia. apply IH; [|lia].
    rewrite Z.pow_add_r by lia. lia. }
  by apply (H 0 0).
Qed.

Lemma ParseIP_range s a : ParseIP s = Some a → 0 <= a < 2 ^ 128.
Proof.
  assert (∀ gs, in_range gs → length gs = 8%nat → 0 <= groups_value gs < 2 ^ 128) as H8.
  { intros gs Hg Hl. pose proof (groups_value_range gs Hg) as H. unfold len in H. by rewrite Hl in H. }
  unfold ParseIP. destruct (addr_family s) as [c|]; [|done]. destruct (c =?c ".").
  { destruct (parse_v4 s) as [v|] eqn:E; [|done]. apply parse_v4_range in E. intros [= <-]. unfold v4_prefix. lia. }
  destruct (c =?c ":"); [|done]. destruct (mem_byte _ _); [done|]. unfold parse_v6.
  destruct (if has_prefix s "::" then _ else _) as [ell body]. destruct (_ && _); [intros [= <-]; lia|].
  destruct (parse_v6_loop 8 [] ell body) as [[[gs e] r]|] eqn:E; [|done].
  apply loop_range in E as [Hg Hl]; [|constructor|done]. cbn [mbind option_bind]. destruct (negb _); [done|].
  assert (in_range (reverse gs)) as Hr by by apply Forall_reverse. rewrite <- length_reverse in Hl. set (g := reverse gs) in *. clearbody g.
  destruct (Z.ltb_spec (len g) 8) as [Hlt|Hge].
  - destruct e as [e|]; [|done]. intros [= <-]. apply H8.
    + apply Forall_app. split; [by apply Forall_take|]. apply Forall_app. split; [|by apply Forall_drop].
      apply Forall_replicate. lia.
    + rewrite !length_app, length_replicate, length_take, length_drop. unfold len in *. lia.
  - destruct e; [done|]. intros [= <-]. apply H8; [done|]. unfold len in *. lia.
Qed.

(** ** What is parsed has no other bytes *)

Definition ip_byte (c : ascii) : bool := bool_decide (is_Some (unhex c)) || (c =?c ".") || (c =?c ":").

Lemma digit_ip_byte c : is_digit c = true → ip_byte c = true.
Proof. all_bytes c. Qed.

Lemma parse_digits_bytes acc s n : parse_digits acc s = Some n → forallb ip_byte s = true.
Proof.
  revert acc. induction s as [|c s IH]; intros acc; cbn [parse_digits]; [done|]. destruct (is_digit c) eqn:E; [|done].
  intros H. cbn [forallb]. by rewrite (digit_ip_byte c E), (IH _ H).
Qed.

Lemma parse_v4_bytes s v : parse_v4 s = Some v → forallb ip_byte s = true.
Proof.
  assert (∀ f n, parse_v4_field f = Some n → forallb ip_byte f = true) as Hf.
  { intros [|c f] n; [done|]. unfold parse_v4_field. destruct (_ && _); [done|].
    destruct (parse_digits 0 (c :: f)) as [m|] eqn:E; [|done]. intros _. by eapply parse_digits_bytes. }
  unfold parse_v4. intros H. rewrite <- (join_split "." s). destruct (split s ".") as [|a [|b [|c [|d [|]]]]]; try done.
  destruct (parse_v4_field a) as [a'|] eqn:Ea; [|done]. destruct (parse_v4_field b) as [b'|] eqn:Eb; [|done].
  destruct (parse_v4_field c) as [c'|] eqn:Ec; [|done]. destruct (parse_v4_field d) as [d'|] eqn:Ed; [|done].
  cbn [join]. rewrite !forallb_app. by rewrite (Hf _ _ Ea), (Hf _ _ Eb), (Hf _ _ Ec), (Hf _ _ Ed).
Qed.

Lemma hex_run_bytes s : let '(run, rest) := hex_run s in s = run ++ rest ∧ forallb ip_byte run = true.
Proof.
  induction s as [|c s IH]; [done|]. cbn [hex_run]. case_bool_decide as Hc; [|done]. destruct (hex_run s) as [run rest].
  destruct IH as [-> Hr]. split; [done|]. cbn [forallb]. unfold ip_byte at 1. by rewrite bool_decide_eq_true_2, Hr.
Qed.

Lemma loop_bytes fuel groups ell s gs e : parse_v6_loop fuel groups ell s = Some (gs, e, []) → forallb ip_byte s = true.
Proof.
  revert groups ell s. induction fuel as [|fuel IH]; intros groups ell s; cbn [parse_v6_loop].
  { by intros [= _ _ ->]. }
  pose proof (hex_run_bytes s) as Hr. destruct (hex_run s) as [run rest]. destruct Hr as [Es Hr].
  destruct (_ || _); [done|]. destruct rest as [|c rest]; [intros _; by rewrite Es, forallb_app, Hr|].
  destruct (c =?c ".") eqn:Ed.
  - destruct (_ && _); [done|]. destruct (_ <? _); [done|]. destruct (parse_v4 s) as [v|] eqn:Ev; [|done]. intros _. by eapply parse_v4_bytes.
  - destruct (c =?c ":") eqn:Ec; [|done]. cbn [negb]. rewrite Es, forallb_app, Hr. cbn [forallb]. unfold ip_byte at 1. rewrite Ec, orb_true_r.
    cbn [andb]. destruct rest as [|d rest]; [done|]. destruct (d =?c ":") eqn:Ed2; [|apply IH].
    destruct ell; [done|]. cbn [forallb]. unfold ip_byte at 1. rewrite Ed2, orb_true_r. destruct rest; [done|]. apply IH.
Qed.

Lemma ParseIP_bytes s a : ParseIP s = Some a → forallb ip_byte s = true.
Proof.
  unfold ParseIP. destruct (addr_family s) as [c|]; [|done]. destruct (c =?c ".").
  { destruct (parse_v4 s) as [v|] eqn:E; [|done]. intros _. by eapply parse_v4_bytes. }
  destruct (c =?c ":"); [|done]. destruct (mem_byte _ _); [done|]. unfold parse_v6.
  destruct (has_prefix s "::") eqn:Hp.
  - apply has_prefix_inv in Hp as (t & -> & _). change (drop 2 (lit "::" ++ t)) with t. destruct (_ && _) eqn:E0.
    + intros _. apply andb_true_iff in E0 as [_ E0]. apply Z.eqb_eq, len_zero in E0 as ->. done.
    + destruct (parse_v6_loop 8 [] (Some 0%nat) t) as [[[gs e] r]|] eqn:E; [|done]. cbn [mbind option_bind].
      destruct (len r =? 0) eqn:Er; [|done]. apply Z.eqb_eq, len_zero in Er as ->. intros _. rewrite forallb_app. by rewrite (loop_bytes _ _ _ _ _ _ E).
  - destruct (_ && _) eqn:E0; [by apply andb_true_iff in E0 as [E0 _]|].
    destruct (parse_v6_loop 8 [] None s) as [[[gs e] r]|] eqn:E; [|done]. cbn [mbind option_bind].
    destruct (len r =? 0) eqn:Er; [|done]. apply Z.eqb_eq, len_zero in Er as ->. intros _. by eapply loop_bytes.
Qed.

Lemma ParseIP_no_slash s a : ParseIP s = Some a → "/"%char ∉ s.
Proof.
  intros H%ParseIP_bytes Hin. rewrite forallb_forall in H. apply list_elem_of_In, H in Hin. by vm_compute in Hin.
Qed.

End NetFacts.
