(* ===== verification/GoFloat.v ===== *)
(** * [float64]: binary64 arithmetic, computed exactly

    The Standard Library's [SpecFloat] is the IEEE 754 specification of the
    operations; [float64] is its instance with 53 bits of precision.  The facts
    here say that [<] and [==] are the strict order and equivalence of a total
    preorder on the values that are not NaN, which is what selection loops
    need. *)

From Stdlib Require Export SpecFloat.
From S2P Require Import Prelude.

Abbreviation float64 := spec_float.

(** Conversion from an integer rounds to nearest, ties to even. *)
Definition f_of_Z (z : Z) : float64 := binary_normalize 53 1024 z 0 false.
Definition fadd : float64 → float64 → float64 := SFadd 53 1024.
Definition fsub : float64 → float64 → float64 := SFsub 53 1024.
Definition fmul : float64 → float64 → float64 := SFmul 53 1024.
Definition fdiv : float64 → float64 → float64 := SFdiv 53 1024.
Definition flt : float64 → float64 → bool := SFltb.
Definition fle : float64 → float64 → bool := SFleb.
Definition feq : float64 → float64 → bool := SFeqb.
Definition f_nan : float64 := S754_nan.

(** The constants the program writes as decimal fractions that are dyadic. *)
Definition f_quarter : float64 := fdiv (f_of_Z 1) (f_of_Z 4).
Definition f_one : float64 := f_of_Z 1.
Definition f_zero : float64 := f_of_Z 0.

(** [math.Max] and [math.Min] *)
Definition is_nan (x : float64) : bool := match x with S754_nan => true | _ => false end.
Definition fmax (x y : float64) : float64 :=
  match x, y with
  | S754_infinity false, _ | _, S754_infinity false => S754_infinity false
  | S754_nan, _ | _, S754_nan => S754_nan
  | S754_zero sx, S754_zero sy => if sx then y else x
  | _, _ => if flt y x then x else y
  end.
Definition fmin (x y : float64) : float64 :=
  match x, y with
  | S754_infinity true, _ | _, S754_infinity true => S754_infinity true
  | S754_nan, _ | _, S754_nan => S754_nan
  | S754_zero sx, S754_zero sy => if sx then x else y
  | _, _ => if flt x y then x else y
  end.

(** Truncation towards zero; the value of NaN and the infinities is the
    argument [undefined]. *)
Definition f_trunc (undefined : Z) (x : float64) : Z :=
  match x with
  | S754_zero _ => 0
  | S754_finite s m e =>
      let v := if e <? 0 then Zpos m / 2 ^ (- e) else Zpos m * 2 ^ e in if s then - v else v
  | _ => undefined
  end.

(** [math.Pow] and what [int64(f)] gives outside its range are parameters. *)
Class FloatMath := { pow : float64 → float64 → float64; int64_undefined : float64 → Z }.

(** [int64(f)] *)
Definition float_to_int64 {FM : FloatMath} (f : float64) : Z :=
  let z := f_trunc (int64_undefined f) f in
  if (min_int64 <=? z) && (z <=? max_int64) then z else int64_undefined f.

(** [d.Seconds()] *)
Definition dur_seconds (d : duration) : float64 :=
  fadd (f_of_Z (Z.quot d second)) (fdiv (f_of_Z (Z.rem d second)) (f_of_Z second)).

(** [math.IsInf(f, 1)] *)
Definition is_pos_inf (x : float64) : bool := match x with S754_infinity false => true | _ => false end.

(** ** The order *)

Definition fkey (x : float64) : Z * Z * Z :=
  match x with
  | S754_infinity true => (-2, 0, 0)
  | S754_finite true m e => (-1, - e, Zneg m)
  | S754_zero _ | S754_nan => (0, 0, 0)
  | S754_finite false m e => (1, e, Zpos m)
  | S754_infinity false => (2, 0, 0)
  end.

Definition key_ltb (a b : Z * Z * Z) : Prop :=
  let '(a1, a2, a3) := a in let '(b1, b2, b3) := b in
  a1 < b1 ∨ (a1 = b1 ∧ (a2 < b2 ∨ (a2 = b2 ∧ a3 < b3))).

Lemma fcompare_key x y : is_nan x = false → is_nan y = false →
  match SFcompare x y with
  | Some Lt => key_ltb (fkey x) (fkey y)
  | Some Eq => fkey x = fkey y
  | Some Gt => key_ltb (fkey y) (fkey x)
  | None => False
  end.
Proof.
  destruct x as [[]|[]| |[] m e], y as [[]|[]| |[] m' e']; try done; intros _ _; cbn; try lia; try done;
    destruct (Z.compare_spec e e'); cbn; try lia; subst;
    change (Pos.compare_cont Eq m m') with (m ?= m')%positive;
    destruct (Pos.compare_spec m m'); cbn; try lia; by subst.
Qed.

Lemma flt_key x y : flt x y = true ↔ is_nan x = false ∧ is_nan y = false ∧ key_ltb (fkey x) (fkey y).
Proof.
  unfold flt, SFltb. destruct (is_nan x) eqn:Hx; [destruct x; naive_solver|].
  destruct (is_nan y) eqn:Hy; [destruct x, y; naive_solver|].
  pose proof (fcompare_key x y Hx Hy) as H. destruct (SFcompare x y) as [[]|]; [| |..]; try done.
  - split; [done|]. intros (_ & _ & Hl). rewrite H in Hl. destruct (fkey y) as [[? ?] ?]. simpl in Hl. lia.
  - split; [done|]. intros (_ & _ & Hl). destruct (fkey x) as [[? ?] ?], (fkey y) as [[? ?] ?]. simpl in *. lia.
Qed.

Lemma feq_key x y : feq x y = true ↔ is_nan x = false ∧ is_nan y = false ∧ fkey x = fkey y.
Proof.
  unfold feq, SFeqb. destruct (is_nan x) eqn:Hx; [destruct x; naive_solver|].
  destruct (is_nan y) eqn:Hy; [destruct x, y; naive_solver|].
  pose proof (fcompare_key x y Hx Hy) as H. destruct (SFcompare x y) as [[]|]; [done| | |done];
    (split; [done|]); intros (_ & _ & Hl); rewrite Hl in H; destruct (fkey y) as [[? ?] ?]; simpl in *; lia.
Qed.

Lemma flt_trans x y z : flt x y = true → flt y z = true → flt x z = true.
Proof.
  rewrite !flt_key. intros (? & ? & H1) (? & ? & H2). split_and!; try done.
  destruct (fkey x) as [[? ?] ?], (fkey y) as [[? ?] ?], (fkey z) as [[? ?] ?]. simpl in *. lia.
Qed.

Lemma flt_feq x y z : flt x y = true → feq y z = true → flt x z = true.
Proof. rewrite !flt_key, !feq_key. intros (? & ? & H1) (? & ? & <-). done. Qed.

Lemma feq_flt x y z : feq x y = true → flt y z = true → flt x z = true.
Proof. rewrite !flt_key, !feq_key. intros (? & ? & ->) (? & ? & ?). done. Qed.

Lemma flt_irrefl x : flt x x = false.
Proof.
  apply not_true_iff_false. rewrite flt_key. intros (_ & _ & H). destruct (fkey x) as [[? ?] ?]. simpl in H. lia.
Qed.

Lemma feq_sym x y : feq x y = true → feq y x = true.
Proof. rewrite !feq_key. naive_solver. Qed.
Lemma feq_trans x y z : feq x y = true → feq y z = true → feq x z = true.
Proof. rewrite !feq_key. naive_solver congruence. Qed.
