(* ===== verification/FloatInt.v ===== *)
(** * Whole numbers in binary64

    The code counts tokens, weights and seconds in [float64].  On whole numbers
    below 2^53 the operations of GoFloat.v are exact: [f_of_Z] maps addition,
    subtraction, multiplication and comparison of integers to those of floats. *)

From S2P Require Import Prelude GoFloat.

(** ** Shifted mantissas *)

Definition sh (n : nat) (p : positive) : positive := Nat.iter n xO p.

Lemma sh_val n p : Zpos (sh n p) = Zpos p * 2 ^ Z.of_nat n.
Proof.
  induction n as [|n IH]; [rewrite Z.pow_0_r; simpl; lia|]. change (sh (S n) p) with (sh n p)~0%positive.
  rewrite Pos2Z.inj_xO, IH, Nat2Z.inj_succ, Z.pow_succ_r by lia. lia.
Qed.
Lemma sh_add a b p : sh a (sh b p) = sh (a + b) p.
Proof. unfold sh. by rewrite Nat.iter_add. Qed.
Lemma sh_inj n p q : Zpos q = Zpos p * 2 ^ Z.of_nat n → q = sh n p.
Proof. rewrite <- sh_val. by intros [= ->]. Qed.

Lemma pos_iter_sh d p : Pos.iter xO p d = sh (Pos.to_nat d) p.
Proof. rewrite Pos2Nat.inj_iter. unfold sh. induction (Pos.to_nat d) as [|n IH]; simpl; [done|]. by rewrite IH. Qed.

Lemma digits_log2 p : Zpos (digits2_pos p) = Z.log2 (Zpos p) + 1.
Proof.
  induction p as [p IH|p IH|]; cbn [digits2_pos]; [| |done]; rewrite Pos2Z.inj_succ, IH.
  - rewrite Pos2Z.inj_xI, Z.add_1_r, Z.log2_succ_double by lia. lia.
  - rewrite Pos2Z.inj_xO, Z.log2_double by lia. lia.
Qed.

Lemma log2_sh n p : Z.log2 (Zpos (sh n p)) = Z.log2 (Zpos p) + Z.of_nat n.
Proof. rewrite sh_val, Z.log2_mul_pow2 by lia. lia. Qed.

(** The number of zero bits a whole number is padded with. *)
Definition pad (p : positive) : nat := Z.to_nat (52 - Z.log2 (Zpos p)).
Definition fint (p : positive) : float64 := S754_finite false (sh (pad p) p) (- Z.of_nat (pad p)).

Definition exact (p : positive) : Prop := Zpos p < 2 ^ 53.

Lemma exact_log2 p : exact p → 0 <= Z.log2 (Zpos p) <= 52.
Proof.
  intros H. split; [apply Z.log2_nonneg|]. assert (Z.log2 (Zpos p) < 53); [|lia]. by apply Z.log2_lt_pow2.
Qed.
Lemma pad_val p : exact p → Z.of_nat (pad p) = 52 - Z.log2 (Zpos p).
Proof. intros H%exact_log2. unfold pad. lia. Qed.

(** ** Rounding is exact *)

Lemma iter_pos_nat {A} (f : A → A) k x : iter_pos f k x = Nat.iter (Pos.to_nat k) f x.
Proof.
  revert x. induction k as [k IH|k IH|]; intros x; cbn [iter_pos]; [..|done].
  - rewrite !IH, <- Nat.iter_add, Pos2Nat.inj_xI. replace (S (2 * Pos.to_nat k)) with (Pos.to_nat k + Pos.to_nat k + 1)%nat by lia.
    by rewrite (Nat.iter_add (Pos.to_nat k + Pos.to_nat k) 1).
  - rewrite !IH, <- Nat.iter_add, Pos2Nat.inj_xO. f_equal. lia.
Qed.

Lemma shr_sh k p : Nat.iter k shr_1 (Build_shr_record (Zpos (sh k p)) false false) = Build_shr_record (Zpos p) false false.
Proof. revert p. induction k as [|k IH]; intros p; [done|]. rewrite Nat.iter_succ_r. apply IH. Qed.

Lemma fexp_exact z : -1021 <= z -> fexp 53 1024 z = z - 53.
Proof. intros H. unfold fexp, SpecFloat.emin. lia. Qed.

Lemma shr_fexp_exact p k : exact p → (pad p <= k)%nat →
  shr_fexp 53 1024 (Zpos (sh k p)) (- Z.of_nat k) loc_Exact
  = (Build_shr_record (Zpos (sh (pad p) p)) false false, - Z.of_nat (pad p)).
Proof.
  intros Hp Hk. pose proof (exact_log2 p Hp). pose proof (pad_val p Hp) as Hpad.
  unfold shr_fexp. cbn [Zdigits2 shr_record_of_loc]. rewrite digits_log2, log2_sh.
  rewrite fexp_exact by lia. unfold shr.
  destruct (Z.log2 (Zpos p) + Z.of_nat k + 1 + - Z.of_nat k - 53 - - Z.of_nat k) as [|d|d] eqn:E; [| |lia].
  - assert (k = pad p) as -> by lia. done.
  - rewrite iter_pos_nat. assert (k = Pos.to_nat d + pad p)%nat as -> by lia.
    rewrite <- sh_add, shr_sh. f_equal. lia.
Qed.

Lemma round_aux_exact p k : exact p → (pad p <= k)%nat →
  binary_round_aux 53 1024 false (Zpos (sh k p)) (- Z.of_nat k) loc_Exact = fint p.
Proof.
  intros Hp Hk. pose proof (exact_log2 p Hp). unfold binary_round_aux. rewrite shr_fexp_exact by done.
  cbn [shr_m loc_of_shr_record round_nearest_even]. rewrite shr_fexp_exact by done. cbn [shr_m].
  destruct (Z.leb_spec (- Z.of_nat (pad p)) (1024 - 53)); [done|lia].
Qed.

Lemma round_exact p k : exact p → binary_round 53 1024 false (sh k p) (- Z.of_nat k) = fint p.
Proof.
  intros Hp. pose proof (exact_log2 p Hp). pose proof (pad_val p Hp) as Hpad.
  unfold binary_round, shl_align. rewrite digits_log2, log2_sh, fexp_exact by lia.
  destruct (_ - - Z.of_nat k) as [|d|d] eqn:E; [apply round_aux_exact; (done || lia)..|].
  rewrite pos_iter_sh. rewrite sh_add.
  assert (Pos.to_nat d + k = pad p)%nat as -> by lia.
  replace (Z.log2 (Zpos p) + Z.of_nat k + 1 + - Z.of_nat k - 53) with (- Z.of_nat (pad p)) by lia.
  by apply round_aux_exact.
Qed.

Lemma f_of_pos p : exact p → f_of_Z (Zpos p) = fint p.
Proof. intros Hp. unfold f_of_Z, binary_normalize. by apply (round_exact p 0). Qed.

Lemma align_exact p m : (pad p <= m)%nat →
  fst (shl_align (sh (pad p) p) (- Z.of_nat (pad p)) (- Z.of_nat m)) = sh m p.
Proof.
  intros Hm. unfold shl_align. destruct (- Z.of_nat m - - Z.of_nat (pad p)) as [|d|d] eqn:E; cbn [fst]; [| lia |].
  - by assert (m = pad p) as -> by lia.
  - rewrite pos_iter_sh. rewrite sh_add. f_equal. lia.
Qed.

(** ** The operations *)

Section ops.
Context (a b : Z) (Ha : 0 <= a < 2 ^ 53) (Hb : 0 <= b < 2 ^ 53).

Lemma fadd_exact : a + b < 2 ^ 53 → fadd (f_of_Z a) (f_of_Z b) = f_of_Z (a + b).
Proof.
  intros Hs. destruct a as [|p|p]; [..|lia]; (destruct b as [|q|q]; [..|lia]).
  - done.
  - rewrite Z.add_0_l. by rewrite f_of_pos by (unfold exact; lia).
  - rewrite Z.add_0_r. by rewrite f_of_pos by (unfold exact; lia).
  - rewrite !f_of_pos by (unfold exact; lia). change (Zpos p + Zpos q) with (Zpos (p + q)).
    rewrite f_of_pos by (unfold exact; lia). set (r := fint (p + q)). unfold fadd, SFadd, fint. cbn [cond_Zopp]. cbv zeta.
    rewrite <- Z.opp_max_distr, <- Nat2Z.inj_max, !align_exact by lia.
    assert (Zpos (sh (pad p `max` pad q) p) + Zpos (sh (pad p `max` pad q) q) = Zpos (sh (pad p `max` pad q) (p + q))) as ->.
    { rewrite !sh_val. lia. }
    cbn [binary_normalize]. apply round_exact. unfold exact. lia.
Qed.

Lemma fsub_exact : b <= a → fsub (f_of_Z a) (f_of_Z b) = f_of_Z (a - b).
Proof.
  intros Hs. destruct a as [|p|p]; [..|lia]; (destruct b as [|q|q]; [..|lia]).
  - done.
  - lia.
  - rewrite Z.sub_0_r. by rewrite f_of_pos by (unfold exact; lia).
  - rewrite !f_of_pos by (unfold exact; lia). unfold fsub, SFsub, fint. cbn [cond_Zopp]. cbv zeta.
    rewrite <- Z.opp_max_distr, <- Nat2Z.inj_max, !align_exact by lia.
    set (m := (pad p `max` pad q)%nat).
    assert (Zpos (sh m p) - Zpos (sh m q) = (Zpos p - Zpos q) * 2 ^ Z.of_nat m) as -> by (rewrite !sh_val; lia).
    destruct (Zpos p - Zpos q) as [|r|r] eqn:E; [done| |lia].
    rewrite <- sh_val. cbn [binary_normalize]. rewrite f_of_pos by (unfold exact; lia). apply round_exact. unfold exact. lia.
Qed.

Lemma fmul_exact : a * b < 2 ^ 53 → fmul (f_of_Z a) (f_of_Z b) = f_of_Z (a * b).
Proof.
  intros Hs. destruct a as [|p|p]; [..|lia]; (destruct b as [|q|q]; [..|lia]).
  - done.
  - rewrite Z.mul_0_l. by rewrite f_of_pos by (unfold exact; lia).
  - rewrite Z.mul_0_r. by rewrite f_of_pos by (unfold exact; lia).
  - rewrite !f_of_pos by (unfold exact; lia). change (Zpos p * Zpos q) with (Zpos (p * q)) in *.
    assert (exact p ∧ exact q ∧ exact (p * q)) as (Hp & Hq & Hpq) by (unfold exact; lia).
    rewrite f_of_pos by done. set (r := fint (p * q)). unfold fmul, SFmul, fint. cbn [xorb].
    replace (- Z.of_nat (pad p) + - Z.of_nat (pad q)) with (- Z.of_nat (pad p + pad q)) by lia.
    assert (sh (pad p) p * sh (pad q) q = sh (pad p + pad q) (p * q))%positive as ->.
    { apply sh_inj. rewrite Pos2Z.inj_mul, !sh_val, Nat2Z.inj_add, Z.pow_add_r, Pos2Z.inj_mul by lia. lia. }
    apply round_aux_exact; [done|]. pose proof (pad_val _ Hp). pose proof (pad_val _ Hpq).
    assert (Z.log2 (Zpos p) <= Z.log2 (Zpos (p * q))) by (apply Z.log2_le_mono; rewrite ?Pos2Z.inj_mul; nia). lia.
Qed.

Lemma flt_exact : flt (f_of_Z a) (f_of_Z b) = (a <? b).
Proof.
  destruct a as [|p|p]; [..|lia]; (destruct b as [|q|q]; [..|lia]).
  - done.
  - by rewrite (f_of_pos q) by (unfold exact; lia).
  - by rewrite (f_of_pos p) by (unfold exact; lia).
  - assert (exact p ∧ exact q) as [Hp Hq] by (unfold exact; lia). rewrite !f_of_pos by done.
    apply eq_true_iff_eq. rewrite flt_key, Z.ltb_lt. unfold fint. cbn [is_nan fkey key_ltb].
    rewrite (pad_val p), (pad_val q), !sh_val by done.
    pose proof (exact_log2 _ Hp). pose proof (exact_log2 _ Hq).
    split.
    + intros (_ & _ & [?|[_ [Hl|[Hl Hm]]]]); [lia| |].
      * assert (Z.log2 (Zpos p) < Z.log2 (Zpos q)) by lia. by apply Z.log2_lt_cancel.
      * assert (pad p = pad q) as Hpq by (unfold pad; lia). rewrite Hpq in Hm. nia.
    + intros Hlt. split_and!; [done..|]. right. split; [done|].
      assert (Z.log2 (Zpos p) <= Z.log2 (Zpos q)) by (apply Z.log2_le_mono; lia).
      destruct (Z.eq_dec (Z.log2 (Zpos p)) (Z.log2 (Zpos q))) as [He|]; [right|left; lia].
      assert (pad p = pad q) as -> by (unfold pad; lia). split; [lia|].
      apply Z.mul_lt_mono_pos_r; [apply Z.pow_pos_nonneg; lia | done].
Qed.
End ops.

Lemma fle_flt x y : is_nan x = false → is_nan y = false → fle x y = negb (flt y x).
Proof.
  intros Hx Hy. pose proof (fcompare_key x y Hx Hy) as H1. pose proof (fcompare_key y x Hy Hx) as H2.
  unfold fle, flt, SFleb, SFltb. destruct (SFcompare x y) as [[]|], (SFcompare y x) as [[]|]; try done; exfalso;
    destruct (fkey x) as [[? ?] ?], (fkey y) as [[? ?] ?]; simpl in *; simplify_eq/=; lia.
Qed.

Lemma f_of_Z_num z : 0 <= z < 2 ^ 53 → is_nan (f_of_Z z) = false.
Proof. intros H. destruct z as [|p|p]; [done| |lia]. by rewrite f_of_pos by (unfold exact; lia). Qed.

Lemma fle_exact a b : 0 <= a < 2 ^ 53 → 0 <= b < 2 ^ 53 → fle (f_of_Z a) (f_of_Z b) = (a <=? b).
Proof.
  intros Ha Hb. rewrite fle_flt, flt_exact by (done || by apply f_of_Z_num). by rewrite Z.leb_antisym.
Qed.
