(* ===== verification/Config.v ===== *)
(** * Configuration data of EdgeProxy (apps/edgeproxy/internal/config/config.go):
    the structs a route, the listener and the admin listener are configured by.
    Durations are nanoseconds, [float64] values are binary64 (GoFloat.v). *)

From S2P Require Import Prelude GoFloat.

Record TLSConfig := mkTLS { tls_enabled : bool; tls_cert : str; tls_key : str }.

Record ServerConfig := mkServer {
  listen_addr : str;
  trusted_proxy_cidrs : list str;
  forwarded_for_header : str;
  read_header_timeout : duration;
  read_timeout : duration;
  write_timeout : duration;
  idle_timeout : duration;
  shutdown_timeout : duration;
  max_header_bytes : Z;
  server_tls : TLSConfig;
}.

Record AdminLogConfig := mkAdminLog {
  log_enabled : bool; log_capacity : Z; log_default_page : Z; log_max_page : Z }.

Record AdminConfig := mkAdmin {
  admin_enabled : bool; admin_listen : str; admin_token : str; admin_log : AdminLogConfig }.

Record UpstreamConfig := mkUpstreamCfg {
  up_name : str; up_url : str; up_insecure : bool; up_weight : Z; up_priority : Z }.

Record LoadBalancingConfig := mkLB {
  lb_algorithm : str; latency_sensitivity : float64; ewma_alpha : float64 }.

Record ProxyConfig := mkProxy {
  request_timeout : duration;
  dial_timeout : duration;
  response_header_timeout : duration;
  idle_conn_timeout : duration;
  retry_count : Z;
  retry_backoff : duration;
  max_idle_conns : Z;
  max_idle_conns_per_host : Z;
  max_response_header_bytes : Z;
}.

Record CacheConfig := mkCacheCfg {
  cache_enabled : bool;
  default_ttl : duration;
  stale_if_error : duration;
  max_entries : Z;
  max_bytes : Z;
  max_object_bytes : Z;
  respect_origin_headers : bool;
  cache_authorized_requests : bool;
  cache_cookie_requests : bool;
  cache_set_cookie_responses : bool;
  vary_request_headers : list str;
  cacheable_status_codes : list Z;
}.

Record HealthCheckConfig := mkHealth {
  hc_enabled : bool; hc_path : str; hc_interval : duration; hc_timeout : duration;
  hc_statuses : list Z }.

Record RouteConfig := mkRoute {
  route_name : str;
  route_hosts : list str;
  path_prefix : str;
  strip_prefix : bool;
  preserve_host : bool;
  upstreams : list UpstreamConfig;
  load_balancing : LoadBalancingConfig;
  proxy : ProxyConfig;
  cache : CacheConfig;
  health_check : HealthCheckConfig;
}.

Record Config := mkConfig { server : ServerConfig; admin : AdminConfig; routes : list RouteConfig }.

(** ** Equality of configurations *)

#[export] Instance spec_float_eq_dec : EqDecision spec_float.
Proof. solve_decision. Defined.
#[export] Instance TLSConfig_eq_dec : EqDecision TLSConfig.
Proof. solve_decision. Defined.
#[export] Instance ServerConfig_eq_dec : EqDecision ServerConfig.
Proof. solve_decision. Defined.
#[export] Instance AdminLogConfig_eq_dec : EqDecision AdminLogConfig.
Proof. solve_decision. Defined.
#[export] Instance AdminConfig_eq_dec : EqDecision AdminConfig.
Proof. solve_decision. Defined.
#[export] Instance UpstreamConfig_eq_dec : EqDecision UpstreamConfig.
Proof. solve_decision. Defined.
#[export] Instance LoadBalancingConfig_eq_dec : EqDecision LoadBalancingConfig.
Proof. solve_decision. Defined.
#[export] Instance ProxyConfig_eq_dec : EqDecision ProxyConfig.
Proof. solve_decision. Defined.
#[export] Instance CacheConfig_eq_dec : EqDecision CacheConfig.
Proof. solve_decision. Defined.
#[export] Instance HealthCheckConfig_eq_dec : EqDecision HealthCheckConfig.
Proof. solve_decision. Defined.
#[export] Instance RouteConfig_eq_dec : EqDecision RouteConfig.
Proof. solve_decision. Defined.
#[export] Instance Config_eq_dec : EqDecision Config.
Proof. solve_decision. Defined.
