(* ===== verification/Router.v ===== *)
(** * Route selection: apps/edgeproxy/internal/router/router.go and
    [Table.Match] of apps/securityedge/internal/routes/routes.go

    Both applications select a route for a request on their own copy of the
    code; [Router] is edgeproxy's, [Routes] securityedge's, and the last
    theorem says they agree on every request. *)

From S2P Require Import Prelude GoStr GoPath GoHttp NetIP GoFloat Config.

Module Router.
Section router.
Context {U : Unicode}.

Definition canonicalHost (hostport : str) : str :=
  let hostport := trim_space hostport in
  let hostport :=
    match SplitHostPort hostport with
    | Some (host, _) => host
    | None =>
        if has_prefix hostport "[" && has_suffix hostport "]" then
          match ParseIP (trim_suffix (trim_prefix hostport "[") "]") with
          | Some a => ip_string a
          | None => hostport
          end
        else hostport
    end in
  to_lower (trim_suffix hostport ".").

(** The pattern as the matcher reads it. *)
Definition host_pattern (raw : str) : str := to_lower (trim_space (trim_suffix raw ".")).

(** One iteration of the loop over the patterns. *)
Definition host_step (host : str) (best : Z) (raw : str) : Z :=
  let p := host_pattern raw in
  if p =?s "*" then if best <? 1 then 1 else best
  else if has_prefix p "*." then
    let suffix := trim_prefix p "*" in
    if has_suffix host suffix && negb (host =?s trim_prefix suffix ".") then
      let score := 1000 + len suffix in
      if best <? score then score else best
    else best
  else if p =?s host then
    let score := 1000000 + len p in
    if best <? score then score else best
  else best.

Definition hostMatchSpecificity (patterns : list str) (host : str) : bool * Z :=
  let best := foldl (host_step host) (-1) patterns in
  (0 <=? best, best).

(** One iteration of the loop of [Match]: (best, bestPathLength, bestHostScore). *)
Definition match_step (host requestPath : str) (acc : option RouteConfig * Z * Z) (route : RouteConfig)
    : option RouteConfig * Z * Z :=
  let '(best, bestPathLength, bestHostScore) := acc in
  let '(matched, hostScore) := hostMatchSpecificity (route_hosts route) host in
  if negb matched || negb (pathPrefixMatches requestPath (path_prefix route)) then acc
  else
    let pathLength := len (path_prefix route) in
    if (bestPathLength <? pathLength)
       || ((pathLength =? bestPathLength) && (bestHostScore <? hostScore))
    then (Some route, pathLength, hostScore)
    else acc.

Definition Match (table : list RouteConfig) (req : Request) : option RouteConfig :=
  let host := canonicalHost (req_host req) in
  let requestPath := canonicalRequestPath (url_path (req_url req)) in
  fst (fst (foldl (match_step host requestPath) (None, -1, -1) table)).
End router.
End Router.

(** ** securityedge's copy *)

Module Routes.
Section routes.
Context {U : Unicode}.

Record Route := mkRoute { Name : str; Hosts : list str; PathPrefix : str }.

Definition canonicalHost (hostport : str) : str :=
  let hostport := trim_space hostport in
  let hostport :=
    match SplitHostPort hostport with
    | Some (host, _) => host
    | None =>
        if has_prefix hostport "[" && has_suffix hostport "]" then
          match ParseIP (trim_suffix (trim_prefix hostport "[") "]") with
          | Some a => ip_string a
          | None => hostport
          end
        else hostport
    end in
  to_lower (trim_suffix hostport ".").

Definition host_step (host : str) (best : Z) (raw : str) : Z :=
  let p := to_lower (trim_space (trim_suffix raw ".")) in
  if p =?s "*" then if best <? 1 then 1 else best
  else if has_prefix p "*." then
    let suffix := trim_prefix p "*" in
    if has_suffix host suffix && negb (host =?s trim_prefix suffix ".") then
      let score := 1000 + len suffix in
      if best <? score then score else best
    else best
  else if p =?s host then
    let score := 1000000 + len p in
    if best <? score then score else best
  else best.

Definition hostMatchSpecificity (patterns : list str) (host : str) : bool * Z :=
  let best := foldl (host_step host) (-1) patterns in
  (0 <=? best, best).

Definition pathPrefixMatches (requestPath prefix : str) : bool :=
  if (prefix =?s "/") || (requestPath =?s prefix) then true
  else has_prefix requestPath prefix && (len prefix <? len requestPath)
       && bool_decide (requestPath !! length prefix = Some slash).

Definition match_step (host requestPath : str) (acc : option Route * Z * Z) (route : Route)
    : option Route * Z * Z :=
  let '(best, bestPathLength, bestHostScore) := acc in
  let '(matched, hostScore) := hostMatchSpecificity (Hosts route) host in
  if negb matched || negb (pathPrefixMatches requestPath (PathPrefix route)) then acc
  else
    let pathLength := len (PathPrefix route) in
    if (bestPathLength <? pathLength)
       || ((pathLength =? bestPathLength) && (bestHostScore <? hostScore))
    then (Some route, pathLength, hostScore)
    else acc.

Definition Match (table : list Route) (req : Request) : option Route :=
  let host := canonicalHost (req_host req) in
  let requestPath := canonicalRequestPath (url_path (req_url req)) in
  fst (fst (foldl (match_step host requestPath) (None, -1, -1) table)).

(** The three fields securityedge decodes from edgeproxy's route. *)
Definition of_config (r : RouteConfig) : Route :=
  mkRoute (route_name r) (route_hosts r) (path_prefix r).
End routes.
End Routes.

(** ** Specification of route selection *)

Section spec.
Context {U : Unicode}.
Import Router.
Implicit Types (r : RouteConfig) (table : list RouteConfig) (req : Request).

Definition route_matches req r : bool :=
  fst (hostMatchSpecificity (route_hosts r) (canonicalHost (req_host req)))
  && pathPrefixMatches (canonicalRequestPath (url_path (req_url req))) (path_prefix r).

(** Longest prefix first, then the most specific host. *)
Definition route_key req r : Z * Z :=
  (len (path_prefix r), snd (hostMatchSpecificity (route_hosts r) (canonicalHost (req_host req)))).

Definition key_lt (a b : Z * Z) : Prop := fst a < fst b ∨ (fst a = fst b ∧ snd a < snd b).
Definition key_le (a b : Z * Z) : Prop := key_lt a b ∨ a = b.

Lemma key_le_lt a b c : key_le a b → key_lt b c → key_lt a c.
Proof. unfold key_le, key_lt. intros [?| ->]; lia. Qed.
Lemma key_not_lt a b : ¬ key_lt b a → key_le a b.
Proof.
  unfold key_le, key_lt. destruct a as [a1 a2], b as [b1 b2]. simpl. intros H.
  destruct (decide ((a1, a2) = (b1, b2))) as [|Hne]; [by right|left].
  assert (¬ (a1 = b1 ∧ a2 = b2)) by (by intros [-> ->]). lia.
Qed.

(** [r] is the first matching route of [table] with the largest key. *)
Definition best_route req table r : Prop :=
  ∃ l1 l2, table = l1 ++ r :: l2 ∧ route_matches req r = true
    ∧ (∀ r', r' ∈ l1 → route_matches req r' = true → key_lt (route_key req r') (route_key req r))
    ∧ (∀ r', r' ∈ l2 → route_matches req r' = true → key_le (route_key req r') (route_key req r)).

Lemma match_step_eq req acc r :
  match_step (canonicalHost (req_host req)) (canonicalRequestPath (url_path (req_url req))) acc r
  = if route_matches req r then
      if (snd (fst acc) <? fst (route_key req r))
         || ((fst (route_key req r) =? snd (fst acc)) && (snd acc <? snd (route_key req r)))
      then (Some r, fst (route_key req r), snd (route_key req r)) else acc
    else acc.
Proof.
  destruct acc as [[b pl] hs]. unfold match_step, route_matches, route_key.
  destruct (hostMatchSpecificity _ _) as [m s]. simpl.
  destruct m; simpl; [|done]. by destruct (pathPrefixMatches _ _).
Qed.

Lemma match_fold req table :
  match foldl (match_step (canonicalHost (req_host req)) (canonicalRequestPath (url_path (req_url req))))
          (None, -1, -1) table with
  | (None, pl, hs) => pl = -1 ∧ hs = -1 ∧ ∀ r, r ∈ table → route_matches req r = false
  | (Some r, pl, hs) => route_key req r = (pl, hs) ∧ best_route req table r
  end.
Proof.
  induction table as [|r table IH] using rev_ind; simpl.
  { split_and!; [done..|]. intros r Hr. by apply not_elem_of_nil in Hr. }
  rewrite foldl_app. simpl. rewrite match_step_eq.
  destruct (route_key req r) as [a c] eqn:Ek.
  destruct (foldl _ _ table) as [[[b|] pl] hs]; simpl.
  - destruct IH as [Hkey (l1 & l2 & -> & Hm & H1 & H2)].
    destruct (route_matches req r) eqn:Hr.
    + destruct (_ || _) eqn:Hc.
      * split; [done|]. exists (l1 ++ b :: l2), []. split_and!; [done..| |].
        -- intros r' Hr' Hm'. rewrite Ek. assert (key_le (route_key req r') (pl, hs)) as Hle.
           { rewrite elem_of_app, elem_of_cons in Hr'. rewrite <- Hkey.
             destruct Hr' as [?|[->|?]]; [left; by apply H1 | by right | by apply H2]. }
           eapply key_le_lt; [exact Hle|]. unfold key_lt. apply orb_true_iff in Hc.
           destruct Hc; boolify; simpl; lia.
        -- intros r' Hr'. by apply not_elem_of_nil in Hr'.
      * split; [done|]. exists l1, (l2 ++ [r]). split_and!; [by rewrite <- app_assoc|done..|].
        intros r' [?| ->%list_elem_of_singleton]%elem_of_app Hm'; [by apply H2|].
        rewrite Hkey, Ek. apply key_not_lt. unfold key_lt. simpl.
        apply orb_false_iff in Hc as [Hc1 Hc2]. apply andb_false_iff in Hc2.
        destruct Hc2; boolify; lia.
    + split; [done|]. exists l1, (l2 ++ [r]). split_and!; [by rewrite <- app_assoc|done..|].
      intros r' [?| ->%list_elem_of_singleton]%elem_of_app Hm'; [by apply H2|congruence].
  - destruct IH as (-> & -> & Hno). destruct (route_matches req r) eqn:Hr.
    + assert (0 <= a) by (injection Ek as <- _; apply len_nonneg).
      assert ((-1 <? a) = true) as -> by (apply Z.ltb_lt; lia). simpl.
      split; [done|]. exists table, []. split_and!; [done..| |].
      * intros r' Hr' Hm'. rewrite Hno in Hm' by done. done.
      * intros r' Hr'. by apply not_elem_of_nil in Hr'.
    + split_and!; [done..|]. intros r' [?| ->%list_elem_of_singleton]%elem_of_app; [by apply Hno|done].
Qed.

(** C22: [Match] selects deterministically by the documented order: the route it returns matches the
    request (host pattern and path prefix), beats every earlier matching route strictly and every
    later one weakly in the lexicographic order (prefix length, host specificity), so ties go to the
    first in configuration order; it returns nothing exactly when no route of the table matches. *)
Theorem Match_best table req :
  match Match table req with
  | Some r => best_route req table r
  | None => ∀ r, r ∈ table → route_matches req r = false
  end.
Proof.
  unfold Match. pose proof (match_fold req table) as H.
  destruct (foldl _ _ table) as [[[b|] pl] hs]; simpl; tauto.
Qed.

(** *** Host specificity *)

(** The score of one pattern, [-1] when it does not match. *)
Definition pattern_score (host raw : str) : Z :=
  let p := host_pattern raw in
  if p =?s "*" then 1
  else if has_prefix p "*." then
    let suffix := trim_prefix p "*" in
    if has_suffix host suffix && negb (host =?s trim_prefix suffix ".") then 1000 + len suffix else -1
  else if p =?s host then 1000000 + len p else -1.

(** [raw] names [host] itself. *)
Definition exact_pattern (host raw : str) : Prop :=
  host_pattern raw = host ∧ host ≠ lit "*" ∧ has_prefix host "*." = false.

Lemma host_step_max host best raw : -1 <= best → host_step host best raw = Z.max best (pattern_score host raw).
Proof.
  intros Hb. unfold host_step, pattern_score.
  assert (∀ x : Z, (if best <? x then x else best) = Z.max best x) as Hmax
    by (intros x; case_goal; boolify; lia).
  repeat (case_goal; [rewrite ?Hmax; done || (try (rewrite Z.max_l; [done|lia])) | ]);
    rewrite ?Z.max_l by lia; done.
Qed.

Lemma pattern_score_ge host raw : -1 <= pattern_score host raw.
Proof.
  unfold pattern_score. repeat case_goal; try lia;
    match goal with |- context [len ?l] => pose proof (len_nonneg l) end; lia.
Qed.

Definition max_score (host : str) (patterns : list str) (z : Z) : Prop :=
  (z = -1 ∨ ∃ raw, raw ∈ patterns ∧ pattern_score host raw = z)
  ∧ -1 <= z ∧ ∀ raw, raw ∈ patterns → pattern_score host raw <= z.

Lemma host_fold_max host patterns : max_score host patterns (snd (hostMatchSpecificity patterns host)).
Proof.
  unfold hostMatchSpecificity, max_score. simpl.
  induction patterns as [|raw pats (Hex & Hge & Hall)] using rev_ind; simpl.
  { split_and!; [by left|lia|]. intros raw Hr. by apply not_elem_of_nil in Hr. }
  rewrite foldl_app. simpl. rewrite host_step_max by done.
  pose proof (pattern_score_ge host raw).
  destruct (Z.max_spec (foldl (host_step host) (-1) pats) (pattern_score host raw)) as [[? ->]|[? ->]].
  - split_and!; [right; exists raw; set_solver|lia|].
    intros raw' [?| ->%list_elem_of_singleton]%elem_of_app; [|lia].
    specialize (Hall raw'). naive_solver lia.
  - split_and!; [|lia|].
    + destruct Hex as [?|(raw' & ? & ?)]; [by left|right]. exists raw'. set_solver.
    + intros raw' [?| ->%list_elem_of_singleton]%elem_of_app; [by apply Hall|lia].
Qed.

Lemma exact_score host raw : exact_pattern host raw → pattern_score host raw = 1000000 + len host.
Proof.
  intros (Heq & H1 & H2). unfold pattern_score. rewrite Heq, H2, eqs_refl.
  by rewrite (proj2 (eqs_false _ _)).
Qed.

Lemma not_exact_score host raw : len host < 999000 → ¬ exact_pattern host raw → pattern_score host raw < 1000000.
Proof.
  intros Hlen Hne. unfold pattern_score.
  destruct (host_pattern raw =?s "*") eqn:E1; [lia|]. destruct (has_prefix _ "*.") eqn:E2.
  - destruct (has_suffix _ _) eqn:E3; simpl; [|lia]. case_goal; [|lia].
    apply has_suffix_inv in E3 as (t & Ht & _). apply (f_equal len) in Ht.
    rewrite len_app in Ht. pose proof (len_nonneg t). lia.
  - destruct (host_pattern raw =?s host) eqn:E3; [|lia]. boolify. destruct Hne.
    split_and!; congruence.
Qed.

(** Among routes with equally long prefixes an exact host beats every wildcard: when some
    matching route whose prefix is as long as the selected one's names the request's host itself,
    the selected route names it too (for hosts of less than 999000 bytes, where the scores of
    wildcards stay below those of exact names). *)
Theorem Match_exact_host_wins table req r r' :
  len (canonicalHost (req_host req)) < 999000 →
  Match table req = Some r → r' ∈ table → route_matches req r' = true →
  len (path_prefix r') = len (path_prefix r) →
  (∃ raw, raw ∈ route_hosts r' ∧ exact_pattern (canonicalHost (req_host req)) raw) →
  ∃ raw, raw ∈ route_hosts r ∧ exact_pattern (canonicalHost (req_host req)) raw.
Proof.
  intros Hlen HM Hin Hm Hpl (raw & Hraw & Hex). pose proof (match_fold req table) as HB.
  unfold Match in HM. destruct (foldl _ _ table) as [[[b|] pl] hs]; simpl in HM; [|done].
  injection HM as ->. destruct HB as [_ (l1 & l2 & -> & _ & H1 & H2)].
  set (host := canonicalHost (req_host req)) in *.
  assert (key_le (route_key req r') (route_key req r)) as Hle.
  { rewrite elem_of_app, elem_of_cons in Hin.
    destruct Hin as [?|[->|?]]; [left; by apply H1 | by right | by apply H2]. }
  pose proof (host_fold_max host (route_hosts r')) as (_ & _ & Hall).
  pose proof (host_fold_max host (route_hosts r)) as (Hsome & _ & _).
  specialize (Hall raw Hraw). rewrite exact_score in Hall by done.
  pose proof (len_nonneg host).
  assert (1000000 <= snd (hostMatchSpecificity (route_hosts r) host)) as Hbig.
  { unfold key_le, key_lt, route_key in Hle. fold host in Hle.
    destruct Hle as [Hle|Heq]; [simpl in *; lia|]. injection Heq as _ Heq. simpl in *. lia. }
  destruct Hsome as [Hs|(raw' & Hin' & Hs)]; [lia|]. exists raw'. split; [done|].
  destruct (decide (exact_pattern host raw')) as [|Hn]; [done|].
  apply not_exact_score in Hn; [lia|done].
Qed.

(** SecurityEdge and EdgeProxy select the same route: on every table and every request
    securityedge's copy of [Match] returns the (projection of the) route that edgeproxy's returns,
    so both processes apply their per-route policies to the same route. *)
Theorem Routes_Match_agrees table req :
  Routes.Match (Routes.of_config <$> table) req = Routes.of_config <$> Match table req.
Proof.
  unfold Routes.Match, Match. change Routes.canonicalHost with canonicalHost.
  set (h := canonicalHost _). set (p := canonicalRequestPath _).
  assert (∀ acc, foldl (Routes.match_step h p) (Routes.of_config <$> fst (fst acc), snd (fst acc), snd acc)
                   (Routes.of_config <$> table)
     = (λ a : option RouteConfig * Z * Z, (Routes.of_config <$> fst (fst a), snd (fst a), snd a))
         (foldl (match_step h p) acc table)) as Hgen.
  { induction table as [|r table IH]; intros [[b pl] hs]; [done|].
    rewrite fmap_cons. cbn [foldl fst snd].
    assert (Routes.match_step h p (Routes.of_config <$> b, pl, hs) (Routes.of_config r)
      = (λ a : option RouteConfig * Z * Z, (Routes.of_config <$> fst (fst a), snd (fst a), snd a))
          (match_step h p (b, pl, hs) r)) as ->; [|apply IH].
    unfold Routes.match_step, match_step. simpl.
    assert (Routes.pathPrefixMatches p (path_prefix r) = pathPrefixMatches p (path_prefix r)) as ->.
    { unfold Routes.pathPrefixMatches, pathPrefixMatches.
      by destruct (path_prefix r =?s "/"), (p =?s path_prefix r). }
    change Routes.hostMatchSpecificity with hostMatchSpecificity.
    destruct (_ <=? _), (pathPrefixMatches _ _); simpl; try done. by destruct (_ || _). }
  specialize (Hgen (None, -1, -1)). simpl in Hgen. by rewrite Hgen.
Qed.
End spec.

(** *** A concrete table: an exact host against a wildcard with the same prefix *)

Definition sample_route (n h prefix : string) : RouteConfig :=
  mkRoute n [lit h] prefix false false [] (mkLB "round_robin" f_one f_quarter) (mkProxy 0 0 0 0 0 0 0 0 0)
    (mkCacheCfg false 0 0 0 0 0 false false false false [] []) (mkHealth false [] 0 0 []).
Definition sample_wild : RouteConfig := sample_route "wild" "*.shop.test" "/api".
Definition sample_exact : RouteConfig := sample_route "exact" "www.shop.test" "/api".
Definition sample_request : Request :=
  mkRequest "GET" "www.shop.test:8443" (mkURL [] [] [] "/api/items" [] false) ∅ [].

Lemma Match_exact_host_wins_witness :
  let _ : Unicode := unicode_ascii in
  Router.Match [sample_wild; sample_exact] sample_request = Some sample_exact ∧
  ∃ raw, raw ∈ route_hosts sample_exact
         ∧ exact_pattern (Router.canonicalHost (req_host sample_request)) raw.
Proof.
  split; [by vm_compute|].
  apply (@Match_exact_host_wins unicode_ascii [sample_wild; sample_exact] sample_request sample_exact sample_exact);
    [by vm_compute | by vm_compute | by right; left | by vm_compute | done |].
  exists "www.shop.test". split; [by left|]. unfold exact_pattern. by split_and!; vm_compute.
Defined.
