(* ===== verification/ConfigValidate.v ===== *)
(** * Configuration validation: apps/edgeproxy/internal/config/config.go

    [Validate] normalises a configuration and collects every violated rule; an
    error is the fixed part of its message.  The URL parser and the service-name
    lookup are parameters. *)

From S2P Require Import Prelude GoStr GoPath GoHttp NetIP GoFloat Config.

(** What [url.Parse] says of a URL: scheme, host (with port), whether it has
    credentials, the path, the raw query, the fragment, and [String()]. *)
Record ParsedURL := mkParsedURL {
  pu_scheme : str; pu_host : str; pu_user : bool; pu_path : str; pu_query : str; pu_fragment : str; pu_string : str }.

Class Resolve := {
  parse_url : str → option ParsedURL;
  lookup_port : str → option Z;              (* net.LookupPort("tcp", _) *)
}.

Module Validation.

Definition maxAdminLogStoreCapacity : Z := 100000.
Definition maxServerHeaderBytes : Z := 16 * 2 ^ 20.
Definition maxProxyResponseHeaderBytes : Z := 16 * 2 ^ 20.
Definition maxTrustedProxyCIDRs : Z := 4096.
Definition maxRoutes : Z := 2048.
Definition maxHostsPerRoute : Z := 256.
Definition maxUpstreamsPerRoute : Z := 256.
Definition maxProxyRetryCount : Z := 10.
Definition maxProxyIdleConnections : Z := 1000000.
Definition maxCacheEntries : Z := 1000000.
Definition maxCacheBytes : Z := 64 * 2 ^ 30.
Definition maxCacheObjectBytes : Z := 2 ^ 30.
Definition maxCacheVaryHeaders : Z := 128.
Definition maxCacheStatusCodes : Z := 128.
Definition maxHealthStatuses : Z := 128.
Definition maxBearerCredentialBytes : Z := 8 * 2 ^ 10.
Definition reservedUnmatchedRouteName : str := "__unmatched__".

(** [errs = append(errs, ...)] under a condition. *)
Definition check (violated : bool) (msg : string) : list str := if violated then [lit msg] else [].
Definition outside (lo hi z : Z) : bool := (z <? lo) || (hi <? z).

Definition isAdminPathDotSegment (name : str) : bool := (name =?s ".") || (name =?s "..").
Definition validationLimit (length maximum : Z) : Z := if maximum <? length then maximum else length.
Definition limited {A} (maximum : Z) (l : list A) : list A := take (Z.to_nat (validationLimit (len l) maximum)) l.

Section rules.
Context {U : Unicode} {R : Resolve}.

(** ** Host patterns and paths *)

Definition host_label_ok (label : str) : bool :=
  negb (label =?s []) && (len label <=? 63)
  && forallb (λ b, is_lower b || is_digit b || (b =?c "-")) label
  && match head label with Some b => is_lower b || is_digit b | None => false end
  && match last label with Some b => is_lower b || is_digit b | None => false end.

(** [None] is the error. *)
Definition normalizeExactRouteHost (value : str) : option str :=
  if has_prefix value "[" && has_suffix value "]" then
    ip_string <$> ParseIP (trim_suffix (trim_prefix value "[") "]")
  else match ParseIP value with
  | Some a => Some (ip_string a)
  | None =>
      if mem_byte ":" value then None
      else if 253 <? len value then None
      else if forallb host_label_ok (split value ".") then Some value else None
  end.

Definition normalizeRouteHostPattern (raw : str) : option str :=
  let value := trim_suffix (to_lower (trim_space raw)) "." in
  if value =?s [] then None
  else if value =?s "*" then Some value
  else if contains_any value ([" "%char; chr 9; chr 13; chr 10] ++ "/\?#@") then None
  else if has_prefix value "*." then
    if negb (Z.of_nat (count_byte value "*") =? 1) then None
    else
      suffix ← normalizeExactRouteHost (trim_prefix value "*.");
      match ParseIP suffix with Some _ => None | None => Some ("*." ++ suffix) end
  else if mem_byte "*" value then None
  else normalizeExactRouteHost value.

Definition normalizeAbsolutePath (raw : str) : option str :=
  let value := trim_space raw in
  if value =?s [] then Some (lit "/")
  else if negb (has_prefix value "/") then None
  else if contains_any value "?#" then None
  else match path_unescape value with
  | None => None
  | Some decoded =>
      if negb (decoded =?s value) then None
      else
        let trailingSlash := has_suffix value "/" in
        let cleaned := path_clean value in
        if negb (cleaned =?s value) && negb (trailingSlash && (cleaned ++ "/" =?s value)) then None
        else Some (if trailingSlash && negb (cleaned =?s "/") then cleaned ++ "/" else cleaned)
  end.

Definition normalizePathPrefix (raw : str) : option str :=
  value ← normalizeAbsolutePath raw;
  Some (if negb (value =?s "/") then trim_suffix value "/" else value).

(** ** Listeners *)

Definition isLoopbackHost (host : str) : bool :=
  let host := trim_bytes "[]" (trim_space host) in
  if equal_fold host "localhost" then true
  else match ParseIP host with Some a => ip_is_loopback a | None => false end.

Definition anyListenerHost (host : str) : bool :=
  let host := trim_space host in
  if (host =?s []) || (host =?s "*") then true
  else match ParseIP host with Some a => ip_is_unspecified a | None => false end.

Definition listenerHostsOverlap (first second : str) : bool :=
  let first := trim_bytes "[]" (trim_space first) in
  let second := trim_bytes "[]" (trim_space second) in
  if equal_fold first second || anyListenerHost first || anyListenerHost second then true
  else if isLoopbackHost first && isLoopbackHost second then true
  else match ParseIP first, ParseIP second with Some a, Some b => ip_equal a b | _, _ => false end.

Definition normalizedListenerPort (raw : str) : option Z :=
  match parse_int (trim_space raw) with Some port => Some port | None => lookup_port (trim_space raw) end.

Definition listenerEndpointsOverlap (first second : str) : bool :=
  match SplitHostPort (trim_space first), SplitHostPort (trim_space second) with
  | Some (firstHost, firstPortRaw), Some (secondHost, secondPortRaw) =>
      match normalizedListenerPort firstPortRaw, normalizedListenerPort secondPortRaw with
      | Some firstPort, Some secondPort =>
          if (firstPort =? 0) || (secondPort =? 0) || negb (firstPort =? secondPort) then false
          else listenerHostsOverlap firstHost secondHost
      | _, _ => false
      end
  | _, _ => false
  end.

Definition validateNumericPort (raw : str) (allowZero : bool) : list str :=
  let raw := trim_space raw in
  if raw =?s [] then [lit "port is required"]
  else match parse_int raw with
  | None => match lookup_port raw with
            | None => [lit "port is neither numeric nor a registered TCP service"] | Some _ => [] end
  | Some port => check (outside (if allowZero then 0 else 1) 65535 port) "port out of range"
  end.

Definition validateHostPort (addr : str) (allowZero : bool) : list str :=
  match SplitHostPort (trim_space addr) with
  | None => [lit "invalid address"]
  | Some (_, port) => validateNumericPort port allowZero
  end.

(** [url.URL]'s [Hostname] and [Port] *)
Definition url_host_port (hostport : str) : str * str :=
  let '(host, port) :=
    match last_index_byte hostport ":" with
    | Some i => if forallb is_digit (drop (S i) hostport) then (take i hostport, drop (S i) hostport) else (hostport, [])
    | None => (hostport, [])
    end in
  if has_prefix host "[" && has_suffix host "]" then (take (length host - 2) (drop 1 host), port) else (host, port).

Definition validateURLPort (u : ParsedURL) : list str :=
  if has_suffix (pu_host u) ":" then [lit "port is required after ':'"]
  else
    let port := snd (url_host_port (pu_host u)) in
    if port =?s [] then [] else validateNumericPort port false.

(** ** Tokens and header names *)

Definition reservedClientIPSourceHeader (value : str) : bool :=
  bool_decide (to_lower (trim_space value) ∈ lits
    ["authorization"; "connection"; "content-length"; "content-type"; "cookie"; "forwarded"; "host"; "keep-alive";
     "proxy-authorization"; "proxy-connection"; "set-cookie"; "te"; "trailer"; "transfer-encoding"; "upgrade"; "via";
     "x-forwarded-host"; "x-forwarded-port"; "x-forwarded-proto"; "x-forwarded-server"; "x-request-id";
     "x-secureedge-internal-probe"]).

(** The rune-by-rune checks together accept exactly the printable ASCII strings
    without a space; one message stands for all of them. *)
Definition validateBearerCredential (value : str) : list str :=
  check ((value =?s "[REDACTED]") || (maxBearerCredentialBytes <? len value) || negb (forallb (in_range "!" "~") value))
        "invalid bearer credential".

Definition validHTTPToken (value : str) : bool := negb (value =?s []) && forallb token_byte value.

(** ** [Validate]: the listener and the admin listener *)

(** One entry of trusted_proxy_cidrs: (errors, trusted, seen). *)
Definition net_string (n : IPNet) : str :=
  let ones := if is_v4 (net_ip n) && negb (net_mask4 n) then Z.max 0 (net_ones n - 96) else net_ones n in
  ip_string (net_ip n) ++ "/" ++ itoa ones.

Definition trusted_step (acc : list str * list str * gset str) (raw : str) : list str * list str * gset str :=
  let '(errs, trusted, seen) := acc in
  match ParseCIDR (trim_space raw) with
  | None => (errs ++ [lit "invalid server.trusted_proxy_cidrs entry"], trusted, seen)
  | Some network =>
      let canonical := net_string network in
      if bool_decide (canonical ∈ seen) then acc else (errs, trusted ++ [canonical], {[ canonical ]} ∪ seen)
  end.

Definition normalize_server (s : ServerConfig) : ServerConfig :=
  let hdr := trim_space (forwarded_for_header s) in
  mkServer (trim_space (listen_addr s)) (trusted_proxy_cidrs s)
    (if hdr =?s [] then lit "X-Forwarded-For" else hdr)
    (read_header_timeout s) (read_timeout s) (write_timeout s) (idle_timeout s) (shutdown_timeout s) (max_header_bytes s)
    (mkTLS (tls_enabled (server_tls s)) (trim_space (tls_cert (server_tls s))) (trim_space (tls_key (server_tls s)))).

Definition with_trusted (l : list str) (s : ServerConfig) : ServerConfig :=
  mkServer (listen_addr s) l (forwarded_for_header s) (read_header_timeout s) (read_timeout s) (write_timeout s)
    (idle_timeout s) (shutdown_timeout s) (max_header_bytes s) (server_tls s).

(** The errors and the server section, normalised; [token] is the trimmed admin token. *)
Definition validate_server (token : str) (s : ServerConfig) : list str * ServerConfig :=
  let errs :=
    (if token =?s [] then [] else validateBearerCredential token)
    ++ (if trim_space (listen_addr s) =?s [] then [lit "server.listen_addr is required"]
        else validateHostPort (listen_addr s) true)
    ++ check (read_header_timeout s <=? 0) "server.read_header_timeout must be positive"
    ++ check ((read_timeout s <? 0) || (write_timeout s <? 0) || (idle_timeout s <? 0)) "server timeouts cannot be negative"
    ++ check (shutdown_timeout s <=? 0) "server.shutdown_timeout must be positive"
    ++ check (outside 1 maxServerHeaderBytes (max_header_bytes s)) "server.max_header_bytes out of range"
    ++ (if negb (validHTTPToken (forwarded_for_header s)) then [lit "server.forwarded_for_header is not a field name"]
        else check (reservedClientIPSourceHeader (forwarded_for_header s)) "server.forwarded_for_header is reserved")
    ++ check (maxTrustedProxyCIDRs <? len (trusted_proxy_cidrs s)) "too many server.trusted_proxy_cidrs" in
  let '(errs, trusted, _) := foldl trusted_step (errs, [], ∅) (limited maxTrustedProxyCIDRs (trusted_proxy_cidrs s)) in
  (errs ++ check (tls_enabled (server_tls s)
                  && ((trim_space (tls_cert (server_tls s)) =?s []) || (trim_space (tls_key (server_tls s)) =?s [])))
                 "TLS files are required when TLS is enabled",
   with_trusted trusted s).

Definition normalize_admin (a : AdminConfig) : AdminConfig :=
  mkAdmin (admin_enabled a) (trim_space (admin_listen a)) (trim_space (admin_token a)) (admin_log a).

Definition validate_log_store (l : AdminLogConfig) : list str :=
  check (outside 1 maxAdminLogStoreCapacity (log_capacity l)) "admin.log_store.capacity out of range"
  ++ check (log_default_page l <=? 0) "admin.log_store.default_page_size must be positive"
  ++ check (log_max_page l <=? 0) "admin.log_store.max_page_size must be positive"
  ++ check (log_max_page l <? log_default_page l) "admin.log_store.default_page_size cannot exceed max_page_size"
  ++ check (log_capacity l <? log_max_page l) "admin.log_store.max_page_size cannot exceed capacity".

Definition validate_admin (listen : str) (a : AdminConfig) : list str :=
  if negb (admin_enabled a) then []
  else
    check (listenerEndpointsOverlap listen (admin_listen a)) "server.listen_addr and admin.listen_addr overlap"
    ++ match SplitHostPort (admin_listen a) with
       | None => [lit "invalid admin.listen_addr"]
       | Some (host, _) =>
           match validateHostPort (admin_listen a) true with
           | [] => check ((trim_space (admin_token a) =?s []) && negb (isLoopbackHost host)) "admin.auth_token is required"
           | errs => errs
           end
       end
    ++ (if log_enabled (admin_log a) then validate_log_store (admin_log a) else []).

(** ** [Validate]: one route *)

(** (errors, route names so far in lower case) *)
Definition validate_name (name : str) (names : gset str) : list str * gset str :=
  if name =?s [] then ([lit "route name is required"], names)
  else if isAdminPathDotSegment name then ([lit "route name is a dot segment"], names)
  else if 256 <? len name then ([lit "route name is too long"], names)
  else if equal_fold name reservedUnmatchedRouteName then ([lit "route name is reserved"], names)
  else if bool_decide (to_lower name ∈ names) then ([lit "duplicate route name"], names)
  else ([], {[ to_lower name ]} ∪ names).

(** One host: the new pattern, (errors, patterns so far). *)
Definition host_step (acc : list str * gset str * list str) (rawHost : str) : list str * gset str * list str :=
  let '(errs, seen, hosts) := acc in
  match normalizeRouteHostPattern rawHost with
  | None => (errs ++ [lit "invalid host pattern"], seen, hosts ++ [rawHost])
  | Some host =>
      if bool_decide (host ∈ seen) then (errs ++ [lit "duplicate host pattern"], seen, hosts ++ [host])
      else (errs, {[ host ]} ∪ seen, hosts ++ [host])
  end.

Definition validate_hosts (hosts : list str) : list str * list str :=
  let errs := match hosts with
              | [] => [lit "at least one host is required"]
              | _ => check (maxHostsPerRoute <? len hosts) "too many hosts" end in
  let '(errs, _, normalized) := foldl host_step (errs, ∅, []) (limited maxHostsPerRoute hosts) in
  (errs, normalized ++ drop (length normalized) hosts).

Definition algorithms : list str :=
  lits ["round_robin"; "weighted_round_robin"; "least_connections"; "priority_failover"; "adaptive_latency"; "random_weighted"].

Definition f_tenth : float64 := fdiv (f_of_Z 1) (f_of_Z 10).

Definition normalize_lb (l : LoadBalancingConfig) : LoadBalancingConfig :=
  let alg := to_lower (trim_space (lb_algorithm l)) in
  mkLB (if alg =?s [] then lit "round_robin" else alg)
       (if feq (latency_sensitivity l) f_zero then f_one else latency_sensitivity l)
       (if feq (ewma_alpha l) f_zero then f_quarter else ewma_alpha l).

Definition validate_lb (l : LoadBalancingConfig) : list str :=
  check (negb (bool_decide (lb_algorithm l ∈ algorithms))) "load_balancing.algorithm is not supported"
  ++ check (flt (latency_sensitivity l) f_tenth || flt (f_of_Z 8) (latency_sensitivity l)) "latency_sensitivity out of range"
  ++ check (fle (ewma_alpha l) f_zero || flt f_one (ewma_alpha l)) "ewma_alpha out of range".

(** The selectors (host, path prefix) and the routes that own them. *)
Definition selector_key (host prefix : str) : str := host ++ chr 0 :: prefix.
Definition selector_step (name prefix : str) (acc : list str * gmap str str) (host : str) : list str * gmap str str :=
  let '(errs, selectors) := acc in
  if host =?s [] then acc
  else match selectors !! selector_key host prefix with
  | Some owner =>
      if negb (owner =?s name) then (errs ++ [lit "two routes have the same selector"], selectors)
      else (errs, <[selector_key host prefix := name]> selectors)
  | None => (errs, <[selector_key host prefix := name]> selectors)
  end.

Definition normalize_upstream (j : Z) (u : UpstreamConfig) : UpstreamConfig :=
  let name := trim_space (up_name u) in
  mkUpstreamCfg (if name =?s [] then "origin-" ++ itoa (j + 1) else name) (trim_space (up_url u)) (up_insecure u)
    (if up_weight u =? 0 then 1 else up_weight u) (if up_priority u =? 0 then j + 1 else up_priority u).

Record upstream_seen := mkSeen { seen_names : gset str; seen_urls : gset str }.

(** The checks of upstream [j], already normalised. *)
Definition validate_upstream (seen : upstream_seen) (u : UpstreamConfig) : list str * upstream_seen :=
  let errs :=
    check (isAdminPathDotSegment (up_name u)) "upstream name is a dot segment"
    ++ check (256 <? len (up_name u)) "upstream name is too long"
    ++ check (bool_decide (to_lower (up_name u) ∈ seen_names seen)) "duplicate upstream name"
    ++ check (outside 1 10000 (up_weight u)) "weight out of range"
    ++ check (outside 1 10000 (up_priority u)) "priority out of range" in
  let names := {[ to_lower (up_name u) ]} ∪ seen_names seen in
  match parse_url (up_url u) with
  | None => (errs ++ [lit "invalid upstream URL"], mkSeen names (seen_urls seen))
  | Some parsed =>
      if (pu_scheme parsed =?s []) || (pu_host parsed =?s []) || (fst (url_host_port (pu_host parsed)) =?s [])
      then (errs ++ [lit "invalid upstream URL"], mkSeen names (seen_urls seen))
      else
        (errs
         ++ check (negb (pu_scheme parsed =?s "http") && negb (pu_scheme parsed =?s "https")) "upstream scheme must be http or https"
         ++ check (pu_user parsed) "upstream URL must not contain credentials"
         ++ check (negb (pu_fragment parsed =?s [])) "upstream URL must not contain a fragment"
         ++ check (bool_decide (pu_string parsed ∈ seen_urls seen)) "duplicate upstream URL"
         ++ validateURLPort parsed
         ++ check (up_insecure u && negb (pu_scheme parsed =?s "https")) "insecure_skip_verify is only valid for https",
         mkSeen names ({[ pu_string parsed ]} ∪ seen_urls seen))
  end.

Definition upstream_step (acc : list str * upstream_seen * list UpstreamConfig) (u : UpstreamConfig)
    : list str * upstream_seen * list UpstreamConfig :=
  let '(errs, seen, us) := acc in
  let u := normalize_upstream (len us) u in
  let '(errs', seen) := validate_upstream seen u in (errs ++ errs', seen, us ++ [u]).

Definition validate_upstreams (us : list UpstreamConfig) : list str * list UpstreamConfig :=
  let '(errs, _, normalized) := foldl upstream_step ([], mkSeen ∅ ∅, []) (limited maxUpstreamsPerRoute us) in
  (errs, normalized ++ drop (length normalized) us).

Definition validate_proxy (p : ProxyConfig) : list str :=
  check ((request_timeout p <=? 0) || (dial_timeout p <=? 0) || (response_header_timeout p <=? 0)) "proxy timeouts must be positive"
  ++ check ((idle_conn_timeout p <? 0) || (retry_backoff p <? 0)) "proxy idle timeout and retry backoff cannot be negative"
  ++ check (outside 0 maxProxyRetryCount (retry_count p)) "retry_count out of range"
  ++ check ((max_idle_conns p <=? 0) || (maxProxyIdleConnections <? max_idle_conns p)
            || (max_idle_conns_per_host p <=? 0) || (maxProxyIdleConnections <? max_idle_conns_per_host p))
           "proxy connection limits out of range"
  ++ check (outside 1 maxProxyResponseHeaderBytes (max_response_header_bytes p)) "max_response_header_bytes out of range".

(** [addVary]: (errors, varied, seen, overflow reported). *)
Definition add_vary (acc : list str * list str * gset str * bool) (raw : str) : list str * list str * gset str * bool :=
  let '(errs, varied, seen, overflow) := acc in
  let name := canonical_key (trim_space raw) in
  if negb (validHTTPToken name) then (errs ++ [lit "invalid vary header"], varied, seen, overflow)
  else if bool_decide (to_lower name ∈ seen) then acc
  else if maxCacheVaryHeaders <=? len varied
  then (if overflow then errs else errs ++ [lit "too many effective vary headers"], varied, seen, true)
  else (errs, varied ++ [name], {[ to_lower name ]} ∪ seen, overflow).

Definition with_vary (l : list str) (c : CacheConfig) : CacheConfig :=
  mkCacheCfg (cache_enabled c) (default_ttl c) (stale_if_error c) (max_entries c) (max_bytes c) (max_object_bytes c)
    (respect_origin_headers c) (cache_authorized_requests c) (cache_cookie_requests c) (cache_set_cookie_responses c)
    l (cacheable_status_codes c).

Definition vary_inputs (c : CacheConfig) : list str :=
  limited maxCacheVaryHeaders (vary_request_headers c)
  ++ (if cache_authorized_requests c then [lit "Authorization"] else [])
  ++ (if cache_cookie_requests c then [lit "Cookie"] else []).

Definition validate_statuses (maximum : Z) (statuses : list Z) : list str :=
  match statuses with
  | [] => [lit "statuses cannot be empty"]
  | _ => check (maximum <? len statuses) "too many statuses"
  end ++ flat_map (λ status, check (outside 100 599 status) "invalid status") (limited maximum statuses).

Definition validate_cache (c : CacheConfig) : list str * CacheConfig :=
  if negb (cache_enabled c) then ([], c)
  else
    let errs := check (maxCacheVaryHeaders <? len (vary_request_headers c)) "too many cache.vary_request_headers" in
    let '(errs, varied, _, _) := foldl add_vary (errs, [], ∅, false) (vary_inputs c) in
    (errs
     ++ check (default_ttl c <=? 0) "cache.default_ttl must be positive"
     ++ check (stale_if_error c <? 0) "cache.stale_if_error cannot be negative"
     ++ check (outside 1 maxCacheEntries (max_entries c)) "cache.max_entries out of range"
     ++ check (outside 1 maxCacheBytes (max_bytes c)) "cache.max_bytes out of range"
     ++ check (outside 1 maxCacheObjectBytes (max_object_bytes c)) "cache.max_object_bytes out of range"
     ++ check (max_bytes c <? max_object_bytes c) "max_object_bytes cannot exceed max_bytes"
     ++ validate_statuses maxCacheStatusCodes (cacheable_status_codes c),
     with_vary varied c).

Definition validate_health (h : HealthCheckConfig) : list str * HealthCheckConfig :=
  if negb (hc_enabled h) then ([], h)
  else
    let '(errs, path) := match normalizeAbsolutePath (hc_path h) with
                         | None => ([lit "invalid health_check.path"], hc_path h) | Some p => ([], p) end in
    (errs
     ++ (if (hc_interval h <=? 0) || (hc_timeout h <=? 0) then [lit "health-check durations must be positive"]
         else check (hc_interval h <? hc_timeout h) "health_check.timeout cannot exceed interval")
     ++ validate_statuses maxHealthStatuses (hc_statuses h),
     mkHealth (hc_enabled h) path (hc_interval h) (hc_timeout h) (hc_statuses h)).

(** The tables shared by the routes. *)
Record route_tables := mkTables { names : gset str; selectors : gmap str str }.

Definition validate_route (t : route_tables) (r : RouteConfig) : list str * route_tables * RouteConfig :=
  let name := trim_space (route_name r) in
  let '(e1, names) := validate_name name (names t) in
  let '(e2, hosts) := validate_hosts (route_hosts r) in
  let '(e3, prefix) := match normalizePathPrefix (path_prefix r) with
                       | None => ([lit "invalid path_prefix"], path_prefix r) | Some p => ([], p) end in
  let e4 := match upstreams r with
            | [] => [lit "at least one upstream is required"]
            | us => check (maxUpstreamsPerRoute <? len us) "too many upstreams" end in
  let lb := normalize_lb (load_balancing r) in
  let e5 := validate_lb lb in
  let '(e6, selectors) := foldl (selector_step name prefix) ([], selectors t) (limited maxHostsPerRoute hosts) in
  let '(e7, us) := validate_upstreams (upstreams r) in
  let e8 := validate_proxy (proxy r) in
  let '(e9, cc) := validate_cache (cache r) in
  let '(e10, hc) := validate_health (health_check r) in
  (e1 ++ e2 ++ e3 ++ e4 ++ e5 ++ e6 ++ e7 ++ e8 ++ e9 ++ e10, mkTables names selectors,
   mkRoute name hosts prefix (strip_prefix r) (preserve_host r) us lb (proxy r) cc hc).

Definition route_step (acc : list str * route_tables * list RouteConfig) (r : RouteConfig)
    : list str * route_tables * list RouteConfig :=
  let '(errs, t, rs) := acc in
  let '(errs', t, r) := validate_route t r in (errs ++ errs', t, rs ++ [r]).

Definition Validate (c : Config) : list str * Config :=
  let s := normalize_server (server c) in
  let a := normalize_admin (admin c) in
  let '(e1, s) := validate_server (admin_token a) s in
  let e2 := validate_admin (listen_addr s) a in
  let e3 := match routes c with
            | [] => [lit "at least one route is required"]
            | rs => check (maxRoutes <? len rs) "too many routes" end in
  let '(e4, _, rs) := foldl route_step ([], mkTables ∅ ∅, []) (limited maxRoutes (routes c)) in
  (e1 ++ e2 ++ e3 ++ e4, mkConfig s a (rs ++ drop (length rs) (routes c))).
End rules.
End Validation.
