(* ===== verification/ConfigFacts.v ===== *)
(** * What a validated configuration guarantees

    The soundness of [Validate] (ConfigValidate.v) and what it gives the data
    plane: path prefixes are lists of clean segments, host patterns are read by
    the matcher exactly as they are written, and no two routes share a selector,
    so the route of a request does not depend on the order of the routes. *)

From S2P Require Import Prelude GoStr GoPath GoHttp NetIP GoFloat Config Router ConfigValidate.

Module Facts.
Import Router Validation.

Lemma check_nil b m : check b m = [] ↔ b = false.
Proof. by destruct b. Qed.
Lemma outside_false lo hi z : outside lo hi z = false ↔ lo <= z <= hi.
Proof. unfold outside. rewrite orb_false_iff, !Z.ltb_ge. lia. Qed.

Lemma limited_all {A} maximum (l : list A) : len l <= maximum → limited maximum l = l.
Proof.
  intros H. unfold limited, validationLimit. destruct (Z.ltb_spec maximum (len l)); [lia|].
  apply take_ge. unfold len. lia.
Qed.

Section facts.
Context {U : Unicode} {R : Resolve}.

(** [Validate] accepts [c] and leaves it as [c']. *)
Definition accepted (c c' : Config) : Prop := Validate c = ([], c').

(** A prefix that is a list of clean segments. *)
Definition clean_prefix (p : str) (segs : list str) : Prop := Forall seg_ok segs ∧ p = render segs.

(** ** Path prefixes *)

Lemma absolute_path_form raw p : normalizeAbsolutePath raw = Some p →
  ∃ segs tr, Forall seg_ok segs ∧ p = canonical_form segs tr.
Proof.
  unfold normalizeAbsolutePath. set (value := trim_space raw).
  destruct (value =?s []); [intros [= <-]; by exists [], false|].
  destruct (has_prefix value "/") eqn:Hp; [|done]. cbn [negb].
  destruct (contains_any _ _); [done|]. destruct (path_unescape value) as [d|]; [|done].
  destruct (negb (d =?s value)); [done|].
  apply has_prefix_inv in Hp as (t & Ht & _). change (lit "/" ++ t) with (slash :: t) in Ht.
  rewrite Ht. rewrite path_clean_rooted. set (segs := clean_segs true (slash :: t)).
  pose proof (clean_segs_ok (slash :: t)) as Hok. fold segs in Hok.
  destruct (_ && _) eqn:E; [done|]. intros [= <-].
  destruct (has_suffix (slash :: t) "/" && negb (render segs =?s "/")) eqn:Et.
  - exists segs, true. split; [done|]. boolify. rewrite form_app_slash; [done|done|]. intros ->. done.
  - exists segs, false. split; [done|]. unfold canonical_form. by rewrite app_nil_r.
Qed.

Lemma path_prefix_form raw p : normalizePathPrefix raw = Some p → ∃ segs, Forall seg_ok segs ∧ p = render segs.
Proof.
  unfold normalizePathPrefix. destruct (normalizeAbsolutePath raw) as [v|] eqn:E; [|done]. simpl.
  destruct (absolute_path_form raw v E) as (segs & tr & Hok & ->). intros [= <-]. exists segs. split; [done|].
  destruct (decide (segs = [])) as [->|Hne].
  { unfold canonical_form. rewrite bool_decide_eq_true_2, andb_false_r by done. done. }
  assert (canonical_form segs tr ≠ lit "/") as Hs.
  { intros He. pose proof (render_nil_iff segs Hok) as Hr. destruct tr; [rewrite form_app_slash in He by done|
      unfold canonical_form in He; cbn [andb] in He; rewrite app_nil_r in He; tauto].
    unfold render in He. apply (f_equal length) in He. rewrite length_app in He. simpl in He.
    rewrite Nat.add_comm in He. done. }
  rewrite (proj2 (eqs_false _ _) Hs). cbn [negb]. destruct tr.
  - rewrite form_app_slash by done. apply trim_suffix_app.
  - rewrite trim_suffix_no; [unfold canonical_form; by rewrite app_nil_r|].
    rewrite form_trailing by done. by rewrite bool_decide_eq_false_2.
Qed.

(** an accepted path prefix is a list of clean segments, and it governs exactly the requests whose
    cleaned path starts with those segments: no escape, dot-segment, query or repeated slash can make a
    configured prefix match more or less than it reads. *)
Theorem validated_prefix_matches raw p value : normalizePathPrefix raw = Some p →
  ∃ segs, clean_prefix p segs
  ∧ (pathPrefixMatches (canonicalRequestPath value) p = true ↔ segs `prefix_of` request_segments value).
Proof.
  intros H. destruct (path_prefix_form raw p H) as (segs & Hok & ->). exists segs. split; [done|].
  by apply prefix_segments_iff.
Qed.

(** ** Host patterns *)

Definition host_byte (b : ascii) : bool := is_lower b || is_digit b || mem_byte b "-.:".

Lemma host_byte_facts b : host_byte b = true →
  rune_self b = false ∧ space1 b = false ∧ lower_ascii b = b ∧ b ≠ "*"%char ∧ b ≠ chr 0.
Proof. all_bytes b. Qed.

(** A host name or address as it is kept in the configuration. *)
Definition host_ok (h : str) : Prop := h ≠ [] ∧ forallb host_byte h = true ∧ last h ≠ Some "."%char.

Lemma forallb_join (P : ascii → bool) sep l : forallb P sep = true → Forall (λ x, forallb P x = true) l →
  forallb P (join sep l) = true.
Proof.
  intros Hs Hl. induction Hl as [|x l Hx Hl IH]; [done|]. destruct l as [|y l]; [done|].
  change (join sep (x :: y :: l)) with (x ++ sep ++ join sep (y :: l)).
  by rewrite !forallb_app, Hx, Hs, IH.
Qed.

Lemma forallb_weaken (P Q : ascii → bool) s : (∀ b, P b = true → Q b = true) → forallb P s = true → forallb Q s = true.
Proof. intros H. induction s as [|b s IH]; [done|]. simpl. intros [Hb Hs]%andb_true_iff. by rewrite (H b Hb), IH. Qed.

Lemma forallb_elem (P : ascii → bool) s b : forallb P s = true → b ∈ s → P b = true.
Proof. rewrite forallb_forall. intros H Hb. by apply H, list_elem_of_In. Qed.

Lemma join_last sep l x : (∀ y, y ∈ l → y ≠ []) → last l = Some x → last (join sep l) = last x.
Proof.
  intros Hne. induction l as [|y l IH]; [done|]. destruct l as [|z l]; [by intros [= ->]|].
  change (join sep (y :: z :: l)) with (y ++ sep ++ join sep (z :: l)). intros Hl.
  rewrite <- IH by (intros; (apply Hne; by right) || done). rewrite app_assoc, last_app.
  destruct (last (join sep (z :: l))) eqn:E; [done|]. apply last_None in E. exfalso.
  assert (z ≠ []) as Hz by (apply Hne; right; left). destruct l as [|w l]; [done|].
  change (z ++ sep ++ join sep (w :: l) = []) in E. by apply app_eq_nil in E as [-> _].
Qed.

(** Decimal bytes of an address. *)
Lemma octet_digits z : 0 <= z < 256 → forallb is_digit (itoa z) = true ∧ itoa z ≠ [].
Proof.
  intros Hz. assert (forallb (λ n, forallb is_digit (itoa (Z.of_nat n)) && negb (itoa (Z.of_nat n) =?s [])) (seq 0 256) = true) as Hall
    by (vm_compute; reflexivity).
  rewrite forallb_forall in Hall. specialize (Hall (Z.to_nat z)). rewrite in_seq, Z2Nat.id in Hall by lia.
  apply andb_true_iff in Hall as [H1 H2]; [|lia]. boolify. done.
Qed.

Lemma hex_digit_byte n : 0 <= n < 16 → is_lower (hex_digit n) || is_digit (hex_digit n) = true.
Proof.
  intros Hn. assert (forallb (λ n, is_lower (hex_digit (Z.of_nat n)) || is_digit (hex_digit (Z.of_nat n))) (seq 0 16) = true) as Hall
    by (vm_compute; reflexivity).
  rewrite forallb_forall in Hall. specialize (Hall (Z.to_nat n)). rewrite in_seq, Z2Nat.id in Hall by lia. apply Hall. lia.
Qed.

Lemma hex16_bytes g : 0 <= g < 65536 → forallb (λ b, is_lower b || is_digit b) (hex16 g) = true.
Proof.
  intros Hg. assert (0 <= g / 4096 < 16) by (Z.to_euclidean_division_equations; lia).
  pose proof (Z.mod_pos_bound (g / 256) 16). pose proof (Z.mod_pos_bound (g / 16) 16). pose proof (Z.mod_pos_bound g 16).
  unfold hex16. repeat case_goal; cbn [forallb]; rewrite ?hex_digit_byte by lia; done.
Qed.

Lemma ip_groups_range a g : g ∈ ip_groups a → 0 <= g < 65536.
Proof. unfold ip_groups. intros (i & -> & _)%list_elem_of_fmap. apply Z.mod_pos_bound. lia. Qed.

Definition v6_byte (b : ascii) : bool := is_lower b || is_digit b || mem_byte b ":".

Lemma string_v6_bytes a : string_v6 a ≠ [] ∧ forallb v6_byte (string_v6 a) = true.
Proof.
  assert (∀ gs, (∀ g, g ∈ gs → g ∈ ip_groups a) → forallb v6_byte (join ":" (hex16 <$> gs)) = true) as Hj.
  { intros gs Hgs. apply forallb_join; [done|]. apply Forall_fmap, Forall_forall. intros g Hg. simpl.
    eapply forallb_weaken; [|apply hex16_bytes, (ip_groups_range a), Hgs, Hg]. intros b. unfold v6_byte. by intros ->. }
  unfold string_v6. destruct (best_run _ _ _) as [s e]. case_bool_decide.
  - split; [by intros [_ ?]%app_eq_nil|]. rewrite !forallb_app, !Hj; [done| |].
    + intros g. apply subseteq_drop.
    + intros g. apply subseteq_take.
  - split; [|by apply Hj]. unfold ip_groups. simpl. intros [Hh _]%app_eq_nil. revert Hh. unfold hex16. by repeat case_goal.
Qed.

Lemma ip_string_ok a : host_ok (ip_string a).
Proof.
  unfold ip_string. destruct (is_v4 a).
  - unfold string_v4. set (v := v4_bits a). pose proof (Z.mod_pos_bound a (2 ^ 32) ltac:(lia)) as Hv. fold (v4_bits a) in Hv. fold v in Hv.
    set (os := [v / 2 ^ 24; v / 2 ^ 16 mod 256; v / 2 ^ 8 mod 256; v mod 256]).
    assert (∀ o, o ∈ os → 0 <= o < 256) as Hos.
    { intros o Ho. unfold os in Ho. rewrite !elem_of_cons, elem_of_nil in Ho.
      destruct Ho as [->|[->|[->|[->|[]]]]]; try (apply Z.mod_pos_bound; lia). Z.to_euclidean_division_equations. lia. }
    assert (last (join "." (itoa <$> os)) = last (itoa (v mod 256))) as Hl.
    { apply join_last; [|done]. intros y (o & -> & Ho)%list_elem_of_fmap. by apply octet_digits, Hos. }
    destruct (octet_digits (v mod 256)) as [Hd Hne]; [apply Z.mod_pos_bound; lia|]. split_and!.
    + intros He. rewrite He in Hl. symmetry in Hl. by apply last_None in Hl.
    + apply forallb_join; [done|]. apply Forall_fmap, Forall_forall. intros o Ho. simpl.
      eapply forallb_weaken; [|apply octet_digits, Hos, Ho]. intros b. unfold host_byte. intros ->. by rewrite orb_true_r.
    + rewrite Hl. intros Hdot. apply last_Some_elem_of in Hdot. by pose proof (forallb_elem _ _ _ Hd Hdot).
  - destruct (string_v6_bytes a) as [Hne Hb]. split_and!; [done| |].
    + eapply forallb_weaken; [|exact Hb]. clear. intros b. all_bytes b.
    + intros Hdot%last_Some_elem_of. by pose proof (forallb_elem _ _ _ Hb Hdot).
Qed.

Lemma exact_host_ok v h : normalizeExactRouteHost v = Some h → host_ok h.
Proof.
  unfold normalizeExactRouteHost. destruct (_ && _).
  { destruct (ParseIP _) as [a|]; [|done]. intros [= <-]. apply ip_string_ok. }
  destruct (ParseIP v) as [a|]; [intros [= <-]; apply ip_string_ok|].
  destruct (mem_byte _ _); [done|]. destruct (_ <? _); [done|]. destruct (forallb host_label_ok _) eqn:E; [|done].
  intros [= <-]. rewrite forallb_forall in E.
  assert (∀ l, l ∈ split v "." → l ≠ [] ∧ forallb host_byte l = true ∧ last l ≠ Some "."%char) as Hl.
  { intros l Hl%list_elem_of_In%E. unfold host_label_ok in Hl. boolify. split_and!; [done| |].
    - eapply forallb_weaken; [|done]. clear. intros b. all_bytes b.
    - intros Hd. match goal with H : context [last l] |- _ => rewrite Hd in H; done end. }
  pose proof (join_split "." v) as Hv. set (ls := split v ".") in *. rewrite <- Hv. change ["."%char] with (lit ".").
  pose proof (split_not_nil "." v) as Hne. fold ls in Hne.
  destruct (last ls) as [z|] eqn:Hz; [|by apply last_None in Hz].
  assert (last (join "." ls) = last z) as Hlast by (apply join_last; [intros y Hy; by apply Hl | done]).
  apply last_Some_elem_of in Hz. destruct (Hl z Hz) as (Hz1 & Hz2 & Hz3). split_and!.
  - intros He. rewrite He in Hlast. symmetry in Hlast. by apply last_None in Hlast.
  - apply forallb_join; [done|]. apply Forall_forall. intros l Hin. by apply Hl.
  - by rewrite Hlast.
Qed.

(** A normalised pattern. *)
Definition pattern_ok (h : str) : Prop :=
  h = lit "*" ∨ host_ok h ∨ ∃ s, h = lit "*." ++ s ∧ host_ok s.

Lemma route_pattern_ok raw h : normalizeRouteHostPattern raw = Some h → pattern_ok h.
Proof.
  unfold normalizeRouteHostPattern. set (value := trim_suffix _ _).
  destruct (value =?s []); [done|]. destruct (value =?s "*") eqn:E; [boolify; intros [= <-]; by left|].
  destruct (contains_any _ _); [done|]. destruct (has_prefix value "*.").
  - destruct (negb _); [done|]. destruct (normalizeExactRouteHost _) as [s|] eqn:Es; [|done]. simpl.
    destruct (ParseIP s); [done|]. intros [= <-]. right. right. exists s. split; [done|]. by eapply exact_host_ok.
  - destruct (mem_byte _ _); [done|]. intros H. right. left. by eapply exact_host_ok.
Qed.

(** The matcher reads a normalised pattern as it is written. *)
Lemma host_pattern_id h : pattern_ok h → Router.host_pattern h = h.
Proof.
  intros Hp. assert (forallb (λ b, host_byte b || (b =?c "*")) h = true ∧ last h ≠ Some "."%char) as [Hb Hl].
  { destruct Hp as [->|[(_ & Hb & Hl)|(s & -> & Hne & Hb & Hl)]].
    - split; [done|]. vm_compute. discriminate.
    - split; [|done]. eapply forallb_weaken; [|exact Hb]. intros b. by intros ->.
    - split.
      + rewrite forallb_app. apply andb_true_iff. split; [done|]. eapply forallb_weaken; [|exact Hb]. intros b. by intros ->.
      + rewrite last_app. destruct (last s) eqn:E; [done|]. by apply last_None in E. }
  unfold Router.host_pattern. rewrite trim_suffix_no.
  2:{ destruct (has_suffix h ".") eqn:E; [|done]. apply has_suffix_inv in E as (t & -> & _).
      destruct Hl. change (lit ".") with ["."%char]. apply last_snoc. }
  rewrite trim_space_id.
  - rewrite to_lower_ascii_fmap.
    + clear Hl Hp. induction h as [|b h IH]; [done|]. cbn [forallb] in Hb. apply andb_true_iff in Hb as [Hb1 Hb2].
      rewrite fmap_cons, (IH Hb2). f_equal. revert Hb1. clear. all_bytes b.
    + clear Hl Hp. unfold is_ascii. eapply forallb_weaken; [|exact Hb]. clear. intros b. all_bytes b.
  - eapply forallb_weaken; [|exact Hb]. clear. intros b. all_bytes b.
Qed.

(** ** Soundness of the checks

    A loop of [Validate] only appends errors, so a final empty list means that
    every iteration found none. *)

Lemma foldl_no_errors {A B} (f : A → B → A) (err : A → list str) (I : list B → A → Prop) l a :
  (∀ done a b, err (f a b) = [] → err a = [] ∧ (I done a → I (done ++ [b]) (f a b))) →
  err (foldl f a l) = [] → err a = [] ∧ (I [] a → I l (foldl f a l)).
Proof.
  intros Hf. induction l as [|b l IH] using rev_ind; [by split|]. rewrite foldl_app. cbn [foldl]. intros He.
  apply (Hf l) in He as [He Hstep]. destruct (IH He) as [He0 HI]. split; [done|]. auto.
Qed.

Ltac no_errors :=
  repeat match goal with
  | H : _ ++ _ = [] |- _ => apply app_eq_nil in H as [? ?]
  | H : check _ _ = [] |- _ => apply check_nil in H
  | H : outside _ _ _ = false |- _ => apply outside_false in H
  end; boolify.

Definition hosts_ok (hosts : list str) : Prop :=
  1 <= len hosts <= maxHostsPerRoute ∧ Forall pattern_ok hosts ∧ NoDup hosts.

Lemma validate_hosts_ok hosts hosts' : validate_hosts hosts = ([], hosts') → hosts_ok hosts'.
Proof.
  unfold validate_hosts. set (errs := match hosts with [] => _ | _ => _ end).
  destruct (foldl _ _ _) as [[es seen] hs] eqn:Ef. intros [= -> <-].
  pose proof (foldl_no_errors host_step (λ a, fst (fst a))
    (λ l a, snd (fst a) ≡@{gset str} list_to_set (snd a) ∧ Forall pattern_ok (snd a) ∧ NoDup (snd a) ∧ length (snd a) = length l)
    (limited maxHostsPerRoute hosts) (errs, ∅, [])) as Hloop.
  destruct Hloop as [He HI]; [|by rewrite Ef|].
  - intros l [[e s] hs'] h. simpl. destruct (normalizeRouteHostPattern h) as [p|] eqn:Ep; simpl; [|intros H; by apply app_eq_nil in H as [_ ?]].
    destruct (bool_decide _) eqn:Ed; simpl; [intros H; by apply app_eq_nil in H as [_ ?]|]. intros ->. split; [done|].
    intros (Hs & Hp & Hnd & Hl). boolify. split_and!.
    + rewrite list_to_set_app, Hs. simpl. clear. set_solver.
    + apply Forall_app. split; [done|]. constructor; [by eapply route_pattern_ok|done].
    + apply NoDup_app. split_and!; [done| |apply NoDup_singleton].
      intros x Hx ->%list_elem_of_singleton. rewrite Hs, elem_of_list_to_set in Ed. done.
    + rewrite !length_app. simpl. lia.
  - simpl in He. rewrite Ef in HI. destruct HI as (_ & Hp & Hnd & Hl); [by split_and!; [|constructor..|]|]. simpl in *.
    destruct hosts as [|h0 hosts]; [done|]. subst errs. no_errors. rewrite limited_all in Hl by done.
    rewrite Hl, drop_all, app_nil_r. split; [|done]. unfold len in *. rewrite Hl. simpl in *. lia.
Qed.

(** *** Upstreams *)

Definition upstream_ok (u : UpstreamConfig) : Prop :=
  up_name u ≠ [] ∧ len (up_name u) <= 256 ∧ 1 <= up_weight u <= 10000 ∧ 1 <= up_priority u <= 10000
  ∧ ∃ parsed, parse_url (up_url u) = Some parsed ∧ pu_host parsed ≠ [] ∧ pu_user parsed = false
      ∧ (pu_scheme parsed = lit "http" ∨ pu_scheme parsed = lit "https")
      ∧ (up_insecure u = true → pu_scheme parsed = lit "https").

Definition upstreams_ok (us : list UpstreamConfig) : Prop :=
  1 <= len us <= maxUpstreamsPerRoute ∧ Forall upstream_ok us ∧ NoDup ((λ u, to_lower (up_name u)) <$> us).

Lemma validate_upstream_ok seen j u seen' : validate_upstream seen (normalize_upstream j u) = ([], seen') →
  upstream_ok (normalize_upstream j u) ∧ (to_lower (up_name (normalize_upstream j u)) ∉ seen_names seen)
  ∧ seen_names seen' = {[ to_lower (up_name (normalize_upstream j u)) ]} ∪ seen_names seen.
Proof.
  assert (up_name (normalize_upstream j u) ≠ []) as Hname.
  { unfold normalize_upstream. simpl. destruct (trim_space (up_name u) =?s []) eqn:E; [done|by boolify]. }
  set (v := normalize_upstream j u) in *. clearbody v. unfold validate_upstream.
  destruct (parse_url (up_url v)) as [p|] eqn:Ep; [|intros [= H _]; by apply app_eq_nil in H as [_ ?]].
  destruct (_ || _) eqn:Eh; [intros [= H _]; by apply app_eq_nil in H as [_ ?]|].
  intros [= H <-]. no_errors. split_and!; [|done..]. split_and!; [done|lia|lia|lia|lia|lia|]. exists p.
  split_and!; [done|done|done| |].
  - destruct (pu_scheme p =?s "http") eqn:E1; [boolify; by left|].
    destruct (pu_scheme p =?s "https") eqn:E2; [boolify; by right|done].
  - intros Hi. match goal with H : up_insecure v && ?x = false |- _ => assert (x = false) by (by rewrite Hi in H) end.
    by boolify.
Qed.

Lemma validate_upstreams_ok us us' : 1 <= len us <= maxUpstreamsPerRoute → validate_upstreams us = ([], us') → upstreams_ok us'.
Proof.
  intros Hlen. unfold validate_upstreams. rewrite limited_all by lia.
  destruct (foldl _ _ _) as [[es seen] vs] eqn:Ef. intros [= -> <-].
  pose proof (foldl_no_errors upstream_step (λ a, fst (fst a))
    (λ l a, seen_names (snd (fst a)) ≡@{gset str} list_to_set ((λ u, to_lower (up_name u)) <$> snd a) ∧ Forall upstream_ok (snd a)
            ∧ NoDup ((λ u, to_lower (up_name u)) <$> snd a) ∧ length (snd a) = length l) us ([], mkSeen ∅ ∅, [])) as Hloop.
  destruct Hloop as [_ HI]; [|by rewrite Ef|].
  - intros l [[e s] vs'] u. unfold upstream_step. destruct (validate_upstream _ _) as [e' s'] eqn:Ev. simpl. intros [-> ->]%app_eq_nil.
    split; [done|]. intros (Hs & Hp & Hnd & Hl). apply validate_upstream_ok in Ev as (Hok & Hnew & Hs').
    set (v := normalize_upstream _ _) in *. clearbody v. split_and!.
    + rewrite Hs', fmap_app, list_to_set_app, Hs. simpl. clear. set_solver.
    + apply Forall_app. split; [done|]. by constructor.
    + rewrite fmap_app. apply NoDup_app. split_and!; [done| |apply NoDup_singleton].
      intros x Hx Hv. simpl in Hv. apply list_elem_of_singleton in Hv as ->. by rewrite Hs, elem_of_list_to_set in Hnew.
    + rewrite !length_app. simpl. lia.
  - rewrite Ef in HI. destruct HI as (_ & Hp & Hnd & Hl); [by split_and!; [|constructor..|]|]. simpl in *.
    rewrite Hl, drop_all, app_nil_r. split; [|done]. unfold len in *. by rewrite Hl.
Qed.

(** *** The other sections of a route *)

Definition statuses_ok (maximum : Z) (l : list Z) : Prop :=
  1 <= len l <= maximum ∧ Forall (λ s, 100 <= s <= 599) l.

Lemma validate_statuses_ok maximum l : validate_statuses maximum l = [] → statuses_ok maximum l.
Proof.
  unfold validate_statuses. destruct l as [|s0 l]; [done|]. intros H. no_errors. set (ss := s0 :: l) in *.
  assert (1 <= len ss) by (unfold ss; rewrite len_cons; pose proof (len_nonneg l); lia). split; [lia|].
  match goal with H : flat_map _ _ = [] |- _ => rename H into Hf end. rewrite limited_all in Hf by lia.
  clearbody ss. clear -Hf. induction ss as [|s ss IH]; [done|]. cbn [flat_map] in Hf. no_errors. constructor; auto.
Qed.

Definition proxy_ok (p : ProxyConfig) : Prop :=
  0 < request_timeout p ∧ 0 < dial_timeout p ∧ 0 < response_header_timeout p ∧ 0 <= idle_conn_timeout p
  ∧ 0 <= retry_backoff p ∧ 0 <= retry_count p <= maxProxyRetryCount ∧ 1 <= max_idle_conns p <= maxProxyIdleConnections
  ∧ 1 <= max_idle_conns_per_host p <= maxProxyIdleConnections
  ∧ 1 <= max_response_header_bytes p <= maxProxyResponseHeaderBytes.

Lemma validate_proxy_ok p : validate_proxy p = [] → proxy_ok p.
Proof. unfold validate_proxy. intros H. no_errors. split_and!; lia. Qed.

(** The effective Vary list of an enabled cache: canonical field names, and the
    identity headers of the requests it may answer. *)
Definition cache_ok (c : CacheConfig) : Prop :=
  cache_enabled c = true →
  0 < default_ttl c ∧ 0 <= stale_if_error c ∧ 1 <= max_entries c <= maxCacheEntries
  ∧ 1 <= max_object_bytes c <= max_bytes c ∧ max_bytes c <= maxCacheBytes ∧ max_object_bytes c <= maxCacheObjectBytes
  ∧ len (vary_request_headers c) <= maxCacheVaryHeaders
  ∧ Forall (λ v, validHTTPToken v = true) (vary_request_headers c)
  ∧ (cache_authorized_requests c = true → lit "Authorization" ∈ vary_request_headers c)
  ∧ (cache_cookie_requests c = true → lit "Cookie" ∈ vary_request_headers c)
  ∧ statuses_ok maxCacheStatusCodes (cacheable_status_codes c).

(** Equality of field names. *)
Definition same_name (a b : str) : Prop := to_lower a = to_lower b.

Lemma add_vary_loop l errs es varied seen over :
  foldl add_vary (errs, [], ∅, false) l = (es, varied, seen, over) → es = [] →
  errs = [] ∧ Forall (λ v, validHTTPToken v = true ∧ ∃ x, v = canonical_key x) varied ∧ len varied <= maxCacheVaryHeaders
  ∧ ∀ x, x ∈ l → ∃ v, v ∈ varied ∧ same_name v (canonical_key (trim_space x)).
Proof.
  intros Ef Hes.
  pose proof (foldl_no_errors add_vary (λ a, fst (fst (fst a)))
    (λ l a, let '(_, varied, seen, over) := a in over = false
      ∧ seen ≡@{gset str} list_to_set (to_lower <$> varied) ∧ Forall (λ v, validHTTPToken v = true ∧ ∃ x, v = canonical_key x) varied
      ∧ len varied <= maxCacheVaryHeaders ∧ ∀ x, x ∈ l → ∃ v, v ∈ varied ∧ same_name v (canonical_key (trim_space x)))
    l (errs, [], ∅, false)) as Hloop.
  destruct Hloop as [He HI]; [|by rewrite Ef|].
  - clear. intros l [[[e va] s] o] x. unfold add_vary. destruct (negb _) eqn:Et; simpl; [by intros [_ ?]%app_eq_nil|].
    destruct (bool_decide _) eqn:Es; simpl.
    { intros ->. split; [done|]. intros (-> & Hs & Hf & Hl & Hin). split_and!; [done..|].
      intros y [Hy| ->%list_elem_of_singleton]%elem_of_app; [by apply Hin|]. boolify.
      rewrite Hs, elem_of_list_to_set in Es. apply list_elem_of_fmap in Es as (v & Hv & ?). by exists v. }
    destruct (maxCacheVaryHeaders <=? len va) eqn:El; simpl.
    { destruct o; [intros ->; split; [done|by intros [? _]] | intros [_ ?]%app_eq_nil; done]. }
    intros ->. split; [done|]. intros (-> & Hs & Hf & Hl & Hin). boolify. split_and!; [done| | | |].
    + rewrite fmap_app, list_to_set_app, Hs. simpl. clear. set_solver.
    + apply Forall_app. split; [done|]. constructor; [|done]. split; [done|by eexists].
    + rewrite len_app, len_cons, len_nil. lia.
    + intros y [Hy| ->%list_elem_of_singleton]%elem_of_app.
      * destruct (Hin y Hy) as (v & ? & ?). exists v. split; [|done]. apply elem_of_app. by left.
      * eexists. split; [|done]. apply elem_of_app. right. by left.
  - simpl in He. rewrite Ef in HI. split; [done|]. destruct HI as (_ & _ & ? & ? & ?); [|done].
    split_and!; [done|done|constructor|done|]. intros x Hx. by apply not_elem_of_nil in Hx.
Qed.

Lemma same_canonical_name v w : validHTTPToken v = true → validHTTPToken w = true →
  canonical_key v = v → canonical_key w = w → same_name v w → v = w.
Proof.
  unfold validHTTPToken, same_name. intros Hv Hw Cv Cw Hs. boolify.
  destruct (canonical_key_lower v) as [Lv Kv]; [done|]. destruct (canonical_key_lower w) as [Lw Kw]; [done|].
  rewrite Cv in Lv, Kv. rewrite Cw in Lw, Kw. rewrite <- Kv, <- Kw. f_equal. congruence.
Qed.

Lemma validate_cache_ok c c' : validate_cache c = ([], c') → cache_ok c'.
Proof.
  unfold validate_cache. destruct (cache_enabled c) eqn:Ec; cbn [negb]; [|intros [= <-]; unfold cache_ok; by rewrite Ec].
  destruct (foldl _ _ _) as [[[es varied] seen] over] eqn:Ef. intros [= H <-]. no_errors.
  apply add_vary_loop in Ef as (Hc & Hv & Hl & Hin); [|done]. apply check_nil in Hc. boolify.
  assert (∀ w : str, w ∈ vary_inputs c → validHTTPToken w = true → canonical_key (trim_space w) = w → w ∈ varied) as Hauto.
  { intros w Hw Ht Hk. destruct (Hin w Hw) as (v & Hvin & Hs). rewrite Hk in Hs.
    rewrite Forall_forall in Hv. destruct (Hv v Hvin) as (Htv & x & Hx).
    assert (canonical_key w = w) as Hkw by (by rewrite <- Hk, canonical_key_idem).
    rewrite <- (same_canonical_name v w); [done..| |done|done]. by rewrite Hx, canonical_key_idem. }
  intros _. simpl. split_and!; [lia..|done| | | |by apply validate_statuses_ok].
  - eapply Forall_impl; [done|]. by intros v [? _].
  - intros Ha. apply Hauto; [|by vm_compute..]. unfold vary_inputs. rewrite Ha, !elem_of_app. right. left. by left.
  - intros Ha. apply Hauto; [|by vm_compute..]. unfold vary_inputs. rewrite Ha, !elem_of_app. right. right. by left.
Qed.

Definition health_ok (h : HealthCheckConfig) : Prop :=
  hc_enabled h = true →
  0 < hc_timeout h <= hc_interval h ∧ has_prefix (hc_path h) "/" = true ∧ statuses_ok maxHealthStatuses (hc_statuses h).

Lemma validate_health_ok h h' : validate_health h = ([], h') → health_ok h'.
Proof.
  unfold validate_health. destruct (hc_enabled h) eqn:Ec; cbn [negb]; [|intros [= <-]; unfold health_ok; by rewrite Ec].
  destruct (normalizeAbsolutePath (hc_path h)) as [p|] eqn:Ep; [|intros [= H _]; by apply app_eq_nil in H as [? _]].
  destruct (_ || _) eqn:Ed; intros [= H <-]; no_errors; [done..|]. intros _. simpl. split_and!; [lia..| |by apply validate_statuses_ok].
  by apply absolute_path_form in Ep as (segs & tr & _ & ->).
Qed.

Definition lb_ok (l : LoadBalancingConfig) : Prop :=
  lb_algorithm l ∈ algorithms ∧ flt (latency_sensitivity l) f_tenth = false ∧ flt (f_of_Z 8) (latency_sensitivity l) = false
  ∧ fle (ewma_alpha l) f_zero = false ∧ flt f_one (ewma_alpha l) = false.

Lemma validate_lb_ok l : validate_lb l = [] → lb_ok l.
Proof. unfold validate_lb. intros H. no_errors. split_and!; done. Qed.

(** *** A route and the table *)

Record route_ok (r : RouteConfig) : Prop := mkRouteOk {
  ok_name : route_name r ≠ [] ∧ len (route_name r) <= 256;
  ok_hosts : hosts_ok (route_hosts r);
  ok_prefix : ∃ segs, clean_prefix (path_prefix r) segs;
  ok_upstreams : upstreams_ok (upstreams r);
  ok_lb : lb_ok (load_balancing r);
  ok_proxy : proxy_ok (proxy r);
  ok_cache : cache_ok (cache r);
  ok_health : health_ok (health_check r);
}.

(** The tables after the routes [rs]: their names, and the owner of every selector. *)
Definition tables_ok (rs : list RouteConfig) (t : route_tables) : Prop :=
  names t ≡@{gset str} list_to_set ((λ r, to_lower (route_name r)) <$> rs)
  ∧ NoDup ((λ r, to_lower (route_name r)) <$> rs)
  ∧ ∀ r h, r ∈ rs → h ∈ route_hosts r → selectors t !! selector_key h (path_prefix r) = Some (route_name r).

Lemma validate_name_ok name ns ns' : validate_name name ns = ([], ns') →
  (name ≠ [] ∧ len name <= 256) ∧ (to_lower name ∉ ns) ∧ ns' = {[ to_lower name ]} ∪ ns.
Proof. unfold validate_name. repeat case_goal; try done. intros [= <-]. boolify. done. Qed.

(** The selectors of one route: earlier owners keep theirs, every host gets the route. *)
Lemma selectors_ok name prefix hosts sel sel' : Forall (λ h, h ≠ []) hosts →
  foldl (selector_step name prefix) ([], sel) hosts = ([], sel') →
  (∀ k o, sel !! k = Some o → sel' !! k = Some o) ∧ (∀ h, h ∈ hosts → sel' !! selector_key h prefix = Some name).
Proof.
  intros Hne Ef.
  pose proof (foldl_no_errors (selector_step name prefix) fst
    (λ l a, Forall (λ h, h ≠ []) l → (∀ k o, sel !! k = Some o → snd a !! k = Some o)
            ∧ (∀ h, h ∈ l → snd a !! selector_key h prefix = Some name)) hosts ([], sel)) as Hloop.
  destruct Hloop as [_ HI]; [|by rewrite Ef|].
  - clear. intros l [e s] h. unfold selector_step.
    assert (∀ o, s !! selector_key h prefix = None ∨ (s !! selector_key h prefix = Some o ∧ o = name) →
      (∀ k o, sel !! k = Some o → s !! k = Some o) ∧ (∀ h, h ∈ l → s !! selector_key h prefix = Some name) →
      (∀ k o, sel !! k = Some o → <[selector_key h prefix := name]> s !! k = Some o)
      ∧ (∀ h', h' ∈ l ++ [h] → <[selector_key h prefix := name]> s !! selector_key h' prefix = Some name)) as Hins.
    { intros o Ho [H1 H2]. split.
      - intros k o' Hk. apply lookup_insert_Some. destruct (decide (selector_key h prefix = k)) as [<-|?]; [left|right; auto].
        apply H1 in Hk. split; [done|]. destruct Ho as [Ho|[Ho ->]]; congruence.
      - intros h' Hh'. apply lookup_insert_Some. destruct (decide (selector_key h prefix = selector_key h' prefix)); [by left|right].
        split; [done|]. apply elem_of_app in Hh' as [?|E%list_elem_of_singleton]; [auto|by subst]. }
    destruct (h =?s []) eqn:E1; simpl.
    { intros ->. split; [done|]. intros _ [_ Hh]%Forall_app. boolify. subst h. by inversion Hh. }
    destruct (s !! selector_key h prefix) as [o|] eqn:E2; [destruct (o =?s name) eqn:E3; simpl|]; [| |simpl].
    + intros ->. split; [done|]. boolify. intros HI [Hl _]%Forall_app. apply (Hins o); auto.
    + by intros [_ ?]%app_eq_nil.
    + intros ->. split; [done|]. intros HI [Hl _]%Forall_app. apply (Hins []); auto.
  - rewrite Ef in HI. apply HI; [|done]. intros _. split; [done|]. intros h Hh. by apply not_elem_of_nil in Hh.
Qed.

Lemma validate_route_ok t r t' r' rs : validate_route t r = ([], t', r') → tables_ok rs t →
  route_ok r' ∧ tables_ok (rs ++ [r']) t'.
Proof.
  unfold validate_route. destruct (validate_name _ _) as [e1 ns] eqn:E1. destruct (validate_hosts _) as [e2 hs] eqn:E2.
  destruct (normalizePathPrefix _) as [prefix|] eqn:E3.
  2:{ repeat case_goal; intros [= He _ _]; apply app_eq_nil in He as [_ He]; by apply app_eq_nil in He as [_ He]. }
  destruct (foldl _ _ _) as [e6 sel] eqn:E6. destruct (validate_upstreams _) as [e7 us] eqn:E7.
  destruct (validate_cache _) as [e9 cc] eqn:E9. destruct (validate_health _) as [e10 hc] eqn:E10.
  intros [= He <- <-] (Hn & Hnd & Hsel). cbn [app] in He. set (lb := normalize_lb _) in *.
  repeat match type of He with _ ++ _ = [] => let Hi := fresh "Hi" in apply app_eq_nil in He as [Hi He] end.
  subst. apply validate_name_ok in E1 as (Hname & Hnew & Hns). apply validate_hosts_ok in E2.
  assert (1 <= len (upstreams r) <= maxUpstreamsPerRoute) as Hus.
  { destruct (upstreams r); [done|]. no_errors. rewrite len_cons in *. pose proof (len_nonneg l). lia. }
  pose proof E2 as (Hhl & Hpat & _). rewrite limited_all in E6 by lia.
  apply selectors_ok in E6 as [Hold Hnewsel].
  2:{ eapply Forall_impl; [exact Hpat|]. intros h [->|[[? _]|(s & -> & _)]]; done. }
  split.
  - split; simpl; [done|done|by eapply path_prefix_form|by eapply validate_upstreams_ok|by apply validate_lb_ok
      |by apply validate_proxy_ok|by eapply validate_cache_ok|by eapply validate_health_ok].
  - split_and!; simpl.
    + rewrite fmap_app, list_to_set_app, Hns, Hn. simpl. clear. set_solver.
    + rewrite fmap_app. apply NoDup_app. split_and!; [done| |apply NoDup_singleton].
      intros x Hx Hv. simpl in Hv. apply list_elem_of_singleton in Hv as ->. by rewrite Hn, elem_of_list_to_set in Hnew.
    + intros r0 h [Hr| ->%list_elem_of_singleton]%elem_of_app Hh; [by apply Hold, Hsel|by apply Hnewsel].
Qed.

(** *** The listeners *)

Definition server_ok (s : ServerConfig) : Prop :=
  trim_space (listen_addr s) ≠ [] ∧ 0 < read_header_timeout s ∧ 0 <= read_timeout s ∧ 0 <= write_timeout s ∧ 0 <= idle_timeout s
  ∧ 0 < shutdown_timeout s ∧ 1 <= max_header_bytes s <= maxServerHeaderBytes
  ∧ validHTTPToken (forwarded_for_header s) = true ∧ reservedClientIPSourceHeader (forwarded_for_header s) = false
  ∧ (NoDup (trusted_proxy_cidrs s) ∧ ∀ c, c ∈ trusted_proxy_cidrs s → ∃ raw n, ParseCIDR raw = Some n ∧ c = net_string n)
  ∧ (tls_enabled (server_tls s) = true → trim_space (tls_cert (server_tls s)) ≠ [] ∧ trim_space (tls_key (server_tls s)) ≠ []).

Lemma validate_server_ok token s s' : validate_server token s = ([], s') → server_ok s'.
Proof.
  unfold validate_server. set (errs := (if token =?s [] then _ else _) ++ _).
  destruct (foldl _ _ _) as [[es tr] seen] eqn:Ef. intros [= He <-]. no_errors. subst es.
  pose proof (foldl_no_errors trusted_step (λ a, fst (fst a))
    (λ l a, snd a ≡@{gset str} list_to_set (snd (fst a)) ∧ NoDup (snd (fst a)) ∧ ∀ c, c ∈ snd (fst a) → ∃ raw n, ParseCIDR raw = Some n ∧ c = net_string n)
    (limited maxTrustedProxyCIDRs (trusted_proxy_cidrs s)) (errs, [], ∅)) as Hloop.
  destruct Hloop as [He HI]; [|by rewrite Ef|].
  - clear. intros l [[e tr] seen] raw. unfold trusted_step.
    destruct (ParseCIDR _) as [n|] eqn:Ep; simpl; [|by intros [_ ?]%app_eq_nil]. case_bool_decide as Hn; simpl; [done|].
    intros ->. split; [done|]. intros (Hs & Hnd & Hall). split_and!.
    + rewrite list_to_set_app, Hs. simpl. clear. set_solver.
    + apply NoDup_app. split_and!; [done| |apply NoDup_singleton]. intros x Hx ->%list_elem_of_singleton.
      by rewrite Hs, elem_of_list_to_set in Hn.
    + intros c [?| ->%list_elem_of_singleton]%elem_of_app; [auto|by eexists _, _].
  - simpl in He. rewrite Ef in HI. destruct HI as (_ & Hnd & Hall); [split_and!; [done|constructor|]; intros c Hc; by apply not_elem_of_nil in Hc|].
    unfold errs in He. no_errors. destruct (trim_space (listen_addr s) =?s []) eqn:El; [done|].
    destruct (validHTTPToken _) eqn:Et; [|done]. simpl in *. no_errors. split_and!; simpl; [done|lia..|done|done|done|done|].
    intros Htls. match goal with H : tls_enabled _ && _ = false |- _ => rewrite Htls in H; cbn [andb] in H end. by boolify.
Qed.

(** An admin listener that is not bound to a loopback address needs a token, and
    does not overlap the public listener. *)
Definition admin_ok (listen : str) (a : AdminConfig) : Prop :=
  admin_enabled a = true →
  listenerEndpointsOverlap listen (admin_listen a) = false
  ∧ ∃ host port, SplitHostPort (admin_listen a) = Some (host, port)
      ∧ (trim_space (admin_token a) = [] → isLoopbackHost host = true)
      ∧ (log_enabled (admin_log a) = true →
           1 <= log_default_page (admin_log a) <= log_max_page (admin_log a)
           ∧ log_max_page (admin_log a) <= log_capacity (admin_log a) <= maxAdminLogStoreCapacity).

Lemma validate_admin_ok listen a : validate_admin listen a = [] → admin_ok listen a.
Proof.
  unfold validate_admin, admin_ok. intros H Ha. rewrite Ha in H. cbn [negb] in H. no_errors. split; [done|].
  destruct (SplitHostPort _) as [[host port]|]; [|done]. exists host, port.
  destruct (validateHostPort _ _); [|done]. no_errors. split_and!; [done| |].
  - intros Ht. match goal with H : (_ =?s []) && _ = false |- _ => rewrite Ht, eqs_refl in H; cbn [andb] in H end. by boolify.
  - intros Hl. rewrite Hl in *. unfold validate_log_store in *. no_errors. lia.
Qed.

(** What [Validate] promises of an accepted configuration. *)
Record config_ok (c : Config) : Prop := mkConfigOk {
  ok_server : server_ok (server c);
  ok_admin : admin_ok (listen_addr (server c)) (admin c);
  ok_routes_len : 1 <= len (routes c) <= maxRoutes;
  ok_routes : Forall route_ok (routes c);
  ok_route_names : NoDup ((λ r, to_lower (route_name r)) <$> routes c);
  ok_selectors : ∀ r1 r2 h, r1 ∈ routes c → r2 ∈ routes c → h ∈ route_hosts r1 → h ∈ route_hosts r2 →
    path_prefix r1 = path_prefix r2 → r1 = r2;
}.

Lemma Validate_ok c c' : Validate c = ([], c') → config_ok c'.
Proof.
  unfold Validate. destruct (validate_server _ _) as [e1 s] eqn:E1. destruct (foldl _ _ _) as [[e4 t] rs] eqn:E4.
  intros [= He <-]. no_errors. subst.
  assert (1 <= len (routes c) <= maxRoutes) as Hlen.
  { destruct (routes c); [done|]. no_errors. rewrite len_cons in *. pose proof (len_nonneg l). lia. }
  rewrite limited_all in E4 by lia.
  pose proof (foldl_no_errors route_step (λ a, fst (fst a))
    (λ l a, Forall route_ok (snd a) ∧ tables_ok (snd a) (snd (fst a)) ∧ length (snd a) = length l)
    (routes c) ([], mkTables ∅ ∅, [])) as Hloop.
  destruct Hloop as [_ HI]; [|by rewrite E4|].
  - clear. intros l [[e t] rs] r. unfold route_step. destruct (validate_route t r) as [[e' t'] r'] eqn:Ev. simpl.
    intros [-> ->]%app_eq_nil. split; [done|]. intros (Hf & Ht & Hl). apply (validate_route_ok _ _ _ _ rs) in Ev as [Hr Ht']; [|done].
    split_and!; [|done|rewrite !length_app; simpl; lia]. apply Forall_app. split; [done|]. by constructor.
  - rewrite E4 in HI. destruct HI as (Hf & (Hn & Hnd & Hsel) & Hl); [by split_and!; [constructor| split_and!; [done|constructor|];
      intros r h Hr; by apply not_elem_of_nil in Hr|]|]. simpl in *.
    rewrite Hl, drop_all, app_nil_r. split; simpl; [by eapply validate_server_ok|by apply validate_admin_ok|unfold len in *; by rewrite Hl|done|done|].
    intros r1 r2 h Hr1 Hr2 Hh1 Hh2 Hp. apply (NoDup_fmap_eq (λ r, to_lower (route_name r)) rs); [done..|].
    pose proof (Hsel r1 h Hr1 Hh1) as S1. pose proof (Hsel r2 h Hr2 Hh2) as S2. rewrite Hp in S1. simpl. congruence.
Qed.

(** ** The route of a request does not depend on the order of the routes *)

Lemma score_cases host a : pattern_ok a → 0 <= pattern_score host a →
  (a = lit "*" ∧ pattern_score host a = 1)
  ∨ (∃ t u, a = "*" ++ t ∧ host = u ++ t ∧ pattern_score host a = 1000 + len t)
  ∨ (a = host ∧ pattern_score host a = 1000000 + len host).
Proof.
  intros Hp. unfold pattern_score. rewrite host_pattern_id by done.
  destruct (a =?s "*") eqn:E1; [boolify; by left|].
  destruct (has_prefix a "*.") eqn:E2.
  - apply has_prefix_inv in E2 as (t & -> & _). change (lit "*." ++ t) with (lit "*" ++ (lit "." ++ t)).
    rewrite trim_prefix_app. destruct (has_suffix host _) eqn:E3; simpl; [|lia]. case_goal; [|lia].
    intros _. right. left. apply has_suffix_inv in E3 as (u & Hu & _). by exists ("." ++ t), u.
  - destruct (a =?s host) eqn:E3; [|lia]. boolify. subst a. right. by right.
Qed.

Lemma score_inj host a b : pattern_ok a → pattern_ok b → 0 <= pattern_score host a →
  pattern_score host a = pattern_score host b → a = b.
Proof.
  intros Ha Hb H0 He.
  destruct (score_cases host a Ha H0) as [[-> Sa]|[(t & u & -> & Hu & Sa)|[-> Sa]]],
    (score_cases host b Hb ltac:(lia)) as [[-> Sb]|[(t' & u' & -> & Hu' & Sb)|[-> Sb]]]; try done;
    try (pose proof (len_nonneg t)); try (pose proof (len_nonneg t')); try (pose proof (len_nonneg host));
    rewrite He, Sb in Sa; try lia.
  - f_equal. rewrite Hu in Hu'. apply app_inj_2 in Hu' as [_ ?]; [done|]. unfold len in Sa. lia.
  - rewrite Hu, len_app in Sa. pose proof (len_nonneg u). lia.
  - rewrite Hu', len_app in Sa. pose proof (len_nonneg u'). lia.
Qed.

Lemma prefix_inj path p q : (∃ segs, Forall seg_ok segs ∧ p = render segs) → (∃ segs, Forall seg_ok segs ∧ q = render segs) →
  pathPrefixMatches path p = true → pathPrefixMatches path q = true → len p = len q → p = q.
Proof.
  assert (∀ p, pathPrefixMatches path p = true → p = lit "/" ∨ p `prefix_of` path) as Hcase.
  { intros x. unfold pathPrefixMatches. destruct (x =?s "/") eqn:E1; [boolify; by left|].
    destruct (path =?s x) eqn:E2; [boolify; subst; by right|]. simpl. intros H. right. boolify.
    match goal with H : has_prefix _ _ = true |- _ => apply has_prefix_inv in H as (t & -> & _) end. by exists t. }
  assert (∀ x, (∃ segs, Forall seg_ok segs ∧ x = render segs) → len x = len (lit "/") → x = lit "/") as Hroot.
  { intros x (segs & _ & ->). unfold render. change (len (lit "/")) with 1. simpl. rewrite len_cons.
    intros H. by rewrite (len_zero (join _ _)) by lia. }
  intros Hp Hq [->|[t Ht]]%Hcase [->|[t' Ht']]%Hcase Hl; [done|symmetry; by apply Hroot|by apply Hroot|].
  rewrite Ht in Ht'. apply app_inj_1 in Ht' as [? _]; [done|]. unfold len in Hl. lia.
Qed.

Lemma best_unique c req r1 r2 : config_ok c → r1 ∈ routes c → r2 ∈ routes c →
  route_matches req r1 = true → route_matches req r2 = true → route_key req r1 = route_key req r2 → r1 = r2.
Proof.
  intros Hc H1 H2 M1 M2 Hk. unfold route_matches in *. unfold route_key in Hk.
  apply andb_true_iff in M1 as [A1 B1], M2 as [A2 B2].
  pose proof (proj1 (Forall_forall _ _) (ok_routes c Hc)) as Hr. pose proof (Hr r1 H1) as K1. pose proof (Hr r2 H2) as K2.
  set (host := canonicalHost _) in *.
  assert (path_prefix r1 = path_prefix r2) as Hp.
  { injection Hk as Hl _. by eapply prefix_inj; [apply (ok_prefix _ K1)|apply (ok_prefix _ K2)|..]. }
  apply (f_equal snd) in Hk. cbn [snd] in Hk.
  destruct (host_fold_max host (route_hosts r1)) as ([N1|(h1 & I1 & S1)] & _ & _);
    [by unfold hostMatchSpecificity in *; cbn [fst snd] in *; rewrite N1 in A1|].
  destruct (host_fold_max host (route_hosts r2)) as ([N2|(h2 & I2 & S2)] & _ & _);
    [by unfold hostMatchSpecificity in *; cbn [fst snd] in *; rewrite N2 in A2|].
  assert (0 <= snd (hostMatchSpecificity (route_hosts r1) host)) as Hpos.
  { unfold hostMatchSpecificity in *. cbn [fst snd] in *. by boolify. }
  pose proof (ok_hosts _ K1) as (_ & P1 & _). pose proof (ok_hosts _ K2) as (_ & P2 & _).
  rewrite Forall_forall in P1, P2.
  assert (h1 = h2) as ->. { apply (score_inj host); [auto|auto|lia|lia]. }
  by apply (ok_selectors c Hc r1 r2 h2).
Qed.

Lemma key_le_antisym a b : key_le a b → key_le b a → a = b.
Proof. unfold key_le, key_lt. destruct a, b. simpl. intros [?|?] [?|?]; [lia|congruence..]. Qed.

Lemma best_max req table r : best_route req table r →
  r ∈ table ∧ route_matches req r = true ∧ ∀ r', r' ∈ table → route_matches req r' = true → key_le (route_key req r') (route_key req r).
Proof.
  intros (l1 & l2 & -> & Hm & H1 & H2). split_and!; [apply elem_of_app; right; by left|done|].
  intros r' Hr' Hm'. rewrite elem_of_app, elem_of_cons in Hr'. destruct Hr' as [?|[->|?]]; [left; by apply H1|by right|by apply H2].
Qed.

Lemma Match_spec table req :
  match Match table req with
  | Some r => best_route req table r
  | None => ∀ r, r ∈ table → route_matches req r = false
  end.
Proof.
  unfold Match. pose proof (match_fold req table) as H. destruct (foldl _ _ table) as [[[b|] pl] hs]; simpl; tauto.
Qed.

(** C38: soundness of [Validate]: a configuration it accepts has, after its normalisation, between 1 and
    2048 routes with distinct names up to case; every route has 1 to 256 distinct well-formed host
    patterns, a clean path prefix, 1 to 256 upstreams with distinct names, http(s) URLs without
    credentials and weights and priorities in 1..10000, a supported balancing algorithm, at most 10
    retries and bounded timeouts, cache and health-check settings (with the identity headers in the
    Vary list); no two routes share a selector (host pattern and path prefix); the admin listener
    does not overlap the public one and has a token unless it is bound to loopback. *)
Theorem Validate_sound c c' : accepted c c' → config_ok c'.
Proof. apply Validate_ok. Qed.

(** C23: with a validated configuration the route of a request depends on the set of routes only: every
    permutation of the routes gives the same answer for every request, since no two routes that match
    a request have the same prefix length and host specificity. *)
Theorem Match_order_independent c c' table req : accepted c c' → table ≡ₚ routes c' →
  Match table req = Match (routes c') req.
Proof.
  intros Hc%Validate_ok Hp. pose proof (Match_spec table req) as H1. pose proof (Match_spec (routes c') req) as H2.
  destruct (Match table req) as [r1|], (Match (routes c') req) as [r2|]; [| | |done].
  - apply best_max in H1 as (I1 & M1 & K1), H2 as (I2 & M2 & K2). rewrite Hp in I1. f_equal.
    apply (best_unique c' req); [done..|]. apply key_le_antisym; [auto|]. apply K1; [by rewrite Hp|done].
  - apply best_max in H1 as (I1 & M1 & _). rewrite Hp in I1. by rewrite H2 in M1.
  - apply best_max in H2 as (I2 & M2 & _). rewrite <- Hp in I2. by rewrite H1 in M2.
Qed.
End facts.

(** *** A configuration that is accepted *)

(** [http://host:port] is the only URL form of the sample. *)
Definition sample_resolve : Resolve := {|
  parse_url s := if has_prefix s "http://" then Some (mkParsedURL "http" (trim_prefix s "http://") false [] [] [] s) else None;
  lookup_port _ := None |}.

Definition sample_route (name host prefix url : string) : RouteConfig :=
  Config.mkRoute name [lit host] prefix false false [mkUpstreamCfg [] url false 0 0] (mkLB [] f_zero f_zero)
    (mkProxy (30 * second) (5 * second) (5 * second) second 1 (50 * millisecond) 128 32 (2 ^ 20))
    (mkCacheCfg true minute minute 1000 (2 ^ 20) (2 ^ 16) true true false false (lits ["accept-encoding"]) [200; 404])
    (mkHealth true " /health " (5 * second) second [200]).

Definition sample_config : Config :=
  mkConfig
    (mkServer " :8080 " (lits ["10.1.2.3/8"; "10.0.0.0/8"]) [] (5 * second) 0 0 0 second (2 ^ 20) (mkTLS false [] []))
    (mkAdmin true "127.0.0.1:9090" [] (mkAdminLog true 1000 50 500))
    [sample_route "shop" "*.Shop.test." "/api/" "http://10.0.0.1:80"; sample_route "www" "www.shop.test" "/api" "http://10.0.0.2:80"].

Definition sample_valid : Config := snd (@Validate unicode_ascii sample_resolve sample_config).

Lemma Validate_sound_witness :
  @Validate unicode_ascii sample_resolve sample_config = ([], sample_valid)
  ∧ trusted_proxy_cidrs (server sample_valid) = lits ["10.0.0.0/8"]
  ∧ route_hosts <$> routes sample_valid = [lits ["*.shop.test"]; lits ["www.shop.test"]]
  ∧ @config_ok unicode_ascii sample_resolve sample_valid.
Proof.
  assert (@Validate unicode_ascii sample_resolve sample_config = ([], sample_valid)) as H by (by vm_compute).
  split; [exact H|]. split; [by vm_compute|]. split; [by vm_compute|].
  exact (@Validate_sound unicode_ascii sample_resolve sample_config sample_valid H).
Defined.

Definition sample_req : Request := mkRequest "GET" "www.shop.test:8443" (mkURL [] [] [] "/api/items" [] false) ∅ [].

Lemma Match_order_independent_witness :
  option_map route_name (@Router.Match unicode_ascii (routes sample_valid) sample_req) = Some (lit "www")
  ∧ @Router.Match unicode_ascii (reverse (routes sample_valid)) sample_req
    = @Router.Match unicode_ascii (routes sample_valid) sample_req.
Proof.
  split; [by vm_compute|].
  apply (@Match_order_independent unicode_ascii sample_resolve sample_config sample_valid); [by vm_compute|apply reverse_Permutation].
Defined.

Lemma validated_prefix_matches_witness :
  normalizePathPrefix " /api/v2/ " = Some (lit "/api/v2")
  ∧ ∃ segs, clean_prefix "/api/v2" segs
    ∧ (pathPrefixMatches (canonicalRequestPath "/api/v1/../v2//x/") "/api/v2" = true
       ↔ segs `prefix_of` request_segments "/api/v1/../v2//x/").
Proof.
  split; [by vm_compute|]. apply (validated_prefix_matches " /api/v2/ "). by vm_compute.
Defined.
End Facts.
