(* ===== verification/GoCodec.v ===== *)
(** * Encodings of the standard library: URL paths, base64, hexadecimal

    [url.URL.RequestURI] and the escaping of its path, with the round trip
    through [url.ParseRequestURI]; [base64.RawURLEncoding] with its round trip;
    and the [%x] verb. *)

From S2P Require Import Prelude GoStr GoHttp.

(** [sha256.Sum256] is a class parameter. *)
Class Sha256 := sha256 : str → str.

Definition hex_char (n : Z) : ascii := if n <? 10 then chr (48 + n) else chr (87 + n).
Definition upper_hex_char (n : Z) : ascii := if n <? 10 then chr (48 + n) else chr (55 + n).

(** [fmt.Sprintf("%x", b)] *)
Definition hex_encode (s : str) : str :=
  flat_map (λ c, [hex_char (code c / 16); hex_char (code c mod 16)]) s.

(** ** URL paths *)

(** [shouldEscape] in the mode of a path. *)
Definition path_plain (c : ascii) : bool := is_alnum c || mem_byte c "-_.~$&+,/:;=@".
Definition escape_byte (c : ascii) : str :=
  if path_plain c then [c] else ["%"%char; upper_hex_char (code c / 16); upper_hex_char (code c mod 16)].
Definition path_escape (s : str) : str := flat_map escape_byte s.

(** [URL.RequestURI] of a URL whose [RawPath] is empty. *)
Definition RequestURI (u : URL) : str :=
  let result :=
    if url_opaque u =?s [] then
      let p := if url_path u =?s "*" then lit "*" else path_escape (url_path u) in
      if p =?s [] then lit "/" else p
    else if has_prefix (url_opaque u) "//" then url_scheme u ++ ":" ++ url_opaque u
    else url_opaque u in
  if url_forcequery u || negb (url_rawquery u =?s []) then result ++ "?" ++ url_rawquery u else result.

(** ** base64 *)

Definition b64_char (n : Z) : ascii :=
  if n <? 26 then chr (65 + n)
  else if n <? 52 then chr (71 + n)
  else if n <? 62 then chr (n - 4)
  else if n =? 62 then "-"%char else "_"%char.
Definition b64_value (c : ascii) : option Z :=
  if is_upper c then Some (code c - 65)
  else if is_lower c then Some (code c - 71)
  else if is_digit c then Some (code c + 4)
  else if c =?c "-" then Some 62
  else if c =?c "_" then Some 63
  else None.

(** [base64.RawURLEncoding.EncodeToString] *)
Fixpoint b64_encode (s : str) : str :=
  match s with
  | a :: b :: c :: s' =>
      let v := code a * 65536 + code b * 256 + code c in
      b64_char (v / 262144) :: b64_char (v / 4096 mod 64) :: b64_char (v / 64 mod 64) :: b64_char (v mod 64)
        :: b64_encode s'
  | [a; b] =>
      let v := code a * 65536 + code b * 256 in
      [b64_char (v / 262144); b64_char (v / 4096 mod 64); b64_char (v / 64 mod 64)]
  | [a] => let v := code a * 65536 in [b64_char (v / 262144); b64_char (v / 4096 mod 64)]
  | [] => []
  end.

(** [base64.RawURLEncoding.DecodeString]: line breaks are skipped, the unused
    low bits of the last character are ignored. *)
Fixpoint b64_groups (vs : list Z) : option str :=
  match vs with
  | p :: q :: r :: s :: vs' =>
      let v := p * 262144 + q * 4096 + r * 64 + s in
      rest ← b64_groups vs'; Some (chr (v / 65536) :: chr (v / 256 mod 256) :: chr (v mod 256) :: rest)
  | [p; q; r] =>
      let v := p * 262144 + q * 4096 + r * 64 in Some [chr (v / 65536); chr (v / 256 mod 256)]
  | [p; q] => let v := p * 262144 + q * 4096 in Some [chr (v / 65536)]
  | [_] => None
  | [] => Some []
  end.
Definition b64_decode (s : str) : option str :=
  vs ← mapM b64_value (filter (λ c, negb (mem_byte c [chr 10; chr 13])) s); b64_groups vs.

(** ** Facts *)

Lemma code_range c : 0 <= code c < 256.
Proof. all_bytes c. Qed.
Lemma chr_code c : chr (code c) = c.
Proof. all_bytes c. Qed.

(** A statement about the integers below [n], checked one by one. *)
Lemma below_dec (n : nat) (P : Z → bool) : forallb (λ k, P (Z.of_nat k)) (seq 0 n) = true →
  ∀ z, 0 <= z < Z.of_nat n → P z = true.
Proof.
  intros H z Hz. rewrite forallb_forall in H. specialize (H (Z.to_nat z)).
  rewrite Z2Nat.id in H by lia. apply H, in_seq. lia.
Qed.

Lemma b64_value_char n : 0 <= n < 64 → b64_value (b64_char n) = Some n.
Proof.
  intros Hn. apply (bool_decide_eq_true_1 (b64_value (b64_char n) = Some n)). revert n Hn.
  apply (below_dec 64 (λ n, bool_decide (b64_value (b64_char n) = Some n))). vm_compute. done.
Qed.

Lemma b64_char_plain n : 0 <= n < 64 → (is_alnum (b64_char n) || mem_byte (b64_char n) "-_") = true.
Proof. revert n. apply (below_dec 64 (λ n, is_alnum (b64_char n) || mem_byte (b64_char n) "-_")). vm_compute. done. Qed.

(** Induction by groups of three bytes. *)
Lemma triple_ind (P : str → Prop) : P [] → (∀ a, P [a]) → (∀ a b, P [a; b]) →
  (∀ a b c s, P s → P (a :: b :: c :: s)) → ∀ s, P s.
Proof.
  intros H0 H1 H2 H3 s. assert (P s ∧ (∀ a, P (a :: s)) ∧ ∀ a b, P (a :: b :: s)) as [H _]; [|done].
  induction s as [|c s (IH1 & IH2 & IH3)]; split_and!; auto.
Qed.

Ltac byte_ranges :=
  repeat match goal with
  | |- context [ code ?c ] => lazymatch goal with H : 0 <= code c < 256 |- _ => fail | _ => pose proof (code_range c) end
  end.
Ltac div_lia := byte_ranges; Z.to_euclidean_division_equations; lia.

Lemma b64_encode_plain s c : c ∈ b64_encode s → (is_alnum c || mem_byte c "-_") = true.
Proof.
  induction s as [|a|a b|a b d s IH] using triple_ind; simpl; [set_solver| | |];
    rewrite ?elem_of_cons; intros H; destruct_or?; subst; try (apply b64_char_plain; div_lia);
    [by apply not_elem_of_nil in H.. | by apply IH].
Qed.

(** No field separator in an encoded field. *)
Lemma b64_encode_no_pipe s : "|"%char ∉ b64_encode s.
Proof. intros H%b64_encode_plain. by vm_compute in H. Qed.

Lemma b64_encode_nil s : b64_encode s = [] → s = [].
Proof. by destruct s as [|a [|b [|c s]]]. Qed.

Lemma sextets v : v / 262144 * 262144 + v / 4096 mod 64 * 4096 + v / 64 mod 64 * 64 + v mod 64 = v.
Proof. Z.to_euclidean_division_equations; lia. Qed.

(** The three bytes of a 24-bit group. *)
Lemma group_bytes a b c : let v := code a * 65536 + code b * 256 + code c in
  [chr (v / 65536); chr (v / 256 mod 256); chr (v mod 256)] = [a; b; c].
Proof.
  intros v.
  assert (v / 65536 = code a ∧ v / 256 mod 256 = code b ∧ v mod 256 = code c) as (-> & -> & ->); [|by rewrite !chr_code].
  unfold v. split_and!; div_lia.
Qed.

Lemma mapM_b64_encode s : ∃ vs, mapM b64_value (b64_encode s) = Some vs ∧ b64_groups vs = Some s.
Proof.
  induction s as [|a|a b|a b d s (vs & IH1 & IH2)] using triple_ind; cbn [b64_encode mapM].
  - by exists [].
  - rewrite !b64_value_char by div_lia. eexists. split; [done|]. cbn [b64_groups].
    pose proof (group_bytes a (chr 0) (chr 0)) as Hg. pose proof (sextets (code a * 65536)) as Hs.
    rewrite (ltac:(done) : code (chr 0) = 0) in Hg. replace (code a * 65536 + 0 * 256 + 0) with (code a * 65536) in Hg by lia.
    assert ((code a * 65536) mod 64 = 0 ∧ code a * 65536 / 64 mod 64 = 0) as [Hm1 Hm2] by (split; div_lia).
    rewrite Hm1, Hm2, Z.mul_0_l, !Z.add_0_r in Hs. rewrite Hs. injection Hg as -> _ _. done.
  - rewrite !b64_value_char by div_lia. eexists. split; [done|]. cbn [b64_groups].
    pose proof (group_bytes a b (chr 0)) as Hg. pose proof (sextets (code a * 65536 + code b * 256)) as Hs.
    rewrite (ltac:(done) : code (chr 0) = 0), Z.add_0_r in Hg.
    assert ((code a * 65536 + code b * 256) mod 64 = 0) as Hm by div_lia. rewrite Hm, Z.add_0_r in Hs. rewrite Hs.
    injection Hg as -> -> _. done.
  - rewrite !b64_value_char by div_lia. rewrite IH1. eexists. split; [done|]. cbn [mbind option_bind b64_groups].
    rewrite IH2, sextets. cbn [mbind option_bind]. injection (group_bytes a b d) as -> -> ->. done.
Qed.

(** Decoding inverts encoding. *)
Lemma b64_roundtrip s : b64_decode (b64_encode s) = Some s.
Proof.
  unfold b64_decode. rewrite filter_all.
  - destruct (mapM_b64_encode s) as (vs & -> & Hvs). exact Hvs.
  - intros c Hc%b64_encode_plain. revert Hc. all_bytes c.
Qed.

Lemma b64_encode_inj s t : b64_encode s = b64_encode t → s = t.
Proof. intros H. pose proof (b64_roundtrip s) as Hs. rewrite H, b64_roundtrip in Hs. congruence. Qed.

Lemma unhex_upper_hex n : 0 <= n < 16 → unhex (upper_hex_char n) = Some n.
Proof.
  intros Hn. apply (bool_decide_eq_true_1 (unhex (upper_hex_char n) = Some n)). revert n Hn.
  apply (below_dec 16 (λ n, bool_decide (unhex (upper_hex_char n) = Some n))). vm_compute. done.
Qed.

Lemma plain_not_percent c : path_plain c = true → c ≠ "%"%char.
Proof. intros H ->. done. Qed.

(** Unescaping inverts escaping, byte by byte. *)
Lemma unescape_escape_byte c s : path_unescape (escape_byte c ++ s) = r ← path_unescape s; Some (c :: r).
Proof.
  assert (chr (16 * (code c / 16) + code c mod 16) = c) as Hc.
  { rewrite <- (chr_code c) at 3. f_equal. div_lia. }
  unfold escape_byte. destruct (path_plain c) eqn:Hp.
  - cbn [app path_unescape]. by apply plain_not_percent, eqc_false in Hp as ->.
  - cbn [app path_unescape]. rewrite eqc_refl, !unhex_upper_hex by div_lia. cbn [mbind option_bind].
    by rewrite Hc.
Qed.

Lemma path_unescape_escape s : path_unescape (path_escape s) = Some s.
Proof.
  unfold path_escape. induction s as [|c s IH]; [done|]. cbn [flat_map]. by rewrite unescape_escape_byte, IH.
Qed.

Lemma escape_byte_plain c d : d ∈ escape_byte c → (path_plain d || (d =?c "%")) = true.
Proof.
  unfold escape_byte. destruct (path_plain c) eqn:E; rewrite ?elem_of_cons; intros H; destruct_or?; subst;
    try (by apply not_elem_of_nil in H); [by rewrite E | done | all_bytes c | all_bytes c].
Qed.

Lemma path_escape_plain s d : d ∈ path_escape s → (path_plain d || (d =?c "%")) = true.
Proof.
  unfold path_escape. rewrite list_elem_of_In, in_flat_map. intros (c & _ & Hd).
  apply list_elem_of_In in Hd. by eapply escape_byte_plain.
Qed.

Lemma unhex_hex n : 0 <= n < 16 → unhex (hex_char n) = Some n.
Proof.
  intros Hn. apply (bool_decide_eq_true_1 (unhex (hex_char n) = Some n)). revert n Hn.
  apply (below_dec 16 (λ n, bool_decide (unhex (hex_char n) = Some n))). vm_compute. done.
Qed.

Lemma hex_encode_inj s t : hex_encode s = hex_encode t → s = t.
Proof.
  unfold hex_encode. revert t. induction s as [|c s IH]; intros [|d t]; cbn [flat_map app]; try done.
  intros [= H1 H2 H3]. rewrite (IH t H3). f_equal.
  apply (f_equal unhex) in H1, H2. rewrite !unhex_hex in H1, H2 by div_lia. simplify_eq.
  rewrite <- (chr_code c), <- (chr_code d). f_equal. div_lia.
Qed.

Lemma hex_char_not_pipe s : "|"%char ∉ hex_encode s.
Proof.
  unfold hex_encode. rewrite list_elem_of_In, in_flat_map. intros (c & _ & [H|[H|[]]]); revert H; all_bytes c.
Qed.
