(* ===== verification/GoText.v ===== *)
(** * Text that comes from a client: UTF-8, query strings, escaped paths

    [unicode/utf8] and [strings.ToValidUTF8], [url.QueryUnescape],
    [url.ParseQuery], [URL.EscapedPath] and sorting of strings. *)

From Stdlib Require Import SpecFloat.
From stdpp Require Import sorting.
From S2P Require Import Prelude GoStr GoPath GoHttp GoCodec.

(** ** UTF-8 *)

Definition between (lo hi : Z) (c : ascii) : bool := (lo <=? code c) && (code c <=? hi).

(** The width of the rune at the front of [s], [None] for an invalid byte. *)
Definition utf8_rune (s : str) : option nat :=
  match s with
  | [] => None
  | a :: t =>
      if code a <? 128 then Some 1%nat
      else if between 194 223 a then
        match t with b :: _ => if between 128 191 b then Some 2%nat else None | _ => None end
      else if between 224 239 a then
        match t with
        | b :: c :: _ =>
            if between (if code a =? 224 then 160 else 128) (if code a =? 237 then 159 else 191) b && between 128 191 c
            then Some 3%nat else None
        | _ => None
        end
      else if between 240 244 a then
        match t with
        | b :: c :: d :: _ =>
            if between (if code a =? 240 then 144 else 128) (if code a =? 244 then 143 else 191) b
               && between 128 191 c && between 128 191 d
            then Some 4%nat else None
        | _ => None
        end
      else None
  end.

(** One pass over the runes: [skip] bytes of the current rune are left to copy,
    [bad] says that the byte before was invalid.  [once] replaces a run of
    invalid bytes by one [rep], otherwise each of them is replaced. *)
Fixpoint scrub (once : bool) (rep : str) (skip : nat) (bad : bool) (s : str) : str :=
  match s with
  | [] => []
  | c :: s' =>
      match skip with
      | S k => c :: scrub once rep k false s'
      | O => match utf8_rune s with
             | Some n => c :: scrub once rep (n - 1) false s'
             | None => (if once && bad then [] else rep) ++ scrub once rep 0 true s'
             end
      end
  end.

(** [strings.ToValidUTF8] *)
Definition to_valid_utf8 (s rep : str) : str := scrub true rep 0 false s.

(** [string([]rune(s))]: U+FFFD for every invalid byte. *)
Definition rune_error : str := [chr 239; chr 191; chr 189].
Definition rune_string (s : str) : str := scrub false rune_error 0 false s.

(** [utf8.ValidString] *)
Fixpoint valid_from (skip : nat) (s : str) : bool :=
  match s with
  | [] => true
  | c :: s' =>
      match skip with
      | S k => valid_from k s'
      | O => match utf8_rune s with Some n => valid_from (n - 1) s' | None => false end
      end
  end.
Definition valid_utf8 (s : str) : bool := valid_from 0 s.

(** ** Query strings *)

(** [url.QueryUnescape] *)
Fixpoint query_unescape (s : str) : option str :=
  match s with
  | [] => Some []
  | c :: s1 =>
      if c =?c "%" then
        match s1 with
        | a :: b :: s' => x ← unhex a; y ← unhex b; r ← query_unescape s'; Some (chr (16 * x + y) :: r)
        | _ => None
        end
      else r ← query_unescape s1; Some ((if c =?c "+" then " "%char else c) :: r)
  end.

(** [url.Values]: the values of a key in the order of the query. *)
Abbreviation url_values := (gmap str (list str)).

(** One "&"-separated part; [None] once a part was malformed. *)
Definition query_part (acc : option url_values) (part : str) : option url_values :=
  m ← acc;
  if part =?s [] then Some m
  else if mem_byte ";" part then None
  else
    let '(key, value, _) := cut part "=" in
    key ← query_unescape key; value ← query_unescape value;
    Some (<[key := default [] (m !! key) ++ [value]]> m).

(** [url.ParseQuery]; [None] is an error (the callers then ignore the values). *)
Definition parse_query (query : str) : option url_values := foldl query_part (Some ∅) (split query "&").

(** [URL.Query]: the values of the well-formed parts. *)
Definition lenient_part (m : url_values) (part : str) : url_values := default m (query_part (Some m) part).
Definition query_values (query : str) : url_values := foldl lenient_part ∅ (split query "&").

(** [sort.Strings] *)
Definition str_le (a b : str) : Prop := str_ltb b a = false.
#[export] Instance str_le_dec a b : Decision (str_le a b) := decide (str_ltb b a = false).
Definition sort_strings (l : list str) : list str := merge_sort str_le l.
Definition sorted_keys {A} (m : gmap str A) : list str := sort_strings (fst <$> map_to_list m).

(** [url.QueryEscape] and [url.Values.Encode] *)
Definition query_escape (s : str) : str :=
  flat_map (λ c, if c =?c " " then lit "+" else if is_alnum c || mem_byte c "-_.~" then [c]
    else ["%"%char; upper_hex_char (code c / 16); upper_hex_char (code c mod 16)]) s.
Definition encode_query (m : url_values) : str :=
  join "&" (flat_map (λ k, (λ v, query_escape k ++ "=" ++ query_escape v) <$> default [] (m !! k)) (sorted_keys m)).

(** ** [URL.EscapedPath] of a URL with the given [RawPath] *)

Definition valid_encoded (s : str) : bool :=
  forallb (λ c, mem_byte c "!$&'()*+,;=:@[]%" || path_plain c) s.

Definition EscapedPath (rawPath path : str) : str :=
  if negb (rawPath =?s []) && valid_encoded rawPath && bool_decide (path_unescape rawPath = Some path) then rawPath
  else if path =?s "*" then lit "*" else path_escape path.

(** ** Bounded text

    Both log stores cut a text to at most [n] bytes at a rune boundary. *)

(** [utf8.RuneStart] *)
Definition rune_start (c : ascii) : bool := negb (between 128 191 c).

(** [for end > 0 && !utf8.RuneStart(value[end]) { end-- }] *)
Fixpoint rune_boundary (value : str) (e : nat) : nat :=
  match e with
  | O => O
  | S e' => match value !! e with
            | Some c => if rune_start c then e else rune_boundary value e'
            | None => e
            end
  end.

Definition truncate_text (value : str) (maxLength : Z) : str :=
  let value := if valid_utf8 value then value else to_valid_utf8 value rune_error in
  if maxLength <=? 0 then []
  else if len value <=? maxLength then value
  else take (rune_boundary value (Z.to_nat maxLength)) value.

(** [time.Parse(time.RFC3339Nano, s)] and [t.UTC().Format(time.RFC3339Nano)]. *)
Class RFC3339 := { parse_rfc3339 : str → option time; format_rfc3339 : time → str }.

(** The values of a [map[string]any]. *)
Inductive any := AnyInt (z : Z) | AnyStr (s : str) | AnyFloat (s : spec_float).

(** ** Facts *)

Lemma scrub_skip once rep k s : scrub once rep k false s = take k s ++ scrub once rep 0 false (drop k s).
Proof.
  revert s. induction k as [|k IH]; intros s; [done|]. destruct s as [|c s]; [done|].
  simpl. by rewrite IH.
Qed.

Lemma valid_skip a t : valid_from (length a) (a ++ t) = valid_from 0 t.
Proof. induction a as [|c a IH]; [done|]. simpl. by rewrite IH. Qed.

(** The front rune is decided by its own bytes. *)
Lemma utf8_rune_front s n : utf8_rune s = Some n →
  (1 <= n <= length s)%nat ∧ ∀ t, utf8_rune (take n s ++ t) = Some n.
Proof.
  unfold utf8_rune. destruct s as [|a [|b [|c [|d s]]]]; [done|..];
    repeat case_goal; intros [= <-]; (split; [simpl; lia|]); intros t; simpl;
    repeat match goal with H : ?x = true |- _ => rewrite H; clear H | H : ?x = false |- _ => rewrite H; clear H end; done.
Qed.

Lemma scrub_valid once rep bad s : (∀ t, valid_from 0 (rep ++ t) = valid_from 0 t) →
  valid_utf8 (scrub once rep 0 bad s) = true.
Proof.
  intros Hrep. unfold valid_utf8. remember (length s) as m eqn:Hm. revert s bad Hm.
  induction (lt_wf m) as [m _ IH]. intros s bad ->. destruct s as [|c s]; [done|].
  cbn [scrub]. destruct (utf8_rune (c :: s)) as [n|] eqn:E.
  - apply utf8_rune_front in E as [[H1 H2] Ht]. destruct n as [|k]; [lia|]. cbn [Nat.sub] in *. rewrite Nat.sub_0_r.
    rewrite scrub_skip. set (r := scrub once rep 0 false (drop k s)).
    specialize (Ht r). cbn [take app] in Ht. cbn [valid_from]. rewrite Ht. cbn [Nat.sub]. rewrite Nat.sub_0_r.
    simpl in H2. assert (length (take k s) = k) as Hl by (rewrite length_take; lia). rewrite <- Hl at 1. rewrite valid_skip.
    apply (IH (length (drop k s))); [|done]. rewrite length_drop. simpl. lia.
  - destruct (once && bad); cbn [app]; [|rewrite Hrep]; apply (IH (length s)); simpl; (done || lia).
Qed.

Lemma rune_string_valid s : valid_utf8 (rune_string s) = true.
Proof. by apply scrub_valid. Qed.

Lemma scrub_no_byte once rep k bad s d : d ∉ rep → d ∉ s → d ∉ scrub once rep k bad s.
Proof.
  intros Hr. revert k bad. induction s as [|c s IH]; intros k bad Hs; [done|]. apply not_elem_of_cons in Hs as [Hc Hs].
  cbn [scrub]. destruct k; [destruct (utf8_rune _)|].
  - apply not_elem_of_cons. auto.
  - rewrite elem_of_app. intros [H|H]; [|by apply (IH 0%nat true)]. destruct (once && bad); [by apply not_elem_of_nil in H|done].
  - apply not_elem_of_cons. auto.
Qed.

(** The bytes of a rune after its first one are continuation bytes. *)
Lemma utf8_rune_tail s n k c : utf8_rune s = Some n → (0 < k < n)%nat → s !! k = Some c → rune_start c = false.
Proof.
  assert (∀ lo hi b, 128 <= lo → hi <= 191 → between lo hi b = true → rune_start b = false) as G.
  { intros lo hi b ? ?. unfold rune_start, between. rewrite andb_true_iff, negb_false_iff, andb_true_iff, !Z.leb_le. lia. }
  assert (∀ a b : Z, 128 <= (if a =? b then 160 else 128)) as L1 by (intros; case_match; lia).
  assert (∀ a b : Z, 128 <= (if a =? b then 144 else 128)) as L2 by (intros; case_match; lia).
  assert (∀ a b : Z, (if a =? b then 159 else 191) <= 191) as L3 by (intros; case_match; lia).
  assert (∀ a b : Z, (if a =? b then 143 else 191) <= 191) as L4 by (intros; case_match; lia).
  unfold utf8_rune. destruct s as [|a t]; [done|].
  destruct (code a <? 128); [intros [= <-]; lia|].
  destruct (between 194 223 a).
  { destruct t as [|b t]; [done|]. destruct (between 128 191 b) eqn:E; [|done]. intros [= <-] Hk.
    destruct k as [|[|k]]; [lia| |lia]. intros [= <-]. revert E. by apply G. }
  destruct (between 224 239 a).
  { destruct t as [|b [|d t]]; [done..|]. destruct (_ && _) eqn:E; [|done]. apply andb_true_iff in E as [E1 E2].
    intros [= <-] Hk. destruct k as [|[|[|k]]]; [lia| | |lia]; intros [= <-]; [revert E1|revert E2]; by apply G. }
  destruct (between 240 244 a); [|done]. destruct t as [|b [|d [|f t]]]; [done..|]. destruct (_ && _) eqn:E; [|done].
  apply andb_true_iff in E as [E E3]. apply andb_true_iff in E as [E1 E2]. intros [= <-] Hk.
  destruct k as [|[|[|[|k]]]]; [lia| | | |lia]; intros [= <-]; [revert E1|revert E2|revert E3]; by apply G.
Qed.

(** Cutting valid text in front of a rune leaves valid text. *)
Lemma valid_take s k c : valid_utf8 s = true → s !! k = Some c → rune_start c = true → valid_utf8 (take k s) = true.
Proof.
  unfold valid_utf8. remember (length s) as m eqn:Hm. revert s k Hm.
  induction (lt_wf m) as [m _ IH]. intros s k -> Hv Hk Hc. destruct k as [|k]; [done|]. destruct s as [|a s]; [done|].
  cbn [valid_from] in Hv. destruct (utf8_rune (a :: s)) as [n|] eqn:En; [|done].
  destruct (utf8_rune_front _ _ En) as [[H1 H2] Ht]. destruct (decide (S k < n)%nat) as [Hlt|Hge].
  { by rewrite (utf8_rune_tail _ _ (S k) c En) in Hc by (done || lia). }
  destruct n as [|n]; [lia|]. cbn [Nat.sub] in Hv. rewrite Nat.sub_0_r in Hv. simpl in H2, Hk.
  rewrite <- (take_drop n s) in Hv. assert (length (take n s) = n) as Hl by (rewrite length_take; lia).
  rewrite <- Hl in Hv at 1. rewrite valid_skip in Hv.
  assert (take (S k) (a :: s) = (a :: take n s) ++ take (k - n) (drop n s)) as ->.
  { simpl. f_equal. rewrite <- (take_drop n s) at 1. rewrite take_app_ge by lia. by rewrite Hl. }
  specialize (Ht (take (k - n) (drop n s))). cbn [take app] in Ht |- *. cbn [valid_from]. rewrite Ht.
  cbn [Nat.sub]. rewrite Nat.sub_0_r. rewrite <- Hl at 1. rewrite valid_skip.
  apply (IH (length (drop n s))); [rewrite length_drop; simpl; lia|done|done| |done].
  rewrite lookup_drop, <- Hk. f_equal. lia.
Qed.

Lemma rune_boundary_spec value e : (e < length value)%nat →
  (rune_boundary value e <= e)%nat
  ∧ (rune_boundary value e = 0%nat ∨ ∃ c, value !! rune_boundary value e = Some c ∧ rune_start c = true).
Proof.
  induction e as [|e IH]; intros He; [simpl; auto|]. cbn [rune_boundary].
  destruct (lookup_lt_is_Some_2 value (S e) He) as [c Hc]. rewrite Hc. destruct (rune_start c) eqn:Hr; [eauto|].
  destruct (IH ltac:(lia)). split; [lia|done].
Qed.

(** A bounded text is valid UTF-8 and within its bound. *)
Lemma truncate_text_ok value n : valid_utf8 (truncate_text value n) = true ∧ len (truncate_text value n) <= Z.max 0 n.
Proof.
  unfold truncate_text. set (v := if valid_utf8 value then value else to_valid_utf8 value rune_error).
  assert (valid_utf8 v = true) as Hv.
  { subst v. destruct (valid_utf8 value) eqn:E; [done|]. by apply scrub_valid. }
  destruct (Z.leb_spec n 0); [split; [done|]; change (len []) with 0; lia|].
  destruct (Z.leb_spec (len v) n) as [Hl|Hl]; [split; [done|lia]|].
  destruct (rune_boundary_spec v (Z.to_nat n)) as [Hb Hr]; [unfold len in Hl; lia|]. split.
  - destruct Hr as [->|(c & Hc & Hs)]; [done|by eapply valid_take].
  - unfold len. rewrite length_take. lia.
Qed.

#[export] Instance str_le_total : Total str_le.
Proof. intros a b. unfold str_le. destruct (str_ltb_total a b); auto. Qed.
