(* ===== verification/ConfigStable.v ===== *)
(** * A validated configuration is stable

    What [Validate] returns, it returns again: a configuration that is saved and
    loaded, or validated once more, stays the same.  There is one exception, and
    it is in the code: a path prefix that ends in a space. *)

From S2P Require Import Prelude GoStr GoPath GoHttp NetIP NetIPFacts GoFloat GoText Config Router ConfigValidate ConfigFacts.

Module Stable.
Import Validation Facts NetFacts.

(** ** Trimming twice *)

Section trim.
Context (s2 : ascii → ascii → bool) (s3 : ascii → ascii → ascii → bool).

(** Whether a space starts [s]. *)
Definition starts_space (s : str) : bool :=
  match s with
  | [] => false
  | c :: s1 => space1 c || match s1 with
               | [] => false
               | d :: t => s2 c d || match t with [] => false | e :: _ => s3 c d e end
               end
  end.

Lemma trim_runes_start s : starts_space (trim_runes s2 s3 s) = false.
Proof.
  induction s as [s IH] using (induction_ltof1 _ (@length ascii)). unfold ltof in IH.
  destruct s as [|c [|d [|e u]]]; cbn [trim_runes].
  - done.
  - destruct (space1 c) eqn:E; [done|]. cbn. by rewrite E.
  - destruct (space1 c) eqn:E1; [apply (IH [d]); simpl; lia|]. destruct (s2 c d) eqn:E2; [done|]. cbn. by rewrite E1, E2.
  - destruct (space1 c) eqn:E1; [apply (IH (d :: e :: u)); simpl; lia|]. destruct (s2 c d) eqn:E2; [apply (IH (e :: u)); simpl; lia|].
    destruct (s3 c d e) eqn:E3; [apply (IH u); simpl; lia|]. cbn. by rewrite E1, E2, E3.
Qed.

Lemma trim_runes_id s : starts_space s = false → trim_runes s2 s3 s = s.
Proof. destruct s as [|c [|d [|e u]]]; cbn; [done|..]; destruct (space1 c); try done; destruct (s2 c d); try done; by destruct (s3 c d e). Qed.

Lemma starts_space_prefix s t : starts_space (s ++ t) = false → starts_space s = false.
Proof.
  destruct s as [|c [|d [|e u]]]; cbn; [done|..]; rewrite ?orb_false_iff; [intros [-> _]; done| |done].
  destruct t; cbn; rewrite ?orb_false_iff; tauto.
Qed.

Lemma trim_runes_suffix s : ∃ t, s = t ++ trim_runes s2 s3 s.
Proof.
  induction s as [s IH] using (induction_ltof1 _ (@length ascii)). unfold ltof in IH.
  destruct s as [|c [|d [|e u]]]; cbn [trim_runes]; try (by exists []).
  - destruct (space1 c); [by exists [c]|by exists []].
  - destruct (space1 c); [destruct (IH [d]) as [t E]; [simpl; lia|]; exists (c :: t); by rewrite E at 1|].
    destruct (s2 c d); [by exists [c; d]|by exists []].
  - destruct (space1 c); [destruct (IH (d :: e :: u)) as [t E]; [simpl; lia|]; exists (c :: t); by rewrite E at 1|].
    destruct (s2 c d); [destruct (IH (e :: u)) as [t E]; [simpl; lia|]; exists (c :: d :: t); by rewrite E at 1|].
    destruct (s3 c d e); [destruct (IH u) as [t E]; [simpl; lia|]; exists (c :: d :: e :: t); by rewrite E at 1|by exists []].
Qed.
End trim.

Lemma trim_space_idem s : trim_space (trim_space s) = trim_space s.
Proof.
  unfold trim_space. set (l := trim_left_space s). set (rev2 := λ d c, space2 c d). set (rev3 := λ e d c, space3 c d e).
  assert (starts_space space2 space3 l = false) as Hl by apply trim_runes_start.
  assert (trim_left_space (trim_right_space l) = trim_right_space l) as ->.
  { unfold trim_left_space. apply trim_runes_id. unfold trim_right_space.
    destruct (trim_runes_suffix rev2 rev3 (reverse l)) as [t E]. apply (f_equal reverse) in E. rewrite reverse_involutive, reverse_app in E.
    rewrite E in Hl. by apply starts_space_prefix in Hl. }
  unfold trim_right_space. rewrite reverse_involutive. f_equal. apply trim_runes_id, trim_runes_start.
Qed.

(** ** Paths *)

Lemma path_unescape_length s t : path_unescape s = Some t → (length t <= length s)%nat ∧ ("%"%char ∈ s → (length t < length s)%nat).
Proof.
  revert t. induction s as [s IH] using (induction_ltof1 _ (@length ascii)). unfold ltof in IH. intros t.
  destruct s as [|c s]; cbn [path_unescape]; [intros [= <-]; split; [done|]; by intros ?%not_elem_of_nil|].
  destruct (c =?c "%") eqn:Ec.
  - destruct s as [|a [|b u]]; try done. destruct (unhex a) as [h|]; [|done]. destruct (unhex b) as [l|]; [|done]. cbn [mbind option_bind].
    destruct (path_unescape u) as [r|] eqn:Er; [|done]. intros [= <-]. apply IH in Er as [H _]; [|simpl; lia]. cbn [length]. lia.
  - destruct (path_unescape s) as [r|] eqn:Er; [|done]. intros [= <-]. apply IH in Er as [H1 H2]; [|simpl; lia]. cbn [length]. split; [lia|].
    intros [<-|Hin]%elem_of_cons; [by rewrite eqc_refl in Ec|]. apply H2 in Hin. lia.
Qed.

Lemma path_unescape_plain s : path_unescape s = Some s ↔ "%"%char ∉ s.
Proof.
  split.
  - intros H Hin. apply path_unescape_length in H as [_ H]. apply H in Hin. lia.
  - induction s as [|c s IH]; [done|]. rewrite not_elem_of_cons. intros [Hc Hs]. cbn [path_unescape].
    rewrite (proj2 (eqc_false _ _)) by congruence. by rewrite IH.
Qed.

Lemma path_clean_render segs : Forall seg_ok segs → path_clean (render segs) = render segs.
Proof.
  intros Hs. pose proof (request_segments_form segs false Hs) as H. unfold request_segments, canonical_form in H. cbn [andb] in H.
  rewrite app_nil_r in H. unfold render at 1. rewrite path_clean_rooted. f_equal. revert H. unfold render.
  change (trim_prefix (slash :: join [slash] segs) "/") with (trim_prefix (lit "/" ++ join [slash] segs) "/"). by rewrite trim_prefix_app.
Qed.

Lemma render_no_slash segs : Forall seg_ok segs → segs ≠ [] → has_suffix (render segs) "/" = false.
Proof.
  intros Hs Hne. pose proof (form_trailing segs false Hs) as H. unfold canonical_form in H. cbn [andb] in H. rewrite app_nil_r in H.
  by rewrite H, bool_decide_eq_false_2.
Qed.

(** A normalised path is the trimmed input, or the root. *)
Lemma absolute_path_value raw p : normalizeAbsolutePath raw = Some p → p = trim_space raw ∨ p = lit "/".
Proof.
  unfold normalizeAbsolutePath. set (value := trim_space raw). destruct (value =?s []) eqn:E0; [intros [= <-]; by right|].
  destruct (has_prefix value "/") eqn:Hp; [|done]. cbn [negb]. destruct (contains_any _ _); [done|].
  destruct (path_unescape value) as [d|]; [|done]. destruct (negb (d =?s value)); [done|]. cbv zeta.
  destruct (path_clean value =?s value) eqn:Ec.
  - boolify. cbn [negb andb]. rewrite Ec. destruct (has_suffix value "/") eqn:Hs; cbn [andb].
    + intros H. destruct (value =?s "/") eqn:Er; [boolify; right; cbn [negb] in H; congruence|]. exfalso. boolify.
      apply has_prefix_inv in Hp as (t & Ht & _). change (lit "/" ++ t) with (slash :: t) in Ht. rewrite Ht, path_clean_rooted in Ec.
      pose proof (clean_segs_ok (slash :: t)) as Hok. set (segs := clean_segs true (slash :: t)) in *.
      destruct (decide (segs = [])) as [E|Hne]; [rewrite E in Ec; apply Er; rewrite Ht, <- Ec; done|].
      pose proof (render_no_slash segs Hok Hne) as H'. rewrite Ec, <- Ht in H'. by rewrite H' in Hs.
    + intros [= <-]. by left.
  - cbn [negb]. destruct (has_suffix value "/"); cbn [andb]; [|done]. destruct (path_clean value ++ "/" =?s value) eqn:Et; cbn [negb andb]; [|done].
    boolify. destruct (path_clean value =?s "/") eqn:Er; cbn [negb]; intros [= <-]; [right; by boolify|by left].
Qed.

Lemma absolute_path_stable raw p : normalizeAbsolutePath raw = Some p → normalizeAbsolutePath p = Some p ∧ trim_space p = p.
Proof.
  intros H. destruct (absolute_path_value raw p H) as [->| ->]; [|by split; vm_compute].
  split; [|apply trim_space_idem]. transitivity (normalizeAbsolutePath raw); [|done]. unfold normalizeAbsolutePath. by rewrite trim_space_idem.
Qed.

(** The exception: the slash behind a space is taken off after the spaces. *)
Lemma path_prefix_stable raw p : normalizePathPrefix raw = Some p → trim_space p = p → normalizePathPrefix p = Some p.
Proof.
  intros H Ht. destruct (path_prefix_form raw p H) as (segs & Hok & Ep). revert H. unfold normalizePathPrefix.
  destruct (normalizeAbsolutePath raw) as [v|] eqn:Ev; [|done]. cbn [mbind option_bind]. destruct (absolute_path_stable _ _ Ev) as [Hv Hvt].
  destruct (v =?s "/") eqn:Er; cbn [negb]; [boolify; subst v; intros [= <-]; by vm_compute|].
  destruct (has_suffix v "/") eqn:Hs.
  - apply has_suffix_inv in Hs as (t & Et & Htr). rewrite Htr. intros [= <-].
    assert (normalizeAbsolutePath t = Some t) as ->.
    { assert (has_prefix v "/" = true ∧ contains_any v "?#" = false ∧ path_unescape v = Some v) as (Hp & Hc & Hu).
      { revert Hv. unfold normalizeAbsolutePath. rewrite Hvt. destruct (v =?s []) eqn:E; [boolify; by rewrite E in Et; destruct t|].
        destruct (has_prefix v "/"); [|done]. cbn [negb]. destruct (contains_any v _); [done|]. destruct (path_unescape v) as [d|]; [|done].
        destruct (d =?s v) eqn:Ed; [|done]. boolify. by subst d. }
      unfold normalizeAbsolutePath. rewrite Ht. assert ((t =?s []) = false) as -> by (apply eqs_false; subst t; done).
      assert (has_prefix t "/" = true) as -> by (rewrite Ep; apply (has_prefix_app (lit "/"))).
      cbn [negb]. assert (contains_any t "?#" = false) as ->.
      { revert Hc. rewrite Et. unfold contains_any. rewrite existsb_app. by intros [-> _]%orb_false_iff. }
      assert (path_unescape t = Some t) as ->.
      { apply path_unescape_plain. apply path_unescape_plain in Hu. rewrite Et in Hu. rewrite elem_of_app in Hu. tauto. }
      rewrite eqs_refl. cbn [negb]. cbv zeta. rewrite Ep, path_clean_render by done. rewrite eqs_refl. cbn [negb andb].
      destruct (decide (segs = [])) as [->|Hne]; [done|]. by rewrite render_no_slash. }
    cbn [mbind option_bind]. destruct (t =?s "/") eqn:E; cbn [negb]; [done|]. rewrite trim_suffix_no; [done|]. boolify. rewrite Ep.
    apply render_no_slash; [done|]. intros ->. by apply E.
  - rewrite trim_suffix_no by done. intros [= <-]. rewrite Hv. cbn [mbind option_bind]. rewrite Er. cbn [negb]. by rewrite trim_suffix_no.
Qed.

(** ** Host patterns and networks *)

Section hosts.
Context {U : Unicode}.

Lemma host_bytes_in h c : forallb host_byte h = true → c ∈ h → host_byte c = true.
Proof. apply forallb_elem. Qed.

Lemma exact_host_stable v h : normalizeExactRouteHost v = Some h → normalizeExactRouteHost h = Some h.
Proof.
  intros H. pose proof (exact_host_ok v h H) as (Hne & Hb & _). revert H.
  assert (∀ a, 0 <= a < 2 ^ 128 → h = ip_string a → normalizeExactRouteHost h = Some h) as Hip.
  { intros a Ha ->. unfold normalizeExactRouteHost. assert (has_prefix (ip_string a) "[" = false) as ->.
    { apply not_true_iff_false. intros (t & E & _)%has_prefix_inv. rewrite E in Hb. done. }
    cbn [andb]. by rewrite ip_roundtrip. }
  unfold normalizeExactRouteHost at 1. destruct (_ && _) eqn:E.
  { destruct (ParseIP _) as [a|] eqn:Ea; [|done]. intros [= <-]. apply (Hip a); [by eapply ParseIP_range|done]. }
  destruct (ParseIP v) as [a|] eqn:Ea; [intros [= <-]; apply (Hip a); [by eapply ParseIP_range|done]|].
  destruct (mem_byte ":" v) eqn:E1; [done|]. destruct (253 <? len v) eqn:E2; [done|]. destruct (forallb host_label_ok (split v ".")) eqn:E3; [|done].
  intros [= <-]. unfold normalizeExactRouteHost. by rewrite E, Ea, E1, E2, E3.
Qed.

Lemma pattern_value h : pattern_ok h → trim_suffix (to_lower (trim_space h)) "." = h.
Proof.
  intros Hp. assert (forallb (λ b, host_byte b || (b =?c "*")) h = true ∧ last h ≠ Some "."%char) as [Hb Hl].
  { destruct Hp as [->|[(_ & Hb & Hl)|(s & -> & Hne & Hb & Hl)]].
    - split; [done|]. vm_compute. discriminate.
    - split; [|done]. eapply forallb_weaken; [|exact Hb]. intros b. by intros ->.
    - split.
      + rewrite forallb_app. apply andb_true_iff. split; [done|]. eapply forallb_weaken; [|exact Hb]. intros b. by intros ->.
      + rewrite last_app. destruct (last s) eqn:E; [done|]. by apply last_None in E. }
  rewrite trim_space_id by (eapply forallb_weaken; [|exact Hb]; clear; intros b; all_bytes b).
  assert (to_lower h = h) as ->.
  { rewrite to_lower_ascii_fmap by (unfold is_ascii; eapply forallb_weaken; [|exact Hb]; clear; intros b; all_bytes b).
    clear Hl Hp. induction h as [|b h IH]; [done|]. cbn [forallb] in Hb. apply andb_true_iff in Hb as [Hb1 Hb2].
    rewrite fmap_cons, (IH Hb2). f_equal. revert Hb1. clear. all_bytes b. }
  rewrite trim_suffix_no; [done|]. destruct (has_suffix h ".") eqn:E; [|done]. apply has_suffix_inv in E as (t & -> & _).
  destruct Hl. change (lit ".") with ["."%char]. apply last_snoc.
Qed.

Lemma host_ok_contains h special : forallb host_byte h = true → forallb (λ c, negb (host_byte c)) special = true → contains_any h special = false.
Proof.
  intros Hb Hs. unfold contains_any. apply not_true_iff_false. rewrite existsb_exists. intros (c & Hc & Hm). apply mem_byte_true in Hm.
  apply list_elem_of_In in Hc. pose proof (forallb_elem _ _ _ Hb Hc) as H1. pose proof (forallb_elem _ _ _ Hs Hm) as H2. cbv beta in H2. by rewrite H1 in H2.
Qed.

Lemma host_pattern_stable raw h : normalizeRouteHostPattern raw = Some h → normalizeRouteHostPattern h = Some h.
Proof.
  intros H. pose proof (route_pattern_ok raw h H) as Hp. pose proof (pattern_value h Hp) as Hv. revert H.
  unfold normalizeRouteHostPattern at 1. set (value := trim_suffix _ _). destruct (value =?s []) eqn:E0; [done|].
  destruct (value =?s "*") eqn:E1; [boolify; intros [= <-]; unfold normalizeRouteHostPattern; rewrite Hv, E1; by vm_compute|].
  destruct (contains_any value _) eqn:E2; [done|]. destruct (has_prefix value "*.") eqn:E3.
  - destruct (negb (Z.of_nat (count_byte value "*") =? 1)); [done|].
    destruct (normalizeExactRouteHost (trim_prefix value "*.")) as [s|] eqn:Es; [|done]. cbn [mbind option_bind].
    destruct (ParseIP s) eqn:Eip; [done|]. intros Eh. apply (inj Some) in Eh. subst h. pose proof (exact_host_ok _ _ Es) as (Hne & Hb & _).
    unfold normalizeRouteHostPattern. rewrite Hv. cbv zeta. assert (("*." ++ s =?s []) = false) as -> by done. assert (("*." ++ s =?s "*") = false) as -> by (apply eqs_false; by destruct s).
    assert (contains_any ("*." ++ s) ([" "%char; chr 9; chr 13; chr 10] ++ "/\?#@") = false) as ->.
    { unfold contains_any. rewrite existsb_app. apply orb_false_iff. split; [done|]. by apply host_ok_contains. }
    rewrite has_prefix_app, trim_prefix_app. assert (Z.of_nat (count_byte ("*." ++ s) "*") = 1) as ->.
    { unfold count_byte. rewrite filter_app, length_app. assert (filter (λ d, d = "*"%char) s = []) as ->; [|done].
      destruct (filter _ s) as [|c l] eqn:Ef; [done|]. assert (c ∈ filter (λ d, d = "*"%char) s) as Hc by (rewrite Ef; by left).
      apply list_elem_of_filter in Hc as [-> Hc]. by pose proof (forallb_elem _ _ _ Hb Hc). }
    cbn [negb Z.eqb Pos.eqb]. rewrite (exact_host_stable _ _ Es). cbn [mbind option_bind]. by rewrite Eip.
  - destruct (mem_byte "*" value); [done|]. intros H. pose proof (exact_host_ok _ _ H) as (Hne & Hb & _).
    unfold normalizeRouteHostPattern. rewrite Hv. cbv zeta. assert ((h =?s []) = false) as -> by by apply eqs_false.
    assert ((h =?s "*") = false) as -> by (apply eqs_false; by intros ->).
    rewrite host_ok_contains by done. assert (has_prefix h "*." = false) as ->.
    { apply not_true_iff_false. intros (t & -> & _)%has_prefix_inv. done. }
    assert (mem_byte "*" h = false) as ->.
    { apply not_true_iff_false. rewrite mem_byte_true. intros Hin. by pose proof (forallb_elem _ _ _ Hb Hin). }
    by apply (exact_host_stable _ _ H).
Qed.

End hosts.

(** *** Networks *)

Lemma mask_top_div w n v : n <= w → mask_top w n v = v / 2 ^ (w - n) * 2 ^ (w - n).
Proof. intros H. unfold mask_top. by rewrite Z.shiftl_mul_pow2, Z.shiftr_div_pow2 by lia. Qed.

Lemma mask_top_le w n v : n <= w → 0 <= v → 0 <= mask_top w n v <= v.
Proof.
  intros Hn Hv. rewrite mask_top_div by done. assert (0 < 2 ^ (w - n)) by (apply Z.pow_pos_nonneg; lia).
  pose proof (Z.div_pos v (2 ^ (w - n)) ltac:(lia) ltac:(lia)). pose proof (Z.mul_div_le v (2 ^ (w - n)) ltac:(lia)). nia.
Qed.

Lemma mask_top_idem w n v : n <= w → mask_top w n (mask_top w n v) = mask_top w n v.
Proof. intros Hn. rewrite !mask_top_div by done. rewrite Z.div_mul; [done|]. apply Z.pow_nonzero; lia. Qed.

Lemma parse_mask_range s bits n : parse_mask s bits = Some n → 0 <= n <= bits.
Proof.
  unfold parse_mask. destruct s as [|c s]; [done|]. destruct (parse_digits 0 (c :: s)) as [m|] eqn:E; [|done]. cbn [mbind option_bind].
  destruct (Z.leb_spec m bits); [|done]. intros [= <-]. split; [by eapply parse_digits_nonneg; [|exact E]|done].
Qed.

Lemma parse_mask_itoa n bits : 0 <= n <= bits → bits <= 255 → parse_mask (itoa n) bits = Some n.
Proof.
  intros Hn Hb. destruct (itoa_digits n ltac:(lia)) as (_ & Hp & Hne & _). unfold parse_mask.
  destruct (itoa n) as [|c s] eqn:E; [done|]. rewrite Hp. cbn [mbind option_bind]. by destruct (Z.leb_spec n bits); [|lia].
Qed.

Lemma v4_bits_of v : 0 <= v < 2 ^ 32 → is_v4 (v4_prefix + v) = true ∧ v4_bits (v4_prefix + v) = v.
Proof.
  intros Hv. unfold is_v4, v4_bits, v4_prefix. rewrite Z.shiftr_div_pow2 by lia. split.
  - apply Z.eqb_eq. rewrite Z.add_comm, Z.div_add, Z.div_small by lia. done.
  - rewrite Z.add_comm, Z.mod_add by lia. by apply Z.mod_small.
Qed.

Lemma family_of a : 0 <= a < 2 ^ 128 → bool_decide (addr_family (ip_string a) = Some "."%char) = is_v4 a.
Proof.
  intros Ha. unfold ip_string. destruct (is_v4 a) eqn:E.
  - destruct (v4_split a E) as [_ Hb]. destruct (parse_string_v4 _ Hb) as [_ ->]. by rewrite bool_decide_eq_true_2.
  - destruct (string_v6_family a) as [-> _]. by rewrite bool_decide_eq_false_2.
Qed.

Lemma no_slash a : "/"%char ∉ ip_string a.
Proof. intros H. destruct (ip_string_ok a) as (_ & Hb & _). by pose proof (forallb_elem _ _ _ Hb H). Qed.

(** A masked address that looks like IPv4 has all of its first 96 bits. *)
Lemma masked_v4 n a : n <= 128 → is_v4 (mask_top 128 n a) = true → 96 <= n.
Proof.
  intros Hn H. destruct (Z.leb_spec 96 n); [done|]. exfalso. revert H. unfold is_v4. rewrite Z.eqb_eq, Z.shiftr_div_pow2 by lia.
  rewrite mask_top_div by lia. replace (2 ^ (128 - n)) with (2 ^ (95 - n) * 2 * 2 ^ 32)
    by (rewrite <- (Z.pow_1_r 2) at 2; rewrite <- !Z.pow_add_r by lia; f_equal; lia).
  set (q := a / _). set (m := 2 ^ (95 - n)). replace (q * (m * 2 * 2 ^ 32)) with ((q * m * 2) * 2 ^ 32) by ring.
  rewrite Z.div_mul by lia. lia.
Qed.

Lemma masked_v4_bits n a : 96 <= n <= 128 → mask_top 32 (n - 96) (v4_bits (mask_top 128 n a)) = v4_bits (mask_top 128 n a).
Proof.
  intros Hn. rewrite mask_top_div by lia. unfold v4_bits. rewrite (mask_top_div 128) by lia. replace (32 - (n - 96)) with (128 - n) by lia.
  set (k := 128 - n). assert (0 < 2 ^ k) by (apply Z.pow_pos_nonneg; lia).
  replace (2 ^ 32) with (2 ^ (n - 96) * 2 ^ k) by (rewrite <- Z.pow_add_r by lia; f_equal; lia).
  rewrite Zmult_mod_distr_r, Z.div_mul by lia. done.
Qed.

Lemma parse_net a ones : 0 <= a < 2 ^ 128 → 0 <= ones <= (if is_v4 a then 32 else 128) →
  ParseCIDR (trim_space (ip_string a ++ "/" ++ itoa ones))
  = Some (mkIPNet (if is_v4 a then v4_prefix + mask_top 32 ones (v4_bits a) else mask_top 128 ones a) (is_v4 a) ones).
Proof.
  intros Ha Ho. destruct (itoa_digits ones ltac:(destruct (is_v4 a); lia)) as (_ & _ & Hne & Hd). rewrite trim_space_id; cycle 1.
  { destruct (ip_string_ok a) as (_ & Hb & _). rewrite !forallb_app. apply andb_true_iff. split.
    - eapply forallb_weaken; [|exact Hb]. clear. intros b. all_bytes b.
    - apply andb_true_iff. split; [done|]. eapply forallb_weaken; [|exact Hd]. clear. intros b. all_bytes b. }
  unfold ParseCIDR. change (ip_string a ++ "/" ++ itoa ones) with (ip_string a ++ "/"%char :: itoa ones).
  rewrite cut_app by apply no_slash. cbn [negb]. rewrite ip_roundtrip by done. cbn [mbind option_bind]. rewrite family_of by done.
  destruct (is_v4 a); rewrite parse_mask_itoa by lia; done.
Qed.

(** A trusted network is read back as it is written, with the same members. *)
Lemma net_reparse s n : ParseCIDR s = Some n →
  ∃ n', ParseCIDR (trim_space (net_string n)) = Some n' ∧ net_string n' = net_string n ∧ ∀ a, net_contains n' a = net_contains n a.
Proof.
  unfold ParseCIDR at 1. destruct (cut s "/") as [[addr mask] found]. destruct found; [|done]. cbn [negb].
  destruct (ParseIP addr) as [a|] eqn:Ea; [|done]. cbn [mbind option_bind]. pose proof (ParseIP_range _ _ Ea) as Ha.
  destruct (bool_decide (addr_family addr = Some "."%char)) eqn:Ef; cbv zeta.
  - destruct (parse_mask mask 32) as [n0|] eqn:En; [|done]. apply parse_mask_range in En. cbn [mbind option_bind]. intros [= <-].
    assert (0 <= v4_bits a < 2 ^ 32) as Hb by (apply Z.mod_pos_bound; lia).
    pose proof (mask_top_le 32 n0 (v4_bits a) ltac:(lia) ltac:(lia)) as Hm.
    destruct (v4_bits_of (mask_top 32 n0 (v4_bits a)) ltac:(lia)) as [Hv Hbits].
    unfold net_string. cbn [net_ip net_mask4 net_ones]. rewrite andb_false_r, parse_net by (rewrite ?Hv; unfold v4_prefix; lia).
    rewrite Hv, Hbits, mask_top_idem by lia. eexists. split_and!; [reflexivity| |done]. cbn [net_ip net_mask4 net_ones]. by rewrite andb_false_r.
  - destruct (parse_mask mask 128) as [n0|] eqn:En; [|done]. apply parse_mask_range in En. cbn [mbind option_bind]. intros [= <-].
    pose proof (mask_top_le 128 n0 a ltac:(lia) ltac:(lia)) as Hm. set (m := mask_top 128 n0 a) in *.
    unfold net_string. cbn [net_ip net_mask4 net_ones]. rewrite andb_true_r. destruct (is_v4 m) eqn:Ev.
    + pose proof (masked_v4 n0 a ltac:(lia) Ev). destruct (v4_split m Ev) as [_ Hb].
      rewrite parse_net by (rewrite ?Ev; lia). rewrite Ev. rewrite Z.max_r by lia.
      pose proof (mask_top_le 32 (n0 - 96) (v4_bits m) ltac:(lia) ltac:(lia)) as Hm'.
      assert (mask_top 32 (n0 - 96) (v4_bits m) = v4_bits m) as Eb by (apply masked_v4_bits; lia).
      eexists. split_and!; [reflexivity| |].
      * cbn [net_ip net_mask4 net_ones]. by rewrite andb_false_r, Eb, (proj1 (v4_split m Ev)).
      * intros x. unfold net_contains. cbn [net_ip net_mask4 net_ones]. rewrite Ev, Z.max_r by lia.
        destruct (v4_bits_of (mask_top 32 (n0 - 96) (v4_bits m)) ltac:(lia)) as [_ ->]. by rewrite mask_top_idem by lia.
    + rewrite parse_net by (rewrite ?Ev; lia). rewrite Ev. unfold m. rewrite mask_top_idem by lia. fold m. eexists. split_and!; [reflexivity| |done].
      cbn [net_ip net_mask4 net_ones]. by rewrite andb_true_r, Ev.
Qed.

(** ** Running a loop again on what it has kept *)

(** Every step keeps some of its input, normalised, and does the same on that;
    [ok] says that there is no error so far. *)
Lemma replay {A S : Type} (f : S → A → S) (ok : S → Prop) (out : S → list A) l a :
  (∀ a x, ok (f a x) → ok a ∧ ∃ ys, out (f a x) = out a ++ ys ∧ foldl f a ys = f a x) →
  ok (foldl f a l) → ∃ ys, out (foldl f a l) = out a ++ ys ∧ foldl f a ys = foldl f a l.
Proof.
  intros Hf. induction l as [|x l IH] using rev_ind; intros Hok; [exists []; by rewrite app_nil_r|].
  rewrite foldl_app in *. cbn [foldl] in *. destruct (Hf _ _ Hok) as (Hok' & ys & E1 & E2). destruct (IH Hok') as (zs & E3 & E4).
  exists (zs ++ ys). rewrite E1, E3, (assoc_L (++)). split; [done|]. by rewrite foldl_app, E4.
Qed.

Lemma snoc_nil {A : Type} (l : list A) x : l ++ [x] = [] → False.
Proof. by intros [_ ?]%app_eq_nil. Qed.

(** The same, for a loop that starts with no output. *)
Lemma replay_all {A S : Type} (f : S → A → S) (ok : S → Prop) (out : S → list A) l a :
  (∀ a x, ok (f a x) → ok a ∧ ∃ ys, out (f a x) = out a ++ ys ∧ foldl f a ys = f a x) →
  ok (foldl f a l) → out a = [] → foldl f a (out (foldl f a l)) = foldl f a l.
Proof. intros Hf Hok Ha. destruct (replay f ok out l a Hf Hok) as (ys & E1 & E2). rewrite Ha in E1. cbn in E1. by rewrite E1. Qed.

Section loops.
Context {U : Unicode} {R : Resolve}.

Lemma trusted_again l errs es tr seen : foldl trusted_step (errs, [], ∅) l = (es, tr, seen) → es = [] →
  errs = [] ∧ foldl trusted_step ([], [], ∅) tr = ([], tr, seen).
Proof.
  intros E ->. assert (∀ (a : list str * list str * gset str) x, (trusted_step a x).1.1 = [] → a.1.1 = [] ∧
    ∃ ys, (trusted_step a x).1.2 = a.1.2 ++ ys ∧ foldl trusted_step a ys = trusted_step a x) as Hstep.
  { intros [[e t] s] x. unfold trusted_step at 1 2 4. destruct (ParseCIDR (trim_space x)) as [n|] eqn:En; [|cbn; by intros ?%snoc_nil].
    destruct (net_reparse _ _ En) as (n' & En' & Es & _). case_bool_decide as Hin; cbn [fst snd]; intros ->; (split; [done|]).
    - exists []. by rewrite app_nil_r.
    - exists [net_string n]. split; [done|]. cbn [foldl]. unfold trusted_step. rewrite En', Es. by rewrite bool_decide_eq_false_2. }
  assert (errs = []) as ->.
  { destruct (foldl_no_errors trusted_step (λ a, a.1.1) (λ _ _, True) l (errs, [], ∅)) as [H _]; [|by rewrite E|done].
    intros d a b Hb. by destruct (Hstep a b Hb). }
  split; [done|]. pose proof (replay_all trusted_step (λ a, a.1.1 = []) (λ a, a.1.2) l ([], [], ∅) Hstep) as H. rewrite E in H. by apply H.
Qed.

Lemma validate_hosts_again hosts hs : validate_hosts hosts = ([], hs) → validate_hosts hs = ([], hs).
Proof.
  intros H. pose proof (validate_hosts_ok hosts hs H) as (Hlen & _ & _). revert H.
  unfold validate_hosts. set (errs := match hosts with [] => _ | _ => _ end). destruct (foldl _ _ _) as [[es seen] out] eqn:E. intros [= -> <-].
  assert (∀ (a : list str * gset str * list str) x, (host_step a x).1.1 = [] → a.1.1 = [] ∧
    ∃ ys, (host_step a x).2 = a.2 ++ ys ∧ foldl host_step a ys = host_step a x) as Hstep.
  { intros [[e s] t] x. unfold host_step at 1 2 4. destruct (normalizeRouteHostPattern x) as [h|] eqn:En; [|cbn; by intros ?%snoc_nil].
    apply host_pattern_stable in En. case_bool_decide as Hin; cbn [fst snd]; [by intros ?%snoc_nil|]. intros ->. split; [done|].
    exists [h]. split; [done|]. cbn [foldl]. unfold host_step. rewrite En. by rewrite bool_decide_eq_false_2. }
  assert (errs = [] ∧ length out = length (limited maxHostsPerRoute hosts)) as [He Hl].
  { destruct (foldl_no_errors host_step (λ a, a.1.1) (λ l a, length a.2 = length l) (limited maxHostsPerRoute hosts) (errs, ∅, [])) as [H1 H2];
      [|by rewrite E|rewrite E in H2; split; [done|by apply H2]].
    intros d [[e s] t] x. unfold host_step. destruct (normalizeRouteHostPattern x); [|cbn; by intros ?%snoc_nil].
    case_bool_decide; cbn [fst snd]; [by intros ?%snoc_nil|]. intros ->. split; [done|]. rewrite !length_app. simpl. lia. }
  assert (out ++ drop (length out) hosts = out) as Eo.
  { destruct hosts as [|h0 hosts']; [by subst errs|]. subst errs. apply check_nil, Z.ltb_ge in He. rewrite limited_all in Hl by lia.
    rewrite Hl, drop_all. apply app_nil_r. }
  rewrite Eo in Hlen |- *. rewrite (limited_all _ out) by lia. rewrite He in E.
  pose proof (replay_all host_step (λ a, a.1.1 = []) snd (limited maxHostsPerRoute hosts) ([], ∅, []) Hstep) as H. rewrite E in H. cbn [snd fst] in H.
  destruct out as [|o out']; [rewrite len_nil in Hlen; lia|]. rewrite (proj2 (check_nil _ _)) by (apply Z.ltb_ge; lia). rewrite H by done. rewrite drop_all. by rewrite app_nil_r.
Qed.

Lemma itoa_all_digits z : 0 <= z → forallb is_digit (itoa z) = true.
Proof.
  intros Hz. assert (∀ x s, forallb is_digit (lit s) = true → forallb is_digit (lit (pretty.pretty_N_go x s)) = true) as Hgo.
  { intros x. induction (N.lt_wf_0 x) as [x _ IH]. intros s Hs. destruct (decide (x = 0%N)) as [->|Hx]; [done|].
    rewrite pretty.pretty_N_go_step by lia. apply IH; [apply N.div_lt; lia|]. change (lit (String ?c ?t)) with (c :: lit t). cbn [forallb].
    rewrite Hs, andb_true_r. unfold pretty.pretty_N_char. by repeat case_match. }
  unfold itoa. destruct z as [|p|p]; [done| |lia]. change (pretty.pretty (Z.pos p)) with (pretty.pretty_N_go (N.pos p) ""). by apply Hgo.
Qed.

Lemma itoa_trim j : 0 <= j → trim_space ("origin-" ++ itoa j) = "origin-" ++ itoa j.
Proof.
  intros Hj. apply trim_space_id. rewrite forallb_app. apply andb_true_iff. split; [done|].
  eapply forallb_weaken; [|exact (itoa_all_digits j Hj)]. clear. intros b. all_bytes b.
Qed.

Lemma normalize_upstream_idem j u : 0 <= j → normalize_upstream j (normalize_upstream j u) = normalize_upstream j u.
Proof.
  intros Hj. unfold normalize_upstream. cbn [up_name up_url up_insecure up_weight up_priority].
  rewrite trim_space_idem. f_equal.
  - destruct (trim_space (up_name u) =?s []) eqn:E; [|by rewrite trim_space_idem, E].
    rewrite itoa_trim by lia. done.
  - destruct (up_weight u =? 0) eqn:E; [done|]. by rewrite E.
  - destruct (up_priority u =? 0) eqn:E; [|by rewrite E]. by destruct (Z.eqb_spec (j + 1) 0); [lia|].
Qed.

Lemma validate_upstreams_again us us' : 1 <= len us <= maxUpstreamsPerRoute → validate_upstreams us = ([], us') → validate_upstreams us' = ([], us').
Proof.
  intros Hlen H. pose proof (validate_upstreams_ok us us' Hlen H) as (Hl & _ & _). revert H.
  unfold validate_upstreams. rewrite (limited_all _ us) by lia. destruct (foldl _ _ _) as [[es seen] out] eqn:E. intros [= -> <-].
  assert (∀ a x, (upstream_step a x).1.1 = [] → a.1.1 = [] ∧
    ∃ ys, (upstream_step a x).2 = a.2 ++ ys ∧ foldl upstream_step a ys = upstream_step a x) as Hstep.
  { intros [[e s] t] x. unfold upstream_step at 1 2 4. destruct (validate_upstream s (normalize_upstream (len t) x)) as [e' s'] eqn:En. cbn [fst snd].
    intros [-> ->]%app_eq_nil. split; [done|]. exists [normalize_upstream (len t) x]. split; [done|]. cbn [foldl]. unfold upstream_step.
    by rewrite normalize_upstream_idem, En by apply len_nonneg. }
  assert (length out = length us) as Ho.
  { destruct (foldl_no_errors upstream_step (λ a, a.1.1) (λ l a, length a.2 = length l) us ([], mkSeen ∅ ∅, [])) as [_ H2]; [|by rewrite E|rewrite E in H2; by apply H2].
    intros d [[e s] t] x. unfold upstream_step. destruct (validate_upstream s _) as [e' s']. cbn [fst snd]. intros [-> ->]%app_eq_nil. split; [done|].
    rewrite !length_app. simpl. lia. }
  rewrite Ho, drop_all, app_nil_r in Hl |- *. rewrite limited_all by lia.
  pose proof (replay_all upstream_step (λ a, a.1.1 = []) snd us ([], mkSeen ∅ ∅, []) Hstep) as H. rewrite E in H. cbn [fst snd] in H.
  rewrite H by done. by rewrite drop_all, app_nil_r.
Qed.

Lemma token_trim v : validHTTPToken v = true → trim_space v = v.
Proof. unfold validHTTPToken. intros [_ H]%andb_true_iff. apply trim_space_id. eapply forallb_weaken; [|exact H]. clear. intros b. all_bytes b. Qed.

Lemma vary_again l varied seen over : foldl add_vary ([], [], ∅, false) l = ([], varied, seen, over) →
  over = false ∧ (∀ x, x ∈ l → validHTTPToken (canonical_key (trim_space x)) = true ∧ to_lower (canonical_key (trim_space x)) ∈ seen)
  ∧ foldl add_vary ([], [], ∅, false) varied = ([], varied, seen, false).
Proof.
  intros E. destruct (foldl_no_errors add_vary (λ a, a.1.1.1)
    (λ l a, a.2 = false ∧ ∀ x, x ∈ l → validHTTPToken (canonical_key (trim_space x)) = true ∧ to_lower (canonical_key (trim_space x)) ∈ a.1.2)
    l ([], [], ∅, false)) as [_ H]; [|by rewrite E|].
  { intros d [[[e va] s] o] x. unfold add_vary. destruct (validHTTPToken (canonical_key (trim_space x))) eqn:Et; cbn [negb]; [|cbn; by intros ?%snoc_nil].
    case_bool_decide as Hin; cbn [fst snd].
    { intros ->. split; [done|]. intros [Ho Hd]. split; [done|]. intros y [?| ->%list_elem_of_singleton]%elem_of_app; [by apply Hd|done]. }
    destruct (maxCacheVaryHeaders <=? len va); cbn [fst snd].
    { destruct o; [intros ->; split; [done|by intros [? _]]|by intros ?%snoc_nil]. }
    intros ->. split; [done|]. intros [Ho Hd]. split; [done|]. intros y [Hy| ->%list_elem_of_singleton]%elem_of_app; [|split; [done|]; apply elem_of_union; left; by apply elem_of_singleton].
    destruct (Hd y Hy). split; [done|]. apply elem_of_union. by right. }
  rewrite E in H. cbn [fst snd] in H. destruct H as [-> Hin]; [split; [done|]; by intros x ?%not_elem_of_nil|].
  split_and!; [done|done|]. pose proof (replay_all add_vary (λ a, a.1.1.1 = [] ∧ a.2 = false) (λ a, a.1.1.2) l ([], [], ∅, false)) as H.
  rewrite E in H. apply H; [|done|done]. clear. intros [[[e va] s] o] x. unfold add_vary at 1 2 3 5.
  destruct (validHTTPToken (canonical_key (trim_space x))) eqn:Et; cbn [negb]; [|cbn; by intros [?%snoc_nil _]].
  case_bool_decide as Hn; cbn [fst snd]; [intros [-> ->]; split; [done|]; exists []; by rewrite app_nil_r|].
  destruct (maxCacheVaryHeaders <=? len va) eqn:El; cbn [fst snd]; [by intros [_ ?]; destruct o|]. intros [-> ->]. split; [done|].
  exists [canonical_key (trim_space x)]. split; [done|]. cbn [foldl]. unfold add_vary. rewrite (token_trim (canonical_key (trim_space x))) by done.
  rewrite canonical_key_idem, Et. cbn [negb]. rewrite bool_decide_eq_false_2 by done. by rewrite El.
Qed.

Lemma validate_cache_again c c' : validate_cache c = ([], c') → validate_cache c' = ([], c').
Proof.
  intros H. pose proof (validate_cache_ok c c' H) as Hok. revert H. unfold validate_cache at 1. destruct (cache_enabled c) eqn:Ec; cbn [negb].
  2:{ intros [= <-]. unfold validate_cache. by rewrite Ec. }
  destruct (foldl _ _ _) as [[[es varied] seen] over] eqn:E. intros [= He <-]. destruct (Hok Ec) as (_ & _ & _ & _ & _ & _ & Hlen & _). cbn [vary_request_headers with_vary] in Hlen.
  apply app_eq_nil in He as [-> He]. unfold validate_cache. cbn [cache_enabled with_vary]. rewrite Ec. cbn [negb vary_request_headers].
  rewrite (proj2 (check_nil (maxCacheVaryHeaders <? len varied) _)) by (apply Z.ltb_ge; lia).
  assert (check (maxCacheVaryHeaders <? len (vary_request_headers c)) "too many cache.vary_request_headers" = []) as Ee.
  { by destruct (add_vary_loop _ _ _ _ _ _ E eq_refl). }
  rewrite Ee in E. destruct (vary_again _ _ _ _ E) as (-> & Hin & Hagain).
  assert (foldl add_vary ([], [], ∅, false) (vary_inputs (with_vary varied c)) = ([], varied, seen, false)) as ->; [|f_equal; exact He].
  unfold vary_inputs. cbn [vary_request_headers cache_authorized_requests cache_cookie_requests with_vary]. rewrite limited_all by lia.
  rewrite foldl_app, Hagain.
  assert (∀ l, (∀ x, x ∈ l → x ∈ vary_inputs c) → foldl add_vary ([], varied, seen, false) l = ([], varied, seen, false)) as Hskip.
  { intros l. induction l as [|x l IH]; intros Hl; [done|]. cbn [foldl]. destruct (Hin x) as [Ht Hs]; [apply Hl; by left|].
    assert (add_vary ([], varied, seen, false) x = ([], varied, seen, false)) as ->; [|apply IH; intros y Hy; apply Hl; by right].
    unfold add_vary. rewrite Ht. cbn [negb]. by rewrite bool_decide_eq_true_2. }
  apply Hskip. intros x Hx. unfold vary_inputs. apply elem_of_app. by right.
Qed.

Lemma validate_health_again h h' : validate_health h = ([], h') → validate_health h' = ([], h').
Proof.
  unfold validate_health. destruct (hc_enabled h) eqn:Eh; cbn [negb]; [|intros [= <-]; by rewrite Eh].
  destruct (normalizeAbsolutePath (hc_path h)) as [p|] eqn:Ep; [|intros [= ? _]; done]. intros [= He <-]. cbn [hc_enabled hc_path hc_interval hc_timeout hc_statuses].
  cbn [negb]. rewrite (proj1 (absolute_path_stable _ _ Ep)). by rewrite He.
Qed.

Lemma normalize_lb_again l : validate_lb (normalize_lb l) = [] → normalize_lb (normalize_lb l) = normalize_lb l.
Proof.
  intros H. apply validate_lb_ok in H as (Ha & _).
  transitivity (mkLB (lb_algorithm (normalize_lb l)) (latency_sensitivity (normalize_lb l)) (ewma_alpha (normalize_lb l))); [|done].
  unfold normalize_lb at 1. f_equal.
  - assert (∀ x, x ∈ algorithms → (if to_lower (trim_space x) =?s [] then lit "round_robin" else to_lower (trim_space x)) = x) as Hx; [|by apply Hx].
    intros x Hx. unfold algorithms, lits in Hx. cbn [fmap list_fmap] in Hx. rewrite !elem_of_cons, elem_of_nil in Hx.
    assert (∀ y : str, is_ascii y = true → to_lower y = lower_ascii <$> y) as Hl by (intros; by apply to_lower_ascii_fmap).
    destruct_or? Hx; try done; subst x; (rewrite trim_space_id by by vm_compute); (rewrite Hl by by vm_compute); by vm_compute.
  - unfold normalize_lb. cbn [latency_sensitivity]. destruct (feq (latency_sensitivity l) f_zero) eqn:E; [done|]. by rewrite E.
  - unfold normalize_lb. cbn [ewma_alpha]. destruct (feq (ewma_alpha l) f_zero) eqn:E; [done|]. by rewrite E.
Qed.

(** The prefix of a route does not end in a space (nor start in one). *)
Definition prefix_trimmed (r : RouteConfig) : Prop := trim_space (path_prefix r) = path_prefix r.

Lemma validate_route_again t r t' r' : validate_route t r = ([], t', r') → prefix_trimmed r' → validate_route t r' = ([], t', r').
Proof.
  intros H Hp. unfold validate_route in H. destruct (validate_name _ _) as [e1 ns] eqn:E1. destruct (validate_hosts _) as [e2 hs] eqn:E2.
  destruct (normalizePathPrefix _) as [prefix|] eqn:E3.
  2:{ exfalso. revert H. repeat case_goal; intros [= He _ _]; apply app_eq_nil in He as [_ He]; by apply app_eq_nil in He as [_ He]. }
  destruct (foldl _ _ _) as [e6 sel] eqn:E6. destruct (validate_upstreams _) as [e7 us] eqn:E7.
  destruct (validate_cache _) as [e9 cc] eqn:E9. destruct (validate_health _) as [e10 hc] eqn:E10.
  injection H as He <- <-. cbn [app] in He. set (lb := normalize_lb _) in *.
  repeat match type of He with _ ++ _ = [] => let Hi := fresh "Hi" in apply app_eq_nil in He as [Hi He] end. subst.
  assert (1 <= len (upstreams r) <= maxUpstreamsPerRoute) as Hus.
  { destruct (upstreams r) as [|u us']; [done|]. apply check_nil, Z.ltb_ge in Hi1. rewrite len_cons in *. pose proof (len_nonneg us'). lia. }
  pose proof (validate_upstreams_ok _ _ Hus E7) as (Hl & _ & _).
  unfold validate_route. cbn [route_name route_hosts path_prefix upstreams load_balancing proxy cache health_check strip_prefix preserve_host].
  rewrite trim_space_idem, E1, (validate_hosts_again _ _ E2), (path_prefix_stable _ _ E3 Hp), E6, (validate_upstreams_again _ _ Hus E7),
    (validate_cache_again _ _ E9), (validate_health_again _ _ E10).
  unfold lb in *. rewrite (normalize_lb_again _ Hi2), Hi2.
  destruct us as [|u us']; [rewrite len_nil in Hl; lia|].
  rewrite (proj2 (check_nil (maxUpstreamsPerRoute <? len (u :: us')) _)) by (apply Z.ltb_ge; lia).
  cbn [app]. by match goal with H : validate_proxy _ = [] |- _ => rewrite H end.
Qed.

Lemma validate_server_again token s s' : normalize_server s = s → validate_server token s = ([], s') →
  normalize_server s' = s' ∧ validate_server token s' = ([], s').
Proof.
  intros Hn H. unfold validate_server in H. set (errs := (if token =?s [] then _ else _) ++ _) in H.
  destruct (foldl _ _ _) as [[es tr] seen] eqn:Ef. injection H as He <-. apply app_eq_nil in He as [-> He].
  split. { unfold normalize_server in *. unfold with_trusted. cbn [listen_addr trusted_proxy_cidrs forwarded_for_header read_header_timeout read_timeout write_timeout idle_timeout shutdown_timeout max_header_bytes server_tls].
    destruct s. cbn in *. injection Hn. intros. congruence. }
  destruct (trusted_again _ _ _ _ _ Ef eq_refl) as [Hs Hagain]. unfold validate_server.
  cbn [listen_addr trusted_proxy_cidrs forwarded_for_header read_header_timeout read_timeout write_timeout idle_timeout shutdown_timeout max_header_bytes server_tls with_trusted].
  assert (len tr <= maxTrustedProxyCIDRs) as Hlen.
  { unfold errs in Hs. do 7 apply app_eq_nil in Hs as [_ Hs]. apply check_nil, Z.ltb_ge in Hs. rewrite limited_all in Ef by lia.
    destruct (foldl_no_errors trusted_step (λ a, a.1.1) (λ l a, len a.1.2 <= len l) (trusted_proxy_cidrs s) (errs, [], ∅)) as [_ Hle]; [|by rewrite Ef|].
    - intros d [[e t] sn] x. unfold trusted_step. destruct (ParseCIDR _); [|cbn; by intros ?%snoc_nil]. rewrite len_app, len_cons, len_nil.
      case_bool_decide; cbn [fst snd]; intros ->; (split; [done|]); rewrite ?len_app, ?len_cons, ?len_nil; lia.
    - rewrite Ef in Hle. cbn [fst snd] in Hle. specialize (Hle ltac:(rewrite len_nil; lia)). lia. }
  rewrite (limited_all _ tr) by done. rewrite (proj2 (check_nil (maxTrustedProxyCIDRs <? len tr) _)) by (apply Z.ltb_ge; lia).
  assert (errs = (if token =?s [] then [] else validateBearerCredential token)
    ++ (if trim_space (listen_addr s) =?s [] then [lit "server.listen_addr is required"] else validateHostPort (listen_addr s) true)
    ++ check (read_header_timeout s <=? 0) "server.read_header_timeout must be positive"
    ++ check ((read_timeout s <? 0) || (write_timeout s <? 0) || (idle_timeout s <? 0)) "server timeouts cannot be negative"
    ++ check (shutdown_timeout s <=? 0) "server.shutdown_timeout must be positive"
    ++ check (outside 1 maxServerHeaderBytes (max_header_bytes s)) "server.max_header_bytes out of range"
    ++ (if negb (validHTTPToken (forwarded_for_header s)) then [lit "server.forwarded_for_header is not a field name"]
        else check (reservedClientIPSourceHeader (forwarded_for_header s)) "server.forwarded_for_header is reserved") ++ []) as He2.
  { unfold errs in *. do 7 (let X := fresh in apply app_eq_nil in Hs as [X Hs]; rewrite X). by rewrite Hs. }
  rewrite <- He2, Hs, Hagain. cbn [app]. by rewrite He.
Qed.

Lemma normalize_server_idem s : normalize_server (normalize_server s) = normalize_server s.
Proof.
  unfold normalize_server. cbn [listen_addr trusted_proxy_cidrs forwarded_for_header read_header_timeout read_timeout write_timeout idle_timeout shutdown_timeout max_header_bytes server_tls tls_enabled tls_cert tls_key admin_enabled admin_listen admin_token admin_log].
  rewrite !trim_space_idem. destruct (trim_space (forwarded_for_header s) =?s []) eqn:E; [|by rewrite trim_space_idem, E].
  assert (trim_space "X-Forwarded-For" = lit "X-Forwarded-For") as -> by (vm_compute; reflexivity). done.
Qed.
Lemma normalize_admin_idem a : normalize_admin (normalize_admin a) = normalize_admin a.
Proof. unfold normalize_admin. cbn [admin_enabled admin_listen admin_token admin_log]. by rewrite !trim_space_idem. Qed.

(** Validating twice is validating once: what [Validate] returns it accepts and
    leaves as it is, when no path prefix ends in a space. *)
Lemma Validate_again c c' : accepted c c' → Forall prefix_trimmed (routes c') → accepted c' c'.
Proof.
  unfold accepted. intros H Hp. pose proof (Validate_ok c c' H) as [_ _ Hlen _ _ _]. revert H. unfold Validate at 1.
  destruct (validate_server _ _) as [e1 s] eqn:E1. destruct (foldl _ _ _) as [[e4 t] rs] eqn:E4. intros [= He <-].
  apply app_eq_nil in He as [-> He]. apply app_eq_nil in He as [Ha He]. apply app_eq_nil in He as [Hr ->].
  assert (1 <= len (routes c) <= maxRoutes) as Hlc.
  { destruct (routes c) as [|r rs']; [done|]. apply check_nil, Z.ltb_ge in Hr. rewrite len_cons in *. pose proof (len_nonneg rs'). lia. }
  rewrite limited_all in E4 by lia.
  assert (length rs = length (routes c)) as Hl.
  { destruct (foldl_no_errors route_step (λ a, a.1.1) (λ l a, length a.2 = length l) (routes c) ([], mkTables ∅ ∅, [])) as [_ H2]; [|by rewrite E4|rewrite E4 in H2; by apply H2].
    intros d [[e tt] out] x. unfold route_step. destruct (validate_route tt x) as [[e' t'] r']. cbn [fst snd]. intros [-> ->]%app_eq_nil. split; [done|].
    rewrite !length_app. simpl. lia. }
  cbn [routes] in Hp, Hlen |- *. rewrite Hl, drop_all, app_nil_r in Hp, Hlen |- *.
  unfold Validate. cbn [server admin routes].
  destruct (validate_server_again _ _ _ (normalize_server_idem (server c)) E1) as [Hns Hvs]. rewrite Hns, normalize_admin_idem, Hvs, Ha.
  rewrite limited_all by lia.
  pose proof (replay_all route_step (λ a, a.1.1 = [] ∧ Forall prefix_trimmed a.2) snd (routes c) ([], mkTables ∅ ∅, [])) as Hre.
  rewrite E4 in Hre. cbn [fst snd] in Hre. rewrite Hre; [|clear|done|done].
  - rewrite drop_all, app_nil_r. cbn [app]. destruct rs as [|r rs']; [rewrite len_nil in Hlen; lia|].
    rewrite (proj2 (check_nil (maxRoutes <? len (r :: rs')) _)) by (apply Z.ltb_ge; lia). rewrite app_nil_r. done.
  - intros [[e t] out] x. unfold route_step at 1 2 3 5. destruct (validate_route t x) as [[e' t'] r'] eqn:Ev. cbn [fst snd].
    intros [[-> ->]%app_eq_nil [Hout Hr]%Forall_app]. apply Forall_cons in Hr as [Hr _]. split; [done|]. exists [r']. split; [done|]. cbn [foldl]. unfold route_step.
    by rewrite (validate_route_again _ _ _ _ Ev Hr).
Qed.

End loops.

End Stable.
