(* ===== verification/ConfigEnv.v ===== *)
(** * Environment overrides: apps/edgeproxy/internal/config/config.go

    [ApplyEnvironmentOverrides] and the guard that refuses an update of the file
    which an override would mask.  [environment] is [os.LookupEnv]; an error is
    the fixed part of its message. *)

From S2P Require Import Prelude GoStr GoFloat Config ConfigValidate.

Module Environment.

(** What a file leaves out. *)
Definition Default : Config :=
  mkConfig
    (mkServer ":8080" [] "X-Forwarded-For" (5 * second) (30 * second) (60 * second) (90 * second) (10 * second) (2 ^ 20)
       (mkTLS false [] []))
    (mkAdmin true "127.0.0.1:9090" [] (mkAdminLog true 5000 100 500))
    [].

Abbreviation environment := (str → option str).

(** [reflect.DeepEqual] of two string slices; a nil slice and an empty one are
    not told apart here. *)
Definition same_strings (a b : list str) : bool := bool_decide (a = b).

Section env.
Context {U : Unicode}.
Context (env : environment).

(** [None] when the variable is missing or blank. *)
Definition nonEmptyEnvironment (key : str) : option str :=
  match env key with
  | None => None
  | Some value => let value := trim_space value in if value =?s [] then None else Some value
  end.

Definition applyStringEnv (key : str) (target : str) : str := default target (nonEmptyEnvironment key).

Definition splitEnvironmentList (value : str) : list str :=
  filter (λ item, item ≠ []) (trim_space <$> split value ",").

(** One rune of [environmentRouteSuffix]; a byte of a longer rune is no letter
    and no digit, and the runs of such bytes give one underscore. *)
Definition suffix_step (st : str * bool) (r : ascii) : str * bool :=
  let '(b, underscore) := st in
  if is_lower r then (b ++ [chr (code r - 32)], false)
  else if is_upper r || is_digit r then (b ++ [r], false)
  else if (0 <? len b) && negb underscore then (b ++ "_", true) else (b, underscore).

Definition environmentRouteSuffix (name : str) : str :=
  trim_bytes "_" (fst (foldl suffix_step ([], false) (trim_space name))).

(** [strconv.ParseBool] *)
Definition parse_bool (s : str) : option bool :=
  if bool_decide (s ∈ lits ["1"; "t"; "T"; "true"; "TRUE"; "True"]) then Some true
  else if bool_decide (s ∈ lits ["0"; "f"; "F"; "false"; "FALSE"; "False"]) then Some false
  else None.

Definition key_route (suffix field : str) : str := "EDGEPROXY_ROUTE_" ++ suffix ++ field.
Definition hosts_key (name : str) : str := key_route (environmentRouteSuffix name) "_HOSTS".
Definition upstreams_key (name : str) : str := key_route (environmentRouteSuffix name) "_UPSTREAM_URLS".

(** The URLs replace those of the file; the other fields stay by position. *)
Definition override_upstreams (old : list UpstreamConfig) (urls : list str) : list UpstreamConfig :=
  imap (λ j url,
    let u := default (mkUpstreamCfg [] [] false 0 0) (old !! j) in
    mkUpstreamCfg (up_name u) url (up_insecure u) (up_weight u) (up_priority u)) urls.

Definition with_upstreams (us : list UpstreamConfig) (r : RouteConfig) : RouteConfig :=
  mkRoute (route_name r) (route_hosts r) (path_prefix r) (strip_prefix r) (preserve_host r) us (load_balancing r)
    (proxy r) (cache r) (health_check r).

(** One route of the loop; [seenSuffixes] maps a suffix to the route name it
    came from. *)
Definition override_route (seenSuffixes : gmap str str) (r : RouteConfig) : str + (gmap str str * RouteConfig) :=
  let suffix := environmentRouteSuffix (route_name r) in
  if suffix =?s [] then inr (seenSuffixes, r)
  else
    let urls := nonEmptyEnvironment (upstreams_key (route_name r)) in
    if bool_decide (is_Some (nonEmptyEnvironment (hosts_key (route_name r)))) then
      inl (lit "is not supported; define route hosts in the shared JSON profile")
    else
      let clash := match seenSuffixes !! suffix with
                   | Some previous => negb (previous =?s route_name r)
                   | None => false
                   end in
      if clash then
        if bool_decide (is_Some urls) then inl (lit "map to the same environment suffix")
        else inr (seenSuffixes, r)
      else
        let seenSuffixes := <[suffix := route_name r]> seenSuffixes in
        match urls with
        | None => inr (seenSuffixes, r)
        | Some value =>
            let urls := splitEnvironmentList value in
            if len urls =? 0 then inl (lit "must contain at least one URL")
            else if Validation.maxUpstreamsPerRoute <? len urls then inl (lit "cannot contain more than")
            else inr (seenSuffixes, with_upstreams (override_upstreams (upstreams r) urls) r)
        end.

Fixpoint override_routes (seenSuffixes : gmap str str) (rs : list RouteConfig) : str + list RouteConfig :=
  match rs with
  | [] => inr []
  | r :: rs =>
      match override_route seenSuffixes r with
      | inl e => inl e
      | inr (seenSuffixes, r) =>
          match override_routes seenSuffixes rs with
          | inl e => inl e
          | inr rs => inr (r :: rs)
          end
      end
  end.

Definition override_server (s : ServerConfig) (tls_on : bool) : ServerConfig :=
  mkServer
    (applyStringEnv "EDGEPROXY_SERVER_LISTEN_ADDR" (listen_addr s))
    (match nonEmptyEnvironment "EDGEPROXY_TRUSTED_PROXY_CIDRS" with
     | Some value => splitEnvironmentList value | None => trusted_proxy_cidrs s end)
    (applyStringEnv "EDGEPROXY_FORWARDED_FOR_HEADER" (forwarded_for_header s))
    (read_header_timeout s) (read_timeout s) (write_timeout s) (idle_timeout s) (shutdown_timeout s) (max_header_bytes s)
    (mkTLS tls_on (applyStringEnv "EDGEPROXY_TLS_CERT_FILE" (tls_cert (server_tls s)))
       (applyStringEnv "EDGEPROXY_TLS_KEY_FILE" (tls_key (server_tls s)))).

Definition override_admin (a : AdminConfig) : AdminConfig :=
  mkAdmin (admin_enabled a) (applyStringEnv "EDGEPROXY_ADMIN_LISTEN_ADDR" (admin_listen a))
    (applyStringEnv "EDGEPROXY_ADMIN_TOKEN" (admin_token a)) (admin_log a).

(** The callers discard the configuration when there is an error. *)
Definition ApplyEnvironmentOverrides (cfg : Config) : str + Config :=
  let tls := match nonEmptyEnvironment "EDGEPROXY_TLS_ENABLED" with
             | Some value => parse_bool value
             | None => Some (tls_enabled (server_tls (server cfg)))
             end in
  match tls with
  | None => inl (lit "EDGEPROXY_TLS_ENABLED must be a boolean")
  | Some on =>
      match override_routes ∅ (routes cfg) with
      | inl e => inl e
      | inr rs => inr (mkConfig (override_server (server cfg) on) (override_admin (admin cfg)) rs)
      end
  end.

(** ** The guard *)

Definition routeByName (rs : list RouteConfig) (name : str) : option RouteConfig :=
  head (filter (λ r, equal_fold (trim_space (route_name r)) (trim_space name)) rs).

Definition upstreamURLs (us : list UpstreamConfig) : list str := (λ u, trim_space (up_url u)) <$> us.

Definition add_locked (key field : str) (changed : bool) (locked : list str) : list str :=
  if bool_decide (is_Some (nonEmptyEnvironment key)) && changed then locked ++ [field ++ " (" ++ key ++ ")"] else locked.

Definition route_changed (current next : list RouteConfig) (name : str) : bool :=
  match routeByName current name, routeByName next name with
  | Some before, Some after => negb (same_strings (upstreamURLs (upstreams before)) (upstreamURLs (upstreams after)))
  | None, None => false
  | _, _ => true
  end.

(** One turn of the loop over the routes of both configurations; [seen] has
    canonical names. *)
Definition guard_route (current next : list RouteConfig) (st : list str * list str) (r : RouteConfig)
    : list str * list str :=
  let '(seen, locked) := st in
  let name := trim_space (route_name r) in
  let key := upstreams_key name in
  if bool_decide (is_Some (nonEmptyEnvironment key)) then
    let canonical := to_lower name in
    if bool_decide (canonical ∈ seen) then (seen, locked)
    else (canonical :: seen,
          if route_changed current next name then locked ++ ["routes[" ++ name ++ "].upstream URLs (" ++ key ++ ")"]
          else locked)
  else (seen, locked).

Definition locked_fields (current next : Config) : list str :=
  let locked :=
    add_locked "EDGEPROXY_TLS_KEY_FILE" "server.tls.key_file"
      (negb (tls_key (server_tls (server current)) =?s tls_key (server_tls (server next))))
    $ add_locked "EDGEPROXY_TLS_CERT_FILE" "server.tls.cert_file"
      (negb (tls_cert (server_tls (server current)) =?s tls_cert (server_tls (server next))))
    $ add_locked "EDGEPROXY_TLS_ENABLED" "server.tls.enabled"
      (negb (eqb (tls_enabled (server_tls (server current))) (tls_enabled (server_tls (server next)))))
    $ add_locked "EDGEPROXY_TRUSTED_PROXY_CIDRS" "server.trusted_proxy_cidrs"
      (negb (same_strings (trusted_proxy_cidrs (server current)) (trusted_proxy_cidrs (server next))))
    $ add_locked "EDGEPROXY_FORWARDED_FOR_HEADER" "server.forwarded_for_header"
      (negb (forwarded_for_header (server current) =?s forwarded_for_header (server next)))
    $ add_locked "EDGEPROXY_ADMIN_TOKEN" "admin.auth_token"
      (negb (admin_token (admin current) =?s admin_token (admin next)))
    $ add_locked "EDGEPROXY_ADMIN_LISTEN_ADDR" "admin.listen_addr"
      (negb (admin_listen (admin current) =?s admin_listen (admin next)))
    $ add_locked "EDGEPROXY_SERVER_LISTEN_ADDR" "server.listen_addr"
      (negb (listen_addr (server current) =?s listen_addr (server next))) [] in
  snd (foldl (guard_route (routes current) (routes next)) ([], locked) (routes current ++ routes next)).

(** [None] is success; otherwise the fields of the message. *)
Definition ValidateEnvironmentManagedChanges (current next : Config) : option (list str) :=
  let locked := locked_fields current next in
  if 0 <? len locked then Some locked else None.

(** ** What the guard promises *)

Definition managed (key : str) : bool := bool_decide (is_Some (nonEmptyEnvironment key)).

Lemma add_locked_nil key field changed locked : add_locked key field changed locked = [] →
  locked = [] ∧ (managed key = true → changed = false).
Proof.
  unfold add_locked, managed. destruct (bool_decide _); simpl; [|done]. destruct changed; [|done].
  intros H. by apply app_nil in H as [_ H].
Qed.

Lemma unmanaged_string key x : managed key = false → applyStringEnv key x = x.
Proof.
  unfold managed, applyStringEnv. destruct (nonEmptyEnvironment key); [|done]. intros H. apply bool_decide_eq_false in H. by destruct H.
Qed.

Lemma guard_routes_nil current next rs st : snd (foldl (guard_route current next) st rs) = [] →
  snd st = [] ∧ ∀ r, r ∈ rs → managed (upstreams_key (trim_space (route_name r))) = true →
    to_lower (trim_space (route_name r)) ∈ fst st
    ∨ ∃ r', r' ∈ rs ∧ to_lower (trim_space (route_name r')) = to_lower (trim_space (route_name r))
            ∧ route_changed current next (trim_space (route_name r')) = false.
Proof.
  revert st. induction rs as [|r rs IH]; intros [seen locked] H; [split; [done|set_solver]|].
  cbn [foldl] in H. apply IH in H as [H1 H2]. clear IH. revert H1 H2. unfold guard_route.
  fold (managed (upstreams_key (trim_space (route_name r)))). destruct (managed _) eqn:Hm.
  - destruct (bool_decide_reflect (to_lower (trim_space (route_name r)) ∈ seen)) as [Hs|Hs]; cbn [fst snd].
    + intros H1 H2. split; [done|]. intros r1 [->|Hr]%elem_of_cons Hm1; [by left|].
      destruct (H2 r1 Hr Hm1) as [?|(r' & ? & ?)]; [by left|]. right. exists r'. split; [set_solver|done].
    + destruct (route_changed _ _ _) eqn:Hc; intros H1 H2; [by apply app_nil in H1 as [_ H1]|]. split; [done|].
      intros r1 [->|Hr]%elem_of_cons Hm1; [right; exists r; split; [set_solver|done]|].
      destruct (H2 r1 Hr Hm1) as [[E|?]%elem_of_cons|(r' & ? & ?)].
      * right. exists r. split; [set_solver|done].
      * by left.
      * right. exists r'. split; [set_solver|done].
  - cbn [fst snd]. intros H1 H2. split; [done|]. intros r1 [->|Hr]%elem_of_cons Hm1; [congruence|].
    destruct (H2 r1 Hr Hm1) as [?|(r' & ? & ?)]; [by left|]. right. exists r'. split; [set_solver|done].
Qed.

(** Route names as an operator writes them: ASCII, without blanks around. *)
Definition plain_name (r : RouteConfig) : Prop := is_ascii (route_name r) = true ∧ trim_space (route_name r) = route_name r.

Lemma suffix_step_lower st c : suffix_step st (lower_ascii c) = suffix_step st c.
Proof.
  destruct st as [b u]. unfold lower_ascii. destruct (is_upper c) eqn:E; [|reflexivity].
  destruct c as [[] [] [] [] [] [] [] []]; first [by vm_compute in E | by vm_compute].
Qed.

Lemma suffix_lower s t : trim_space s = s → trim_space t = t → lower_ascii <$> s = lower_ascii <$> t →
  environmentRouteSuffix s = environmentRouteSuffix t.
Proof.
  intros Hs Ht H. unfold environmentRouteSuffix. rewrite Hs, Ht. do 2 f_equal. clear Hs Ht.
  assert (∀ st x, foldl suffix_step st x = foldl suffix_step st (lower_ascii <$> x)) as G.
  { intros st x. revert st. induction x as [|c x IH]; intros st; [done|]. cbn [fmap list_fmap foldl]. by rewrite suffix_step_lower, IH. }
  by rewrite G, H, <- G.
Qed.

Lemma routeByName_lower rs s t : Forall plain_name rs → is_ascii s = true → is_ascii t = true →
  trim_space s = s → trim_space t = t → lower_ascii <$> s = lower_ascii <$> t → routeByName rs s = routeByName rs t.
Proof.
  intros Hr Hs Ht Hs' Ht' H. unfold routeByName. f_equal. induction Hr as [|r rs [R1 R2] _ IH]; [done|].
  rewrite !filter_cons, IH, Hs', Ht', R2. assert (equal_fold (route_name r) s = equal_fold (route_name r) t) as ->; [|done].
  apply eq_true_iff_eq. rewrite !equal_fold_ascii by done. by rewrite (to_lower_ascii_fmap s), (to_lower_ascii_fmap t), H.
Qed.

Lemma override_route_unmanaged seen r seen' r' : override_route seen r = inr (seen', r') →
  managed (upstreams_key (route_name r)) = false → r' = r.
Proof.
  unfold override_route, managed. cbv zeta. intros H Hm. rewrite Hm in H. apply bool_decide_eq_false in Hm.
  destruct (nonEmptyEnvironment (upstreams_key (route_name r))) as [v|]; [by destruct Hm|].
  repeat match type of H with
         | context [if ?b then _ else _] => destruct b; try done
         end; by injection H as _ <-.
Qed.

Lemma override_routes_unmanaged seen rs rs' i r : override_routes seen rs = inr rs' → rs !! i = Some r →
  managed (upstreams_key (route_name r)) = false → rs' !! i = Some r.
Proof.
  revert seen rs' i. induction rs as [|r0 rs IH]; intros seen rs' i H Hi Hm; [done|]. cbn [override_routes] in H.
  destruct (override_route seen r0) as [|[seen' r0']] eqn:E1; [done|]. destruct (override_routes seen' rs) as [|rs1] eqn:E2; [done|].
  injection H as <-. destruct i as [|i]; [|exact (IH seen' rs1 i E2 Hi Hm)]. injection Hi as ->.
  cbn. f_equal. by eapply override_route_unmanaged.
Qed.

Lemma managed_default {A} key (f : str → A) x : managed key = false →
  match nonEmptyEnvironment key with Some v => f v | None => x end = x.
Proof. unfold managed. destruct (nonEmptyEnvironment key); [|done]. intros H. apply bool_decide_eq_false in H. by destruct H. Qed.

Lemma string_unmanaged key (x y : str) : (managed key = true → negb (x =?s y) = false) → y ≠ x → managed key = false.
Proof. intros H Hne. apply not_true_is_false. intros Hm. apply H, negb_false_iff, eqs_true in Hm. congruence. Qed.

(** A field that the update changes has the updated value at run time. *)
Definition effective {A} (field : Config → A) (current next cfg : Config) : Prop :=
  field next ≠ field current → field cfg = field next.

(** C32: An update that the guard accepts is not masked: every field that the
    environment could override and that the update changes is the updated one
    after the overrides have been applied; and so is every route that the update
    adds, or whose upstream URLs it changes.  Conditions: the names of the routes
    before and after are ASCII without blanks around them, and a route is the one
    that is found by its name, as the routes of an accepted configuration are. *)
Theorem changes_take_effect current next cfg :
  ValidateEnvironmentManagedChanges current next = None → ApplyEnvironmentOverrides next = inr cfg →
  Forall plain_name (routes current ++ routes next) →
  effective (λ c, listen_addr (server c)) current next cfg
  ∧ effective (λ c, admin_listen (admin c)) current next cfg
  ∧ effective (λ c, admin_token (admin c)) current next cfg
  ∧ effective (λ c, forwarded_for_header (server c)) current next cfg
  ∧ effective (λ c, trusted_proxy_cidrs (server c)) current next cfg
  ∧ effective (λ c, tls_enabled (server_tls (server c))) current next cfg
  ∧ effective (λ c, tls_cert (server_tls (server c))) current next cfg
  ∧ effective (λ c, tls_key (server_tls (server c))) current next cfg
  ∧ ∀ i r, routes next !! i = Some r → routeByName (routes next) (route_name r) = Some r →
      (∀ r0, routeByName (routes current) (route_name r) = Some r0 →
             upstreamURLs (upstreams r0) ≠ upstreamURLs (upstreams r)) →
      routes cfg !! i = Some r.
Proof.
  unfold ValidateEnvironmentManagedChanges, ApplyEnvironmentOverrides. intros Hg Ha Hp.
  destruct (Z.ltb_spec 0 (len (locked_fields current next))) as [|Hl]; [done|]. clear Hg.
  assert (locked_fields current next = []) as Hg by (apply len_zero; pose proof (len_nonneg (locked_fields current next)); lia).
  clear Hl. apply guard_routes_nil in Hg as [Hg Hr]. cbn [fst snd] in Hg, Hr.
  apply add_locked_nil in Hg as [Hg Hkey]. apply add_locked_nil in Hg as [Hg Hcert].
  apply add_locked_nil in Hg as [Hg Htls]. apply add_locked_nil in Hg as [Hg Hcidr].
  apply add_locked_nil in Hg as [Hg Hfwd]. apply add_locked_nil in Hg as [Hg Htok].
  apply add_locked_nil in Hg as [Hg Hadm]. apply add_locked_nil in Hg as [_ Hlis].
  match type of Ha with (match ?x with _ => _ end = _) => destruct x as [on|] eqn:Hon; [|done] end.
  destruct (override_routes ∅ (routes next)) as [|rs] eqn:Hrs; [done|]. injection Ha as <-.
  unfold effective. cbn [server admin routes override_server override_admin listen_addr admin_listen admin_token
    forwarded_for_header trusted_proxy_cidrs server_tls tls_enabled tls_cert tls_key].
  split; [|split; [|split; [|split; [|split; [|split; [|split; [|split]]]]]]];
    try (intros Hne; apply unmanaged_string; by eapply string_unmanaged).
  - intros Hne. apply managed_default, not_true_is_false. intros Hm. apply Hne. specialize (Hcidr Hm).
    by apply negb_false_iff, bool_decide_eq_true in Hcidr.
  - intros Hne. assert (managed "EDGEPROXY_TLS_ENABLED" = false) as Hm.
    { apply not_true_is_false. intros Hm. apply Hne. specialize (Htls Hm). by apply negb_false_iff, eqb_prop in Htls. }
    rewrite (managed_default "EDGEPROXY_TLS_ENABLED" parse_bool _ Hm) in Hon. by injection Hon.
  - intros i r Hi Hfirst Hurls. eapply override_routes_unmanaged; [done|done|]. apply not_true_is_false. intros Hm.
    apply Forall_app in Hp as [Hp1 Hp2]. pose proof (proj1 (Forall_lookup _ _) Hp2 i r Hi) as [R1 R2].
    destruct (Hr r) as [Hin|(r' & Hin & Hlow & Hch)].
    + apply elem_of_app. right. by eapply list_elem_of_lookup_2.
    + by rewrite R2.
    + by apply not_elem_of_nil in Hin.
    + assert (plain_name r') as [Q1 Q2].
      { apply elem_of_app in Hin as [Hin|Hin]; [apply (proj1 (Forall_forall _ _) Hp1 r' Hin)|apply (proj1 (Forall_forall _ _) Hp2 r' Hin)]. }
      rewrite Q2, R2, !to_lower_ascii_fmap in Hlow by done. rewrite Q2 in Hch. revert Hch. unfold route_changed.
      rewrite !(routeByName_lower _ (route_name r') (route_name r)), Hfirst by done.
      destruct (routeByName (routes current) (route_name r)) as [r0|] eqn:E0; [|done].
      intros Hs%negb_false_iff%bool_decide_eq_true. by apply (Hurls r0).
Qed.

End env.

(** ** A sample update

    The token and the URLs of one route are managed; the update moves the
    listener and the origin of another route. *)

Section sample.

#[local] Instance sample_unicode : Unicode := unicode_ascii.

Definition sample_env : environment := λ key,
  if key =?s "EDGEPROXY_ADMIN_TOKEN" then Some (lit " secret ")
  else if key =?s "EDGEPROXY_ROUTE_APP_ONE_UPSTREAM_URLS" then Some (lit "http://x, http://y")
  else None.

Definition sample_route (name url : string) : RouteConfig :=
  mkRoute name [lit "*"] "/" false false [mkUpstreamCfg "u" url false 3 0] (mkLB [] f_zero f_zero)
    (mkProxy 1 1 1 1 0 0 1 1 1) (mkCacheCfg false 0 0 0 0 0 false false false false [] []) (mkHealth false [] 0 0 []).
Definition sample_update (listen : string) (url : string) : Config :=
  mkConfig (mkServer listen [] "X-Forwarded-For" 1 1 1 1 1 1 (mkTLS false [] [])) (admin Default)
    [sample_route "App one" "http://a"; sample_route "two" url].

Example sample_override : ApplyEnvironmentOverrides sample_env (sample_update ":1" "http://b")
  = inr (mkConfig (server (sample_update ":1" "http://b")) (mkAdmin true "127.0.0.1:9090" "secret" (admin_log (admin Default)))
      [with_upstreams [mkUpstreamCfg "u" "http://x" false 3 0; mkUpstreamCfg [] "http://y" false 0 0] (sample_route "App one" "http://a");
       sample_route "two" "http://b"]).
Proof. by vm_compute. Qed.

Lemma changes_take_effect_witness : ∃ cfg, ApplyEnvironmentOverrides sample_env (sample_update ":2" "http://c") = inr cfg
  ∧ listen_addr (server cfg) = lit ":2" ∧ routes cfg !! 1%nat = Some (sample_route "two" "http://c").
Proof.
  eexists. split; [vm_compute; reflexivity|].
  destruct (changes_take_effect sample_env (sample_update ":1" "http://b") (sample_update ":2" "http://c") _
    ltac:(vm_compute; reflexivity) ltac:(vm_compute; reflexivity)) as (W1 & _ & _ & _ & _ & _ & _ & _ & W2).
  - repeat (constructor; [split; by vm_compute|]). constructor.
  - split; [exact (W1 ltac:(vm_compute; congruence))|]. apply (W2 1%nat (sample_route "two" "http://c")); [done|by vm_compute|].
    intros r0 Hr0. vm_compute in Hr0. injection Hr0 as <-. intros E. vm_compute in E. discriminate E.
Defined.

End sample.
End Environment.
