(* ===== verification/Cache.v ===== *)
(** * The HTTP cache: apps/edgeproxy/internal/cache/cache.go

    The concrete state is the code's: a doubly linked list of elements, most
    recently used first, and an index from keys to elements of that list.  An
    element is its identity (the pointer) and its value; the list is the
    sequence of its elements.  Every method holds the mutex for its whole body,
    so methods are atomic.

    The abstract specification is a bounded LRU list of (key, entry) pairs;
    the refinement theorems say that each method implements its abstract
    counterpart and preserves the representation invariant. *)

From S2P Require Import Prelude GoStr GoPath GoHttp.

Module Cache.

Record Entry := mkEntry {
  StatusCode : Z;
  Header : header;
  Body : str;
  StoredAt : time;
  ExpiresAt : time;
  StaleUntil : time;
}.

Definition zero_entry : Entry := mkEntry 0 ∅ [] time_zero time_zero time_zero.

Definition header_size (h : header) : Z := zsum (λ '(k, vs), len k + zsum len vs) (map_to_list h).
Definition entry_size (e : Entry) : Z := len (Body e) + header_size (Header e).

Record item := mkItem { key : str; entry : Entry; size : Z }.

(** A [*list.Element]: identity and value. *)
Abbreviation element := (nat * item)%type.

Record Cache := mkCache {
  maxEntries : Z;
  maxBytes : Z;
  bytes : Z;
  ll : list element;
  items : gmap str element;
  evictions : Z;
  fresh_id : nat;      (* the next pointer allocated by PushFront *)
}.

Definition New (maxEntries maxBytes : Z) : Cache := mkCache maxEntries maxBytes 0 [] ∅ 0 0.

(** [list.Remove] and [list.MoveToFront] *)
Definition list_remove (e : element) (l : list element) : list element := filter (λ x, fst x ≠ fst e) l.
Definition list_move_to_front (e : element) (l : list element) : list element := e :: list_remove e l.

Definition removeElement (e : element) (eviction : bool) (c : Cache) : Cache :=
  let it := snd e in
  mkCache (maxEntries c) (maxBytes c) (bytes c - size it) (list_remove e (ll c)) (delete (key it) (items c))
          (if eviction then wrapu64 (evictions c + 1) else evictions c) (fresh_id c).

Definition removeOldest (c : Cache) : Cache :=
  match last (ll c) with
  | Some e => removeElement e true c
  | None => c
  end.

(** [for c.ll.Len() > c.maxEntries || c.bytes > c.maxBytes { c.removeOldest() }];
    [None] means that the given number of iterations was not enough. *)
Fixpoint evict_loop (fuel : nat) (c : Cache) : option Cache :=
  if (maxEntries c <? len (ll c)) || (maxBytes c <? bytes c) then
    match fuel with
    | O => None
    | S fuel => evict_loop fuel (removeOldest c)
    end
  else Some c.

Definition Get (k : str) (now : time) (c : Cache) : (Entry * bool * bool) * Cache :=
  match items c !! k with
  | None => ((zero_entry, false, false), c)
  | Some e =>
      let en := entry (snd e) in
      if time_after now (StaleUntil en) then ((zero_entry, false, false), removeElement e false c)
      else
        let c' := mkCache (maxEntries c) (maxBytes c) (bytes c) (list_move_to_front e (ll c))
                          (items c) (evictions c) (fresh_id c) in
        if time_before now (ExpiresAt en) || time_equal now (ExpiresAt en)
        then ((en, true, false), c') else ((en, false, true), c')
  end.

Definition Set_ (k : str) (en : Entry) (c : Cache) : option (bool * Cache) :=
  let sz := entry_size en + len k in
  if (sz <=? 0) || (maxBytes c <? sz) then Some (false, c)
  else
    let c := match items c !! k with Some e => removeElement e false c | None => c end in
    let e := (fresh_id c, mkItem k en sz) in
    let c := mkCache (maxEntries c) (maxBytes c) (bytes c + sz) (e :: ll c) (<[k := e]> (items c))
                     (evictions c) (S (fresh_id c)) in
    c' ← evict_loop (length (ll c)) c; Some (true, c').

Definition Delete (k : str) (c : Cache) : bool * Cache :=
  match items c !! k with
  | None => (false, c)
  | Some e => (true, removeElement e false c)
  end.

Section purge.
Context {U : Unicode} {N : NetURL}.
(** [keyRequest] is the callback that recovers host and URI from a key. *)
Context (keyRequest : str → option (str * str)).

Definition purgePathMatches (requestURI prefix : str) : bool :=
  match ParseRequestURI_path requestURI with
  | None => false
  | Some p =>
      let requestPath := canonicalRequestPath p in
      if (prefix =?s "/") || (requestPath =?s prefix) then true
      else has_prefix requestPath prefix && (len prefix <? len requestPath)
           && bool_decide (requestPath !! length prefix = Some slash)
  end.

(** Whether [Purge] (resp. [PurgeRequest]) removes the entry under a key. *)
Definition purge_key (host pathPrefix k : str) : bool :=
  match keyRequest k with
  | None => false
  | Some (keyHost, requestURI) =>
      if negb (host =?s []) && negb (keyHost =?s host) then false
      else if negb (pathPrefix =?s []) && negb (purgePathMatches requestURI pathPrefix) then false
      else true
  end.
Definition purge_request_key (host requestURI k : str) : bool :=
  match keyRequest k with
  | None => false
  | Some (keyHost, keyURI) => (keyHost =?s host) && (keyURI =?s requestURI)
  end.

(** The loop over [c.items]; [order] is the order in which the runtime
    happens to visit the map. *)
Definition purge_loop (sel : str → bool) (order : list (str * element)) (c : Cache) : Z * Cache :=
  foldl (λ acc ke, if sel (fst ke) then (fst acc + 1, removeElement (snd ke) false (snd acc)) else acc)
        (0, c) order.

Definition Purge (host pathPrefix : str) (order : list (str * element)) (c : Cache) : Z * Cache :=
  purge_loop (purge_key (to_lower (trim_space host)) pathPrefix) order c.
Definition PurgeRequest (host requestURI : str) (order : list (str * element)) (c : Cache) : Z * Cache :=
  purge_loop (purge_request_key (to_lower (trim_space host)) requestURI) order c.
End purge.

Definition Clear (c : Cache) : Z * Cache :=
  (Z.of_nat (base.size (items c)), mkCache (maxEntries c) (maxBytes c) 0 [] ∅ (evictions c) (fresh_id c)).

(** (Entries, Bytes, Evictions) *)
Definition Stats (c : Cache) : Z * Z * Z := (len (ll c), bytes c, evictions c).

(** ** Abstract specification: a bounded LRU list *)

Module LRU.
Abbreviation lru := (list (str * Entry)).

Definition weight (p : str * Entry) : Z := entry_size (snd p) + len (fst p).
Definition total (l : lru) : Z := zsum weight l.
Definition find (k : str) (l : lru) : option Entry := snd <$> (head (filter (λ p, fst p = k) l)).
Definition drop_key (k : str) (l : lru) : lru := filter (λ p, fst p ≠ k) l.

(** Drop from the back until both limits hold. *)
Fixpoint evict (fuel : nat) (mE mB : Z) (l : lru) : lru :=
  if (mE <? len l) || (mB <? total l) then
    match fuel with O => l | S fuel => evict fuel mE mB (removelast l) end
  else l.

Definition get (k : str) (now : time) (l : lru) : (Entry * bool * bool) * lru :=
  match find k l with
  | None => ((zero_entry, false, false), l)
  | Some e =>
      if StaleUntil e <? now then ((zero_entry, false, false), drop_key k l)
      else ((e, now <=? ExpiresAt e, ExpiresAt e <? now), (k, e) :: drop_key k l)
  end.
Definition set (mE mB : Z) (k : str) (e : Entry) (l : lru) : bool * lru :=
  let w := entry_size e + len k in
  if (w <=? 0) || (mB <? w) then (false, l)
  else let l' := (k, e) :: drop_key k l in (true, evict (length l') mE mB l').
Definition purge (sel : str → bool) (l : lru) : lru := filter (λ p, sel (fst p) = false) l.
End LRU.

Definition pair_of (e : element) : str * Entry := (key (snd e), entry (snd e)).
Definition abs (c : Cache) : list (str * Entry) := pair_of <$> ll c.

(** ** The representation invariant *)

Record Inv (c : Cache) : Prop := {
  inv_ids : NoDup (fst <$> ll c);
  inv_index : ∀ k e, items c !! k = Some e ↔ e ∈ ll c ∧ key (snd e) = k;
  inv_size : ∀ e, e ∈ ll c → size (snd e) = LRU.weight (pair_of e);
  inv_fresh : ∀ e, e ∈ ll c → (fst e < fresh_id c)%nat;
  inv_bytes : bytes c = LRU.total (abs c);
}.

(** The limits that every public operation re-establishes. *)
Definition Bounded (c : Cache) : Prop := len (ll c) <= maxEntries c ∧ bytes c <= maxBytes c.
#[export] Instance Bounded_dec c : Decision (Bounded c) := _.

(** ** Lemmas on the invariant *)

Section inv.
Context (c : Cache) (HI : Inv c).

Lemma inv_key_inj x y : x ∈ ll c → y ∈ ll c → key (snd x) = key (snd y) → x = y.
Proof.
  intros Hx Hy Hk. assert (items c !! key (snd x) = Some x) as H1 by by apply inv_index.
  assert (items c !! key (snd x) = Some y) as H2 by by apply inv_index. congruence.
Qed.

Lemma inv_same x y : x ∈ ll c → y ∈ ll c → fst x = fst y ↔ key (snd x) = key (snd y).
Proof.
  intros Hx Hy. split; intros H.
  - by rewrite (NoDup_fmap_eq fst (ll c) x y) by (done || apply HI).
  - by rewrite (inv_key_inj x y).
Qed.

Lemma abs_list_remove e : e ∈ ll c → pair_of <$> list_remove e (ll c) = LRU.drop_key (key (snd e)) (abs c).
Proof.
  intros He. apply fmap_filter_ext. intros x Hx. simpl. by rewrite inv_same.
Qed.

Lemma find_abs k : LRU.find k (abs c) = entry ∘ snd <$> items c !! k.
Proof.
  unfold LRU.find, abs. rewrite <- (fmap_filter_ext pair_of (λ e : element, key (snd e) = k) (λ p, fst p = k)) by done.
  destruct (items c !! k) as [e|] eqn:Hk.
  - apply inv_index in Hk as [He <-]; [|done].
    assert (filter (λ x : element, key (snd x) = key (snd e)) (ll c) ≡ₚ [e]) as Hp.
    { rewrite (filter_id_perm fst e (ll c)) at 1 by (done || apply HI).
      rewrite filter_cons_True by done. rewrite filter_none; [done|].
      intros x [Hne Hx]%list_elem_of_filter. by rewrite <- inv_same. }
    apply Permutation_singleton_r in Hp. by rewrite Hp.
  - rewrite filter_none; [done|]. intros x Hx Hkx.
    assert (items c !! k = Some x) by by apply inv_index. congruence.
Qed.

Lemma abs_drop_missing k : items c !! k = None → LRU.drop_key k (abs c) = abs c.
Proof.
  intros Hk. apply filter_all. intros p Hp.
  apply list_elem_of_fmap in Hp as (x & -> & Hx). simpl. intros Heq.
  assert (items c !! k = Some x) by by apply inv_index. congruence.
Qed.

Lemma removeElement_inv e ev : e ∈ ll c →
  Inv (removeElement e ev c) ∧ abs (removeElement e ev c) = LRU.drop_key (key (snd e)) (abs c).
Proof.
  intros He. pose proof (abs_list_remove e He) as Habs. split; [|exact Habs].
  pose proof (filter_id_perm fst e (ll c) ltac:(apply HI) He) as Hperm.
  constructor; simpl.
  - eapply sublist_NoDup; [apply HI|]. apply fmap_sublist, sublist_filter.
  - intros k x. unfold list_remove. rewrite lookup_delete_Some, inv_index, list_elem_of_filter by done.
    split; [intros (Hk & Hx & <-); split_and!; try done; rewrite inv_same by done; naive_solver|].
    intros ((Hne & Hx) & <-). split_and!; try done. rewrite <- inv_same by done. naive_solver.
  - intros x [_ Hx]%list_elem_of_filter. by apply HI.
  - intros x [_ Hx]%list_elem_of_filter. by apply HI.
  - rewrite (inv_bytes _ HI). unfold abs, LRU.total.
    rewrite (zsum_Permutation LRU.weight (pair_of <$> ll c) (pair_of <$> e :: list_remove e (ll c))).
    + rewrite fmap_cons, zsum_cons, (inv_size _ HI e He). apply Z.add_simpl_l.
    + by rewrite <- Hperm.
Qed.

Lemma drop_key_length k : len (LRU.drop_key k (abs c)) <= len (abs c).
Proof. unfold len, LRU.drop_key. pose proof (length_filter (λ p : str * Entry, fst p ≠ k) (abs c)). lia. Qed.
End inv.

Lemma entry_size_nonneg e : 0 <= entry_size e.
Proof.
  unfold entry_size, header_size. pose proof (len_nonneg (Body e)).
  assert (0 <= zsum (λ '(k, vs), len k + zsum len vs) (map_to_list (Header e))); [|lia].
  apply zsum_nonneg. intros [k vs] _. pose proof (len_nonneg k).
  assert (0 <= zsum len vs) by (apply zsum_nonneg; intros; apply len_nonneg). lia.
Qed.
Lemma weight_nonneg p : 0 <= LRU.weight p.
Proof. unfold LRU.weight. pose proof (entry_size_nonneg (snd p)). pose proof (len_nonneg (fst p)). lia. Qed.
Lemma total_nonneg l : 0 <= LRU.total l.
Proof. apply zsum_nonneg. intros. apply weight_nonneg. Qed.

Lemma total_filter_le (P : str * Entry → Prop) `{DP : ∀ p, Decision (P p)} l : LRU.total (filter P l) <= LRU.total l.
Proof.
  unfold LRU.total. rewrite (zsum_filter_split LRU.weight P l).
  pose proof (total_nonneg (filter (λ p, ¬ P p) l)) as H. unfold LRU.total in H. lia.
Qed.

Lemma removeElement_bounded c e ev : Inv c → e ∈ ll c → Bounded c → Bounded (removeElement e ev c).
Proof.
  intros HI He [H1 H2]. destruct (removeElement_inv c HI e ev He) as [HI' Ha]. split.
  - simpl. unfold list_remove, len in *. pose proof (length_filter (λ x : element, fst x ≠ fst e) (ll c)). lia.
  - rewrite (inv_bytes _ HI'), Ha. rewrite (inv_bytes _ HI) in H2.
    etrans; [apply total_filter_le | exact H2].
Qed.

(** The empty list of entries satisfies both limits. *)
Lemma inv_empty_bytes c : Inv c → ll c = [] → bytes c = 0.
Proof. intros HI Hl. rewrite (inv_bytes _ HI). unfold abs. by rewrite Hl. Qed.

Lemma removeOldest_snoc c l e : Inv c → ll c = l ++ [e] →
  Inv (removeOldest c) ∧ ll (removeOldest c) = l ∧ abs (removeOldest c) = removelast (abs c).
Proof.
  intros HI Hl. unfold removeOldest. rewrite Hl, last_snoc.
  assert (e ∈ ll c) as He by (rewrite Hl; set_solver).
  destruct (removeElement_inv c HI e true He) as [HI' _].
  assert (ll (removeElement e true c) = l) as Hll.
  { simpl. unfold list_remove. rewrite Hl, filter_app. simpl.
    rewrite filter_cons_False by naive_solver. rewrite filter_nil, app_nil_r.
    apply filter_all. intros x Hx Heq.
    pose proof (inv_ids _ HI) as Hnd. rewrite Hl, fmap_app in Hnd.
    apply NoDup_app in Hnd as (_ & Hd & _). apply (Hd (fst x)); [by apply list_elem_of_fmap_2|].
    rewrite Heq. set_solver. }
  split_and!; [done..|]. unfold abs. rewrite Hll, Hl, fmap_app. simpl. by rewrite removelast_last.
Qed.

Lemma abs_len c : len (abs c) = len (ll c).
Proof. unfold len, abs. by rewrite length_fmap. Qed.

Lemma evict_loop_done fuel c : Bounded c → evict_loop fuel c = Some c.
Proof.
  intros [H1 H2]. destruct fuel; simpl; by rewrite (proj2 (Z.ltb_ge _ _) H1), (proj2 (Z.ltb_ge _ _) H2).
Qed.
Lemma lru_evict_done fuel mE mB l : len l <= mE → LRU.total l <= mB → LRU.evict fuel mE mB l = l.
Proof.
  intros H1 H2. destruct fuel; simpl; by rewrite (proj2 (Z.ltb_ge _ _) H1), (proj2 (Z.ltb_ge _ _) H2).
Qed.

Lemma evict_loop_total fuel c : Inv c → 0 <= maxEntries c → 0 <= maxBytes c → (length (ll c) <= fuel)%nat →
  ∃ c', evict_loop fuel c = Some c' ∧ Inv c' ∧ Bounded c'
    ∧ maxEntries c' = maxEntries c ∧ maxBytes c' = maxBytes c
    ∧ abs c' = LRU.evict fuel (maxEntries c) (maxBytes c) (abs c).
Proof.
  revert c. induction fuel as [|fuel IH]; intros c HI HE HB Hf.
  - assert (ll c = []) as Hl by (apply length_zero_iff_nil; lia).
    assert (Bounded c) as Hb.
    { split; [by rewrite Hl, len_nil | by rewrite (inv_empty_bytes c)]. }
    exists c. rewrite evict_loop_done, lru_evict_done; try done.
    + rewrite abs_len. apply Hb.
    + rewrite <- (inv_bytes _ HI). apply Hb.
  - destruct (decide (Bounded c)) as [Hb|Hb].
    { exists c. rewrite evict_loop_done, lru_evict_done; try done.
      + rewrite abs_len. apply Hb.
      + rewrite <- (inv_bytes _ HI). apply Hb. }
    assert ((maxEntries c <? len (ll c)) || (maxBytes c <? bytes c) = true) as Hc.
    { apply orb_true_iff. rewrite !Z.ltb_lt. unfold Bounded in Hb. lia. }
    simpl. rewrite abs_len, <- (inv_bytes _ HI), Hc.
    destruct (ll c) as [|e l _] eqn:Hl using rev_ind.
    { destruct Hb. split; [by rewrite Hl, len_nil | by rewrite (inv_empty_bytes c)]. }
    destruct (removeOldest_snoc c l e HI Hl) as (HI' & Hll & Ha).
    assert (maxEntries (removeOldest c) = maxEntries c ∧ maxBytes (removeOldest c) = maxBytes c) as [E1 E2]
      by (unfold removeOldest; by destruct (last (ll c))).
    destruct (IH (removeOldest c)) as (c' & Hr & Hi & Hb' & Hm1 & Hm2 & Habs); [done|lia|lia| |].
    { rewrite Hll. rewrite length_app in Hf. simpl in Hf. lia. }
    exists c'. rewrite Habs, E1, E2, Ha. split_and!; congruence || done.
Qed.

Lemma inv_perm c c' : Inv c → ll c' ≡ₚ ll c → items c' = items c → bytes c' = bytes c →
  fresh_id c' = fresh_id c → Inv c'.
Proof.
  intros HI Hp Hi Hb Hf. constructor.
  - rewrite Hp. apply HI.
  - intros k e. rewrite Hi, Hp. by apply HI.
  - intros e. rewrite Hp. apply HI.
  - intros e. rewrite Hp, Hf. apply HI.
  - rewrite Hb, (inv_bytes _ HI). unfold LRU.total. apply zsum_Permutation. unfold abs. by rewrite Hp.
Qed.

(** Removing the element indexed under [k], if any. *)
Definition without (k : str) (c : Cache) : Cache :=
  match items c !! k with Some e => removeElement e false c | None => c end.

Lemma without_inv c k : Inv c →
  Inv (without k c) ∧ abs (without k c) = LRU.drop_key k (abs c) ∧ items (without k c) !! k = None.
Proof.
  intros HI. unfold without. destruct (items c !! k) as [e|] eqn:Hk.
  - apply inv_index in Hk as [He <-]; [|done]. destruct (removeElement_inv c HI e false He) as [HI' Ha].
    split_and!; [done..|]. simpl. apply lookup_delete_eq.
  - by rewrite abs_drop_missing.
Qed.

Lemma push_inv c k en : Inv c → items c !! k = None →
  let e := (fresh_id c, mkItem k en (entry_size en + len k)) in
  Inv (mkCache (maxEntries c) (maxBytes c) (bytes c + (entry_size en + len k)) (e :: ll c)
               (<[k := e]> (items c)) (evictions c) (S (fresh_id c))).
Proof.
  intros HI Hk e. constructor; cbn [ll items bytes fresh_id].
  - rewrite fmap_cons. apply NoDup_cons. split; [|apply HI]. intros Hin.
    apply list_elem_of_fmap in Hin as (x & Hx & Hin). simpl in Hx. apply (inv_fresh _ HI) in Hin. lia.
  - intros k' x. rewrite lookup_insert_Some, inv_index, elem_of_cons by done. split.
    + intros [[<- <-]|(Hne & Hx & Hkx)]; [by split; [left|]|]. split; [by right | done].
    + intros [[->|Hx] <-]; [by left|]. right. split_and!; [|done..]. intros Heq.
      assert (items c !! k = Some x) by (rewrite Heq; by apply inv_index). congruence.
  - intros x [->|Hx]%elem_of_cons; [done | by apply HI].
  - intros x [->|Hx]%elem_of_cons; simpl; [lia|]. apply (inv_fresh _ HI) in Hx. lia.
  - rewrite (inv_bytes _ HI). unfold abs, LRU.total. cbn [ll]. rewrite fmap_cons, zsum_cons.
    rewrite Z.add_comm. done.
Qed.

(** ** The operations implement the specification *)

(** [Get] returns what the LRU list says and makes the entry most recent. *)
Lemma Get_refines c k now : Inv c →
  Inv (snd (Get k now c)) ∧ (Bounded c → Bounded (snd (Get k now c)))
  ∧ (fst (Get k now c), abs (snd (Get k now c))) = LRU.get k now (abs c).
Proof.
  intros HI. unfold Get, LRU.get. rewrite find_abs by done.
  destruct (items c !! k) as [e|] eqn:Hk; [|done]. simpl.
  apply inv_index in Hk as [He <-]; [|done]. unfold_time.
  destruct (_ <? now); simpl.
  - destruct (removeElement_inv c HI e false He) as [HI' Ha].
    split_and!; [done | by apply removeElement_bounded | by rewrite Ha].
  - set (c' := mkCache _ _ _ _ _ _ _).
    assert (ll c' ≡ₚ ll c) as Hp.
    { simpl. symmetry. apply (filter_id_perm fst); [apply HI | done]. }
    assert (Inv c') as HI' by by eapply inv_perm.
    assert (abs c' = pair_of e :: LRU.drop_key (key (snd e)) (abs c)) as Ha.
    { unfold abs at 1. simpl. by rewrite abs_list_remove. }
    assert (Bounded c → Bounded c') as Hb.
    { unfold Bounded. simpl. intros [H1 H2]. split; [|done].
      change (len (ll c') <= maxEntries c). unfold len in *. by rewrite Hp. }
    destruct (_ || _) eqn:Hc; simpl; rewrite Ha; split_and!; try done; f_equal; f_equal; f_equal.
    + apply orb_true_iff in Hc. symmetry. destruct Hc; boolify; [apply Z.leb_le | apply Z.leb_le]; lia.
    + apply orb_true_iff in Hc. symmetry. destruct Hc; boolify; apply Z.ltb_ge; lia.
    + apply orb_false_iff in Hc as [? ?]. symmetry. boolify. apply Z.leb_gt. lia.
    + apply orb_false_iff in Hc as [? ?]. symmetry. boolify. apply Z.ltb_lt. lia.
Qed.

(** [Set] always terminates, stores the entry in front and evicts from the back. *)
Lemma Set_refines c k en : Inv c → 0 <= maxEntries c → 0 <= maxBytes c →
  ∃ ok c', Set_ k en c = Some (ok, c') ∧ Inv c' ∧ (ok = true ∨ Bounded c → Bounded c')
    ∧ maxEntries c' = maxEntries c ∧ maxBytes c' = maxBytes c
    ∧ (ok, abs c') = LRU.set (maxEntries c) (maxBytes c) k en (abs c).
Proof.
  intros HI HE HB. unfold Set_, LRU.set.
  destruct (_ || _) eqn:Hsz; [by exists false, c; split_and!; try done; intros [?|?]|].
  fold (without k c). destruct (without_inv c k HI) as (HI1 & Ha1 & Hk1).
  assert (maxEntries (without k c) = maxEntries c ∧ maxBytes (without k c) = maxBytes c) as [E1 E2]
    by (unfold without; by destruct (items c !! k)).
  pose proof (push_inv _ k en HI1 Hk1) as HI2. simpl in HI2.
  set (c2 := mkCache _ _ _ _ _ _ _) in *.
  destruct (evict_loop_total (length (ll c2)) c2) as (c' & Hr & Hi & Hb & Hm1 & Hm2 & Habs);
    [done|simpl; lia|simpl; lia|done|].
  exists true, c'. rewrite Hr. simpl in Hm1, Hm2. split_and!; try (done || congruence).
  rewrite Habs. simpl. rewrite E1, E2. f_equal.
  assert (abs c2 = (k, en) :: LRU.drop_key k (abs c)) as -> by (unfold abs at 1; simpl; by rewrite <- Ha1).
  f_equal. rewrite <- Ha1. unfold abs. by rewrite length_fmap.
Qed.

Lemma Delete_refines c k : Inv c →
  Inv (snd (Delete k c)) ∧ (Bounded c → Bounded (snd (Delete k c)))
  ∧ abs (snd (Delete k c)) = LRU.drop_key k (abs c)
  ∧ fst (Delete k c) = bool_decide (is_Some (LRU.find k (abs c))).
Proof.
  intros HI. destruct (without_inv c k HI) as (HI1 & Ha1 & Hk1). unfold Delete, without in *.
  rewrite find_abs by done. destruct (items c !! k) as [e|] eqn:Hk; simpl; split_and!; try done.
  apply removeElement_bounded; [done|]. by apply inv_index in Hk as [??].
Qed.

(** ** Eviction order *)

(** Eviction keeps a prefix of the list, and no shorter one than necessary. *)
Definition keeps_needed (mE mB : Z) (l kept : list (str * Entry)) : Prop :=
  ∃ n, (n <= length l)%nat ∧ kept = take n l
    ∧ ((n < length l)%nat → mE < len (take (S n) l) ∨ mB < LRU.total (take (S n) l)).

Lemma lru_evict_minimal fuel mE mB l : (length l <= fuel)%nat → 0 <= mE → 0 <= mB →
  keeps_needed mE mB l (LRU.evict fuel mE mB l).
Proof.
  revert l. induction fuel as [|fuel IH]; intros l Hf HE HB.
  - assert (l = []) as -> by (apply length_zero_iff_nil; lia). exists 0%nat.
    simpl. split_and!; [done| by destruct (_ || _) | lia].
  - simpl. destruct (_ || _) eqn:Hc.
    + destruct l as [|p l _] using rev_ind.
      { apply orb_true_iff in Hc. unfold LRU.total in Hc. simpl in Hc. rewrite len_nil in Hc.
        destruct Hc; boolify; lia. }
      rewrite removelast_last. rewrite length_app in Hf. simpl in Hf.
      destruct (IH l) as (n & Hn & -> & Hmin); [lia|done|done|].
      exists n. rewrite length_app. simpl. split_and!; [lia| by rewrite take_app_le |].
      intros _. destruct (decide (n < length l)%nat) as [Hlt|Hge].
      * rewrite take_app_le by lia. by apply Hmin.
      * assert (n = length l) as -> by lia.
        rewrite take_ge by (rewrite length_app; simpl; lia).
        apply orb_true_iff in Hc. rewrite !Z.ltb_lt in Hc. done.
    + exists (length l). split_and!; [done| by rewrite firstn_all | lia].
Qed.

(** [Set] returning true keeps the new entry and evicts only from the least
    recently used end, and only as far as the limits require. *)
Lemma Set_evicts_aux c k en c' : Inv c → 1 <= maxEntries c → 0 <= maxBytes c →
  Set_ k en c = Some (true, c') →
  keeps_needed (maxEntries c) (maxBytes c) ((k, en) :: LRU.drop_key k (abs c)) (abs c')
  ∧ LRU.find k (abs c') = Some en.
Proof.
  intros HI HE HB HS. destruct (Set_refines c k en) as (ok & c2 & HS2 & _ & _ & _ & _ & Hl); [done|lia|done|].
  rewrite HS in HS2. injection HS2 as <- <-. unfold LRU.set in Hl.
  destruct (_ || _) eqn:Hsz; [congruence|]. injection Hl as Habs.
  pose proof (lru_evict_minimal (length ((k, en) :: LRU.drop_key k (abs c))) (maxEntries c) (maxBytes c)
    ((k, en) :: LRU.drop_key k (abs c)) ltac:(done) ltac:(lia) HB) as Hk.
  simpl in Hk. simpl in Habs. rewrite <- Habs in Hk. split; [exact Hk|].
  destruct Hk as (n & _ & -> & Hmin). destruct n as [|n]; [|by (simpl; unfold LRU.find; rewrite filter_cons_True)].
  exfalso. apply orb_false_iff in Hsz as [_ Hsz]. boolify.
  destruct (Hmin ltac:(simpl; lia)) as [Hm|Hm].
  - change (maxEntries c < 1) in Hm. lia.
  - change (maxBytes c < entry_size en + len k + 0) in Hm. lia.
Qed.

(** ** Purging *)

Lemma purge_loop_gen sel order c n : Inv c → NoDup (fst <$> order) →
  (∀ k e, (k, e) ∈ order → items c !! k = Some e) →
  let r := foldl (λ acc ke, if sel (fst ke) : bool then (fst acc + 1, removeElement (snd ke) false (snd acc)) else acc)
             (n, c) order in
  Inv (snd r) ∧ (Bounded c → Bounded (snd r))
  ∧ abs (snd r) = filter (λ p, ¬ (sel (fst p) = true ∧ fst p ∈ (fst <$> order))) (abs c)
  ∧ fst r = n + (len (abs c) - len (abs (snd r))).
Proof.
  revert c n. induction order as [|[k e] order IH]; intros c n HI Hnd Hin; simpl.
  { split_and!; try done; [|lia]. symmetry. apply filter_all. intros p _ [_ H]. by apply not_elem_of_nil in H. }
  rewrite fmap_cons in Hnd. apply NoDup_cons in Hnd as [Hk Hnd]. simpl in Hk.
  destruct (sel k) eqn:Hsel.
  - assert (items c !! k = Some e) as Hke by (apply Hin; set_solver).
    pose proof Hke as [He Hkey]%inv_index; [|done].
    destruct (removeElement_inv c HI e false He) as [HI' Ha]. rewrite Hkey in Ha.
    destruct (IH (removeElement e false c) (n + 1)) as (H1 & H2 & H3 & H4); [done|done| |].
    { intros k' e' Hin'. simpl. rewrite lookup_delete_ne; [apply Hin; set_solver|].
      intros Heq. rewrite Hkey in Heq. subst k'. apply Hk. by apply (list_elem_of_fmap_2 fst) in Hin'. }
    split_and!; [done | intros; by apply H2, removeElement_bounded | |].
    + rewrite H3, Ha. unfold LRU.drop_key. rewrite list_filter_filter.
      apply list_filter_iff. intros p. rewrite elem_of_cons. simpl.
      destruct (decide (fst p = k)) as [->|]; [rewrite Hsel|]; tauto.
    + rewrite H4. assert (len (abs c) = 1 + len (abs (removeElement e false c))) as ->; [|lia].
      rewrite !abs_len. unfold len. simpl.
      rewrite (Permutation_length (filter_id_perm fst e (ll c) ltac:(apply HI) He)). unfold list_remove. simpl. lia.
  - destruct (IH c n) as (H1 & H2 & H3 & H4); [done|done| |].
    { intros k' e' Hin'. apply Hin. by constructor. }
    split_and!; try done. rewrite H3. apply list_filter_iff. intros p. rewrite elem_of_cons. simpl.
    destruct (decide (fst p = k)) as [->|]; [rewrite Hsel|]; intuition congruence.
Qed.

Lemma abs_keys_indexed c p : Inv c → p ∈ abs c → is_Some (items c !! fst p).
Proof.
  intros HI Hp. apply list_elem_of_fmap in Hp as (e & -> & He). exists e. by apply inv_index.
Qed.

(** Whatever order the map is visited in, purging removes exactly the selected
    entries, keeps the recency order of the others and returns their number. *)
Lemma purge_refines sel order c : Inv c → order ≡ₚ map_to_list (items c) →
  Inv (snd (purge_loop sel order c)) ∧ (Bounded c → Bounded (snd (purge_loop sel order c)))
  ∧ abs (snd (purge_loop sel order c)) = LRU.purge sel (abs c)
  ∧ fst (purge_loop sel order c) = len (filter (λ p, sel (fst p) = true) (abs c)).
Proof.
  intros HI Hord. unfold purge_loop.
  destruct (purge_loop_gen sel order c 0 HI) as (H1 & H2 & H3 & H4).
  { rewrite Hord. apply NoDup_fst_map_to_list. }
  { intros k e Hke. rewrite Hord in Hke. by apply elem_of_map_to_list in Hke. }
  assert (abs (snd (foldl (λ acc ke, if sel (fst ke) : bool then (fst acc + 1, removeElement (snd ke) false (snd acc)) else acc)
             (0, c) order)) = LRU.purge sel (abs c)) as Habs.
  { rewrite H3. unfold LRU.purge. rewrite <- (filter_all (λ p, fst p ∈ (fst <$> order)) (abs c)) at 1.
    - rewrite list_filter_filter. rewrite <- (filter_all (λ p, fst p ∈ (fst <$> order)) (abs c)) at 2.
      + rewrite list_filter_filter. apply list_filter_iff. intros p. destruct (sel (fst p)); naive_solver.
      + intros p Hp. apply (abs_keys_indexed c) in Hp as [e Hp]; [|done]. rewrite Hord.
        apply (list_elem_of_fmap_2 fst _ (fst p, e)). by apply elem_of_map_to_list.
    - intros p Hp. apply (abs_keys_indexed c) in Hp as [e Hp]; [|done]. rewrite Hord.
      apply (list_elem_of_fmap_2 fst _ (fst p, e)). by apply elem_of_map_to_list. }
  split_and!; try done. rewrite H4, Habs. unfold LRU.purge.
  pose proof (filter_app_complement (λ p : str * Entry, sel (fst p) = true) (abs c)) as Hc.
  apply Permutation_length in Hc. rewrite length_app in Hc.
  assert (filter (λ p : str * Entry, ¬ sel (fst p) = true) (abs c) = filter (λ p : str * Entry, sel (fst p) = false) (abs c)) as Hf.
  { apply list_filter_iff. intros p. by rewrite not_true_iff_false. }
  rewrite Hf in Hc. unfold len. lia.
Qed.

Lemma empty_inv c : ll c = [] → items c = ∅ → bytes c = 0 → Inv c.
Proof.
  intros Hl Hi Hb. unfold abs. constructor; unfold abs; rewrite ?Hl, ?Hi, ?Hb.
  - constructor.
  - intros k e. rewrite lookup_empty. set_solver.
  - intros e He. by apply not_elem_of_nil in He.
  - intros e He. by apply not_elem_of_nil in He.
  - done.
Qed.

Lemma Clear_refines c : Inv c →
  Inv (snd (Clear c)) ∧ (Bounded c → Bounded (snd (Clear c))) ∧ abs (snd (Clear c)) = []
  ∧ fst (Clear c) = len (abs c).
Proof.
  intros HI. split_and!; simpl.
  - by apply empty_inv.
  - intros [H1 H2]. pose proof (len_nonneg (ll c)).
    assert (0 <= bytes c) by (rewrite (inv_bytes _ HI); apply total_nonneg).
    split; simpl; [rewrite len_nil|]; lia.
  - done.
  - rewrite abs_len. unfold len. f_equal. rewrite <- length_map_to_list.
    rewrite <- (length_fmap snd). apply Permutation_length.
    apply NoDup_Permutation.
    + apply NoDup_fmap_2_strong; [|apply NoDup_map_to_list].
      intros [k1 e1] [k2 e2] H1%elem_of_map_to_list H2%elem_of_map_to_list Heq. simpl in Heq. subst.
      apply inv_index in H1 as [_ H1], H2 as [_ H2]; [|done..]. congruence.
    + eapply NoDup_fmap_1, HI.
    + intros e. rewrite list_elem_of_fmap. split.
      * intros ([k x] & -> & H%elem_of_map_to_list). by apply inv_index in H as [? _].
      * intros He. exists (key (snd e), e). split; [done|]. apply elem_of_map_to_list. by apply inv_index.
Qed.

(** ** The cache as a transition system, and the refinement *)

Inductive op :=
  | OpGet (k : str) (now : time)
  | OpSet (k : str) (e : Entry)
  | OpDelete (k : str)
  | OpPurge (sel : str → bool)    (* [Purge] and [PurgeRequest], by the keys they select *)
  | OpClear
  | OpStats.

Inductive output :=
  | OutGet (r : Entry * bool * bool)
  | OutBool (b : bool)
  | OutCount (n : Z)
  | OutStats (entries bytes : Z).

(** One method call; a purge visits the map in any order. *)
Inductive step : Cache → op → output → Cache → Prop :=
  | step_get c k now : step c (OpGet k now) (OutGet (fst (Get k now c))) (snd (Get k now c))
  | step_set c k e ok c' : Set_ k e c = Some (ok, c') → step c (OpSet k e) (OutBool ok) c'
  | step_delete c k : step c (OpDelete k) (OutBool (fst (Delete k c))) (snd (Delete k c))
  | step_purge c sel order : order ≡ₚ map_to_list (items c) →
      step c (OpPurge sel) (OutCount (fst (purge_loop sel order c))) (snd (purge_loop sel order c))
  | step_clear c : step c OpClear (OutCount (fst (Clear c))) (snd (Clear c))
  | step_stats c : step c OpStats (OutStats (fst (fst (Stats c))) (snd (fst (Stats c)))) c.

Inductive steps : Cache → list (op * output) → Cache → Prop :=
  | steps_nil c : steps c [] c
  | steps_cons c o out c' tr c'' : step c o out c' → steps c' tr c'' → steps c ((o, out) :: tr) c''.

Definition lru_step (mE mB : Z) (o : op) (l : list (str * Entry)) : output * list (str * Entry) :=
  match o with
  | OpGet k now => let r := LRU.get k now l in (OutGet (fst r), snd r)
  | OpSet k e => let r := LRU.set mE mB k e l in (OutBool (fst r), snd r)
  | OpDelete k => (OutBool (bool_decide (is_Some (LRU.find k l))), LRU.drop_key k l)
  | OpPurge sel => (OutCount (len (filter (λ p, sel (fst p) = true) l)), LRU.purge sel l)
  | OpClear => (OutCount (len l), [])
  | OpStats => (OutStats (len l) (LRU.total l), l)
  end.

Fixpoint lru_run (mE mB : Z) (ops : list op) (l : list (str * Entry)) : list output * list (str * Entry) :=
  match ops with
  | [] => ([], l)
  | o :: ops => let r := lru_step mE mB o l in
                let r' := lru_run mE mB ops (snd r) in (fst r :: fst r', snd r')
  end.

(** What every reachable state satisfies. *)
Definition Good (mE mB : Z) (c : Cache) : Prop :=
  Inv c ∧ Bounded c ∧ maxEntries c = mE ∧ maxBytes c = mB ∧ 0 <= mE ∧ 0 <= mB.

Lemma purge_loop_limits sel order c : maxEntries (snd (purge_loop sel order c)) = maxEntries c
  ∧ maxBytes (snd (purge_loop sel order c)) = maxBytes c.
Proof.
  unfold purge_loop. generalize 0 as n. revert c. induction order as [|[k e] order IH]; intros c n; [done|].
  simpl. destruct (sel k); [|apply IH]. destruct (IH (removeElement e false c) (n + 1)) as [-> ->]. done.
Qed.

Lemma New_good mE mB : 0 <= mE → 0 <= mB → Good mE mB (New mE mB).
Proof.
  intros. split_and!; [by apply empty_inv | by split | done..].
Qed.

Lemma step_simulation mE mB c o out c' : Good mE mB c → step c o out c' →
  Good mE mB c' ∧ lru_step mE mB o (abs c) = (out, abs c').
Proof.
  intros (HI & HB & HmE & HmB & HE & HB0) Hs. inversion Hs; subst; cbn [lru_step].
  - destruct (Get_refines c k now HI) as (H1 & H2 & H3). rewrite <- H3.
    split; [|done]. unfold Good. split_and!; try (done || by apply H2); unfold Get; repeat case_goal; done.
  - destruct (Set_refines c k e HI HE HB0) as (ok' & c2 & HS & H1 & H2 & H3 & H4 & H5).
    rewrite H in HS. injection HS as <- <-. rewrite <- H5. split; [|done].
    unfold Good. split_and!; try done. apply H2. by right.
  - destruct (Delete_refines c k HI) as (H1 & H2 & -> & ->). split; [|done].
    unfold Good. split_and!; try (done || by apply H2); unfold Delete; repeat case_goal; done.
  - destruct (purge_refines sel order c HI H) as (H1 & H2 & -> & ->). split; [|done].
    destruct (purge_loop_limits sel order c). unfold Good. split_and!; done || by apply H2.
  - destruct (Clear_refines c HI) as (H1 & H2 & -> & ->). split; [|done]. unfold Good. split_and!; done || by apply H2.
  - split; [by unfold Good|]. cbn [Stats fst snd]. by rewrite abs_len, (inv_bytes _ HI).
Qed.

Lemma step_progress mE mB c o : Good mE mB c → ∃ out c', step c o out c'.
Proof.
  intros (HI & _ & <- & <- & HE & HB). destruct o as [k now|k e|k|sel| |].
  - do 2 eexists. constructor.
  - destruct (Set_refines c k e HI HE HB) as (ok & c' & HS & _). do 2 eexists. by constructor.
  - do 2 eexists. constructor.
  - do 2 eexists. by apply (step_purge c sel (map_to_list (items c))).
  - do 2 eexists. constructor.
  - do 2 eexists. constructor.
Qed.

Lemma steps_good mE mB c tr c' : Good mE mB c → steps c tr c' →
  Good mE mB c' ∧ lru_run mE mB (fst <$> tr) (abs c) = (snd <$> tr, abs c').
Proof.
  intros Hg Hs. induction Hs as [c|c o out c' tr c'' Hs Hss IH]; [done|].
  destruct (step_simulation _ _ _ _ _ _ Hg Hs) as [Hg' Heq].
  destruct (IH Hg') as [Hg'' Hrun]. split; [done|]. cbn. rewrite Heq. cbn. by rewrite Hrun.
Qed.

Lemma evict_elem fuel mE mB l p : p ∈ LRU.evict fuel mE mB l → p ∈ l.
Proof.
  revert l. induction fuel as [|fuel IH]; intros l; simpl; destruct (_ || _); try done.
  intros Hp%IH. destruct l as [|q l _] using rev_ind; [done|]. rewrite removelast_last in Hp. set_solver.
Qed.

(** What a [Set] can leave in the cache. *)
Lemma Set_elem mE mB c k en : Good mE mB c →
  ∃ ok c', Set_ k en c = Some (ok, c') ∧ Good mE mB c' ∧ ∀ p, p ∈ abs c' → p = (k, en) ∨ p ∈ abs c.
Proof.
  intros Hg. pose proof Hg as (HI & HB & HmE & HmB & HE & HB0).
  destruct (Set_refines c k en HI) as (ok & c' & HS & _ & _ & _ & _ & Habs); [lia..|].
  exists ok, c'. split; [done|].
  destruct (step_simulation mE mB c (OpSet k en) (OutBool ok) c' Hg) as [Hg' _]; [by constructor|]. split; [done|].
  intros p Hp. unfold LRU.set in Habs. apply (f_equal snd) in Habs. cbn [snd] in Habs.
  destruct (_ || _); cbn [snd] in Habs; rewrite Habs in Hp; [by right|]. apply evict_elem in Hp. apply elem_of_cons in Hp as [->|Hp]; [by left|]. right.
  by apply list_elem_of_filter in Hp as [_ ?].
Qed.

(** What a purge leaves. *)
Lemma purge_elem mE mB c sel order : Good mE mB c → order ≡ₚ map_to_list (items c) →
  Good mE mB (snd (purge_loop sel order c)) ∧ ∀ p, p ∈ abs (snd (purge_loop sel order c)) → p ∈ abs c ∧ sel (fst p) = false.
Proof.
  intros Hg Ho. destruct (step_simulation mE mB c (OpPurge sel) _ _ Hg (step_purge c sel order Ho)) as [Hg' _].
  split; [done|]. intros p Hp. pose proof Hg as (HI & _). destruct (purge_refines sel order c HI Ho) as (_ & _ & Ha & _).
  rewrite Ha in Hp. by apply list_elem_of_filter in Hp as [? ?].
Qed.

(** C24: every run of the cache's methods from [New] — whatever order the purge
    loops visit the map in — returns exactly what a bounded LRU list returns
    and ends in the state that list has, never gets stuck (the eviction loop
    of [Set] ends), and the configured limits hold after every call. *)
Theorem cache_refines_lru mE mB tr c : 0 <= mE → 0 <= mB → steps (New mE mB) tr c →
  lru_run mE mB (fst <$> tr) [] = (snd <$> tr, abs c)
  ∧ len (ll c) <= mE ∧ bytes c <= mB ∧ bytes c = LRU.total (abs c)
  ∧ (∀ k e, items c !! k = Some e ↔ e ∈ ll c ∧ key (snd e) = k)
  ∧ ∀ o, ∃ out c', step c o out c'.
Proof.
  intros HE HB Hs. destruct (steps_good _ _ _ _ _ (New_good _ _ HE HB) Hs) as [Hg Hr].
  pose proof Hg as (HI & [Hb1 Hb2] & <- & <- & _). split_and!; try done.
  - by apply inv_bytes.
  - by apply inv_index.
  - intros o. by eapply step_progress.
Qed.

(** a [Set] that returns true keeps the new entry, evicts only from the
    least recently used end, no further than the limits require; and the entry
    is what a later [Get] of the key returns while it is fresh. *)
Theorem Set_evicts_lru mE mB c k en c' now : Good mE mB c → 1 <= mE →
  Set_ k en c = Some (true, c') → now <= ExpiresAt en → ExpiresAt en <= StaleUntil en →
  keeps_needed mE mB ((k, en) :: LRU.drop_key k (abs c)) (abs c') ∧ fst (Get k now c') = (en, true, false).
Proof.
  intros (HI & _ & <- & <- & _ & HB) HE HS H1 H2. destruct (Set_evicts_aux c k en c') as [Hk Hf]; [done..|].
  split; [done|]. destruct (Set_refines c k en) as (ok & c2 & HS2 & HI2 & _); [done|lia|done|].
  rewrite HS in HS2. injection HS2 as <- <-.
  destruct (Get_refines c' k now HI2) as (_ & _ & Hg). apply (f_equal fst) in Hg. simpl in Hg. rewrite Hg.
  unfold LRU.get. rewrite Hf. assert ((StaleUntil en <? now) = false) as -> by (apply Z.ltb_ge; lia).
  simpl. f_equal; [f_equal; apply Z.leb_le; lia | apply Z.ltb_ge; lia].
Qed.

(** purging removes exactly the selected entries whatever order the map is
    visited in, keeps the recency order of the others, and returns their number. *)
Theorem Purge_exact `{U : Unicode} `{N : NetURL} mE mB keyRequest host prefix order c : Good mE mB c →
  order ≡ₚ map_to_list (items c) →
  let sel := purge_key keyRequest (to_lower (trim_space host)) prefix in
  let r := Purge keyRequest host prefix order c in
  abs (snd r) = filter (λ p, sel (fst p) = false) (abs c)
  ∧ fst r = len (filter (λ p, sel (fst p) = true) (abs c)) ∧ Good mE mB (snd r).
Proof.
  intros (HI & HB & HmE & HmB & HE & HB0) Hord sel r. unfold Purge in r.
  destruct (purge_refines sel order c HI Hord) as (H1 & H2 & H3 & H4).
  destruct (purge_loop_limits sel order c) as [L1 L2].
  split_and!; [exact H3 | exact H4 |]. unfold Good.
  split_and!; [exact H1 | by apply H2 | by etrans | by etrans | done | done].
Qed.

(** *** Witnesses *)

Definition sample_entry (body : string) (expires stale : time) : Entry :=
  mkEntry 200 {[ lit "Etag" := [lit "x"] ]} body 0 expires stale.

Definition set_or_keep (k : str) (e : Entry) (c : Cache) : Cache :=
  match Set_ k e c with Some (_, c') => c' | None => c end.

(** Two entries stored, the older one read, a third one stored: the second is
    evicted. *)
Definition sample_c1 : Cache := set_or_keep "a" (sample_entry "aa" 10 20) (New 2 100).
Definition sample_c2 : Cache := set_or_keep "b" (sample_entry "bbb" 10 20) sample_c1.
Definition sample_c3 : Cache := snd (Get "a" 5 sample_c2).
Definition sample_c4 : Cache := set_or_keep "c" (sample_entry "c" 10 20) sample_c3.
Definition sample_trace : list (op * output) :=
  [(OpSet "a" (sample_entry "aa" 10 20), OutBool true); (OpSet "b" (sample_entry "bbb" 10 20), OutBool true);
   (OpGet "a" 5, OutGet (fst (Get "a" 5 sample_c2)));
   (OpSet "c" (sample_entry "c" 10 20), OutBool true)].

Lemma sample_steps : steps (New 2 100) sample_trace sample_c4.
Proof.
  eapply steps_cons; [apply (step_set _ _ _ true sample_c1); vm_compute; reflexivity|].
  eapply steps_cons; [apply (step_set _ _ _ true sample_c2); vm_compute; reflexivity|].
  eapply steps_cons; [apply step_get|].
  eapply steps_cons; [apply (step_set _ _ _ true sample_c4); vm_compute; reflexivity|]. apply steps_nil.
Qed.

Lemma sample_good : Good 2 100 sample_c3.
Proof.
  apply (steps_good 2 100 (New 2 100) (take 3 sample_trace) sample_c3); [by apply New_good|].
  eapply steps_cons; [apply (step_set _ _ _ true sample_c1); vm_compute; reflexivity|].
  eapply steps_cons; [apply (step_set _ _ _ true sample_c2); vm_compute; reflexivity|].
  eapply steps_cons; [apply step_get|]. apply steps_nil.
Qed.

Lemma cache_refines_lru_witness :
  lru_run 2 100 (fst <$> sample_trace) [] = (snd <$> sample_trace, abs sample_c4).
Proof. exact (proj1 (cache_refines_lru 2 100 _ _ ltac:(done) ltac:(done) sample_steps)). Defined.

Lemma Set_evicts_lru_witness :
  Set_ "c" (sample_entry "c" 10 20) sample_c3 = Some (true, sample_c4)
  ∧ fst (Get "c" 7 sample_c4) = (sample_entry "c" 10 20, true, false).
Proof.
  split; [vm_compute; reflexivity|].
  refine (proj2 (Set_evicts_lru 2 100 sample_c3 "c" _ sample_c4 7 sample_good _ _ _ _)).
  - done.
  - vm_compute. reflexivity.
  - done.
  - done.
Defined.

#[local] Instance sample_neturl : NetURL := {| absolute_uri_path := λ _, None |}.

(** The key callback of the witness: the key is "host uri". *)
Definition sample_key_request (k : str) : option (str * str) := Some (k, lit "/x").

Lemma Purge_exact_witness :
  fst <$> abs (snd (Purge (U := unicode_ascii) sample_key_request " A " [] (map_to_list (items sample_c3)) sample_c3))
    = lits ["b"].
Proof.
  rewrite (proj1 (Purge_exact (U := unicode_ascii) 2 100 sample_key_request " A " [] _ sample_c3 sample_good (reflexivity _))).
  vm_compute. reflexivity.
Defined.
End Cache.
