(* ===== verification/KeyLock.v ===== *)
(** * Per-key fill locks: apps/edgeproxy/internal/cache/keylock.go

    [KeyLocker.Lock] has two critical sections of the table mutex [k.mu] (take
    a reference; drop the reference and delete an unused lock) and in between
    the mutex of one [keyLock].  Goroutines interleave between these points, so
    the model is a step relation over a table, a heap of [keyLock] objects and
    one program counter per goroutine.  Lock objects are never reused: [&keyLock{}]
    allocates a fresh identity, and a deleted object may still be referenced. *)

From S2P Require Import Prelude.

Module KeyLock.

(** [held_by] is the state of the object's [sync.Mutex]. *)
Record keyLock := mkKeyLock { held_by : option nat; refs : Z }.

Record KeyLocker := mkKeyLocker {
  locks : gmap str nat;          (* the map of pointers *)
  heap : gmap nat keyLock;       (* the objects *)
  next : nat;                    (* the next allocation *)
}.

Definition NewKeyLocker : KeyLocker := mkKeyLocker ∅ ∅ 0.

(** Where a goroutine is inside [Lock] and the function it returns. *)
Inductive pc :=
  | Idle                            (* outside *)
  | Waiting (key : str) (lk : nat)  (* before [lk.mu.Lock()] *)
  | Holding (key : str) (lk : nat)  (* [Lock] has returned *)
  | Leaving (key : str) (lk : nat). (* after [lk.mu.Unlock()], before [k.mu.Lock()] *)

Definition lock_of (p : pc) : option (str * nat) :=
  match p with Idle => None | Waiting k l | Holding k l | Leaving k l => Some (k, l) end.

(** The first critical section: the lock of the key, created when missing. *)
Definition Lock_ref (k : str) (s : KeyLocker) : nat * KeyLocker :=
  let '(lk, o, s) := match locks s !! k with
                     | Some lk => (lk, default (mkKeyLock None 0) (heap s !! lk), s)
                     | None => (next s, mkKeyLock None 0,
                                mkKeyLocker (<[k := next s]> (locks s)) (heap s) (S (next s)))
                     end in
  (lk, mkKeyLocker (locks s) (<[lk := mkKeyLock (held_by o) (refs o + 1)]> (heap s)) (next s)).

(** [lk.mu.Lock()], enabled when the mutex is free. *)
Definition lock_acquire (t lk : nat) (s : KeyLocker) : option KeyLocker :=
  match heap s !! lk with
  | Some (mkKeyLock None r) => Some (mkKeyLocker (locks s) (<[lk := mkKeyLock (Some t) r]> (heap s)) (next s))
  | _ => None
  end.

(** [lk.mu.Unlock()] *)
Definition lock_release (lk : nat) (s : KeyLocker) : option KeyLocker :=
  match heap s !! lk with
  | Some (mkKeyLock (Some _) r) => Some (mkKeyLocker (locks s) (<[lk := mkKeyLock None r]> (heap s)) (next s))
  | _ => None
  end.

(** The second critical section. *)
Definition Unlock_unref (k : str) (lk : nat) (s : KeyLocker) : KeyLocker :=
  let o := default (mkKeyLock None 0) (heap s !! lk) in
  let o' := mkKeyLock (held_by o) (refs o - 1) in
  mkKeyLocker (if refs o' =? 0 then delete k (locks s) else locks s) (<[lk := o']> (heap s)) (next s).

(** The system: the locker and the goroutines. *)
Record system := mkSystem { kl : KeyLocker; threads : list pc }.

Definition init (n : nat) : system := mkSystem NewKeyLocker (replicate n Idle).

Inductive step : system → system → Prop :=
  | step_ref s ts t k lk s' : ts !! t = Some Idle → Lock_ref k s = (lk, s') →
      step (mkSystem s ts) (mkSystem s' (<[t := Waiting k lk]> ts))
  | step_acquire s ts t k lk s' : ts !! t = Some (Waiting k lk) → lock_acquire t lk s = Some s' →
      step (mkSystem s ts) (mkSystem s' (<[t := Holding k lk]> ts))
  | step_release s ts t k lk s' : ts !! t = Some (Holding k lk) → lock_release lk s = Some s' →
      step (mkSystem s ts) (mkSystem s' (<[t := Leaving k lk]> ts))
  | step_unref s ts t k lk : ts !! t = Some (Leaving k lk) →
      step (mkSystem s ts) (mkSystem (Unlock_unref k lk s) (<[t := Idle]> ts)).

(** ** The invariant *)

Definition uses (lk : nat) (p : pc) : Z := if decide (snd <$> lock_of p = Some lk) then 1 else 0.

(** Every lock in the heap counts its users; a key is in the table exactly when
    its lock has users, all of which entered under that key; and a goroutine
    holds the object's mutex exactly when it is past [lk.mu.Lock()]. *)
Record Inv (s : system) : Prop := {
  inv_refs : ∀ lk o, heap (kl s) !! lk = Some o → refs o = zsum (uses lk) (threads s);
  inv_table : ∀ t k lk, lock_of <$> threads s !! t = Some (Some (k, lk)) → locks (kl s) !! k = Some lk;
  inv_used : ∀ k lk, locks (kl s) !! k = Some lk → ∃ o, heap (kl s) !! lk = Some o ∧ 0 < refs o;
  inv_inj : ∀ k k' lk, locks (kl s) !! k = Some lk → locks (kl s) !! k' = Some lk → k = k';
  inv_alloc : ∀ lk, (next (kl s) <= lk)%nat → heap (kl s) !! lk = None;
  inv_hold : ∀ t lk o, heap (kl s) !! lk = Some o →
    held_by o = Some t ↔ ∃ k, threads s !! t = Some (Holding k lk);
}.

Lemma uses_nonneg lk p : 0 <= uses lk p.
Proof. unfold uses. case_decide; lia. Qed.

Lemma uses_Idle lk : uses lk Idle = 0.
Proof. done. Qed.

Lemma uses_lock_of lk p k lk' : lock_of p = Some (k, lk') → uses lk p = if decide (lk = lk') then 1 else 0.
Proof. intros H. unfold uses. rewrite H. simpl. repeat case_decide; congruence. Qed.

(** A goroutine inside the locker has its lock in the heap. *)
Lemma inv_object s t k lk : Inv s → lock_of <$> threads s !! t = Some (Some (k, lk)) →
  ∃ o, heap (kl s) !! lk = Some o ∧ 0 < refs o.
Proof. intros HI H. eapply inv_used, inv_table; done. Qed.

Lemma init_inv n : Inv (init n).
Proof.
  constructor; simpl; try done.
  - intros t k lk. rewrite fmap_Some. intros (p & [-> _]%lookup_replicate & ?). done.
Qed.

(** The lock taken by [Lock_ref], before the count is raised. *)
Lemma Lock_ref_spec k s lk s' : Lock_ref k s = (lk, s') →
  (locks s !! k = Some lk ∧ ∃ o, o = default (mkKeyLock None 0) (heap s !! lk)
     ∧ s' = mkKeyLocker (locks s) (<[lk := mkKeyLock (held_by o) (refs o + 1)]> (heap s)) (next s))
  ∨ (locks s !! k = None ∧ lk = next s
     ∧ s' = mkKeyLocker (<[k := lk]> (locks s)) (<[lk := mkKeyLock None 1]> (heap s)) (S lk)).
Proof.
  unfold Lock_ref. destruct (locks s !! k) as [lk0|] eqn:E; intros H; injection H as <- <-.
  - left. split; [done|]. by eexists.
  - by right.
Qed.

(** A goroutine entry after the update of goroutine [t]. *)
Lemma thread_insert (ts : list pc) t p q u : ts !! t = Some p →
  <[t := q]> ts !! u = (if decide (t = u) then Some q else ts !! u).
Proof.
  intros H. case_decide as E; [subst; apply list_lookup_insert_eq; by eapply lookup_lt_Some|].
  by apply list_lookup_insert_ne.
Qed.

Lemma ref_inv s ts t k lk s' : ts !! t = Some Idle → Lock_ref k s = (lk, s') →
  Inv (mkSystem s ts) → Inv (mkSystem s' (<[t := Waiting k lk]> ts)).
Proof.
  intros Ht Hr HI.
  assert (∀ l, zsum (uses l) (<[t := Waiting k lk]> ts) = zsum (uses l) ts + if decide (l = lk) then 1 else 0) as Hz.
  { intros l. rewrite (zsum_insert _ _ _ Idle) by done. rewrite uses_Idle.
    rewrite (uses_lock_of l _ k lk) by done. lia. }
  apply Lock_ref_spec in Hr as [(Hk & o & Ho & ->)|(Hk & -> & ->)].
  - destruct (inv_used _ HI k lk Hk) as (o' & Ho' & Hpos). simpl in *. rewrite Ho' in Ho. simpl in Ho. subst o.
    constructor; simpl.
    + intros l o. rewrite Hz, lookup_insert_Some. intros [[<- <-]|[Hne H]]; simpl.
      * rewrite decide_True by done. rewrite (inv_refs _ HI lk o' Ho'). done.
      * rewrite decide_False by done. rewrite (inv_refs _ HI l o H). simpl. lia.
    + intros u k' l. rewrite (thread_insert _ _ _ _ _ Ht). case_decide as E; [simpl; congruence|].
      apply (inv_table _ HI u).
    + intros k' l Hl. destruct (inv_used _ HI k' l Hl) as (o & Ho & Hp). destruct (decide (l = lk)) as [->|].
      * exists (mkKeyLock (held_by o') (refs o' + 1)). rewrite lookup_insert_eq. split; [done|]. simpl. lia.
      * exists o. by rewrite lookup_insert_ne.
    + apply (inv_inj _ HI).
    + intros l Hl. rewrite lookup_insert_ne; [by apply (inv_alloc _ HI)|]. intros <-.
      pose proof (inv_alloc _ HI lk Hl). simpl in *. congruence.
    + intros u l o. rewrite (thread_insert _ _ _ _ _ Ht), lookup_insert_Some.
      assert (∀ k0, (if decide (t = u) then Some (Waiting k lk) else ts !! u) = Some (Holding k0 l)
                    ↔ ts !! u = Some (Holding k0 l)) as Hu.
      { intros k0. case_decide as E; [subst|done]. split; congruence. }
      setoid_rewrite Hu. intros [[<- <-]|[Hne H]]; simpl; by apply (inv_hold _ HI).
  - constructor; simpl.
    + intros l o. rewrite Hz, lookup_insert_Some. intros [[<- <-]|[Hne H]]; simpl.
      * rewrite decide_True by done.
        assert (zsum (uses (next s)) ts = 0); [|lia].
        destruct (decide (zsum (uses (next s)) ts = 0)) as [|Hnz]; [done|].
        pose proof (zsum_nonneg (uses (next s)) ts (λ p _, uses_nonneg _ p)).
        destruct (zsum_pos (uses (next s)) ts (λ p _, uses_nonneg _ p)) as (p & Hp & Hup); [lia|].
        apply list_elem_of_lookup in Hp as [u Hu]. unfold uses in Hup. case_decide as Hd; [|lia].
        destruct (lock_of p) as [[k' l]|] eqn:Hlo; simplify_eq/=.
        destruct (inv_object _ u k' (next s) HI) as (o & Ho & _); [simpl; by rewrite Hu; simpl; rewrite Hlo|].
        pose proof (inv_alloc _ HI (next s) (le_n _)). simpl in *. congruence.
      * rewrite decide_False by done. rewrite (inv_refs _ HI l o H). simpl. lia.
    + intros u k' l. rewrite (thread_insert _ _ _ _ _ Ht). case_decide as E.
      * simpl. intros [= <- <-]. apply lookup_insert_eq.
      * intros H. apply (inv_table _ HI u) in H. simpl in H. rewrite lookup_insert_ne; [done|]. congruence.
    + intros k' l. rewrite lookup_insert_Some. intros [[<- <-]|[Hne Hl]].
      * exists (mkKeyLock None 1). rewrite lookup_insert_eq. done.
      * destruct (inv_used _ HI k' l Hl) as (o & Ho & Hp). exists o. rewrite lookup_insert_ne; [done|].
        intros <-. pose proof (inv_alloc _ HI (next s) (le_n _)). simpl in *. congruence.
    + assert (∀ k', locks s !! k' = Some (next s) → False) as Hfr.
      { intros k' Hl. destruct (inv_used _ HI k' _ Hl) as (o & Ho & Hp).
        pose proof (inv_alloc _ HI (next s) (le_n _)). simpl in *. congruence. }
      intros k1 k2 l. rewrite !lookup_insert_Some. intros [[<- <-]|[? H1]] [[<- E]|[? H2]]; try done.
      * by apply Hfr in H2.
      * rewrite <- E in H1. by apply Hfr in H1.
      * by eapply (inv_inj _ HI).
    + intros l Hl. rewrite lookup_insert_ne by lia. apply (inv_alloc _ HI). simpl. lia.
    + intros u l o. rewrite (thread_insert _ _ _ _ _ Ht), lookup_insert_Some.
      assert (∀ k0, (if decide (t = u) then Some (Waiting k (next s)) else ts !! u) = Some (Holding k0 l)
                    ↔ ts !! u = Some (Holding k0 l)) as Hu.
      { intros k0. case_decide as E; [subst|done]. split; congruence. }
      setoid_rewrite Hu. intros [[<- <-]|[Hne H]]; simpl; [|by apply (inv_hold _ HI)].
      split; [done|]. intros [k0 H]. destruct (inv_object _ u k0 (next s) HI) as (o & Ho & _); [simpl; by rewrite H|].
      pose proof (inv_alloc _ HI (next s) (le_n _)). simpl in *. congruence.
Qed.

(** A step inside the locker that only changes who holds the object's mutex. *)
Lemma hold_inv s ts t p q k lk h r h' : ts !! t = Some p → lock_of p = Some (k, lk) → lock_of q = Some (k, lk) →
  heap s !! lk = Some (mkKeyLock h r) → Inv (mkSystem s ts) →
  (∀ u, h' = Some u ↔ ∃ k, <[t := q]> ts !! u = Some (Holding k lk)) →
  Inv (mkSystem (mkKeyLocker (locks s) (<[lk := mkKeyLock h' r]> (heap s)) (next s)) (<[t := q]> ts)).
Proof.
  intros Ht Hp Hq Hlk HI Hh. constructor; simpl.
  - intros l o. rewrite (zsum_insert _ _ _ p), (uses_lock_of l p k lk), (uses_lock_of l q k lk), lookup_insert_Some by done.
    intros [[<- <-]|[Hne H]]; simpl.
    + pose proof (inv_refs _ HI lk _ Hlk) as Hr. simpl in Hr. lia.
    + pose proof (inv_refs _ HI l _ H) as Hr. simpl in Hr. lia.
  - intros u k' l. rewrite (thread_insert _ _ _ _ _ Ht). case_decide as E; [|apply (inv_table _ HI u)].
    simpl. rewrite Hq. intros [= <- <-]. apply (inv_table _ HI t). simpl. rewrite Ht. simpl. by rewrite Hp.
  - intros k' l Hl. destruct (inv_used _ HI k' l Hl) as (o & Ho & Hpos). destruct (decide (lk = l)) as [<-|].
    + exists (mkKeyLock h' r). rewrite lookup_insert_eq. split; [done|]. simpl in *. by simplify_eq.
    + exists o. by rewrite lookup_insert_ne.
  - apply (inv_inj _ HI).
  - intros l Hl. rewrite lookup_insert_ne; [by apply (inv_alloc _ HI)|]. intros <-.
    pose proof (inv_alloc _ HI lk Hl). simpl in *. congruence.
  - intros u l o. rewrite lookup_insert_Some. intros [[<- <-]|[Hne H]]; simpl; [apply Hh|].
    rewrite (inv_hold _ HI u l o H), (thread_insert _ _ _ _ _ Ht). simpl. case_decide as E; [subst|done].
    split; intros [k' H']; exfalso; [rewrite Ht in H'|]; injection H' as ->; simpl in *; congruence.
Qed.

Lemma acquire_inv s ts t k lk s' : ts !! t = Some (Waiting k lk) → lock_acquire t lk s = Some s' →
  Inv (mkSystem s ts) → Inv (mkSystem s' (<[t := Holding k lk]> ts)).
Proof.
  unfold lock_acquire. intros Ht Ha HI. destruct (heap s !! lk) as [[[|] r]|] eqn:Hlk; simplify_eq.
  eapply hold_inv; try done. intros u. rewrite (thread_insert _ _ _ _ _ Ht). case_decide as E; subst.
  - split; [by eexists | done].
  - rewrite <- (inv_hold _ HI u lk _ Hlk). simpl. split; congruence.
Qed.

Lemma release_inv s ts t k lk s' : ts !! t = Some (Holding k lk) → lock_release lk s = Some s' →
  Inv (mkSystem s ts) → Inv (mkSystem s' (<[t := Leaving k lk]> ts)).
Proof.
  unfold lock_release. intros Ht Ha HI. destruct (heap s !! lk) as [[[h|] r]|] eqn:Hlk; simplify_eq.
  pose proof (proj2 (inv_hold _ HI t lk _ Hlk)) as Hh. simpl in Hh.
  eapply hold_inv; try done. intros u. rewrite (thread_insert _ _ _ _ _ Ht). case_decide as E; subst.
  - split; [done|]. intros [k0 H]. done.
  - rewrite <- (inv_hold _ HI u lk _ Hlk). simpl. rewrite Hh by by eexists. split; [done|congruence].
Qed.

Lemma unref_inv s ts t k lk : ts !! t = Some (Leaving k lk) →
  Inv (mkSystem s ts) → Inv (mkSystem (Unlock_unref k lk s) (<[t := Idle]> ts)).
Proof.
  intros Ht HI. destruct (inv_object _ t k lk HI) as (o & Ho & Hpos); [simpl; by rewrite Ht|].
  assert (locks s !! k = Some lk) as Hk by (apply (inv_table _ HI t); simpl; by rewrite Ht).
  assert (∀ l, zsum (uses l) (<[t := Idle]> ts) = zsum (uses l) ts - if decide (l = lk) then 1 else 0) as Hz.
  { intros l. rewrite (zsum_insert _ _ _ (Leaving k lk)), uses_Idle by done.
    rewrite (uses_lock_of l _ k lk) by done. lia. }
  pose proof (inv_refs _ HI lk o Ho) as Hr. unfold Unlock_unref. simpl in Ho, Hr. rewrite Ho. cbn [default refs held_by from_option id].
  constructor; cbn [kl threads heap locks next].
  - intros l o'. rewrite Hz, lookup_insert_Some. intros [[<- <-]|[Hne H]]; simpl.
    + rewrite decide_True by done. lia.
    + rewrite decide_False by done. rewrite (inv_refs _ HI l o' H). simpl. lia.
  - intros u k' l. rewrite (thread_insert _ _ _ _ _ Ht). case_decide as E; [done|]. intros Hu.
    pose proof (inv_table _ HI u k' l Hu) as Hk'. simpl in Hk'.
    destruct (refs o - 1 =? 0) eqn:Hz0; [|done]. boolify. rewrite lookup_delete_ne; [done|]. intros <-.
    assert (l = lk) as -> by congruence. simpl in Hu. destruct (ts !! u) as [p|] eqn:Hp; simplify_eq/=.
    assert (<[t := Idle]> ts !! u = Some p) as Hp' by by rewrite list_lookup_insert_ne.
    apply list_elem_of_lookup_2 in Hp'.
    pose proof (zsum_elem (uses lk) _ p (λ p _, uses_nonneg _ p) Hp') as Hle.
    rewrite Hz, decide_True in Hle by done. rewrite (uses_lock_of lk p k lk), decide_True in Hle by done. lia.
  - intros k' l Hl. destruct (refs o - 1 =? 0) eqn:Hz0; boolify.
    + apply lookup_delete_Some in Hl as [Hne Hl]. destruct (inv_used _ HI k' l Hl) as (o' & Ho' & Hp).
      exists o'. rewrite lookup_insert_ne; [done|]. intros <-. by destruct (Hne (inv_inj _ HI k k' lk Hk Hl)).
    + destruct (inv_used _ HI k' l Hl) as (o' & Ho' & Hp). destruct (decide (lk = l)) as [<-|].
      * exists (mkKeyLock (held_by o) (refs o - 1)). rewrite lookup_insert_eq. split; [done|]. simpl. lia.
      * exists o'. by rewrite lookup_insert_ne.
  - intros k1 k2 l H1 H2. apply (inv_inj _ HI k1 k2 l); simpl; destruct (_ =? 0);
      rewrite ?lookup_delete_Some in *; naive_solver.
  - intros l Hl. rewrite lookup_insert_ne; [by apply (inv_alloc _ HI)|]. intros <-.
    pose proof (inv_alloc _ HI lk Hl). simpl in *. congruence.
  - intros u l o'. rewrite (thread_insert _ _ _ _ _ Ht), lookup_insert_Some.
    assert (∀ k0, (if decide (t = u) then Some Idle else ts !! u) = Some (Holding k0 l)
                  ↔ ts !! u = Some (Holding k0 l)) as Hu.
    { intros k0. case_decide as E; [subst|done]. split; congruence. }
    setoid_rewrite Hu. intros [[<- <-]|[Hne H]]; simpl; by apply (inv_hold _ HI).
Qed.

Lemma step_inv s s' : step s s' → Inv s → Inv s'.
Proof.
  destruct 1; [by eapply ref_inv | by eapply acquire_inv | by eapply release_inv | by eapply unref_inv].
Qed.

Lemma reachable_inv n s : rtc step (init n) s → Inv s.
Proof.
  pose proof (init_inv n) as H. intros Hs. revert H. induction Hs; [done|]. intros. by apply IHHs, (step_inv x).
Qed.

(** C30: per-key mutual exclusion.  Although a lock object is deleted from the
    table when its count reaches zero and a later [Lock] of the same key
    allocates another object, two goroutines never hold the lock of one key at
    the same time. *)
Theorem keylock_mutual_exclusion n s t t' k lk lk' : rtc step (init n) s →
  threads s !! t = Some (Holding k lk) → threads s !! t' = Some (Holding k lk') → t = t' ∧ lk = lk'.
Proof.
  intros HI%reachable_inv H1 H2.
  assert (locks (kl s) !! k = Some lk) as Hk1 by (apply (inv_table _ HI t); by rewrite H1).
  assert (locks (kl s) !! k = Some lk') as Hk2 by (apply (inv_table _ HI t'); by rewrite H2).
  assert (lk = lk') as -> by congruence. split; [|done].
  destruct (inv_used _ HI k lk' Hk1) as (o & Ho & _).
  pose proof (proj2 (inv_hold _ HI t lk' o Ho) ltac:(by eexists)).
  pose proof (proj2 (inv_hold _ HI t' lk' o Ho) ltac:(by eexists)). congruence.
Qed.

(** the table has no leak and no dangling entry: a key is in it exactly when
    some goroutine is between taking and dropping a reference under that key,
    and the count of its lock is the number of these goroutines. *)
Theorem keylock_no_leak n s k : rtc step (init n) s →
  (is_Some (locks (kl s) !! k) ↔ ∃ t lk, lock_of <$> threads s !! t = Some (Some (k, lk)))
  ∧ ∀ lk o, locks (kl s) !! k = Some lk → heap (kl s) !! lk = Some o → refs o = zsum (uses lk) (threads s) ∧ 0 < refs o.
Proof.
  intros HI%reachable_inv. split.
  - split.
    + intros [lk Hk]. destruct (inv_used _ HI k lk Hk) as (o & Ho & Hpos). rewrite (inv_refs _ HI lk o Ho) in Hpos.
      destruct (zsum_pos (uses lk) (threads s) (λ p _, uses_nonneg _ p) Hpos) as (p & Hp & Hup).
      apply list_elem_of_lookup in Hp as [t Ht]. unfold uses in Hup. case_decide as Hd; [|lia].
      destruct (lock_of p) as [[k' l]|] eqn:Hlo; simplify_eq/=.
      assert (locks (kl s) !! k' = Some lk) as Hk' by (apply (inv_table _ HI t); by rewrite Ht; simpl; rewrite Hlo).
      rewrite (inv_inj _ HI k k' lk Hk Hk'). exists t, lk. rewrite Ht. simpl. by rewrite Hlo.
    + intros (t & lk & Ht). exists lk. by apply (inv_table _ HI t).
  - intros lk o Hk Ho. destruct (inv_used _ HI k lk Hk) as (o' & Ho' & Hpos).
    split; [by apply (inv_refs _ HI) | congruence].
Qed.

(** no deadlock inside the locker: as long as some goroutine is inside
    [Lock] or the function it returns, some such goroutine can take its next
    step; and every goroutine waiting for a key whose lock nobody holds can
    acquire it at once. *)
Theorem keylock_progress n s t k lk : rtc step (init n) s → threads s !! t = Some (Waiting k lk) →
  (∃ t', threads s !! t' = Some (Holding k lk)) ∨ ∃ l', lock_acquire t lk (kl s) = Some l'
     ∧ step s (mkSystem l' (<[t := Holding k lk]> (threads s))).
Proof.
  intros HI%reachable_inv Ht. destruct (inv_object _ t k lk HI) as (o & Ho & _); [by rewrite Ht|].
  destruct o as [[u|] r]; simpl in *.
  - left. destruct (proj1 (inv_hold _ HI u lk _ Ho) eq_refl) as [k' Hu]. exists u.
    assert (locks (kl s) !! k = Some lk) as Hk by (apply (inv_table _ HI t); by rewrite Ht).
    assert (locks (kl s) !! k' = Some lk) as Hk' by (apply (inv_table _ HI u); by rewrite Hu).
    by rewrite (inv_inj _ HI k k' lk Hk Hk').
  - right. eexists. unfold lock_acquire. rewrite Ho. split; [done|]. destruct s as [s ts].
    apply step_acquire; [done|]. unfold lock_acquire. simpl in *. by rewrite Ho.
Qed.

(** *** Witnesses: goroutine 0 holds the lock of "a", goroutine 1 waits for it
    and goroutine 2 waits for "b". *)

Definition sample_kl1 : KeyLocker := snd (Lock_ref "a" NewKeyLocker).
Definition sample_kl2 : KeyLocker := mkKeyLocker (locks sample_kl1) (<[0%nat := mkKeyLock (Some 0%nat) 1]> (heap sample_kl1)) 1.
Definition sample_kl3 : KeyLocker := snd (Lock_ref "a" sample_kl2).
Definition sample_kl4 : KeyLocker := snd (Lock_ref "b" sample_kl3).
Definition sample_system : system :=
  mkSystem sample_kl4 [Holding "a" 0; Waiting "a" 0; Waiting "b" 1].

Lemma sample_lock_reachable : rtc step (init 3) sample_system.
Proof.
  eapply rtc_l; [apply (step_ref _ _ 0 "a" 0 sample_kl1); done|].
  eapply rtc_l; [apply (step_acquire _ _ 0 "a" 0 sample_kl2); done|].
  eapply rtc_l; [apply (step_ref _ _ 1 "a" 0 sample_kl3); done|].
  eapply rtc_l; [apply (step_ref _ _ 2 "b" 1 sample_kl4); done|]. apply rtc_refl.
Qed.

Lemma keylock_mutual_exclusion_witness : threads sample_system !! 0%nat = Some (Holding "a" 0)
  ∧ 0%nat = 0%nat ∧ 0%nat = 0%nat.
Proof.
  split; [reflexivity|]. exact (keylock_mutual_exclusion 3 sample_system 0 0 "a" 0 0 sample_lock_reachable eq_refl eq_refl).
Defined.

Lemma keylock_no_leak_witness : is_Some (locks (kl sample_system) !! lit "a")
  ∧ ∀ o, heap (kl sample_system) !! 0%nat = Some o → refs o = 2.
Proof.
  destruct (keylock_no_leak 3 sample_system "a" sample_lock_reachable) as [H1 H2]. split.
  - apply H1. exists 0%nat, 0%nat. reflexivity.
  - intros o Ho. exact (proj1 (H2 0%nat o eq_refl Ho)).
Defined.

Lemma keylock_progress_witness :
  (∃ t', threads sample_system !! t' = Some (Holding "b" 1)) ∨ ∃ l', lock_acquire 2 1 (kl sample_system) = Some l'
     ∧ step sample_system (mkSystem l' (<[2%nat := Holding "b" 1]> (threads sample_system))).
Proof. exact (keylock_progress 3 sample_system 2 "b" 1 sample_lock_reachable eq_refl). Defined.
End KeyLock.
