(* ===== verification/CachePolicy.v ===== *)
(** * Cache policy: apps/edgeproxy/internal/proxy/cache_policy.go

    Cache keys, the Cache-Control parser, request and response cacheability,
    freshness and conditional requests; with [hasProtocolUpgrade] and
    [canonicalRequestURI] of helpers.go, which they call.  [sha256.Sum256] and
    [http.ParseTime] (which consults the host's time-zone tables) are class
    parameters: no theorem depends on what they compute. *)

From S2P Require Import Prelude GoStr GoPath GoHttp GoCodec NetIP Config Cache.

Class HttpTime := ParseTime : str → option time.

Module CachePolicy.

(** ** Header lists *)

Definition headerHasNonEmptyValue (h : header) (name : str) : bool :=
  existsb (λ v, negb (trim_space v =?s [])) (header_values h name).

Section tokens.
Context {U : Unicode}.

Definition headerHasToken (values : list str) (token : str) : bool :=
  existsb (λ value, existsb (λ raw, equal_fold (trim_space raw) token) (split value ",")) values.

Definition hasProtocolUpgrade (h : header) : bool :=
  headerHasToken (header_values h "Connection") "upgrade" || negb (trim_space (header_get h "Upgrade") =?s []).
End tokens.

Fixpoint firstNonEmpty (values : list str) : str :=
  match values with
  | [] => []
  | v :: vs => if negb (v =?s []) then v else firstNonEmpty vs
  end.

(** The loop of [splitHeaderList]; [item] is [value[start:i]]. *)
Fixpoint splitHeaderList_loop (quoted escaped : bool) (item value : str) : option (list str) :=
  match value with
  | [] => if quoted || escaped then None else Some [item]
  | c :: value' =>
      if escaped then splitHeaderList_loop quoted false (item ++ [c]) value'
      else if quoted && (c =?c backslash) then splitHeaderList_loop quoted true (item ++ [c]) value'
      else if c =?c dquote then splitHeaderList_loop (negb quoted) escaped (item ++ [c]) value'
      else if (c =?c ",") && negb quoted then
        items ← splitHeaderList_loop quoted escaped [] value'; Some (item :: items)
      else splitHeaderList_loop quoted escaped (item ++ [c]) value'
  end.
Definition splitHeaderList (value : str) : option (list str) := splitHeaderList_loop false false [] value.

Fixpoint unquote_loop (escaped : bool) (value : str) : str :=
  match value with
  | [] => if escaped then [backslash] else []
  | c :: value' =>
      if escaped then c :: unquote_loop false value'
      else if c =?c backslash then unquote_loop true value'
      else c :: unquote_loop false value'
  end.
(** [value[0] == '"' && value[len(value)-1] == '"'] of a value of two bytes or more *)
Definition is_quoted (value : str) : bool :=
  (2 <=? len value) && bool_decide (head value = Some dquote) && bool_decide (last value = Some dquote).
Definition unquoteHeaderValue (value : str) : str :=
  if negb (is_quoted value) then value
  else unquote_loop false (take (length value - 2) (drop 1 value)).

Fixpoint parseHeaderListValues (values : list str) : option (list str) :=
  match values with
  | [] => Some []
  | value :: values' =>
      parts ← splitHeaderList value; items ← parseHeaderListValues values'; Some (parts ++ items)
  end.

(** ** Cache-Control *)

Record parsedCacheControl := mkParsed {
  directives : gmap str str;
  duplicates : gset str;
  invalid : bool;
}.

Section cc.
Context {U : Unicode}.

Definition parse_directive (parsed : parsedCacheControl) (directive : str) : parsedCacheControl :=
  let '(p0, p1, found) := cut (trim_space directive) "=" in
  let key := to_lower (trim_space p0) in
  if key =?s [] then mkParsed (directives parsed) (duplicates parsed) true
  else match directives parsed !! key with
       | Some _ => mkParsed (directives parsed) ({[key]} ∪ duplicates parsed) (invalid parsed)
       | None =>
           let v := if found then unquoteHeaderValue (trim_space p1) else lit "1" in
           mkParsed (<[key := v]> (directives parsed)) (duplicates parsed) (invalid parsed)
       end.

Definition parse_cc_value (parsed : parsedCacheControl) (value : str) : parsedCacheControl :=
  match splitHeaderList value with
  | None => mkParsed (directives parsed) (duplicates parsed) true
  | Some ds => foldl parse_directive parsed ds
  end.

Definition parseCacheControlDetailed (values : list str) : parsedCacheControl :=
  foldl parse_cc_value (mkParsed ∅ ∅ false) values.

Definition hasCacheDirective (ds : gmap str str) (name : str) : bool :=
  bool_decide (is_Some (ds !! to_lower name)).
End cc.

Definition maxDurationSeconds : Z := max_int64 / second.

Definition cacheDeltaSeconds (value : str) : option Z :=
  match parse_int (trim_space value) with
  | None => None
  | Some seconds => if (seconds <? 0) || (maxDurationSeconds <? seconds) then None else Some seconds
  end.

(** ** Keys *)

Definition canonicalRequestURI (u : URL) : str :=
  RequestURI (mkURL (url_scheme u) (url_opaque u) (url_host u) (canonicalRequestPath (url_path u))
                    (url_rawquery u) (url_forcequery u)).

Section keys.
Context {U : Unicode} {SH : Sha256}.

Definition cacheHost (hostport : str) : str :=
  let hostport := to_lower (trim_space hostport) in
  match SplitHostPort hostport with
  | Some (host, port) =>
      let host := trim_suffix host "." in
      let host := match ParseIP host with Some ip => ip_string ip | None => host end in
      JoinHostPort host port
  | None =>
      let ip_or_name := match ParseIP hostport with
                        | Some ip => ip_string ip
                        | None => trim_suffix hostport "."
                        end in
      if has_prefix hostport "[" && has_suffix hostport "]" then
        match ParseIP (trim_suffix (trim_prefix hostport "[") "]") with
        | Some ip => ip_string ip
        | None => ip_or_name
        end
      else ip_or_name
  end.

(** The bytes hashed for a header: every value followed by a zero byte. *)
Definition header_digest (values : list str) : str := sha256 (flat_map (λ v, v ++ [chr 0]) values).

(** [appendHeader]: the set of names seen and the key built so far. *)
Definition appendHeader (req : Request) (acc : gset str * str) (name : str) : gset str * str :=
  let canonical := canonical_key (trim_space name) in
  let key := to_lower canonical in
  if canonical =?s [] then acc
  else if bool_decide (key ∈ fst acc) then acc
  else ({[key]} ∪ fst acc,
        snd acc ++ "|h:" ++ key ++ "=" ++ hex_encode (header_digest (header_values (req_header req) canonical))).

(** The headers a key depends on, in the order they are appended. *)
Definition key_headers (cfg : CacheConfig) : list str :=
  vary_request_headers cfg
    ++ (if cache_authorized_requests cfg then lits ["Authorization"] else [])
    ++ (if cache_cookie_requests cfg then lits ["Cookie"] else []).

Definition key_prefix (req : Request) : str :=
  let method := if req_method req =?s "HEAD" then lit "GET" else req_method req in
  "method=" ++ method ++ "|host64=" ++ b64_encode (cacheHost (req_host req))
    ++ "|uri64=" ++ b64_encode (canonicalRequestURI (req_url req)).

Definition cacheKey (req : Request) (cfg : CacheConfig) : str :=
  snd (foldl (appendHeader req) (∅, key_prefix req) (key_headers cfg)).

Definition key_field (acc : str * str) (field : str) : str * str :=
  if has_prefix field "host64=" then (trim_prefix field "host64=", snd acc)
  else if has_prefix field "uri64=" then (fst acc, trim_prefix field "uri64=")
  else acc.

Definition cacheKeyRequest (key : str) : option (str * str) :=
  let '(encodedHost, encodedURI) := foldl key_field ([], []) (split key "|") in
  if (encodedHost =?s []) || (encodedURI =?s []) then None
  else host ← b64_decode encodedHost; requestURI ← b64_decode encodedURI; Some (host, requestURI).

Definition vary_allowed (cfg : CacheConfig) : list str :=
  (to_lower ∘ trim_space <$> vary_request_headers cfg)
    ++ (if cache_authorized_requests cfg then lits ["authorization"] else [])
    ++ (if cache_cookie_requests cfg then lits ["cookie"] else []).

Definition varyIsSupported (varyValues : list str) (cfg : CacheConfig) : bool :=
  forallb (λ value, forallb (λ raw,
    let name := to_lower (trim_space raw) in
    if name =?s [] then true
    else if name =?s "*" then false
    else bool_decide (name ∈ vary_allowed cfg)) (split value ",")) varyValues.
End keys.

(** ** Requests and responses *)

Section policy.
Context {U : Unicode} {T : HttpTime}.

Definition requestAllowsCachedEntry (req : Request) (entry : Cache.Entry) (now : time) : bool :=
  let parsed := parseCacheControlDetailed (header_values (req_header req) "Cache-Control") in
  if invalid parsed || bool_decide (lit "max-age" ∈ duplicates parsed) then false
  else match directives parsed !! lit "max-age" with
       | None => true
       | Some raw =>
           match cacheDeltaSeconds raw with
           | None => true
           | Some seconds =>
               let age := time_sub now (Cache.StoredAt entry) in
               let age := if age <? 0 then 0 else age in
               age <=? dur_mul seconds second
           end
       end.

(** (lookup, store, reason) *)
Definition requestCacheMode (req : Request) (cfg : CacheConfig) : bool * bool * str :=
  let h := req_header req in
  if negb (cache_enabled cfg) then (false, false, lit "disabled")
  else if hasProtocolUpgrade h then (false, false, lit "protocol-upgrade")
  else if negb (req_method req =?s "GET") && negb (req_method req =?s "HEAD") then (false, false, lit "method")
  else if headerHasNonEmptyValue h "Range" then (false, false, lit "range")
  else
    let parsed := parseCacheControlDetailed (header_values h "Cache-Control") in
    if invalid parsed || bool_decide (lit "max-age" ∈ duplicates parsed)
    then (false, false, lit "invalid-cache-control")
    else
      let cc := directives parsed in
      if hasCacheDirective cc "no-store" then (false, false, lit "request-no-store")
      else if headerHasNonEmptyValue h "Authorization" && negb (cache_authorized_requests cfg)
      then (false, false, lit "authorization")
      else if headerHasNonEmptyValue h "Cookie" && negb (cache_cookie_requests cfg)
      then (false, false, lit "cookie")
      else
        let forceRevalidation :=
          hasCacheDirective cc "no-cache" || headerHasToken (header_values h "Pragma") "no-cache" in
        let forceRevalidation :=
          match cc !! lit "max-age" with
          | Some raw =>
              match cacheDeltaSeconds raw with
              | Some seconds => if seconds =? 0 then true else forceRevalidation
              | None => forceRevalidation
              end
          | None => forceRevalidation
          end in
        (negb forceRevalidation, true, []).

Definition maxAgeSeconds : Z := 100 * 365 * 24 * 60 * 60.

Definition responseInitialAge (h : header) (now : time) : duration :=
  let raw := trim_space (header_get h "Age") in
  let age :=
    if negb (raw =?s []) then
      match parse_int raw with
      | Some seconds =>
          if 0 <=? seconds
          then dur_mul (if maxAgeSeconds <? seconds then maxAgeSeconds else seconds) second else 0
      | None => 0
      end
    else 0 in
  match ParseTime (header_get h "Date") with
  | Some date =>
      if time_after now date then
        let apparent := time_sub now date in
        if age <? apparent then apparent else age
      else age
  | None => age
  end.

(** What the origin headers say of the lifetime before the age correction;
    [None] is an early return. *)
Definition origin_ttl (resp : Response) (cfg : CacheConfig) (cc : gmap str str) (now : time) : option duration :=
  let h := resp_header resp in
  if hasCacheDirective cc "s-maxage" then
    seconds ← cacheDeltaSeconds (default [] (cc !! lit "s-maxage")); Some (dur_mul seconds second)
  else if hasCacheDirective cc "max-age" then
    seconds ← cacheDeltaSeconds (default [] (cc !! lit "max-age")); Some (dur_mul seconds second)
  else if negb (trim_space (header_get h "Expires") =?s []) then
    parsed ← ParseTime (header_get h "Expires");
    let reference := match ParseTime (header_get h "Date") with Some date => date | None => now end in
    Some (time_sub parsed reference)
  else Some (default_ttl cfg).

(** (cacheable, expiresAt, staleUntil, initialAge) *)
Definition not_cacheable : bool * time * time * duration := (false, time_zero, time_zero, 0).

Definition responseCachePolicy {SH : Sha256} (resp : Response) (cfg : CacheConfig) (now : time)
    : bool * time * time * duration :=
  let h := resp_header resp in
  let finish (ttl initialAge : duration) (allowStale : bool) :=
    if ttl <=? 0 then not_cacheable
    else
      let expiresAt := time_add now ttl in
      (true, expiresAt, if allowStale then time_add expiresAt (stale_if_error cfg) else expiresAt, initialAge) in
  if negb (existsb (λ status, resp_status resp =? status) (cacheable_status_codes cfg)) then not_cacheable
  else if headerHasNonEmptyValue h "Set-Cookie" && negb (cache_set_cookie_responses cfg) then not_cacheable
  else if negb (varyIsSupported (header_values h "Vary") cfg) then not_cacheable
  else if respect_origin_headers cfg then
    let parsed := parseCacheControlDetailed (header_values h "Cache-Control") in
    if invalid parsed || bool_decide (lit "max-age" ∈ duplicates parsed)
       || bool_decide (lit "s-maxage" ∈ duplicates parsed) then not_cacheable
    else
      let cc := directives parsed in
      if hasCacheDirective cc "no-store" || hasCacheDirective cc "private" || hasCacheDirective cc "no-cache"
         || headerHasToken (header_values h "Pragma") "no-cache" then not_cacheable
      else
        let allowStale := negb (hasCacheDirective cc "must-revalidate" || hasCacheDirective cc "proxy-revalidate") in
        let initialAge := responseInitialAge h now in
        match origin_ttl resp cfg cc now with
        | None => not_cacheable
        | Some ttl => finish (dur_sub ttl initialAge) initialAge allowStale
        end
  else finish (default_ttl cfg) 0 true.

(** ** Conditional requests *)

Definition normalizeETag (value : str) : str :=
  let value := trim_space value in
  let value := if (2 <=? len value) && (has_prefix value "W/" || has_prefix value "w/")
               then trim_space (drop 2 value) else value in
  if negb (is_quoted value) then [] else value.

Definition weakETagMatch (items : list str) (current : str) : bool :=
  let current := normalizeETag current in
  if current =?s [] then false
  else existsb (λ raw, normalizeETag (trim_space raw) =?s current) items.

Definition ifNoneMatchWildcard (items : list str) : bool := existsb (λ raw, trim_space raw =?s "*") items.

Definition conditionalNotModified (req : Request) (h : header) (statusCode : Z) : bool :=
  if (statusCode <? 200) || (300 <=? statusCode) then false
  else
    let values := header_values (req_header req) "If-None-Match" in
    match values with
    | _ :: _ =>
        match parseHeaderListValues values with
        | None => false
        | Some items => if ifNoneMatchWildcard items then true else weakETagMatch items (header_get h "ETag")
        end
    | [] =>
        let ims := header_get (req_header req) "If-Modified-Since" in
        if negb (ims =?s []) then
          match ParseTime (header_get h "Last-Modified"), ParseTime ims with
          | Some modified, Some since => negb (time_after modified since)
          | _, _ => false
          end
        else false
    end.
End policy.

(** ** [splitHeaderList] against a specification

    The state of the scanner after a piece of text, and the texts that are one
    list item: they leave the scanner outside a quoted string and have no comma
    outside one. *)

Definition scan1 (st : option (bool * bool)) (c : ascii) : option (bool * bool) :=
  match st with
  | None => None
  | Some (quoted, escaped) =>
      if escaped then Some (quoted, false)
      else if quoted && (c =?c backslash) then Some (quoted, true)
      else if c =?c dquote then Some (negb quoted, escaped)
      else if (c =?c ",") && negb quoted then None
      else Some (quoted, escaped)
  end.
Definition is_item (s : str) : Prop := foldl scan1 (Some (false, false)) s = Some (false, false).
#[export] Instance is_item_dec s : Decision (is_item s) := decide (_ = _).

Lemma scan_none s : foldl scan1 None s = None.
Proof. by induction s. Qed.

Lemma split_loop_item q e pre item rest :
  foldl scan1 (Some (q, e)) item = Some (false, false) →
  splitHeaderList_loop q e pre (item ++ rest) = splitHeaderList_loop false false (pre ++ item) rest.
Proof.
  revert q e pre. induction item as [|c item IH]; intros q e pre; simpl.
  - intros [= -> ->]. by rewrite app_nil_r.
  - rewrite (cons_middle c pre item), app_assoc.
    destruct e; [by apply IH|]. destruct (q && (c =?c backslash)) eqn:E1; [by apply IH|].
    destruct (c =?c dquote) eqn:E2; [by apply IH|].
    destruct ((c =?c ",") && negb q) eqn:E3; [by rewrite scan_none | by apply IH].
Qed.

Lemma split_loop_sound q e pre value items : splitHeaderList_loop q e pre value = Some items →
  ∃ item rest, items = (pre ++ item) :: rest ∧ foldl scan1 (Some (q, e)) item = Some (false, false)
    ∧ Forall is_item rest ∧ value = match rest with [] => item | _ => item ++ "," ++ join "," rest end.
Proof.
  revert q e pre items. induction value as [|c value IH]; intros q e pre items; simpl.
  - destruct q, e; simpl; try done. intros [= <-]. exists [], []. by rewrite app_nil_r.
  - assert (∀ st pre', scan1 (Some (q, e)) c = Some st → pre' = pre ++ [c] →
      splitHeaderList_loop (fst st) (snd st) pre' value = Some items →
      ∃ item rest, items = (pre ++ item) :: rest ∧ foldl scan1 (Some (q, e)) item = Some (false, false)
       ∧ Forall is_item rest ∧ c :: value = match rest with [] => item | _ => item ++ "," ++ join "," rest end) as Hstep.
    { intros [q' e'] pre' Hst -> Hl. apply IH in Hl as (item & rest & -> & Hf & Hr & Hv).
      exists (c :: item), rest. rewrite <- app_assoc. simpl in *. rewrite Hst. split_and!; try done.
      rewrite Hv. by destruct rest. }
    unfold scan1 in Hstep. destruct e; [by apply Hstep with (st := (q, false))|].
    destruct (q && (c =?c backslash)) eqn:E1; [by apply Hstep with (st := (q, true))|].
    destruct (c =?c dquote) eqn:E2; [by apply Hstep with (st := (negb q, false))|].
    destruct ((c =?c ",") && negb q) eqn:E3; [|by apply Hstep with (st := (q, false))].
    destruct (splitHeaderList_loop q false [] value) as [l|] eqn:El; [|done]. intros [= <-].
    apply andb_true_iff in E3 as [->%eqc_true Hq]. destruct q; [done|].
    apply IH in El as (item & rest & -> & Hf & Hr & ->).
    exists [], (item :: rest). rewrite app_nil_r. split_and!; [done|done|by constructor|].
    destruct rest; done.
Qed.

Lemma split_loop_complete pre item rest : is_item item → Forall is_item rest →
  splitHeaderList_loop false false pre (join "," (item :: rest)) = Some ((pre ++ item) :: rest).
Proof.
  intros Hi Hr. revert pre item Hi. induction Hr as [|x rest Hx Hr IH]; intros pre item Hi; cbn [join].
  - rewrite <- (app_nil_r item) at 1. rewrite split_loop_item by done. done.
  - rewrite split_loop_item by done.
    transitivity (items ← splitHeaderList_loop false false [] (join "," (x :: rest)); Some ((pre ++ item) :: items));
      [done | by rewrite (IH [] x Hx)].
Qed.

Lemma splitHeaderList_iff value items :
  splitHeaderList value = Some items ↔ items ≠ [] ∧ Forall is_item items ∧ join "," items = value.
Proof.
  unfold splitHeaderList. split.
  - intros (item & rest & -> & Hf & Hr & ->)%split_loop_sound. simpl.
    split_and!; [done | by constructor | by destruct rest].
  - intros (Hne & Hi & <-). destruct items as [|x rest]; [done|]. apply Forall_cons in Hi as [Hx Hr].
    by rewrite split_loop_complete.
Qed.

(** the quote-aware list splitter accepts exactly the comma-joined lists of
    well-quoted items and returns those items: no comma inside a quoted string
    splits, and an unterminated quoted string is refused. *)
Theorem splitHeaderList_spec value items :
  splitHeaderList value = Some items ↔ items ≠ [] ∧ Forall is_item items ∧ join "," items = value.
Proof. apply splitHeaderList_iff. Qed.

(** The quoted-string form of a text: every quote and backslash is escaped. *)
Definition quote_value (s : str) : str :=
  dquote :: flat_map (λ c, if (c =?c dquote) || (c =?c backslash) then [backslash; c] else [c]) s ++ [dquote].

Lemma unquote_loop_quote s :
  unquote_loop false (flat_map (λ c, if (c =?c dquote) || (c =?c backslash) then [backslash; c] else [c]) s) = s.
Proof.
  induction s as [|c s IH]; [done|]. cbn [flat_map].
  destruct (c =?c dquote) eqn:E1; [apply eqc_true in E1 as ->; simpl; by rewrite IH|].
  destruct (c =?c backslash) eqn:E2; [apply eqc_true in E2 as ->; simpl; by rewrite IH|].
  simpl. by rewrite E2, IH.
Qed.

(** unquoting inverts quoting, for every byte string. *)
Theorem unquote_quote s : unquoteHeaderValue (quote_value s) = s ∧ is_item (quote_value s).
Proof.
  split.
  - unfold unquoteHeaderValue, quote_value. set (q := flat_map _ s).
    assert (is_quoted (dquote :: q ++ [dquote]) = true) as ->.
    { unfold is_quoted. rewrite len_cons, len_app, len_cons, len_nil. rewrite !andb_true_iff. split_and!.
      - apply Z.leb_le. pose proof (len_nonneg q). lia.
      - done.
      - apply bool_decide_eq_true. by rewrite app_comm_cons, last_snoc. }
    assert (take (length (dquote :: q ++ [dquote]) - 2) (drop 1 (dquote :: q ++ [dquote])) = q) as ->.
    { cbn [length drop]. rewrite length_app. apply take_app_length'. simpl. lia. }
    apply unquote_loop_quote.
  - unfold is_item, quote_value. simpl.
    assert (∀ r, foldl scan1 (Some (true, false))
      (flat_map (λ c, if (c =?c dquote) || (c =?c backslash) then [backslash; c] else [c]) s ++ r)
      = foldl scan1 (Some (true, false)) r) as ->; [|done].
    intros r. induction s as [|c s IH]; [done|]. cbn [flat_map]. rewrite <- app_assoc.
    destruct (c =?c dquote) eqn:E1; [apply eqc_true in E1 as ->; simpl; by rewrite IH|].
    destruct (c =?c backslash) eqn:E2; [apply eqc_true in E2 as ->; simpl; by rewrite IH|].
    simpl. rewrite E2, E1, andb_false_r. simpl. by rewrite IH.
Qed.

(** ** Cache keys *)

Section key_facts.
Context {U : Unicode} {SH : Sha256}.

(** A configured header name the validator accepts (a token), without the
    separator of the key's fields. *)
Definition key_name_ok (name : str) : Prop :=
  forallb token_byte (trim_space name) = true ∧ "|"%char ∉ trim_space name.
#[export] Instance key_name_ok_dec name : Decision (key_name_ok name) := _.

Definition header_field (req : Request) (canonical : str) : str :=
  "h:" ++ to_lower canonical ++ "=" ++ hex_encode (header_digest (header_values (req_header req) canonical)).

(** The header fields of a key, after the three fixed ones. *)
Fixpoint header_fields (req : Request) (seen : gset str) (names : list str) : list str :=
  match names with
  | [] => []
  | name :: names =>
      let canonical := canonical_key (trim_space name) in
      if canonical =?s [] then header_fields req seen names
      else if bool_decide (to_lower canonical ∈ seen) then header_fields req seen names
      else header_field req canonical :: header_fields req ({[to_lower canonical]} ∪ seen) names
  end.

Lemma foldl_appendHeader req seen k names :
  snd (foldl (appendHeader req) (seen, k) names) = k ++ flat_map (cons "|"%char) (header_fields req seen names).
Proof.
  revert seen k. induction names as [|n names IH]; intros seen k; cbn [foldl header_fields]; [by rewrite app_nil_r|].
  unfold appendHeader at 2. cbn [fst snd]. destruct (_ =?s []); [apply IH|].
  destruct (bool_decide _); [apply IH|]. rewrite IH. cbn [flat_map]. by rewrite <- app_assoc.
Qed.

Definition method_field (req : Request) : str :=
  "method=" ++ (if req_method req =?s "HEAD" then lit "GET" else req_method req).
Definition key_fields (req : Request) (cfg : CacheConfig) : list str :=
  method_field req :: ("host64=" ++ b64_encode (cacheHost (req_host req)))
    :: ("uri64=" ++ b64_encode (canonicalRequestURI (req_url req)))
    :: header_fields req ∅ (key_headers cfg).

Lemma cacheKey_fields req cfg : cacheKey req cfg = join "|" (key_fields req cfg).
Proof.
  unfold cacheKey. rewrite foldl_appendHeader. unfold key_fields. change (lit "|") with ["|"%char].
  rewrite join_concat. cbn [flat_map]. unfold key_prefix, method_field. rewrite <- !app_assoc. done.
Qed.

Lemma lower_no_pipe s : forallb token_byte s = true → "|"%char ∉ s → "|"%char ∉ to_lower (canonical_key s).
Proof.
  intros Ht Hs. destruct (canonical_key_lower s Ht) as [-> _]. intros (c & Hc & Hin)%list_elem_of_fmap.
  assert (c = "|"%char) as -> by (revert Hc; clear; all_bytes c). done.
Qed.

Lemma header_fields_no_pipe req seen names : Forall key_name_ok names →
  Forall (λ f, "|"%char ∉ f) (header_fields req seen names).
Proof.
  intros Hn. revert seen. induction Hn as [|n names [Hn1 Hn2] Hn IH]; intros seen; cbn [header_fields]; [constructor|].
  destruct (_ =?s []); [apply IH|]. destruct (bool_decide _); [apply IH|]. constructor; [|apply IH].
  unfold header_field. rewrite !elem_of_app. pose proof (lower_no_pipe _ Hn1 Hn2).
  intros [H1|[H1|[H1|H1]]]; [by vm_compute in H1; set_solver | done | set_solver | by apply hex_char_not_pipe in H1].
Qed.

Lemma key_headers_ok cfg : Forall key_name_ok (vary_request_headers cfg) → Forall key_name_ok (key_headers cfg).
Proof.
  intros H. unfold key_headers. repeat apply Forall_app_2; [done| |]; case_match; repeat constructor; vm_compute; set_solver.
Qed.

Definition plain_method (req : Request) : Prop := req_method req = "GET" ∨ req_method req = "HEAD".

Lemma key_fields_no_pipe req cfg : plain_method req → Forall key_name_ok (vary_request_headers cfg) →
  Forall (λ f, "|"%char ∉ f) (key_fields req cfg).
Proof.
  intros Hm Hn. unfold key_fields. repeat constructor.
  - unfold method_field. destruct Hm as [-> | ->]; vm_compute; set_solver.
  - rewrite elem_of_app. intros [H|H]; [by vm_compute in H; set_solver | by apply b64_encode_no_pipe in H].
  - rewrite elem_of_app. intros [H|H]; [by vm_compute in H; set_solver | by apply b64_encode_no_pipe in H].
  - by apply header_fields_no_pipe, key_headers_ok.
Qed.

Lemma split_cacheKey req cfg : plain_method req → Forall key_name_ok (vary_request_headers cfg) →
  split (cacheKey req cfg) "|" = key_fields req cfg.
Proof. intros Hm Hn. rewrite cacheKey_fields. by apply split_join, key_fields_no_pipe. Qed.

Lemma foldl_key_field_headers req acc seen names :
  foldl key_field acc (header_fields req seen names) = acc.
Proof.
  revert seen. induction names as [|n names IH]; intros seen; cbn [header_fields]; [done|].
  destruct (_ =?s []); [apply IH|]. destruct (bool_decide _); [apply IH|]. cbn [foldl]. rewrite <- (IH ({[to_lower (canonical_key (trim_space n))]} ∪ seen)) at 2.
  done.
Qed.

Lemma canonicalRequestURI_nonempty u : canonicalRequestURI u ≠ [].
Proof.
  unfold canonicalRequestURI, RequestURI. cbn [url_opaque url_path url_forcequery url_rawquery url_scheme].
  set (r := if url_opaque u =?s [] then _ else _).
  assert (r ≠ []) as Hr.
  { unfold r. destruct (url_opaque u =?s []) eqn:E.
    { set (p := if canonicalRequestPath _ =?s "*" then _ else _). destruct (p =?s []) eqn:E2; [discriminate | by boolify]. }
    boolify.
    destruct (has_prefix _ _); [|done]. intros [_ H]%app_nil. by apply app_nil in H as [? ?]. }
  destruct (_ || _); [|done]. by intros [? _]%app_nil.
Qed.

Lemma cacheKeyRequest_of req cfg : plain_method req → Forall key_name_ok (vary_request_headers cfg) →
  cacheHost (req_host req) ≠ [] →
  cacheKeyRequest (cacheKey req cfg) = Some (cacheHost (req_host req), canonicalRequestURI (req_url req)).
Proof.
  intros Hm Hn Hh. unfold cacheKeyRequest. rewrite split_cacheKey by done. unfold key_fields. cbn [foldl].
  assert (key_field ([], []) (method_field req) = ([], [])) as ->.
  { unfold method_field. destruct Hm as [-> | ->]; done. }
  unfold key_field at 3. rewrite has_prefix_app, trim_prefix_app. cbn [snd].
  unfold key_field at 2. rewrite (has_prefix_head _ "host64=" "u") by done.
  rewrite has_prefix_app, trim_prefix_app, foldl_key_field_headers. cbn [fst].
  rewrite (proj2 (eqs_false _ _)) by (by intros ?%b64_encode_nil).
  rewrite (proj2 (eqs_false _ _)) by (by intros ?%b64_encode_nil%canonicalRequestURI_nonempty).
  simpl. by rewrite !b64_roundtrip.
Qed.

(** the cache-admin filters recover from a cache key exactly the host and
    the request URI the key was made from. *)
Theorem cacheKey_roundtrip req cfg : plain_method req → Forall key_name_ok (vary_request_headers cfg) →
  cacheHost (req_host req) ≠ [] →
  cacheKeyRequest (cacheKey req cfg) = Some (cacheHost (req_host req), canonicalRequestURI (req_url req)).
Proof. exact (cacheKeyRequest_of req cfg). Qed.

(** Equal header fields mean equal digests, for every configured name. *)
Lemma header_fields_inj req1 req2 seen names : Forall key_name_ok names →
  header_fields req1 seen names = header_fields req2 seen names →
  ∀ n, n ∈ names → trim_space n ≠ [] → lower_ascii <$> trim_space n ∉ seen →
  header_digest (header_values (req_header req1) (trim_space n))
  = header_digest (header_values (req_header req2) (trim_space n)).
Proof.
  intros Hn. revert seen. induction Hn as [|n names [Hn _] Hns IH]; intros seen; cbn [header_fields].
  { intros _ n Hn. by apply not_elem_of_nil in Hn. }
  destruct (canonical_key_lower _ Hn) as [Hlow Hcan].
  destruct (canonical_key (trim_space n) =?s []) eqn:Ec; boolify.
  { intros H m [->|Hm]%elem_of_cons Hne Hs; [|by apply (IH seen)].
    exfalso. apply Hne. apply (f_equal (fmap lower_ascii)) in Ec. rewrite <- to_lower_ascii_fmap in Ec.
    - rewrite Hlow in Ec. by apply fmap_nil_inv in Ec.
    - apply token_ascii. unfold canonical_key. by rewrite Hn, token_canon, Hn. }
  destruct (bool_decide _) eqn:Es; boolify.
  { intros H m [->|Hm]%elem_of_cons Hne Hs; [|by apply (IH seen)]. rewrite Hlow in Es. done. }
  intros [= H1 H2] m Hm Hne Hs. unfold header_values at 1 2 in H1.
  assert (hd : header_digest (header_values (req_header req1) (trim_space n))
               = header_digest (header_values (req_header req2) (trim_space n))).
  { unfold header_values. rewrite canonical_key_idem in H1. by apply hex_encode_inj, app_inv_head in H1 || (
    apply app_inv_head in H1; injection H1 as H1; by apply hex_encode_inj in H1). }
  apply elem_of_cons in Hm as [->|Hm]; [done|].
  destruct (decide (lower_ascii <$> trim_space m = lower_ascii <$> trim_space n)) as [Heq|Hdiff].
  - rewrite Forall_forall in Hns. destruct (canonical_key_lower _ (proj1 (Hns m Hm))) as [_ Hcm].
    unfold header_values. rewrite <- Hcm, Heq, Hcan. exact hd.
  - apply (IH _ H2 m Hm Hne). rewrite Hlow. set_solver.
Qed.

Lemma cacheKey_inj req1 req2 cfg : plain_method req1 → plain_method req2 →
  Forall key_name_ok (vary_request_headers cfg) → cacheKey req1 cfg = cacheKey req2 cfg →
  cacheHost (req_host req1) = cacheHost (req_host req2)
  ∧ canonicalRequestURI (req_url req1) = canonicalRequestURI (req_url req2)
  ∧ header_fields req1 ∅ (key_headers cfg) = header_fields req2 ∅ (key_headers cfg).
Proof.
  intros Hm1 Hm2 Hn Hk. apply (f_equal (λ k, split k "|")) in Hk. rewrite !split_cacheKey in Hk by done.
  unfold key_fields in Hk. injection Hk as _ H1 H2 H3.
  split_and!; [|..|done]; by apply b64_encode_inj.
Qed.

(** C11: No cache poisoning across requests.  Two GET or HEAD requests with one
    cache key ask for the same host and canonical URI; and when a response's
    Vary header was accepted for storage, they agree on the digest of every
    header it names, and on Authorization and Cookie where those requests
    are cached at all.  Condition: no configured vary_request_headers name
    contains a vertical bar, which separates the fields of the key; validation
    accepts such a name. *)
Theorem cacheKey_partition req1 req2 cfg varyValues : plain_method req1 → plain_method req2 →
  Forall key_name_ok (vary_request_headers cfg) → cacheKey req1 cfg = cacheKey req2 cfg →
  varyIsSupported varyValues cfg = true →
  let same name := header_digest (header_values (req_header req1) name)
                   = header_digest (header_values (req_header req2) name) in
  cacheHost (req_host req1) = cacheHost (req_host req2)
  ∧ canonicalRequestURI (req_url req1) = canonicalRequestURI (req_url req2)
  ∧ (∀ value raw, value ∈ varyValues → raw ∈ split value "," → trim_space raw ≠ [] →
       forallb token_byte (trim_space raw) = true → same (trim_space raw))
  ∧ (cache_authorized_requests cfg = true → same (lit "Authorization"))
  ∧ (cache_cookie_requests cfg = true → same (lit "Cookie")).
Proof.
  intros Hm1 Hm2 Hn Hk Hv same. destruct (cacheKey_inj _ _ _ Hm1 Hm2 Hn Hk) as (H1 & H2 & H3).
  pose proof (header_fields_inj req1 req2 ∅ (key_headers cfg) (key_headers_ok cfg Hn) H3) as Hs.
  assert (cache_authorized_requests cfg = true → same (lit "Authorization")) as Ha.
  { intros Ha. apply (Hs (lit "Authorization")); [|done|set_solver]. unfold key_headers. rewrite Ha. set_solver. }
  assert (cache_cookie_requests cfg = true → same (lit "Cookie")) as Hc.
  { intros Hc. apply (Hs (lit "Cookie")); [|done|set_solver]. unfold key_headers. rewrite Hc. set_solver. }
  split_and!; try done. intros value raw Hval Hraw Hne Htok. unfold varyIsSupported in Hv.
  rewrite forallb_forall in Hv. apply list_elem_of_In, Hv in Hval. rewrite forallb_forall in Hval.
  apply list_elem_of_In, Hval in Hraw. rewrite to_lower_ascii_fmap in Hraw by by apply token_ascii.
  destruct (_ =?s []) eqn:E1; boolify; [by apply fmap_nil_inv in E1|].
  destruct (_ =?s "*") eqn:E2; [done|]. boolify. unfold vary_allowed in Hraw.
  assert (∀ n, canonical_key (lower_ascii <$> trim_space raw) = canonical_key n → same n → same (trim_space raw)) as Hsame.
  { intros n Hcn. unfold same, header_values. destruct (canonical_key_lower _ Htok) as [_ <-]. by rewrite Hcn. }
  rewrite !elem_of_app in Hraw. destruct Hraw as [Hraw|[Hraw|Hraw]].
  - apply list_elem_of_fmap in Hraw as (n & Heq & Hin). pose proof Hn as Hn'. rewrite Forall_forall in Hn'.
    destruct (Hn' n Hin) as [Hnt _]. simpl in Heq. rewrite to_lower_ascii_fmap in Heq by by apply token_ascii.
    apply (Hsame (trim_space n)).
    + rewrite Heq. by apply canonical_key_lower.
    + apply Hs; [unfold key_headers; set_solver | | set_solver]. intros Hnil. rewrite Hnil in Heq.
      by apply fmap_nil_inv in Heq.
  - destruct (cache_authorized_requests cfg); [|by apply not_elem_of_nil in Hraw].
    apply (Hsame (lit "Authorization")); [|by apply Ha]. apply list_elem_of_singleton in Hraw as ->. done.
  - destruct (cache_cookie_requests cfg); [|by apply not_elem_of_nil in Hraw].
    apply (Hsame (lit "Cookie")); [|by apply Hc]. apply list_elem_of_singleton in Hraw as ->. done.
Qed.

(** ** Purging by host and path, and by request *)

Context {N : NetURL}.

Lemma parse_canonicalRequestURI u : url_opaque u = [] → existsb ctl_byte (url_rawquery u) = false →
  ParseRequestURI_path (canonicalRequestURI u) = Some (canonicalRequestPath (url_path u)).
Proof.
  intros Ho Hq. unfold canonicalRequestURI, RequestURI.
  cbn [url_opaque url_path url_forcequery url_rawquery url_scheme]. rewrite Ho, eqs_refl.
  destruct (canonical_slash (url_path u)) as [t Ht]. rewrite Ht.
  assert (((slash :: t) =?s "*") = false) as -> by by apply eqs_false. set (p := path_escape (slash :: t)).
  assert (p = slash :: path_escape t) as Hp by done. assert ((p =?s []) = false) as -> by (by apply eqs_false).
  assert (existsb ctl_byte p = false ∧ "?"%char ∉ p) as [Hctl Hqm].
  { split.
    - destruct (existsb ctl_byte p) eqn:E; [|done]. apply existsb_exists in E as (c & Hc & Hcc).
      apply list_elem_of_In, path_escape_plain in Hc. revert Hc Hcc. clear. all_bytes c.
    - intros Hc%path_escape_plain. by vm_compute in Hc. }
  assert (∀ raw, existsb ctl_byte raw = false → (∃ t, raw = slash :: t) →
            ParseRequestURI_path raw = path_unescape (fst (fst (cut raw "?")))) as Hparse.
  { intros raw Hc [r ->]. unfold ParseRequestURI_path. by rewrite Hc. }
  destruct (_ || _).
  - rewrite Hparse.
    + change (p ++ lit "?" ++ url_rawquery u) with (p ++ "?"%char :: url_rawquery u).
      rewrite cut_app by done. apply path_unescape_escape.
    + rewrite !existsb_app, Hctl, Hq. done.
    + rewrite Hp. by eexists.
  - rewrite Hparse; [|done|by eexists]. rewrite cut_none by done. apply path_unescape_escape.
Qed.

Lemma purgePathMatches_spec u prefix : url_opaque u = [] → existsb ctl_byte (url_rawquery u) = false →
  Cache.purgePathMatches (canonicalRequestURI u) prefix = pathPrefixMatches (canonicalRequestPath (url_path u)) prefix.
Proof.
  intros Ho Hq. unfold Cache.purgePathMatches, pathPrefixMatches. rewrite parse_canonicalRequestURI by done.
  rewrite canonical_idem. by destruct (_ =?s "/").
Qed.

(** purging selects requests, not strings.  The entry stored for a request
    is purged by host and path prefix exactly when the request's host is the
    given one (or none was given) and the prefix's segments begin the
    request's path; and the invalidation after an unsafe method selects every
    variant stored under the same host and URI. *)
Theorem purge_selects_requests req cfg host ps uri : plain_method req →
  Forall key_name_ok (vary_request_headers cfg) → cacheHost (req_host req) ≠ [] → Forall seg_ok ps →
  url_opaque (req_url req) = [] → existsb ctl_byte (url_rawquery (req_url req)) = false →
  (Cache.purge_key cacheKeyRequest host (render ps) (cacheKey req cfg) = true ↔
     (host = [] ∨ cacheHost (req_host req) = host) ∧ ps `prefix_of` request_segments (url_path (req_url req)))
  ∧ (Cache.purge_request_key cacheKeyRequest host uri (cacheKey req cfg) = true ↔
     cacheHost (req_host req) = host ∧ canonicalRequestURI (req_url req) = uri).
Proof.
  intros Hm Hn Hh Hps Ho Hq. unfold Cache.purge_key, Cache.purge_request_key.
  rewrite cacheKeyRequest_of, purgePathMatches_spec by done. split.
  - rewrite <- prefix_segments_iff by done. assert ((render ps =?s []) = false) as -> by by apply eqs_false.
    destruct (host =?s []) eqn:E1; boolify; simpl.
    + destruct (pathPrefixMatches _ _); naive_solver.
    + destruct (_ =?s host) eqn:E2; boolify; simpl; [|naive_solver].
      destruct (pathPrefixMatches _ _); naive_solver.
  - rewrite andb_true_iff, !eqs_true. done.
Qed.
End key_facts.

(** ** Directives *)

Section directive_facts.
Context {U : Unicode}.

Definition directive_name (directive : str) : str := to_lower (trim_space (fst (fst (cut (trim_space directive) "=")))).

Definition cc_le (p q : parsedCacheControl) : Prop :=
  (invalid p = true → invalid q = true) ∧ (∀ k, is_Some (directives p !! k) → is_Some (directives q !! k)).

#[local] Instance cc_le_preorder : PreOrder cc_le.
Proof. split; [intros p; by split | intros p q r [? ?] [? ?]; split; naive_solver]. Qed.

Lemma parse_directive_le p d : cc_le p (parse_directive p d)
  ∧ (directive_name d = [] → invalid (parse_directive p d) = true)
  ∧ (directive_name d ≠ [] → is_Some (directives (parse_directive p d) !! directive_name d)).
Proof.
  unfold parse_directive, directive_name. destruct (cut (trim_space d) "=") as [[p0 p1] found]. cbn [fst snd].
  destruct (_ =?s []) eqn:E; boolify; [split_and!; [by split|done|done]|].
  destruct (directives p !! _) as [v|] eqn:Ed; (split_and!; [split; [done|] | done | intros _]); cbn [directives].
  - done.
  - by exists v.
  - intros k Hk. destruct (decide (to_lower (trim_space p0) = k)) as [<-|].
    + rewrite lookup_insert_eq. by eexists.
    + by rewrite lookup_insert_ne.
  - rewrite lookup_insert_eq. by eexists.
Qed.

Lemma foldl_directives_le ds p : cc_le p (foldl parse_directive p ds)
  ∧ ∀ d, d ∈ ds → invalid (foldl parse_directive p ds) = true
                  ∨ is_Some (directives (foldl parse_directive p ds) !! directive_name d).
Proof.
  revert p. induction ds as [|d0 ds IH]; intros p; cbn [foldl].
  { split; [done|]. intros d Hd. by apply not_elem_of_nil in Hd. }
  destruct (parse_directive_le p d0) as (Hle & Hnil & Hin). destruct (IH (parse_directive p d0)) as [Hle' Hin'].
  split; [by etrans|]. intros d [->|Hd]%elem_of_cons; [|by apply Hin'].
  destruct (decide (directive_name d0 = [])) as [He|He].
  - left. by apply Hle', Hnil.
  - right. by apply Hle', Hin.
Qed.

Lemma foldl_values_le values p : cc_le p (foldl parse_cc_value p values).
Proof.
  revert p. induction values as [|v values IH]; intros p; cbn [foldl]; [done|].
  etrans; [|apply IH]. unfold parse_cc_value. destruct (splitHeaderList v) as [ds|].
  - apply foldl_directives_le.
  - split; [done|]. done.
Qed.

(** Every directive of every field line is seen, or the whole is invalid. *)
Lemma parse_sees values v : v ∈ values →
  invalid (parseCacheControlDetailed values) = true
  ∨ ∃ items, splitHeaderList v = Some items
      ∧ ∀ d, d ∈ items → invalid (parseCacheControlDetailed values) = true
                         ∨ is_Some (directives (parseCacheControlDetailed values) !! directive_name d).
Proof.
  unfold parseCacheControlDetailed. generalize (mkParsed ∅ ∅ false). induction values as [|w values IH]; intros p.
  { by intros ?%not_elem_of_nil. }
  intros [->|Hv]%elem_of_cons; [|by apply IH]. cbn [foldl].
  pose proof (foldl_values_le values (parse_cc_value p w)) as [Hi Hd]. unfold parse_cc_value in *.
  destruct (splitHeaderList w) as [ds|]; [|left; by apply Hi]. right. exists ds. split; [done|].
  intros d Hin. destruct (foldl_directives_le ds p) as [_ H]. destruct (H d Hin); [left; by apply Hi | right; by apply Hd].
Qed.

Lemma hasCacheDirective_lower ds name : is_ascii name = true →
  hasCacheDirective ds name = bool_decide (is_Some (ds !! (lower_ascii <$> name))).
Proof. intros H. unfold hasCacheDirective. by rewrite to_lower_ascii_fmap. Qed.

Lemma requestCacheMode_store {T : HttpTime} req cfg : snd (fst (requestCacheMode req cfg)) = true →
  cache_enabled cfg = true ∧ hasProtocolUpgrade (req_header req) = false ∧ plain_method req
  ∧ headerHasNonEmptyValue (req_header req) "Range" = false
  ∧ (headerHasNonEmptyValue (req_header req) "Authorization" = true → cache_authorized_requests cfg = true)
  ∧ (headerHasNonEmptyValue (req_header req) "Cookie" = true → cache_cookie_requests cfg = true)
  ∧ let parsed := parseCacheControlDetailed (header_values (req_header req) "Cache-Control") in
    invalid parsed = false ∧ hasCacheDirective (directives parsed) "no-store" = false.
Proof.
  unfold requestCacheMode. repeat (case_goal; [done|]). intros _. boolify.
  repeat match goal with H : (_ && _)%bool = false |- _ => apply andb_false_iff in H end.
  destruct (cache_enabled cfg); [|done]. split_and!; try done.
  - unfold plain_method. destruct Heqb1 as [Hx|Hx]; apply negb_false_iff, eqs_true in Hx; auto.
  - destruct Heqb5 as [Hx|Hx]; [congruence|]. by apply negb_false_iff in Hx.
  - destruct Heqb6 as [Hx|Hx]; [congruence|]. by apply negb_false_iff in Hx.
Qed.

(** Some line of the header has a list item whose directive name is [name]
    (lower case), outside any quoted string. *)
Definition mentions (h : header) (name : str) : Prop :=
  ∃ v items d, v ∈ header_values h "Cache-Control" ∧ splitHeaderList v = Some items ∧ d ∈ items
               ∧ directive_name d = name.

Lemma mentions_seen h name : mentions h name →
  let parsed := parseCacheControlDetailed (header_values h "Cache-Control") in
  invalid parsed = true ∨ is_Some (directives parsed !! name).
Proof.
  intros (v & items & d & Hv & Hs & Hd & <-). destruct (parse_sees _ _ Hv) as [|(items' & Hs' & Hin)]; [by left|].
  rewrite Hs in Hs'. simplify_eq. by apply Hin.
Qed.

Lemma not_mentioned h name : is_ascii name = true → lower_ascii <$> name = name →
  let parsed := parseCacheControlDetailed (header_values h "Cache-Control") in
  invalid parsed = false → hasCacheDirective (directives parsed) name = false → ¬ mentions h name.
Proof.
  intros Ha Hl parsed Hi Hc Hm. apply mentions_seen in Hm as [Hm|Hm]; [unfold parsed in Hi; congruence|].
  rewrite hasCacheDirective_lower, Hl in Hc by done. boolify. done.
Qed.

(** a request takes part in shared caching only under the conditions the
    policy promises: caching on, no protocol upgrade, GET or HEAD, no Range,
    no [no-store] directive in any Cache-Control line, every such line
    well-formed, and Authorization or Cookie present only if caching of such
    requests was opted into.  A lookup is only ever made together with
    permission to store. *)
Theorem requestCacheMode_safe {T : HttpTime} req cfg lookup store reason :
  requestCacheMode req cfg = (lookup, store, reason) →
  (lookup = true → store = true)
  ∧ (store = true →
      cache_enabled cfg = true ∧ hasProtocolUpgrade (req_header req) = false ∧ plain_method req
      ∧ headerHasNonEmptyValue (req_header req) "Range" = false
      ∧ (headerHasNonEmptyValue (req_header req) "Authorization" = true → cache_authorized_requests cfg = true)
      ∧ (headerHasNonEmptyValue (req_header req) "Cookie" = true → cache_cookie_requests cfg = true)
      ∧ ¬ mentions (req_header req) "no-store"
      ∧ ∀ v, v ∈ header_values (req_header req) "Cache-Control" → is_Some (splitHeaderList v)).
Proof.
  intros Hr. split.
  - revert Hr. unfold requestCacheMode. repeat (case_goal; [by intros [= <- <- <-]|]). by intros [= <- <- <-].
  - intros ->. destruct (requestCacheMode_store req cfg) as (?&?&?&?&?&?& Hi & Hns); [by rewrite Hr|].
    split_and!; try done.
    + by apply not_mentioned.
    + intros v Hv. destruct (parse_sees _ _ Hv) as [Hx|(items & -> & _)]; [congruence | by eexists].
Qed.

Context {SH : Sha256} {T : HttpTime}.

Lemma capped_age_bounds s : 0 <= s →
  0 <= dur_mul (if maxAgeSeconds <? s then maxAgeSeconds else s) second <= max_int64.
Proof.
  intros Hs. set (c := if _ <? s then _ else _).
  assert (0 <= c <= 3153600000) as Hc.
  { unfold c. change maxAgeSeconds with 3153600000. case_goal; boolify; lia. }
  unfold dur_mul. change second with 1000000000. rewrite wrap64_id; unfold int64_ok, min_int64, max_int64; lia.
Qed.

Lemma responseInitialAge_bounds h now : 0 <= responseInitialAge h now <= max_int64.
Proof.
  unfold responseInitialAge. set (age := if negb _ then _ else 0).
  assert (0 <= age <= max_int64) as Ha.
  { assert (0 <= 0 <= max_int64) as H0 by (unfold max_int64; lia). unfold age.
    destruct (negb _); [|done]. destruct (parse_int _) as [s|]; [|done].
    destruct (0 <=? s) eqn:Es; [|done]. boolify. by apply capped_age_bounds. }
  destruct (ParseTime _) as [date|]; [|done]. destruct (time_after now date) eqn:E; [|done].
  destruct (age <? _) eqn:E2; [|done]. boolify. pose proof (time_sub_ok now date) as [? ?]. lia.
Qed.

Lemma cacheDeltaSeconds_bounds v s : cacheDeltaSeconds v = Some s →
  0 <= s ∧ dur_mul s second = s * second ∧ int64_ok (s * second).
Proof.
  unfold cacheDeltaSeconds. destruct (parse_int _) as [z|]; [|done]. destruct (_ || _) eqn:E; [done|].
  intros [= ->]. boolify. assert (int64_ok (s * second)) as Hok.
  { unfold maxDurationSeconds, int64_ok, max_int64, min_int64, second in *. revert H0. Z.to_euclidean_division_equations. lia. }
  split_and!; [done | by apply wrap64_id | done].
Qed.

(** The lifetime the origin (or the configuration) grants. *)
Definition granted_ttl (resp : Response) (cfg : CacheConfig) (now : time) : option duration :=
  if respect_origin_headers cfg then
    origin_ttl resp cfg (directives (parseCacheControlDetailed (header_values (resp_header resp) "Cache-Control"))) now
  else Some (default_ttl cfg).
Definition granted_age (resp : Response) (cfg : CacheConfig) (now : time) : duration :=
  if respect_origin_headers cfg then responseInitialAge (resp_header resp) now else 0.

Lemma responseCachePolicy_inv resp cfg now expires stale age :
  responseCachePolicy resp cfg now = (true, expires, stale, age) →
  resp_status resp ∈ cacheable_status_codes cfg
  ∧ (headerHasNonEmptyValue (resp_header resp) "Set-Cookie" = true → cache_set_cookie_responses cfg = true)
  ∧ varyIsSupported (header_values (resp_header resp) "Vary") cfg = true
  ∧ age = granted_age resp cfg now
  ∧ (∃ ttl, granted_ttl resp cfg now = Some ttl ∧ expires = now + (if respect_origin_headers cfg then dur_sub ttl age else ttl)
       ∧ now < expires)
  ∧ (stale = expires ∨ stale = expires + stale_if_error cfg)
  ∧ (respect_origin_headers cfg = true →
      let parsed := parseCacheControlDetailed (header_values (resp_header resp) "Cache-Control") in
      invalid parsed = false
      ∧ hasCacheDirective (directives parsed) "no-store" = false
      ∧ hasCacheDirective (directives parsed) "private" = false
      ∧ hasCacheDirective (directives parsed) "no-cache" = false
      ∧ (stale ≠ expires → hasCacheDirective (directives parsed) "must-revalidate" = false
                           ∧ hasCacheDirective (directives parsed) "proxy-revalidate" = false)).
Proof.
  unfold responseCachePolicy, granted_ttl, granted_age. destruct (negb _) eqn:E1; [done|].
  destruct (headerHasNonEmptyValue _ "Set-Cookie" && _) eqn:E2; [done|].
  destruct (negb _) eqn:E3 in |- *; [done|]. apply negb_false_iff in E1, E3.
  assert (resp_status resp ∈ cacheable_status_codes cfg) as Hst.
  { apply existsb_exists in E1 as (st & Hin & Heq). boolify. rewrite Heq. by apply list_elem_of_In. }
  assert (headerHasNonEmptyValue (resp_header resp) "Set-Cookie" = true → cache_set_cookie_responses cfg = true) as Hsc.
  { intros H. rewrite H in E2. simpl in E2. by apply negb_false_iff in E2. }
  destruct (respect_origin_headers cfg).
  - destruct (_ || _ || _) eqn:E4; [done|]. destruct (_ || _ || _ || _) eqn:E5; [done|]. boolify.
    destruct (origin_ttl _ _ _ _) as [ttl|]; [|done].
    destruct (_ <=? 0) eqn:E6; [done|]. unfold time_add. intros [= <- <- <-]. boolify.
    split_and!; try done; [exists ttl; split_and!; [done|done|lia] | case_goal; auto | ].
    intros _. split_and!; try done. intros Hne. destruct (negb _) eqn:E7 in Hne; [|done].
    apply negb_true_iff in E7. by apply orb_false_iff in E7.
  - destruct (_ <=? 0) eqn:E6; [done|]. unfold time_add. intros [= <- <- <-]. boolify.
    split_and!; try done; [eexists; split_and!; [done|done|lia] | by right].
Qed.

(** a response enters the shared cache only if its status is configured as
    cacheable, it sets no cookie (unless opted in), its Vary header is covered
    by the cache key and — when origin headers are respected — no
    Cache-Control line says [no-store], [private] or [no-cache]; entries under
    [must-revalidate] or [proxy-revalidate] are never kept past expiry. *)
Theorem responseCachePolicy_safe resp cfg now expires stale age :
  responseCachePolicy resp cfg now = (true, expires, stale, age) →
  resp_status resp ∈ cacheable_status_codes cfg
  ∧ (headerHasNonEmptyValue (resp_header resp) "Set-Cookie" = true → cache_set_cookie_responses cfg = true)
  ∧ varyIsSupported (header_values (resp_header resp) "Vary") cfg = true
  ∧ now < expires
  ∧ (respect_origin_headers cfg = true →
      ¬ mentions (resp_header resp) "no-store" ∧ ¬ mentions (resp_header resp) "private"
      ∧ ¬ mentions (resp_header resp) "no-cache"
      ∧ (mentions (resp_header resp) "must-revalidate" ∨ mentions (resp_header resp) "proxy-revalidate" →
         stale = expires)).
Proof.
  intros (H1 & H2 & H3 & _ & (ttl & _ & _ & Hlt) & Hst & Hr)%responseCachePolicy_inv.
  split_and!; try done. intros Hresp. destruct (Hr Hresp) as (Hi & Hns & Hp & Hnc & Hmr).
  split_and!; try by apply not_mentioned. intros Hm. destruct (decide (stale = expires)) as [|Hne]; [done|].
  destruct (Hmr Hne) as [Ha Hb]. destruct Hm as [Hm|Hm]; exfalso; revert Hm; by apply not_mentioned.
Qed.

(** the freshness lifetime.  When s-maxage, or else max-age, is present
    the response expires exactly that many seconds after it left the origin —
    [seconds * 10^9 - age] nanoseconds from now, without overflow, for every
    value the parser accepts — and it is stored with a nonnegative age. *)
Theorem responseCachePolicy_lifetime resp cfg now expires stale age :
  respect_origin_headers cfg = true →
  responseCachePolicy resp cfg now = (true, expires, stale, age) →
  let cc := directives (parseCacheControlDetailed (header_values (resp_header resp) "Cache-Control")) in
  0 <= age ∧
  ∀ raw, cc !! lit "s-maxage" = Some raw ∨ (cc !! lit "s-maxage" = None ∧ cc !! lit "max-age" = Some raw) →
    ∃ seconds, cacheDeltaSeconds raw = Some seconds
      ∧ expires = now + (seconds * second - age) ∧ age < seconds * second.
Proof.
  intros Hresp (_ & _ & _ & Hage & (ttl & Httl & Hexp & Hlt) & _)%responseCachePolicy_inv cc.
  unfold granted_ttl, granted_age in *. rewrite Hresp in *.
  pose proof (responseInitialAge_bounds (resp_header resp) now) as Hb. rewrite <- Hage in Hb. split; [lia|].
  intros raw Hraw. assert (∃ seconds, cacheDeltaSeconds raw = Some seconds ∧ ttl = dur_mul seconds second) as (sec & Hs & ->).
  { unfold origin_ttl in Httl. fold cc in Httl. rewrite !hasCacheDirective_lower in Httl by done.
    change (lower_ascii <$> lit "s-maxage") with (lit "s-maxage") in Httl.
    change (lower_ascii <$> lit "max-age") with (lit "max-age") in Httl.
    destruct Hraw as [Hraw|[Hn Hraw]].
    - rewrite Hraw in Httl. rewrite bool_decide_eq_true_2 in Httl by (by eexists). simpl in Httl.
      destruct (cacheDeltaSeconds raw) as [sec|]; simplify_eq/=. by exists sec.
    - rewrite Hn, Hraw in Httl. rewrite bool_decide_eq_false_2 in Httl by apply is_Some_None.
      rewrite bool_decide_eq_true_2 in Httl by (by eexists). simpl in Httl.
      destruct (cacheDeltaSeconds raw) as [sec|]; simplify_eq/=. by exists sec. }
  exists sec. destruct (cacheDeltaSeconds_bounds raw sec Hs) as (Hpos & Hmul & Hok).
  rewrite Hmul in Hexp. unfold dur_sub in Hexp.
  rewrite wrap64_id in Hexp by (unfold int64_ok, min_int64, max_int64, second in *; lia).
  split_and!; [done | done | lia].
Qed.
End directive_facts.

(** ** Witnesses and two defects *)

Definition sample_cfg : CacheConfig :=
  mkCacheCfg true (60 * second) (30 * second) 100 10000 1000 true false true false (lits ["Accept-Language"]) [200].
Definition sample_req (method lang cookie : string) : Request :=
  mkRequest method "Shop.Example.com." (mkURL [] [] [] "/a/./b" "q=1" false)
            {[ lit "Accept-Language" := [lit lang]; lit "Cookie" := [lit cookie] ]} "1.2.3.4:5".

(** Concrete stand-ins for the class parameters. *)
Definition sample_sha : Sha256 := λ s, s.
Definition sample_url : NetURL := {| absolute_uri_path := λ _, None |}.
Definition year_one : str := "Mon, 01 Jan 0001 00:00:00 GMT".
Definition sample_time : HttpTime := λ s, if s =?s year_one then Some 0 else None.

Lemma sample_names_ok : Forall key_name_ok (vary_request_headers sample_cfg).
Proof. repeat constructor; vm_compute; set_solver. Qed.

Lemma cacheKey_roundtrip_witness :
  cacheKeyRequest (cacheKey (U := unicode_ascii) (SH := sample_sha) (sample_req "HEAD" "en" "c=1") sample_cfg)
  = Some (lit "shop.example.com", lit "/a/b?q=1").
Proof.
  rewrite (cacheKey_roundtrip (U := unicode_ascii) (SH := sample_sha) (sample_req "HEAD" "en" "c=1") sample_cfg).
  - vm_compute. reflexivity.
  - right. reflexivity.
  - apply sample_names_ok.
  - vm_compute. discriminate.
Defined.

Lemma cacheKey_partition_witness :
  varyIsSupported (U := unicode_ascii) (lits ["accept-language , Cookie"]) sample_cfg = true
  ∧ cacheHost (U := unicode_ascii) (req_host (sample_req "GET" "en" "c=1"))
    = cacheHost (U := unicode_ascii) (req_host (sample_req "HEAD" "en" "c=1")).
Proof.
  split; [vm_compute; reflexivity|].
  refine (proj1 (cacheKey_partition (U := unicode_ascii) (SH := sample_sha) (sample_req "GET" "en" "c=1")
    (sample_req "HEAD" "en" "c=1") sample_cfg (lits ["accept-language , Cookie"]) _ _ sample_names_ok _ _)).
  - left. reflexivity.
  - right. reflexivity.
  - vm_compute. reflexivity.
  - vm_compute. reflexivity.
Defined.

Lemma purge_selects_requests_witness :
  Cache.purge_key (N := sample_url) (cacheKeyRequest) [] (render (lits ["a"]))
    (cacheKey (U := unicode_ascii) (SH := sample_sha) (sample_req "GET" "en" "c=1") sample_cfg) = true.
Proof.
  refine (proj2 (proj1 (purge_selects_requests (U := unicode_ascii) (SH := sample_sha) (N := sample_url)
    (sample_req "GET" "en" "c=1") sample_cfg [] (lits ["a"]) [] _ sample_names_ok _ _ _ _)) _).
  - left. reflexivity.
  - vm_compute. discriminate.
  - repeat constructor; vm_compute; intros H; try discriminate H; set_solver.
  - reflexivity.
  - reflexivity.
  - split; [left; reflexivity|]. exists (lits ["b"]). vm_compute. reflexivity.
Defined.

Lemma requestCacheMode_safe_witness :
  requestCacheMode (U := unicode_ascii) (sample_req "GET" "en" "c=1") sample_cfg = (true, true, [])
  ∧ cache_cookie_requests sample_cfg = true.
Proof.
  assert (requestCacheMode (U := unicode_ascii) (sample_req "GET" "en" "c=1") sample_cfg = (true, true, [])) as Hm
    by (vm_compute; reflexivity).
  split; [exact Hm|].
  destruct (requestCacheMode_safe (U := unicode_ascii) (T := sample_time) _ _ _ _ _ Hm) as [_ Hs].
  destruct (Hs eq_refl) as (_ & _ & _ & _ & _ & Hc & _). apply Hc. vm_compute. reflexivity.
Defined.

Definition sample_resp (cc expires age : string) : Response :=
  mkResponse 200 {[ lit "Cache-Control" := [lit cc]; lit "Expires" := [lit expires]; lit "Age" := [lit age] ]} [].

Lemma responseCachePolicy_safe_witness :
  let p := responseCachePolicy (U := unicode_ascii) (T := sample_time) (SH := sample_sha)
             (sample_resp "max-age=60, must-revalidate" "" "10") sample_cfg 1000 in
  p = (true, 1000 + 50 * second, 1000 + 50 * second, 10 * second) ∧ 1000 < 1000 + 50 * second.
Proof.
  intros p. assert (p = (true, 1000 + 50 * second, 1000 + 50 * second, 10 * second)) as Hp by (vm_compute; reflexivity).
  split; [exact Hp|].
  destruct (responseCachePolicy_safe (U := unicode_ascii) (T := sample_time) (SH := sample_sha) _ _ _ _ _ _ Hp)
    as (_ & _ & _ & Hlt & _). exact Hlt.
Defined.

Lemma responseCachePolicy_lifetime_witness :
  let p := responseCachePolicy (U := unicode_ascii) (T := sample_time) (SH := sample_sha)
             (sample_resp "max-age=60, must-revalidate" "" "10") sample_cfg 1000 in
  p = (true, 1000 + 50 * second, 1000 + 50 * second, 10 * second) ∧ 0 <= 10 * second.
Proof.
  intros p. assert (p = (true, 1000 + 50 * second, 1000 + 50 * second, 10 * second)) as Hp by (vm_compute; reflexivity).
  split; [exact Hp|].
  exact (proj1 (responseCachePolicy_lifetime (U := unicode_ascii) (T := sample_time) (SH := sample_sha)
                  (sample_resp "max-age=60, must-revalidate" "" "10") sample_cfg 1000 _ _ _ eq_refl Hp)).
Defined.

(** a defect.  A response whose Expires date lies in year 1 and which carries
    [Age: 1] is already expired, yet it is stored as fresh for more than 292
    years: the difference of the dates saturates at the least [Duration], and
    subtracting the age wraps it around to a positive one. *)
Theorem expired_response_is_cached :
  let now := 63900000000 * second in
  let resp := mkResponse 200 {[ lit "Expires" := [year_one]; lit "Age" := [lit "1"] ]} [] in
  (ParseTime (HttpTime := sample_time) (header_get (resp_header resp) "Expires") = Some 0 ∧ 0 < now)
  ∧ ∃ expires stale age,
      responseCachePolicy (U := unicode_ascii) (T := sample_time) (SH := sample_sha) resp sample_cfg now
        = (true, expires, stale, age)
      ∧ now + 292 * 365 * 86400 * second < expires.
Proof.
  split; [split; vm_compute; reflexivity|]. do 3 eexists. split; [vm_compute; reflexivity|]. vm_compute. reflexivity.
Qed.

(** SHA-256 of the empty string, which is what an absent header hashes to. *)
Definition sha256_empty : str :=
  chr <$> [227; 176; 196; 66; 152; 252; 28; 20; 154; 251; 244; 200; 153; 111; 185; 36;
           39; 174; 65; 228; 100; 155; 147; 76; 164; 149; 153; 27; 120; 82; 184; 85].
Definition empty_sha : Sha256 := λ s, if s =?s [] then sha256_empty else s.

Definition pipe_cfg : CacheConfig :=
  mkCacheCfg true (60 * second) 0 100 10000 1000 true false false false (lits ["a|host64"]) [200].
Definition pipe_key (method : string) : str :=
  cacheKey (U := unicode_ascii) (SH := empty_sha) (sample_req method "en" "c=1") pipe_cfg.

(** a defect.  "|" is a byte a header name may contain, and the configuration
    accepts any valid name in vary_request_headers; with the name "a|host64" a
    cached entry is missed both by a purge of its host and by the invalidation
    that follows an unsafe request for its own host and URI. *)
Theorem vary_name_hides_entries :
  forallb token_byte (lit "a|host64") = true
  ∧ (let req := sample_req "GET" "en" "c=1" in
     let host := cacheHost (U := unicode_ascii) (req_host req) in
     host = lit "shop.example.com"
     ∧ Cache.purge_key (N := sample_url) cacheKeyRequest host [] (pipe_key "GET") = false
     ∧ Cache.purge_request_key cacheKeyRequest host (canonicalRequestURI (req_url req)) (pipe_key "GET") = false).
Proof. split; [vm_compute; reflexivity|]. split_and!; vm_compute; reflexivity. Qed.
End CachePolicy.
