(* ===== verification/ProxyHeaders.v ===== *)
(** * Request and response headers, request identifiers and URL rewriting:
    apps/edgeproxy/internal/proxy/helpers.go

    Loops over an [http.Header] visit the map in an arbitrary order, which is an
    explicit argument here. *)

From S2P Require Import Prelude GoStr GoPath GoHttp GoCodec CachePolicy.

Module ProxyHeaders.
Import CachePolicy.

Definition hopHeaders : list str :=
  lits ["Connection"; "Proxy-Connection"; "Keep-Alive"; "Proxy-Authenticate"; "Proxy-Authorization";
        "Te"; "Trailer"; "Transfer-Encoding"; "Upgrade"].

(** The field names the Connection header nominates. *)
Definition nominated (h : header) : list str :=
  trim_space <$> flat_map (λ f, split f ",") (header_values h "Connection").

Definition removeHopByHop (h : header) : header := foldl header_del (foldl header_del h (nominated h)) hopHeaders.

Definition validHTTPToken (value : str) : bool := negb (value =?s []) && forallb token_byte value.

Definition validHTTPProtocol (value : str) : bool :=
  let '(name, version, versioned) := cut value "/" in
  if negb (validHTTPToken name) then false
  else if negb versioned then true
  else negb (version =?s []) && negb (mem_byte "/" version) && validHTTPToken version.

Section protocol.
Context {U : Unicode}.

(** [inl] is the error. *)
Definition protocolUpgrade (h : header) : str + str :=
  if negb (headerHasToken (header_values h "Connection") "upgrade") then
    if negb (trim_space (header_get h "Upgrade") =?s [])
    then inl (lit "Upgrade header requires Connection: upgrade")
    else inr []
  else
    match header_values h "Upgrade" with
    | [v] =>
        let value := trim_space v in
        if validHTTPProtocol value then inr value else inl (lit "invalid protocol upgrade value")
    | _ => inl (lit "protocol upgrade requires exactly one Upgrade header")
    end.

Definition identity_names : list str :=
  lits ["forwarded"; "client-ip"; "x-real-ip"; "true-client-ip"; "x-client-ip"; "x-cluster-client-ip";
        "x-originating-ip"; "x-original-forwarded-for"; "cf-connecting-ip"; "fastly-client-ip";
        "fly-client-ip"; "x-appengine-user-ip"; "x-azure-clientip"; "proxy-client-ip"; "wl-proxy-client-ip"].

(** Whether the loop removes a header name. *)
Definition is_identity (configured name : str) : bool :=
  equal_fold name (trim_space configured) || has_prefix (to_lower name) "x-forwarded-"
  || bool_decide (to_lower name ∈ identity_names).

(** [order] are the keys of [h] in the order the runtime visits them. *)
Definition removeForwardingIdentityHeaders (configured : str) (order : list str) (h : header) : header :=
  foldl (λ h name, if is_identity configured name then header_del h name else h) h order.
End protocol.

Definition copyHeaders (dst : header) (src : list (str * list str)) : header :=
  foldl (λ dst kv, foldl (λ dst value, header_add dst (fst kv) value) dst (snd kv)) dst src.

Definition internalProbeHeader : str := "X-SecureEdge-Internal-Probe".

Definition origin_stripped : list str :=
  lits ["Server"; "X-Powered-By"; "X-AspNet-Version"; "X-AspNetMvc-Version"; "X-Request-ID"; "X-Cache";
        "X-Upstream-Response-Time"; "X-Security-Action"; "X-Security-Score"; "X-Security-Gateway"]
    ++ [internalProbeHeader].

Definition sanitizeOriginResponseHeaders (h : header) : header := foldl header_del h origin_stripped.

Definition request_id_byte (c : ascii) : bool := is_alnum c || mem_byte c "-_.:".
Definition validRequestID (value : str) : bool :=
  if (value =?s []) || (128 <? len value) then false else forallb request_id_byte value.

(** [strconv.FormatInt(n, 36)] of a nonnegative number. *)
Fixpoint base36 (fuel : nat) (n : Z) : str :=
  match fuel with
  | O => []
  | S fuel =>
      let d := n mod 36 in
      (if n / 36 =? 0 then [] else base36 fuel (n / 36)) ++ [if d <? 10 then chr (48 + d) else chr (87 + d)]
  end.

(** [random] is what [rand.Read] filled the 16 bytes with, or [None] on failure;
    [now] is the Unix time in nanoseconds. *)
Definition requestID (h : header) (random : option str) (now : Z) : str :=
  let value := trim_space (header_get h "X-Request-ID") in
  if validRequestID value then value
  else match random with
       | Some b => hex_encode b
       | None => "fallback-" ++ base36 13 now
       end.

Definition rewriteURL (u base : URL) (routePrefix : str) (stripPrefix : bool) : URL :=
  let requestPath := canonicalRequestPath (url_path u) in
  let requestPath :=
    if stripPrefix then
      let p := trim_prefix requestPath routePrefix in if p =?s [] then lit "/" else p
    else requestPath in
  mkURL (url_scheme base) (url_opaque u) (url_host base) (joinPath (url_path base) requestPath)
        (if (url_rawquery base =?s []) || (url_rawquery u =?s [])
         then url_rawquery base ++ url_rawquery u else url_rawquery base ++ "&" ++ url_rawquery u)
        (url_forcequery u).

Definition isIdempotent (method : str) : bool :=
  bool_decide (method ∈ lits ["GET"; "HEAD"; "OPTIONS"; "TRACE"; "PUT"; "DELETE"]).

(** ** Properties *)

(** exactly the connection-specific headers are removed before a request or
    response is forwarded: the standard ones and every one the Connection
    header nominates, in any line and any letter case; all others are kept. *)
Theorem removeHopByHop_exact h k :
  removeHopByHop h !! k =
    if decide (k ∈ canonical_key <$> hopHeaders ++ nominated h) then None else h !! k.
Proof.
  unfold removeHopByHop. rewrite !header_del_foldl, fmap_app. repeat case_decide; set_solver.
Qed.

Section identity.
Context {U : Unicode}.

Lemma foldl_identity configured order h k : header_canonical h → (∀ n, n ∈ order → is_Some (h !! n)) →
  removeForwardingIdentityHeaders configured order h !! k
  = if bool_decide (k ∈ order) && is_identity configured k then None else h !! k.
Proof.
  intros Hc Hin. unfold removeForwardingIdentityHeaders.
  assert (∀ n, n ∈ order → canonical_key n = n) as Hcan by (intros n Hn; by apply Hc, Hin).
  clear Hc Hin. revert h. induction order as [|n order IH]; intros h; cbn [foldl]; [done|].
  rewrite IH by set_solver. pose proof (Hcan n ltac:(set_solver)) as Hn.
  destruct (decide (k = n)) as [->|Hne].
  - rewrite (bool_decide_eq_true_2 (n ∈ n :: order)) by set_solver.
    destruct (is_identity configured n); rewrite ?andb_false_r; [|done].
    rewrite header_del_lookup, Hn, decide_True by done. by destruct (_ && _).
  - rewrite (bool_decide_ext (k ∈ n :: order) (k ∈ order)) by set_solver.
    destruct (is_identity configured n); [|done].
    rewrite header_del_lookup, Hn, decide_False by done. done.
Qed.

(** no client-controlled forwarding identity survives, whatever order the
    header map is visited in; and every other header is left as it was. *)
Theorem removeForwardingIdentityHeaders_exact configured order h k : header_canonical h →
  order ≡ₚ (map_to_list h).*1 →
  removeForwardingIdentityHeaders configured order h !! k
  = if is_identity configured k then None else h !! k.
Proof.
  intros Hc Ho.
  assert (∀ n, n ∈ order ↔ is_Some (h !! n)) as Hin.
  { intros n. rewrite Ho, list_elem_of_fmap. split.
    - intros ([n' v] & -> & Hv%elem_of_map_to_list). by exists v.
    - intros [v Hv]. exists (n, v). split; [done|]. by apply elem_of_map_to_list. }
  rewrite foldl_identity by (done || intros n; by apply Hin).
  destruct (bool_decide (k ∈ order)) eqn:E; boolify; [done|]. simpl.
  destruct (is_identity configured k); [|done]. rewrite Hin in E. by apply eq_None_not_Some.
Qed.

(** the strict upgrade check.  It accepts exactly the requests that either
    attempt no upgrade at all or name one protocol — a token, or a token with a
    token version — in a single Upgrade field together with a Connection
    token; the value forwarded is that protocol, and it is empty exactly when
    the request is not an upgrade attempt. *)
Theorem protocolUpgrade_spec h :
  match protocolUpgrade h with
  | inl _ => hasProtocolUpgrade h = true
  | inr [] => hasProtocolUpgrade h = false
  | inr value =>
      hasProtocolUpgrade h = true ∧ headerHasToken (header_values h "Connection") "upgrade" = true
      ∧ (∃ v, header_values h "Upgrade" = [v] ∧ trim_space v = value)
      ∧ (validHTTPToken value = true
         ∨ ∃ name version, value = name ++ "/" ++ version ∧ validHTTPToken name = true ∧ validHTTPToken version = true)
  end.
Proof.
  unfold protocolUpgrade, hasProtocolUpgrade. destruct (headerHasToken _ _) eqn:E; cbn [negb orb].
  - destruct (header_values h "Upgrade") as [|v [|w vs]] eqn:Ev; [done| |done].
    destruct (validHTTPProtocol (trim_space v)) eqn:Evp; [|done].
    unfold validHTTPProtocol in Evp. destruct (cut _ _) as [[name version] found] eqn:Ec.
    destruct (validHTTPToken name) eqn:Et; [|done]. cbn [negb] in Evp.
    destruct (trim_space v) as [|c t] eqn:Etr.
    { exfalso. destruct found; [by apply cut_true in Ec as [Ec _]; destruct name|].
      apply cut_false in Ec as (-> & _). done. }
    split_and!; try done; [by exists v|]. destruct found; cbn [negb] in Evp.
    + right. apply cut_true in Ec as [-> _]. exists name, version. boolify. done.
    + left. apply cut_false in Ec as (<- & _). done.
  - by destruct (negb _).
Qed.
End identity.

(** metadata the edge itself sets can never come from an origin or be stored
    with its response: exactly the listed headers are deleted. *)
Theorem sanitizeOriginResponseHeaders_exact h k :
  sanitizeOriginResponseHeaders h !! k =
    if decide (k ∈ canonical_key <$> origin_stripped) then None else h !! k.
Proof. unfold sanitizeOriginResponseHeaders. by rewrite header_del_foldl. Qed.

(** Request paths after the route prefix is stripped. *)
Lemma stripped_elements u ps : Forall seg_ok ps → ps `prefix_of` request_segments u →
  let p := trim_prefix (canonicalRequestPath u) (render ps) in
  elements (if p =?s [] then lit "/" else p) = drop (length ps) (request_segments u).
Proof.
  intros Hps Hpre p. pose proof (request_segments_ok u) as Hok.
  assert (elements (if p =?s [] then lit "/" else p) = elements p) as ->.
  { destruct (p =?s []) eqn:E; [|done]. boolify. by rewrite E. }
  unfold p. rewrite canonical_is_form. set (segs := request_segments u) in *. set (tr := has_suffix u "/").
  destruct (decide (ps = [])) as [->|Hne].
  { rewrite drop_0. rewrite <- (elements_form segs tr Hok) at 2.
    assert (∃ t, canonical_form segs tr = slash :: t) as [t Ht] by by eexists.
    rewrite Ht. change (render []) with (lit "/"). change (slash :: t) with (lit "/" ++ t) at 1.
    rewrite trim_prefix_app. change (slash :: t) with ([] ++ slash :: t). by rewrite (elements_app []). }
  pose proof (prefix_segments_complete ps segs tr Hok Hne Hpre) as Hc.
  destruct Hpre as [k Hk]. rewrite Hk, drop_app_length.
  assert (∀ l, elements (canonical_form segs tr) = ps ++ l → l = k) as Hel.
  { intros l Hl. rewrite elements_form, Hk in Hl by done. by apply app_inv_head in Hl. }
  rewrite <- Hk. destruct Hc as [Hc|[rest Hc]]; rewrite Hc in Hel |- *.
  - rewrite <- (app_nil_r (render ps)) at 1. rewrite trim_prefix_app. apply Hel.
    rewrite app_nil_r. assert (render ps = canonical_form ps false) as -> by (unfold canonical_form; by rewrite app_nil_r).
    by apply elements_form.
  - rewrite trim_prefix_app. apply Hel. rewrite elements_app.
    change (slash :: rest) with ([] ++ slash :: rest). rewrite (elements_app []). f_equal.
    assert (render ps = canonical_form ps false) as -> by (unfold canonical_form; by rewrite app_nil_r).
    by apply elements_form.
Qed.

(** a request cannot leave the upstream's base path.  The forwarded path has
    the segments of the base path followed by those of the request — without
    the route's prefix when stripping is on — and none of them is "..". *)
Theorem rewriteURL_confined u base ps strip : Forall seg_ok ps → ps `prefix_of` request_segments (url_path u) →
  url_path base = [] ∨ head (url_path base) = Some slash →
  let out := rewriteURL u base (render ps) strip in
  request_segments (url_path out) = request_segments (url_path base)
    ++ drop (if strip then length ps else 0) (request_segments (url_path u))
  ∧ Forall seg_ok (request_segments (url_path out))
  ∧ url_host out = url_host base ∧ url_scheme out = url_scheme base.
Proof.
  intros Hps Hpre Hb out. pose proof (request_segments_ok (url_path u)) as Hok.
  split_and!; [|apply request_segments_ok|done|done]. unfold out, rewriteURL. cbn [url_path].
  set (next := if strip then _ else _).
  assert (elements next = drop (if strip then length ps else 0) (request_segments (url_path u))) as He.
  { unfold next. destruct strip; [by apply stripped_elements|].
    rewrite drop_0, canonical_is_form. by apply elements_form. }
  destruct (joinPath_form (url_path base) next Hb) as [tr ->].
  { unfold plain_path. rewrite He. by apply Forall_drop. }
  rewrite He, request_segments_form; [done|]. apply Forall_app. split; [apply request_segments_ok | by apply Forall_drop].
Qed.

(** *** Witnesses *)

Definition sample_header : header :=
  {[ lit "X-Forwarded-For" := [lit "6.6.6.6"]; lit "Cf-Connecting-Ip" := [lit "6.6.6.6"]; lit "Accept" := [lit "*/*"] ]}.

Lemma sample_header_canonical : header_canonical sample_header.
Proof.
  intros k. rewrite <- elem_of_dom. unfold sample_header. rewrite !dom_insert_L, dom_singleton_L.
  rewrite !elem_of_union, !elem_of_singleton. intros [-> | [-> | ->]]; vm_compute; reflexivity.
Qed.

Lemma removeForwardingIdentityHeaders_exact_witness :
  removeForwardingIdentityHeaders (U := unicode_ascii) "X-Real-IP" (map_to_list sample_header).*1 sample_header
    !! lit "Cf-Connecting-Ip" = None.
Proof.
  rewrite (removeForwardingIdentityHeaders_exact (U := unicode_ascii) "X-Real-IP" _ sample_header _
             sample_header_canonical (reflexivity _)).
  vm_compute. reflexivity.
Defined.

Lemma rewriteURL_confined_witness :
  request_segments (url_path (rewriteURL (mkURL [] [] [] "/api/../api/v1/../../api/x" [] false)
    (mkURL "http" [] "up:80" "/base" [] false) (render (lits ["api"])) true)) = lits ["base"; "x"].
Proof.
  rewrite (proj1 (rewriteURL_confined (mkURL [] [] [] "/api/../api/v1/../../api/x" [] false)
    (mkURL "http" [] "up:80" "/base" [] false) (lits ["api"]) true
    ltac:(repeat constructor; vm_compute; intros H; try discriminate H; set_solver)
    ltac:(exists (lits ["x"]); vm_compute; reflexivity) ltac:(right; reflexivity))).
  vm_compute. reflexivity.
Defined.
End ProxyHeaders.
