(* ===== verification/ClientIP.v ===== *)
(** * Who the client is: apps/edgeproxy/internal/proxy/net.go and
    apps/securityedge/internal/clientip/resolver.go

    Both programs resolve the client address of a request from the connected
    peer and, when the peer is a configured trusted proxy, from a forwarding
    header.  [Module ClientIP] is EdgeProxy's resolver and probe check, [Module
    Resolver] SecurityEdge's; they are proved to agree.  A Go [net.IP] that is
    [nil] is [None]. *)

From S2P Require Import Prelude GoStr GoHttp NetIP ProxyHeaders.

Module ClientIP.

Record clientResolver := mkResolver { trusted : list IPNet; header_name : str }.

Definition newClientResolver (cidrs : list str) (hdr : str) : option clientResolver :=
  nets ← mapM (λ raw, ParseCIDR (trim_space raw)) cidrs;
  let hdr := trim_space hdr in
  Some (mkResolver nets (if hdr =?s [] then lit "X-Forwarded-For" else hdr)).

Definition parse_token (raw : str) : option ip :=
  let token := trim_space raw in if token =?s [] then None else ParseIP token.

Definition parseForwardedIPChain (values : list str) : option (list ip) :=
  mapM parse_token (flat_map (λ value, split value ",") values).

Definition trustedIP (a : ip) (networks : list IPNet) : bool := existsb (λ n, net_contains n a) networks.

Definition remoteIP (addr : str) : option ip :=
  match SplitHostPort addr with
  | Some (host, _) => ParseIP host
  | None => ParseIP (trim_space addr)
  end.

(** [for i := len(chain)-1; i >= 0; i-- { if !trusted(chain[i]) return chain[i] }],
    the list given last element first. *)
Fixpoint rightmost_untrusted (networks : list IPNet) (rev_chain : list ip) : option ip :=
  match rev_chain with
  | [] => None
  | a :: rest => if negb (trustedIP a networks) then Some a else rightmost_untrusted networks rest
  end.

(** [r] is [None] for a nil resolver. *)
Definition Resolve (r : option clientResolver) (req : Request) : str :=
  match remoteIP (req_remote req) with
  | None => trim_space (req_remote req)
  | Some remote =>
      match r with
      | None => ip_string remote
      | Some r =>
          if negb (trustedIP remote (trusted r)) then ip_string remote
          else match parseForwardedIPChain (header_values (req_header req) (header_name r)) with
               | None => ip_string remote
               | Some chain =>
                   let chain := chain ++ [remote] in
                   match rightmost_untrusted (trusted r) (reverse chain) with
                   | Some a => ip_string a
                   | None => match chain with a :: _ => ip_string a | [] => ip_string remote end
                   end
               end
      end
  end.

Definition internalProbeValue : str := "connectivity-v1".
Definition internalProbeUserAgent : str := "SecurityEdge-Connectivity-Probe/1.0".

Definition trustedOperationalProbe (req : Request) (resolver : option clientResolver) : bool :=
  if negb (req_method req =?s "HEAD") then false
  else if negb (trim_space (header_get (req_header req) ProxyHeaders.internalProbeHeader) =?s internalProbeValue)
          || negb (trim_space (header_get (req_header req) "User-Agent") =?s internalProbeUserAgent) then false
  else match remoteIP (req_remote req) with
       | None => false
       | Some peer =>
           if ip_is_loopback peer then true
           else match resolver with Some r => trustedIP peer (trusted r) | None => false end
       end.

(** [clientIP] of helpers.go: the resolved address of the request's context
    ([None] when the context has none), else the peer's. *)
Definition clientIP (resolved : option str) (req : Request) : str :=
  let r := trim_space (default [] resolved) in
  if negb (r =?s []) then r
  else match SplitHostPort (req_remote req) with
       | Some (host, _) => host
       | None => req_remote req
       end.

(** ** Properties *)

Lemma rightmost_split networks l : match rightmost_untrusted networks l with
  | Some a => ∃ pre post, l = pre ++ a :: post ∧ trustedIP a networks = false ∧ Forall (λ b, trustedIP b networks = true) pre
  | None => Forall (λ b, trustedIP b networks = true) l
  end.
Proof.
  induction l as [|b l IH]; [constructor|]. cbn [rightmost_untrusted].
  destruct (trustedIP b networks) eqn:E; cbn [negb].
  - destruct (rightmost_untrusted networks l) as [a|].
    + destruct IH as (pre & post & -> & Ha & Hp). exists (b :: pre), post. by repeat constructor.
    + by constructor.
  - by exists [], l.
Qed.

(** [a] is the hop the resolver must name in [chain ++ [remote]]: the last one
    that is not trusted, and the first when all are. *)
Definition designated (networks : list IPNet) (chain : list ip) (a : ip) : Prop :=
  (∃ pre post, chain = pre ++ a :: post ∧ trustedIP a networks = false ∧ Forall (λ b, trustedIP b networks = true) post)
  ∨ (Forall (λ b, trustedIP b networks = true) chain ∧ head chain = Some a).

(** the resolver's contract.  An address in no trusted network is its own
    client address whatever headers it sends; behind a trusted peer a
    well-formed chain gives the last untrusted hop (the first hop when all are
    trusted), and a malformed one gives the peer. *)
Theorem Resolve_contract r req remote : remoteIP (req_remote req) = Some remote →
  let values := header_values (req_header req) (header_name r) in
  (trustedIP remote (trusted r) = false → Resolve (Some r) req = ip_string remote)
  ∧ (trustedIP remote (trusted r) = true → parseForwardedIPChain values = None → Resolve (Some r) req = ip_string remote)
  ∧ (trustedIP remote (trusted r) = true → ∀ chain, parseForwardedIPChain values = Some chain →
       ∃ a, designated (trusted r) (chain ++ [remote]) a ∧ Resolve (Some r) req = ip_string a).
Proof.
  intros Hr values. unfold Resolve. rewrite Hr. split_and!.
  - by intros ->.
  - intros -> H. simpl. fold values. by rewrite H.
  - intros -> chain Hc. simpl. fold values. rewrite Hc.
    pose proof (rightmost_split (trusted r) (reverse (chain ++ [remote]))) as H.
    destruct (rightmost_untrusted _ _) as [a|].
    + destruct H as (pre & post & Heq & Ha & Hp). exists a. split; [|done]. left.
      exists (reverse post), (reverse pre). split_and!; [|done|by rewrite Forall_reverse].
      apply (f_equal reverse) in Heq. rewrite reverse_involutive in Heq.
      rewrite Heq, reverse_app, reverse_cons, <- app_assoc. done.
    + rewrite Forall_reverse in H. destruct (chain ++ [remote]) as [|a l] eqn:E; [by apply app_eq_nil in E as [_ ?]|].
      exists a. split; [by right | done].
Qed.

Lemma rightmost_app networks l k :
  rightmost_untrusted networks (l ++ k) = match rightmost_untrusted networks l with
                                         | Some a => Some a
                                         | None => rightmost_untrusted networks k
                                         end.
Proof. induction l as [|b l IH]; [done|]. cbn [app rightmost_untrusted]. by destruct (negb _). Qed.

Lemma chain_app vs ws : parseForwardedIPChain (vs ++ ws) =
  a ← parseForwardedIPChain vs; b ← parseForwardedIPChain ws; Some (a ++ b).
Proof.
  unfold parseForwardedIPChain. by rewrite flat_map_app, mapM_app_option.
Qed.

(** C34: An attacker cannot spoof.  Once the proxies' part of the forwarding
    header, its last field lines [ws], names an untrusted hop, the resolved
    address is that hop's for every well-formed text in field lines [vs] that the
    client put in front of them. *)
Theorem Resolve_spoof_proof r remote chain hop vs ws req1 req2 :
  remoteIP (req_remote req1) = Some remote → req_remote req2 = req_remote req1 →
  trustedIP remote (trusted r) = true →
  header_values (req_header req1) (header_name r) = vs ++ ws → is_Some (parseForwardedIPChain vs) →
  header_values (req_header req2) (header_name r) = ws → parseForwardedIPChain ws = Some chain →
  rightmost_untrusted (trusted r) (reverse chain) = Some hop →
  Resolve (Some r) req1 = ip_string hop ∧ Resolve (Some r) req2 = ip_string hop.
Proof.
  intros Hr Hr2 Ht H1 [cvs Hvs] H2 Hws Hh. unfold Resolve. rewrite Hr2, Hr, Ht, H1, H2, chain_app, Hvs, Hws. cbn.
  rewrite !reverse_app, reverse_singleton, !rightmost_app. cbn [rightmost_untrusted]. rewrite Ht. cbn. by rewrite Hh.
Qed.

(** an operational probe is honoured only from a loopback or trusted peer,
    whatever the request's headers say. *)
Theorem probe_peer_checked req resolver : trustedOperationalProbe req resolver = true →
  req_method req = "HEAD" ∧ ∃ peer, remoteIP (req_remote req) = Some peer
    ∧ (ip_is_loopback peer = true ∨ ∃ r, resolver = Some r ∧ trustedIP peer (trusted r) = true).
Proof.
  unfold trustedOperationalProbe. destruct (negb (req_method req =?s "HEAD")) eqn:E1; [done|].
  destruct (_ || _); [done|]. destruct (remoteIP _) as [peer|]; [|done]. boolify. intros H.
  split; [done|]. exists peer. split; [done|]. destruct (ip_is_loopback peer); [by left|].
  right. destruct resolver as [r|]; [by exists r | done].
Qed.

(** *** Witnesses: peer 10.0.0.9 in the trusted network 10.0.0.0/8 *)

Definition sample_resolver : clientResolver := mkResolver [mkIPNet (v4_prefix + 10 * 2 ^ 24) true 8] "X-Forwarded-For".
Definition sample_req (values : list string) : Request :=
  mkRequest "HEAD" "a" (mkURL [] [] [] "/" [] false) {[ lit "X-Forwarded-For" := lits values ]} "10.0.0.9:4711".
Definition sample_remote : ip := v4_prefix + 10 * 2 ^ 24 + 9.

Lemma sample_resolver_made : newClientResolver (lits [" 10.0.0.0/8 "]) [] = Some sample_resolver.
Proof. vm_compute. reflexivity. Qed.

Lemma Resolve_contract_witness : remoteIP (req_remote (sample_req ["1.2.3.4, 5.6.7.8"; "10.1.1.1"])) = Some sample_remote
  ∧ ∃ a, Resolve (Some sample_resolver) (sample_req ["1.2.3.4, 5.6.7.8"; "10.1.1.1"]) = ip_string a.
Proof.
  assert (remoteIP (req_remote (sample_req ["1.2.3.4, 5.6.7.8"; "10.1.1.1"])) = Some sample_remote) as Hr by (vm_compute; reflexivity).
  split; [exact Hr|].
  destruct (Resolve_contract sample_resolver (sample_req ["1.2.3.4, 5.6.7.8"; "10.1.1.1"]) _ Hr) as (_ & _ & Hc).
  destruct (Hc ltac:(vm_compute; reflexivity) _ ltac:(vm_compute; reflexivity)) as (a & _ & Ha).
  exists a. exact Ha.
Defined.

Lemma Resolve_spoof_proof_witness :
  Resolve (Some sample_resolver) (sample_req ["6.6.6.6, 10.0.0.1"; "5.6.7.8, 10.1.1.1"]) = lit "5.6.7.8".
Proof.
  rewrite (proj1 (Resolve_spoof_proof sample_resolver sample_remote
    [v4_prefix + 5 * 2 ^ 24 + 6 * 2 ^ 16 + 7 * 2 ^ 8 + 8; v4_prefix + 10 * 2 ^ 24 + 2 ^ 16 + 2 ^ 8 + 1]
    (v4_prefix + 5 * 2 ^ 24 + 6 * 2 ^ 16 + 7 * 2 ^ 8 + 8)
    (lits ["6.6.6.6, 10.0.0.1"]) (lits ["5.6.7.8, 10.1.1.1"])
    (sample_req ["6.6.6.6, 10.0.0.1"; "5.6.7.8, 10.1.1.1"]) (sample_req ["5.6.7.8, 10.1.1.1"])
    ltac:(vm_compute; reflexivity) eq_refl ltac:(vm_compute; reflexivity) ltac:(vm_compute; reflexivity)
    ltac:(vm_compute; eexists; reflexivity) ltac:(vm_compute; reflexivity) ltac:(vm_compute; reflexivity)
    ltac:(vm_compute; reflexivity))).
  vm_compute. reflexivity.
Defined.

Lemma probe_peer_checked_witness :
  let req := mkRequest "HEAD" "a" (mkURL [] [] [] "/" [] false)
    {[ canonical_key ProxyHeaders.internalProbeHeader := [internalProbeValue]; lit "User-Agent" := [internalProbeUserAgent] ]}
    "[::1]:99" in
  trustedOperationalProbe req None = true ∧ req_method req = lit "HEAD".
Proof.
  intros req. assert (trustedOperationalProbe req None = true) as Hp by (vm_compute; reflexivity).
  split; [exact Hp | exact (proj1 (probe_peer_checked req None Hp))].
Defined.
End ClientIP.

Module Resolver.

Record Resolver := mk { trusted : list IPNet; header_name : str }.

Definition Replace (cidrs : list str) (hdr : str) (r : Resolver) : option Resolver :=
  parsed ← mapM (λ raw, ParseCIDR (trim_space raw)) cidrs;
  let hdr := trim_space hdr in
  let hdr := if hdr =?s [] then lit "X-Forwarded-For" else hdr in
  Some (mk parsed hdr).

Definition New (cidrs : list str) (hdr : str) : option Resolver := Replace cidrs hdr (mk [] []).

Definition isTrusted (a : ip) (networks : list IPNet) : bool := existsb (λ n, net_contains n a) networks.

Fixpoint parseForwardedIPChain (values : list str) : option (list ip) :=
  match values with
  | [] => Some []
  | value :: values' =>
      ips ← mapM (λ raw, let token := trim_space raw in if token =?s [] then None else ParseIP token) (split value ",");
      rest ← parseForwardedIPChain values'; Some (ips ++ rest)
  end.

Definition remoteIP (addr : str) : option ip :=
  match SplitHostPort addr with
  | Some (host, _) => ParseIP host
  | None => ParseIP (trim_space addr)
  end.

Definition Resolve (r : Resolver) (req : Request) : str :=
  match remoteIP (req_remote req) with
  | None => trim_space (req_remote req)
  | Some remote =>
      if negb (isTrusted remote (trusted r)) then ip_string remote
      else match parseForwardedIPChain (header_values (req_header req) (header_name r)) with
           | None => ip_string remote
           | Some chain =>
               let chain := chain ++ [remote] in
               match List.find (λ a, negb (isTrusted a (trusted r))) (rev chain) with
               | Some a => ip_string a
               | None => match chain with a :: _ => ip_string a | [] => ip_string remote end
               end
           end
  end.

Definition to_edgeproxy (r : Resolver) : ClientIP.clientResolver := ClientIP.mkResolver (trusted r) (header_name r).

Lemma chain_agrees values : parseForwardedIPChain values = ClientIP.parseForwardedIPChain values.
Proof.
  induction values as [|v values IH]; [done|].
  change (v :: values) with ([v] ++ values). rewrite ClientIP.chain_app. cbn [app parseForwardedIPChain].
  rewrite IH. assert (ClientIP.parseForwardedIPChain [v] = mapM ClientIP.parse_token (split v ",")) as ->; [|done].
  unfold ClientIP.parseForwardedIPChain. cbn [flat_map]. by rewrite app_nil_r.
Qed.

Lemma find_agrees networks l :
  List.find (λ a, negb (isTrusted a networks)) l = ClientIP.rightmost_untrusted networks l.
Proof. induction l as [|a l IH]; [done|]. simpl. unfold isTrusted, ClientIP.trustedIP in *. by rewrite IH. Qed.

(** the two programs agree on who the client is: with the same trusted
    networks and header SecurityEdge and EdgeProxy resolve every request to the
    same address, and the same configurations are accepted. *)
Theorem resolvers_agree r cidrs hdr req :
  Resolve r req = ClientIP.Resolve (Some (to_edgeproxy r)) req
  ∧ to_edgeproxy <$> New cidrs hdr = ClientIP.newClientResolver cidrs hdr.
Proof.
  split.
  - unfold Resolve, ClientIP.Resolve. change remoteIP with ClientIP.remoteIP.
    destruct (ClientIP.remoteIP _) as [remote|]; [|done].
    unfold to_edgeproxy. cbn [ClientIP.trusted ClientIP.header_name]. change isTrusted with ClientIP.trustedIP.
    destruct (negb _); [done|]. rewrite chain_agrees.
    destruct (ClientIP.parseForwardedIPChain _) as [chain|]; [|done]. cbn.
    change ClientIP.trustedIP with isTrusted. rewrite find_agrees.
    unfold reverse. by rewrite rev_alt.
  - unfold New, Replace, ClientIP.newClientResolver. by destruct (mapM _ cidrs).
Qed.
End Resolver.
