(* ===== verification/Upstream.v ===== *)
(** * Upstream pools: apps/edgeproxy/internal/proxy/upstream.go

    The nodes of a pool and the six balancing algorithms, the accounting of
    active requests, passive latency averages and the health state machine.  A
    node is identified by its index in the pool (the code's pointer); an
    exclusion set is a set of indices ([None] for a nil map).  A method runs as
    one step; the fields it touches are atomics or guarded by the pool's mutex.
    [math.Pow] and the conversion of an out-of-range float to [int64] are
    implementation-defined and parameters of the adaptive weight. *)

From S2P Require Import Prelude GoStr GoPath GoHttp NetIP GoFloat Config ProxyHeaders.

Module Upstream.

Record upstream := mkUpstream {
  name : str;
  url : URL;
  weight : Z;
  priority : Z;
  healthy : bool;
  active : Z;               (* int64 *)
  selections : Z;           (* uint64 *)
  healthFailures : Z;
  healthRecoveries : Z;
  ewma : float64;
  currentWeight : Z;        (* int64 *)
}.

Record upstreamPool := mkPool {
  nodes : list upstream;
  next : Z;                 (* uint64 *)
  randomState : Z;          (* uint64 *)
  healthHost : str;
  algorithm : str;
  sensitivity : float64;
  ewmaAlpha : float64;
}.

Definition set_nodes (p : upstreamPool) (ns : list upstream) : upstreamPool :=
  mkPool ns (next p) (randomState p) (healthHost p) (algorithm p) (sensitivity p) (ewmaAlpha p).
Definition upd (p : upstreamPool) (i : nat) (f : upstream → upstream) : upstreamPool :=
  set_nodes p (alter f i (nodes p)).
Definition node_at (p : upstreamPool) (i : nat) : option upstream := nodes p !! i.

(** Field updates *)
Definition with_active (d : Z) (u : upstream) : upstream :=
  mkUpstream (name u) (url u) (weight u) (priority u) (healthy u) (wrap64 (active u + d)) (selections u)
    (healthFailures u) (healthRecoveries u) (ewma u) (currentWeight u).
Definition with_selected (u : upstream) : upstream :=
  mkUpstream (name u) (url u) (weight u) (priority u) (healthy u) (wrap64 (active u + 1)) (wrapu64 (selections u + 1))
    (healthFailures u) (healthRecoveries u) (ewma u) (currentWeight u).
Definition with_ewma (e : float64) (u : upstream) : upstream :=
  mkUpstream (name u) (url u) (weight u) (priority u) (healthy u) (active u) (selections u)
    (healthFailures u) (healthRecoveries u) e (currentWeight u).
Definition with_currentWeight (w : Z) (u : upstream) : upstream :=
  mkUpstream (name u) (url u) (weight u) (priority u) (healthy u) (active u) (selections u)
    (healthFailures u) (healthRecoveries u) (ewma u) w.
Definition with_health (h : bool) (df dr : Z) (u : upstream) : upstream :=
  mkUpstream (name u) (url u) (weight u) (priority u) h (active u) (selections u)
    (wrapu64 (healthFailures u + df)) (wrapu64 (healthRecoveries u + dr)) (ewma u) (currentWeight u).

(** ** Construction *)

Section new.
(** [url.Parse] is a parameter: [None] is its error. *)
Context (parse_url : str → option URL).

Definition healthCheckHost (route : RouteConfig) : str :=
  if negb (preserve_host route) then []
  else
    (fix loop (hosts : list str) (wildcard : str) : str :=
       match hosts with
       | [] => wildcard
       | raw :: hosts =>
           let host := trim_space raw in
           if host =?s "*" then loop hosts wildcard
           else if has_prefix host "*." then
             loop hosts (if wildcard =?s [] then "health-probe." ++ trim_prefix host "*." else wildcard)
           else match ParseIP host with
                | Some a => if mem_byte ":" host then "[" ++ ip_string a ++ "]" else host
                | None => host
                end
       end) (route_hosts route) [].

Definition newUpstreamPool (route : RouteConfig) (now : Z) : option upstreamPool :=
  ns ← mapM (λ raw,
         u ← parse_url (up_url raw);
         Some (mkUpstream (up_name raw) u (up_weight raw) (up_priority raw) (negb (hc_enabled (health_check route)))
                          0 0 0 0 f_zero 0)) (upstreams route);
  Some (mkPool ns 0 (Z.lxor (wrapu64 now) (wrapu64 (len (route_name route) * 0x9e3779b97f4a7c15)))
               (healthCheckHost route) (lb_algorithm (load_balancing route))
               (latency_sensitivity (load_balancing route)) (ewma_alpha (load_balancing route))).
End new.

(** ** Selection *)

Definition eligible (exclude : option (gset nat)) (healthyOnly : bool) (p : upstreamPool) : list nat :=
  filter (λ i, negb (match exclude with Some x => bool_decide (i ∈ x) | None => false end)
               && negb (healthyOnly && negb (match node_at p i with Some u => healthy u | None => false end)) = true)
         (seq 0 (length (nodes p))).

Definition pickProbe (exclude : option (gset nat)) (p : upstreamPool) : option nat :=
  let candidates := eligible exclude true p in
  let candidates := match candidates with [] => eligible exclude false p | _ => candidates end in
  head candidates.

Definition pickRoundRobin (candidates : list nat) (p : upstreamPool) : option nat * upstreamPool :=
  let n := wrapu64 (next p + 1) in
  let p' := mkPool (nodes p) n (randomState p) (healthHost p) (algorithm p) (sensitivity p) (ewmaAlpha p) in
  (* [int(n-1) % len]: negative indices panic *)
  let i := Z.rem (wrap64 (wrapu64 (n - 1))) (len candidates) in
  (if i <? 0 then None else candidates !! Z.to_nat i, p').

Section weighted.
Context {FM : FloatMath}.

Definition adaptive_weight (p : upstreamPool) (u : upstream) : Z :=
  let latency := fmax (ewma u) f_quarter in
  let penalty := fmul (pow latency (sensitivity p)) (f_of_Z (wrap64 (active u + 1))) in
  float_to_int64 (fmax f_one (fdiv (fmul (f_of_Z (weight u)) (f_of_Z 1000000)) penalty)).

(** One iteration of the loop of [pickSmoothWeighted]. *)
Definition smooth_step (latencyAdjusted : bool) (acc : option nat * Z * upstreamPool) (i : nat)
    : option nat * Z * upstreamPool :=
  let '(selected, total, p) := acc in
  match node_at p i with
  | None => acc
  | Some u =>
      let w := if latencyAdjusted then adaptive_weight p u else weight u in
      let cw := wrap64 (currentWeight u + w) in
      let p := upd p i (with_currentWeight cw) in
      let better := match selected with
                    | None => true
                    | Some s => match node_at p s with Some su => currentWeight su <? cw | None => true end
                    end in
      (if better then Some i else selected, wrap64 (total + w), p)
  end.

Definition pickSmoothWeighted (candidates : list nat) (latencyAdjusted : bool) (p : upstreamPool)
    : option nat * upstreamPool :=
  let '(selected, total, p) := foldl (smooth_step latencyAdjusted) (None, 0, p) candidates in
  match selected with
  | None => (None, p)
  | Some s => (Some s, upd p s (λ u, with_currentWeight (wrap64 (currentWeight u - total)) u))
  end.
End weighted.

Definition load (u : upstream) : float64 := fdiv (f_of_Z (wrap64 (active u + 1))) (f_of_Z (weight u)).

Definition less_loaded (left best : upstream) : bool :=
  flt (load left) (load best) || (feq (load left) (load best) && (priority left <? priority best)).

Fixpoint least_connections_loop (p : upstreamPool) (best : nat) (rest : list nat) : nat :=
  match rest with
  | [] => best
  | i :: rest =>
      let better := match node_at p i, node_at p best with
                    | Some u, Some b => less_loaded u b
                    | _, _ => false
                    end in
      least_connections_loop p (if better then i else best) rest
  end.
Definition pickLeastConnections (candidates : list nat) (p : upstreamPool) : option nat :=
  match candidates with
  | [] => None
  | best :: rest => Some (least_connections_loop p best rest)
  end.

Definition priority_at (p : upstreamPool) (i : nat) : Z := match node_at p i with Some u => priority u | None => 0 end.
Definition weight_at (p : upstreamPool) (i : nat) : Z := match node_at p i with Some u => weight u | None => 0 end.

Definition minimum_priority (p : upstreamPool) (first : nat) (rest : list nat) : Z :=
  foldl (λ m i, if priority_at p i <? m then priority_at p i else m) (priority_at p first) rest.

Definition pickPriority {FM : FloatMath} (candidates : list nat) (p : upstreamPool) : option nat * upstreamPool :=
  match candidates with
  | [] => (None, p)
  | first :: rest =>
      let minimum := minimum_priority p first rest in
      match filter (λ i, priority_at p i = minimum) candidates with
      | [i] => (Some i, p)
      | group => pickSmoothWeighted group false p
      end
  end.

Definition pickAdaptive {FM : FloatMath} (candidates : list nat) (p : upstreamPool) : option nat * upstreamPool :=
  pickSmoothWeighted candidates true p.

(** The walk of [pickRandomWeighted] over the candidates. *)
Fixpoint weighted_walk (p : upstreamPool) (pick : Z) (last : nat) (candidates : list nat) : nat :=
  match candidates with
  | [] => last
  | i :: rest =>
      let w := wrapu64 (weight_at p i) in
      if pick <? w then i else weighted_walk p (wrapu64 (pick - w)) i rest
  end.

Definition rotl64 (x k : Z) : Z := Z.lor (wrapu64 (Z.shiftl x k)) (Z.shiftr x (64 - k)).

Definition golden : Z := 0x9e3779b97f4a7c15.
(** The output function of the generator. *)
Definition random_mix (x : Z) : Z := wrapu64 (Z.lxor x (rotl64 x 17) * 0xbf58476d1ce4e5b9).

Definition pickRandomWeighted (candidates : list nat) (p : upstreamPool) : option nat * upstreamPool :=
  let total := foldl (λ t i, wrapu64 (t + wrapu64 (weight_at p i))) 0 candidates in
  match candidates with
  | [] => (None, p)
  | first :: _ =>
      if total =? 0 then (Some first, p)
      else
        let x := wrapu64 (randomState p + golden) in
        let p := mkPool (nodes p) (next p) x (healthHost p) (algorithm p) (sensitivity p) (ewmaAlpha p) in
        (Some (weighted_walk p (random_mix x mod total) first candidates), p)
  end.

(** The candidates of [pick], in order of preference. *)
Definition pick_candidates (exclude : option (gset nat)) (p : upstreamPool) : list nat :=
  match eligible exclude true p with
  | (_ :: _) as c => c
  | [] =>
      match eligible exclude false p with
      | (_ :: _) as c => c
      | [] => match eligible None true p with
              | (_ :: _) as c => c
              | [] => seq 0 (length (nodes p))
              end
      end
  end.

Definition pick_by_algorithm {FM : FloatMath} (candidates : list nat) (p : upstreamPool) : option nat * upstreamPool :=
  if algorithm p =?s "weighted_round_robin" then pickSmoothWeighted candidates false p
  else if algorithm p =?s "least_connections" then (pickLeastConnections candidates p, p)
  else if algorithm p =?s "priority_failover" then pickPriority candidates p
  else if algorithm p =?s "adaptive_latency" then pickAdaptive candidates p
  else if algorithm p =?s "random_weighted" then pickRandomWeighted candidates p
  else pickRoundRobin candidates p.

Definition pick {FM : FloatMath} (exclude : option (gset nat)) (p : upstreamPool) : option nat * upstreamPool :=
  match pick_candidates exclude p with
  | [] => (None, p)
  | candidates =>
      let '(selected, p) := pick_by_algorithm candidates p in
      match selected with
      | Some i => (Some i, upd p i with_selected)
      | None => (None, p)
      end
  end.

(** ** Accounting and latency *)

Definition observeLatency (u : upstream) (d : duration) (alpha : float64) : upstream :=
  let value := fdiv (f_of_Z d) (f_of_Z millisecond) in
  let old := ewma u in
  with_ewma (if flt f_zero old then fadd (fmul alpha value) (fmul (fsub f_one alpha) old) else value) u.

Definition observe (i : nat) (d : duration) (p : upstreamPool) : upstreamPool :=
  upd p i (λ u, observeLatency u d (ewmaAlpha p)).
Definition releaseActive (i : nat) (p : upstreamPool) : upstreamPool := upd p i (with_active (-1)).
Definition release (i : nat) (d : duration) (p : upstreamPool) : upstreamPool := releaseActive i (observe i d p).

(** ** Health *)

Definition hasHealthy (p : upstreamPool) : bool := existsb healthy (nodes p).

(** The new node and whether the change is reported to [onChange]. *)
Definition setNodeHealth (h : bool) (u : upstream) : upstream * bool :=
  if eqb (healthy u) h then (u, false)
  else (with_health h (if h then 0 else 1) (if h then 1 else 0) u, true).

(** The verdict of one health check: [None] is a failed request. *)
Definition check_verdict (statuses : list Z) (status : option Z) : bool :=
  match status with
  | None => false
  | Some s => if 0 <? len statuses then bool_decide (s ∈ statuses) else (200 <=? s) && (s <? 400)
  end.
Definition checkNode (cfg : HealthCheckConfig) (i : nat) (status : option Z) (p : upstreamPool) : upstreamPool * bool :=
  match node_at p i with
  | None => (p, false)
  | Some u =>
      let '(u', changed) := setNodeHealth (check_verdict (hc_statuses cfg) status) u in
      (set_nodes p (<[i := u']> (nodes p)), changed)
  end.

Definition healthSnapshot_ready (p : upstreamPool) : bool :=
  foldl (λ ready u, if healthy u then true else ready) false (nodes p).

(** ** Facts about updates *)

Definition cw_at (p : upstreamPool) (i : nat) : Z := match node_at p i with Some u => currentWeight u | None => 0 end.

(** Everything but the scheduler's weights. *)
Definition static (p : upstreamPool) : list upstream := with_currentWeight 0 <$> nodes p.
Definition same_static (p q : upstreamPool) : Prop :=
  static p = static q ∧ algorithm p = algorithm q ∧ sensitivity p = sensitivity q ∧ ewmaAlpha p = ewmaAlpha q
  ∧ healthHost p = healthHost q.
#[export] Instance same_static_equiv : Equivalence same_static.
Proof.
  split; unfold same_static; [done | intros p q H; naive_solver | intros p q r H1 H2; naive_solver congruence].
Qed.

Lemma node_at_upd p i f j : node_at (upd p i f) j = (if decide (i = j) then f <$> node_at p j else node_at p j).
Proof.
  unfold node_at, upd. cbn [set_nodes nodes]. rewrite list_lookup_alter. case_decide; by subst.
Qed.

Lemma upd_cw_static p i w : same_static (upd p i (with_currentWeight w)) p.
Proof.
  split; [|done]. unfold static, upd. cbn [set_nodes nodes]. apply list_eq. intros j. rewrite !list_lookup_fmap.
  rewrite list_lookup_alter. case_decide; subst; [|done]. by destruct (nodes p !! j).
Qed.

Lemma upd_cw_fun_static p i (f : upstream → Z) : same_static (upd p i (λ u, with_currentWeight (f u) u)) p.
Proof.
  split; [|done]. unfold static, upd. cbn [set_nodes nodes]. apply list_eq. intros j. rewrite !list_lookup_fmap.
  rewrite list_lookup_alter. case_decide; subst; [|done]. by destruct (nodes p !! j).
Qed.

Lemma static_at p q j : same_static p q → with_currentWeight 0 <$> node_at p j = with_currentWeight 0 <$> node_at q j.
Proof. intros [H _]. unfold node_at. rewrite <- !list_lookup_fmap. fold (static p). by rewrite H. Qed.

Lemma static_weight p q j : same_static p q → weight_at p j = weight_at q j.
Proof.
  intros H. pose proof (static_at p q j H) as Hj. unfold weight_at.
  destruct (node_at p j) as [u|], (node_at q j) as [v|]; by simplify_eq/=.
Qed.
Lemma static_length p q : same_static p q → length (nodes p) = length (nodes q).
Proof. intros [H _]. apply (f_equal length) in H. unfold static in H. by rewrite !length_fmap in H. Qed.

Definition valid (p : upstreamPool) (i : nat) : Prop := (i < length (nodes p))%nat.
Lemma valid_node p i : valid p i ↔ is_Some (node_at p i).
Proof. unfold valid, node_at. by rewrite lookup_lt_is_Some. Qed.

(** ** Smooth weighted round robin *)

Section smooth.
Context {FM : FloatMath}.

(** One pass over distinct candidates adds each one's weight and finds the
    largest sum. *)
Lemma smooth_fold l sel tot p : NoDup l → (∀ i, i ∈ l → valid p i) → (∀ s, sel = Some s → valid p s ∧ s ∉ l) →
  (∀ i, i ∈ l → 0 <= weight_at p i) → (∀ i, i ∈ l → int64_ok (cw_at p i + weight_at p i)) →
  0 <= tot → tot + zsum (weight_at p) l <= max_int64 →
  let '(sel', tot', p') := foldl (smooth_step false) (sel, tot, p) l in
  same_static p' p ∧ tot' = tot + zsum (weight_at p) l
  ∧ (∀ j, cw_at p' j = cw_at p j + if decide (j ∈ l) then weight_at p j else 0)
  ∧ match sel' with
    | Some s' => (s' ∈ l ∨ sel = Some s') ∧ ∀ j, j ∈ l ∨ sel = Some j → cw_at p' j <= cw_at p' s'
    | None => sel = None ∧ l = []
    end.
Proof.
  revert sel tot p. induction l as [|i l IH]; intros sel tot p Hnd Hv Hs Hw Hb Ht Hmax.
  { simpl. split_and!; try done; [lia| |].
    - intros j. lia.
    - destruct sel; [|done]. split; [by right|]. intros j [Hj|Hj]; [by apply not_elem_of_nil in Hj|]. by simplify_eq. }
  apply NoDup_cons in Hnd as [Hi Hnd]. rewrite zsum_cons in Hmax. cbn [foldl smooth_step].
  destruct (proj1 (valid_node p i) (Hv i ltac:(set_solver))) as [u Hu]. rewrite Hu.
  assert (weight_at p i = weight u ∧ cw_at p i = currentWeight u) as [Ew Ec] by (unfold weight_at, cw_at; by rewrite Hu).
  pose proof (Hb i ltac:(set_solver)) as Hbi. pose proof (Hw i ltac:(set_solver)) as Hwi. rewrite Ew, Ec in Hbi.
  assert (0 <= zsum (weight_at p) l) as Hsum by (apply zsum_nonneg; intros; apply Hw; by constructor).
  assert (wrap64 (tot + weight u) = tot + weight u) as Htot.
  { apply wrap64_id. unfold int64_ok, min_int64, max_int64 in *. lia. }
  rewrite (wrap64_id (currentWeight u + weight u)) by done. rewrite Htot.
  set (p1 := upd p i (with_currentWeight (currentWeight u + weight u))).
  pose proof (upd_cw_static p i (currentWeight u + weight u)) as Hst. fold p1 in Hst.
  assert (∀ j, cw_at p1 j = cw_at p j + if decide (j = i) then weight_at p j else 0) as Hcw1.
  { intros j. unfold cw_at, p1. rewrite node_at_upd. destruct (decide (i = j)) as [<-|Hne].
    - rewrite Hu, decide_True by done. simpl. by rewrite Ew.
    - rewrite decide_False by done. lia. }
  set (better := match sel with
                 | None => true
                 | Some s => match node_at p1 s with Some su => currentWeight su <? currentWeight u + weight u | None => true end
                 end).
  set (sel1 := if better then Some i else sel).
  assert (match sel1 with Some s => (s = i ∨ sel = Some s) ∧ ∀ j, j = i ∨ sel = Some j → cw_at p1 j <= cw_at p1 s
          | None => False end) as Hsel1.
  { unfold sel1, better. destruct sel as [s|]; [|split; [by left|]; intros j [->|Hj]; [lia|done]].
    destruct (Hs s eq_refl) as [Hvs Hsl]. assert (valid p1 s) as Hvs1.
    { unfold valid in *. by rewrite (static_length _ _ Hst). }
    apply valid_node in Hvs1 as [su Hsu]. rewrite Hsu.
    assert (cw_at p1 s = currentWeight su) as Hes by (unfold cw_at; by rewrite Hsu).
    assert (cw_at p1 i = currentWeight u + weight u) as Hei by (rewrite Hcw1, decide_True by done; lia).
    destruct (_ <? _) eqn:E; boolify; (split; [by auto|]); intros j [->|Hj]; simplify_eq; lia. }
  specialize (IH sel1 (tot + weight u) p1).
  destruct (foldl _ _ l) as [[sel' tot'] p']. destruct IH as (I1 & I2 & I3 & I4); try done.
  - intros j Hj. unfold valid. rewrite (static_length _ _ Hst). apply Hv. by constructor.
  - intros s Hs1. rewrite Hs1 in Hsel1. destruct Hsel1 as [[->|Hs0] _].
    + split; [|done]. unfold valid. rewrite (static_length _ _ Hst). apply Hv. by constructor.
    + destruct (Hs s Hs0) as [Hvs Hsl]. split; [|set_solver]. unfold valid. by rewrite (static_length _ _ Hst).
  - intros j Hj. rewrite (static_weight _ _ j Hst). apply Hw. by constructor.
  - intros j Hj. rewrite (static_weight _ _ j Hst), Hcw1, decide_False by (intros ->; done).
    rewrite Z.add_0_r. apply Hb. by constructor.
  - lia.
  - rewrite (zsum_ext (weight_at p1) (weight_at p)) by (intros; by apply static_weight). lia.
  - rewrite (zsum_ext (weight_at p1) (weight_at p)) in I2 by (intros; by apply static_weight).
    split_and!; [by etrans | rewrite zsum_cons; lia | |].
    + intros j. rewrite I3, Hcw1, (static_weight _ _ j Hst). destruct (decide (j = i)) as [->|Hne].
      * rewrite decide_False by done. rewrite decide_True by set_solver. lia.
      * destruct (decide (j ∈ l)); [rewrite decide_True by set_solver | rewrite decide_False by set_solver]; lia.
    + destruct sel' as [s'|].
      * destruct sel1 as [s1|] eqn:Es1; [|done]. destruct Hsel1 as [Hs1 Hmax1]. destruct I4 as [I4 I5].
        split.
        { destruct I4 as [I4|I4]; [left; by constructor|]. simplify_eq. destruct Hs1 as [->|?]; [left; constructor | by right]. }
        assert (cw_at p' s1 <= cw_at p' s') as Hle by (apply I5; by right).
        assert (cw_at p' s1 = cw_at p1 s1) as Hs1'.
        { rewrite I3. rewrite decide_False; [lia|]. destruct Hs1 as [->|Hs0]; [done|].
          destruct (Hs s1 Hs0) as [_ Hn]. set_solver. }
        intros j [[->|Hj]%elem_of_cons|Hj]; [|by apply I5; left|].
        -- rewrite (I3 i), decide_False by done. pose proof (Hmax1 i ltac:(by left)). lia.
        -- rewrite (I3 j), decide_False by (destruct (Hs j Hj) as [_ ?]; set_solver).
           pose proof (Hmax1 j ltac:(by right)). lia.
      * destruct I4 as [I4 _]. by rewrite I4 in Hsel1.
Qed.

(** The state a run of picks stays in: no weight strays far from zero. *)
Record Balanced (l : list nat) (p : upstreamPool) : Prop := {
  bal_valid : ∀ i, i ∈ l → valid p i;
  bal_nodup : NoDup l;
  bal_weight : ∀ i, i ∈ l → 0 <= weight_at p i;
  bal_pos : 0 < zsum (weight_at p) l;
  bal_room : (len l + 2) * zsum (weight_at p) l <= max_int64;
  bal_zero : zsum (cw_at p) l = 0;
  bal_lower : ∀ i, i ∈ l → 1 - zsum (weight_at p) l <= cw_at p i;
}.

Lemma elem_le_zsum l (f : nat → Z) c i : (∀ j, j ∈ l → c <= f j) → NoDup l → i ∈ l →
  f i <= zsum f l - c * (len l - 1).
Proof.
  intros Hf Hnd Hi. pose proof (filter_id_perm (λ x : nat, x) i l) as Hp. rewrite list_fmap_id in Hp. specialize (Hp Hnd Hi).
  rewrite (zsum_Permutation f _ _ Hp), zsum_cons. set (r := filter _ l) in *.
  assert (c * len r <= zsum f r) as Hr.
  { apply zsum_lower. intros j Hj. apply Hf. rewrite Hp. by constructor. }
  assert (len l = 1 + len r) as -> by (unfold len; rewrite Hp; simpl; lia). lia.
Qed.

Lemma balanced_upper l p i : Balanced l p → i ∈ l → cw_at p i <= (len l) * zsum (weight_at p) l.
Proof.
  intros HB Hi. pose proof (elem_le_zsum l (cw_at p) _ i (bal_lower _ _ HB) (bal_nodup _ _ HB) Hi) as H.
  rewrite (bal_zero _ _ HB) in H. pose proof (bal_pos _ _ HB).
  assert (1 <= len l) by (unfold len; destruct l; [by apply not_elem_of_nil in Hi | simpl; lia]). nia.
Qed.

(** One pick of a balanced pool. *)
Lemma pickSmooth_balanced l p : Balanced l p → ∃ s p', pickSmoothWeighted l false p = (Some s, p') ∧ s ∈ l
  ∧ same_static p' p ∧ Balanced l p'
  ∧ ∀ j, cw_at p' j = cw_at p j + (if decide (j ∈ l) then weight_at p j else 0)
                      - (if decide (j = s) then zsum (weight_at p) l else 0).
Proof.
  intros HB. pose proof HB as [Hv Hnd Hw Hpos Hroom Hzero Hlow]. set (W := zsum (weight_at p) l) in *.
  assert (∀ i, i ∈ l → weight_at p i <= W) as HwW.
  { intros i Hi. apply zsum_elem; [|done]. intros j Hj. by apply Hw. }
  assert (∀ i, i ∈ l → cw_at p i <= len l * W) as Hup by (intros; by apply balanced_upper).
  pose proof (len_nonneg l) as Hlen.
  unfold pickSmoothWeighted. pose proof (smooth_fold l None 0 p) as H.
  destruct (foldl _ _ l) as [[sel tot] p1]. destruct H as (Hst & Htot & Hcw & Hsel); try done.
  { intros i Hi. pose proof (Hlow i Hi). pose proof (Hup i Hi). pose proof (HwW i Hi). pose proof (Hw i Hi).
    unfold int64_ok, min_int64, max_int64 in *. fold W in Hroom. nia. }
  { fold W. unfold max_int64 in *. nia. }
  fold W in Htot. destruct sel as [s|]; [|destruct Hsel as [_ ->]; unfold W in Hpos; simpl in Hpos; lia].
  destruct Hsel as [[Hs|?] Hmax]; [|done]. exists s. eexists. split; [done|].
  assert (cw_at p1 s = cw_at p s + weight_at p s) as Hcs by (rewrite Hcw, decide_True by done; done).
  assert (1 <= cw_at p1 s) as Hs1.
  { assert (zsum (cw_at p1) l = W) as Hsum.
    { rewrite (zsum_ext _ (λ j, cw_at p j + weight_at p j)); [|intros j Hj; by rewrite Hcw, decide_True].
      rewrite zsum_plus, Hzero. done. }
    destruct (zsum_max (cw_at p1) 0 l) as (j & Hj & Hj0); [lia|]. pose proof (Hmax j ltac:(by left)). lia. }
  assert (int64_ok (cw_at p1 s - tot)) as Hok.
  { pose proof (Hup s Hs). pose proof (HwW s Hs). unfold int64_ok, min_int64, max_int64 in *. nia. }
  assert (same_static (upd p1 s (λ u, with_currentWeight (wrap64 (currentWeight u - tot)) u)) p) as Hst'.
  { etrans; [apply upd_cw_fun_static | done]. }
  set (p' := upd p1 s _) in *.
  assert (∀ j, cw_at p' j = cw_at p j + (if decide (j ∈ l) then weight_at p j else 0)
                      - (if decide (j = s) then W else 0)) as Hcw'.
  { intros j. unfold cw_at at 1, p'. rewrite node_at_upd. destruct (decide (s = j)) as [<-|Hne].
    - rewrite (decide_True (P := s ∈ l)), (decide_True (P := s = s)) by done.
      assert (valid p1 s) as Hv1 by (unfold valid in *; rewrite (static_length _ _ Hst); by apply Hv).
      apply valid_node in Hv1 as [u Hu]. rewrite Hu. simpl.
      assert (cw_at p1 s = currentWeight u) as He by (unfold cw_at; by rewrite Hu).
      rewrite <- He, wrap64_id by done. lia.
    - rewrite (decide_False (P := j = s)) by done. fold (cw_at p1 j). rewrite Hcw. lia. }
  split_and!; [done|done| |done].
  assert (zsum (weight_at p') l = W) as HW by (apply zsum_ext; intros; by apply static_weight).
  constructor; rewrite ?HW; try done.
  - intros i Hi. unfold valid. rewrite (static_length _ _ Hst'). by apply Hv.
  - intros i Hi. rewrite (static_weight _ _ i Hst'). by apply Hw.
  - rewrite (zsum_ext _ (λ j, (cw_at p j + weight_at p j) + if decide (j = s) then - W else 0)).
    + rewrite !zsum_plus, zsum_single, Hzero by done. fold W. lia.
    + intros j Hj. rewrite Hcw', decide_True by done. destruct (decide (j = s)); lia.
  - intros j Hj. rewrite Hcw', decide_True by done. destruct (decide (j = s)) as [->|]; [lia|].
    pose proof (Hlow j Hj). pose proof (Hw j Hj). lia.
Qed.

(** [n] picks from the same candidates, in order. *)
Fixpoint smooth_picks (n : nat) (l : list nat) (p : upstreamPool) : list (option nat) * upstreamPool :=
  match n with
  | O => ([], p)
  | S n => let r := pickSmoothWeighted l false p in
           let r' := smooth_picks n l (snd r) in (fst r :: fst r', snd r')
  end.

Definition times_picked (i : nat) (picks : list (option nat)) : Z := zsum (λ o, if decide (o = Some i) then 1 else 0) picks.

Lemma smooth_picks_spec n l p : Balanced l p →
  let r := smooth_picks n l p in
  Balanced l (snd r) ∧ same_static (snd r) p ∧ length (fst r) = n ∧ Forall (λ o, ∃ s, o = Some s ∧ s ∈ l) (fst r)
  ∧ ∀ i, i ∈ l → cw_at (snd r) i = cw_at p i + Z.of_nat n * weight_at p i - zsum (weight_at p) l * times_picked i (fst r).
Proof.
  revert p. induction n as [|n IH]; intros p HB; cbn [smooth_picks fst snd].
  { split_and!; try done. intros i Hi. simpl. lia. }
  destruct (pickSmooth_balanced l p HB) as (s & p1 & Hp & Hs & Hst & HB1 & Hcw). rewrite Hp. cbn [fst snd].
  destruct (IH p1 HB1) as (H1 & H2 & H3 & H4 & H5). split_and!; [done | by etrans | simpl; by rewrite H3 | | ].
  { constructor; [by exists s | done]. }
  intros i Hi. rewrite H5, Hcw, decide_True, (static_weight _ _ i Hst) by done.
  rewrite (zsum_ext (weight_at p1) (weight_at p)) by (intros; by apply static_weight).
  unfold times_picked. rewrite zsum_cons. destruct (decide (i = s)) as [->|Hne].
  - rewrite (decide_True (P := Some s = Some s)) by done. lia.
  - rewrite (decide_False (P := Some s = Some i)) by congruence. lia.
Qed.

(** smooth weighted round robin is exactly fair.  From a fresh pool, for
    any number [n] of consecutive picks from the same candidates with total
    weight [W], no node is ever ahead of its share by a full pick
    ([W * count <= n * weight + W - 1]), and every [W] picks each node is
    selected exactly [weight] times; no scheduler weight overflows. *)
Theorem smooth_weighted_fair l p n : Balanced l p → (∀ i, i ∈ l → cw_at p i = 0) →
  let W := zsum (weight_at p) l in
  let picks := fst (smooth_picks n l p) in
  ∀ i, i ∈ l → W * times_picked i picks <= Z.of_nat n * weight_at p i + W - 1
              ∧ (Z.of_nat n = W → times_picked i picks = weight_at p i).
Proof.
  intros HB H0 W picks i Hi. destruct (smooth_picks_spec n l p HB) as (HB' & Hst & _ & _ & Hcw). fold picks in Hcw.
  assert (zsum (weight_at (snd (smooth_picks n l p))) l = W) as HW by (apply zsum_ext; intros; by apply static_weight).
  assert (∀ j, j ∈ l → 1 - W <= Z.of_nat n * weight_at p j - W * times_picked j picks) as Hlow.
  { intros j Hj. pose proof (bal_lower _ _ HB' j Hj) as H. rewrite HW, Hcw, H0 in H by done. fold W in H. lia. }
  split; [pose proof (Hlow i Hi); lia|]. intros Hn. pose proof (bal_pos _ _ HB) as Hpos. fold W in Hpos.
  assert (∀ j, j ∈ l → 0 <= weight_at p j - times_picked j picks) as Hge.
  { intros j Hj. pose proof (Hlow j Hj) as H. rewrite Hn in H. nia. }
  pose proof (bal_zero _ _ HB') as Hz.
  rewrite (zsum_ext _ (λ j, W * (weight_at p j - times_picked j picks))) in Hz.
  2:{ intros j Hj. rewrite Hcw, H0, Hn by done. fold W. lia. }
  assert (W * (weight_at p i - times_picked i picks) <= 0); [|pose proof (Hge i Hi); nia].
  rewrite <- Hz. apply (zsum_elem (λ j, W * (weight_at p j - times_picked j picks))); [|done].
  intros j Hj. pose proof (Hge j Hj). nia.
Qed.

(** ** Every algorithm picks one of its candidates and changes only weights *)

Lemma smooth_member la l sel tot p : (∀ i, i ∈ l → valid p i) →
  let '(sel', _, p') := foldl (smooth_step la) (sel, tot, p) l in
  same_static p' p ∧ (match sel' with Some s => s ∈ l ∨ sel = Some s | None => sel = None ∧ l = [] end).
Proof.
  revert sel tot p. induction l as [|i l IH]; intros sel tot p Hv; cbn [foldl].
  { split; [done|]. destruct sel; auto. }
  cbn [smooth_step]. destruct (proj1 (valid_node p i) (Hv i ltac:(set_solver))) as [u Hu]. rewrite Hu.
  set (w := if la then _ else _). set (p1 := upd p i _).
  assert (same_static p1 p) as Hst by apply upd_cw_static.
  match goal with |- context [foldl _ (?sl, ?t, _) l] => specialize (IH sl t p1); set (sel1 := sl) in * end.
  destruct (foldl _ _ l) as [[sel' tot'] p']. destruct IH as [H1 H2].
  { intros j Hj. unfold valid. rewrite (static_length _ _ Hst). apply Hv. by constructor. }
  split; [by etrans|]. assert (sel1 = Some i ∨ (sel1 = sel ∧ sel ≠ None)) as Hs1.
  { unfold sel1. destruct sel as [s0|]; [|by left]. destruct (node_at p1 s0); [|by left]. destruct (_ <? _); auto. }
  destruct sel' as [s'|].
  - destruct H2 as [H2|H2]; [left; by constructor|]. destruct Hs1 as [Hs1|[Hs1 _]].
    + left. rewrite Hs1 in H2. simplify_eq. constructor.
    + right. congruence.
  - destruct H2 as [H2 _]. destruct Hs1 as [Hs1|[Hs1 Hn]]; congruence.
Qed.

Definition picks_from (l : list nat) (r : option nat * upstreamPool) (p : upstreamPool) : Prop :=
  ∃ i, fst r = Some i ∧ i ∈ l ∧ same_static (snd r) p.

Lemma pickSmoothWeighted_from la l p : l ≠ [] → (∀ i, i ∈ l → valid p i) → picks_from l (pickSmoothWeighted l la p) p.
Proof.
  intros Hne Hv. unfold pickSmoothWeighted, picks_from. pose proof (smooth_member la l None 0 p Hv) as H.
  destruct (foldl _ _ l) as [[[s|] tot] p']; destruct H as [Hst H]; [|by destruct H].
  exists s. cbn [fst snd]. split_and!; [done | by destruct H | by etrans; [apply upd_cw_fun_static|]].
Qed.

Lemma least_loop_from p b l : least_connections_loop p b l ∈ b :: l.
Proof.
  revert b. induction l as [|i l IH]; intros b; cbn [least_connections_loop]; [constructor|].
  pose proof (IH i). pose proof (IH b).
  match goal with |- context [if ?c then _ else _] => destruct c end; set_solver.
Qed.

Lemma weighted_walk_from p x b l : weighted_walk p x b l ∈ b :: l.
Proof.
  revert x b. induction l as [|i l IH]; intros x b; cbn [weighted_walk]; [constructor|].
  destruct (_ <? _); [set_solver|]. pose proof (IH (wrapu64 (x - wrapu64 (weight_at p i))) i). set_solver.
Qed.

Lemma minimum_priority_spec p b l : (∃ i, i ∈ b :: l ∧ priority_at p i = minimum_priority p b l)
  ∧ ∀ i, i ∈ b :: l → minimum_priority p b l <= priority_at p i.
Proof.
  unfold minimum_priority. assert (∀ m, (foldl (λ m i, if priority_at p i <? m then priority_at p i else m) m l <= m)
    ∧ (∀ i, i ∈ l → foldl (λ m i, if priority_at p i <? m then priority_at p i else m) m l <= priority_at p i)
    ∧ (foldl (λ m i, if priority_at p i <? m then priority_at p i else m) m l = m
       ∨ ∃ i, i ∈ l ∧ priority_at p i = foldl (λ m i, if priority_at p i <? m then priority_at p i else m) m l)) as H.
  { induction l as [|j l IH]; intros m; cbn [foldl]; [split_and!; [lia| by intros ? ?%not_elem_of_nil | by left]|].
    destruct (priority_at p j <? m) eqn:E; boolify.
    - destruct (IH (priority_at p j)) as (H1 & H2 & H3). split_and!; [lia| |].
      + intros i [->|Hi]%elem_of_cons; [done | by apply H2].
      + right. destruct H3 as [H3|(i & Hi & H3)]; [exists j; split; [constructor|by rewrite H3] | exists i; split; [by constructor|done]].
    - destruct (IH m) as (H1 & H2 & H3). split_and!; [lia| |].
      + intros i [->|Hi]%elem_of_cons; [lia | by apply H2].
      + destruct H3 as [H3|(i & Hi & H3)]; [by left | right; exists i; split; [by constructor|done]]. }
  destruct (H (priority_at p b)) as (H1 & H2 & H3). split.
  - destruct H3 as [H3|(i & Hi & H3)]; [exists b; split; [constructor|by rewrite H3] | exists i; split; [by constructor|done]].
  - intros i [->|Hi]%elem_of_cons; [done | by apply H2].
Qed.

Lemma pickPriority_from l p : l ≠ [] → (∀ i, i ∈ l → valid p i) →
  ∃ i, fst (pickPriority l p) = Some i ∧ i ∈ l ∧ same_static (snd (pickPriority l p)) p
    ∧ ∀ j, j ∈ l → priority_at p i <= priority_at p j.
Proof.
  intros Hne Hv. destruct l as [|b l]; [done|]. unfold pickPriority.
  destruct (minimum_priority_spec p b l) as [(m & Hm & Hmin) Hle]. set (mn := minimum_priority p b l) in *.
  assert (∀ i, i ∈ filter (λ i, priority_at p i = mn) (b :: l) → i ∈ b :: l ∧ ∀ j, j ∈ b :: l → priority_at p i <= priority_at p j) as Hg.
  { intros i [Hi1 Hi2]%list_elem_of_filter. split; [done|]. intros j Hj. rewrite Hi1. by apply Hle. }
  assert (m ∈ filter (λ i, priority_at p i = mn) (b :: l)) as Hmf by by apply list_elem_of_filter.
  destruct (filter _ (b :: l)) as [|g [|g2 gs]]; [by apply not_elem_of_nil in Hmf| |].
  - exists g. cbn [fst snd]. destruct (Hg g ltac:(set_solver)). done.
  - destruct (pickSmoothWeighted_from false (g :: g2 :: gs) p ltac:(done)) as (i & H1 & H2 & H3).
    { intros i Hi. apply Hv. by apply Hg. }
    exists i. destruct (Hg i H2). done.
Qed.

Lemma pickRoundRobin_from l p : l ≠ [] → 0 <= next p < 2 ^ 63 →
  fst (pickRoundRobin l p) = l !! Z.to_nat (next p mod len l) ∧ picks_from l (pickRoundRobin l p) p.
Proof.
  intros Hne Hn. unfold pickRoundRobin.
  assert (wrap64 (wrapu64 (wrapu64 (next p + 1) - 1)) = next p) as ->.
  { rewrite (wrapu64_id (next p + 1)) by (unfold uint64_ok, max_uint64; lia).
    rewrite wrapu64_id by (unfold uint64_ok, max_uint64; lia).
    rewrite wrap64_id by (unfold int64_ok, min_int64, max_int64; lia). lia. }
  assert (0 < len l) as Hl by (unfold len; destruct l; simpl; [done|lia]).
  rewrite Z.rem_mod_nonneg by lia. pose proof (Z.mod_pos_bound (next p) (len l) Hl) as Hb.
  assert ((next p mod len l <? 0) = false) as -> by (apply Z.ltb_ge; lia). split; [done|].
  destruct (lookup_lt_is_Some_2 l (Z.to_nat (next p mod len l))) as [i Hi]; [unfold len in *; lia|].
  exists i. cbn [fst snd]. split_and!; [done | by eapply list_elem_of_lookup_2 | done].
Qed.

Lemma pick_by_algorithm_from l p : l ≠ [] → (∀ i, i ∈ l → valid p i) → 0 <= next p < 2 ^ 63 →
  picks_from l (pick_by_algorithm l p) p.
Proof.
  intros Hne Hv Hn. unfold pick_by_algorithm. destruct l as [|b l]; [done|].
  repeat (destruct (_ =?s _); [|]).
  - by apply pickSmoothWeighted_from.
  - exists (least_connections_loop p b l). split_and!; [done | apply least_loop_from | done].
  - destruct (pickPriority_from (b :: l) p) as (i & H1 & H2 & H3 & _); [done|done|]. by exists i.
  - by apply pickSmoothWeighted_from.
  - unfold pickRandomWeighted. destruct (_ =? 0); [exists b; split_and!; [done|constructor|done]|].
    eexists. cbn [fst snd]. split_and!; [done| |done].
    match goal with |- weighted_walk ?q ?x ?d ?k ∈ _ => pose proof (weighted_walk_from q x d k) as Hw end.
    apply elem_of_cons in Hw as [->|Hw]; [constructor | exact Hw].
  - by apply pickRoundRobin_from.
Qed.

(** ** [pick] *)

Definition usable (exclude : option (gset nat)) (p : upstreamPool) (i : nat) : Prop :=
  valid p i ∧ ∀ x, exclude = Some x → i ∉ x.
Definition healthy_at (p : upstreamPool) (i : nat) : Prop := ∃ u, node_at p i = Some u ∧ healthy u = true.

Lemma eligible_spec exclude h p i :
  i ∈ eligible exclude h p ↔ usable exclude p i ∧ (h = true → healthy_at p i).
Proof.
  unfold eligible, usable. rewrite list_elem_of_filter, andb_true_iff, !negb_true_iff, elem_of_seq.
  assert ((match exclude with Some x => bool_decide (i ∈ x) | None => false end) = false
          ↔ ∀ x, exclude = Some x → i ∉ x) as ->.
  { destruct exclude as [x|]; [|naive_solver]. rewrite bool_decide_eq_false. naive_solver. }
  assert (valid p i → (h && negb (match node_at p i with Some u => healthy u | None => false end)) = false
          ↔ (h = true → healthy_at p i)) as Hh.
  { intros [u Hu]%valid_node. unfold healthy_at. rewrite Hu. destruct h; simpl; [|naive_solver].
    rewrite negb_false_iff. naive_solver. }
  split.
  - intros ([H1 H2] & H3). assert (valid p i) as Hv by (unfold valid; lia). split; [done | by apply Hh].
  - intros [[Hv H1] H2]. split_and!; [done | by apply Hh | lia | unfold valid in Hv; lia].
Qed.

Lemma nil_or_mem {A} (l : list A) : l = [] ∨ ∃ x, x ∈ l.
Proof. destruct l as [|x l]; [by left | right; exists x; constructor]. Qed.

(** Where the chosen candidates come from. *)
Lemma pick_candidates_spec exclude p : nodes p ≠ [] →
  pick_candidates exclude p ≠ [] ∧ ∀ i, i ∈ pick_candidates exclude p →
    valid p i
    ∧ ((∃ j, usable exclude p j ∧ healthy_at p j) → usable exclude p i ∧ healthy_at p i)
    ∧ ((∃ j, usable exclude p j) → usable exclude p i)
    ∧ ((∃ j, healthy_at p j) → (∀ j, ¬ usable exclude p j) → healthy_at p i).
Proof.
  intros Hne. unfold pick_candidates.
  pose proof (eligible_spec exclude true p) as E1. pose proof (eligible_spec exclude false p) as E2.
  pose proof (eligible_spec None true p) as E3.
  destruct (eligible exclude true p) as [|c1 l1].
  2:{ split; [done|]. intros i Hi. apply E1 in Hi as [[Hv Hu] Hh]. split_and!; [done|intros _; split; [done | by apply Hh]|done|]. intros _ Hno. by destruct (Hno i). }
  assert (∀ j, usable exclude p j → ¬ healthy_at p j) as N1.
  { intros j Hj Hh. apply (not_elem_of_nil (A := nat) j). by apply E1. }
  destruct (eligible exclude false p) as [|c2 l2].
  2:{ split; [done|]. intros i Hi. apply E2 in Hi as [[Hv Hu] _]. split_and!; [done| |done|].
      - intros (j & Hj & Hh). by destruct (N1 j Hj).
      - intros _ Hno. by destruct (Hno i). }
  assert (∀ j, ¬ usable exclude p j) as N2.
  { intros j Hj. apply (not_elem_of_nil (A := nat) j). by apply E2. }
  assert (∀ j, healthy_at p j → valid p j) as Hhv by (intros j (u & Hu & _); by apply valid_node).
  destruct (eligible None true p) as [|c3 l3].
  - split; [intros Hq; apply Hne; apply (f_equal length) in Hq; rewrite length_seq in Hq; by apply length_zero_iff_nil|]. intros i Hi%elem_of_seq. split_and!.
    + unfold valid. lia.
    + intros (j & Hj & _). by destruct (N2 j).
    + intros (j & Hj). by destruct (N2 j).
    + intros (j & Hj) _. destruct (not_elem_of_nil (A := nat) j). apply E3. split; [split; [by apply Hhv|done] | done].
  - split; [done|]. intros i Hi. apply E3 in Hi as [[Hv _] Hh]. split_and!; [done| | |].
    + intros (j & Hj & _). by destruct (N2 j).
    + intros (j & Hj). by destruct (N2 j).
    + intros _ _. by apply Hh.
Qed.

(** What a pick does to every node, apart from scheduler weights. *)
Definition accounted (i : nat) (p p' : upstreamPool) : Prop :=
  ∀ j, with_currentWeight 0 <$> node_at p' j
       = (if decide (j = i) then with_selected else id) <$> (with_currentWeight 0 <$> node_at p j).

Lemma pick_some exclude p : nodes p ≠ [] → 0 <= next p < 2 ^ 63 →
  ∃ i p', pick exclude p = (Some i, p') ∧ i ∈ pick_candidates exclude p ∧ accounted i p p'.
Proof.
  intros Hne Hn. destruct (pick_candidates_spec exclude p Hne) as [Hc Hs]. unfold pick.
  destruct (pick_candidates exclude p) as [|c l] eqn:E; [done|].
  destruct (pick_by_algorithm_from (c :: l) p) as (i & H1 & H2 & H3); [done | intros j Hj; exact (proj1 (Hs j Hj)) | done |].
  destruct (pick_by_algorithm (c :: l) p) as [sel p1]. cbn [fst snd] in *. subst sel.
  exists i. eexists. split_and!; [done|done|]. intros j. rewrite node_at_upd, <- (static_at _ _ j H3).
  destruct (decide (i = j)) as [->|Hne'].
  - rewrite decide_True by done. by destruct (node_at p1 j).
  - rewrite decide_False by done. by destruct (node_at p1 j).
Qed.

(** The same without assuming anything of the counter: what [pick] changes. *)
Lemma pick_by_algorithm_static l p : l ≠ [] → (∀ i, i ∈ l → valid p i) →
  same_static (snd (pick_by_algorithm l p)) p ∧ ∀ i, fst (pick_by_algorithm l p) = Some i → i ∈ l.
Proof.
  intros Hne Hv. unfold pick_by_algorithm. destruct l as [|b l]; [done|].
  assert (∀ r, picks_from (b :: l) r p → same_static (snd r) p ∧ ∀ i, fst r = Some i → i ∈ b :: l) as Hfrom.
  { intros r (i & H1 & H2 & H3). split; [done|]. intros j Hj. congruence. }
  repeat (destruct (_ =?s _); [|]).
  - apply Hfrom. by apply pickSmoothWeighted_from.
  - split; [done|]. intros i [= <-]. apply least_loop_from.
  - destruct (pickPriority_from (b :: l) p) as (i & H1 & H2 & H3 & _); [done|done|].
    split; [done|]. intros j Hj. congruence.
  - apply Hfrom. by apply pickSmoothWeighted_from.
  - unfold pickRandomWeighted. destruct (_ =? 0).
    + split; [done|]. intros i [= <-]. constructor.
    + cbn [fst snd]. split; [done|]. intros i [= <-].
      destruct (_ <? _); [constructor | apply weighted_walk_from].
  - unfold pickRoundRobin. cbn [fst snd]. split; [done|]. intros i. destruct (_ <? 0); [done|].
    apply list_elem_of_lookup_2.
Qed.

Lemma pick_effect exclude p :
  match fst (pick exclude p) with
  | Some i => valid p i ∧ accounted i p (snd (pick exclude p))
  | None => same_static (snd (pick exclude p)) p
  end.
Proof.
  unfold pick. destruct (nil_or_mem (nodes p)) as [Hnil|Hmem].
  { assert (pick_candidates exclude p = []) as ->; [|done].
    unfold pick_candidates, eligible. by rewrite Hnil. }
  assert (nodes p ≠ []) as Hne by (destruct Hmem as [x Hx]; intros Hq; rewrite Hq in Hx; by apply not_elem_of_nil in Hx).
  destruct (pick_candidates_spec exclude p Hne) as [Hc Hs].
  destruct (pick_candidates exclude p) as [|c l] eqn:E; [done|].
  destruct (pick_by_algorithm_static (c :: l) p) as [H1 H2]; [done | intros j Hj; exact (proj1 (Hs j Hj)) |].
  destruct (pick_by_algorithm (c :: l) p) as [[i|] p1]; cbn [fst snd] in *; [|done].
  split; [exact (proj1 (Hs i (H2 i eq_refl)))|]. intros j. rewrite node_at_upd, <- (static_at _ _ j H1).
  destruct (decide (i = j)) as [->|Hne'].
  - rewrite decide_True by done. by destruct (node_at p1 j).
  - rewrite decide_False by done. by destruct (node_at p1 j).
Qed.

(** whatever algorithm is configured, [pick] answers with a node whenever
    the pool has one, in the promised order of preference: healthy and not yet
    tried, then not yet tried, then healthy, then any; and it counts exactly
    one selection and one active request, on that node. *)
Theorem pick_contract exclude p : nodes p ≠ [] → 0 <= next p < 2 ^ 63 →
  ∃ i p', pick exclude p = (Some i, p') ∧ valid p i ∧ accounted i p p'
  ∧ ((∃ j, usable exclude p j ∧ healthy_at p j) → usable exclude p i ∧ healthy_at p i)
  ∧ ((∃ j, usable exclude p j) → usable exclude p i)
  ∧ ((∃ j, healthy_at p j) → (∀ j, ¬ usable exclude p j) → healthy_at p i).
Proof.
  intros Hne Hn. destruct (pick_some exclude p Hne Hn) as (i & p' & H1 & H2 & H3).
  destruct (pick_candidates_spec exclude p Hne) as [_ Hs]. destruct (Hs i H2) as (?&?&?&?). by exists i, p'.
Qed.

(** priority failover never sends a request past a better tier: the node
    picked has the least priority number of all candidates. *)
Theorem pickPriority_minimal l p : l ≠ [] → (∀ i, i ∈ l → valid p i) →
  ∃ i, fst (pickPriority l p) = Some i ∧ i ∈ l ∧ ∀ j, j ∈ l → priority_at p i <= priority_at p j.
Proof. intros Hne Hv. destruct (pickPriority_from l p Hne Hv) as (i & ? & ? & _ & ?). by exists i. Qed.
End smooth.

(** ** Least connections *)

Definition at_least_as_loaded (p : upstreamPool) (b i : nat) : Prop :=
  ∀ u ub, node_at p i = Some u → node_at p b = Some ub → less_loaded u ub = false.

Lemma less_loaded_trans u v w : less_loaded u v = true → less_loaded v w = true → less_loaded u w = true.
Proof.
  unfold less_loaded. rewrite !orb_true_iff, !andb_true_iff, !Z.ltb_lt.
  intros [H1|[H1 P1]] [H2|[H2 P2]]; eauto using flt_trans, flt_feq, feq_flt. right. split; [by eapply feq_trans | lia].
Qed.

Lemma least_loop_spec p b l : valid p b → (∀ i, i ∈ l → valid p i) →
  let r := least_connections_loop p b l in
  (∀ ub ur, node_at p b = Some ub → node_at p r = Some ur → r = b ∨ less_loaded ur ub = true)
  ∧ ∀ i, i ∈ b :: l → at_least_as_loaded p r i.
Proof.
  revert b. induction l as [|i l IH]; intros b Hb Hl; cbn [least_connections_loop].
  { split; [by left|]. intros j [->|Hj]%elem_of_cons; [|by apply not_elem_of_nil in Hj].
    intros u ub H1 H2. simplify_eq. unfold less_loaded. rewrite flt_irrefl. simpl.
    rewrite Z.ltb_irrefl. by rewrite andb_false_r. }
  pose proof Hb as [ub Hub]%valid_node. pose proof (Hl i ltac:(constructor)) as Hi. pose proof Hi as [ui Hui]%valid_node.
  assert ((match node_at p i, node_at p b with Some u, Some b => less_loaded u b | _, _ => false end) = less_loaded ui ub)
    as -> by by rewrite Hui, Hub.
  destruct (less_loaded ui ub) eqn:E.
  - destruct (IH i Hi ltac:(intros; apply Hl; by constructor)) as [H1 H2]. set (r := least_connections_loop p i l) in *.
    assert (∀ ur, node_at p r = Some ur → less_loaded ur ub = true) as Hr.
    { intros ur Hur. destruct (H1 ui ur Hui Hur) as [Heq|H]; [|by eapply less_loaded_trans].
      rewrite Heq in Hur. by simplify_eq. }
    split; [intros ub' ur Hub' Hur; simplify_eq; right; by apply Hr|].
    intros j [->|Hj]%elem_of_cons; [|by apply H2].
    intros u ur Hu Hur. assert (u = ub) as -> by congruence. destruct (less_loaded ub ur) eqn:E2; [|done].
    pose proof (Hr ur Hur) as Hr'. pose proof (less_loaded_trans _ _ _ E2 Hr') as Hbad.
    unfold less_loaded in Hbad. rewrite flt_irrefl, Z.ltb_irrefl, andb_false_r in Hbad. done.
  - destruct (IH b Hb ltac:(intros; apply Hl; by constructor)) as [H1 H2]. set (r := least_connections_loop p b l) in *.
    split; [exact H1|]. intros j [->|[->|Hj]%elem_of_cons]%elem_of_cons; [apply H2; constructor| |apply H2; by constructor].
    intros u ur Hu Hur. assert (u = ui) as -> by congruence. destruct (less_loaded ui ur) eqn:E2; [|done].
    destruct (H1 ub ur Hub Hur) as [Heq|H].
    + rewrite Heq in Hur. simplify_eq. congruence.
    + pose proof (less_loaded_trans _ _ _ E2 H). congruence.
Qed.

(** least connections picks a node whose load — active requests plus one over
    weight, in the program's binary64 arithmetic — no candidate undercuts; among
    equal loads none has a better priority. *)
Theorem pickLeastConnections_minimal l p : l ≠ [] → (∀ i, i ∈ l → valid p i) →
  ∃ r, pickLeastConnections l p = Some r ∧ r ∈ l ∧ ∀ i u ur, i ∈ l → node_at p i = Some u → node_at p r = Some ur →
    flt (load u) (load ur) = false ∧ (feq (load u) (load ur) = true → priority ur <= priority u).
Proof.
  intros Hne Hv. destruct l as [|b l]; [done|]. exists (least_connections_loop p b l).
  split; [done|]. split; [apply least_loop_from|]. intros i u ur Hi Hu Hur.
  destruct (least_loop_spec p b l) as [_ H]; [apply Hv; constructor | intros; apply Hv; by constructor|].
  pose proof (H i Hi u ur Hu Hur) as Hl. unfold less_loaded in Hl. apply orb_false_iff in Hl as [H1 H2].
  split; [done|]. intros Heq. rewrite Heq in H2. simpl in H2. by apply Z.ltb_ge in H2.
Qed.

(** ** Random weighted *)

Lemma total_weight p l t : 0 <= t → (∀ i, i ∈ l → 0 <= weight_at p i) → t + zsum (weight_at p) l <= max_int64 →
  foldl (λ t i, wrapu64 (t + wrapu64 (weight_at p i))) t l = t + zsum (weight_at p) l.
Proof.
  revert t. induction l as [|i l IH]; intros t Ht Hw Hmax; simpl in *; [lia|].
  pose proof (Hw i ltac:(constructor)).
  assert (0 <= zsum (weight_at p) l) by (apply zsum_nonneg; intros; apply Hw; by constructor).
  unfold max_int64 in *.
  rewrite (wrapu64_id (weight_at p i)) by (unfold uint64_ok, max_uint64; lia).
  rewrite wrapu64_id by (unfold uint64_ok, max_uint64; lia). rewrite IH; [lia|lia| |lia].
  intros; apply Hw; by constructor.
Qed.

(** The draws [0 <= x < total] that select node [i] form the interval of its
    weight after the weights of the candidates before it. *)
Lemma weighted_walk_interval p d pre i post x : (∀ j, j ∈ pre ++ i :: post → 0 <= weight_at p j) →
  zsum (weight_at p) (pre ++ i :: post) <= max_int64 → NoDup (pre ++ i :: post) →
  0 <= x < zsum (weight_at p) (pre ++ i :: post) →
  weighted_walk p x d (pre ++ i :: post) = i
  ↔ zsum (weight_at p) pre <= x < zsum (weight_at p) pre + weight_at p i.
Proof.
  revert d x. induction pre as [|j pre IH]; intros d x Hw Hmax Hnd Hx.
  - simpl in *. pose proof (Hw i ltac:(constructor)) as Hwi.
    assert (0 <= zsum (weight_at p) post) by (apply zsum_nonneg; intros; apply Hw; by constructor).
    unfold max_int64 in *.
    rewrite (wrapu64_id (weight_at p i)) by (unfold uint64_ok, max_uint64; lia).
    destruct (x <? weight_at p i) eqn:E; boolify; [split; [lia|done]|]. split; [|lia]. intros Hwalk. exfalso.
    rewrite wrapu64_id in Hwalk by (unfold uint64_ok, max_uint64; lia).
    apply NoDup_cons in Hnd as [Hi Hnd]. destruct post as [|k post]; [simpl in *; lia|].
    assert (∀ y d' l, l ≠ [] → weighted_walk p y d' l ∈ l) as Hin.
    { clear. intros y d' l. revert y d'. induction l as [|a l IH]; intros y d' Hne; [done|]. cbn [weighted_walk].
      destruct (_ <? _); [constructor|]. destruct l as [|b l]; [constructor|]. right. by apply IH. }
    pose proof (Hin (x - weight_at p i) i (k :: post) ltac:(done)) as Hin'. rewrite Hwalk in Hin'. done.
  - cbn [app] in *. rewrite zsum_cons in Hmax, Hx. apply NoDup_cons in Hnd as [Hj Hnd].
    pose proof (Hw j ltac:(constructor)) as Hwj.
    assert (0 <= zsum (weight_at p) (pre ++ i :: post)) by (apply zsum_nonneg; intros; apply Hw; by constructor).
    assert (0 <= zsum (weight_at p) pre) by (apply zsum_nonneg; intros; apply Hw; set_solver).
    rewrite zsum_cons. cbn [weighted_walk]. unfold max_int64 in *.
    rewrite (wrapu64_id (weight_at p j)) by (unfold uint64_ok, max_uint64; lia).
    destruct (x <? weight_at p j) eqn:E; boolify.
    + split; [intros ->; set_solver | lia].
    + rewrite wrapu64_id by (unfold uint64_ok, max_uint64; lia). rewrite IH; [lia| |unfold max_int64; lia|done|lia].
      intros; apply Hw; by constructor.
Qed.

(** random weighted selection is proportional.  The draw is the generator's
    output modulo the total weight, and the draws that select a node are exactly
    an interval as long as its weight. *)
Theorem pickRandomWeighted_proportional p pre i post : (∀ j, j ∈ pre ++ i :: post → 0 <= weight_at p j) →
  0 < zsum (weight_at p) (pre ++ i :: post) <= max_int64 → NoDup (pre ++ i :: post) →
  let draw := random_mix (wrapu64 (randomState p + golden)) mod zsum (weight_at p) (pre ++ i :: post) in
  fst (pickRandomWeighted (pre ++ i :: post) p) = Some i
  ↔ zsum (weight_at p) pre <= draw < zsum (weight_at p) pre + weight_at p i.
Proof.
  intros Hw [Hpos Hmax] Hnd draw. unfold draw. set (l := pre ++ i :: post) in *. unfold pickRandomWeighted.
  rewrite total_weight by (done || lia). rewrite Z.add_0_l.
  destruct l as [|b l'] eqn:El; [by destruct pre|]. rewrite <- El in *.
  assert ((zsum (weight_at p) l =? 0) = false) as -> by (apply Z.eqb_neq; lia). cbn [fst].
  match goal with |- context [weighted_walk ?q (?y mod _) ?d _] => set (q' := q); set (x := y) end.
  pose proof (Z.mod_pos_bound x (zsum (weight_at p) l) Hpos) as Hx.
  pose proof (weighted_walk_interval q' b pre i post (x mod zsum (weight_at p) l)) as Hi.
  change (weight_at q') with (weight_at p) in Hi. fold l in Hi.
  rewrite <- Hi by done. split; [by intros [= ?] | by intros ->].
Qed.

(** ** Health *)

(** The verdicts of successive checks of one node, applied in order, and the
    number of changes reported. *)
Fixpoint apply_checks (u : upstream) (verdicts : list bool) : upstream * Z :=
  match verdicts with
  | [] => (u, 0)
  | v :: vs => let r := setNodeHealth v u in
               let r' := apply_checks (fst r) vs in (fst r', (if snd r then 1 else 0) + snd r')
  end.

(** How often a sequence of values that follows [h] changes to [v]. *)
Fixpoint changes_to (v h : bool) (vs : list bool) : Z :=
  match vs with
  | [] => 0
  | x :: vs => (if negb (eqb h x) && eqb x v then 1 else 0) + changes_to v x vs
  end.

(** the health state machine.  After any sequence of health checks a node's
    state is the last verdict, and its failure and recovery counters (modulo
    2^64) and the reported changes count exactly the transitions — repeated
    verdicts count once; requests in flight and weights are untouched. *)
Theorem health_counts_transitions u vs : uint64_ok (healthFailures u) → uint64_ok (healthRecoveries u) →
  let r := apply_checks u vs in
  healthy (fst r) = default (healthy u) (last vs)
  ∧ healthFailures (fst r) = wrapu64 (healthFailures u + changes_to false (healthy u) vs)
  ∧ healthRecoveries (fst r) = wrapu64 (healthRecoveries u + changes_to true (healthy u) vs)
  ∧ snd r = changes_to false (healthy u) vs + changes_to true (healthy u) vs
  ∧ active (fst r) = active u ∧ currentWeight (fst r) = currentWeight u.
Proof.
  revert u. induction vs as [|v vs IH]; intros u Hf Hr; cbn [apply_checks changes_to fst snd].
  { rewrite !Z.add_0_r, !wrapu64_id by done. done. }
  destruct (setNodeHealth v u) as [u1 changed] eqn:E. cbn [fst snd].
  assert (healthy u1 = v ∧ active u1 = active u ∧ currentWeight u1 = currentWeight u
    ∧ changed = negb (eqb (healthy u) v)
    ∧ healthFailures u1 = wrapu64 (healthFailures u + if negb (eqb (healthy u) v) && eqb v false then 1 else 0)
    ∧ healthRecoveries u1 = wrapu64 (healthRecoveries u + if negb (eqb (healthy u) v) && eqb v true then 1 else 0))
    as (Ev & Ea & Ec & Ech & Ef & Er).
  { unfold setNodeHealth in E. destruct (eqb (healthy u) v) eqn:Eq; injection E as <- <-.
    - apply eqb_prop in Eq. rewrite !Z.add_0_r, !wrapu64_id by done. done.
    - simpl. destruct v; rewrite ?Z.add_0_r; split_and!; done. }
  destruct (IH u1) as (H1 & H2 & H3 & H4 & H5 & H6); [rewrite Ef; auto with go..|rewrite Er; auto with go|].
  rewrite Ev in *. split_and!; [| | | |congruence|congruence].
  - rewrite H1, last_cons. by destruct (last vs).
  - rewrite H2, Ef. unfold wrapu64. rewrite Zplus_mod_idemp_l. f_equal. lia.
  - rewrite H3, Er. unfold wrapu64. rewrite Zplus_mod_idemp_l. f_equal. lia.
  - rewrite H4, Ech. by destruct (eqb (healthy u) v), v; simpl; lia.
Qed.

(** *** Witnesses: two nodes of weights 2 and 1 *)

Definition sample_node (w p : Z) (h : bool) : upstream :=
  mkUpstream [] (mkURL [] [] [] [] [] false) w p h 0 0 0 0 f_zero 0.
Definition sample_pool (alg : string) : upstreamPool :=
  mkPool [sample_node 2 10 true; sample_node 1 5 true; sample_node 4 5 false] 0 7 [] alg f_one f_one.
Definition sample_fm : FloatMath := {| pow := λ x _, x; int64_undefined := λ _, 0 |}.

Lemma sample_balanced : Balanced [0; 1]%nat (sample_pool "weighted_round_robin").
Proof.
  constructor; try done.
  - intros i Hi. unfold valid. simpl. set_solver by lia.
  - repeat constructor; set_solver.
  - intros i. rewrite !elem_of_cons. intros [->|[->|[]%not_elem_of_nil]]; vm_compute; discriminate.
  - intros i. rewrite !elem_of_cons. intros [->|[->|[]%not_elem_of_nil]]; vm_compute; discriminate.
Qed.

Lemma smooth_weighted_fair_witness :
  fst (smooth_picks (FM := sample_fm) 3 [0; 1]%nat (sample_pool "weighted_round_robin")) = [Some 0; Some 1; Some 0]%nat
  ∧ times_picked 0 (fst (smooth_picks (FM := sample_fm) 3 [0; 1]%nat (sample_pool "weighted_round_robin"))) = 2.
Proof.
  split; [vm_compute; reflexivity|].
  refine (proj2 (smooth_weighted_fair (FM := sample_fm) [0; 1]%nat (sample_pool "weighted_round_robin") 3 sample_balanced _ 0%nat _) _).
  - intros i. rewrite !elem_of_cons. intros [->|[->|[]%not_elem_of_nil]]; reflexivity.
  - constructor.
  - reflexivity.
Defined.

Lemma pick_contract_witness : ∃ i p', pick (FM := sample_fm) (Some {[0%nat]}) (sample_pool "adaptive_latency") = (Some i, p')
  ∧ valid (sample_pool "adaptive_latency") i.
Proof.
  destruct (pick_contract (FM := sample_fm) (Some {[0%nat]}) (sample_pool "adaptive_latency")) as (i & p' & H1 & H2 & _);
    [discriminate | vm_compute; split; [discriminate|reflexivity] |].
  exists i, p'. split; [exact H1 | exact H2].
Defined.

Lemma pickPriority_minimal_witness : ∃ i, fst (pickPriority (FM := sample_fm) [0; 1; 2]%nat (sample_pool "priority_failover")) = Some i
  ∧ i ∈ [0; 1; 2]%nat.
Proof.
  destruct (pickPriority_minimal (FM := sample_fm) [0; 1; 2]%nat (sample_pool "priority_failover")) as (i & H1 & H2 & _);
    [discriminate | intros i Hi; unfold valid; simpl; set_solver by lia |].
  exists i. split; [exact H1 | exact H2].
Defined.

Lemma pickLeastConnections_minimal_witness : ∃ r, pickLeastConnections [0; 1; 2]%nat (sample_pool "least_connections") = Some r
  ∧ r ∈ [0; 1; 2]%nat.
Proof.
  destruct (pickLeastConnections_minimal [0; 1; 2]%nat (sample_pool "least_connections")) as (i & H1 & H2 & _);
    [discriminate | intros i Hi; unfold valid; simpl; set_solver by lia |].
  exists i. split; [exact H1 | exact H2].
Defined.

Lemma pickRandomWeighted_proportional_witness :
  fst (pickRandomWeighted ([0] ++ 2 :: [])%nat (sample_pool "random_weighted")) = Some 2%nat.
Proof.
  refine (proj2 (pickRandomWeighted_proportional (sample_pool "random_weighted") [0]%nat 2%nat []%nat _ _ _) _).
  - intros i. rewrite !elem_of_app, !elem_of_cons. intros [[->|[]%not_elem_of_nil]|[->|[]%not_elem_of_nil]]; vm_compute; discriminate.
  - vm_compute. split; [reflexivity|discriminate].
  - repeat constructor; set_solver.
  - vm_compute. split; [discriminate|reflexivity].
Defined.

Lemma health_counts_transitions_witness :
  let r := apply_checks (sample_node 1 1 true) [false; false; true; false] in
  healthFailures (fst r) = 2 ∧ healthRecoveries (fst r) = 1.
Proof.
  destruct (health_counts_transitions (sample_node 1 1 true) [false; false; true; false]) as (_ & H1 & H2 & _);
    [vm_compute; split; discriminate | vm_compute; split; discriminate |].
  split; [exact H1 | exact H2].
Defined.
End Upstream.
