(* ===== verification/Handler.v ===== *)
(** * The EdgeProxy data plane: apps/edgeproxy/internal/proxy/handler.go and
    capped_buffer.go

    [handleRoute] and [fetchAndServe] as functions of the pool, the cache and
    an environment that says what the network and the clock did: one
    [attempt_env] per origin call.  Metrics and access-log calls are the list of
    observations a request emits.  [Module Capture] is the response recorder,
    [Module Tunnels] the registry of upgraded connections. *)

From S2P Require Import Prelude GoStr GoPath GoHttp GoCodec GoFloat NetIP Config Cache CachePolicy ProxyHeaders ClientIP Upstream.

Module Handler.
Import CachePolicy ProxyHeaders Upstream.

(** ** Small helpers *)

Definition retryableStatus (status : Z) : bool := (status =? 502) || (status =? 503) || (status =? 504).
Definition unsafeMethod (method : str) : bool := negb (bool_decide (method ∈ lits ["GET"; "HEAD"; "OPTIONS"; "TRACE"])).
Definition saturatingAddUint64 (left right : Z) : Z := if max_uint64 - left <? right then max_uint64 else wrapu64 (left + right).
Definition maxInt64 (value minimum : Z) : Z := if value <? minimum then minimum else value.

(** Errors by their cause; [errorText] is a parameter of the log, not of control. *)
Inductive failure :=
  | NoUpstream
  | CloneFailed (msg : str)
  | RoundTripFailed (msg : str)
  | BadStatus (status : Z)
  | ContextDone
  | BadUpgradeRequest (msg : str)
  | UpgradeFailed
  | CopyFailed.

(** ** What happens around one origin call *)

Record attempt_env := mkAttempt {
  a_body_error : option str;         (* the error of [GetBody] *)
  a_result : str + Response;         (* [RoundTrip] *)
  a_elapsed : duration;
  a_timeout : bool;                  (* [isTimeoutError] of its error *)
  a_client_done : bool;              (* the client's context is done after the call *)
  a_ctx_done : bool;                 (* the request's context (with timeout) is done *)
  a_backoff_done : bool;             (* ... becomes done during the backoff *)
  a_client_done_backoff : bool;      (* the client's context is done then *)
}.

Record requestResult := mkResult {
  r_cacheStatus : str;
  r_upstream : option nat;           (* the node of the last call *)
  r_upstreamStatus : Z;
  r_upstreamDuration : duration;
  r_upstreamCalls : Z;
  r_retries : Z;
  r_tunnelBytesIn : Z;
  r_tunnelBytesOut : Z;
  r_responseDuration : duration;
  r_proxyError : bool;
  r_clientCanceled : bool;
  r_error : option failure;          (* errorMessage *)
}.

(** [metrics.RecordUpstream] *)
Record observation := mkObs {
  o_node : nat; o_status : Z; o_duration : duration;
  o_failed : bool; o_canceled : bool; o_timeout : bool; o_retry : bool }.

Record loop_state := mkLoop {
  ls_pool : upstreamPool;
  ls_excluded : gset nat;
  ls_resp : option Response;
  ls_lastErr : option failure;
  ls_active : option nat;
  ls_result : requestResult;
  ls_obs : list observation;
}.

(** A request as [fetchAndServe] sees it. *)
Record request_env := mkEnv {
  q_req : Request;
  q_replayable : bool;               (* no body, or one with GetBody *)
  q_probe : bool;                    (* isOperationalProbe *)
  q_world : nat → attempt_env;       (* by attempt number *)
  q_id : str;                        (* the request's identifier *)
  q_ip : str;                        (* the resolved client address *)
  q_tls : bool;                      (* the client connected with TLS *)
  q_forwarded : str;                 (* the configured forwarding header *)
}.

Definition set_health (i : nat) (h : bool) (p : upstreamPool) : upstreamPool :=
  upd p i (λ u, fst (setNodeHealth h u)).

Section fetch.
Context {U : Unicode} {N : NetURL} {T : HttpTime} {SH : Sha256} {FM : FloatMath}.
Implicit Types (cfg : RouteConfig) (p : upstreamPool).

Definition attempts_of (e : request_env) cfg : Z :=
  if isIdempotent (req_method (q_req e)) && q_replayable e then 1 + retry_count (proxy cfg) else 1.

(** The result after a call to node [i]. *)
Definition count_call (i : nat) (a : attempt_env) (r : requestResult) : requestResult :=
  let calls := wrapu64 (r_upstreamCalls r + 1) in
  mkResult (r_cacheStatus r) (Some i)
    (match a_result a with inr resp => resp_status resp | inl _ => r_upstreamStatus r end)
    (wrap64 (r_upstreamDuration r + a_elapsed a)) calls (if 1 <? calls then wrapu64 (calls - 1) else r_retries r)
    (r_tunnelBytesIn r) (r_tunnelBytesOut r) (r_responseDuration r) (r_proxyError r) (r_clientCanceled r) (r_error r).
Definition with_error (err : option failure) (r : requestResult) : requestResult :=
  mkResult (r_cacheStatus r) (r_upstream r) (r_upstreamStatus r) (r_upstreamDuration r) (r_upstreamCalls r)
    (r_retries r) (r_tunnelBytesIn r) (r_tunnelBytesOut r) (r_responseDuration r) (r_proxyError r) (r_clientCanceled r) err.
Definition with_canceled (c : bool) (r : requestResult) : requestResult :=
  mkResult (r_cacheStatus r) (r_upstream r) (r_upstreamStatus r) (r_upstreamDuration r) (r_upstreamCalls r)
    (r_retries r) (r_tunnelBytesIn r) (r_tunnelBytesOut r) (r_responseDuration r) (r_proxyError r) c (r_error r).
Definition with_proxyError (b : bool) (r : requestResult) : requestResult :=
  mkResult (r_cacheStatus r) (r_upstream r) (r_upstreamStatus r) (r_upstreamDuration r) (r_upstreamCalls r)
    (r_retries r) (r_tunnelBytesIn r) (r_tunnelBytesOut r) (r_responseDuration r) b (r_clientCanceled r) (r_error r).
Definition with_cacheStatus (s : str) (r : requestResult) : requestResult :=
  mkResult s (r_upstream r) (r_upstreamStatus r) (r_upstreamDuration r) (r_upstreamCalls r)
    (r_retries r) (r_tunnelBytesIn r) (r_tunnelBytesOut r) (r_responseDuration r) (r_proxyError r) (r_clientCanceled r) (r_error r).

Definition with_tunnel (bin bout : Z) (d : duration) (r : requestResult) : requestResult :=
  mkResult (r_cacheStatus r) (r_upstream r) (r_upstreamStatus r) (r_upstreamDuration r) (r_upstreamCalls r)
    (r_retries r) bin bout d (r_proxyError r) (r_clientCanceled r) (r_error r).
Definition new_result (cacheStatus : str) : requestResult := mkResult cacheStatus None 0 0 0 0 0 0 0 false false None.

(** The request sent to an origin, or the error.  The result does not depend on
    the order in which the identity headers are visited
    ([removeForwardingIdentityHeaders_exact]); one is fixed here. *)
Definition outbound_headers (e : request_env) (upgrade : str) : header :=
  let inn := q_req e in
  let h := header_del (removeHopByHop (req_header inn)) internalProbeHeader in
  let h := removeForwardingIdentityHeaders (q_forwarded e) (map_to_list h).*1 h in
  let h := header_set h "X-Forwarded-For" (q_ip e) in
  let h := header_set h "X-Forwarded-Proto" (if q_tls e then "https" else "http") in
  let h := header_set h "X-Forwarded-Host" (req_host inn) in
  let h := header_set h "X-Request-ID" (q_id e) in
  let h := header_add h "Via" "1.1 edgeproxy-go" in
  if upgrade =?s [] then h else header_set (header_set h "Connection" "Upgrade") "Upgrade" upgrade.

Definition cloneRequest (e : request_env) cfg (node : upstream) (body_error : option str) : str + Request :=
  let inn := q_req e in
  match protocolUpgrade (req_header inn) with
  | inl m => inl m
  | inr upgrade =>
      let host := if preserve_host cfg then req_host inn else url_host (url node) in
      match body_error with
      | Some m => inl m
      | None => inr (mkRequest (req_method inn) host
                       (rewriteURL (req_url inn) (url node) (path_prefix cfg) (strip_prefix cfg))
                       (outbound_headers e upgrade) (req_remote inn))
      end
  end.

Definition clone_attempt (e : request_env) cfg (k i : nat) p : str + Request :=
  match node_at p i with
  | Some u => cloneRequest e cfg u (a_body_error (q_world e k))
  | None => inl []
  end.

(** The body of the retry loop after a successful [cloneRequest], for attempt
    number [k] on node [i]: the new state and whether the loop goes on. *)
Definition after_call (e : request_env) cfg (attempts : Z) (k : nat) (i : nat) (s : loop_state)
    : loop_state * bool :=
  let a := q_world e k in
  let probe := q_probe e in
  let err := match a_result a with inl m => Some m | inr _ => None end in
  let resp := match a_result a with inr r => Some r | inl _ => None end in
  let clientCanceled := match err with Some _ => a_client_done a | None => false end in
  let p := if negb probe && negb clientCanceled then observe i (a_elapsed a) (ls_pool s) else ls_pool s in
  let result := count_call i a (ls_result s) in
  let status := match resp with Some r => resp_status r | None => 0 end in
  let retryableResponse := match resp with Some r => retryableStatus (resp_status r) | None => false end in
  let failed := match err with Some _ => true | None => retryableResponse end in
  let telemetryFailed := match err, resp with
                         | Some _, _ => true | None, Some r => 500 <=? resp_status r | None, None => false end in
  let attemptErr := match err with Some m => Some (RoundTripFailed m)
                    | None => if retryableResponse then Some (BadStatus status) else None end in
  let retry := bool_decide (0 < k)%nat in
  let obs := if probe then ls_obs s
             else ls_obs s ++ [mkObs i status (a_elapsed a) (telemetryFailed && negb clientCanceled) clientCanceled
                                  (match err with Some _ => a_timeout a | None => false end && negb clientCanceled) retry] in
  if negb failed then
    (mkLoop (if probe then p else set_health i true p) (ls_excluded s) resp None (Some i) (with_error None result) obs, false)
  else if clientCanceled then
    (mkLoop (if probe then p else releaseActive i p) (ls_excluded s) None (Some ContextDone) (ls_active s)
            (with_error (Some ContextDone) (with_canceled true result)) obs, false)
  else
    let excluded := {[ i ]} ∪ ls_excluded s in
    let p := if probe then p else set_health i false p in
    let canRetry := Z.of_nat k + 1 <? attempts in
    if retryableResponse && canRetry && probe && bool_decide (pickProbe (Some excluded) p = None)
    then (mkLoop p excluded resp None (Some i) (with_error None result) obs, false)
    else if retryableResponse && negb canRetry
    then (mkLoop p excluded resp None (Some i) (with_error None result) obs, false)
    else
      let p := if probe then p else releaseActive i p in
      if a_ctx_done a
      then (mkLoop p excluded None (Some ContextDone) (ls_active s) (with_error (Some ContextDone) result) obs, false)
      else if canRetry && (0 <? retry_backoff (proxy cfg)) && a_backoff_done a
      then (mkLoop p excluded None (Some ContextDone) (ls_active s)
              (with_error (Some ContextDone)
                 (if a_client_done_backoff a then with_canceled true result else result)) obs, false)
      else (mkLoop p excluded None attemptErr (ls_active s) (with_error attemptErr result) obs, true).

(** [for attempt := k; attempt < attempts; attempt++]; [n] attempts are left. *)
Fixpoint retry_loop (e : request_env) cfg (attempts : Z) (n k : nat) (s : loop_state) : loop_state :=
  match n with
  | O => s
  | S n =>
      let '(node, p) := if q_probe e then (pickProbe (Some (ls_excluded s)) (ls_pool s), ls_pool s)
                        else pick (Some (ls_excluded s)) (ls_pool s) in
      match node with
      | None =>
          mkLoop p (ls_excluded s) (ls_resp s) (match ls_lastErr s with None => Some NoUpstream | x => x end)
                 (ls_active s) (ls_result s) (ls_obs s)
      | Some i =>
          match clone_attempt e cfg k i p with
          | inl m =>
              mkLoop (if q_probe e then p else releaseActive i p) (ls_excluded s) (ls_resp s) (Some (CloneFailed m))
                     (ls_active s) (ls_result s) (ls_obs s)
          | inr _ =>
              let '(s', continue) :=
                after_call e cfg attempts k i
                  (mkLoop p (ls_excluded s) (ls_resp s) (ls_lastErr s) (ls_active s) (ls_result s) (ls_obs s)) in
              if continue then retry_loop e cfg attempts n (S k) s' else s'
          end
      end
  end.

Definition start_state (cacheStatus : str) p : loop_state :=
  mkLoop p ∅ None None None (new_result cacheStatus) [].

Definition run_attempts (e : request_env) cfg (cacheStatus : str) p : loop_state :=
  let attempts := attempts_of e cfg in retry_loop e cfg attempts (Z.to_nat attempts) 0 (start_state cacheStatus p).

(** [defer rt.pool.releaseActive(activeNode)] *)
Definition release_deferred (e : request_env) (s : loop_state) : upstreamPool :=
  match ls_active s with
  | Some i => if q_probe e then ls_pool s else releaseActive i (ls_pool s)
  | None => ls_pool s
  end.

(** ** Writing a response *)

(** [cappedBuffer] of capped_buffer.go, fed with the chunks of the body. *)
Record cappedBuffer := mkCapped { cb_buf : str; cb_max : Z; cb_overflow : bool }.
Definition capped_write (p : str) (c : cappedBuffer) : cappedBuffer :=
  if cb_overflow c then c
  else
    let remaining := cb_max c - len (cb_buf c) in
    if remaining <=? 0 then mkCapped (cb_buf c) (cb_max c) true
    else if remaining <? len p then mkCapped (cb_buf c ++ take (Z.to_nat remaining) p) (cb_max c) true
    else mkCapped (cb_buf c ++ p) (cb_max c) false.

(** What reaches the client: status, headers and body, nothing, or a tunnel. *)
Inductive reply :=
  | NoReply
  | Reply (status : Z) (h : header) (body : str)
  | TunnelReply (h : header).

(** [int(d.Seconds())], computed in binary64. *)
Definition whole_seconds (d : duration) : Z :=
  f_trunc 0 (dur_seconds d).

(** "%.3fms" of a duration in microseconds *)
Definition formatDuration (d : duration) : str :=
  let us := Z.quot d 1000 in
  let frac := us mod 1000 in
  itoa (us / 1000) ++ "." ++ [chr (48 + frac / 100); chr (48 + frac / 10 mod 10); chr (48 + frac mod 10)] ++ "ms".

(** [http.Error] *)
Definition http_error (w : header) (status : Z) (msg : str) : reply :=
  let w := header_del w "Content-Length" in
  let w := header_set w "Content-Type" "text/plain; charset=utf-8" in
  let w := header_set w "X-Content-Type-Options" "nosniff" in
  Reply status w (msg ++ [chr 10]).

(** [serveCacheEntry]: the reply and whether the function returns an error,
    because the client's context is already done or the body cannot be written. *)
Definition serveCacheEntry (w : header) (client_done write_ok : bool) (req : Request) (entry : Cache.Entry)
    (status : str) (now : time) : reply * bool :=
  if client_done then (NoReply, true)
  else
    let h := sanitizeOriginResponseHeaders (removeHopByHop (Cache.Header entry)) in
    let w := copyHeaders w (map_to_list h) in
    let age := whole_seconds (time_sub now (Cache.StoredAt entry)) in
    let age := if age <? 0 then 0 else age in
    let w := header_set w "Age" (itoa age) in
    let w := header_set w "X-Cache" status in
    let w := header_set w "Via" "1.1 edgeproxy-go" in
    if conditionalNotModified req (Cache.Header entry) (Cache.StatusCode entry)
    then (Reply 304 (header_del w "Content-Length") [], false)
    else
      let w := header_set w "Content-Length" (itoa (len (Cache.Body entry))) in
      if req_method req =?s "HEAD" then (Reply (Cache.StatusCode entry) w [], false)
      else (Reply (Cache.StatusCode entry) w (Cache.Body entry), negb write_ok).

(** [invalidateUnsafeRequest]; [order] is the order in which the cache's map is visited. *)
Definition invalidateUnsafeRequest (c : option Cache.Cache) (req : Request) (status : Z)
    (order : list (str * Cache.element)) : Z * option Cache.Cache :=
  match c with
  | None => (0, None)
  | Some c =>
      if negb (unsafeMethod (req_method req)) || (status <? 200) || (400 <=? status) then (0, Some c)
      else let r := Cache.PurgeRequest cacheKeyRequest (cacheHost (req_host req)) (canonicalRequestURI (req_url req)) order c in
           (fst r, Some (snd r))
  end.

(** ** After the retry loop *)

(** What happens after the header checks of [proxyProtocolUpgrade]: the
    connection cannot be taken over, the switch fails after that ([marked] says
    whether the status 101 was recorded by then), or the tunnel runs until one
    side closes it. *)
Inductive switch_env :=
  | SwitchRefused
  | SwitchBroken (marked : bool)
  | Switched (bytesIn bytesOut : Z) (handshake : duration).

(** The environment of the second half. *)
Record finish_env := mkFinish {
  f_client_done : bool;              (* req.Context().Err() != nil after the retry loop *)
  f_client_done_copy : bool;         (* ... when an answer is written *)
  f_now : time;                      (* policyNow, and the time of a stale answer *)
  f_copy_ok : bool;                  (* the body reached the client *)
  f_chunks : list str;               (* the pieces [io.Copy] passed on *)
  f_order : list (str * Cache.element);
  f_switch : switch_env;             (* what happens to an upgraded connection *)
}.

(** [recordResponseCopyError] *)
Definition copy_error (client_done : bool) (r : requestResult) : requestResult :=
  if client_done then with_error (Some ContextDone) (with_proxyError false (with_canceled true r))
  else with_error (Some CopyFailed) (with_proxyError true r).

Record protocolTunnelResult := mkTunnel {
  t_bytesIn : Z; t_bytesOut : Z; t_handshake : duration; t_hijacked : bool }.

(** [proxyProtocolUpgrade]: the tunnel's result, the error if any, and the
    headers of the 101 response the client has received. *)
Definition proxyProtocolUpgrade (e : request_env) (resp : Response) (sw : switch_env)
    : protocolTunnelResult * bool * option header :=
  match protocolUpgrade (req_header (q_req e)), protocolUpgrade (resp_header resp) with
  | inr requested, inr selected =>
      if (requested =?s []) || (selected =?s []) || negb (equal_fold requested selected)
      then (mkTunnel 0 0 0 false, true, None)
      else match sw with
      | SwitchRefused => (mkTunnel 0 0 0 false, true, None)
      | SwitchBroken _ => (mkTunnel 0 0 0 true, true, None)
      | Switched bin bout handshake =>
          let h := sanitizeOriginResponseHeaders (removeHopByHop (resp_header resp)) in
          let h := header_set h "Connection" "Upgrade" in
          let h := header_set h "Upgrade" selected in
          let h := header_set h "Via" "1.1 edgeproxy-go" in
          let h := header_set h "X-Request-ID" (q_id e) in
          (mkTunnel (if bin <? 0 then 0 else bin) (if bout <? 0 then 0 else bout) handshake true, false, Some h)
      end
  | _, _ => (mkTunnel 0 0 0 false, true, None)
  end.

Definition stored_entry (resp : Response) (h : header) (body : str) (now : time) (expires stale : time)
    (initialAge : duration) : Cache.Entry :=
  Cache.mkEntry (resp_status resp) (header_del h "Set-Cookie") body (time_add now (- initialAge)) expires stale.

Definition serve_stale (w : header) (e : request_env) (fe : finish_env) (entry : Cache.Entry) (r : requestResult)
    : requestResult * reply :=
  let r := with_cacheStatus "STALE" r in
  let '(rep, err) := serveCacheEntry w (f_client_done_copy fe) (f_copy_ok fe) (q_req e) entry "STALE" (f_now fe) in
  (if err then copy_error (f_client_done_copy fe) r else r, rep).

(** The store at the end of a forwarded answer. *)
Definition store_response (e : request_env) (fe : finish_env) (cfg : RouteConfig) (cacheable : bool) (resp : Response)
    (expires staleUntil : time) (initialAge : duration) (c : option Cache.Cache) : option Cache.Cache :=
  match c with
  | None => None
  | Some cc =>
      if negb cacheable || (req_method (q_req e) =?s "HEAD") then c
      else
        let capture := foldl (λ b chunk, capped_write chunk b) (mkCapped [] (max_object_bytes (cache cfg)) false) (f_chunks fe) in
        if f_copy_ok fe && negb (cb_overflow capture) && negb (q_probe e) then
          let entry := stored_entry resp (resp_header resp) (cb_buf capture) (f_now fe) expires staleUntil initialAge in
          match Cache.Set_ (cacheKey (q_req e) (cache cfg)) entry cc with
          | Some (_, cc) => Some cc
          | None => c
          end
        else c
  end.

(** A forwarded answer: invalidation, headers, body, and the store. *)
Definition forward_response (w : header) (e : request_env) (fe : finish_env) (cfg : RouteConfig)
    (cacheStatus : str) (store : bool) (r : requestResult) (resp : Response) (c : option Cache.Cache)
    : requestResult * reply * option Cache.Cache :=
  let c := snd (invalidateUnsafeRequest c (q_req e) (resp_status resp) (f_order fe)) in
  let h := sanitizeOriginResponseHeaders (removeHopByHop (resp_header resp)) in
  let w := copyHeaders w (map_to_list h) in
  let w := header_set w "Via" "1.1 edgeproxy-go" in
  let w := header_set w "X-Cache" cacheStatus in
  let w := header_set w "X-Upstream-Response-Time" (formatDuration (r_upstreamDuration r)) in
  let resp := mkResponse (resp_status resp) h (resp_body resp) in
  let '(cacheable, expires, staleUntil, initialAge) := responseCachePolicy resp (cache cfg) (f_now fe) in
  let cacheable := cacheable && store in
  let r := if cacheable then r else with_cacheStatus "BYPASS" r in
  let w := if cacheable then w else header_set w "X-Cache" "BYPASS" in
  (if f_copy_ok fe then r else copy_error (f_client_done_copy fe) r,
   Reply (resp_status resp) w (concat (f_chunks fe)),
   store_response e fe cfg cacheable resp expires staleUntil initialAge c).

(** The rest of [fetchAndServe]: the reply, the result and the route's cache.
    [w] are the headers already set on the response. *)
Definition finish_request (w : header) (e : request_env) (fe : finish_env) (cfg : RouteConfig)
    (stale : option Cache.Entry) (cacheStatus : str) (store : bool) (s : loop_state) (c : option Cache.Cache)
    : requestResult * reply * option Cache.Cache :=
  let r := ls_result s in
  if r_clientCanceled r || f_client_done fe then
    (with_error (match r_error r with None => Some ContextDone | x => x end) (with_proxyError false (with_canceled true r)),
     NoReply, c)
  else match ls_lastErr s, ls_resp s with
  | None, Some resp =>
      if resp_status resp =? 101 then
        let r := with_cacheStatus "BYPASS" r in
        let '(t, err, h) := proxyProtocolUpgrade e resp (f_switch fe) in
        let r := with_tunnel (t_bytesIn t) (t_bytesOut t) (t_handshake t) r in
        if err then
          (with_error (Some UpgradeFailed) (with_proxyError true r),
           if t_hijacked t then NoReply else http_error w 502 "bad gateway", c)
        else (r, match h with Some h => TunnelReply h | None => NoReply end, c)
      else match stale with
      | Some entry =>
          if retryableStatus (resp_status resp) then (serve_stale w e fe entry r, c)
          else forward_response w e fe cfg cacheStatus store r resp c
      | None => forward_response w e fe cfg cacheStatus store r resp c
      end
  | _, _ =>
      match stale with
      | Some entry => (serve_stale w e fe entry r, c)
      | None => (with_error (ls_lastErr s) (with_proxyError true r), http_error w 502 "bad gateway", c)
      end
  end.

Record outcome := mkOutcome {
  out_result : requestResult;
  out_reply : reply;
  out_pool : upstreamPool;
  out_cache : option Cache.Cache;
  out_obs : list observation;
}.

Definition fetchAndServe (w : header) (e : request_env) (fe : finish_env) (cfg : RouteConfig)
    (stale : option Cache.Entry) (cacheStatus : str) (store : bool) (p : upstreamPool) (c : option Cache.Cache) : outcome :=
  let s := run_attempts e cfg cacheStatus p in
  let '(r, rep, c') := finish_request w e fe cfg stale cacheStatus store s c in
  mkOutcome r rep (release_deferred e s) c' (ls_obs s).

(** One lookup of [handleRoute]: an answer, or the stale entry to fall back on
    and the cache. *)
Definition cache_lookup (req : Request) (key : str) (now : time) (c : Cache.Cache)
    : option Cache.Entry * option Cache.Entry * Cache.Cache :=
  let '((entry, fresh, isStale), c') := Cache.Get key now c in
  let allowed := requestAllowsCachedEntry req entry now in
  if fresh && allowed then (Some entry, None, c')
  else (None, if isStale && allowed then Some entry else None, c').

Definition serve_hit (w : header) (req : Request) (fe : finish_env) (entry : Cache.Entry) (now : time)
    : requestResult * reply :=
  let r := new_result "HIT" in
  let '(rep, err) := serveCacheEntry w (f_client_done_copy fe) (f_copy_ok fe) req entry "HIT" now in
  (if err then copy_error (f_client_done_copy fe) r else r, rep).

(** [handleRoute].  [now1], [now2] are the clock at the two lookups; between
    them the request waits for the fill lock, and other requests, purges and
    reloads may change the cache: [meanwhile]. *)
Definition handleRoute (w : header) (e : request_env) (fe : finish_env) (cfg : RouteConfig) (now1 now2 : time)
    (meanwhile : Cache.Cache → Cache.Cache) (p : upstreamPool) (c : option Cache.Cache) : outcome :=
  let req := q_req e in
  let fetch stale status store c := fetchAndServe w e fe cfg stale status store p c in
  let bad_upgrade :=
    if hasProtocolUpgrade (req_header req)
    then match protocolUpgrade (req_header req) with inl m => Some m | inr _ => None end else None in
  match bad_upgrade with
  | Some m => mkOutcome (with_error (Some (BadUpgradeRequest m)) (new_result "BYPASS")) (http_error w 400 "bad request") p c []
  | None =>
  if q_probe e then fetch None (lit "BYPASS") false c
  else
    let '(lookup, store, _) := requestCacheMode req (cache cfg) in
    if negb lookup && negb store then fetch None (lit "BYPASS") false c
    else match c with
    | None => fetch None (lit "MISS") store None
    | Some c =>
        let key := cacheKey req (cache cfg) in
        let '(hit, _, c) := if lookup then cache_lookup req key now1 c else (None, None, c) in
        match hit with
        | Some entry => let '(r, rep) := serve_hit w req fe entry now1 in mkOutcome r rep p (Some c) []
        | None =>
            let c := meanwhile c in
            let '(hit, stale, c) := if lookup then cache_lookup req key now2 c else (None, None, c) in
            match hit with
            | Some entry => let '(r, rep) := serve_hit w req fe entry now2 in mkOutcome r rep p (Some c) []
            | None => fetch stale (lit "MISS") store (Some c)
            end
        end
    end
  end.

(** ** The request an origin receives *)

Definition edge_names : list str :=
  lits ["X-Forwarded-For"; "X-Forwarded-Proto"; "X-Forwarded-Host"; "X-Request-ID"; "Via"; "Connection"; "Upgrade"].

(** The client's header [k] as it is forwarded. *)
Definition kept_header (e : request_env) (k : str) : option (list str) :=
  let h := req_header (q_req e) in
  if bool_decide (k ∈ canonical_key <$> internalProbeHeader :: hopHeaders ++ nominated h)
     || is_identity (q_forwarded e) k then None else h !! k.

Lemma kept_header_eq e k : header_canonical (req_header (q_req e)) →
  let h := header_del (removeHopByHop (req_header (q_req e))) internalProbeHeader in
  removeForwardingIdentityHeaders (q_forwarded e) (map_to_list h).*1 h !! k = kept_header e k.
Proof.
  intros Hc h. assert (∀ j, h !! j = if bool_decide (j ∈ canonical_key <$> internalProbeHeader :: hopHeaders
      ++ nominated (req_header (q_req e))) then None else req_header (q_req e) !! j) as Hh.
  { intros j. unfold h. rewrite header_del_lookup. unfold removeHopByHop. rewrite !header_del_foldl.
    rewrite fmap_cons, fmap_app. case_bool_decide as Hj; rewrite elem_of_cons, elem_of_app in Hj;
      destruct (decide (canonical_key internalProbeHeader = j)) as [He|He]; try done;
      repeat case_decide; try done; exfalso; first [destruct Hj as [Hj|[Hj|Hj]]; by auto | apply Hj; by auto]. }
  assert (header_canonical h) as Hch.
  { intros j [v Hj]. apply Hc. rewrite Hh in Hj. case_bool_decide; [done|]. by exists v. }
  rewrite foldl_identity; [|done|].
  - rewrite Hh. unfold kept_header. destruct (is_identity _ k); [|by rewrite andb_false_r, orb_false_r].
    rewrite andb_true_r, orb_true_r. case_bool_decide as Hin; [done|]. rewrite <- Hh. apply eq_None_not_Some.
    intros [v Hv]. apply Hin, list_elem_of_fmap. exists (k, v). split; [done|]. by apply elem_of_map_to_list.
  - intros n ([n' v] & -> & Hv%elem_of_map_to_list)%list_elem_of_fmap. by exists v.
Qed.

(** Decides equality of the canonical forms of two literal header names. *)
Ltac decide_keys :=
  repeat match goal with
  | |- context [decide (canonical_key ?a = canonical_key ?a)] =>
      rewrite (decide_True (P := canonical_key a = canonical_key a)) by reflexivity
  | |- context [decide (canonical_key ?a = canonical_key ?b)] =>
      rewrite (decide_False (P := canonical_key a = canonical_key b)) by (let H := fresh in intros H; vm_compute in H; discriminate H)
  end.

Lemma outbound_lookup e upgrade : header_canonical (req_header (q_req e)) →
  let h := outbound_headers e upgrade in
  header_values h "X-Forwarded-For" = [q_ip e]
  ∧ header_values h "X-Forwarded-Proto" = [if q_tls e then lit "https" else lit "http"]
  ∧ header_values h "X-Forwarded-Host" = [req_host (q_req e)]
  ∧ header_values h "X-Request-ID" = [q_id e]
  ∧ header_values h "Via" = default [] (kept_header e (canonical_key "Via")) ++ [lit "1.1 edgeproxy-go"]
  ∧ match upgrade with
    | [] => header_values h "Connection" = [] ∧ header_values h "Upgrade" = []
    | _ => header_values h "Connection" = [lit "Upgrade"] ∧ header_values h "Upgrade" = [upgrade]
    end
  ∧ ∀ k, k ∉ canonical_key <$> edge_names → h !! k = kept_header e k.
Proof.
  intros Hc h. unfold h, outbound_headers. cbv zeta.
  pose proof (λ k, kept_header_eq e k Hc) as Hk. cbv zeta in Hk.
  set (base := removeForwardingIdentityHeaders _ _ _) in *.
  assert (∀ n, n ∈ hopHeaders → kept_header e (canonical_key n) = None) as Hhop.
  { intros n Hn. unfold kept_header. rewrite bool_decide_eq_true_2; [done|].
    rewrite fmap_cons, fmap_app. right. apply elem_of_app. left. by apply list_elem_of_fmap_2. }
  pose proof (Hhop "Connection" ltac:(left)) as Hcon.
  pose proof (Hhop "Upgrade" ltac:(unfold hopHeaders; do 8 right; left)) as Hup. clearbody base. clear Hhop.
  unfold header_values.
  assert (∀ k, k ∉ canonical_key <$> edge_names → ∀ n, n ∈ edge_names → canonical_key n ≠ k) as Hne.
  { intros k Hin n Hn <-. by apply Hin, list_elem_of_fmap_2. }
  destruct upgrade as [|c upgrade];
    [rewrite eqs_refl | rewrite (proj2 (eqs_false (c :: upgrade) [])) by done];
    (split_and!; [..|intros k Hin; pose proof (Hne k Hin) as Hnk;
      rewrite ?header_set_lookup, header_add_lookup, !header_set_lookup, Hk;
      rewrite !decide_False by (apply Hnk; unfold edge_names, lits; simpl; rewrite !elem_of_cons; tauto); done]);
    rewrite ?header_set_lookup, ?header_add_lookup; unfold header_values; rewrite ?header_set_lookup, ?Hk;
    decide_keys; rewrite ?Hcon, ?Hup; try done; by destruct (q_tls e).
Qed.

(** ** The pool across a request *)

Definition act (p : upstreamPool) (j : nat) : option Z := active <$> node_at p j.
Definition hea (p : upstreamPool) (j : nat) : option bool := healthy <$> node_at p j.

Lemma act_upd p i f j : act (upd p i f) j = (if decide (i = j) then active ∘ f <$> node_at p j else act p j).
Proof. unfold act. rewrite node_at_upd. case_decide; [|done]. by destruct (node_at p j). Qed.
Lemma hea_upd p i f j : hea (upd p i f) j = (if decide (i = j) then healthy ∘ f <$> node_at p j else hea p j).
Proof. unfold hea. rewrite node_at_upd. case_decide; [|done]. by destruct (node_at p j). Qed.

Lemma act_observe i d p j : act (observe i d p) j = act p j.
Proof. unfold observe. rewrite act_upd. case_decide; [|done]. unfold act. by destruct (node_at p j). Qed.
Lemma hea_observe i d p j : hea (observe i d p) j = hea p j.
Proof. unfold observe. rewrite hea_upd. case_decide; [|done]. unfold hea. by destruct (node_at p j). Qed.
Lemma act_set_health i h p j : act (set_health i h p) j = act p j.
Proof.
  unfold set_health. rewrite act_upd. case_decide; [|done]. unfold act. destruct (node_at p j) as [u|]; [|done].
  simpl. unfold setNodeHealth. by destruct (eqb _ _).
Qed.
Lemma healthy_setNodeHealth h u : healthy (fst (setNodeHealth h u)) = h.
Proof. unfold setNodeHealth. destruct (eqb (healthy u) h) eqn:E; [by apply eqb_prop in E | done]. Qed.
Lemma hea_set_health i h p j :
  hea (set_health i h p) j = if decide (i = j) then (λ _, h) <$> hea p j else hea p j.
Proof.
  unfold set_health. rewrite hea_upd. case_decide; [|done]. unfold hea. destruct (node_at p j) as [u|]; [|done].
  simpl. by rewrite healthy_setNodeHealth.
Qed.
Lemma act_release i p j :
  act (releaseActive i p) j = if decide (i = j) then (λ a, wrap64 (a - 1)) <$> act p j else act p j.
Proof. unfold releaseActive. rewrite act_upd. case_decide; [|done]. unfold act. by destruct (node_at p j). Qed.
Lemma hea_release i p j : hea (releaseActive i p) j = hea p j.
Proof. unfold releaseActive. rewrite hea_upd. case_decide; [|done]. unfold hea. by destruct (node_at p j). Qed.

Lemma static_act p q j : same_static p q → act p j = act q j ∧ hea p j = hea q j.
Proof.
  intros H. pose proof (static_at p q j H) as Hj. unfold act, hea.
  destruct (node_at p j) as [u|], (node_at q j) as [v|]; simplify_eq/=; [|done].
  split; by f_equal.
Qed.

Lemma pick_act exclude p j :
  act (snd (pick exclude p)) j
    = (if decide (fst (pick exclude p) = Some j) then (λ a, wrap64 (a + 1)) <$> act p j else act p j)
  ∧ hea (snd (pick exclude p)) j = hea p j.
Proof.
  pose proof (pick_effect exclude p) as H. destruct (pick exclude p) as [[i|] p']; cbn [fst snd] in *.
  - destruct H as [_ H]. pose proof (H j) as Hj. unfold act, hea.
    pose proof (f_equal (fmap active) Hj) as Ha. pose proof (f_equal (fmap healthy) Hj) as Hh. clear Hj H.
    destruct (decide (j = i)) as [->|Hne]; [rewrite decide_True by done | rewrite decide_False by congruence];
      destruct (node_at p' _) as [u|], (node_at p _) as [v|]; simpl in *; split; congruence.
  - rewrite decide_False by done. by apply static_act.
Qed.

(** Active counts, as they are owed: the deferred release pays for the node
    still held. *)
Definition owes (e : request_env) (s : loop_state) (a0 : nat → option Z) : Prop :=
  ∀ j, act (ls_pool s) j = (if decide (ls_active s = Some j ∧ q_probe e = false)
                            then (λ a, wrap64 (a + 1)) <$> a0 j else a0 j).

(** Node [i] is checked out and nothing else is. *)
Definition owes_node (e : request_env) (s : loop_state) (i : nat) (a0 : nat → option Z) : Prop :=
  ∀ j, act (ls_pool s) j = (if decide (i = j ∧ q_probe e = false)
                            then (λ a, wrap64 (a + 1)) <$> a0 j else a0 j).

Definition counts_ok (a0 : nat → option Z) : Prop := ∀ j a, a0 j = Some a → int64_ok a.

Lemma wrap_back a : int64_ok a → wrap64 (wrap64 (a + 1) - 1) = a.
Proof.
  intros H. unfold wrap64, int64_ok, min_int64, max_int64 in *.
  destruct (decide (a = 2 ^ 63 - 1)) as [->|]; [vm_compute; done|].
  rewrite (Z.mod_small (a + 1 + 2 ^ 63)) by lia. rewrite Z.mod_small by lia. lia.
Qed.

(** The next exit test of the loop body. *)
Ltac step_if :=
  match goal with |- context [if ?b then (mkLoop _ _ _ _ _ _ _, false) else _] => destruct b eqn:? end.

Lemma after_call_owes e cfg A k i s a0 : counts_ok a0 → ls_active s = None → owes_node e s i a0 →
  let '(s', continue) := after_call e cfg A k i s in
  owes e s' a0 ∧ (continue = true → ls_active s' = None).
Proof.
  intros Hok Hact Ho. unfold after_call.
  assert (∀ p, (∀ j, act p j = act (ls_pool s) j) → ∀ j, act (if q_probe e then p else releaseActive i p) j = a0 j) as Hrel.
  { intros p Hp j. destruct (q_probe e) eqn:Eq.
    - rewrite Hp, Ho, decide_False; [done|]. rewrite Eq. naive_solver.
    - rewrite act_release, Hp, Ho, Eq. destruct (decide (i = j)) as [->|Hne].
      + rewrite decide_True by done. destruct (a0 j) as [a|] eqn:Ea; [|done]. simpl. f_equal. apply wrap_back. by eapply Hok.
      + rewrite decide_False by naive_solver. done. }
  assert (∀ p, (∀ j, act p j = act (ls_pool s) j) → ∀ j, act p j = (if decide (Some i = Some j ∧ q_probe e = false)
                            then (λ a, wrap64 (a + 1)) <$> a0 j else a0 j)) as Hkeep.
  { intros p Hp j. rewrite Hp, Ho. repeat case_decide; naive_solver. }
  set (clientCanceled := match _ with Some _ => a_client_done _ | None => false end).
  set (p0 := if negb (q_probe e) && negb clientCanceled then _ else _).
  assert (∀ j, act p0 j = act (ls_pool s) j) as Hp0.
  { intros j. unfold p0. destruct (_ && _); [apply act_observe | done]. }
  assert (∀ h j, act (if q_probe e then p0 else set_health i h p0) j = act (ls_pool s) j) as Hsh.
  { intros h j. destruct (q_probe e); [done|]. by rewrite act_set_health. }
  unfold owes.
  step_if; [split; [apply Hkeep, Hsh | done]|].
  step_if; [split; [intros j; cbn [ls_pool ls_active]; rewrite Hact, decide_False by naive_solver; by apply Hrel | done]|].
  step_if; [split; [apply Hkeep, Hsh | done]|].
  step_if; [split; [apply Hkeep, Hsh | done]|].
  assert (∀ j, act (if q_probe e then if q_probe e then p0 else set_health i false p0
            else releaseActive i (if q_probe e then p0 else set_health i false p0)) j = a0 j) as Hfin by (by apply Hrel).
  step_if; [split; [intros j; cbn [ls_pool ls_active]; rewrite Hact, decide_False by naive_solver; apply Hfin | done]|].
  step_if; [split; [intros j; cbn [ls_pool ls_active]; rewrite Hact, decide_False by naive_solver; apply Hfin | done]|].
  split; [intros j; cbn [ls_pool ls_active]; rewrite Hact, decide_False by naive_solver; apply Hfin | done].
Qed.

Lemma retry_loop_owes e cfg A n k s a0 : counts_ok a0 → ls_active s = None → (∀ j, act (ls_pool s) j = a0 j) →
  owes e (retry_loop e cfg A n k s) a0.
Proof.
  intros Hok. revert k s. induction n as [|n IH]; intros k s Hact Ho; cbn [retry_loop].
  { intros j. by rewrite Ho, Hact, decide_False by naive_solver. }
  destruct (if q_probe e then _ else _) as [node p] eqn:Ep.
  assert (match node with
          | Some i => ∀ j, act p j = (if decide (i = j ∧ q_probe e = false) then (λ a, wrap64 (a + 1)) <$> a0 j else a0 j)
          | None => ∀ j, act p j = a0 j end) as Hp.
  { destruct (q_probe e).
    - injection Ep as <- <-. destruct (pickProbe _ _) as [i|]; [|done]. intros j. rewrite decide_False by naive_solver. done.
    - pose proof (pick_act (Some (ls_excluded s)) (ls_pool s)) as Hpa. rewrite Ep in Hpa. cbn [fst snd] in Hpa.
      destruct node as [i|]; intros j; destruct (Hpa j) as [-> _]; rewrite Ho; [|done].
      destruct (decide (i = j)) as [->|]; [by rewrite !decide_True | by rewrite !decide_False by naive_solver]. }
  destruct node as [i|].
  - destruct (clone_attempt _ _ _ _ _) as [m|out].
    + intros j. cbn [ls_pool ls_active]. rewrite Hact, decide_False by naive_solver. destruct (q_probe e) eqn:Eq.
      * rewrite Hp, decide_False by naive_solver. done.
      * rewrite act_release, Hp. destruct (decide (i = j)) as [->|]; [|by rewrite decide_False by naive_solver].
        rewrite decide_True by done. destruct (a0 j) as [a|] eqn:Ea; [|done]. simpl. f_equal. apply wrap_back. by eapply Hok.
    + pose proof (after_call_owes e cfg A k i
        (mkLoop p (ls_excluded s) (ls_resp s) (ls_lastErr s) (ls_active s) (ls_result s) (ls_obs s)) a0 Hok Hact Hp) as Hac.
      destruct (after_call _ _ _ _ _ _) as [s' continue]. destruct Hac as [Hs' Hc]. destruct continue; [|done].
      apply IH; [by apply Hc|]. intros j. rewrite Hs', (Hc eq_refl), decide_False by naive_solver. done.
  - intros j. cbn [ls_pool ls_active]. rewrite Hact, decide_False by naive_solver. apply Hp.
Qed.

Lemma release_deferred_balanced e s a0 : counts_ok a0 → owes e s a0 → ∀ j, act (release_deferred e s) j = a0 j.
Proof.
  intros Hok Ho j. unfold release_deferred. pose proof (Ho j) as Hj.
  destruct (ls_active s) as [i|]; [|by rewrite Hj, decide_False by naive_solver]. destruct (q_probe e) eqn:Eq.
  - rewrite Hj, decide_False; [done|]. naive_solver.
  - rewrite act_release, Hj. destruct (decide (i = j)) as [->|].
    + rewrite decide_True by done. destruct (a0 j) as [a|] eqn:Ea; [|done]. simpl. f_equal. apply wrap_back. by eapply Hok.
    + rewrite decide_False by naive_solver. done.
Qed.

(** ** Calls *)

Definition calls_are (s : loop_state) (k : Z) : Prop :=
  r_upstreamCalls (ls_result s) = k ∧ r_retries (ls_result s) = Z.max 0 (k - 1).

Lemma after_call_calls e cfg A k i s : calls_are s (Z.of_nat k) → Z.of_nat k + 1 <= max_uint64 →
  calls_are (fst (after_call e cfg A k i s)) (Z.of_nat k + 1).
Proof.
  intros [Hc Hr] Hk. assert (∀ a, r_upstreamCalls (count_call i a (ls_result s)) = Z.of_nat k + 1
    ∧ r_retries (count_call i a (ls_result s)) = Z.max 0 (Z.of_nat k + 1 - 1)) as Hcc.
  { intros a. unfold count_call. cbn [r_upstreamCalls r_retries]. rewrite Hc.
    rewrite wrapu64_id by (unfold uint64_ok, max_uint64 in *; lia). split; [done|].
    destruct (1 <? Z.of_nat k + 1) eqn:E; boolify.
    - rewrite wrapu64_id by (unfold uint64_ok, max_uint64 in *; lia). lia.
    - rewrite Hr. lia. }
  unfold after_call, calls_are. do 5 (step_if; [apply Hcc|]).
  step_if; [by destruct (a_client_done_backoff _); apply Hcc | apply Hcc].
Qed.

Lemma retry_loop_calls e cfg A n k s : calls_are s (Z.of_nat k) → Z.of_nat k + Z.of_nat n <= max_uint64 →
  ∃ c, calls_are (retry_loop e cfg A n k s) c ∧ Z.of_nat k <= c <= Z.of_nat k + Z.of_nat n.
Proof.
  revert k s. induction n as [|n IH]; intros k s Hc Hk; cbn [retry_loop]; [exists (Z.of_nat k); split; [done|lia]|].
  destruct (if q_probe e then _ else _) as [[i|] p].
  - destruct (clone_attempt _ _ _ _ _) as [m|out]; [exists (Z.of_nat k); split; [done|lia]|].
    pose proof (after_call_calls e cfg A k i
      (mkLoop p (ls_excluded s) (ls_resp s) (ls_lastErr s) (ls_active s) (ls_result s) (ls_obs s)) Hc ltac:(lia)) as Hac.
    destruct (after_call _ _ _ _ _ _) as [s' continue]. cbn [fst] in Hac.
    destruct continue; [|exists (Z.of_nat k + 1); split; [done|lia]].
    destruct (IH (S k) s') as (c & H1 & H2); [by rewrite Nat2Z.inj_succ, <- Z.add_1_r | lia|].
    exists c. split; [done|lia].
  - exists (Z.of_nat k). split; [done|lia].
Qed.

(** What a copy error or a relabelling leaves alone. *)
Lemma copy_error_calls b r : r_upstreamCalls (copy_error b r) = r_upstreamCalls r ∧ r_retries (copy_error b r) = r_retries r.
Proof. by destruct b. Qed.

Lemma serve_stale_calls w e fe entry r :
  r_upstreamCalls (fst (serve_stale w e fe entry r)) = r_upstreamCalls r
  ∧ r_retries (fst (serve_stale w e fe entry r)) = r_retries r.
Proof.
  unfold serve_stale. destruct (serveCacheEntry _ _ _ _ _ _ _) as [rep []]; [|done].
  apply (copy_error_calls _ (with_cacheStatus "STALE" r)).
Qed.

Lemma forward_calls w e fe cfg st store r resp c :
  r_upstreamCalls (fst (fst (forward_response w e fe cfg st store r resp c))) = r_upstreamCalls r
  ∧ r_retries (fst (fst (forward_response w e fe cfg st store r resp c))) = r_retries r.
Proof.
  unfold forward_response. destruct (responseCachePolicy _ _ _) as [[[cacheable ?] ?] ?]. cbn [fst].
  destruct (cacheable && store), (f_copy_ok fe); try done;
    [apply copy_error_calls | apply (copy_error_calls _ (with_cacheStatus "BYPASS" r))].
Qed.

Lemma finish_calls w e fe cfg stale st store s c :
  let r := fst (fst (finish_request w e fe cfg stale st store s c)) in
  r_upstreamCalls r = r_upstreamCalls (ls_result s) ∧ r_retries r = r_retries (ls_result s).
Proof.
  cbv zeta. unfold finish_request. destruct (_ || _); [done|].
  destruct (ls_lastErr s) as [err|], (ls_resp s) as [resp|];
    try (destruct stale as [entry|]; [apply serve_stale_calls | done]).
  destruct (_ =? 101); [by destruct (proxyProtocolUpgrade _ _ _) as [[? []] ?]|].
  destruct stale as [entry|]; [destruct (retryableStatus _); [apply serve_stale_calls|]|]; apply forward_calls.
Qed.

(** The cache label is not the loop's business. *)
Lemma retry_loop_status e cfg A n k s st : r_cacheStatus (ls_result s) = st →
  r_cacheStatus (ls_result (retry_loop e cfg A n k s)) = st.
Proof.
  revert k s. induction n as [|n IH]; intros k s Hs; cbn [retry_loop]; [done|].
  destruct (if q_probe e then _ else _) as [[i|] p]; [|done]. destruct (clone_attempt _ _ _ _ _); [done|].
  destruct (after_call _ _ _ _ _ _) as [s' continue] eqn:E.
  assert (r_cacheStatus (ls_result s') = st) as Hs'.
  { revert E. unfold after_call. do 5 (step_if; [by intros [= <- <-]|]).
    step_if; [|by intros [= <- <-]]. intros [= <- <-]. by destruct (a_client_done_backoff _). }
  destruct continue; [by apply IH | done].
Qed.

(** ** Probes *)

Lemma after_call_probe e cfg A k i s : q_probe e = true →
  ls_pool (fst (after_call e cfg A k i s)) = ls_pool s ∧ ls_obs (fst (after_call e cfg A k i s)) = ls_obs s.
Proof.
  intros Hp. unfold after_call. rewrite Hp. cbn [negb andb].
  do 6 (step_if; [done|]). done.
Qed.

Lemma retry_loop_probe e cfg A n k s : q_probe e = true →
  ls_pool (retry_loop e cfg A n k s) = ls_pool s ∧ ls_obs (retry_loop e cfg A n k s) = ls_obs s.
Proof.
  intros Hp. revert k s. induction n as [|n IH]; intros k s; cbn [retry_loop]; [done|]. rewrite Hp.
  destruct (pickProbe _ _) as [i|]; [|done]. destruct (clone_attempt _ _ _ _ _); [done|].
  pose proof (after_call_probe e cfg A k i
    (mkLoop (ls_pool s) (ls_excluded s) (ls_resp s) (ls_lastErr s) (ls_active s) (ls_result s) (ls_obs s)) Hp) as Hac.
  destruct (after_call _ _ _ _ _ _) as [s' []]; [|done]. cbn [fst ls_pool ls_obs] in Hac. destruct Hac as [<- <-]. apply IH.
Qed.

(** ** Health *)

Definition genuine_failure (j : nat) (o : observation) : Prop :=
  o_node o = j ∧ o_failed o = true ∧ o_canceled o = false.

Definition lowered_by_failures (h0 : nat → option bool) (s : loop_state) : Prop :=
  ∀ j, h0 j = Some true → hea (ls_pool s) j = Some false → ∃ o, o ∈ ls_obs s ∧ genuine_failure j o.

Lemma retryable_500 st : retryableStatus st = true → (500 <=? st) = true.
Proof. unfold retryableStatus. rewrite !orb_true_iff, !Z.eqb_eq, Z.leb_le. lia. Qed.

Lemma after_call_health e cfg A k i s h0 : lowered_by_failures h0 s →
  lowered_by_failures h0 (fst (after_call e cfg A k i s)).
Proof.
  intros Hl. unfold after_call.
  set (clientCanceled := match _ with Some _ => a_client_done _ | None => false end).
  set (p0 := if negb (q_probe e) && negb clientCanceled then _ else _).
  assert (∀ j, hea p0 j = hea (ls_pool s) j) as Hp0.
  { intros j. unfold p0. destruct (_ && _); [apply hea_observe | done]. }
  set (obs := if q_probe e then ls_obs s else _).
  assert (∀ o, o ∈ ls_obs s → o ∈ obs) as Hobs by (intros o; unfold obs; destruct (q_probe e); set_solver).
  assert (∀ p h, (∀ j, hea p j = if decide (i = j ∧ q_probe e = false) then (λ _, h) <$> hea (ls_pool s) j else hea (ls_pool s) j) →
    (h = false → q_probe e = false → ∃ o, o ∈ obs ∧ genuine_failure i o) →
    ∀ j, h0 j = Some true → hea p j = Some false → ∃ o, o ∈ obs ∧ genuine_failure j o) as Hset.
  { intros p h Hp Hfail j H0 Hj. rewrite Hp in Hj. case_decide as Hd.
    - destruct Hd as [<- Hq]. destruct (hea (ls_pool s) i); simplify_eq/=. by apply Hfail.
    - destruct (Hl j H0 Hj) as (o & Ho & Hg). exists o. split; [by apply Hobs | done]. }
  assert (∀ h j, hea (if q_probe e then p0 else set_health i h p0) j
     = if decide (i = j ∧ q_probe e = false) then (λ _, h) <$> hea (ls_pool s) j else hea (ls_pool s) j) as Hsh.
  { intros h j. destruct (q_probe e); [rewrite Hp0, decide_False by naive_solver; done|].
    rewrite hea_set_health, Hp0. repeat case_decide; naive_solver. }
  assert (∀ j, hea (if q_probe e then p0 else releaseActive i p0) j = hea (ls_pool s) j) as Hrel0.
  { intros j. destruct (q_probe e); [apply Hp0 | by rewrite hea_release]. }
  destruct (negb (match a_result (q_world e k) with inl _ => true | inr r => retryableStatus (resp_status r) end)) eqn:Ef.
  { rewrite (ltac:(destruct (a_result (q_world e k)); done) :
      (match match a_result (q_world e k) with inl m => Some m | inr _ => None end with Some _ => true
       | None => match match a_result (q_world e k) with inr r => Some r | inl _ => None end with
                 | Some r => retryableStatus (resp_status r) | None => false end end)
      = (match a_result (q_world e k) with inl _ => true | inr r => retryableStatus (resp_status r) end)).
    rewrite Ef. unfold lowered_by_failures. cbn [fst ls_pool ls_obs]. apply (Hset _ true); [apply Hsh | done]. }
  rewrite (ltac:(destruct (a_result (q_world e k)); done) :
      (match match a_result (q_world e k) with inl m => Some m | inr _ => None end with Some _ => true
       | None => match match a_result (q_world e k) with inr r => Some r | inl _ => None end with
                 | Some r => retryableStatus (resp_status r) | None => false end end)
      = (match a_result (q_world e k) with inl _ => true | inr r => retryableStatus (resp_status r) end)).
  rewrite Ef. destruct clientCanceled eqn:Ec.
  { unfold lowered_by_failures. cbn [fst ls_pool ls_obs]. intros j H0 Hj. rewrite Hrel0 in Hj.
    destruct (Hl j H0 Hj) as (o & Ho & Hg). exists o. split; [by apply Hobs | done]. }
  assert (q_probe e = false → ∃ o, o ∈ obs ∧ genuine_failure i o) as Hfail.
  { intros Hq. unfold obs. rewrite Hq. eexists. split; [apply elem_of_app; right; constructor|].
    unfold genuine_failure. cbn [o_node o_failed o_canceled negb]. split_and!; [done| |done].
    apply negb_false_iff in Ef. rewrite andb_true_r. destruct (a_result _) as [m|r]; [done|]. by apply retryable_500. }
  assert (∀ p, (∀ j, hea p j = hea (if q_probe e then p0 else set_health i false p0) j) →
    ∀ j, h0 j = Some true → hea p j = Some false → ∃ o, o ∈ obs ∧ genuine_failure j o) as Hdown.
  { intros p Hp. apply (Hset p false); [|done]. intros j. by rewrite Hp. }
  assert (∀ j, hea (if q_probe e then (if q_probe e then p0 else set_health i false p0)
     else releaseActive i (if q_probe e then p0 else set_health i false p0)) j
     = hea (if q_probe e then p0 else set_health i false p0) j) as Hr2.
  { intros j. destruct (q_probe e); [done | by rewrite hea_release]. }
  unfold lowered_by_failures. do 4 (step_if; [by apply Hdown|]). by apply Hdown.
Qed.

Lemma retry_loop_health e cfg A n k s h0 : lowered_by_failures h0 s → lowered_by_failures h0 (retry_loop e cfg A n k s).
Proof.
  revert k s. induction n as [|n IH]; intros k s Hl; cbn [retry_loop]; [done|].
  destruct (if q_probe e then _ else _) as [node p] eqn:Ep.
  assert (∀ j, hea p j = hea (ls_pool s) j) as Hp.
  { intros j. destruct (q_probe e); [by injection Ep as <- <-|].
    pose proof (pick_act (Some (ls_excluded s)) (ls_pool s) j) as [_ Hpa]. by rewrite Ep in Hpa. }
  destruct node as [i|].
  - destruct (clone_attempt _ _ _ _ _).
    + intros j H0. cbn [ls_pool ls_obs]. intros Hj. apply (Hl j H0). rewrite <- Hp.
      destruct (q_probe e); [done | by rewrite hea_release in Hj].
    + pose proof (after_call_health e cfg A k i
        (mkLoop p (ls_excluded s) (ls_resp s) (ls_lastErr s) (ls_active s) (ls_result s) (ls_obs s)) h0) as Hac.
      destruct (after_call _ _ _ _ _ _) as [s' continue]. cbn [fst] in Hac.
      assert (lowered_by_failures h0 s') as Hs'.
      { apply Hac. intros j H0 Hj. cbn [ls_pool ls_obs] in *. apply (Hl j H0). by rewrite <- Hp. }
      destruct continue; [by apply IH | done].
  - intros j H0. cbn [ls_pool ls_obs]. rewrite Hp. by apply Hl.
Qed.

(** ** What a request may leave in the cache *)

Definition sanitized (h : header) : header := sanitizeOriginResponseHeaders (removeHopByHop h).

(** A capture that did not overflow holds everything it was given. *)
Lemma capped_whole chunks c : cb_overflow (foldl (λ b chunk, capped_write chunk b) c chunks) = false →
  cb_buf (foldl (λ b chunk, capped_write chunk b) c chunks) = cb_buf c ++ concat chunks.
Proof.
  revert c. induction chunks as [|p chunks IH]; intros c; cbn [foldl concat]; [by rewrite app_nil_r|].
  intros H. rewrite IH by done. assert (cb_overflow (capped_write p c) = false) as Hp.
  { destruct (cb_overflow (capped_write p c)) eqn:E; [|done]. rewrite <- H. clear IH H. revert E.
    generalize (capped_write p c). induction chunks as [|q chunks IH]; intros b Hb; cbn [foldl]; [done|].
    apply IH. unfold capped_write. by rewrite Hb. }
  revert Hp. unfold capped_write. destruct (cb_overflow c) eqn:E; [congruence|].
  destruct (_ <=? 0); [done|]. destruct (_ <? len p); [done|]. cbn [cb_buf]. by rewrite app_assoc.
Qed.

(** The entry [en] is what the policy allows to be stored for this request. *)
Definition storable (e : request_env) (fe : finish_env) (cfg : RouteConfig) (store : bool) (s : loop_state)
    (en : Cache.Entry) : Prop :=
  store = true ∧ q_probe e = false ∧ req_method (q_req e) ≠ "HEAD" ∧ f_copy_ok fe = true
  ∧ ∃ resp expires staleUntil initialAge,
      ls_resp s = Some resp
      ∧ responseCachePolicy (mkResponse (resp_status resp) (sanitized (resp_header resp)) (resp_body resp)) (cache cfg) (f_now fe)
        = (true, expires, staleUntil, initialAge)
      ∧ en = stored_entry resp (sanitized (resp_header resp)) (concat (f_chunks fe)) (f_now fe) expires staleUntil
               initialAge.

Lemma invalidate_elem mE mB c req st order : Cache.Good mE mB c → order ≡ₚ map_to_list (Cache.items c) →
  ∃ c', snd (invalidateUnsafeRequest (Some c) req st order) = Some c' ∧ Cache.Good mE mB c'
    ∧ (∀ x, x ∈ Cache.abs c' → x ∈ Cache.abs c)
    ∧ (unsafeMethod (req_method req) = true → 200 <= st < 400 → ∀ x, x ∈ Cache.abs c' →
         Cache.purge_request_key cacheKeyRequest (to_lower (trim_space (cacheHost (req_host req))))
           (canonicalRequestURI (req_url req)) (fst x) = false).
Proof.
  intros Hg Ho. unfold invalidateUnsafeRequest. destruct (_ || _ || _) eqn:E; cbn [snd].
  - exists c. split_and!; try done. intros Hu Hs. rewrite Hu in E. simpl in E. apply orb_true_iff in E as [E|E]; boolify; lia.
  - eexists. split; [done|].
    destruct (Cache.purge_elem mE mB c (Cache.purge_request_key cacheKeyRequest
      (to_lower (trim_space (cacheHost (req_host req)))) (canonicalRequestURI (req_url req))) order Hg Ho) as [H1 H2].
    split_and!; [exact H1 | intros x Hx; by apply H2 | intros _ _ x Hx; by apply H2].
Qed.

Lemma finish_cache w e fe cfg stale st store s c mE mB : Cache.Good mE mB c → f_order fe ≡ₚ map_to_list (Cache.items c) →
  ∃ c', snd (finish_request w e fe cfg stale st store s (Some c)) = Some c' ∧ Cache.Good mE mB c'
    ∧ ∀ k en, (k, en) ∈ Cache.abs c' →
        (k, en) ∈ Cache.abs c ∨ (k = cacheKey (q_req e) (cache cfg) ∧ storable e fe cfg store s en).
Proof.
  intros Hg Ho.
  assert (∃ c', Some c = Some c' ∧ Cache.Good mE mB c'
    ∧ ∀ k en, (k, en) ∈ Cache.abs c' →
        (k, en) ∈ Cache.abs c ∨ (k = cacheKey (q_req e) (cache cfg) ∧ storable e fe cfg store s en)) as Hsame.
  { exists c. split_and!; [done|done|]. by left. }
  assert (∀ resp r, ls_resp s = Some resp → ∃ c', snd (forward_response w e fe cfg st store r resp (Some c)) = Some c'
    ∧ Cache.Good mE mB c' ∧ ∀ k en, (k, en) ∈ Cache.abs c' →
        (k, en) ∈ Cache.abs c ∨ (k = cacheKey (q_req e) (cache cfg) ∧ storable e fe cfg store s en)) as Hfw.
  { intros resp r Hresp. unfold forward_response.
    destruct (invalidate_elem mE mB c (q_req e) (resp_status resp) (f_order fe) Hg Ho) as (c1 & -> & Hg1 & Hsub & _).
    fold (sanitized (resp_header resp)).
    destruct (responseCachePolicy _ _ _) as [[[cacheable ex] su] ia] eqn:Epol. cbn [snd]. unfold store_response.
    destruct (negb (cacheable && store) || (req_method (q_req e) =?s "HEAD")) eqn:E1.
    { exists c1. split_and!; [done|done|]. intros k en Hk. left. by apply Hsub. }
    destruct (f_copy_ok fe && _ && negb (q_probe e)) eqn:E2.
    2:{ exists c1. split_and!; [done|done|]. intros k en Hk. left. by apply Hsub. }
    apply orb_false_iff in E1 as [E1 E1']. apply negb_false_iff, andb_true_iff in E1 as [-> ->].
    apply andb_true_iff in E2 as [E2 Hprobe]. apply andb_true_iff in E2 as [Hcopy Hfull]. boolify.
    rewrite (capped_whole (f_chunks fe) (mkCapped [] (max_object_bytes (cache cfg)) false)) by done. cbn [cb_buf app].
    set (entry := stored_entry _ _ _ _ _ _ _).
    destruct (Cache.Set_elem mE mB c1 (cacheKey (q_req e) (cache cfg)) entry Hg1) as (ok & c2 & -> & Hg2 & Hin).
    exists c2. split_and!; [done|done|]. intros k en [[= -> ->]|Hk]%Hin; [|left; by apply Hsub]. right.
    split; [done|]. split_and!; try done. by exists resp, ex, su, ia. }
  unfold finish_request. destruct (_ || _); [exact Hsame|].
  destruct (ls_lastErr s) as [err|], (ls_resp s) as [resp|] eqn:Hresp; try (by destruct stale).
  destruct (_ =? 101); [by destruct (proxyProtocolUpgrade _ _ _) as [[? []] ?]|].
  destruct stale as [entry|]; [destruct (retryableStatus _); [exact Hsame|]|]; by apply Hfw.
Qed.

(** *** The theorems *)

(** what an origin is told about the client.  Whatever the client sent, the
    forwarded request names exactly the resolved client address, the scheme of
    the client's connection, the requested host and the request's identifier; it
    carries Connection and Upgrade only for a validated upgrade; Via is
    extended; and every other header is dropped when it is connection-specific,
    nominated by Connection, a forwarding-identity header or the probe marker,
    and forwarded unchanged otherwise. *)
Theorem cloneRequest_headers e cfg node body_error out : header_canonical (req_header (q_req e)) →
  cloneRequest e cfg node body_error = inr out →
  header_values (req_header out) "X-Forwarded-For" = [q_ip e]
  ∧ header_values (req_header out) "X-Forwarded-Proto" = [if q_tls e then lit "https" else lit "http"]
  ∧ header_values (req_header out) "X-Forwarded-Host" = [req_host (q_req e)]
  ∧ header_values (req_header out) "X-Request-ID" = [q_id e]
  ∧ header_values (req_header out) "Via" = default [] (kept_header e (canonical_key "Via")) ++ [lit "1.1 edgeproxy-go"]
  ∧ (protocolUpgrade (req_header (q_req e)) = inr [] →
       header_values (req_header out) "Connection" = [] ∧ header_values (req_header out) "Upgrade" = [])
  ∧ (∀ v, protocolUpgrade (req_header (q_req e)) = inr v → v ≠ [] →
       header_values (req_header out) "Connection" = [lit "Upgrade"] ∧ header_values (req_header out) "Upgrade" = [v])
  ∧ ∀ k, k ∉ canonical_key <$> edge_names → req_header out !! k = kept_header e k.
Proof.
  intros Hc. unfold cloneRequest. destruct (protocolUpgrade _) as [m|upgrade]; [done|].
  destruct body_error as [m|]; [done|].
  intros H. apply (f_equal (λ x, match x with inr o => req_header o | inl _ => ∅ end)) in H. cbn [req_header] in H.
  rewrite <- H. destruct (outbound_lookup e upgrade Hc) as (H1 & H2 & H3 & H4 & H5 & H6 & H7).
  split_and!; try done.
  - intros [= ->]. exact H6.
  - intros v [= ->] Hv. destruct v; [done | exact H6].
Qed.

(** C33: the origin is called at most [1 + retry_count] times, once unless the
    request is idempotent and replayable; the retries reported are the calls
    after the first. *)
Theorem fetchAndServe_bounded_calls w e fe cfg stale st store p c :
  0 <= retry_count (proxy cfg) < max_uint64 ->
  let r := out_result (fetchAndServe w e fe cfg stale st store p c) in
  0 <= r_upstreamCalls r <= attempts_of e cfg
  ∧ attempts_of e cfg <= 1 + retry_count (proxy cfg)
  ∧ (isIdempotent (req_method (q_req e)) && q_replayable e = false → attempts_of e cfg = 1)
  ∧ r_retries r = Z.max 0 (r_upstreamCalls r - 1).
Proof.
  intros Hrc r. unfold r, fetchAndServe, run_attempts. set (A := attempts_of e cfg).
  assert (1 <= A <= 1 + retry_count (proxy cfg)) as HA by (unfold A, attempts_of; destruct (_ && _); lia).
  set (s := retry_loop _ _ _ _ _ _).
  pose proof (finish_calls w e fe cfg stale st store s c) as Hf. cbv zeta in Hf.
  destruct (finish_request w e fe cfg stale st store s c) as [[res rep] c']. cbn [fst out_result] in *.
  destruct Hf as [-> ->].
  destruct (retry_loop_calls e cfg A (Z.to_nat A) 0 (start_state st p)) as (n & [H1 H2] & H3); [done|lia|].
  fold s in H1, H2. rewrite H1. split_and!; [lia|lia|lia| |by rewrite H2].
  intros Hb. unfold A, attempts_of. by rewrite Hb.
Qed.

(** active-request accounting is balanced: whatever the network does —
    errors, retries, cancellations, timeouts during a backoff, tunnels — the
    active count of every node after the request is what it was before. *)
Theorem fetchAndServe_active_balanced w e fe cfg stale st store p c : counts_ok (act p) →
  ∀ j, act (out_pool (fetchAndServe w e fe cfg stale st store p c)) j = act p j.
Proof.
  intros Hok j. unfold fetchAndServe. destruct (finish_request _ _ _ _ _ _ _ _ _) as [[res rep] c']. cbn [out_pool].
  apply (release_deferred_balanced e _ (act p) Hok). by apply retry_loop_owes.
Qed.

(** a node is marked unhealthy by traffic only when an attempt on it really
    failed — a transport error or a 502, 503 or 504 — and never because the
    client went away. *)
Theorem fetchAndServe_health w e fe cfg stale st store p c j :
  let out := fetchAndServe w e fe cfg stale st store p c in
  hea p j = Some true → hea (out_pool out) j = Some false → ∃ o, o ∈ out_obs out ∧ genuine_failure j o.
Proof.
  intros out H0 Hj. unfold out, fetchAndServe in *. destruct (finish_request _ _ _ _ _ _ _ _ _) as [[res rep] c'].
  cbn [out_pool out_obs] in *. apply (retry_loop_health e cfg _ _ 0 (start_state st p) (hea p)); [|done|].
  - intros i H1 H2. cbn [start_state ls_pool] in H2. congruence.
  - unfold release_deferred in Hj. destruct (ls_active _) as [i|]; [|done].
    destruct (q_probe e); [done | by rewrite hea_release in Hj].
Qed.

(** a trusted connectivity probe leaves no trace: pool, metrics, logs and
    cache are exactly as before, and it is never answered from the cache. *)
Theorem probe_leaves_no_trace w e fe cfg now1 now2 meanwhile p c : q_probe e = true → req_method (q_req e) = "HEAD" →
  let out := handleRoute w e fe cfg now1 now2 meanwhile p c in
  out_pool out = p ∧ out_obs out = [] ∧ out_cache out = c
  ∧ (r_cacheStatus (out_result out) = "BYPASS").
Proof.
  intros Hp Hm out. unfold out, handleRoute.
  destruct (if hasProtocolUpgrade _ then _ else _); [done|]. rewrite Hp.
  unfold fetchAndServe, run_attempts. set (s := retry_loop _ _ _ _ _ _).
  pose proof (retry_loop_probe e cfg (attempts_of e cfg) (Z.to_nat (attempts_of e cfg)) 0 (start_state "BYPASS" p) Hp) as Hs.
  fold s in Hs. cbn [start_state ls_pool ls_obs] in Hs.
  assert (r_cacheStatus (ls_result s) = "BYPASS") as Hst by (apply retry_loop_status; done).
  assert (∀ b r, r_cacheStatus (copy_error b r) = r_cacheStatus r) as Hce by (by intros []).
  assert (snd (finish_request w e fe cfg None "BYPASS" false s c) = c
          ∧ r_cacheStatus (fst (fst (finish_request w e fe cfg None "BYPASS" false s c))) = "BYPASS") as [Hc Hr].
  { unfold finish_request. destruct (_ || _); [done|].
    destruct (ls_lastErr s), (ls_resp s) as [resp|]; try done.
    destruct (_ =? 101); [by destruct (proxyProtocolUpgrade _ _ _) as [[? []] ?]|].
    unfold forward_response. destruct (responseCachePolicy _ _ _) as [[[cacheable ?] ?] ?].
    rewrite andb_false_r. cbn [fst snd]. split.
    - unfold store_response, invalidateUnsafeRequest. rewrite Hm. by destruct c.
    - by destruct (f_copy_ok fe); rewrite ?Hce. }
  destruct (finish_request _ _ _ _ _ _ _ _ _) as [[res rep] c']. cbn [fst snd out_pool out_obs out_cache out_result] in *.
  destruct Hs as [Hs1 Hs2]. split_and!; try done. unfold release_deferred. rewrite Hp. by destruct (ls_active s).
Qed.

Lemma sanitized_lookup h k : sanitized h !! k =
  if decide (k ∈ canonical_key <$> origin_stripped ++ hopHeaders ++ nominated h) then None else h !! k.
Proof.
  unfold sanitized, sanitizeOriginResponseHeaders, removeHopByHop. rewrite !header_del_foldl, !fmap_app.
  repeat case_decide; rewrite ?elem_of_app in *; tauto.
Qed.

(** C5: what a request may leave in the shared cache.  Every entry present
    afterwards was there before, or is this request's own: storing was
    allowed, the request was no probe and no HEAD, the entry's body is the whole
    body the client received, the response policy accepts the sanitised
    response, the entry is under this request's key, and it carries neither
    Set-Cookie nor any connection-specific or edge-internal header.  The cache stays well formed. *)
Theorem fetchAndServe_cache_sound w e fe cfg stale st store p c mE mB : Cache.Good mE mB c →
  f_order fe ≡ₚ map_to_list (Cache.items c) →
  ∃ c', out_cache (fetchAndServe w e fe cfg stale st store p (Some c)) = Some c' ∧ Cache.Good mE mB c'
    ∧ ∀ k en, (k, en) ∈ Cache.abs c' → (k, en) ∉ Cache.abs c →
        k = cacheKey (q_req e) (cache cfg) ∧ storable e fe cfg store (run_attempts e cfg st p) en
        ∧ Cache.Header en !! lit "Set-Cookie" = None
        ∧ ∀ n, n ∈ hopHeaders ∨ n ∈ origin_stripped → Cache.Header en !! canonical_key n = None.
Proof.
  intros Hg Ho. unfold fetchAndServe. set (s := run_attempts e cfg st p).
  destruct (finish_cache w e fe cfg stale st store s c mE mB Hg Ho) as (c' & Hc & Hg' & Hin).
  destruct (finish_request _ _ _ _ _ _ _ _ _) as [[res rep] c2]. cbn [snd out_cache] in *.
  exists c'. split_and!; [done|done|]. intros k en Hk Hnew. destruct (Hin k en Hk) as [?|[-> Hst]]; [done|].
  pose proof Hst as (_ & _ & _ & _ & resp & ex & su & ia & _ & _ & ->).
  split_and!; [done|done| |].
  - unfold stored_entry. cbn [Cache.Header]. by rewrite header_del_lookup, decide_True.
  - intros n Hn. unfold stored_entry. cbn [Cache.Header]. rewrite header_del_lookup. case_decide; [done|].
    rewrite sanitized_lookup, decide_True; [done|]. apply list_elem_of_fmap_2. rewrite !elem_of_app. destruct Hn; auto.
Qed.

(** a successful unsafe request invalidates: after a POST, PUT, ... that the
    origin answered with 2xx or 3xx no entry the cache holds is selected by the
    request's own host and URI, unless it was stored under a different one. *)
Theorem unsafe_request_invalidates mE mB c req st order : Cache.Good mE mB c → order ≡ₚ map_to_list (Cache.items c) →
  unsafeMethod (req_method req) = true → 200 <= st < 400 →
  ∃ c', snd (invalidateUnsafeRequest (Some c) req st order) = Some c' ∧ Cache.Good mE mB c'
  ∧ ∀ k en, (k, en) ∈ Cache.abs c' → (k, en) ∈ Cache.abs c
      ∧ cacheKeyRequest k ≠ Some (to_lower (trim_space (cacheHost (req_host req))), canonicalRequestURI (req_url req)).
Proof.
  intros Hg Ho Hu Hs. destruct (invalidate_elem mE mB c req st order Hg Ho) as (c' & H1 & H2 & H3 & H4).
  exists c'. split_and!; [done|done|]. intros k en Hk. split; [by apply H3|]. intros Hkey.
  pose proof (H4 Hu Hs _ Hk) as Hf. unfold Cache.purge_request_key in Hf. cbn [fst] in Hf.
  by rewrite Hkey, !eqs_refl in Hf.
Qed.

(** the stale snapshot taken before the fill lock is discarded.  If another
    request, a purge or an expiry removed the entry while this one waited, the
    origin is asked with no stale fallback, whatever the first lookup saw. *)
Theorem refill_discards_snapshot w e fe cfg now1 now2 meanwhile p c store reason old c1 :
  q_probe e = false → hasProtocolUpgrade (req_header (q_req e)) = false →
  requestCacheMode (q_req e) (cache cfg) = (true, store, reason) →
  let key := cacheKey (q_req e) (cache cfg) in
  cache_lookup (q_req e) key now1 c = (None, old, c1) → Cache.items (meanwhile c1) !! key = None →
  handleRoute w e fe cfg now1 now2 meanwhile p (Some c)
  = fetchAndServe w e fe cfg None "MISS" store p (Some (meanwhile c1)).
Proof.
  intros Hp Hu Hm key Hl Hk. unfold handleRoute. rewrite Hu, Hp, Hm. cbn [andb negb]. fold key. rewrite Hl.
  assert (cache_lookup (q_req e) key now2 (meanwhile c1) = (None, None, meanwhile c1)) as ->; [|done].
  unfold cache_lookup, Cache.Get. by rewrite Hk.
Qed.

(** a client that went away costs nothing more: no reply is synthesised, the
    cache is untouched and the request is not counted as a proxy error. *)
Theorem canceled_request_is_silent w e fe cfg stale st store p c : f_client_done fe = true →
  let out := fetchAndServe w e fe cfg stale st store p c in
  out_reply out = NoReply ∧ out_cache out = c ∧ r_clientCanceled (out_result out) = true
  ∧ r_proxyError (out_result out) = false.
Proof.
  intros Hd out. unfold out, fetchAndServe, finish_request. rewrite Hd, orb_true_r. done.
Qed.

(** ** The capture buffer *)

Lemma capped_spec chunks c : Forall (λ x, x ≠ []) chunks → 0 <= cb_max c → cb_overflow c = false →
  len (cb_buf c) <= cb_max c →
  let c' := foldl (λ b chunk, capped_write chunk b) c chunks in
  cb_overflow c' = (cb_max c <? len (cb_buf c ++ concat chunks))
  ∧ cb_buf c' = take (Z.to_nat (cb_max c)) (cb_buf c ++ concat chunks).
Proof.
  intros Hne Hmax. revert c Hmax. induction Hne as [|p chunks Hp Hne IH]; intros c Hmax Ho Hl; cbn [foldl concat].
  { rewrite app_nil_r, Ho. split; [symmetry; by apply Z.ltb_ge|]. rewrite take_ge; [done|]. unfold len in Hl. lia. }
  assert (∀ chunks b, cb_overflow b = true → foldl (λ b chunk, capped_write chunk b) b chunks = b) as Hstuck.
  { clear. induction chunks as [|q chunks IH]; intros b Hb; cbn [foldl]; [done|].
    assert (capped_write q b = b) as -> by (unfold capped_write; by rewrite Hb). by apply IH. }
  assert (0 < len p) as Hlp by (unfold len; destruct p; simpl; [done|lia]).
  pose proof (len_nonneg (concat chunks)) as Hc.
  unfold capped_write at 2 4. rewrite Ho. destruct (_ <=? 0) eqn:E1; boolify.
  - rewrite Hstuck by done. cbn [cb_overflow cb_buf]. split.
    + symmetry. apply Z.ltb_lt. rewrite !len_app. lia.
    + rewrite take_app_length'; [done|]. unfold len in *. lia.
  - destruct (_ <? len p) eqn:E2; boolify.
    + rewrite Hstuck by done. cbn [cb_overflow cb_buf]. split.
      * symmetry. apply Z.ltb_lt. rewrite !len_app. lia.
      * rewrite take_app. f_equal; [rewrite take_ge; [done|unfold len in *; lia]|].
        rewrite take_app_le by (unfold len in *; lia). f_equal. unfold len in *. lia.
    + destruct (IH (mkCapped (cb_buf c ++ p) (cb_max c) false)) as [H1 H2]; [done|done| |].
      { cbn [cb_buf cb_max]. rewrite len_app. lia. }
      rewrite H1, H2. cbn [cb_buf cb_max]. by rewrite <- !app_assoc.
Qed.

(** the capture is exact.  However the body is cut into (non-empty) pieces,
    the buffer holds its first [max] bytes and overflow is reported exactly
    when the body is longer — so a truncated object is never stored. *)
Theorem cappedBuffer_exact max chunks : 0 <= max → Forall (λ x, x ≠ []) chunks →
  let c := foldl (λ b chunk, capped_write chunk b) (mkCapped [] max false) chunks in
  cb_overflow c = (max <? len (concat chunks)) ∧ cb_buf c = take (Z.to_nat max) (concat chunks).
Proof. intros Hm Hne. apply (capped_spec chunks (mkCapped [] max false) Hne Hm eq_refl). simpl. rewrite len_nil. lia. Qed.
End fetch.

(** *** Witnesses: a GET through two nodes, the first of which fails *)

Definition sample_cfg (retries : Z) : RouteConfig :=
  mkRoute "r" (lits ["a"]) "/" false false [] (mkLB "weighted_round_robin" f_one f_quarter)
    (mkProxy 0 0 0 0 retries 0 0 0 0)
    (mkCacheCfg true second second 10 1000 100 true false false true [] [200]) (mkHealth false [] 0 0 []).
Definition sample_get : Request :=
  mkRequest "GET" "a" (mkURL [] [] [] "/x" [] false) ∅ "1.2.3.4:5".
Definition ok_response : Response :=
  mkResponse 200 {[ lit "Cache-Control" := [lit "max-age=60"]; lit "Set-Cookie" := [lit "s=1"]; lit "X-A" := [lit "1"] ]} "hi".
Definition refused : attempt_env := mkAttempt None (inl (lit "refused")) 5 false false false false false.
Definition answered (r : Response) : attempt_env := mkAttempt None (inr r) 7 false false false false false.
Definition sample_world (k : nat) : attempt_env := if decide (k = 0)%nat then refused else answered ok_response.
Definition sample_env (m : string) (probe : bool) : request_env :=
  mkEnv (mkRequest m "a" (mkURL [] [] [] "/x" [] false) ∅ "1.2.3.4:5") true probe sample_world
    "id-1" "1.2.3.4" false "X-Real-IP".
Definition sample_fe (done : bool) (order : list (str * Cache.element)) : finish_env :=
  mkFinish done false 1000 true [lit "h"; lit "i"] order SwitchRefused.
Definition sample_p : upstreamPool := Upstream.sample_pool "weighted_round_robin".

Section samples.
#[local] Instance sU : Unicode := unicode_ascii.
#[local] Instance sN : NetURL := CachePolicy.sample_url.
#[local] Instance sT : HttpTime := CachePolicy.sample_time.
#[local] Instance sS : Sha256 := CachePolicy.sample_sha.
#[local] Instance sF : FloatMath := Upstream.sample_fm.

(** The failing node is tried first, the other one answers. *)
Definition sample_out : outcome :=
  fetchAndServe ∅ (sample_env "GET" false) (sample_fe false []) (sample_cfg 2) None "MISS" true sample_p
                (Some (Cache.New 10 1000)).

Lemma fetchAndServe_bounded_calls_witness : r_upstreamCalls (out_result sample_out) = 2
  ∧ r_retries (out_result sample_out) = Z.max 0 (r_upstreamCalls (out_result sample_out) - 1).
Proof.
  split; [vm_compute; reflexivity|].
  refine (proj2 (proj2 (proj2 (fetchAndServe_bounded_calls ∅ (sample_env "GET" false) (sample_fe false []) (sample_cfg 2)
    None "MISS" true sample_p (Some (Cache.New 10 1000)) _)))).
  vm_compute. split; [discriminate | reflexivity].
Defined.

Lemma sample_counts_ok : counts_ok (act sample_p).
Proof.
  intros [|[|[|j]]] a Ha; vm_compute in Ha; try discriminate Ha; injection Ha as <-; vm_compute; split; discriminate.
Qed.

Lemma fetchAndServe_active_balanced_witness : act (out_pool sample_out) 0%nat = Some 0.
Proof.
  exact (fetchAndServe_active_balanced ∅ (sample_env "GET" false) (sample_fe false []) (sample_cfg 2)
    None "MISS" true sample_p (Some (Cache.New 10 1000)) sample_counts_ok 0%nat).
Defined.

Lemma fetchAndServe_health_witness :
  hea (out_pool sample_out) 0%nat = Some false ∧ ∃ o, o ∈ out_obs sample_out ∧ genuine_failure 0 o.
Proof.
  assert (hea (out_pool sample_out) 0%nat = Some false) as Hd by (vm_compute; reflexivity). split; [exact Hd|].
  exact (fetchAndServe_health ∅ (sample_env "GET" false) (sample_fe false []) (sample_cfg 2)
    None "MISS" true sample_p (Some (Cache.New 10 1000)) 0%nat eq_refl Hd).
Defined.

Lemma probe_leaves_no_trace_witness :
  out_obs (handleRoute ∅ (sample_env "HEAD" true) (sample_fe false []) (sample_cfg 2) 0 0 id sample_p None) = [].
Proof.
  exact (proj1 (proj2 (probe_leaves_no_trace ∅ (sample_env "HEAD" true) (sample_fe false []) (sample_cfg 2) 0 0 id sample_p None
    eq_refl eq_refl))).
Defined.

(** A client that forges forwarding headers. *)
Definition forged_env : request_env :=
  mkEnv (mkRequest "GET" "a" (mkURL [] [] [] "/x" [] false) ProxyHeaders.sample_header "1.2.3.4:5") true false sample_world
    "id-1" "1.2.3.4" false "X-Real-IP".
Definition sample_upstream : upstream :=
  mkUpstream "o" (mkURL "http" [] "o:80" [] [] false) 1 1 true 0 0 0 0 f_zero 0.
Definition forged_out : Request :=
  match cloneRequest forged_env (sample_cfg 0) sample_upstream None with inr out => out | inl _ => sample_get end.

Lemma cloneRequest_headers_witness :
  header_values (req_header forged_out) "X-Forwarded-For" = [lit "1.2.3.4"]
  ∧ req_header forged_out !! lit "Cf-Connecting-Ip" = None ∧ req_header forged_out !! lit "Accept" = Some [lit "*/*"].
Proof.
  split; [|split; vm_compute; reflexivity].
  refine (proj1 (cloneRequest_headers forged_env (sample_cfg 0) sample_upstream None forged_out
    ProxyHeaders.sample_header_canonical _)).
  vm_compute. reflexivity.
Defined.

Lemma new_good : Cache.Good 10 1000 (Cache.New 10 1000).
Proof. by apply Cache.New_good. Qed.

(** The successful response of the retry is stored, without its cookie. *)
Lemma fetchAndServe_cache_sound_witness : ∃ c', out_cache sample_out = Some c' ∧ Cache.Good 10 1000 c'
  ∧ length (Cache.abs c') = 1%nat.
Proof.
  destruct (fetchAndServe_cache_sound ∅ (sample_env "GET" false) (sample_fe false []) (sample_cfg 2)
    None "MISS" true sample_p (Cache.New 10 1000) 10 1000 new_good (reflexivity _)) as (c' & H1 & H2 & _).
  exists c'. split; [exact H1|]. split; [exact H2|].
  assert (length <$> (Cache.abs <$> out_cache sample_out) = Some 1%nat) as Hl by (vm_compute; reflexivity).
  unfold sample_out in Hl. rewrite H1 in Hl. injection Hl as Hl. exact Hl.
Defined.

Lemma unsafe_request_invalidates_witness : ∃ c',
  snd (invalidateUnsafeRequest (Some (Cache.New 10 1000)) (q_req (sample_env "POST" false)) 204 []) = Some c'.
Proof.
  destruct (unsafe_request_invalidates 10 1000 (Cache.New 10 1000) (q_req (sample_env "POST" false)) 204 [] new_good
    (reflexivity _) eq_refl ltac:(lia)) as (c' & H1 & _).
  exists c'. exact H1.
Defined.

Lemma refill_discards_snapshot_witness :
  handleRoute ∅ (sample_env "GET" false) (sample_fe false []) (sample_cfg 2) 0 0 id sample_p (Some (Cache.New 10 1000))
  = fetchAndServe ∅ (sample_env "GET" false) (sample_fe false []) (sample_cfg 2) None "MISS" true sample_p (Some (Cache.New 10 1000)).
Proof.
  exact (refill_discards_snapshot ∅ (sample_env "GET" false) (sample_fe false []) (sample_cfg 2) 0 0 id sample_p
    (Cache.New 10 1000) true [] None (Cache.New 10 1000) eq_refl eq_refl ltac:(vm_compute; reflexivity)
    ltac:(vm_compute; reflexivity) ltac:(vm_compute; reflexivity)).
Defined.

Lemma canceled_request_is_silent_witness :
  out_reply (fetchAndServe ∅ (sample_env "GET" false) (sample_fe true []) (sample_cfg 2) None "MISS" true sample_p None) = NoReply.
Proof.
  exact (proj1 (canceled_request_is_silent ∅ (sample_env "GET" false) (sample_fe true []) (sample_cfg 2)
    None "MISS" true sample_p None eq_refl)).
Defined.
End samples.

Lemma cappedBuffer_exact_witness :
  cb_overflow (foldl (λ b chunk, capped_write chunk b) (mkCapped [] 3 false) [lit "ab"; lit "cd"]) = true.
Proof.
  rewrite (proj1 (cappedBuffer_exact 3 [lit "ab"; lit "cd"] ltac:(lia) ltac:(repeat constructor; discriminate))).
  vm_compute. reflexivity.
Defined.
End Handler.

(** ** The response recorder *)

Module Capture.

Record responseCapture := mkCapture {
  status : Z;
  bytes : Z;                  (* int64 *)
  forwarded : list Z;         (* the WriteHeader calls that reached the client *)
}.

Definition WriteHeader (st : Z) (w : responseCapture) : responseCapture :=
  if (100 <=? st) && (st <? 200) && negb (st =? 101) then mkCapture (status w) (bytes w) (forwarded w ++ [st])
  else if negb (status w =? 0) then w
  else mkCapture st (bytes w) (forwarded w ++ [st]).

(** [n] is what the underlying writer accepted. *)
Definition Write (n : Z) (w : responseCapture) : responseCapture :=
  let w := if status w =? 0 then WriteHeader 200 w else w in
  mkCapture (status w) (wrap64 (bytes w + n)) (forwarded w).
Definition Flush (w : responseCapture) : responseCapture := if status w =? 0 then WriteHeader 200 w else w.
Definition markHijackedStatus (st : Z) (w : responseCapture) : responseCapture :=
  if status w =? 0 then mkCapture st (bytes w) (forwarded w) else w.

Inductive op := OpHeader (st : Z) | OpWrite (n : Z) | OpFlush | OpHijacked (st : Z).
Definition exec (o : op) (w : responseCapture) : responseCapture :=
  match o with
  | OpHeader st => WriteHeader st w
  | OpWrite n => Write n w
  | OpFlush => Flush w
  | OpHijacked st => markHijackedStatus st w
  end.

Definition informational (st : Z) : bool := (100 <=? st) && (st <? 200) && negb (st =? 101).
Definition op_ok (o : op) : Prop :=
  match o with OpHeader st => 100 <= st <= 999 | OpHijacked st => st = 101 | _ => True end.

(** The final status an operation would set. *)
Definition final_of (o : op) : option Z :=
  match o with
  | OpHeader st => if informational st then None else Some st
  | OpWrite _ | OpFlush => Some 200
  | OpHijacked st => Some st
  end.

Definition run (ops : list op) (w : responseCapture) : responseCapture := foldl (λ w o, exec o w) w ops.

Lemma run_latched ops w : Forall op_ok ops → status w ≠ 0 →
  status (run ops w) = status w
  ∧ filter (λ st, informational st = false) (forwarded (run ops w)) = filter (λ st, informational st = false) (forwarded w).
Proof.
  intros Hok. revert w. induction Hok as [|o ops Ho Hok IH]; intros w Hs; [done|]. cbn [run foldl].
  assert (status (exec o w) = status w
          ∧ filter (λ st, informational st = false) (forwarded (exec o w)) = filter (λ st, informational st = false) (forwarded w)) as [H1 H2].
  { apply Z.eqb_neq in Hs. destruct o as [st|n| |st]; cbn [exec];
      unfold WriteHeader, Write, Flush, markHijackedStatus; rewrite ?Hs; cbn [negb]; try done.
    fold (informational st). destruct (informational st) eqn:E; [|done]. cbn [status forwarded]. split; [done|].
    rewrite filter_app, filter_cons_False by (by rewrite E). by rewrite app_nil_r. }
  destruct (IH (exec o w)) as [H3 H4]; [by rewrite H1|]. unfold run in *. by rewrite H3, H4.
Qed.

(** exactly one final status.  Whatever sequence of calls the handler makes,
    informational responses pass through without being recorded, the recorded
    status is the first final one (200 when the body starts first), later ones
    are dropped, and the client sees at most that one final status line. *)
Theorem capture_latches_first ops : Forall op_ok ops →
  let w := run ops (mkCapture 0 0 []) in
  let finals := omap final_of ops in
  status w = default 0 (head finals)
  ∧ (filter (λ st, informational st = false) (forwarded w) = [] ∨ filter (λ st, informational st = false) (forwarded w) = [status w]).
Proof.
  assert (∀ w, status w = 0 → filter (λ st, informational st = false) (forwarded w) = [] → Forall op_ok ops →
    let w' := run ops w in status w' = default 0 (head (omap final_of ops))
    ∧ (filter (λ st, informational st = false) (forwarded w') = []
       ∨ filter (λ st, informational st = false) (forwarded w') = [status w'])) as H.
  2:{ intros Hok. by apply (H (mkCapture 0 0 [])). }
  induction ops as [|o ops IH]; intros w Hs Hf Hok.
  { cbn. auto. }
  apply Forall_cons in Hok as [Ho Hok]. cbn [run foldl omap list_omap].
  assert (∀ st w1, st ≠ 0 → status w1 = st → final_of o = Some st →
    (filter (λ st, informational st = false) (forwarded w1) = [] ∨ filter (λ st, informational st = false) (forwarded w1) = [st]) →
    exec o w = w1 →
    let w' := run ops w1 in status w' = st
    ∧ (filter (λ st, informational st = false) (forwarded w') = [] ∨ filter (λ st, informational st = false) (forwarded w') = [status w']))
    as Hlatch.
  { intros st w1 Hne Hs1 _ Hf1 _. destruct (run_latched ops w1 Hok) as [H1 H2]; [by rewrite Hs1|].
    cbv zeta. rewrite H1, H2, Hs1. done. }
  destruct o as [st|n| |st]; cbn [exec final_of op_ok] in *.
  - destruct (informational st) eqn:E.
    + apply IH; [..|done]; unfold WriteHeader; fold (informational st); rewrite E; [done|]. cbn [forwarded].
      rewrite filter_app, Hf, filter_cons_False by (by rewrite E). done.
    + cbn. apply (Hlatch st); try done; [lia|..]; unfold WriteHeader; fold (informational st); rewrite E, Hs; cbn; [done|].
      right. rewrite filter_app, Hf, filter_cons_True by done. done.
  - cbn. apply (Hlatch 200); try done; unfold Write, WriteHeader; rewrite ?Hs; cbn; try done. right. by rewrite filter_app, Hf.
  - cbn. apply (Hlatch 200); try done; unfold Flush, WriteHeader; rewrite ?Hs; cbn; try done. right. by rewrite filter_app, Hf.
  - cbn. subst st. apply (Hlatch 101); try done; unfold markHijackedStatus; rewrite Hs; cbn; auto.
Qed.

Lemma capture_latches_first_witness :
  status (run [OpHeader 103; OpHeader 404; OpWrite 3; OpHeader 500] (mkCapture 0 0 [])) = 404.
Proof.
  refine (proj1 (capture_latches_first [OpHeader 103; OpHeader 404; OpWrite 3; OpHeader 500] _)).
  repeat constructor; simpl; lia.
Defined.
End Capture.

(** ** The registry of upgraded connections *)

Module Tunnels.

(** [activeProtocolTunnel]: whether its [once] has run, and how often each of
    its two connections was closed. *)
Record tunnel := mkTunnel { once : bool; client : nat; backend : nat }.

(** [activeProtocolTunnel.Close] *)
Definition Close (t : tunnel) : tunnel :=
  if once t then t else mkTunnel true (S (client t)) (S (backend t)).

(** Where the goroutine of an upgraded request is, from the registration of
    its tunnel on: it writes the answer, waits for the first of its two copies,
    closes the tunnel, waits for the second copy; its two deferred calls close
    the tunnel and unregister it. *)
Inductive handler_pc := Answering | Copying | FirstEnded | Draining | Leaving | Unregistering | Gone.

(** Where a call of [closeProtocolTunnels] is; [Closing] holds the tunnels its
    loop has still to close. *)
Inductive close_pc := Called | Closing (todo : list nat) | Waiting | Returned.

#[export] Instance handler_pc_eq_dec : EqDecision handler_pc.
Proof. solve_decision. Defined.
#[export] Instance close_pc_eq_dec : EqDecision close_pc.
Proof. solve_decision. Defined.

(** The fields of [Handler] under [tunnelMu], the tunnels ever made (each
    under a number that stands for its address), and the goroutines. *)
Record world := mkWorld {
  tunnelsClosed : bool;
  tunnels : gset nat;
  tunnelWG : Z;
  made : gmap nat tunnel;
  handlers : gmap nat handler_pc;
  callers : gmap nat close_pc;
  next_id : nat;
}.

Definition empty : world := mkWorld false ∅ 0 ∅ ∅ ∅ 0.

Definition set_made m (w : world) :=
  mkWorld (tunnelsClosed w) (tunnels w) (tunnelWG w) m (handlers w) (callers w) (next_id w).
Definition set_handler t pc (w : world) :=
  mkWorld (tunnelsClosed w) (tunnels w) (tunnelWG w) (made w) (<[t := pc]> (handlers w)) (callers w) (next_id w).
Definition set_caller c pc (w : world) :=
  mkWorld (tunnelsClosed w) (tunnels w) (tunnelWG w) (made w) (handlers w) (<[c := pc]> (callers w)) (next_id w).

Definition close_tunnel (t : nat) (w : world) : world := set_made (alter Close t (made w)) w.

(** [registerProtocolTunnel]: the tunnel, unless shutdown has begun. *)
Definition registerProtocolTunnel (w : world) : world * option nat :=
  let t := next_id w in
  let w := mkWorld (tunnelsClosed w) (tunnels w) (tunnelWG w) (<[t := mkTunnel false 0 0]> (made w)) (handlers w) (callers w) (S t) in
  if tunnelsClosed w then (close_tunnel t w, None)
  else (mkWorld (tunnelsClosed w) ({[t]} ∪ tunnels w) (tunnelWG w + 1) (made w) (handlers w) (callers w) (next_id w), Some t).

Definition unregisterProtocolTunnel (t : nat) (w : world) : world :=
  if bool_decide (t ∈ tunnels w)
  then mkWorld (tunnelsClosed w) (tunnels w ∖ {[t]}) (tunnelWG w - 1) (made w) (handlers w) (callers w) (next_id w)
  else w.

(** The critical section of [closeProtocolTunnels]: the first call collects the
    registered tunnels, a later one only waits. *)
Definition begin_shutdown (w : world) : world * option (gset nat) :=
  if tunnelsClosed w then (w, None)
  else (mkWorld true (tunnels w) (tunnelWG w) (made w) (handlers w) (callers w) (next_id w), Some (tunnels w)).

Definition closed_by (side : tunnel → nat) (t : nat) (w : world) : Prop :=
  ∃ tn, made w !! t = Some tn ∧ (0 < side tn)%nat.

(** What the goroutines do without any peer: a read or a write of a connection
    that is closed ends, and [tunnelWG.Wait] returns when the count is zero.
    The loop of [closeProtocolTunnels] takes the tunnels in the order of the
    map, that is in any order. *)
Inductive own : world → world → Prop :=
  | own_answer w t : handlers w !! t = Some Answering → closed_by client t w →
      own w (set_handler t Leaving w)
  | own_copied w t : handlers w !! t = Some Copying → closed_by client t w ∨ closed_by backend t w →
      own w (set_handler t FirstEnded w)
  | own_close w t : handlers w !! t = Some FirstEnded →
      own w (set_handler t Draining (close_tunnel t w))
  | own_drained w t : handlers w !! t = Some Draining → closed_by client t w → closed_by backend t w →
      own w (set_handler t Leaving w)
  | own_leave w t : handlers w !! t = Some Leaving →
      own w (set_handler t Unregistering (close_tunnel t w))
  | own_unregister w t : handlers w !! t = Some Unregistering →
      own w (set_handler t Gone (unregisterProtocolTunnel t w))
  | own_begin w c todo : callers w !! c = Some Called →
      match snd (begin_shutdown w) with Some ts => todo ≡ₚ base.elements ts | None => False end →
      own w (set_caller c (Closing todo) (fst (begin_shutdown w)))
  | own_join w c : callers w !! c = Some Called → snd (begin_shutdown w) = None →
      own w (set_caller c Waiting (fst (begin_shutdown w)))
  | own_loop w c t todo : callers w !! c = Some (Closing (t :: todo)) →
      own w (set_caller c (Closing todo) (close_tunnel t w))
  | own_loop_end w c : callers w !! c = Some (Closing []) →
      own w (set_caller c Waiting w)
  | own_return w c : callers w !! c = Some Waiting → tunnelWG w = 0 →
      own w (set_caller c Returned w).

(** What comes from outside: a request that switches protocols, a call of
    [closeProtocolTunnels], and a peer that takes the answer, fails to, or ends
    a connection. *)
Inductive outside : world → world → Prop :=
  | out_upgrade w : outside w
      match registerProtocolTunnel w with
      | (w', Some t) => set_handler t Answering w'
      | (w', None) => w'
      end
  | out_call w c : callers w !! c = None → outside w (set_caller c Called w)
  | out_answered w t : handlers w !! t = Some Answering → outside w (set_handler t Copying w)
  | out_fails w t : handlers w !! t = Some Answering → outside w (set_handler t Leaving w)
  | out_ends w t : handlers w !! t = Some Copying → outside w (set_handler t FirstEnded w).

Definition step (w w' : world) : Prop := own w w' ∨ outside w w'.

(** *** The invariant *)

Definition fired (t : nat) (w : world) : Prop := made w !! t = Some (mkTunnel true 1 1).

Definition pending (t : nat) (w : world) : Prop :=
  ∃ c todo, callers w !! c = Some (Closing todo) ∧ t ∈ todo.

Record Inv (w : world) : Prop := {
  inv_wg : tunnelWG w = Z.of_nat (size (tunnels w));
  inv_once : ∀ t tn, made w !! t = Some tn → tn = mkTunnel false 0 0 ∨ tn = mkTunnel true 1 1;
  inv_fresh : ∀ t, is_Some (made w !! t) → (t < next_id w)%nat;
  inv_known : ∀ t, t ∈ tunnels w → ∃ pc, handlers w !! t = Some pc ∧ pc ≠ Gone ∧ is_Some (made w !! t);
  inv_handler : ∀ t pc, handlers w !! t = Some pc → is_Some (made w !! t) ∧ (pc ≠ Gone → t ∈ tunnels w);
  inv_after : ∀ t pc, handlers w !! t = Some pc → pc = Draining ∨ pc = Unregistering ∨ pc = Gone → fired t w;
  inv_gone : ∀ t, is_Some (made w !! t) → t ∉ tunnels w → fired t w;
  inv_collected : tunnelsClosed w = true → ∀ t, t ∈ tunnels w → fired t w ∨ pending t w;
  inv_callers : ∀ c pc, callers w !! c = Some pc → pc ≠ Called → tunnelsClosed w = true;
  inv_returned : ∀ c, callers w !! c = Some Returned → tunnels w = ∅;
  inv_todo : ∀ c todo t, callers w !! c = Some (Closing todo) → t ∈ todo → is_Some (made w !! t);
}.

Lemma close_made t t' w :
  made (close_tunnel t w) !! t' = (if decide (t = t') then Close <$> made w !! t' else made w !! t').
Proof. cbn. case_decide as E; [subst; apply lookup_alter_eq | by apply lookup_alter_ne]. Qed.

Lemma Close_fired t w : Inv w → is_Some (made w !! t) → fired t (close_tunnel t w).
Proof.
  intros HI [tn E]. unfold fired. rewrite close_made, decide_True, E by done.
  by destruct (inv_once w HI t tn E) as [->| ->].
Qed.

Lemma fired_close t t' w : fired t w → fired t (close_tunnel t' w).
Proof. unfold fired. intros H. rewrite close_made. case_decide; by rewrite H. Qed.

Lemma made_close t t' w : is_Some (made (close_tunnel t w) !! t') ↔ is_Some (made w !! t').
Proof. rewrite close_made. case_decide; [apply fmap_is_Some|done]. Qed.

Lemma close_inv t w : Inv w → Inv (close_tunnel t w).
Proof.
  intros HI. pose proof HI as [H1 H2 H3 H4 H5 H6 H7 H8 H9 H10 H11]. constructor; try done.
  - intros t' tn. rewrite close_made. case_decide; [|apply H2].
    intros (tn' & E & ->)%fmap_Some. destruct (H2 _ _ E) as [->| ->]; by right.
  - intros t' Ht. apply made_close in Ht. by apply H3.
  - intros t' (pc & ? & ? & ?)%H4. exists pc. split_and!; [done..|by apply made_close].
  - intros t' pc [? ?]%H5. split; [by apply made_close|done].
  - intros t' pc Hp Hc. eapply fired_close, H6; [exact Hp|exact Hc].
  - intros t' Ht Hn. apply made_close in Ht. by apply fired_close, H7.
  - intros Hc t' Ht. destruct (H8 Hc t' Ht) as [Hf|Hp]; [left; by apply fired_close|by right].
  - intros c todo t' E Hin. apply made_close. by eapply H11.
Qed.

Lemma handler_inv t pc0 pc w : Inv w → handlers w !! t = Some pc0 → pc0 ≠ Gone → pc ≠ Gone →
  (pc = Draining ∨ pc = Unregistering → fired t w) → Inv (set_handler t pc w).
Proof.
  intros HI E0 Hg0 Hg Hf. pose proof HI as [H1 H2 H3 H4 H5 H6 H7 H8 H9 H10 H11].
  destruct (H5 _ _ E0) as [Hm Ht]. constructor; try done.
  - intros t' Ht'. cbn. destruct (decide (t' = t)) as [->|Hne].
    + exists pc. by rewrite lookup_insert_eq.
    + rewrite lookup_insert_ne by done. by apply H4.
  - intros t' pc'. cbn. intros [[<- <-]|[_ E]]%lookup_insert_Some; [split; [done|intros _; by apply Ht]|by apply H5].
  - intros t' pc'. cbn. intros [[<- <-]|[_ E]]%lookup_insert_Some Hc; [apply Hf; tauto|by eapply H6].
Qed.

Lemma caller_inv c pc w : Inv w → (pc ≠ Called → tunnelsClosed w = true) → (pc = Returned → tunnels w = ∅) →
  (∀ t todo, callers w !! c = Some (Closing todo) → t ∈ todo →
     fired t w ∨ ∃ todo', pc = Closing todo' ∧ t ∈ todo') →
  (∀ t todo, pc = Closing todo → t ∈ todo → is_Some (made w !! t)) →
  Inv (set_caller c pc w).
Proof.
  intros HI Hc Hr Hp Hm. pose proof HI as [H1 H2 H3 H4 H5 H6 H7 H8 H9 H10 H11]. constructor; try done.
  - intros Hcl t Ht. destruct (H8 Hcl t Ht) as [|(c' & todo & E & Hin)]; [by left|].
    destruct (decide (c' = c)) as [->|Hne].
    + destruct (Hp t todo E Hin) as [|(todo' & -> & ?)]; [by left|]. right. exists c, todo'.
      split; [apply lookup_insert_eq|done].
    + right. exists c', todo. split; [cbn; by rewrite lookup_insert_ne|done].
  - intros c' pc'. cbn. intros [[<- <-]|[_ E]]%lookup_insert_Some; [done|by apply (H9 _ _ E)].
  - intros c'. cbn. intros [[<- E]|[_ E]]%lookup_insert_Some; [by apply Hr|by apply (H10 _ E)].
  - intros c' todo t. cbn. intros [[<- E]|[_ E]]%lookup_insert_Some Hin; [by eapply Hm|by eapply H11].
Qed.

Lemma unregister_inv t w : Inv w → handlers w !! t = Some Unregistering →
  Inv (set_handler t Gone (unregisterProtocolTunnel t w)).
Proof.
  intros HI E. pose proof HI as [H1 H2 H3 H4 H5 H6 H7 H8 H9 H10 H11].
  destruct (H5 _ _ E) as [Hm Ht]. specialize (Ht ltac:(done)).
  assert (fired t w) as Hf by (eapply H6; [exact E|tauto]).
  unfold unregisterProtocolTunnel. rewrite bool_decide_true by done. constructor; try done; cbn.
  - rewrite size_difference by set_solver. rewrite size_singleton, H1.
    assert (size (tunnels w) ≠ 0%nat) by (intros Hz%size_empty_inv; set_solver). lia.
  - intros t' [Ht' Hne]%elem_of_difference. rewrite lookup_insert_ne by set_solver. by apply H4.
  - intros t' pc. intros [[<- <-]|[Hne E']]%lookup_insert_Some; [by split|].
    destruct (H5 _ _ E'). split; [done|set_solver].
  - intros t' pc. intros [[<- <-]|[Hne E']]%lookup_insert_Some; [done|by apply H6].
  - intros t' Hm' Hn. destruct (decide (t' = t)) as [->|]; [done|]. apply H7; [done|set_solver].
  - intros Hc t' Ht'. apply H8; set_solver.
  - intros c Hc. rewrite (H10 _ Hc). set_solver.
Qed.

Lemma begin_inv c todo w : Inv w → tunnelsClosed w = false → callers w !! c = Some Called → todo ≡ₚ base.elements (tunnels w) →
  Inv (set_caller c (Closing todo) (fst (begin_shutdown w))).
Proof.
  intros HI Hc E Hp. pose proof HI as [H1 H2 H3 H4 H5 H6 H7 H8 H9 H10 H11].
  unfold begin_shutdown. rewrite Hc. constructor; try done.
  - intros _ t Ht. right. exists c, todo. split; [apply lookup_insert_eq|]. rewrite Hp. by apply elem_of_elements.
  - intros c'. cbn. intros [[<- Hr]|[_ E']]%lookup_insert_Some; [done|by apply (H10 _ E')].
  - intros c' todo' t. cbn. intros [[<- E']|[_ E']]%lookup_insert_Some Hin; [|by eapply H11].
    injection E' as <-. rewrite Hp in Hin. apply elem_of_elements in Hin. by apply H4 in Hin as (? & ? & ? & ?).
Qed.

Lemma own_inv w w' : own w w' → Inv w → Inv w'.
Proof.
  intros Hs HI. destruct Hs as [w t E Hc|w t E Hc|w t E|w t E Hc Hb|w t E|w t E|w c todo E Hp|w c E Hp|w c t todo E|w c E|w c E Hz].
  - eapply handler_inv; try done. by intros [|].
  - eapply handler_inv; try done. by intros [|].
  - assert (is_Some (made w !! t)) by (by eapply inv_handler).
    eapply handler_inv; [by apply close_inv|exact E|done..|]. intros _. by apply Close_fired.
  - eapply handler_inv; try done. by intros [|].
  - assert (is_Some (made w !! t)) by (by eapply inv_handler).
    eapply handler_inv; [by apply close_inv|exact E|done..|]. intros _. by apply Close_fired.
  - by apply unregister_inv.
  - revert Hp. destruct (tunnelsClosed w) eqn:Hc; unfold begin_shutdown at 1; rewrite Hc; [done|]. by apply begin_inv.
  - revert Hp. unfold begin_shutdown. destruct (tunnelsClosed w) eqn:Hc; [intros _|done]. cbn.
    apply caller_inv; try done. intros t todo E'. rewrite E in E'. discriminate E'.
  - apply caller_inv; [by apply close_inv| |done| |].
    + intros _. cbn. by eapply inv_callers.
    + intros t' todo' E' Hin. cbn in E'. rewrite E in E'. injection E' as <-.
      apply elem_of_cons in Hin as [->|Hin]; [|right; by eexists].
      left. apply Close_fired; [done|]. eapply inv_todo; [done|exact E|by left].
    + intros t' todo' [= <-] Hin. apply made_close. eapply inv_todo; [done|exact E|by right].
  - apply caller_inv; try done.
    + intros _. by eapply inv_callers.
    + intros t todo E'. rewrite E in E'. injection E' as <-. by intros ?%elem_of_nil.
  - apply caller_inv; try done.
    + intros _. by eapply inv_callers.
    + intros _. rewrite (inv_wg _ HI) in Hz. assert (size (tunnels w) = 0%nat) as Hs by lia. apply size_empty_inv in Hs. set_solver.
    + intros t todo E'. rewrite E in E'. discriminate E'.
Qed.

Lemma register_inv w : Inv w → Inv
  match registerProtocolTunnel w with (w', Some t) => set_handler t Answering w' | (w', None) => w' end.
Proof.
  intros HI. pose proof HI as [H1 H2 H3 H4 H5 H6 H7 H8 H9 H10 H11].
  assert (made w !! next_id w = None) as Hn.
  { destruct (made w !! next_id w) eqn:E; [|done]. pose proof (H3 (next_id w) ltac:(by rewrite E)). lia. }
  assert (next_id w ∉ tunnels w) as Hnt by (intros (? & _ & _ & Hm)%H4; rewrite Hn in Hm; by destruct Hm).
  assert (∀ t, fired t w → t ≠ next_id w) as Hff by (intros t Hf ->; unfold fired in Hf; by rewrite Hn in Hf).
  set (w1 := mkWorld (tunnelsClosed w) (tunnels w) (tunnelWG w) (<[next_id w := mkTunnel false 0 0]> (made w)) (handlers w) (callers w) (S (next_id w))).
  assert (∀ t, fired t w → fired t w1) as Hf1.
  { intros t Hf. unfold fired. cbn. rewrite lookup_insert_ne; [exact Hf|]. intros <-. by apply Hff in Hf. }
  unfold registerProtocolTunnel. cbn [tunnelsClosed]. fold w1. destruct (tunnelsClosed w) eqn:Hc.
  - assert (∀ t, fired t w → fired t (close_tunnel (next_id w) w1)) as Hf2 by (intros; by apply fired_close, Hf1).
    assert (fired (next_id w) (close_tunnel (next_id w) w1)) as Hfn.
    { unfold fired. rewrite close_made, decide_True by done. cbn. by rewrite lookup_insert_eq. }
    assert (∀ t, is_Some (made (close_tunnel (next_id w) w1) !! t) ↔ t = next_id w ∨ is_Some (made w !! t)) as Hm.
    { intros t. rewrite made_close. cbn. rewrite lookup_insert_is_Some'. naive_solver. }
    constructor; try done.
    + intros t tn. rewrite close_made. cbn. case_decide as Et; [subst t; rewrite lookup_insert_eq; cbn; intros [= <-]; by right|].
      rewrite lookup_insert_ne by done. apply H2.
    + intros t Ht. apply Hm in Ht as [->|Ht]; cbn; [lia|]. apply H3 in Ht. lia.
    + intros t (pc & ? & ? & ?)%H4. exists pc. split_and!; [done..|]. apply Hm. by right.
    + intros t pc [? ?]%H5. split; [|done]. apply Hm. by right.
    + intros t pc Hp Hd. eapply Hf2, H6; [exact Hp|exact Hd].
    + intros t Ht Hnin. apply Hm in Ht as [->|Ht]; [done|]. by apply Hf2, H7.
    + intros _ t Ht. destruct (H8 eq_refl t Ht) as [Hf|Hp]; [left; by apply Hf2|by right].
    + intros c todo t E Hin. apply Hm. right. by eapply H11.
  - constructor; cbn.
    + rewrite size_union by set_solver. rewrite size_singleton, H1. lia.
    + intros t tn [[<- <-]|[_ E]]%lookup_insert_Some; [by left|by eapply H2].
    + intros t [->|Ht]%lookup_insert_is_Some'; [lia|]. apply H3 in Ht. lia.
    + intros t Ht. destruct (decide (t = next_id w)) as [->|Hne].
      * exists Answering. rewrite lookup_insert_eq. split_and!; [done..|]. cbn. by rewrite lookup_insert_eq.
      * rewrite !lookup_insert_ne by done. apply H4. set_solver.
    + intros t pc [[<- <-]|[Hne E]]%lookup_insert_Some; [rewrite lookup_insert_eq; split; [done|set_solver]|].
      rewrite lookup_insert_ne by done. apply H5 in E as [? ?]. split; [done|set_solver].
    + intros t pc [[<- <-]|[Hne E]]%lookup_insert_Some Hd; [by destruct Hd as [|[|]]|]. by eapply Hf1, H6.
    + intros t [->|Ht]%lookup_insert_is_Some' Hnin; [set_solver|]. apply Hf1, H7; [done|set_solver].
    + congruence.
    + intros c pc E Hpc. pose proof (H9 c pc E Hpc). congruence.
    + intros c E. pose proof (H9 c _ E ltac:(done)). congruence.
    + intros c todo t E Hin. apply lookup_insert_is_Some'. right. by eapply H11.
Qed.

Lemma outside_inv w w' : outside w w' → Inv w → Inv w'.
Proof.
  intros Hs HI. destruct Hs as [w|w c E|w t E|w t E|w t E].
  - by apply register_inv.
  - apply caller_inv; try done. intros t todo E'. rewrite E in E'. discriminate E'.
  - eapply handler_inv; try done. by intros [|].
  - eapply handler_inv; try done. by intros [|].
  - eapply handler_inv; try done. by intros [|].
Qed.

Lemma world_inv w : rtc step empty w → Inv w.
Proof.
  intros Hr. assert (Inv empty) as H0.
  { constructor; cbn; try done; intros *; rewrite ?lookup_empty; try done; by intros []. }
  clear -Hr H0. induction Hr as [|w1 w2 w3 [Hs|Hs] Hr IH]; [done| |]; apply IH; [by eapply own_inv|by eapply outside_inv].
Qed.

(** *** The program's own steps end *)

Definition handler_rank (pc : handler_pc) : nat :=
  match pc with
  | Answering => 6 | Copying => 5 | FirstEnded => 4 | Draining => 3 | Leaving => 2 | Unregistering => 1 | Gone => 0
  end.

Definition close_rank (n : nat) (pc : close_pc) : nat :=
  match pc with Called => n + 3 | Closing todo => length todo + 2 | Waiting => 1 | Returned => 0 end.

Definition total {A} (rank : A → nat) (m : gmap nat A) : nat := map_fold (λ _ pc n, (rank pc + n)%nat) 0%nat m.

Lemma total_insert {A} (rank : A → nat) m k x y :
  m !! k = Some x → (rank y < rank x)%nat → (total rank (<[k := y]> m) < total rank m)%nat.
Proof.
  intros E Hlt. assert (∀ z, total rank (<[k := z]> (delete k m)) = (rank z + total rank (delete k m))%nat) as Ht.
  { intros z. unfold total. rewrite map_fold_insert_L; [done|lia|apply lookup_delete_eq]. }
  rewrite <- (insert_delete_id m k x E) at 2. rewrite <- (insert_delete_eq m k y), !Ht. lia.
Qed.

Definition measure (n : nat) (w : world) : nat := total handler_rank (handlers w) + total (close_rank n) (callers w).

Lemma measure_handler n w w' t x pc : handlers w !! t = Some x → (handler_rank pc < handler_rank x)%nat →
  handlers w' = handlers w → callers w' = callers w → (measure n (set_handler t pc w') < measure n w)%nat.
Proof. intros E Hlt Hh Hc. unfold measure. cbn. rewrite Hh, Hc. pose proof (total_insert handler_rank _ _ _ _ E Hlt). lia. Qed.

Lemma measure_caller n w w' c x pc : callers w !! c = Some x → (close_rank n pc < close_rank n x)%nat →
  handlers w' = handlers w → callers w' = callers w → (measure n (set_caller c pc w') < measure n w)%nat.
Proof. intros E Hlt Hh Hc. unfold measure. cbn. rewrite Hh, Hc. pose proof (total_insert (close_rank n) _ _ _ _ E Hlt). lia. Qed.

Lemma own_decreases n w w' : own w w' → (size (tunnels w) ≤ n)%nat →
  (measure n w' < measure n w)%nat ∧ (size (tunnels w') ≤ n)%nat.
Proof.
  intros Hs Hn. destruct Hs as [w t E Hc|w t E Hc|w t E|w t E Hc Hb|w t E|w t E|w c todo E Hp|w c E Hp|w c t todo E|w c E|w c E Hz].
  1-5: split; [eapply measure_handler; [exact E|cbn; lia|done..]|exact Hn].
  - unfold unregisterProtocolTunnel. case_bool_decide; (split; [eapply measure_handler; [exact E|cbn; lia|done..]|]); [|exact Hn].
    cbn. etrans; [|exact Hn]. apply subseteq_size. set_solver.
  - revert Hp. unfold begin_shutdown. destruct (tunnelsClosed w) eqn:Ec; [done|]. cbn. intros Hp.
    split; [|exact Hn]. eapply measure_caller; [exact E| |done..]. cbn. rewrite Hp. change (length _) with (size (tunnels w)). lia.
  - revert Hp. unfold begin_shutdown. destruct (tunnelsClosed w) eqn:Ec; [|done]. cbn. intros _.
    split; [|exact Hn]. eapply measure_caller; [exact E|cbn; lia|done..].
  - split; [|exact Hn]. eapply measure_caller; [exact E|cbn; lia|done..].
  - split; [|exact Hn]. eapply measure_caller; [exact E|cbn; lia|done..].
  - split; [|exact Hn]. eapply measure_caller; [exact E|cbn; lia|done..].
Qed.

Lemma own_terminates w : sn own w.
Proof.
  assert (∀ m n w, (measure n w < m)%nat → (size (tunnels w) ≤ n)%nat → sn own w) as H; [|apply (H (S (measure (size (tunnels w)) w)) (size (tunnels w))); lia].
  clear w. induction m as [|m IH]; intros n w Hm Hn; [lia|]. constructor. intros w' Hs.
  destruct (own_decreases n _ _ Hs Hn). apply (IH n); [lia|done].
Qed.

Lemma fired_closed t w : fired t w → closed_by client t w ∧ closed_by backend t w.
Proof. intros Hf. split; (eexists; split; [exact Hf|cbn; lia]). Qed.

(** A handler whose tunnel is closed never waits. *)
Lemma handler_moves w t pc : handlers w !! t = Some pc → pc ≠ Gone → fired t w → red own w.
Proof.
  intros E Hg [Hc Hb]%fired_closed. destruct pc; [| | | | | |done]; eexists.
  - by eapply own_answer. - eapply own_copied; [done|by left]. - by eapply own_close.
  - by eapply own_drained. - by eapply own_leave. - by eapply own_unregister.
Qed.

(** While a call has not returned, something of the program can move. *)
Lemma call_moves w c pc : Inv w → callers w !! c = Some pc → pc ≠ Returned → red own w.
Proof.
  intros HI E Hr. destruct pc as [|[|t todo]| |]; [| | | |done].
  - destruct (begin_shutdown w) as [w1 [ts|]] eqn:Eb; eexists.
    + apply (own_begin _ c (base.elements ts) E). rewrite Eb. cbn. reflexivity.
    + apply (own_join _ c E). by rewrite Eb.
  - eexists. by eapply own_loop_end.
  - eexists. by eapply own_loop.
  - pose proof (inv_callers _ HI _ _ E ltac:(done)) as Hc.
    destruct (decide (tunnels w = ∅)) as [Hz|(t & Ht)%set_choose_L].
    + eexists. eapply own_return; [exact E|]. by rewrite (inv_wg _ HI), Hz.
    + destruct (inv_collected _ HI Hc t Ht) as [Hf|(c' & todo & E' & Hin)].
      * destruct (inv_known _ HI t Ht) as (pc & Eh & Hg & _). by eapply handler_moves.
      * destruct todo as [|t' todo]; [by apply elem_of_nil in Hin|]. eexists. by eapply own_loop.
Qed.

(** C40: shutdown closes every upgraded connection and always returns.  In every
    reachable state no tunnel has had its connections closed twice, the wait
    group counts the registered tunnels, and once a shutdown has begun it is
    never raised again: a new tunnel is refused and closed at once.  When a call
    of closeProtocolTunnels has returned, the connections of every tunnel ever
    made are closed and every goroutine that used one has left.  And it does
    return without the help of a peer, whatever the interleaving: every run of
    the program's own steps is finite, and where one stops, no call of
    closeProtocolTunnels is still under way; what a closed connection does is
    to end the reads and writes that wait on it. *)
Theorem tunnels_all_closed w : rtc step empty w →
  tunnelWG w = Z.of_nat (size (tunnels w))
  ∧ (∀ t tn, made w !! t = Some tn → (client tn ≤ 1)%nat ∧ (backend tn ≤ 1)%nat)
  ∧ (tunnelsClosed w = true → ∃ w', registerProtocolTunnel w = (w', None)
       ∧ tunnelWG w' = tunnelWG w ∧ made w' !! next_id w = Some (mkTunnel true 1 1))
  ∧ (∀ c, callers w !! c = Some Returned →
       (∀ t tn, made w !! t = Some tn → tn = mkTunnel true 1 1)
       ∧ ∀ t pc, handlers w !! t = Some pc → pc = Gone)
  ∧ sn own w
  ∧ ∀ w', rtc own w w' → nf own w' → ∀ c pc, callers w' !! c = Some pc → pc = Returned.
Proof.
  intros HI%world_inv. split_and!.
  - apply HI.
  - intros t tn E. destruct (inv_once _ HI _ _ E) as [->| ->]; cbn; lia.
  - intros Hc. unfold registerProtocolTunnel. cbn [tunnelsClosed]. rewrite Hc. eexists. split; [done|]. split; [done|].
    rewrite close_made, decide_True by done. cbn. by rewrite lookup_insert_eq.
  - intros c Hc. pose proof (inv_returned _ HI _ Hc) as He. split.
    + intros t tn E. pose proof (inv_gone _ HI t ltac:(by rewrite E) ltac:(rewrite He; set_solver)) as Hf.
      unfold fired in Hf. congruence.
    + intros t pc E. destruct (decide (pc = Gone)) as [|Hg]; [done|].
      destruct (inv_handler _ HI _ _ E) as [_ Ht]. specialize (Ht Hg). rewrite He in Ht. set_solver.
  - apply own_terminates.
  - intros w' Hs Hnf c pc E. assert (Inv w') as HI'.
    { clear -Hs HI. induction Hs as [|w1 w2 w3 Hs _ IH]; [done|]. apply IH. by eapply own_inv. }
    destruct (decide (pc = Returned)) as [|Hr]; [done|]. exfalso. apply Hnf. by eapply call_moves.
Qed.

(** One tunnel whose peers never end it: shutdown closes it and returns. *)
Definition sample_open : world := set_handler 0 Copying (set_handler 0 Answering (fst (registerProtocolTunnel empty))).
Definition sample_closing : world := set_caller 7 (Closing [0%nat]) (fst (begin_shutdown (set_caller 7 Called sample_open))).
Definition sample_closed : world := set_caller 7 Waiting (set_caller 7 (Closing []) (close_tunnel 0 sample_closing)).
Definition sample_left : world :=
  set_handler 0 Gone (unregisterProtocolTunnel 0
    (set_handler 0 Unregistering (close_tunnel 0 (set_handler 0 Leaving
      (set_handler 0 Draining (close_tunnel 0 (set_handler 0 FirstEnded sample_closed))))))).
Definition sample_returned : world := set_caller 7 Returned sample_left.

Lemma sample_reachable : rtc step empty sample_returned.
Proof.
  assert (∀ w tn, made w !! 0%nat = Some tn → (0 < client tn)%nat → closed_by client 0 w) as Hc by (intros w tn; by exists tn).
  assert (∀ w tn, made w !! 0%nat = Some tn → (0 < backend tn)%nat → closed_by backend 0 w) as Hb by (intros w tn; by exists tn).
  eapply rtc_l; [right; apply out_upgrade|]. eapply rtc_l; [right; apply (out_answered _ 0); reflexivity|].
  eapply rtc_l; [right; apply (out_call _ 7); reflexivity|].
  eapply rtc_l; [left; apply (own_begin _ 7 [0%nat]); vm_compute; reflexivity|].
  eapply rtc_l; [left; apply (own_loop _ 7 0 []); vm_compute; reflexivity|].
  eapply rtc_l; [left; apply (own_loop_end _ 7); vm_compute; reflexivity|].
  eapply rtc_l; [left; apply (own_copied _ 0); [reflexivity|left; eapply Hc; [reflexivity|cbn; lia]]|].
  eapply rtc_l; [left; apply (own_close _ 0); reflexivity|].
  eapply rtc_l; [left; apply (own_drained _ 0); [reflexivity|eapply Hc; [reflexivity|cbn; lia]|eapply Hb; [reflexivity|cbn; lia]]|].
  eapply rtc_l; [left; apply (own_leave _ 0); reflexivity|].
  eapply rtc_l; [left; apply (own_unregister _ 0); reflexivity|].
  eapply rtc_l; [left; apply (own_return _ 7); vm_compute; reflexivity|]. apply rtc_refl.
Qed.

Lemma tunnels_all_closed_witness :
  callers sample_returned !! 7%nat = Some Returned ∧ made sample_returned !! 0%nat = Some (mkTunnel true 1 1)
  ∧ handlers sample_returned !! 0%nat = Some Gone.
Proof.
  destruct (tunnels_all_closed sample_returned sample_reachable) as (_ & _ & _ & H & _).
  assert (callers sample_returned !! 7%nat = Some Returned) as Hc by (vm_compute; reflexivity).
  destruct (H 7%nat Hc) as [Hm Hh]. split; [exact Hc|].
  assert (∃ tn, made sample_returned !! 0%nat = Some tn) as [tn E] by (eexists; vm_compute; reflexivity).
  assert (∃ pc, handlers sample_returned !! 0%nat = Some pc) as [pc E'] by (eexists; vm_compute; reflexivity).
  split; [rewrite <- (Hm _ _ E); exact E|rewrite <- (Hh _ _ E'); exact E'].
Defined.
End Tunnels.
