(* ===== verification/RateLimit.v ===== *)
(** * Rate limiting and temporary bans:
    apps/securityedge/internal/ratelimit/limiter.go

    [Limiter] is the pair of token buckets (route-wide and per client) in
    binary64; [BanManager] the bounded table of violations and bans.  Every
    method runs under the object's mutex and is one step; the periodic cleanup
    is the step [cleanup_tick].  Loops over a map that depend on the order take
    it as an argument. *)

From stdpp Require Import sorting.
From S2P Require Import Prelude GoStr GoFloat FloatInt.

Module Limiter.

Record RateLimitConfig := mkRateCfg {
  Enabled : bool;
  RequestsPerSecond : float64;
  Burst : Z;
  GlobalRequestsPerSecond : float64;
  GlobalBurst : Z;
  CleanupInterval : duration;
  IdleTTL : duration;
  MaxBuckets : Z;
}.

Record bucket := mkBucket { tokens : float64; last : time; seen : time }.

Record Decision := mkDecision { Allowed : bool; RetryAfter : duration; Scope : str; Reason : str }.

Abbreviation buckets := (gmap str bucket).

Section limiter.
Context {FM : FloatMath}.

(** The tokens of a bucket at [now], before one is taken. *)
Definition refill (rate : float64) (burst : Z) (now : time) (b : bucket) : float64 :=
  let elapsed := dur_seconds (time_sub now (last b)) in
  let elapsed := if flt elapsed f_zero then f_zero else elapsed in
  let t := fadd (tokens b) (fmul elapsed rate) in
  if flt (f_of_Z burst) t then f_of_Z burst else t.

Definition retry_after (t rate : float64) : duration :=
  let missing := fsub f_one t in
  let waitSeconds := fdiv missing rate in
  let maxSeconds := fdiv (f_of_Z max_int64) (f_of_Z second) in
  if is_nan waitSeconds || fle waitSeconds f_zero then millisecond
  else if is_pos_inf waitSeconds || fle maxSeconds waitSeconds then max_int64
  else
    let retry := float_to_int64 (fmul waitSeconds (f_of_Z second)) in
    if retry <? millisecond then millisecond else retry.

Definition allowLocked (key : str) (rate : float64) (burst maxBuckets : Z) (now : time) (m : buckets)
    : (bool * duration * str) * buckets :=
  let found :=
    match m !! key with
    | Some b => Some b
    | None => if maxBuckets <=? Z.of_nat (size m) then None else Some (mkBucket (f_of_Z burst) now now)
    end in
  match found with
  | None => ((false, second, lit "bucket_capacity"), m)
  | Some b =>
      let t := refill rate burst now b in
      if fle f_one t then ((true, 0, []), <[key := mkBucket (fsub t f_one) now now]> m)
      else ((false, retry_after t rate, lit "rate_exceeded"), <[key := mkBucket t now now]> m)
  end.

Definition global_key (route : str) : str := "global|" ++ route.
Definition client_key (route client : str) : str := "client|" ++ route ++ "|" ++ client.

(** The global token goes back when the client's bucket refuses. *)
Definition refund (key : str) (burst : Z) (m : buckets) : buckets :=
  match m !! key with
  | Some b => if flt (tokens b) (f_of_Z burst) then <[key := mkBucket (fadd (tokens b) f_one) (last b) (seen b)]> m else m
  | None => m
  end.

Definition Allow (route client : str) (cfg : RateLimitConfig) (now : time) (m : buckets) : Decision * buckets :=
  if negb (Enabled cfg) then (mkDecision true 0 [] [], m)
  else
    let '((ok, retry, reason), m) :=
      allowLocked (global_key route) (GlobalRequestsPerSecond cfg) (GlobalBurst cfg) (MaxBuckets cfg) now m in
    if negb ok then (mkDecision false retry "global" reason, m)
    else
      let '((ok, retry, reason), m) :=
        allowLocked (client_key route client) (RequestsPerSecond cfg) (Burst cfg) (MaxBuckets cfg) now m in
      if negb ok then (mkDecision false retry "client" reason, refund (global_key route) (GlobalBurst cfg) m)
      else (mkDecision true 0 [] [], m).

Definition Size (m : buckets) : Z := Z.of_nat (size m).

(** One tick of [cleanup]. *)
Definition cleanup_tick (idleTTL : duration) (now : time) (m : buckets) : buckets :=
  filter (λ kb : str * bucket, time_sub now (seen (snd kb)) <= idleTTL) m.

(** ** Keys *)

Lemma global_client_key route route' client : global_key route ≠ client_key route' client.
Proof. done. Qed.
Lemma global_key_inj route route' : global_key route = global_key route' → route = route'.
Proof. unfold global_key. by intros ?%app_inv_head. Qed.

(** ** Frame *)

Lemma allowLocked_frame key rate burst M now m j : j ≠ key →
  snd (allowLocked key rate burst M now m) !! j = m !! j.
Proof.
  intros Hj. unfold allowLocked. destruct (m !! key) as [b|].
  - destruct (fle _ _); cbn [snd]; by rewrite lookup_insert_ne.
  - destruct (_ <=? _); [done|]. destruct (fle _ _); cbn [snd]; by rewrite lookup_insert_ne.
Qed.

Lemma refund_frame key burst m j : j ≠ key → refund key burst m !! j = m !! j.
Proof. intros Hj. unfold refund. destruct (m !! key); [|done]. destruct (flt _ _); [|done]. by rewrite lookup_insert_ne. Qed.

Lemma allowLocked_size key rate burst M now m : Size m <= M → Size (snd (allowLocked key rate burst M now m)) <= M.
Proof.
  intros Hm. unfold allowLocked, Size in *. destruct (m !! key) as [b|] eqn:E.
  - assert (∀ b', size (<[key := b']> m) = size m) as Hs by (intros b'; by apply map_size_insert_Some_2 with b || rewrite map_size_insert, E).
    destruct (fle _ _); cbn [snd]; by rewrite Hs.
  - destruct (Z.leb_spec M (Z.of_nat (size m))); [done|].
    destruct (fle _ _); cbn [snd]; rewrite map_size_insert_None by done; lia.
Qed.

Lemma refund_size key burst m : Size (refund key burst m) = Size m.
Proof.
  unfold refund, Size. destruct (m !! key) as [b|] eqn:E; [|done]. destruct (flt _ _); [|done].
  by rewrite map_size_insert, E.
Qed.

(** ** Whole tokens, whole rates, whole seconds

    The instants are [t0 + n * second]; [H] bounds the horizon so that every
    count stays below 2^53, where binary64 is exact. *)

Section whole.
Context (t0 H r burst : Z) (Hr : 0 <= r < 2 ^ 53) (Hburst : 1 <= burst) (HH : H * second <= max_int64)
        (Hcap : burst + r * H < 2 ^ 53).

Definition instant (n : Z) : time := t0 + n * second.

Lemma horizon n : 0 <= n <= H → 0 <= n < 2 ^ 53 ∧ 0 <= r * n <= r * H.
Proof. unfold second, max_int64 in *. nia. Qed.

Lemma instant_elapsed nl n : 0 <= nl <= n → n <= H →
  dur_seconds (time_sub (instant n) (instant nl)) = f_of_Z (n - nl).
Proof.
  intros H1 H2. pose proof (horizon (n - nl) ltac:(lia)).
  assert (time_sub (instant n) (instant nl) = (n - nl) * second) as ->.
  { unfold time_sub, instant, second, max_int64, min_int64 in *. repeat case_goal; boolify; lia. }
  unfold dur_seconds. rewrite Z.quot_mul, Z.rem_mul by (unfold second; lia).
  change (fdiv (f_of_Z 0) (f_of_Z second)) with (f_of_Z 0). rewrite fadd_exact by lia. by rewrite Z.add_0_r.
Qed.

(** The bucket under [key] held [k] tokens at instant [nl]. *)
Definition holds (m : buckets) (key : str) (k nl : Z) : Prop :=
  ∃ b, m !! key = Some b ∧ tokens b = f_of_Z k ∧ last b = instant nl ∧ seen b = instant nl.

Definition refilled (k nl n : Z) : Z := Z.min burst (k + r * (n - nl)).

Lemma refill_whole b k nl n : tokens b = f_of_Z k → last b = instant nl → 0 <= k <= burst → 0 <= nl <= n → n <= H →
  refill (f_of_Z r) burst (instant n) b = f_of_Z (refilled k nl n).
Proof.
  intros Hk Hl Hkb H1 H2. unfold refill. rewrite Hl, instant_elapsed by done.
  pose proof (horizon (n - nl) ltac:(lia)). pose proof (horizon H ltac:(lia)).
  change f_zero with (f_of_Z 0). rewrite flt_exact by lia. destruct (Z.ltb_spec (n - nl) 0); [lia|].
  assert (fmul (f_of_Z (n - nl)) (f_of_Z r) = f_of_Z (r * (n - nl))) as Hm.
  { rewrite fmul_exact by lia. f_equal. lia. }
  rewrite Hm, Hk, fadd_exact, flt_exact by lia. unfold refilled. destruct (Z.ltb_spec burst (k + r * (n - nl))); f_equal; lia.
Qed.

Definition taken (n k : Z) : bucket := mkBucket (f_of_Z k) (instant n) (instant n).

Lemma allowLocked_whole key M n m k nl : 0 <= nl <= n → n <= H → 0 <= k <= burst →
  (holds m key k nl ∨ (m !! key = None ∧ Size m < M ∧ k = burst)) →
  allowLocked key (f_of_Z r) burst M (instant n) m
  = if 1 <=? refilled k nl n then ((true, 0, []), <[key := taken n (refilled k nl n - 1)]> m)
    else ((false, retry_after (f_of_Z (refilled k nl n)) (f_of_Z r), lit "rate_exceeded"),
          <[key := taken n (refilled k nl n)]> m).
Proof.
  intros H1 H2 Hk Hm. pose proof (horizon (n - nl) ltac:(lia)). pose proof (horizon H ltac:(lia)).
  assert (0 <= refilled k nl n <= burst) as Hf by (unfold refilled; lia).
  assert (∀ b, refill (f_of_Z r) burst (instant n) b = f_of_Z (refilled k nl n) →
    (if fle f_one (refill (f_of_Z r) burst (instant n) b)
     then (true, 0, [], <[key := mkBucket (fsub (refill (f_of_Z r) burst (instant n) b) f_one) (instant n) (instant n)]> m)
     else (false, retry_after (refill (f_of_Z r) burst (instant n) b) (f_of_Z r), lit "rate_exceeded",
           <[key := mkBucket (refill (f_of_Z r) burst (instant n) b) (instant n) (instant n)]> m))
    = if 1 <=? refilled k nl n then ((true, 0, []), <[key := taken n (refilled k nl n - 1)]> m)
      else ((false, retry_after (f_of_Z (refilled k nl n)) (f_of_Z r), lit "rate_exceeded"),
          <[key := taken n (refilled k nl n)]> m)) as Hgo.
  { intros b ->. change f_one with (f_of_Z 1). rewrite fle_exact by lia.
    destruct (Z.leb_spec 1 (refilled k nl n)); [|done]. unfold taken. by rewrite fsub_exact by lia. }
  unfold allowLocked. destruct Hm as [(b & -> & Hb1 & Hb2 & _)|(-> & Hs & ->)].
  - apply Hgo. by apply refill_whole.
  - unfold Size in Hs. destruct (Z.leb_spec M (Z.of_nat (size m))); [lia|]. apply Hgo.
    assert (refilled burst nl n = refilled burst n n) as -> by (unfold refilled; lia).
    apply refill_whole; (done || lia).
Qed.

(** *** The potential of a bucket

    [adm] requests were admitted through [key] up to [cur]; together with the
    tokens left they are within [burst + r * n].  A bucket that is absent is as
    good as a full one. *)

Definition pot (cur : time) (key : str) (adm : Z) (m : buckets) : Prop :=
  match m !! key with
  | Some b => ∃ k nl, tokens b = f_of_Z k ∧ last b = instant nl ∧ seen b = instant nl
                ∧ 0 <= k <= burst ∧ 0 <= nl <= H ∧ instant nl <= cur ∧ adm + k <= burst + r * nl
  | None => ∀ n, 0 <= n → cur <= instant n → adm <= r * n
  end.

Lemma pot_mono cur cur' key adm adm' m : cur <= cur' → adm' <= adm → pot cur key adm m → pot cur' key adm' m.
Proof.
  unfold pot. intros H1 H2. destruct (m !! key).
  - intros (k & nl & ? & ? & ? & ? & ? & ? & ?). exists k, nl. split_and!; (done || lia).
  - intros Hn n ? ?. specialize (Hn n). lia.
Qed.

Lemma pot_bound cur key adm m n : pot cur key adm m → 0 <= n → cur <= instant n → adm <= burst + r * n.
Proof.
  unfold pot. destruct (m !! key).
  - intros (k & nl & ? & ? & ? & ? & ? & ? & ?) ? ?. assert (nl <= n) by (unfold instant, second in *; lia). nia.
  - intros Hn ? ?. specialize (Hn n). lia.
Qed.

Lemma pot_frame cur key adm m m' : m' !! key = m !! key → pot cur key adm m → pot cur key adm m'.
Proof. unfold pot. by intros ->. Qed.

Lemma pot_allow cur key adm M m n : pot cur key adm m → cur <= instant n → 0 <= n <= H →
  let res := allowLocked key (f_of_Z r) burst M (instant n) m in
  pot (instant n) key (adm + (if fst (fst (fst res)) then 1 else 0)) (snd res).
Proof.
  intros Hp Hc Hn res. unfold pot in Hp. destruct (m !! key) as [b|] eqn:Eb.
  - destruct Hp as (k & nl & Hk & Hl & Hs & ? & ? & ? & ?).
    assert (nl <= n) by (unfold instant, second in *; lia).
    assert (0 <= refilled k nl n <= burst ∧ refilled k nl n <= k + r * (n - nl)) by (unfold refilled; nia).
    unfold res. rewrite (allowLocked_whole key M n m k nl) by (lia || (left; by exists b)).
    destruct (Z.leb_spec 1 (refilled k nl n)); cbn [fst snd]; unfold pot; rewrite lookup_insert_eq;
      eexists _, n; split_and!; (done || lia).
  - destruct (Z.leb_spec M (Z.of_nat (size m))).
    + unfold res, allowLocked. rewrite Eb. destruct (Z.leb_spec M (Z.of_nat (size m))); [|lia]. cbn [fst snd].
      unfold pot. rewrite Eb. intros n' ? ?. specialize (Hp n'). lia.
    + unfold res. rewrite (allowLocked_whole key M n m burst n) by (lia || (right; split_and!; (done || unfold Size; lia))).
      assert (refilled burst n n = burst) as -> by (unfold refilled; lia). specialize (Hp n).
      destruct (Z.leb_spec 1 burst); [|lia]. cbn [fst snd]. unfold pot. rewrite lookup_insert_eq.
      eexists _, n. split_and!; (done || lia).
Qed.

Lemma pot_refund cur key adm m : pot cur key (adm + 1) m → pot cur key adm (refund key burst m).
Proof.
  intros Hp. unfold refund. unfold pot in Hp. destruct (m !! key) as [b|] eqn:Eb.
  - destruct Hp as (k & nl & Hk & Hl & Hs & ? & ? & ? & ?). pose proof (horizon H ltac:(lia)).
    rewrite Hk, flt_exact by lia. destruct (Z.ltb_spec k burst).
    + unfold pot. rewrite lookup_insert_eq. exists (k + 1), nl. cbn [tokens last seen].
      change f_one with (f_of_Z 1). rewrite fadd_exact by lia. split_and!; (done || lia).
    + unfold pot. rewrite Eb. exists k, nl. split_and!; (done || lia).
  - unfold pot. rewrite Eb. intros n ? ?. specialize (Hp n). lia.
Qed.

Lemma pot_tick ttl cur key adm m now : burst * second <= r * ttl → ttl <= max_int64 →
  pot cur key adm m → cur <= now → pot now key adm (cleanup_tick ttl now m).
Proof.
  intros Httl Hmax Hp Hc. unfold pot in *. unfold cleanup_tick. destruct (m !! key) as [b|] eqn:Eb.
  - destruct Hp as (k & nl & Hk & Hl & Hs & ? & ? & ? & ?).
    destruct (decide (time_sub now (seen b) <= ttl)) as [Hd|Hd].
    + rewrite (map_lookup_filter_Some_2 _ m key b) by done. exists k, nl. split_and!; (done || lia).
    + rewrite map_lookup_filter_None_2 by (right; intros b' ? ; simplify_eq/=; done). intros n ? ?.
      rewrite Hs in Hd. assert (ttl < (n - nl) * second).
      { unfold time_sub, instant, max_int64, min_int64, second in *. revert Hd. repeat case_goal; boolify; lia. }
      assert (burst <= r * (n - nl)); [|lia]. unfold second in *. nia.
  - rewrite map_lookup_filter_None_2 by (by left). intros n ? ?. specialize (Hp n). lia.
Qed.
End whole.

(** ** Traces *)

Inductive op :=
  | Request (route client : str) (now : time)
  | Tick (now : time).

Definition op_time (o : op) : time := match o with Request _ _ now => now | Tick now => now end.

(** Which requests a bucket stands for. *)
Inductive scope := RouteScope (route : str) | ClientScope (route client : str).

Definition scope_key (s : scope) : str :=
  match s with RouteScope route => global_key route | ClientScope route client => client_key route client end.
Definition in_scope (s : scope) (route client : str) : bool :=
  match s with
  | RouteScope route' => route =?s route'
  | ClientScope route' client' => (route =?s route') && (client =?s client')
  end.
Definition scope_route (s : scope) : str := match s with RouteScope route | ClientScope route _ => route end.
Definition scope_rate (s : scope) (cfg : RateLimitConfig) : float64 :=
  match s with RouteScope _ => GlobalRequestsPerSecond cfg | ClientScope _ _ => RequestsPerSecond cfg end.
Definition scope_burst (s : scope) (cfg : RateLimitConfig) : Z :=
  match s with RouteScope _ => GlobalBurst cfg | ClientScope _ _ => Burst cfg end.

(** The policies of the routes, and the idle time of the cleanup. *)
Section trace.
Context (cfg : str → RateLimitConfig) (ttl : duration).

(** The requests of a scope that are admitted along a trace, and the buckets after it. *)
Definition exec (s : scope) (o : op) (st : Z * buckets) : Z * buckets :=
  match o with
  | Request route client now =>
      let '(d, m) := Allow route client (cfg route) now (snd st) in
      (if Allowed d && in_scope s route client then fst st + 1 else fst st, m)
  | Tick now => (fst st, cleanup_tick ttl now (snd st))
  end.
Definition run (s : scope) (ops : list op) (st : Z * buckets) : Z * buckets := foldl (λ st o, exec s o st) st ops.

(** Instants are whole seconds after [t0] within the horizon, in order. *)
Fixpoint ordered (t0 H : Z) (cur : time) (ops : list op) : Prop :=
  match ops with
  | [] => True
  | o :: ops =>
      cur <= op_time o
      ∧ match o with Request _ _ now => ∃ n, 0 <= n <= H ∧ now = instant t0 n | Tick _ => True end
      ∧ ordered t0 H (op_time o) ops
  end.

Definition end_time (cur : time) (ops : list op) : time := foldl (λ _ o, op_time o) cur ops.

Definition bar : ascii := "|"%char.
Definition op_ok (o : op) : Prop := match o with Request _ client _ => bar ∉ client | Tick _ => True end.

Lemma client_key_inj route route' client client' : bar ∉ client → bar ∉ client' →
  client_key route client = client_key route' client' → route = route' ∧ client = client'.
Proof. unfold client_key. intros H1 H2 ?%app_inv_head. by apply (sep_inj bar). Qed.

(** Buckets of other keys are not touched by a request. *)
Lemma Allow_frame route client c now m j : j ≠ global_key route → j ≠ client_key route client →
  snd (Allow route client c now m) !! j = m !! j.
Proof.
  intros Hg Hc. unfold Allow. destruct (negb _); [done|].
  pose proof (allowLocked_frame (global_key route) (GlobalRequestsPerSecond c) (GlobalBurst c) (MaxBuckets c) now m j Hg) as H1.
  destruct (allowLocked (global_key route) _ _ _ _ _) as [[[[] rt] re] m1]; cbn [negb snd] in *; [|done].
  pose proof (allowLocked_frame (client_key route client) (RequestsPerSecond c) (Burst c) (MaxBuckets c) now m1 j Hc) as H2.
  destruct (allowLocked (client_key route client) _ _ _ _ _) as [[[[] rt2] re2] m2]; cbn [negb snd] in *; [congruence|].
  rewrite refund_frame by done. congruence.
Qed.

Lemma Allow_size route client c now m : Size m <= MaxBuckets c → Size (snd (Allow route client c now m)) <= MaxBuckets c.
Proof.
  intros Hm. unfold Allow. destruct (negb _); [done|].
  pose proof (allowLocked_size (global_key route) (GlobalRequestsPerSecond c) (GlobalBurst c) _ now m Hm) as H1.
  destruct (allowLocked (global_key route) _ _ _ _ _) as [[[[] rt] re] m1]; cbn [negb snd] in *; [|done].
  pose proof (allowLocked_size (client_key route client) (RequestsPerSecond c) (Burst c) _ now m1 H1) as H2.
  destruct (allowLocked (client_key route client) _ _ _ _ _) as [[[[] rt2] re2] m2]; cbn [negb snd] in *; [done|].
  by rewrite refund_size.
Qed.

Lemma exec_pot t0 H r burst s o cur adm m : 0 <= r < 2 ^ 53 → 1 <= burst → H * second <= max_int64 → burst + r * H < 2 ^ 53 →
  burst * second <= r * ttl → ttl <= max_int64 →
  Enabled (cfg (scope_route s)) = true → scope_rate s (cfg (scope_route s)) = f_of_Z r →
  scope_burst s (cfg (scope_route s)) = burst →
  (match s with ClientScope _ client => bar ∉ client | RouteScope _ => True end) → op_ok o →
  cur <= op_time o → (match o with Request _ _ now => ∃ n, 0 <= n <= H ∧ now = instant t0 n | Tick _ => True end) →
  pot t0 H r burst cur (scope_key s) adm m →
  pot t0 H r burst (op_time o) (scope_key s) (fst (exec s o (adm, m))) (snd (exec s o (adm, m))).
Proof.
  intros Hr Hb HH Hcap Httl Hmax Hen Hrate Hburst Hs Hok Hcur Hn Hp.
  destruct o as [route client now|now]; cbn [op_time exec fst snd] in *.
  2:{ by eapply pot_tick. }
  destruct Hn as (n & Hn & ->).
  assert (∀ key adm m, pot t0 H r burst cur key adm m →
    let res := allowLocked key (f_of_Z r) burst (MaxBuckets (cfg route)) (instant t0 n) m in
    pot t0 H r burst (instant t0 n) key (adm + (if fst (fst (fst res)) then 1 else 0)) (snd res)) as Hall
    by (intros; by eapply pot_allow).
  cbv zeta in Hall.
  destruct (decide (scope_key s = global_key route)) as [Hg|Hg];
    [|destruct (decide (scope_key s = client_key route client)) as [Hc|Hc]].
  - destruct s as [route'|route' client']; [|done]. apply global_key_inj in Hg as ->.
    cbn [scope_key scope_route scope_rate scope_burst in_scope] in *. unfold Allow. rewrite Hen, Hrate, Hburst. cbn [negb].
    specialize (Hall (global_key route) adm m Hp).
    destruct (allowLocked (global_key route) _ _ _ _ _) as [[[ok rt] re] m1]. cbn [fst snd] in Hall.
    destruct ok; cbn [negb]; [|by rewrite Z.add_0_r in Hall].
    pose proof (allowLocked_frame (client_key route client) (RequestsPerSecond (cfg route)) (Burst (cfg route))
      (MaxBuckets (cfg route)) (instant t0 n) m1 (global_key route) (global_client_key _ _ _)) as Hf.
    destruct (allowLocked (client_key route client) _ _ _ _ _) as [[[ok2 rt2] re2] m2]. cbn [snd] in Hf.
    destruct ok2; cbn [negb Allowed andb fst snd]; rewrite ?eqs_refl; [by eapply pot_frame|].
    eapply pot_refund; try done. by eapply pot_frame.
  - destruct s as [route'|route' client']; [done|]. cbn [scope_key scope_route scope_rate scope_burst in_scope] in *.
    apply client_key_inj in Hc as [-> ->]; [|done..]. unfold Allow. rewrite Hen. cbn [negb].
    pose proof (allowLocked_frame (global_key route) (GlobalRequestsPerSecond (cfg route)) (GlobalBurst (cfg route))
      (MaxBuckets (cfg route)) (instant t0 n) m (client_key route client) ltac:(done)) as Hf.
    destruct (allowLocked (global_key route) _ _ _ _ _) as [[[ok rt] re] m1]. cbn [snd] in Hf.
    assert (pot t0 H r burst cur (client_key route client) adm m1) as Hp1 by (by eapply pot_frame).
    destruct ok; cbn [negb Allowed andb fst snd]; [|by eapply pot_mono].
    rewrite Hrate, Hburst. specialize (Hall (client_key route client) adm m1 Hp1).
    destruct (allowLocked (client_key route client) _ _ _ _ _) as [[[ok2 rt2] re2] m2]. cbn [fst snd] in Hall.
    destruct ok2; cbn [negb Allowed andb fst snd]; rewrite ?eqs_refl; [done|]. rewrite Z.add_0_r in Hall.
    eapply pot_frame; [by apply refund_frame | done].
  - assert (in_scope s route client = false) as Hin.
    { destruct s as [route'|route' client']; cbn [in_scope scope_key] in *; [apply eqs_false; congruence|].
      apply andb_false_iff. destruct (decide (route = route')) as [->|]; [right|left]; apply eqs_false; congruence. }
    pose proof (Allow_frame route client (cfg route) (instant t0 n) m _ Hg Hc) as Hf.
    destruct (Allow _ _ _ _ _) as [d m']. cbn [fst snd] in *. rewrite Hin, andb_false_r.
    eapply pot_frame; [done|]. by eapply pot_mono.
Qed.

Lemma run_pot t0 H r burst s ops cur adm m : 0 <= r < 2 ^ 53 → 1 <= burst → H * second <= max_int64 → burst + r * H < 2 ^ 53 →
  burst * second <= r * ttl → ttl <= max_int64 →
  Enabled (cfg (scope_route s)) = true → scope_rate s (cfg (scope_route s)) = f_of_Z r →
  scope_burst s (cfg (scope_route s)) = burst →
  (match s with ClientScope _ client => bar ∉ client | RouteScope _ => True end) → Forall op_ok ops →
  ordered t0 H cur ops → pot t0 H r burst cur (scope_key s) adm m →
  pot t0 H r burst (end_time cur ops) (scope_key s)
    (fst (run s ops (adm, m))) (snd (run s ops (adm, m))).
Proof.
  intros Hr Hb HH Hcap Httl Hmax Hen Hrate Hburst Hs Hok. revert cur adm m.
  induction Hok as [|o ops Ho Hok IH]; intros cur adm m Hord Hp; [done|]. destruct Hord as (Hcur & Hn & Hord).
  pose proof (exec_pot t0 H r burst s o cur adm m Hr Hb HH Hcap Httl Hmax Hen Hrate Hburst Hs Ho Hcur Hn Hp) as Hp'.
  unfold run in *. cbn [foldl]. destruct (exec s o (adm, m)) as [adm' m']. specialize (IH _ _ _ Hord Hp').
  exact IH.
Qed.

(** C37: The limiter enforces its rate, in the code's own binary64 arithmetic.  Along any
    interleaving of requests of all routes and clients with cleanups, in [n]
    seconds at most [burst + rate * n] requests of a route are admitted, and, for
    the client's limits, at most as many of one client.  Conditions: the limit is
    enabled and its rate is whole; the instants are whole seconds in order,
    within a horizon on which the counts stay below 2^53; the cleanup forgets a
    bucket only after a time that refills it; and no client's name contains a
    vertical bar, which separates it from the route in the key of its bucket. *)
Theorem Allow_rate_bounded t0 H r burst s ops n : 0 <= r < 2 ^ 53 → 1 <= burst → H * second <= max_int64 →
  burst + r * H < 2 ^ 53 → burst * second <= r * ttl → ttl <= max_int64 →
  Enabled (cfg (scope_route s)) = true → scope_rate s (cfg (scope_route s)) = f_of_Z r →
  scope_burst s (cfg (scope_route s)) = burst →
  (match s with ClientScope _ client => bar ∉ client | RouteScope _ => True end) → Forall op_ok ops →
  ordered t0 H t0 ops → 0 <= n → end_time t0 ops <= instant t0 n →
  fst (run s ops (0, ∅)) <= burst + r * n.
Proof.
  intros Hr Hb HH Hcap Httl Hmax Hen Hrate Hburst Hs Hok Hord Hn Hlast.
  assert (pot t0 H r burst t0 (scope_key s) 0 ∅) as Hp0 by (unfold pot; rewrite lookup_empty; intros; nia).
  pose proof (run_pot t0 H r burst s ops t0 0 ∅ Hr Hb HH Hcap Httl Hmax Hen Hrate Hburst Hs Hok Hord Hp0) as Hp.
  by eapply pot_bound.
Qed.

(** memory is bounded.  Whatever requests arrive, the number of buckets never exceeds the configured
    maximum, which all policies share. *)
Theorem buckets_bounded M s ops adm m : (∀ route, MaxBuckets (cfg route) = M) → Size m <= M →
  Size (snd (run s ops (adm, m))) <= M.
Proof.
  intros HM. revert adm m. induction ops as [|o ops IH]; intros adm m Hm; [done|]. unfold run in *. cbn [foldl].
  assert (Size (snd (exec s o (adm, m))) <= M) as Hs.
  { destruct o as [route client now|now]; cbn [exec fst snd].
    - pose proof (Allow_size route client (cfg route) now m) as Ha. rewrite HM in Ha.
      destruct (Allow _ _ _ _ _). by apply Ha.
    - unfold cleanup_tick, Size in *.
      pose proof (map_size_filter (λ kb : str * bucket, time_sub now (seen (snd kb)) <= ttl) m). lia. }
  destruct (exec s o (adm, m)) as [adm' m']. by apply IH.
Qed.
End trace.

(** [k] tokens are available to [key] since instant [nl], in a bucket or by creating one. *)
Definition level (t0 burst : Z) (m : buckets) (key : str) (k nl n : Z) : Prop :=
  (holds t0 m key k nl ∧ 0 <= nl <= n ∧ 0 <= k <= burst) ∨ (m !! key = None ∧ k = burst ∧ nl = n).

(** The decision on every branch.  With whole tokens [g] for the route and [c] for
    the client after the refill: the route's limit refuses first and leaves the
    client's bucket alone; then the client's limit refuses and the route's token
    is given back exactly, so that a refused client does not drain the route's
    allowance; otherwise the request is admitted and takes one token of each.
    Conditions: the limits are enabled, rates and levels are whole, the instant
    is a whole second within a horizon on which the counts stay below 2^53, and
    there is room for two more buckets. *)
Theorem Allow_decides t0 H route client cfg m n gr kg ng cr kc nc :
  Enabled cfg = true → GlobalRequestsPerSecond cfg = f_of_Z gr → RequestsPerSecond cfg = f_of_Z cr →
  0 <= gr < 2 ^ 53 → 0 <= cr < 2 ^ 53 → 1 <= GlobalBurst cfg → 1 <= Burst cfg → H * second <= max_int64 →
  GlobalBurst cfg + gr * H < 2 ^ 53 → Burst cfg + cr * H < 2 ^ 53 → Size m + 2 <= MaxBuckets cfg → 0 <= n <= H →
  level t0 (GlobalBurst cfg) m (global_key route) kg ng n → level t0 (Burst cfg) m (client_key route client) kc nc n →
  let g := refilled gr (GlobalBurst cfg) kg ng n in
  let c := refilled cr (Burst cfg) kc nc n in
  let '(d, m') := Allow route client cfg (instant t0 n) m in
  if g <? 1 then Allowed d = false ∧ Scope d = "global" ∧ m' !! client_key route client = m !! client_key route client
  else if c <? 1 then Allowed d = false ∧ Scope d = "client" ∧ holds t0 m' (global_key route) g n
                      ∧ holds t0 m' (client_key route client) c n
  else Allowed d = true ∧ holds t0 m' (global_key route) (g - 1) n ∧ holds t0 m' (client_key route client) (c - 1) n.
Proof.
  intros Hen Hgr Hcr Hr1 Hr2 Hb1 Hb2 HH Hc1 Hc2 Hsz Hn Hg Hc g c.
  assert (∀ b k nl m' key, level t0 b m key k nl n → m' !! key = m !! key → Size m' + 1 <= MaxBuckets cfg → 1 <= b →
    0 <= nl <= n ∧ 0 <= k <= b ∧ (holds t0 m' key k nl ∨ (m' !! key = None ∧ Size m' < MaxBuckets cfg ∧ k = b))) as Hlev.
  { intros b k nl m' key [((bk & Hbk & Hx) & ? & ?)|(? & -> & ->)] Hm' Hs Hb.
    - split_and!; try lia. left. exists bk. by rewrite Hm'.
    - split_and!; try lia. right. split_and!; [congruence|lia|done]. }
  assert (0 <= gr * H ∧ 0 <= cr * H) as [] by nia.
  destruct (Hlev _ _ _ m _ Hg eq_refl ltac:(lia) Hb1) as (Hg1 & Hg2 & Hg3).
  unfold Allow. rewrite Hen, Hgr, Hcr. cbn [negb].
  rewrite (allowLocked_whole t0 H gr (GlobalBurst cfg) Hr1 Hb1 HH Hc1 (global_key route) _ n m kg ng) by (done || lia).
  fold g. destruct (Z.leb_spec 1 g); destruct (Z.ltb_spec g 1); try lia; cbn [negb].
  2:{ cbn [Allowed Scope]. split_and!; [done..|]. by rewrite lookup_insert_ne. }
  set (m1 := <[global_key route := _]> m).
  assert (Size m1 + 1 <= MaxBuckets cfg) as Hs1.
  { unfold m1, Size in *. rewrite map_size_insert. destruct (m !! _); unfold id; lia. }
  assert (m1 !! client_key route client = m !! client_key route client) as Hm1 by (unfold m1; by rewrite lookup_insert_ne).
  destruct (Hlev _ _ _ m1 _ Hc Hm1 Hs1 Hb2) as (Hk1 & Hk2 & Hk3).
  rewrite (allowLocked_whole t0 H cr (Burst cfg) Hr2 Hb2 HH Hc2 (client_key route client) _ n m1 kc nc) by (done || lia).
  fold c. assert (0 <= g <= GlobalBurst cfg) by (unfold g, refilled; nia).
  destruct (Z.leb_spec 1 c); destruct (Z.ltb_spec c 1); try lia; cbn [negb Allowed Scope].
  - split_and!; [done| |].
    + exists (taken t0 n (g - 1)). split; [|done]. rewrite lookup_insert_ne by done. unfold m1. by rewrite lookup_insert_eq.
    + exists (taken t0 n (c - 1)). split; [|done]. by rewrite lookup_insert_eq.
  - split_and!; [done..| |].
    + unfold refund. rewrite lookup_insert_ne by done. unfold m1. rewrite lookup_insert_eq. cbn [tokens last seen taken].
      rewrite flt_exact by lia. destruct (Z.ltb_spec (g - 1) (GlobalBurst cfg)); [|lia].
      eexists. split; [apply lookup_insert_eq|]. cbn [tokens last seen]. split; [|done].
      change f_one with (f_of_Z 1). rewrite fadd_exact by lia. f_equal. lia.
    + exists (taken t0 n c). split; [|done]. rewrite refund_frame by done. by rewrite lookup_insert_eq.
Qed.
End limiter.

(** *** Witnesses: one request per second and client with a burst of two *)

Definition sample_fm : FloatMath := {| pow := λ x _, x; int64_undefined := λ _, 0 |}.
Definition sample_cfg : RateLimitConfig :=
  mkRateCfg true (f_of_Z 1) 2 (f_of_Z 5) 10 minute (10 * second) 100.
Definition sample_ops : list op :=
  Request "r" "a" 0 :: Request "r" "a" 0 :: Request "r" "a" 0 :: Request "r" "b" 0 :: Request "r" "a" second
  :: Tick (2 * second) :: [].

(** The third request of the instant is refused, the one a second later admitted. *)
Lemma Allow_rate_bounded_witness :
  fst (run (FM := sample_fm) (λ _, sample_cfg) (10 * second) (ClientScope "r" "a") sample_ops (0, ∅)) = 3
  ∧ fst (run (FM := sample_fm) (λ _, sample_cfg) (10 * second) (ClientScope "r" "a") sample_ops (0, ∅)) <= 2 + 1 * 2.
Proof.
  split; [vm_compute; reflexivity|].
  apply (Allow_rate_bounded (FM := sample_fm) (λ _, sample_cfg) (10 * second) 0 100 1 2 (ClientScope "r" "a") sample_ops 2);
    try (vm_compute; intuition discriminate); try reflexivity.
  - cbv [bar]. apply (bool_decide_unpack _). vm_compute. exact I.
  - unfold sample_ops. repeat constructor; try (apply (bool_decide_unpack _); vm_compute; exact I).
  - unfold sample_ops. cbn [ordered op_time]. unfold instant.
    repeat split; try (vm_compute; discriminate); try (exists 0; split; [lia|vm_compute; reflexivity]).
    exists 1. split; [lia|vm_compute; reflexivity].
Defined.

Lemma buckets_bounded_witness :
  Size (snd (run (FM := sample_fm) (λ _, sample_cfg) (10 * second) (RouteScope "r") sample_ops (0, ∅))) <= 100.
Proof.
  apply (buckets_bounded (FM := sample_fm) (λ _, sample_cfg) (10 * second) 100); [reflexivity | vm_compute; discriminate].
Defined.

(** A client that has used up its burst is refused, and the route keeps its ten tokens. *)
Definition spent : buckets := <[client_key "r" "a" := taken 0 0 0]> ∅.
Lemma Allow_decides_witness :
  let '(d, m') := Allow (FM := sample_fm) "r" "a" sample_cfg 0 spent in
  Allowed d = false ∧ Scope d = "client" ∧ holds 0 m' (global_key "r") 10 0.
Proof.
  pose proof (Allow_decides (FM := sample_fm) 0 100 "r" "a" sample_cfg spent 0 5 10 0 1 0 0 eq_refl eq_refl eq_refl
    ltac:(lia) ltac:(lia) ltac:(vm_compute; discriminate) ltac:(vm_compute; discriminate) ltac:(vm_compute; discriminate)
    ltac:(vm_compute; reflexivity) ltac:(vm_compute; reflexivity) ltac:(vm_compute; discriminate) ltac:(lia)
    ltac:(right; split; [vm_compute; reflexivity | split; reflexivity])
    ltac:(left; split; [exists (taken 0 0 0); split; [vm_compute; reflexivity | split; [reflexivity | split; reflexivity]]
                       | vm_compute; intuition discriminate])) as H.
  change (instant 0 0) with 0 in H. destruct (Allow _ _ _ _ _) as [d m'].
  change (refilled 5 (GlobalBurst sample_cfg) 10 0 0) with 10 in H. change (refilled 1 (Burst sample_cfg) 0 0 0) with 0 in H.
  cbn in H. destruct H as (H1 & H2 & H3 & _). split; [exact H1 | split; [exact H2 | exact H3]].
Defined.
End Limiter.

Module BanManager.

Record AutoBanConfig := mkBanCfg {
  Enabled : bool;
  ViolationThreshold : Z;
  Window : duration;
  BanDuration : duration;
  MaxTrackedClients : Z;
}.

Record violation := mkViolation {
  times : list time;
  bannedUntil : time;
  banViolations : Z;
  seen : time;
  window : duration;
}.

Record BanManager := mkManager { clients : gmap str violation; lastCleanup : time }.

Definition NewBanManager : BanManager := mkManager ∅ time_zero.

Definition active (now : time) (v : violation) : bool := time_before now (bannedUntil v).
(** A ban that has run out and left no pending violations. *)
Definition completed (v : violation) : bool := (len (times v) =? 0) && negb (time_is_zero (bannedUntil v)).

Definition with_clients (f : gmap str violation → gmap str violation) (m : BanManager) : BanManager :=
  mkManager (f (clients m)) (lastCleanup m).

Definition IsBanned (client : str) (now : time) (m : BanManager) : (bool * duration) * BanManager :=
  match clients m !! client with
  | None => ((false, 0), m)
  | Some v =>
      if negb (active now v) then
        ((false, 0), if completed v then with_clients (delete client) m else m)
      else ((true, time_sub (bannedUntil v) now),
            with_clients <[client := mkViolation (times v) (bannedUntil v) (banViolations v) now (window v)]> m)
  end.

Definition recent (cutoff : time) (ts : list time) : list time := filter (λ t, ¬ t < cutoff) ts.

(** What the sweep makes of one client: [None] when it is forgotten. *)
Definition sweep (cfg : AutoBanConfig) (now : time) (v : violation) : option violation :=
  if active now v then Some v
  else
    let w := if window v <=? 0 then Window cfg else window v in
    let kept := recent (time_add now (- w)) (times v) in
    if (len kept =? 0) && (w <? time_sub now (seen v)) then None
    else Some (mkViolation kept (bannedUntil v) (banViolations v) (seen v) (window v)).

Definition cleanup_interval (cfg : AutoBanConfig) : duration :=
  let interval := Z.quot (Window cfg) 2 in
  let interval := if interval <? second then second else interval in
  if minute <? interval then minute else interval.

Definition cleanupInactiveLocked (cfg : AutoBanConfig) (now : time) (m : BanManager) : BanManager :=
  let elapsed := time_sub now (lastCleanup m) in
  if negb (time_is_zero (lastCleanup m)) && (0 <=? elapsed) && (elapsed <? cleanup_interval cfg) then m
  else mkManager (omap (sweep cfg now) (clients m)) now.

(** [enum] lists a map in the order the runtime visits it. *)
Section enum.
Context (enum : gmap str violation → list (str * violation)).

Definition oldest_step (now : time) (acc : str * time) (kv : str * violation) : str * time :=
  if active now (snd kv) then acc
  else if (fst acc =?s []) || time_before (seen (snd kv)) (snd acc) then (fst kv, seen (snd kv)) else acc.

Definition evictOldestInactiveLocked (now : time) (m : BanManager) : bool * BanManager :=
  let '(oldestKey, _) := foldl (oldest_step now) ([], time_zero) (enum (clients m)) in
  if negb (oldestKey =?s []) then (true, with_clients (delete oldestKey) m) else (false, m).

Definition record_entry (cfg : AutoBanConfig) (now : time) (v : violation) : (bool * duration) * violation :=
  let ts := recent (time_add now (- Window cfg)) (times v) ++ [now] in
  if ViolationThreshold cfg <=? len ts
  then ((true, BanDuration cfg), mkViolation [] (time_add now (BanDuration cfg)) (len ts) now (Window cfg))
  else ((false, 0), mkViolation ts (bannedUntil v) (banViolations v) now (Window cfg)).

Definition no_violation : violation := mkViolation [] time_zero 0 time_zero 0.

Definition RecordViolation (client : str) (cfg : AutoBanConfig) (now : time) (m : BanManager)
    : (bool * duration) * BanManager :=
  if negb (Enabled cfg) || (client =?s []) then ((false, 0), m)
  else
    let m := cleanupInactiveLocked cfg now m in
    let found :=
      match clients m !! client with
      | Some v => Some (v, m)
      | None =>
          if MaxTrackedClients cfg <=? Z.of_nat (size (clients m)) then
            let '(evicted, m) := evictOldestInactiveLocked now m in
            if evicted then Some (no_violation, m) else None
          else Some (no_violation, m)
      end in
    match found with
    | None => ((false, 0), m)
    | Some (v, m) =>
        let '(res, v) := record_entry cfg now v in (res, with_clients <[client := v]> m)
    end.

End enum.

Definition keep_listed (now : time) (kv : str * violation) : bool := active now (snd kv) || negb (completed (snd kv)).

(** [List] and [ActiveCount] drop the completed bans they meet. *)
Record Ban := mkBan { Client : str; BannedUntil : time; Violations : Z }.

(** The order of the listing: by client. *)
Definition by_client (a b : Ban) : Prop := str_ltb (Client b) (Client a) = false.
#[global] Instance by_client_dec : RelDecision by_client := λ a b, decide (_ = _).

Definition List_ (now : time) (m : BanManager) : list Ban * BanManager :=
  (merge_sort by_client ((λ kv : str * violation, mkBan (fst kv) (bannedUntil (snd kv)) (banViolations (snd kv)))
     <$> map_to_list (filter (λ kv, active now (snd kv) = true) (clients m))),
   with_clients (filter (λ kv, keep_listed now kv = true)) m).
Definition ActiveCount (now : time) (m : BanManager) : Z * BanManager :=
  (Z.of_nat (size (filter (λ kv, active now (snd kv) = true) (clients m))),
   with_clients (filter (λ kv, keep_listed now kv = true)) m).

Definition Remove (client : str) (m : BanManager) : bool * BanManager :=
  (bool_decide (is_Some (clients m !! client)), with_clients (delete client) m).
Definition Clear (m : BanManager) : Z * BanManager := (Z.of_nat (size (clients m)), mkManager ∅ (lastCleanup m)).

(** ** The sweep and the eviction spare active bans *)

Lemma cleanup_lookup cfg now m c :
  clients (cleanupInactiveLocked cfg now m) !! c = clients m !! c
  ∨ clients (cleanupInactiveLocked cfg now m) !! c = clients m !! c ≫= sweep cfg now.
Proof. unfold cleanupInactiveLocked. destruct (_ && _); [by left|right]. cbn [clients]. by rewrite lookup_omap. Qed.

Lemma cleanup_active cfg now m c v : clients m !! c = Some v → active now v = true →
  clients (cleanupInactiveLocked cfg now m) !! c = Some v.
Proof.
  intros Hv Ha. destruct (cleanup_lookup cfg now m c) as [->| ->]; rewrite Hv; [done|]. simpl. unfold sweep. by rewrite Ha.
Qed.

Lemma cleanup_size cfg now m : (size (clients (cleanupInactiveLocked cfg now m)) <= size (clients m))%nat.
Proof.
  unfold cleanupInactiveLocked. destruct (_ && _); [done|]. cbn [clients].
  rewrite <- !size_dom. apply subseteq_size, dom_omap_subseteq.
Qed.

Section enum.
Context (enum : gmap str violation → list (str * violation)) (Henum : ∀ m, enum m ≡ₚ map_to_list m).

Lemma oldest_inactive now l acc :
  let k := fst (foldl (oldest_step now) acc l) in
  k = fst acc ∨ ∃ v, (k, v) ∈ l ∧ active now v = false.
Proof.
  revert acc. induction l as [|[c v] l IH]; intros acc; [by left|]. cbn [foldl].
  destruct (IH (oldest_step now acc (c, v))) as [Hk|(v' & Hin & Ha)]; [|right; exists v'; split; [by right|done]].
  cbv zeta. rewrite Hk. unfold oldest_step. cbn [fst snd]. destruct (active now v) eqn:Ea; [by left|].
  destruct (_ || _); [|by left]. right. exists v. split; [by left|done].
Qed.

Lemma evict_spec now m :
  let '(ok, m') := evictOldestInactiveLocked enum now m in
  if ok then ∃ k v, clients m !! k = Some v ∧ active now v = false ∧ m' = with_clients (delete k) m else m' = m.
Proof.
  unfold evictOldestInactiveLocked. pose proof (oldest_inactive now (enum (clients m)) ([], time_zero)) as Hk.
  destruct (foldl _ _ _) as [k t]. cbn [fst] in Hk. destruct (k =?s []) eqn:E; boolify; cbn [negb]; [done|].
  destruct Hk as [Hk|(v & Hin & Ha)]; [done|]. exists k, v. split_and!; [|done..].
  rewrite Henum in Hin. by apply elem_of_map_to_list.
Qed.

Lemma record_entry_spec cfg now v :
  fst (record_entry cfg now v)
  = (if ViolationThreshold cfg <=? len (recent (time_add now (- Window cfg)) (times v)) + 1 then (true, BanDuration cfg) else (false, 0))
  ∧ times (snd (record_entry cfg now v))
    = (if ViolationThreshold cfg <=? len (recent (time_add now (- Window cfg)) (times v)) + 1 then []
       else recent (time_add now (- Window cfg)) (times v) ++ [now])
  ∧ bannedUntil (snd (record_entry cfg now v))
    = (if ViolationThreshold cfg <=? len (recent (time_add now (- Window cfg)) (times v)) + 1
       then time_add now (BanDuration cfg) else bannedUntil v).
Proof.
  unfold record_entry. rewrite len_app. change (len [now]) with 1. by destruct (_ <=? _).
Qed.

(** ** Memory *)

Lemma Record_size client cfg now m M : MaxTrackedClients cfg = M → Z.of_nat (size (clients m)) <= M →
  Z.of_nat (size (clients (snd (RecordViolation enum client cfg now m)))) <= M.
Proof.
  intros HM Hm. unfold RecordViolation. destruct (_ || _); [done|].
  pose proof (cleanup_size cfg now m) as Hc. set (m1 := cleanupInactiveLocked cfg now m) in *.
  rewrite HM. destruct (clients m1 !! client) as [v|] eqn:Ev.
  - destruct (record_entry cfg now v) as [res v']. cbn [snd with_clients clients]. rewrite map_size_insert, Ev. unfold id. lia.
  - destruct (Z.leb_spec M (Z.of_nat (size (clients m1)))).
    + pose proof (evict_spec now m1) as He. destruct (evictOldestInactiveLocked enum now m1) as [[] m2]; [|by subst; cbn [snd]; lia].
      destruct He as (k & v & Hk & _ & ->). destruct (record_entry _ _ _) as [res v']. cbn [snd with_clients clients].
      rewrite map_size_insert, map_size_delete, Hk. assert (size (clients m1) ≠ 0%nat) as Hne.
      { intros H0. apply map_size_empty_iff in H0. by rewrite H0, lookup_empty in Hk. }
      destruct (delete k _ !! client); unfold id; lia.
    + destruct (record_entry _ _ _) as [res v']. cbn [snd with_clients clients]. rewrite map_size_insert, Ev. lia.
Qed.

(** ** Traces *)

Inductive op :=
  | Violation (client : str) (cfg : AutoBanConfig) (now : time)
  | Query (client : str) (now : time)
  | Listed (now : time)
  | Counted (now : time).

Definition op_time (o : op) : time :=
  match o with Violation _ _ now => now | Query _ now => now | Listed now => now | Counted now => now end.

Definition exec (o : op) (m : BanManager) : BanManager :=
  match o with
  | Violation client cfg now => snd (RecordViolation enum client cfg now m)
  | Query client now => snd (IsBanned client now m)
  | Listed now => snd (List_ now m)
  | Counted now => snd (ActiveCount now m)
  end.
Definition run (ops : list op) (m : BanManager) : BanManager := foldl (λ m o, exec o m) m ops.

(** The client is banned at least until [B]. *)
Definition banned_till (B : time) (client : str) (m : BanManager) : Prop :=
  ∃ v, clients m !! client = Some v ∧ B <= bannedUntil v.

Lemma banned_active B client m now : banned_till B client m → now < B →
  ∃ v, clients m !! client = Some v ∧ B <= bannedUntil v ∧ active now v = true.
Proof. intros (v & Hv & HB) Hn. exists v. split_and!; [done..|]. unfold active, time_before. apply Z.ltb_lt. lia. Qed.

Lemma filter_banned B client m now : banned_till B client m → now < B →
  banned_till B client (with_clients (filter (λ kv, keep_listed now kv = true)) m).
Proof.
  intros Hb Hn. destruct (banned_active B client m now Hb Hn) as (v & Hv & HB & Ha). exists v. split; [|done].
  cbn [with_clients clients]. apply map_lookup_filter_Some_2; [done|]. unfold keep_listed. cbn [snd]. by rewrite Ha.
Qed.

Lemma Record_banned B client client' cfg now m : banned_till B client m → now < B →
  (client' = client → B <= now + BanDuration cfg) →
  banned_till B client (snd (RecordViolation enum client' cfg now m)).
Proof.
  intros Hb Hn Hd. destruct (banned_active B client m now Hb Hn) as (v & Hv & HB & Ha).
  unfold RecordViolation. destruct (_ || _); [done|].
  pose proof (cleanup_active cfg now m client v Hv Ha) as Hc. set (m1 := cleanupInactiveLocked cfg now m) in *.
  destruct (decide (client' = client)) as [->|Hne].
  { rewrite Hc. pose proof (record_entry_spec cfg now v) as (_ & _ & Hu).
    destruct (record_entry cfg now v) as [res v']. exists v'. cbn [snd with_clients clients] in *.
    split; [by apply lookup_insert_eq|]. rewrite Hu. specialize (Hd eq_refl). case_goal; [unfold time_add; lia | done]. }
  destruct (clients m1 !! client') as [v1|].
  { destruct (record_entry cfg now v1) as [res v']. exists v. cbn [snd with_clients clients]. by rewrite lookup_insert_ne. }
  destruct (_ <=? _).
  - pose proof (evict_spec now m1) as He. destruct (evictOldestInactiveLocked enum now m1) as [[] m2]; [|subst; by exists v].
    destruct He as (k & vk & Hk & Hka & ->). destruct (record_entry _ _ _) as [res v']. exists v.
    cbn [snd with_clients clients]. rewrite lookup_insert_ne by done. rewrite lookup_delete_ne; [done|]. intros ->. congruence.
  - destruct (record_entry _ _ _) as [res v']. exists v. cbn [snd with_clients clients]. by rewrite lookup_insert_ne.
Qed.

Lemma exec_banned B client o m : banned_till B client m → op_time o < B →
  (∀ cfg now, o = Violation client cfg now → B <= now + BanDuration cfg) → banned_till B client (exec o m).
Proof.
  intros Hb Hn Hd. destruct o as [client' cfg now|client' now|now|now]; cbn [exec op_time] in *.
  - apply Record_banned; [done..|]. intros ->. by apply Hd.
  - destruct (banned_active B client m now Hb Hn) as (v & Hv & HB & Ha). unfold IsBanned.
    destruct (clients m !! client') as [v'|] eqn:Ev'; [|done].
    destruct (negb (active now v')) eqn:Ea'; cbn [snd].
    + destruct (completed v'); [|done]. exists v. cbn [with_clients clients]. rewrite lookup_delete_ne; [done|].
      intros ->. rewrite Hv in Ev'. injection Ev' as ->. by rewrite Ha in Ea'.
    + destruct (decide (client' = client)) as [->|].
      * rewrite Hv in Ev'. injection Ev' as <-. eexists. cbn [with_clients clients]. split; [by apply lookup_insert_eq|done].
      * exists v. cbn [with_clients clients]. by rewrite lookup_insert_ne.
  - by apply filter_banned.
  - by apply filter_banned.
Qed.

(** a ban is never cut short.  After [RecordViolation] has banned a client for [d], every query before
    the ban ends reports the client as banned, for no less than the time that is left — whatever
    violations of other clients are recorded in between, even when the bounded table overflows and
    entries must be evicted, and whatever sweeps, listings and queries happen. *)
Theorem ban_holds client cfg t m d m1 ops now :
  RecordViolation enum client cfg t m = ((true, d), m1) → d <= max_int64 →
  Forall (λ o, t <= op_time o < t + d ∧
    ∀ cfg' now', o = Violation client cfg' now' → d <= BanDuration cfg') ops →
  t <= now < t + d →
  ∃ left, fst (IsBanned client now (run ops m1)) = (true, left) ∧ t + d - now <= left.
Proof.
  intros Hrec Hd Hops Hnow.
  assert (banned_till (t + d) client m1) as Hb.
  { revert Hrec. unfold RecordViolation. destruct (_ || _); [done|]. set (m2 := cleanupInactiveLocked cfg t m).
    destruct (match clients m2 !! client with Some _ => _ | None => _ end) as [[v m3]|]; [|done].
    pose proof (record_entry_spec cfg t v) as (Hf & _ & Hu).
    destruct (record_entry cfg t v) as [res v']. cbn [fst snd] in *. intros [= -> <-]. exists v'.
    cbn [with_clients clients]. split; [by apply lookup_insert_eq|]. rewrite Hu. destruct (_ <=? _); [|done].
    injection Hf as ->. unfold time_add. lia. }
  assert (banned_till (t + d) client (run ops m1)) as Hr.
  { clear Hrec Hnow. revert m1 Hb. induction Hops as [|o ops [Ho Hc] Hops IH]; intros m1 Hb; [done|]. apply IH.
    apply exec_banned; [done|lia|]. intros cfg' now' ->. specialize (Hc _ _ eq_refl). cbn [op_time] in Ho. lia. }
  destruct (banned_active _ _ _ now Hr ltac:(lia)) as (v & Hv & HB & Ha). unfold IsBanned. rewrite Hv, Ha. cbn [negb fst].
  eexists. split; [done|]. unfold time_sub. repeat case_goal; boolify; unfold max_int64, min_int64 in *; lia.
Qed.

(** the table of tracked clients is bounded: however many addresses an attacker uses, no more than the
    configured maximum are tracked. *)
Theorem tracked_bounded M ops m : 
  Forall (λ o, ∀ client cfg now, o = Violation client cfg now → MaxTrackedClients cfg = M) ops →
  Z.of_nat (size (clients m)) <= M → Z.of_nat (size (clients (run ops m))) <= M.
Proof.
  intros Hops. revert m. induction Hops as [|o ops Ho Hops IH]; intros m Hm; [done|]. apply IH.
  assert (∀ now, Z.of_nat (size (clients (with_clients (filter (λ kv, keep_listed now kv = true)) m))) <= M) as Hf.
  { intros now. cbn [with_clients clients]. pose proof (map_size_filter (λ kv, keep_listed now kv = true) (clients m)). lia. }
  destruct o as [client cfg now|client now|now|now]; cbn [exec]; [|clear Ho|apply Hf..].
  - apply Record_size; [by eapply Ho | done].
  - unfold IsBanned. destruct (clients m !! client) as [v|] eqn:Ev; [|done]. destruct (negb _); cbn [snd].
    + destruct (completed v); [|done]. cbn [with_clients clients]. rewrite map_size_delete, Ev. lia.
    + cbn [with_clients clients]. rewrite map_size_insert, Ev. unfold id. lia.
Qed.

(** The violations of a client that count at [now]. *)
Definition pending (cfg : AutoBanConfig) (now : time) (client : str) (m : BanManager) : Z :=
  match clients m !! client with Some v => len (recent (time_add now (- Window cfg)) (times v)) | None => 0 end.

Lemma recent_idem c ts : recent c (recent c ts) = recent c ts.
Proof. unfold recent. rewrite list_filter_filter. apply list_filter_iff. naive_solver. Qed.

Lemma sweep_pending cfg now v : window v = Window cfg → 0 < Window cfg →
  match sweep cfg now v with
  | Some v' => recent (time_add now (- Window cfg)) (times v') = recent (time_add now (- Window cfg)) (times v)
  | None => recent (time_add now (- Window cfg)) (times v) = []
  end.
Proof.
  intros Hw Hpos. unfold sweep. destruct (active now v); [done|]. rewrite Hw. destruct (Z.leb_spec (Window cfg) 0); [lia|].
  set (kept := recent _ (times v)). destruct (_ && _) eqn:E; [|apply recent_idem].
  apply andb_true_iff in E as [E _]. boolify. unfold len in E. by apply length_zero_iff_nil; lia.
Qed.

(** a client is banned exactly when it reaches the threshold within the window.  For a client that is
    tracked, or for which there is room, [RecordViolation] bans for the configured time if the violations
    that lie inside the window, this one included, are at least the threshold, and otherwise just counts
    it; the count starts afresh after a ban, and the periodic sweep never loses one that still counts. *)
Theorem RecordViolation_threshold client cfg now m :
  Enabled cfg = true → client ≠ [] → 0 < Window cfg →
  (∀ v, clients m !! client = Some v → window v = Window cfg) →
  Z.of_nat (size (clients m)) < MaxTrackedClients cfg →
  let n := pending cfg now client m + 1 in
  let '(res, m') := RecordViolation enum client cfg now m in
  res = (if ViolationThreshold cfg <=? n then (true, BanDuration cfg) else (false, 0))
  ∧ pending cfg now client m' = (if ViolationThreshold cfg <=? n then 0 else n).
Proof.
  intros Hen Hne Hpos Hw Hroom n. unfold RecordViolation. rewrite Hen, (proj2 (eqs_false client [])) by done. cbn [negb orb].
  pose proof (cleanup_size cfg now m) as Hs. set (m1 := cleanupInactiveLocked cfg now m) in *.
  assert (match clients m1 !! client with
          | Some v => len (recent (time_add now (- Window cfg)) (times v)) + 1 = n
          | None => 1 = n end) as Hn.
  { unfold n, pending. destruct (cleanup_lookup cfg now m client) as [Hc|Hc]; fold m1 in Hc; rewrite Hc.
    - by destruct (clients m !! client).
    - destruct (clients m !! client) as [v|] eqn:Ev; [|done]. simpl.
      pose proof (sweep_pending cfg now v (Hw v eq_refl) Hpos) as Hsw. destruct (sweep cfg now v) as [v'|]; by rewrite Hsw. }
  assert (∀ v m2, len (recent (time_add now (- Window cfg)) (times v)) + 1 = n →
    let '(res, m') := (let '(res, v) := record_entry cfg now v in (res, with_clients <[client:=v]> m2)) in
    res = (if ViolationThreshold cfg <=? n then (true, BanDuration cfg) else (false, 0))
    ∧ pending cfg now client m' = (if ViolationThreshold cfg <=? n then 0 else n)) as Hgo.
  { intros v m2 Hv. pose proof (record_entry_spec cfg now v) as (Hf & Ht & _). rewrite Hv in Hf, Ht.
    destruct (record_entry cfg now v) as [res v']. cbn [fst snd] in *. split; [done|].
    unfold pending. cbn [with_clients clients]. rewrite lookup_insert_eq, Ht. destruct (_ <=? _); [done|].
    unfold recent at 1. rewrite filter_app. fold (recent (time_add now (- Window cfg)) (recent (time_add now (- Window cfg)) (times v))).
    rewrite recent_idem, filter_cons_True, filter_nil, len_app by (unfold time_add; lia). exact Hv. }
  destruct (clients m1 !! client) as [v|]; [by apply Hgo|].
  destruct (Z.leb_spec (MaxTrackedClients cfg) (Z.of_nat (size (clients m1)))); [lia|]. by apply Hgo.
Qed.
End enum.

(** *** Witnesses: two violations within a minute ban for a minute *)

Definition sample_ban_cfg : AutoBanConfig := mkBanCfg true 2 minute minute 1.
Definition one_violation : BanManager :=
  snd (RecordViolation map_to_list "a" sample_ban_cfg (100 * second) NewBanManager).
Definition two_violations : BanManager := snd (RecordViolation map_to_list "a" sample_ban_cfg (110 * second) one_violation).

(** Another client's violation cannot evict the ban although only one client is tracked. *)
Lemma ban_holds_witness : ∃ left,
  fst (IsBanned "a" (130 * second) (run map_to_list [Violation "b" sample_ban_cfg (120 * second)] two_violations)) = (true, left)
  ∧ 110 * second + minute - 130 * second <= left.
Proof.
  refine (ban_holds map_to_list (λ _, reflexivity _) "a" sample_ban_cfg (110 * second) one_violation minute two_violations
    [Violation "b" sample_ban_cfg (120 * second)] (130 * second) _ _ _ _).
  - vm_compute. reflexivity.
  - vm_compute. discriminate.
  - constructor; [|constructor]. split; [vm_compute; intuition discriminate|]. intros c n H. discriminate H.
  - vm_compute. intuition discriminate.
Defined.

Lemma tracked_bounded_witness :
  Z.of_nat (size (clients (run map_to_list [Violation "a" sample_ban_cfg 1; Violation "b" sample_ban_cfg 2] NewBanManager))) <= 1.
Proof.
  apply (tracked_bounded map_to_list (λ _, reflexivity _) 1); [|vm_compute; discriminate].
  constructor; [|constructor; [|constructor]]; intros c cfg n H; injection H as _ <- _; reflexivity.
Defined.

Lemma RecordViolation_threshold_witness :
  fst (RecordViolation map_to_list "a" (mkBanCfg true 2 minute minute 2) (110 * second) one_violation) = (true, minute).
Proof.
  pose proof (RecordViolation_threshold map_to_list "a" (mkBanCfg true 2 minute minute 2) (110 * second) one_violation
    eq_refl ltac:(discriminate) ltac:(vm_compute; reflexivity)
    ltac:(intros v Hv; vm_compute in Hv; injection Hv as <-; reflexivity) ltac:(vm_compute; reflexivity)) as H.
  cbv zeta in H. destruct (RecordViolation _ _ _ _ _) as [res m']. destruct H as [H _]. cbn [fst]. rewrite H.
  vm_compute. reflexivity.
Defined.
End BanManager.
