(* ===== verification/Admission.v ===== *)
(** * Concurrency admission: apps/securityedge/internal/admission/limiter.go

    The limiter counts the requests in flight, in total and per client.  A
    successful [Acquire] returns a closure guarded by [sync.Once]: here a ticket,
    which [release] hands back; calling it again does nothing.  The mutex makes
    each call one step. *)

From S2P Require Import Prelude GoStr.

Module Admission.

Record Limiter := mkLimiter { global : Z; perClient : gmap str Z }.
Definition New : Limiter := mkLimiter 0 ∅.

Definition active (client : str) (l : Limiter) : Z := default 0 (perClient l !! client).

(** [inl] is the reason of a refusal. *)
Definition Acquire (client : str) (globalLimit clientLimit : Z) (l : Limiter) : str + Limiter :=
  if globalLimit <=? global l then inl (lit "global_concurrency")
  else if clientLimit <=? active client l then inl (lit "client_concurrency")
  else inr (mkLimiter (global l + 1) (<[client := active client l + 1]> (perClient l))).

(** The body of the returned closure, under its [Once]. *)
Definition release_once (client : str) (l : Limiter) : Limiter :=
  let n := active client l - 1 in
  mkLimiter (global l - 1) (if n <=? 0 then delete client (perClient l) else <[client := n]> (perClient l)).

Record Snapshot_ := mkSnapshot { GlobalActive : Z; ClientActive : option (gmap str Z); TrackedClients : Z }.
Definition Snapshot (includeClients : bool) (l : Limiter) : Snapshot_ :=
  mkSnapshot (global l) (if includeClients then Some (perClient l) else None) (Z.of_nat (size (perClient l))).

(** ** The limiter and the tickets that have not been handed back *)

Record system := mkSystem { lim : Limiter; held : gmap nat str; issued : nat }.
Definition init : system := mkSystem New ∅ 0.

Definition acquire (client : str) (globalLimit clientLimit : Z) (s : system) : option nat * system :=
  match Acquire client globalLimit clientLimit (lim s) with
  | inl _ => (None, s)
  | inr l => (Some (issued s), mkSystem l (<[issued s := client]> (held s)) (S (issued s)))
  end.

Definition release (ticket : nat) (s : system) : system :=
  match held s !! ticket with
  | Some client => mkSystem (release_once client (lim s)) (delete ticket (held s)) (issued s)
  | None => s
  end.

Inductive step : system → system → Prop :=
  | step_acquire client gl cl s : step s (snd (acquire client gl cl s))
  | step_release ticket s : step s (release ticket s).

(** The tickets of one client. *)
Definition holding (client : str) (s : system) : Z :=
  Z.of_nat (size (filter (λ kv : nat * str, snd kv = client) (held s))).

Record Inv (s : system) : Prop := {
  inv_global : global (lim s) = Z.of_nat (size (held s));
  inv_client : ∀ c, perClient (lim s) !! c = if holding c s =? 0 then None else Some (holding c s);
  inv_fresh : ∀ t, (issued s <= t)%nat → held s !! t = None;
}.

Lemma inv_active s c : Inv s → active c (lim s) = holding c s.
Proof. intros [_ H _]. unfold active. rewrite H. destruct (Z.eqb_spec (holding c s) 0); [done|done]. Qed.

Lemma holding_insert t c (h : gmap nat str) c' : h !! t = None →
  size (filter (λ kv : nat * str, snd kv = c') (<[t := c]> h))
  = (size (filter (λ kv : nat * str, snd kv = c') h) + if decide (c = c') then 1 else 0)%nat.
Proof.
  intros Ht. case_decide as Hc.
  - rewrite map_filter_insert_True by done. rewrite map_size_insert_None; [lia|].
    apply map_lookup_filter_None_2. by left.
  - rewrite map_filter_insert_False by done. rewrite delete_id by done. lia.
Qed.

Lemma Inv_init : Inv init.
Proof. split; [done| |done]. intros c. done. Qed.

Lemma Inv_step s s' : step s s' → Inv s → Inv s'.
Proof.
  intros [client gl cl s0|ticket s0] HI.
  - pose proof (inv_active s0 client HI) as Ha. destruct HI as [Hg Hc Hf]. unfold acquire, Acquire.
    destruct (gl <=? _); [done|]. destruct (cl <=? _); [done|]. cbn [snd].
    pose proof (Hf (issued s0) ltac:(done)) as Hfr. split; cbn [lim held issued global perClient].
    + rewrite map_size_insert_None by done. lia.
    + intros c. unfold holding in *. cbn [held]. rewrite holding_insert by done. rewrite Ha.
      rewrite lookup_insert. destruct (decide (client = c)) as [->|Hne].
      * destruct (Z.eqb_spec (Z.of_nat (size (filter (λ kv : nat * str, snd kv = c) (held s0)) + 1)) 0); [lia|f_equal; lia].
      * by rewrite Nat.add_0_r, Hc.
    + intros t Ht. rewrite lookup_insert_ne by lia. apply Hf. lia.
  - unfold release. destruct (held s0 !! ticket) as [client|] eqn:Et; [|done].
    pose proof (inv_active s0 client HI) as Ha. destruct HI as [Hg Hc Hf].
    assert (∀ c, holding c s0 = Z.of_nat (size (filter (λ kv : nat * str, snd kv = c) (delete ticket (held s0))))
      + if decide (client = c) then 1 else 0) as Hh.
    { intros c. unfold holding. rewrite <- (insert_delete_id (held s0) ticket client) at 1 by done.
      rewrite holding_insert by apply lookup_delete_eq. case_decide; lia. }
    split; cbn [lim held issued global perClient release_once].
    + rewrite Hg, map_size_delete_Some by done. assert (size (held s0) ≠ 0%nat); [|lia].
      intros H0. apply map_size_empty_iff in H0. by rewrite H0, lookup_empty in Et.
    + intros c. unfold holding at 1 2. cbn [held]. rewrite Ha. specialize (Hh c) as Hhc. specialize (Hc c).
      destruct (decide (client = c)) as [->|Hne].
      * replace (Z.of_nat (size (filter (λ kv : nat * str, snd kv = c) (delete ticket (held s0))))) with (holding c s0 - 1) by lia.
        destruct (Z.leb_spec (holding c s0 - 1) 0); destruct (Z.eqb_spec (holding c s0 - 1) 0); try lia;
          [by rewrite lookup_delete_eq | by rewrite lookup_insert_eq].
      * rewrite Z.add_0_r in Hhc. rewrite <- Hhc, <- Hc.
        destruct (_ <=? 0); [by rewrite lookup_delete_ne | by rewrite lookup_insert_ne].
    + intros t Ht. rewrite lookup_delete_None. right. by apply Hf.
Qed.

Lemma Inv_steps s : rtc step init s → Inv s.
Proof.
  intros H. assert (∀ s0, Inv s0 → rtc step s0 s → Inv s) as Hgen; [|by apply (Hgen init Inv_init)].
  clear H. intros s0 H0 Hs. revert H0. induction Hs as [|s1 s2 s3 H1 _ IH]; [done|]. intros H0. by apply IH, (Inv_step s1).
Qed.

(** the counters are exact.  After any interleaving of acquisitions and releases — releases repeated,
    in any order, or missing — the global count is the number of tickets still held, each client's count
    is the number of its tickets, and no entry is kept for a client that holds none. *)
Theorem admission_exact s : rtc step init s →
  global (lim s) = Z.of_nat (size (held s))
  ∧ (∀ c, active c (lim s) = holding c s)
  ∧ (∀ c, is_Some (perClient (lim s) !! c) ↔ 0 < holding c s).
Proof.
  intros Hs%Inv_steps. split_and!; [apply Hs | intros c; by apply inv_active|].
  intros c. rewrite (inv_client s Hs). unfold holding. destruct (Z.eqb_spec (Z.of_nat (size (filter (λ kv : nat * str, snd kv = c) (held s)))) 0).
  - split; [intros [? ?]; done | lia].
  - split; [lia | by eexists].
Qed.

(** admission is decided by the limits alone.  In a reachable state a request is admitted exactly when
    fewer than [globalLimit] requests are in flight and fewer than [clientLimit] of this client; the
    refusal names the limit, the global one first, and changes nothing; an admission counts one ticket. *)
Theorem Acquire_decides s client globalLimit clientLimit : rtc step init s →
  match Acquire client globalLimit clientLimit (lim s) with
  | inl reason =>
      if globalLimit <=? Z.of_nat (size (held s)) then reason = "global_concurrency"
      else clientLimit <= holding client s ∧ reason = "client_concurrency"
  | inr l =>
      Z.of_nat (size (held s)) < globalLimit ∧ holding client s < clientLimit
      ∧ global l = global (lim s) + 1 ∧ active client l = active client (lim s) + 1
      ∧ ∀ c, c ≠ client → active c l = active c (lim s)
  end.
Proof.
  intros Hs%Inv_steps. pose proof (inv_global s Hs) as Hg. pose proof (inv_active s client Hs) as Ha.
  unfold Acquire. rewrite Hg, Ha.
  destruct (Z.leb_spec globalLimit (Z.of_nat (size (held s)))); [done|].
  destruct (Z.leb_spec clientLimit (holding client s)); [done|]. split_and!; [done..| |].
  - unfold active. cbn [perClient]. by rewrite lookup_insert_eq.
  - intros c Hc. unfold active. cbn [perClient]. by rewrite lookup_insert_ne.
Qed.

(** *** Witnesses *)

Definition sample : system :=
  release 0 (release 0 (snd (acquire "b" 5 1 (snd (acquire "a" 5 1 init))))).

Lemma sample_admission_reachable : rtc step init sample.
Proof.
  eapply rtc_l; [apply (step_acquire "a" 5 1)|]. eapply rtc_l; [apply (step_acquire "b" 5 1)|].
  eapply rtc_l; [apply (step_release 0)|]. apply rtc_once, (step_release 0).
Qed.

Lemma admission_exact_witness : global (lim sample) = 1 ∧ global (lim sample) = Z.of_nat (size (held sample)).
Proof. split; [vm_compute; reflexivity | exact (proj1 (admission_exact sample sample_admission_reachable))]. Defined.

Lemma Acquire_decides_witness : Acquire "b" 5 1 (lim sample) = inl (lit "client_concurrency").
Proof.
  pose proof (Acquire_decides sample "b" 5 1 sample_admission_reachable) as H. revert H.
  destruct (Acquire "b" 5 1 (lim sample)) as [r|l] eqn:E.
  - vm_compute. intros [_ H]. rewrite H. reflexivity.
  - intros _. vm_compute in E. discriminate E.
Defined.
End Admission.
