(* ===== verification/SecPolicy.v ===== *)
(** * Configuration data of SecurityEdge and the request it sees
    (structs of apps/securityedge/internal/config/config.go)

    The sections the request path reads: the per-route policy, the listener's
    limits and the custom WAF rules; and the inbound request with the parts
    [net/http] keeps outside of the header (body, trailer, content length). *)

From S2P Require Import Prelude GoStr GoPath GoHttp GoCodec GoText GoFloat RateLimit.

Record CustomRuleConfig := mkCustomRule {
  cr_id : str; cr_name : str; cr_category : str; cr_description : str; cr_score : Z;
  cr_targets : list str; cr_pattern : str }.

Definition MaxCustomRuleScore : Z := 1000.

Record Policy := mkPolicy {
  policy_enabled : bool;
  policy_mode : str;
  anomaly_threshold : Z;
  inspect_request_body : bool;
  max_inspection_body_bytes : Z;
  body_content_types : list str;
  allowed_methods : list str;
  excluded_path_prefixes : list str;
  disabled_rules : list str;
  ip_allowlist : list str;
  ip_denylist : list str;
  max_path_bytes : Z;
  max_query_bytes : Z;
  max_header_count : Z;
  max_header_value_bytes : Z;
  reject_encoded_request_bodies : bool;
  reject_unsupported_body_types : bool;
  block_on_inspection_limit : bool;
  rate_limit : Limiter.RateLimitConfig;
  auto_ban : BanManager.AutoBanConfig;
}.

(** The fields of [ServerConfig] the gateway reads per request. *)
Record SecServerConfig := mkSecServer {
  max_request_body_bytes : Z;
  max_concurrent_requests : Z;
  max_concurrent_per_client : Z;
  add_security_headers : bool;
}.

(** ** The inbound request

    A body is the bytes it still yields and the way it ends: [None] is EOF.  The
    error of a reader is one of the kinds the program distinguishes. *)

Inductive read_error := MaxBytes | LongTrailer | ReadFailed.
#[export] Instance read_error_eq : EqDecision read_error.
Proof. solve_decision. Defined.

Record Body := mkBody { body_data : str; body_end : option read_error }.

(** [in_body = None] is [nil] or [http.NoBody]. *)
Record Inbound := mkInbound {
  in_req : Request;
  in_rawpath : str;                 (* URL.RawPath *)
  in_trailer : header;
  in_body : option Body;
  in_length : Z;                    (* ContentLength, -1 when unknown *)
}.

Definition in_header (r : Inbound) : header := req_header (in_req r).
Definition in_url (r : Inbound) : URL := req_url (in_req r).
Definition in_escaped_path (r : Inbound) : str := EscapedPath (in_rawpath r) (url_path (in_url r)).

Definition with_body (b : option Body) (r : Inbound) : Inbound :=
  mkInbound (in_req r) (in_rawpath r) (in_trailer r) b (in_length r).
Definition with_header (h : header) (r : Inbound) : Inbound :=
  mkInbound (mkRequest (req_method (in_req r)) (req_host (in_req r)) (req_url (in_req r)) h (req_remote (in_req r)))
    (in_rawpath r) (in_trailer r) (in_body r) (in_length r).

(** [io.ReadAll] of a reader. *)
Definition read_all (b : Body) : str + read_error :=
  match body_end b with None => inl (body_data b) | Some e => inr e end.

(** [io.LimitReader(b, n)]: it ends after [n] bytes without another read. *)
Definition limit_reader (b : Body) (n : Z) : Body :=
  if n <=? len (body_data b) then mkBody (take (Z.to_nat n) (body_data b)) None else b.
Definition after_limit (b : Body) (n : Z) : Body :=
  mkBody (drop (Z.to_nat n) (body_data b)) (body_end b).

(** [io.MultiReader(bytes.NewReader(buf), rest)] *)
Definition multi_reader (buf : str) (rest : Body) : Body := mkBody (buf ++ body_data rest) (body_end rest).
