(* ===== verification/Waf.v ===== *)
(** * The web application firewall: apps/securityedge/internal/waf

    [CompileRules] (rules.go) and [Inspect] with everything it samples from a
    request (inspect.go).  The regular-expression engine, the HTML entity table,
    the JSON and MIME parsers and the cookie parser are outside the repository:
    they are the fields of [WafLib].  The inspector's lock is not modelled: an
    inspection works on the snapshot of the rules it takes first. *)

From stdpp Require Import sorting.
From S2P Require Import Prelude GoStr GoPath GoHttp GoCodec GoText GoFloat RateLimit SecPolicy.

(** What [json.Unmarshal] builds, as far as [flattenJSON] looks: the fields of an
    object have distinct names, in no particular order. *)
Inductive json :=
  | JObject (fields : list (str * json))
  | JArray (items : list json)
  | JString (s : str)
  | JOther.

Class WafLib := {
  regexp_compile : str → option (str → bool);   (* regexp.Compile, then MatchString *)
  html_unescape : str → str;                    (* html.UnescapeString *)
  parse_media_type : str → str * bool;          (* mime.ParseMediaType: the type, and whether err = nil *)
  media_params : str → Z;                       (* how many parameters it found *)
  json_unmarshal : str → option json;
  request_cookies : list str → list (str * str);  (* Request.Cookies of the Cookie field lines *)
}.

Module Waf.

Record Rule := mkRule {
  ID : str; Name : str; Category : str; Description : str; Score : Z; Targets : list str; Source : str;
  pattern : str → bool }.

Record Match := mkMatch {
  m_rule : str; m_name : str; m_category : str; m_score : Z; m_target : str; m_location : str; m_fingerprint : str }.

Record Result := mkResult {
  r_score : Z; r_matches : list Match; r_body_inspected : bool; r_body_truncated : bool; r_excluded : bool;
  r_limit_reached : bool }.

Record sample := mkSample { location : str; value : str }.

Record Inspector := mkInspector { rules : list Rule; maxMatches : Z }.

Definition maxStructuredSamples : Z := 512.
Definition maxMatchLocationBytes : Z := 256.

Section waf.
Context {U : Unicode} {SH : Sha256} {L : WafLib}.

(** ** Rules *)

Definition spec : Type := str * str * str * str * str * Z * list str.

Definition rule_spec (id name category description pattern : str) (score : Z) (targets : list str) : spec :=
  (id, name, category, description, pattern, score, targets).

Definition specs : list spec :=
  [
    rule_spec "SQLI-001" "UNION SELECT" "sqli" "Detects common SQL UNION-based injection syntax."
      "(?i)\bunion(?:\s+all)?\s+select\b" 5 (lits ["path"; "query"; "body"]);
    rule_spec "SQLI-002" "Boolean tautology" "sqli" "Detects SQL boolean expressions commonly used to bypass authentication."
      ("(?i)(?:'|\" ++ [dquote] ++ "|`)?\s*(?:or|and)\s+(?:\d+|'[^']*')\s*=\s*(?:\d+|'[^']*')") 5 (lits ["query"; "body"]);
    rule_spec "SQLI-003" "Time-based SQLi" "sqli" "Detects database delay functions used for blind SQL injection."
      "(?i)\b(?:sleep|benchmark|pg_sleep)\s*\(|\bwaitfor\s+delay\b" 5 (lits ["query"; "body"]);
    rule_spec "SQLI-004" "SQL metadata access" "sqli" "Detects access to common database metadata tables."
      "(?i)\b(?:information_schema|pg_catalog|sqlite_master|sysobjects|syscolumns)\b" 4 (lits ["query"; "body"]);
    rule_spec "SQLI-005" "Stacked SQL statement" "sqli" "Detects statement separators followed by destructive or administrative SQL commands."
      "(?i);\s*(?:select|insert|update|delete|drop|alter|create|truncate|exec(?:ute)?)\b" 5 (lits ["query"; "body"]);
    rule_spec "SQLI-006" "SQL comment bypass" "sqli" "Detects SQL comment syntax commonly used to terminate or obfuscate injected clauses."
      "(?i)(?:--(?:\s|$)|/\*![0-9]*|/\*[^*]{0,200}\*/|#[^\r\n]{0,200})" 3 (lits ["query"; "body"]);
    rule_spec "SQLI-007" "SQL file operations" "sqli" "Detects database file read/write primitives."
      "(?i)\b(?:load_file|into\s+outfile|into\s+dumpfile|xp_cmdshell)\b" 5 (lits ["query"; "body"]);
    rule_spec "XSS-001" "Script tag" "xss" "Detects injected script elements."
      "(?i)<\s*/?\s*script\b" 5 (lits ["path"; "query"; "body"]);
    rule_spec "XSS-002" "Event handler" "xss" "Detects inline browser event handlers often used for XSS."
      "(?i)\bon(?:error|load|click|mouseover|focus|animationstart|pointerover|toggle)\s*=" 4 (lits ["query"; "body"]);
    rule_spec "XSS-003" "JavaScript URI" "xss" "Detects javascript: and vbscript: URI payloads."
      "(?i)(?:javascript|vbscript)\s*:" 5 (lits ["path"; "query"; "body"; "headers"]);
    rule_spec "XSS-004" "Dangerous HTML element" "xss" "Detects iframe, object, embed, svg, and math elements frequently used in XSS payloads."
      "(?i)<\s*(?:iframe|object|embed|svg|math|meta|base)\b" 4 (lits ["query"; "body"]);
    rule_spec "XSS-005" "Data URI script" "xss" "Detects executable HTML or SVG data URIs."
      "(?i)data\s*:\s*(?:text/html|image/svg\+xml)[^,]{0,200}," 5 (lits ["query"; "body"; "headers"]);
    rule_spec "PATH-001" "Path traversal" "path_traversal" "Detects plain or encoded parent-directory traversal."
      "(?i)(?:\.\.[/\\]|%2e%2e(?:%2f|%5c|[/\\])|%252e%252e)" 5 (lits ["path"; "query"; "body"]);
    rule_spec "PATH-002" "Sensitive file probe" "recon" "Detects requests for commonly exposed secrets and system files."
      "(?i)(?:^|[/\\])(?:\.env|\.git(?:[/\\]|$)|wp-config\.php|etc[/\\]passwd|etc[/\\]shadow|id_rsa|web\.config|application\.properties)(?:$|[/\\?])" 5 (lits ["path"; "query"]);
    rule_spec "PATH-003" "Windows device path" "path_traversal" "Detects Windows device and UNC paths."
      "(?i)(?:\\\\\.\\|\\\\\?\\|\\\\[^\\/]+\\[^\\/]+|\b(?:con|prn|aux|nul|com[1-9]|lpt[1-9])\b)" 4 (lits ["path"; "query"; "body"]);
    rule_spec "CMD-001" "Command separator" "command_injection" "Detects shell separators followed by common operating-system commands."
      "(?i)(?:;|\|\||&&|\|)\s*(?:cat|ls|id|whoami|curl|wget|bash|sh|powershell|cmd|nc|netcat|python|perl|ruby)\b" 5 (lits ["query"; "body"]);
    rule_spec "CMD-002" "Command substitution" "command_injection" "Detects shell command substitution syntax."
      "(?s)(?:\$\([^)]{1,300}\)|`[^`]{1,300}`)" 5 (lits ["query"; "body"]);
    rule_spec "CMD-003" "Environment variable expansion" "command_injection" "Detects suspicious shell and Windows environment variable expansion."
      "(?i)(?:\$\{(?:IFS|PATH|HOME|SHELL)[^}]*\}|%(?:COMSPEC|PATH|TEMP|WINDIR)%)" 4 (lits ["query"; "body"]);
    rule_spec "SSRF-001" "Cloud metadata endpoint" "ssrf" "Detects access attempts to common cloud instance metadata services."
      "(?i)(?:169\.254\.169\.254|metadata\.google\.internal|100\.100\.100\.200)(?::\d+)?" 5 (lits ["query"; "body"]);
    rule_spec "SSRF-002" "Local network target" "ssrf" "Detects URL parameters targeting loopback, unspecified, or private network services."
      "(?i)(?:https?|ftp|gopher|file)://(?:localhost|127(?:\.\d{1,3}){3}|0\.0\.0\.0|\[?::1\]?|10(?:\.\d{1,3}){3}|192\.168(?:\.\d{1,3}){2}|172\.(?:1[6-9]|2\d|3[01])(?:\.\d{1,3}){2})" 4 (lits ["query"; "body"]);
    rule_spec "XXE-001" "XML external entity" "xxe" "Detects XML external entity and external DTD declarations."
      "(?is)<!DOCTYPE[^>]{0,500}(?:SYSTEM|PUBLIC)|<!ENTITY[^>]{0,500}(?:SYSTEM|PUBLIC)" 5 (lits ["body"]);
    rule_spec "NOSQL-001" "NoSQL operator injection" "nosqli" "Detects common MongoDB-style query operators."
      "(?i)(?:\$where|\$ne|\$gt|\$gte|\$lt|\$lte|\$regex|\$nin)\s*(?:\]|\}|:|=)" 4 (lits ["query"; "body"]);
    rule_spec "LDAP-001" "LDAP filter injection" "ldap_injection" "Detects suspicious LDAP filter operators and wildcard constructs."
      "(?i)(?:\(\|\(|\(&\(|\)\(\||\*\)\(|\x00)" 4 (lits ["query"; "body"]);
    rule_spec "CRLF-001" "CRLF injection" "protocol" "Detects encoded or literal CRLF sequences in request targets."
      "(?i)(?:%0d%0a|%0a|%0d|\r\n)" 4 (lits ["path"; "query"]);
    rule_spec "PROTO-001" "Template expression" "template_injection" "Detects common server-side template expression delimiters."
      "(?:\{\{[^{}]{0,200}\}\}|\$\{[^{}]{0,200}\}|<%[^%]{0,200}%>)" 4 (lits ["query"; "body"]);
    rule_spec "PROTO-002" "JNDI lookup" "rce" "Detects Log4Shell-style JNDI lookup expressions."
      "(?i)\$\{\s*jndi\s*:\s*(?:ldap|ldaps|rmi|dns|iiop|http)\s*:" 5 (lits ["path"; "query"; "body"; "headers"]);
    rule_spec "PROTO-003" "PHP wrapper" "rce" "Detects PHP stream wrappers frequently used for local/remote file inclusion."
      "(?i)\b(?:php|data|expect|zip|phar|glob|input)://" 5 (lits ["path"; "query"; "body"]);
    rule_spec "PROTO-004" "Null byte" "protocol" "Detects encoded or literal null bytes used to confuse path and parser handling."
      "(?i)(?:%00|\x00)" 4 (lits ["path"; "query"; "body"]);
    rule_spec "SCAN-001" "Security scanner user agent" "recon" "Detects common automated vulnerability scanner identifiers."
      "(?i)\b(?:sqlmap|nikto|acunetix|nessus|nmap|masscan|dirbuster|gobuster|ffuf|wpscan|zgrab)\b" 3 (lits ["headers"]);
    rule_spec "SCAN-002" "Exploit framework marker" "recon" "Detects common exploit framework and payload generator markers."
      "(?i)\b(?:metasploit|meterpreter|commix|nuclei|burp(?:suite)?|owasp\s*zap)\b" 3 (lits ["headers"; "query"; "body"]);
    rule_spec "REDIR-001" "Protocol-relative redirect" "open_redirect" "Detects redirect-like parameters containing protocol-relative external targets."
      "(?i)(?:^|[?&])(?:url|uri|redirect|return|next|continue|dest(?:ination)?)=\s*(?:%2f%2f|//)" 3 (lits ["query"]);
    rule_spec "COOKIE-001" "Cookie injection" "protocol" "Detects control characters or response-splitting syntax in cookie values."
      "(?i)(?:%0d|%0a|\r|\n|;\s*(?:httponly|secure|samesite)\s*=)" 4 (lits ["cookies"])
  ].

(** [regexp.MustCompile]: [None] is a panic. *)
Definition builtin_rule (s : spec) : option Rule :=
  let '(id, name, category, description, pat, score, targets) := s in
  p ← regexp_compile pat; Some (mkRule id name category description score targets "builtin" p).
Definition BuiltinRules : option (list Rule) := mapM builtin_rule specs.

Inductive rule_error := BuiltinPanic | DuplicateRule (id : str) | ScoreOutOfRange (id : str) | BadPattern (id : str).

(** One custom rule: (rules so far, ids seen). *)
Definition custom_step (acc : rule_error + (list Rule * gset str)) (c : CustomRuleConfig) : rule_error + (list Rule * gset str) :=
  match acc with
  | inl e => inl e
  | inr (out, seen) =>
      let id := to_upper (trim_space (cr_id c)) in
      if bool_decide (id ∈ seen) then inl (DuplicateRule id)
      else if (cr_score c <=? 0) || (MaxCustomRuleScore <? cr_score c) then inl (ScoreOutOfRange id)
      else match regexp_compile (cr_pattern c) with
      | None => inl (BadPattern id)
      | Some compiled =>
          inr (out ++ [mkRule id (cr_name c) (to_lower (cr_category c)) (cr_description c) (cr_score c)
                         ((λ t, to_lower (trim_space t)) <$> cr_targets c) "custom" compiled],
               {[ id ]} ∪ seen)
      end
  end.

Definition CompileRules (custom : list CustomRuleConfig) : rule_error + list Rule :=
  match BuiltinRules with
  | None => inl BuiltinPanic
  | Some out =>
      match foldl custom_step (inr (out, list_to_set (ID <$> out))) custom with
      | inl e => inl e
      | inr (out, _) => inr out
      end
  end.

Definition NewInspector (custom : list CustomRuleConfig) (max : Z) : rule_error + Inspector :=
  match CompileRules custom with
  | inl e => inl e
  | inr rs => inr (mkInspector rs (if max <=? 0 then 32 else max))
  end.

(** An error leaves the inspector as it is. *)
Definition Replace (i : Inspector) (custom : list CustomRuleConfig) (max : Z) : option rule_error * Inspector :=
  match CompileRules custom with
  | inl e => (Some e, i)
  | inr rs => (None, mkInspector rs (if max <=? 0 then 32 else max))
  end.

Definition Rules (i : Inspector) : list Rule := rules i.

(** ** Text *)

(** Three rounds, each of which may end the loop. *)
Fixpoint decode_rounds (unescape : str → option str) (n : nat) (out : str) : str :=
  match n with
  | O => out
  | S n => match unescape out with
           | None => out
           | Some decoded => if decoded =?s out then out else decode_rounds unescape n decoded
           end
  end.
Definition multiPathDecode (value : str) : str := decode_rounds path_unescape 3 value.
Definition multiDecode (value : str) : str := decode_rounds query_unescape 3 value.

Definition normalize (value : str) : str :=
  let value := to_valid_utf8 value "?" in
  let value := html_unescape value in
  let value := multiDecode value in
  let value := filter (λ c, c ≠ chr 0) value in
  if valid_utf8 value then value else rune_string value.

Definition fingerprint (value : str) : str := hex_encode (take 8 (sha256 value)).

Definition boundedMatchLocation (value : str) : str :=
  if len value <=? maxMatchLocationBytes then value else "oversized-field:" ++ fingerprint value.

Definition saturatingAddScore (current increment : Z) : Z :=
  if increment <=? 0 then current
  else if max_int64 - increment <? current then max_int64 else current + increment.

(** ** Exclusions *)

Definition excludedPathMatches (requestPath prefix : str) : bool :=
  let prefix := trim_space prefix in
  if prefix =?s [] then false
  else
    let requestPath := canonicalRequestPath (multiPathDecode requestPath) in
    if (prefix =?s "/") || (requestPath =?s prefix) then true
    else if has_suffix prefix "/" then has_prefix requestPath prefix
    else has_prefix requestPath prefix && (len prefix <? len requestPath)
         && bool_decide (requestPath !! length prefix = Some slash).

(** ** Samples *)

(** [None]: the cap is reached and nothing is appended. *)
Definition appendStructuredSample (out : list sample) (item : sample) : option (list sample) :=
  if maxStructuredSamples <=? len out then None else Some (out ++ [item]).

Definition pathSamples (r : Inbound) : list sample :=
  let raw := in_escaped_path r in
  let decoded := multiDecode raw in
  [mkSample "url.path.raw" raw; mkSample "url.path.decoded" decoded; mkSample "url.path.normalized" (normalize decoded)].

(** The values of one name, the first [cap] of them; [false]: stop. *)
Fixpoint value_samples (loc : str) (cap : nat) (values : list str) (out : list sample) : list sample * bool :=
  match cap, values with
  | S cap, v :: vs =>
      match appendStructuredSample out (mkSample loc (normalize v)) with
      | None => (out, false)
      | Some out => value_samples loc cap vs out
      end
  | _, _ => (out, true)
  end.

(** The loop over the sorted names; [cap] bounds the values looked at per name. *)
Fixpoint named_samples (nameLoc valuePrefix : str) (cap : list str → nat) (m : url_values) (keys : list str)
    (out : list sample) : list sample :=
  match keys with
  | [] => out
  | key :: keys =>
      match appendStructuredSample out (mkSample nameLoc (normalize key)) with
      | None => out
      | Some out =>
          let values := default [] (m !! key) in
          let '(out, continue) := value_samples (boundedMatchLocation (valuePrefix ++ key)) (cap values) values out in
          if continue then named_samples nameLoc valuePrefix cap m keys out else out
      end
  end.

Definition querySamples (r : Inbound) : list sample :=
  let raw := url_rawquery (in_url r) in
  let out := [mkSample "url.query.raw" raw; mkSample "url.query.decoded" (multiDecode raw);
              mkSample "url.query.normalized" (normalize (multiDecode raw))] in
  match parse_query raw with
  | None => out
  | Some values => named_samples "query.name" "query.value:" (λ _, 32%nat) values (sorted_keys values) out
  end.

Definition secret_header (name : str) : bool :=
  equal_fold name "Authorization" || equal_fold name "Proxy-Authorization" || equal_fold name "Cookie".

(** The values of one field: (samples, fields counted); [false]: the cap is reached. *)
Fixpoint field_values (maxFields : Z) (loc : str) (values : list str) (out : list sample) (fields : Z)
    : list sample * Z * bool :=
  match values with
  | [] => (out, fields, true)
  | v :: vs =>
      let out := out ++ [mkSample loc (normalize v)] in
      if maxFields <=? fields + 1 then (out, fields + 1, false) else field_values maxFields loc vs out (fields + 1)
  end.

Fixpoint appendFields (maxFields : Z) (nameLocation valuePrefix : str) (h : header) (keys : list str)
    (out : list sample) (fields : Z) : list sample * Z * bool :=
  match keys with
  | [] => (out, fields, true)
  | name :: keys =>
      if secret_header name then appendFields maxFields nameLocation valuePrefix h keys out fields
      else
        let out := out ++ [mkSample nameLocation name] in
        match header_values h name with
        | [] => if maxFields <=? fields + 1 then (out, fields + 1, false)
                else appendFields maxFields nameLocation valuePrefix h keys out (fields + 1)
        | values =>
            let '(out, fields, continue) :=
              field_values maxFields (boundedMatchLocation (valuePrefix ++ to_lower name)) values out fields in
            if continue then appendFields maxFields nameLocation valuePrefix h keys out fields
            else (out, fields, false)
        end
  end.

Definition headerSamples (r : Inbound) (maxFields : Z) : list sample :=
  let maxFields := if maxFields <=? 0 then 100 else maxFields in
  let host := req_host (in_req r) in
  let '(out, fields) :=
    if negb (trim_space host =?s [])
    then ([mkSample "header.name" "Host"; mkSample "header:host" (normalize host)], 1) else ([], 0) in
  if (0 <? fields) && (maxFields <=? fields) then out
  else
    let '(out, fields, continue) :=
      appendFields maxFields "header.name" "header:" (in_header r) (sorted_keys (in_header r)) out fields in
    if continue
    then fst (fst (appendFields maxFields "trailer.name" "trailer:" (in_trailer r) (sorted_keys (in_trailer r)) out fields))
    else out.

Definition cookieSamples (r : Inbound) (maxHeaderFields : Z) : list sample :=
  let maxHeaderFields := if maxHeaderFields <=? 0 then 100 else maxHeaderFields in
  let raw := header_values (in_header r) "Cookie" in
  ((λ v, mkSample "cookie.raw" (normalize v)) <$> take (Z.to_nat maxHeaderFields) raw)
  ++ flat_map (λ c : str * str, [mkSample "cookie.name" (normalize (fst c));
                                 mkSample (boundedMatchLocation ("cookie:" ++ fst c)) (normalize (snd c))])
       (take 64 (request_cookies raw)).

(** *** JSON

    [fuel] is 13 minus the depth: the recursion stops below depth 12. *)
Section flatten.
Context (flatten : list sample → str → json → list sample).

Fixpoint flatten_fields (path : str) (fields : list (str * json)) (out : list sample) : list sample :=
  match fields with
  | [] => out
  | (key, v) :: fields =>
      match appendStructuredSample out (mkSample (path ++ ".key") (normalize key)) with
      | None => out
      | Some out =>
          let out := flatten out (boundedMatchLocation (path ++ "." ++ key)) v in
          if maxStructuredSamples <=? len out then out else flatten_fields path fields out
      end
  end.

(** [cap] counts the items still looked at. *)
Fixpoint flatten_items (path : str) (cap : nat) (items : list json) (out : list sample) : list sample :=
  match cap, items with
  | S cap, v :: items =>
      let out := flatten out path v in
      if maxStructuredSamples <=? len out then out else flatten_items path cap items out
  | _, _ => out
  end.
End flatten.

Definition field_le (a b : str * json) : Prop := str_le (fst a) (fst b).
#[local] Instance field_le_dec a b : Decision (field_le a b) := str_le_dec _ _.

Fixpoint flattenJSON (fuel : nat) (out : list sample) (path : str) (v : json) : list sample :=
  match fuel with
  | O => out
  | S fuel =>
      if maxStructuredSamples <=? len out then out
      else match v with
      | JObject fields => flatten_fields (flattenJSON fuel) path (merge_sort field_le fields) out
      | JArray items => flatten_items (flattenJSON fuel) path 128 items out
      | JString s => default out (appendStructuredSample out (mkSample path (normalize s)))
      | JOther => out
      end
  end.

Definition json_depth : nat := 13.

Definition bodySamples (body contentType : str) : list sample :=
  let text := to_valid_utf8 body "?" in
  let out := [mkSample "request.body.raw" text; mkSample "request.body.normalized" (normalize text)] in
  let mediaType := to_lower (fst (parse_media_type contentType)) in
  if mediaType =?s "application/json" then
    match json_unmarshal body with Some v => flattenJSON json_depth out "json" v | None => out end
  else if mediaType =?s "application/x-www-form-urlencoded" then
    match parse_query text with
    | Some values => named_samples "form.name" "form.value:" length values (sorted_keys values) out
    | None => out
    end
  else out.

Definition requestBodyTypeAllowed (raw : str) (allowed : list str) : bool :=
  let mediaType := match parse_media_type raw with
                   | (t, true) => t
                   | (_, false) => trim_space (fst (fst (cut raw ";")))
                   end in
  existsb (λ item, equal_fold (trim_space item) mediaType) allowed.

(** (bytes to inspect, truncated) and the body the next reader sees. *)
Definition readAndRestore (b : Body) (max : Z) : (read_error + (str * bool)) * Body :=
  let n := wrap64 (max + 1) in
  match read_all (limit_reader b n) with
  | inr e => (inl e, after_limit b n)
  | inl buf =>
      if max <? len buf
      then (inr (take (Z.to_nat max) buf, true), multi_reader buf (after_limit b n))
      else (inr (buf, false), mkBody buf None)
  end.

(** ** [Inspect] *)

(** The first sample of the rule's targets its pattern matches. *)
Fixpoint rule_hit (targets : str → list sample) (r : Rule) (ts : list str) : option (str * sample) :=
  match ts with
  | [] => None
  | t :: ts =>
      match List.find (λ s, negb (value s =?s []) && pattern r (value s)) (targets t) with
      | Some s => Some (t, s)
      | None => rule_hit targets r ts
      end
  end.

Definition match_of (r : Rule) (t : str) (s : sample) : Match :=
  mkMatch (ID r) (Name r) (Category r) (Score r) t (boundedMatchLocation (location s)) (fingerprint (value s)).

Definition match_less (a b : Match) : bool :=
  if m_rule a =?s m_rule b then str_ltb (m_location a) (m_location b) else str_ltb (m_rule a) (m_rule b).
Definition match_le (a b : Match) : Prop := match_less b a = false.
#[export] Instance match_le_dec a b : Decision (match_le a b) := decide (match_less b a = false).
Definition sortMatches (l : list Match) : list Match := merge_sort match_le l.

(** The loop over the rules: (score, matches, limit reached). *)
Fixpoint scan (targets : str → list sample) (disabled : gset str) (max : Z) (rs : list Rule) (score : Z) (ms : list Match)
    : Z * list Match * bool :=
  match rs with
  | [] => (score, ms, false)
  | r :: rs =>
      if bool_decide (ID r ∈ disabled) then scan targets disabled max rs score ms
      else match rule_hit targets r (Targets r) with
      | None => scan targets disabled max rs score ms
      | Some (t, s) =>
          let score := saturatingAddScore score (Score r) in
          let ms := ms ++ [match_of r t s] in
          if max <=? len ms then (score, ms, true) else scan targets disabled max rs score ms
      end
  end.

(** The samples by target; [body = None]: the body is not inspected. *)
Definition request_targets (r : Inbound) (policy : Policy) (body : option str) (t : str) : list sample :=
  if t =?s "path" then pathSamples r
  else if t =?s "query" then querySamples r
  else if t =?s "headers" then headerSamples r (max_header_count policy)
  else if t =?s "cookies" then cookieSamples r (max_header_count policy)
  else if t =?s "body" then
    match body with Some b => bodySamples b (header_get (in_header r) "Content-Type") | None => [] end
  else [].

Definition disabled_set (policy : Policy) : gset str :=
  list_to_set ((λ id, to_upper (trim_space id)) <$> disabled_rules policy).

Definition inspects_body (r : Inbound) (policy : Policy) : bool :=
  inspect_request_body policy && (0 <? max_inspection_body_bytes policy)
  && requestBodyTypeAllowed (header_get (in_header r) "Content-Type") (body_content_types policy).

Definition finish_scan (i : Inspector) (r : Inbound) (policy : Policy) (body : option str) (truncated : bool) : Result :=
  let '(score, ms, limit) := scan (request_targets r policy body) (disabled_set policy) (maxMatches i) (rules i) 0 [] in
  mkResult score (sortMatches ms) (bool_decide (is_Some body)) truncated false limit.

(** [inl]: the error of the body's reader.  The second component is the request
    with the body it is left with. *)
Definition Inspect (i : Inspector) (r : Inbound) (policy : Policy) : (read_error + Result) * Inbound :=
  if existsb (excludedPathMatches (url_path (in_url r))) (excluded_path_prefixes policy)
  then (inr (mkResult 0 [] false false true false), r)
  else match (if inspects_body r policy then in_body r else None) with
  | None => (inr (finish_scan i r policy None false), r)
  | Some b =>
      match readAndRestore b (max_inspection_body_bytes policy) with
      | (inl e, b') => (inl e, with_body (Some b') r)
      | (inr (body, truncated), b') => (inr (finish_scan i r policy (Some body) truncated), with_body (Some b') r)
      end
  end.
End waf.
End Waf.
