(* ===== verification/SecConfig.v ===== *)
(** * Configuration of SecurityEdge: apps/securityedge/internal/config/config.go

    The structs, [Validate] with every normalisation it makes, the environment
    overrides and the guard that refuses an update which an override would mask.
    An error is the fixed part of its message; the loop of [validateTransport]
    over a map is in the order it is written.  Helpers that are copies of
    EdgeProxy's are those of ConfigValidate.v and ConfigEnv.v. *)

From S2P Require Import Prelude GoStr GoPath GoHttp GoCodec GoText NetIP GoFloat Config ConfigValidate ConfigEnv RateLimit SecPolicy Waf.

Module SecConfig.
Import Validation.

(** ** Data *)

(** A slice of strings that the program compares with [reflect.DeepEqual], which
    tells a nil slice ([None]) from an empty one.  For the other slices of the
    configuration the difference is not represented. *)
Abbreviation slice := (option (list str)).
Definition items (s : slice) : list str := default [] s.

Record TransportConfig := mkTransport {
  tp_dial : duration; tp_handshake : duration; tp_header : duration; tp_expect : duration; tp_idle : duration;
  tp_max_idle : Z; tp_max_idle_per_host : Z; tp_max_per_host : Z; tp_max_header : Z }.

Record ServerConfig := mkServerConfig {
  s_mode : str; s_listen : str; s_upstream : str;
  s_read_header : duration; s_read : duration; s_write : duration; s_idle : duration; s_shutdown : duration;
  s_max_header : Z; s_max_body : Z; s_max_concurrent : Z; s_max_per_client : Z;
  s_trusted : slice; s_forwarded : str; s_preserve_host : bool; s_security_headers : bool;
  s_tls : TLSConfig; s_transport : TransportConfig }.

Record DNSProbeConfig := mkDNS {
  dns_enabled : bool; dns_critical : bool; dns_server : str; dns_names : slice; dns_expected : slice }.

Record ConnectivityConfig := mkConnectivity {
  cn_enabled : bool; cn_interval : duration; cn_timeout : duration; cn_stale : duration; cn_history : Z; cn_dns : DNSProbeConfig }.

Record TelemetryHistoryConfig := mkTelemetry {
  th_enabled : bool; th_capacity : Z; th_interval : duration; th_file : str }.

Record LogStoreConfig := mkLogStore {
  ls_capacity : Z; ls_default_page : Z; ls_max_page : Z; ls_file : str; ls_max_bytes : Z; ls_backups : Z }.

Record AdminConfig := mkAdminConfig {
  a_enabled : bool; a_listen : str; a_token : str; a_log : LogStoreConfig; a_connectivity : ConnectivityConfig;
  a_history : TelemetryHistoryConfig; a_poll : duration; a_max_body : Z; a_failures : Z; a_lockout : duration }.

Record EdgeProxyConfig := mkEdgeProxy { ep_path : str; ep_url : str; ep_token : str; ep_timeout : duration }.

(** [CustomRules] is nil when the file does not name it. *)
Record WAFConfig := mkWAF { waf_max : Z; waf_custom : option (list CustomRuleConfig) }.
Definition waf_rules (w : WAFConfig) : list CustomRuleConfig := default [] (waf_custom w).

Record Config := mkConfig {
  server : ServerConfig; admin : AdminConfig; edgeproxy : EdgeProxyConfig; waf : WAFConfig; default_policy : Policy;
  route_policies : gmap str Policy }.

#[export] Instance sec_CustomRuleConfig_eq_dec : EqDecision CustomRuleConfig.
Proof. solve_decision. Defined.
#[export] Instance sec_RateLimitConfig_eq_dec : EqDecision Limiter.RateLimitConfig.
Proof. solve_decision. Defined.
#[export] Instance sec_AutoBanConfig_eq_dec : EqDecision BanManager.AutoBanConfig.
Proof. solve_decision. Defined.
#[export] Instance sec_Policy_eq_dec : EqDecision Policy.
Proof. solve_decision. Defined.
#[export] Instance sec_TransportConfig_eq_dec : EqDecision TransportConfig.
Proof. solve_decision. Defined.
#[export] Instance sec_ServerConfig_eq_dec : EqDecision ServerConfig.
Proof. solve_decision. Defined.
#[export] Instance sec_DNSProbeConfig_eq_dec : EqDecision DNSProbeConfig.
Proof. solve_decision. Defined.
#[export] Instance sec_ConnectivityConfig_eq_dec : EqDecision ConnectivityConfig.
Proof. solve_decision. Defined.
#[export] Instance sec_TelemetryHistoryConfig_eq_dec : EqDecision TelemetryHistoryConfig.
Proof. solve_decision. Defined.
#[export] Instance sec_LogStoreConfig_eq_dec : EqDecision LogStoreConfig.
Proof. solve_decision. Defined.
#[export] Instance sec_AdminConfig_eq_dec : EqDecision AdminConfig.
Proof. solve_decision. Defined.
#[export] Instance sec_EdgeProxyConfig_eq_dec : EqDecision EdgeProxyConfig.
Proof. solve_decision. Defined.
#[export] Instance sec_WAFConfig_eq_dec : EqDecision WAFConfig.
Proof. solve_decision. Defined.
#[export] Instance sec_Config_eq_dec : EqDecision Config.
Proof. solve_decision. Defined.

Definition maxAdminLogFileBytes : Z := 2 ^ 30.
Definition maxAdminLogBackups : Z := 100.
Definition maxServerConcurrentRequests : Z := 1000000.
Definition maxRateLimitBuckets : Z := 1000000.
Definition maxAutoBanTrackedClients : Z := 1000000.
Definition maxUpstreamResponseHeaderBytes : Z := 16 * 2 ^ 20.
Definition maxUpstreamConnections : Z := 1000000.
Definition maxDNSProbeNames : Z := 256.
Definition maxDNSExpectedAddresses : Z := 256.
Definition maxCustomRules : Z := 256.
Definition maxCustomRuleIDBytes : Z := 128.
Definition maxCustomRuleNameBytes : Z := 256.
Definition maxCustomRuleCategoryBytes : Z := 128.
Definition maxCustomRuleDescriptionBytes : Z := 2048.
Definition maxCustomRulePatternBytes : Z := 4 * 2 ^ 10.
Definition maxRoutePolicies : Z := 2048.
Definition maxPolicyBodyTypes : Z := 128.
Definition maxPolicyMethods : Z := 128.
Definition maxPolicyPathPrefixes : Z := 4096.
Definition maxPolicyDisabledRules : Z := 4096.
Definition maxPolicyIPEntries : Z := 4096.
Definition maxRateLimitRequestsPerSecond : float64 := f_of_Z 1000000.
Definition maxRateLimitBurst : Z := 1000000.
Definition maxAutoBanViolationThreshold : Z := 10000.

Definition minute : duration := 60 * second.
Definition hour : duration := 60 * minute.

(** [Default] *)
Definition Default : Config :=
  mkConfig
    (mkServerConfig "gateway" "0.0.0.0:8081" "http://127.0.0.1:8080" (5 * second) (30 * second) (60 * second) (90 * second)
       (10 * second) (64 * 2 ^ 10) (8 * 2 ^ 20) 512 32 None "X-Forwarded-For" true true (mkTLS false [] [])
       (mkTransport (5 * second) (5 * second) (30 * second) second (90 * second) 256 128 0 (2 ^ 20)))
    (mkAdminConfig true "127.0.0.1:9191" [] (mkLogStore 10000 100 500 [] (20 * 2 ^ 20) 3)
       (mkConnectivity true (5 * second) (3 * second) (15 * second) 50 (mkDNS false false [] None None))
       (mkTelemetry true 720 (5 * second) []) (5 * second) (2 ^ 20) 10 (5 * minute))
    (mkEdgeProxy [] "http://127.0.0.1:9090" [] (5 * second))
    (mkWAF 32 None)
    (mkPolicy true "block" 5 true (2 ^ 20)
       (lits ["application/json"; "application/x-www-form-urlencoded"; "multipart/form-data"; "text/plain"; "text/xml"; "application/xml"])
       (lits ["GET"; "HEAD"; "POST"; "PUT"; "PATCH"; "DELETE"; "OPTIONS"]) [] [] [] [] 4096 8192 100 8192 true false true
       (Limiter.mkRateCfg true (f_of_Z 20) 40 (f_of_Z 500) 1000 minute (10 * minute) 100000)
       (BanManager.mkBanCfg true 20 minute (10 * minute) 100000))
    ∅.

(** ** A list whose entries are normalised

    The loops over such a list differ only in what they do with an entry: it is
    an error, it is left out, or it gives a value, which is kept once. *)

Inductive entry := Bad | Skip | Good (value : str).

Definition entry_step (f : str → entry) (msg : string) (acc : list str * list str * gset str) (raw : str)
    : list str * list str * gset str :=
  let '(errs, out, seen) := acc in
  match f raw with
  | Bad => (errs ++ [lit msg], out, seen)
  | Skip => acc
  | Good value => if bool_decide (value ∈ seen) then acc else (errs, out ++ [value], {[ value ]} ∪ seen)
  end.

Definition entries (f : str → entry) (msg : string) (l : list str) : list str * list str :=
  let '(errs, out, _) := foldl (entry_step f msg) ([], [], ∅) l in (errs, out).

Section rules.
Context {U : Unicode} {R : Resolve} {L : WafLib}.

(** ** Hosts, paths and addresses *)

(** The helpers that the file has in common with EdgeProxy's config.go, line by
    line. *)
Definition anyListenerHost : str → bool := Validation.anyListenerHost.
Definition normalizedListenerPort : str → option Z := Validation.normalizedListenerPort.
Definition validateHostPort : str → bool → list str := Validation.validateHostPort.
Definition validateURLPort : ParsedURL → list str := Validation.validateURLPort.
Definition reservedClientIPSourceHeader : str → bool := Validation.reservedClientIPSourceHeader.
Definition validateBearerCredential : str → list str := Validation.validateBearerCredential.
Definition validHTTPToken : str → bool := Validation.validHTTPToken.

Definition isLoopback (host : str) : bool :=
  if equal_fold host "localhost" then true
  else match ParseIP host with Some a => ip_is_loopback a | None => false end.

Definition listenerHostsOverlap (first second : str) : bool :=
  let first := trim_bytes "[]" (trim_space first) in
  let second := trim_bytes "[]" (trim_space second) in
  if equal_fold first second || anyListenerHost first || anyListenerHost second then true
  else if isLoopback first && isLoopback second then true
  else match ParseIP first, ParseIP second with Some a, Some b => ip_equal a b | _, _ => false end.

Definition listenerEndpointsOverlap (first second : str) : bool :=
  match SplitHostPort (trim_space first), SplitHostPort (trim_space second) with
  | Some (firstHost, firstPortRaw), Some (secondHost, secondPortRaw) =>
      match normalizedListenerPort firstPortRaw, normalizedListenerPort secondPortRaw with
      | Some firstPort, Some secondPort =>
          if (firstPort =? 0) || (secondPort =? 0) || negb (firstPort =? secondPort) then false
          else listenerHostsOverlap firstHost secondHost
      | _, _ => false
      end
  | _, _ => false
  end.

Definition validateListen (addr : str) : list str := validateHostPort addr true.

Definition dns_label_ok (label : str) : bool :=
  negb (label =?s []) && (len label <=? 63)
  && forallb (λ b, is_lower b || is_digit b || (b =?c "-") || (b =?c "_")) label.

(** [None] is the error. *)
Definition normalizeDNSProbeName (raw : str) : option str :=
  let value := to_lower (trim_space raw) in
  if value =?s [] then None
  else match ParseIP value with
  | Some a => Some (ip_string a)
  | None =>
      if contains_any value ([" "%char; chr 9; chr 13; chr 10; chr 0] ++ "/\?#@*:") then None
      else
        let absolute := has_suffix value "." in
        let core := trim_suffix value "." in
        if (core =?s []) || (253 <? len core) then None
        else if negb (forallb dns_label_ok (split core ".")) then None
        else Some (if absolute then core ++ "." else core)
  end.

Definition normalizePolicyPathPrefix (raw : str) : option str :=
  let value := trim_space raw in
  if value =?s [] then Some []
  else if negb (has_prefix value "/") then None
  else if contains_any value "?#" then None
  else match path_unescape value with
  | None => None
  | Some decoded =>
      if negb (decoded =?s value) then None
      else
        let value := trim_right_bytes "/" value in
        let value := if value =?s [] then lit "/" else value in
        if negb (path_clean value =?s value) then None else Some value
  end.

(** ** The entries of the lists *)

Definition of_option (o : option str) : entry := match o with None => Bad | Some v => Good v end.

Definition trusted_entry (raw : str) : entry := of_option (net_string <$> ParseCIDR (trim_space raw)).
Definition dns_name_entry (raw : str) : entry := of_option (normalizeDNSProbeName raw).
Definition address_entry (raw : str) : entry := of_option (ip_string <$> ParseIP (trim_space raw)).

Definition body_type_entry (raw : str) : entry :=
  let '(mediaType, ok) := parse_media_type (trim_space raw) in
  let mediaType := to_lower (trim_space mediaType) in
  if negb ok || (mediaType =?s []) || negb (media_params (trim_space raw) =? 0) then Bad else Good mediaType.

Definition method_entry (raw : str) : entry :=
  let m := to_upper (trim_space raw) in
  if m =?s [] then Skip else if negb (validHTTPToken m) then Bad else Good m.

Definition excluded_entry (raw : str) : entry :=
  match normalizePolicyPathPrefix raw with
  | None => Bad
  | Some prefix => if prefix =?s [] then Skip else Good prefix
  end.

Definition disabled_entry (raw : str) : entry :=
  let id := to_upper (trim_space raw) in if id =?s [] then Skip else Good id.

Definition ip_entry (raw : str) : entry :=
  let value := trim_space raw in
  match ParseIP value with
  | Some ip => Good (ip_string ip)
  | None => of_option (net_string <$> ParseCIDR value)
  end.

Definition normalizeIPList (values : list str) : list str * list str := entries ip_entry "invalid IP/CIDR" values.

Definition validTargets : list str := lits ["path"; "query"; "body"; "headers"; "cookies"].
Definition target_entry (raw : str) : entry :=
  let target := to_lower (trim_space raw) in if bool_decide (target ∈ validTargets) then Good target else Bad.

(** ** Custom rules *)

Definition normalize_rule (r : CustomRuleConfig) : CustomRuleConfig :=
  mkCustomRule (to_upper (trim_space (cr_id r))) (trim_space (cr_name r)) (to_lower (trim_space (cr_category r)))
    (cr_description r) (cr_score r) (cr_targets r) (cr_pattern r).

Definition with_targets (targets : list str) (r : CustomRuleConfig) : CustomRuleConfig :=
  mkCustomRule (cr_id r) (cr_name r) (cr_category r) (cr_description r) (cr_score r) targets (cr_pattern r).

(** The checks of a normalised rule but for its targets; [seen] has the earlier identifiers. *)
Definition rule_errors (seen : gset str) (r : CustomRuleConfig) : list str :=
  check ((cr_id r =?s []) || bool_decide (cr_id r ∈ seen)) "waf.custom_rules id is empty or duplicated"
  ++ check ((cr_name r =?s []) || (cr_category r =?s []) || (cr_description r =?s []) || (len (cr_targets r) =? 0)
            || (cr_pattern r =?s [])) "waf.custom_rules is incomplete"
  ++ check ((maxCustomRuleIDBytes <? len (cr_id r)) || (maxCustomRuleNameBytes <? len (cr_name r))
            || (maxCustomRuleCategoryBytes <? len (cr_category r)) || (maxCustomRuleDescriptionBytes <? len (cr_description r)))
       "waf.custom_rules contains an overlong id, name, category, or description"
  ++ check (maxCustomRulePatternBytes <? len (cr_pattern r)) "waf.custom_rules pattern is too long"
  ++ check (outside 1 MaxCustomRuleScore (cr_score r)) "waf.custom_rules score out of range"
  ++ check (len validTargets <? len (cr_targets r)) "waf.custom_rules has too many targets".

Definition pattern_errors (pattern : str) : list str :=
  if len pattern <=? maxCustomRulePatternBytes
  then match regexp_compile pattern with None => [lit "waf.custom_rules pattern"] | Some _ => [] end
  else [].

Definition rule_step (acc : list str * gset str * list CustomRuleConfig) (r : CustomRuleConfig)
    : list str * gset str * list CustomRuleConfig :=
  let '(errs, seen, out) := acc in
  let r := normalize_rule r in
  let '(e, targets) := entries target_entry "waf.custom_rules has unsupported target" (cr_targets r) in
  (errs ++ rule_errors seen r ++ e ++ pattern_errors (cr_pattern r), {[ cr_id r ]} ∪ seen, out ++ [with_targets targets r]).

Definition validateCustomRules (rules : list CustomRuleConfig) : list str * list CustomRuleConfig :=
  let errs := check (maxCustomRules <? len rules) "waf.custom_rules cannot contain more entries" in
  let '(errs, _, out) := foldl rule_step (errs, ∅, []) (limited maxCustomRules rules) in
  (errs, out ++ drop (length out) rules).

(** ** Policies *)

Definition is_inf (x : float64) : bool := match x with S754_infinity _ => true | _ => false end.
Definition bad_rate (x : float64) : bool := fle x f_zero || is_nan x || is_inf x || flt maxRateLimitRequestsPerSecond x.

Definition validate_rate_limit (c : Limiter.RateLimitConfig) : list str :=
  if negb (Limiter.Enabled c) then []
  else
    check (bad_rate (Limiter.RequestsPerSecond c) || bad_rate (Limiter.GlobalRequestsPerSecond c)
           || outside 1 maxRateLimitBurst (Limiter.Burst c) || outside 1 maxRateLimitBurst (Limiter.GlobalBurst c))
      "rate_limit rates and bursts out of range"
    ++ check ((Limiter.CleanupInterval c <=? 0) || (Limiter.IdleTTL c <=? 0) || outside 2 maxRateLimitBuckets (Limiter.MaxBuckets c))
         "rate_limit lifecycle settings out of range".

Definition validate_auto_ban (c : BanManager.AutoBanConfig) : list str :=
  if negb (BanManager.Enabled c) then []
  else
    check (outside 1 maxAutoBanViolationThreshold (BanManager.ViolationThreshold c) || (BanManager.Window c <=? 0)
           || (BanManager.BanDuration c <=? 0) || outside 1 maxAutoBanTrackedClients (BanManager.MaxTrackedClients c))
      "auto_ban settings out of range".

Definition validatePolicy (p : Policy) : list str * Policy :=
  let mode := to_lower (trim_space (policy_mode p)) in
  let e1 :=
    check (negb (bool_decide (mode ∈ lits ["block"; "log"; "off"]))) "mode must be block, log, or off"
    ++ check (outside 1 1000 (anomaly_threshold p)) "anomaly_threshold out of range"
    ++ check (outside 0 (16 * 2 ^ 20) (max_inspection_body_bytes p)) "max_inspection_body_bytes out of range"
    ++ check (inspect_request_body p && (max_inspection_body_bytes p <=? 0)) "max_inspection_body_bytes must be positive"
    ++ check (maxPolicyBodyTypes <? len (body_content_types p)) "too many body_content_types"
    ++ check (maxPolicyMethods <? len (allowed_methods p)) "too many allowed_methods"
    ++ check (maxPolicyPathPrefixes <? len (excluded_path_prefixes p)) "too many excluded_path_prefixes"
    ++ check (maxPolicyDisabledRules <? len (disabled_rules p)) "too many disabled_rules"
    ++ check ((maxPolicyIPEntries <? len (ip_allowlist p)) || (maxPolicyIPEntries <? len (ip_denylist p))) "too many IP list entries" in
  let '(e2, bodyTypes) := entries body_type_entry "invalid media type" (limited maxPolicyBodyTypes (body_content_types p)) in
  let e3 :=
    check (inspect_request_body p && (len bodyTypes =? 0)) "body_content_types cannot be empty"
    ++ check (outside 1 (2 ^ 20) (max_path_bytes p) || outside 1 (16 * 2 ^ 20) (max_query_bytes p)) "path/query limits are invalid"
    ++ check (outside 1 10000 (max_header_count p) || outside 1 (16 * 2 ^ 20) (max_header_value_bytes p)) "header limits are invalid" in
  let '(e4, methods) := entries method_entry "invalid method" (limited maxPolicyMethods (allowed_methods p)) in
  let '(e5, excluded) := entries excluded_entry "invalid path" (limited maxPolicyPathPrefixes (excluded_path_prefixes p)) in
  let '(_, disabled) := entries disabled_entry "invalid rule" (limited maxPolicyDisabledRules (disabled_rules p)) in
  let '(e6, allow) := normalizeIPList (limited maxPolicyIPEntries (ip_allowlist p)) in
  let '(e7, deny) := normalizeIPList (limited maxPolicyIPEntries (ip_denylist p)) in
  let e8 := flat_map (λ item, check (bool_decide (item ∈ deny)) "entry in both allowlist and denylist") allow in
  (e1 ++ e2 ++ e3 ++ e4 ++ e5 ++ validate_rate_limit (rate_limit p) ++ validate_auto_ban (auto_ban p) ++ e6 ++ e7 ++ e8,
   mkPolicy (policy_enabled p) mode (anomaly_threshold p) (inspect_request_body p) (max_inspection_body_bytes p) bodyTypes methods
     excluded disabled allow deny (max_path_bytes p) (max_query_bytes p) (max_header_count p) (max_header_value_bytes p)
     (reject_encoded_request_bodies p) (reject_unsupported_body_types p) (block_on_inspection_limit p) (rate_limit p) (auto_ban p)).

Definition same_lifecycle (p d : Policy) : bool :=
  (Limiter.CleanupInterval (rate_limit p) =? Limiter.CleanupInterval (rate_limit d))
  && (Limiter.IdleTTL (rate_limit p) =? Limiter.IdleTTL (rate_limit d))
  && (Limiter.MaxBuckets (rate_limit p) =? Limiter.MaxBuckets (rate_limit d)).

(** One turn of the loop over the sorted names; [maxBody] is the limit of the server, [d] the default policy. *)
Definition policy_step (maxBody : Z) (d : Policy) (acc : list str * gmap str Policy) (name : str) : list str * gmap str Policy :=
  let '(errs, policies) := acc in
  match policies !! name with
  | None => acc
  | Some p =>
      let trimmedName := trim_space name in
      if trimmedName =?s [] then (errs ++ [lit "route policy name cannot be empty"], policies)
      else
        let errs :=
          errs ++ check (negb (trimmedName =?s name)) "route policy name must not contain surrounding whitespace"
          ++ check (equal_fold trimmedName reservedUnmatchedRouteName) "route policy name is reserved" in
        let '(e, p) := validatePolicy p in
        (errs ++ e
         ++ check (maxBody <? max_inspection_body_bytes p) "max_inspection_body_bytes cannot exceed max_request_body_bytes"
         ++ check (negb (same_lifecycle p d)) "rate_limit lifecycle must match default_policy"
         ++ check (negb (BanManager.MaxTrackedClients (auto_ban p) =? BanManager.MaxTrackedClients (auto_ban d)))
              "auto_ban.max_tracked_clients must match default_policy",
         <[name := p]> policies)
  end.

Definition validate_route_policies (maxBody : Z) (d : Policy) (policies : gmap str Policy) : list str * gmap str Policy :=
  if maxRoutePolicies <? Z.of_nat (size policies) then ([lit "too many route_policies"], policies)
  else foldl (policy_step maxBody d) ([], policies) (sorted_keys policies).

(** ** The server section *)

Definition validateTransport (t : TransportConfig) : list str :=
  flat_map (λ d, check (d <=? 0) "server.upstream_transport timeout must be positive")
    [tp_dial t; tp_handshake t; tp_header t; tp_expect t; tp_idle t]
  ++ check (outside 1 maxUpstreamConnections (tp_max_idle t) || outside 1 maxUpstreamConnections (tp_max_idle_per_host t)
            || outside 0 maxUpstreamConnections (tp_max_per_host t)) "server upstream connection limits out of range"
  ++ check (outside 1 maxUpstreamResponseHeaderBytes (tp_max_header t)) "max_response_header_bytes out of range".

Definition http_scheme (u : ParsedURL) : bool := (pu_scheme u =?s "http") || (pu_scheme u =?s "https").

(** [None] when the URL is refused. *)
Definition origin_url (raw : str) : option ParsedURL :=
  match parse_url raw with
  | Some u =>
      if negb (http_scheme u) || (pu_host u =?s []) || pu_user u || (negb (pu_path u =?s []) && negb (pu_path u =?s "/"))
         || negb (pu_query u =?s []) || negb (pu_fragment u =?s []) then None else Some u
  | None => None
  end.
Definition admin_url (raw : str) : option ParsedURL :=
  match parse_url raw with
  | Some u =>
      if negb (http_scheme u) || (pu_host u =?s []) || pu_user u || negb (pu_query u =?s []) || negb (pu_fragment u =?s [])
      then None else Some u
  | None => None
  end.

Definition validate_url (u : option ParsedURL) : list str :=
  match u with None => [lit "must be an absolute http(s) URL"] | Some u => validateURLPort u end.

Definition normalize_server (s : ServerConfig) : ServerConfig :=
  let hdr := trim_space (s_forwarded s) in
  mkServerConfig (to_lower (trim_space (s_mode s))) (trim_space (s_listen s)) (trim_space (s_upstream s))
    (s_read_header s) (s_read s) (s_write s) (s_idle s) (s_shutdown s) (s_max_header s) (s_max_body s) (s_max_concurrent s)
    (s_max_per_client s) (s_trusted s) (if hdr =?s [] then lit "X-Forwarded-For" else hdr) (s_preserve_host s)
    (s_security_headers s)
    (mkTLS (tls_enabled (s_tls s)) (trim_space (tls_cert (s_tls s))) (trim_space (tls_key (s_tls s)))) (s_transport s).

Definition with_trusted (l : slice) (s : ServerConfig) : ServerConfig :=
  mkServerConfig (s_mode s) (s_listen s) (s_upstream s) (s_read_header s) (s_read s) (s_write s) (s_idle s) (s_shutdown s)
    (s_max_header s) (s_max_body s) (s_max_concurrent s) (s_max_per_client s) l (s_forwarded s) (s_preserve_host s)
    (s_security_headers s) (s_tls s) (s_transport s).

Definition gateway_mode (s : ServerConfig) : bool := s_mode s =?s "gateway".

(** The section is normalised already, but for the trusted proxies. *)
Definition validate_server (s : ServerConfig) : list str * ServerConfig :=
  let e1 :=
    check (negb (gateway_mode s) && negb (s_mode s =?s "embedded")) "server.mode must be gateway or embedded"
    ++ (if gateway_mode s then validateListen (s_listen s) ++ validate_url (origin_url (s_upstream s)) else [])
    ++ check ((s_read_header s <=? 0) || (s_shutdown s <=? 0)) "server read_header_timeout and shutdown_timeout must be positive"
    ++ check ((s_read s <? 0) || (s_write s <? 0) || (s_idle s <? 0)) "server timeouts cannot be negative"
    ++ check (outside 1 (16 * 2 ^ 20) (s_max_header s)) "server.max_header_bytes out of range"
    ++ check (outside 1 (2 ^ 30) (s_max_body s)) "server.max_request_body_bytes out of range"
    ++ check ((s_max_concurrent s <=? 0) || (maxServerConcurrentRequests <? s_max_concurrent s) || (s_max_per_client s <=? 0)
              || (s_max_concurrent s <? s_max_per_client s)) "server concurrency limits out of range"
    ++ (if negb (validHTTPToken (s_forwarded s)) then [lit "server.forwarded_for_header is not a field name"]
        else check (reservedClientIPSourceHeader (s_forwarded s)) "server.forwarded_for_header is reserved")
    ++ check (maxTrustedProxyCIDRs <? len (items (s_trusted s))) "too many server.trusted_proxy_cidrs" in
  let '(e2, trusted) := entries trusted_entry "invalid server.trusted_proxy_cidrs entry" (limited maxTrustedProxyCIDRs (items (s_trusted s))) in
  (e1 ++ e2
   ++ check (tls_enabled (s_tls s) && negb (gateway_mode s)) "server.tls.enabled requires server.mode gateway"
   ++ check (tls_enabled (s_tls s) && ((tls_cert (s_tls s) =?s []) || (tls_key (s_tls s) =?s []))) "TLS files are required"
   ++ validateTransport (s_transport s),
   with_trusted (Some trusted) s).

(** ** The admin section *)

Definition normalize_admin (a : AdminConfig) : AdminConfig :=
  let l := a_log a in let h := a_history a in let c := a_connectivity a in let d := cn_dns c in
  mkAdminConfig (a_enabled a) (trim_space (a_listen a)) (trim_space (a_token a))
    (mkLogStore (ls_capacity l) (ls_default_page l) (ls_max_page l) (trim_space (ls_file l)) (ls_max_bytes l) (ls_backups l))
    (mkConnectivity (cn_enabled c) (cn_interval c) (cn_timeout c) (cn_stale c) (cn_history c)
       (mkDNS (dns_enabled d) (dns_critical d) (trim_space (dns_server d)) (dns_names d) (dns_expected d)))
    (mkTelemetry (th_enabled h) (th_capacity h) (th_interval h) (trim_space (th_file h)))
    (a_poll a) (a_max_body a) (a_failures a) (a_lockout a).

Definition with_connectivity (c : ConnectivityConfig) (a : AdminConfig) : AdminConfig :=
  mkAdminConfig (a_enabled a) (a_listen a) (a_token a) (a_log a) c (a_history a) (a_poll a) (a_max_body a) (a_failures a) (a_lockout a).

Definition validate_log_store (l : LogStoreConfig) : list str :=
  check (outside 1 maxAdminLogStoreCapacity (ls_capacity l)) "admin.log_store.capacity out of range"
  ++ (if ls_file l =?s [] then []
      else check (outside 1 maxAdminLogFileBytes (ls_max_bytes l)) "admin.log_store.max_file_bytes out of range"
           ++ check (outside 0 maxAdminLogBackups (ls_backups l)) "admin.log_store.max_backups out of range").

Definition validate_dns (d : DNSProbeConfig) : list str * DNSProbeConfig :=
  let e1 :=
    check (maxDNSProbeNames <? len (items (dns_names d))) "too many dns.names"
    ++ check (maxDNSExpectedAddresses <? len (items (dns_expected d))) "too many dns.expected_addresses"
    ++ validateHostPort (dns_server d) false in
  let '(e2, names) := entries dns_name_entry "invalid dns.names entry" (limited maxDNSProbeNames (items (dns_names d))) in
  let e3 := check (len names =? 0) "dns.names must contain at least one domain" in
  let '(e4, expected) := entries address_entry "invalid dns.expected_addresses entry" (limited maxDNSExpectedAddresses (items (dns_expected d))) in
  (e1 ++ e2 ++ e3 ++ e4, mkDNS (dns_enabled d) (dns_critical d) (dns_server d) (Some names) (Some expected)).

Definition validate_connectivity (c : ConnectivityConfig) : list str * ConnectivityConfig :=
  if negb (cn_enabled c) then ([], c)
  else
    let e1 :=
      check (outside second hour (cn_interval c)) "connectivity.check_interval out of range"
      ++ check ((cn_timeout c <=? 0) || (cn_interval c <? cn_timeout c)) "connectivity.timeout out of range"
      ++ check (cn_stale c <? cn_interval c) "connectivity.stale_after cannot be shorter than check_interval"
      ++ check (outside 1 10000 (cn_history c)) "connectivity.history_capacity out of range" in
    if negb (dns_enabled (cn_dns c)) then (e1, c)
    else
      let '(e2, d) := validate_dns (cn_dns c) in
      (e1 ++ e2, mkConnectivity (cn_enabled c) (cn_interval c) (cn_timeout c) (cn_stale c) (cn_history c) d).

Definition validate_history (h : TelemetryHistoryConfig) : list str :=
  if negb (th_enabled h) then []
  else check (outside 2 10000 (th_capacity h)) "telemetry_history.capacity out of range"
       ++ check (outside second hour (th_interval h)) "telemetry_history.sample_interval out of range".

Definition validate_admin (s : ServerConfig) (a : AdminConfig) : list str * AdminConfig :=
  if negb (a_enabled a) then ([], a)
  else
    let host := match SplitHostPort (a_listen a) with Some (host, _) => host | None => [] end in
    let l := a_log a in
    let e1 :=
      check (gateway_mode s && listenerEndpointsOverlap (s_listen s) (a_listen a)) "server.listen_addr and admin.listen_addr overlap"
      ++ validateListen (a_listen a)
      ++ check ((trim_space (a_token a) =?s []) && negb (isLoopback host)) "admin.auth_token is required"
      ++ check ((ls_default_page l <=? 0) || (ls_max_page l <=? 0)) "admin.log_store page sizes must be positive"
      ++ check ((ls_max_page l <? ls_default_page l) || (ls_capacity l <? ls_max_page l)) "default_page_size <= max_page_size <= capacity"
      ++ validate_history (a_history a) in
    let '(e2, c) := validate_connectivity (a_connectivity a) in
    (e1 ++ e2
     ++ check (outside 1 (16 * 2 ^ 20) (a_max_body a)) "admin.max_request_body_bytes out of range"
     ++ check ((a_poll a <=? 0) || (5 * minute <? a_poll a)) "admin.poll_timeout out of range"
     ++ check ((a_failures a <=? 0) || (a_lockout a <=? 0)) "admin auth failure and lockout settings must be positive",
     with_connectivity c a).

(** ** [Validate] *)

Definition normalize_edge (e : EdgeProxyConfig) : EdgeProxyConfig :=
  mkEdgeProxy (trim_space (ep_path e)) (trim_space (ep_url e)) (trim_space (ep_token e)) (ep_timeout e).

Definition validate_edge (e : EdgeProxyConfig) : list str :=
  check (ep_path e =?s []) "edgeproxy.config_path is required"
  ++ (if ep_url e =?s [] then [lit "edgeproxy.admin_url is required"] else validate_url (admin_url (ep_url e)))
  ++ check ((ep_timeout e <=? 0) || (5 * minute <? ep_timeout e)) "edgeproxy.timeout out of range".

Definition validate_token (token : str) : list str := if token =?s [] then [] else validateBearerCredential token.

Definition Validate (c : Config) : list str * Config :=
  let s := normalize_server (server c) in
  let a := normalize_admin (admin c) in
  let e := normalize_edge (edgeproxy c) in
  let '(e1, s) := validate_server s in
  let '(e2, a') := validate_admin s a in
  let '(e3, rules) := validateCustomRules (waf_rules (waf c)) in
  let '(e4, d) := validatePolicy (default_policy c) in
  let '(e5, policies) := validate_route_policies (s_max_body s) d (route_policies c) in
  (validate_token (a_token a) ++ validate_token (ep_token e) ++ e1 ++ validate_log_store (a_log a) ++ e2 ++ validate_edge e
   ++ check (outside 1 256 (waf_max (waf c))) "waf.maximum_matches_per_request out of range" ++ e3 ++ e4
   ++ check (s_max_body s <? max_inspection_body_bytes d) "default_policy.max_inspection_body_bytes cannot exceed max_request_body_bytes"
   ++ e5,
   mkConfig s a' e (mkWAF (waf_max (waf c)) ((λ _, rules) <$> waf_custom (waf c))) d policies).

End rules.

(** ** The environment *)

Section env.
Context {U : Unicode}.
Import Environment.
Context (env : environment).

(** As in EdgeProxy's config.go. *)
Definition nonEmptyEnvironment : str → option str := Environment.nonEmptyEnvironment env.
Definition splitEnvironmentList : str → list str := Environment.splitEnvironmentList.
Definition string_env : str → str → str := Environment.applyStringEnv env.
Definition list_env (key : str) (target : slice) : slice :=
  match nonEmptyEnvironment key with Some value => Some (splitEnvironmentList value) | None => target end.
(** [None] when the value is no boolean. *)
Definition bool_env (key : str) (target : bool) : option bool :=
  match nonEmptyEnvironment key with Some value => parse_bool value | None => Some target end.

Definition override_server (s : ServerConfig) (tls_on : bool) : ServerConfig :=
  mkServerConfig (s_mode s) (string_env "SECURITYEDGE_SERVER_LISTEN_ADDR" (s_listen s))
    (string_env "SECURITYEDGE_UPSTREAM_PROXY_URL" (s_upstream s)) (s_read_header s) (s_read s) (s_write s) (s_idle s) (s_shutdown s)
    (s_max_header s) (s_max_body s) (s_max_concurrent s) (s_max_per_client s)
    (list_env "SECURITYEDGE_TRUSTED_PROXY_CIDRS" (s_trusted s)) (string_env "SECURITYEDGE_FORWARDED_FOR_HEADER" (s_forwarded s))
    (s_preserve_host s) (s_security_headers s)
    (mkTLS tls_on (string_env "SECURITYEDGE_TLS_CERT_FILE" (tls_cert (s_tls s))) (string_env "SECURITYEDGE_TLS_KEY_FILE" (tls_key (s_tls s))))
    (s_transport s).

Definition override_dns (d : DNSProbeConfig) (on critical : bool) : DNSProbeConfig :=
  mkDNS on critical (string_env "SECURITYEDGE_DNS_SERVER" (dns_server d)) (list_env "SECURITYEDGE_DNS_NAMES" (dns_names d))
    (list_env "SECURITYEDGE_DNS_EXPECTED_ADDRESSES" (dns_expected d)).

Definition override_admin (a : AdminConfig) (on critical : bool) : AdminConfig :=
  let l := a_log a in let h := a_history a in let c := a_connectivity a in
  mkAdminConfig (a_enabled a) (string_env "SECURITYEDGE_ADMIN_LISTEN_ADDR" (a_listen a)) (string_env "SECURITYEDGE_ADMIN_TOKEN" (a_token a))
    (mkLogStore (ls_capacity l) (ls_default_page l) (ls_max_page l) (string_env "SECURITYEDGE_LOG_FILE_PATH" (ls_file l))
       (ls_max_bytes l) (ls_backups l))
    (mkConnectivity (cn_enabled c) (cn_interval c) (cn_timeout c) (cn_stale c) (cn_history c) (override_dns (cn_dns c) on critical))
    (mkTelemetry (th_enabled h) (th_capacity h) (th_interval h) (string_env "SECURITYEDGE_TELEMETRY_HISTORY_FILE" (th_file h)))
    (a_poll a) (a_max_body a) (a_failures a) (a_lockout a).

Definition override_edge (e : EdgeProxyConfig) : EdgeProxyConfig :=
  mkEdgeProxy (string_env "SECURITYEDGE_EDGEPROXY_CONFIG_PATH" (ep_path e)) (string_env "SECURITYEDGE_EDGEPROXY_ADMIN_URL" (ep_url e))
    (string_env "EDGEPROXY_ADMIN_TOKEN" (ep_token e)) (ep_timeout e).

(** The callers discard the configuration when there is an error. *)
Definition ApplyEnvironmentOverrides (c : Config) : str + Config :=
  let d := cn_dns (a_connectivity (admin c)) in
  match bool_env "SECURITYEDGE_TLS_ENABLED" (tls_enabled (s_tls (server c))) with
  | None => inl (lit "SECURITYEDGE_TLS_ENABLED must be a boolean")
  | Some tls =>
      match bool_env "SECURITYEDGE_DNS_ENABLED" (dns_enabled d) with
      | None => inl (lit "SECURITYEDGE_DNS_ENABLED must be a boolean")
      | Some on =>
          match bool_env "SECURITYEDGE_DNS_CRITICAL" (dns_critical d) with
          | None => inl (lit "SECURITYEDGE_DNS_CRITICAL must be a boolean")
          | Some critical =>
              inr (mkConfig (override_server (server c) tls) (override_admin (admin c) on critical) (override_edge (edgeproxy c))
                     (waf c) (default_policy c) (route_policies c))
          end
      end
  end.

(** The fields an override can pin: the variable, the name, and whether it changes. *)
Definition managed_fields (c n : Config) : list (str * str * bool) :=
  let s := server c in let s' := server n in let a := admin c in let a' := admin n in
  let d := cn_dns (a_connectivity a) in let d' := cn_dns (a_connectivity a') in
  let e := edgeproxy c in let e' := edgeproxy n in
  let differ (x y : str) := negb (x =?s y) in
  [(lit "SECURITYEDGE_SERVER_LISTEN_ADDR", lit "server.listen_addr", differ (s_listen s) (s_listen s'));
   (lit "SECURITYEDGE_UPSTREAM_PROXY_URL", lit "server.upstream_proxy_url", differ (s_upstream s) (s_upstream s'));
   (lit "SECURITYEDGE_FORWARDED_FOR_HEADER", lit "server.forwarded_for_header", differ (s_forwarded s) (s_forwarded s'));
   (lit "SECURITYEDGE_TRUSTED_PROXY_CIDRS", lit "server.trusted_proxy_cidrs", negb (bool_decide (s_trusted s = s_trusted s')));
   (lit "SECURITYEDGE_TLS_ENABLED", lit "server.tls.enabled", negb (eqb (tls_enabled (s_tls s)) (tls_enabled (s_tls s'))));
   (lit "SECURITYEDGE_TLS_CERT_FILE", lit "server.tls.cert_file", differ (tls_cert (s_tls s)) (tls_cert (s_tls s')));
   (lit "SECURITYEDGE_TLS_KEY_FILE", lit "server.tls.key_file", differ (tls_key (s_tls s)) (tls_key (s_tls s')));
   (lit "SECURITYEDGE_ADMIN_LISTEN_ADDR", lit "admin.listen_addr", differ (a_listen a) (a_listen a'));
   (lit "SECURITYEDGE_ADMIN_TOKEN", lit "admin.auth_token", differ (a_token a) (a_token a'));
   (lit "SECURITYEDGE_LOG_FILE_PATH", lit "admin.log_store.file_path", differ (ls_file (a_log a)) (ls_file (a_log a')));
   (lit "SECURITYEDGE_TELEMETRY_HISTORY_FILE", lit "admin.telemetry_history.file_path",
      differ (th_file (a_history a)) (th_file (a_history a')));
   (lit "SECURITYEDGE_DNS_SERVER", lit "admin.connectivity.dns.server", differ (dns_server d) (dns_server d'));
   (lit "SECURITYEDGE_DNS_NAMES", lit "admin.connectivity.dns.names", negb (bool_decide (dns_names d = dns_names d')));
   (lit "SECURITYEDGE_DNS_EXPECTED_ADDRESSES", lit "admin.connectivity.dns.expected_addresses",
      negb (bool_decide (dns_expected d = dns_expected d')));
   (lit "SECURITYEDGE_DNS_ENABLED", lit "admin.connectivity.dns.enabled", negb (eqb (dns_enabled d) (dns_enabled d')));
   (lit "SECURITYEDGE_DNS_CRITICAL", lit "admin.connectivity.dns.critical", negb (eqb (dns_critical d) (dns_critical d')));
   (lit "SECURITYEDGE_EDGEPROXY_CONFIG_PATH", lit "edgeproxy.config_path", differ (ep_path e) (ep_path e'));
   (lit "SECURITYEDGE_EDGEPROXY_ADMIN_URL", lit "edgeproxy.admin_url", differ (ep_url e) (ep_url e'));
   (lit "EDGEPROXY_ADMIN_TOKEN", lit "edgeproxy.admin_token", differ (ep_token e) (ep_token e'))].

Definition locked_fields (c n : Config) : list str :=
  foldl (λ locked f, let '(key, field, changed) := f in add_locked env key field changed locked) [] (managed_fields c n).

(** [None] is success; otherwise the fields of the message. *)
Definition ValidateEnvironmentManagedChanges (current next : Config) : option (list str) :=
  let locked := locked_fields current next in
  if 0 <? len locked then Some locked else None.

End env.
End SecConfig.
