(* ===== verification/Gateway.v ===== *)
(** * The security gateway: apps/securityedge/internal/gateway/handler.go

    [ServeHTTP] as a function of the shared state (rate limiter, bans,
    admission), of the request and of an environment that says what the outside
    does: the clock, the random request id, the other requests that run between
    two accesses to the shared state ([ge_meanwhile]), the temporary file, the
    client's context and the downstream handler, which is the sequence of calls
    it makes on the response writer.  Metrics, the traffic tracker and the text
    of log records are not modelled; whether a request is logged is. *)

From S2P Require Import Prelude GoStr GoPath GoHttp GoCodec GoText NetIP GoFloat RateLimit Admission Router ClientIP SecPolicy Waf.

Module Gateway.
Import Waf.

(** ** Headers of a decision *)

Definition security_headers (security : bool) (h : header) : header :=
  if security then
    header_set (header_set (header_set (header_set h "X-Content-Type-Options" "nosniff")
      "Referrer-Policy" "strict-origin-when-cross-origin") "X-Frame-Options" "DENY")
      "Permissions-Policy" "camera=(), microphone=(), geolocation=()"
  else h.

Definition setDecisionHeaders (h : header) (action : str) (score : Z) (security : bool) : header :=
  header_set (header_set (security_headers security h) "X-Security-Action" action) "X-Security-Score" (itoa score).

Definition setBaseHeaders (h : header) (id action : str) (score : Z) (security : bool) : header :=
  security_headers security
    (header_set (header_set (header_set h "X-Request-ID" id) "X-Security-Action" action) "X-Security-Score" (itoa score)).

(** The response of [writeBlocked]: status, header and the code in the body. *)
Record reply := mkReply { rp_status : Z; rp_header : header; rp_code : str }.

Definition writeBlocked (h : header) (status : Z) (code id : str) : reply :=
  mkReply status
    (header_set (header_set (header_set (header_set h "X-Request-ID" id) "Content-Type" "application/json; charset=utf-8")
       "Cache-Control" "no-store") "X-Content-Type-Options" "nosniff")
    code.

(** [d.Round(time.Second)] and the whole seconds of it, at least one. *)
Definition round_second (d : duration) : duration :=
  let r := Z.rem d second in
  if d <? 0 then
    let r := - r in
    if 2 * r <? second then d + r else let d1 := wrap64 (d - second + r) in if d1 <? d then d1 else min_int64
  else if 2 * r <? second then d - r
  else let d1 := wrap64 (d + second - r) in if d <? d1 then d1 else max_int64.
Definition retrySeconds (d : duration) : str := itoa (Z.max 1 (Z.quot (round_second d) second)).

(** ** The response writer handed to the next handler *)

Record decisionWriter := mkWriter {
  dw_id : str;
  dw_action : str;
  dw_score : Z;
  dw_security : bool;
  dw_tracked : bool;             (* bodyLimit != nil *)
  dw_exceeded : bool;            (* bodyLimit.exceeded *)
  dw_status : Z;
  dw_header : header;
  dw_sent : list (Z * header);   (* the WriteHeader calls that reach the client *)
}.

(** What the next handler does with it, or with the request body. *)
Inductive wop :=
  | OHeader (h : header)         (* changes the header map *)
  | OWriteHeader (status : Z)
  | OWrite
  | OReadFrom
  | OFlush (flusher : bool)
  | OHijack (ok : bool)          (* the connection is hijacked, its deadline cleared and tracked *)
  | OLimit.                      (* the body's reader passes the limit *)

Definition requestBodyLimitExceeded (w : decisionWriter) : bool := dw_tracked w && dw_exceeded w.

Definition base_headers (w : decisionWriter) (h : header) : header :=
  setBaseHeaders h (dw_id w) (dw_action w) (dw_score w) (dw_security w).

Definition WriteHeader (status : Z) (w : decisionWriter) : decisionWriter :=
  if (100 <=? status) && (status <? 200) && negb (status =? 101) then
    let h := base_headers w (dw_header w) in
    mkWriter (dw_id w) (dw_action w) (dw_score w) (dw_security w) (dw_tracked w) (dw_exceeded w) (dw_status w) h
      (dw_sent w ++ [(status, h)])
  else if negb (dw_status w =? 0) then w
  else
    let '(status, action) := if requestBodyLimitExceeded w then (413, lit "BLOCK") else (status, dw_action w) in
    let h := setBaseHeaders (dw_header w) (dw_id w) action (dw_score w) (dw_security w) in
    mkWriter (dw_id w) action (dw_score w) (dw_security w) (dw_tracked w) (dw_exceeded w) status h
      (dw_sent w ++ [(status, h)]).

Definition ensure_header (status : Z) (w : decisionWriter) : decisionWriter :=
  if dw_status w =? 0 then WriteHeader status w else w.

Definition writer_op (w : decisionWriter) (o : wop) : decisionWriter :=
  let set h status exceeded :=
    mkWriter (dw_id w) (dw_action w) (dw_score w) (dw_security w) (dw_tracked w) exceeded status h (dw_sent w) in
  match o with
  | OHeader h => set h (dw_status w) (dw_exceeded w)
  | OWriteHeader status => WriteHeader status w
  | OWrite | OReadFrom => ensure_header 200 w
  | OFlush flusher => if flusher then ensure_header 200 w else w
  | OHijack ok =>
      set (base_headers w (dw_header w)) (if ok && (dw_status w =? 0) then 101 else dw_status w) (dw_exceeded w)
  | OLimit => set (dw_header w) (dw_status w) true
  end.

Definition Status (w : decisionWriter) : Z := if dw_status w =? 0 then 200 else dw_status w.

Definition EnforceBodyLimit (w : decisionWriter) : bool * decisionWriter :=
  if negb (requestBodyLimitExceeded w) then (false, w)
  else
    let w := mkWriter (dw_id w) "BLOCK" (dw_score w) (dw_security w) (dw_tracked w) (dw_exceeded w) (dw_status w)
               (dw_header w) (dw_sent w) in
    (true, ensure_header 413 w).

Definition Finalize (w : decisionWriter) : decisionWriter := ensure_header 200 w.

(** ** The shape of a request *)

Definition headerFieldCount (h : header) : Z :=
  zsum (λ kv : str * list str, match snd kv with [] => 1 | values => len values end) (map_to_list h).

Section shape.
Context {U : Unicode} {L : WafLib}.

Definition requestHeaderFieldCount (r : Inbound) : Z :=
  headerFieldCount (in_header r) + headerFieldCount (in_trailer r)
  + (if negb (trim_space (req_host (in_req r)) =?s []) then 1 else 0).

Definition requestHasBody (r : Inbound) : bool := bool_decide (is_Some (in_body r)) && negb (in_length r =? 0).
Definition requestNeedsBodyStaging (r : Inbound) : bool :=
  bool_decide (is_Some (in_body r)) && ((in_length r <? 0) || (0 <? Z.of_nat (size (in_trailer r)))).

Definition requestHasNonIdentityContentEncoding (values : list str) : bool :=
  existsb (λ value, existsb (λ raw, let encoding := trim_space raw in
                                    negb (encoding =?s []) && negb (equal_fold encoding "identity")) (split value ","))
    values.

Definition contentTypeAllowed (raw : str) (allowed : list str) : bool :=
  let mediaType := match parse_media_type raw with
                   | (t, true) => t
                   | (_, false) => trim_space (fst (fst (cut raw ";")))
                   end in
  existsb (λ item, equal_fold (trim_space item) mediaType) allowed.

(** Some field value is longer than [maximum]. *)
Definition value_too_large (maximum : Z) (h : header) : bool :=
  existsb (λ kv : str * list str, existsb (λ v, maximum <? len v) (snd kv)) (map_to_list h).

(** [None] is (0, ""). *)
Definition validateRequestShape (r : Inbound) (policy : Policy) (server : SecServerConfig) : option (Z * str) :=
  let host := req_host (in_req r) in
  let h := in_header r in
  if max_path_bytes policy <? len (in_escaped_path r) then Some (414, lit "path_too_large")
  else if max_query_bytes policy <? len (url_rawquery (in_url r)) then Some (414, lit "query_too_large")
  else if max_header_count policy <? requestHeaderFieldCount r then Some (431, lit "too_many_headers")
  else if (max_header_value_bytes policy <? len host)
          || value_too_large (max_header_value_bytes policy) h
          || value_too_large (max_header_value_bytes policy) (in_trailer r) then Some (431, lit "header_value_too_large")
  else if max_request_body_bytes server <? in_length r then Some (413, lit "body_too_large")
  else if reject_encoded_request_bodies policy
          && requestHasNonIdentityContentEncoding (header_values h "Content-Encoding") then Some (415, lit "encoded_body_rejected")
  else if requestHasBody r && (1 <? len (header_values h "Content-Type")) then Some (415, lit "unsupported_body_type")
  else if requestHasBody r && inspect_request_body policy && reject_unsupported_body_types policy
          && negb (contentTypeAllowed (header_get h "Content-Type") (body_content_types policy))
  then Some (415, lit "unsupported_body_type")
  else if (host =?s []) || contains_any host [chr 13; chr 10; chr 0] then Some (400, lit "invalid_host")
  else None.

Definition methodAllowed (method : str) (allowed : list str) : bool :=
  match allowed with [] => true | _ => existsb (λ m, equal_fold method m) allowed end.

Definition ipMatches (ip : str) (entries : list str) : bool :=
  match ParseIP ip with
  | None => false
  | Some parsed =>
      existsb (λ raw, let raw := trim_space raw in
        if raw =?s [] then false
        else match ParseIP raw with
             | Some candidate => ip_equal candidate parsed
             | None => false
             end
             || match ParseCIDR raw with Some network => net_contains network parsed | None => false end) entries
  end.
End shape.

(** ** The body *)

(** The temporary file, and the trailers that are known once the body was read. *)
Record stage_io := mkStage { st_create : bool; st_write : bool; st_close : bool; st_seek : bool; st_trailer : header }.

Inductive staged := StageNone | StageTooLarge | StageError (e : read_error) | Staged (r : Inbound).

Definition stageRequestBody (r : Inbound) (maxBytes : Z) (io : stage_io) : staged :=
  match in_body r with
  | None => StageNone
  | Some b =>
      if maxBytes <=? 0 then StageNone
      else if negb (st_create io) then StageError ReadFailed
      else if negb (st_write io) then StageError ReadFailed
      else match read_all (limit_reader b (wrap64 (maxBytes + 1))) with
      | inr MaxBytes => StageTooLarge
      | inr e => StageError e
      | inl data =>
          if negb (st_close io) then StageError ReadFailed
          else if maxBytes <? len data then StageTooLarge
          else if negb (st_seek io) then StageError ReadFailed
          else Staged (mkInbound (in_req r) (in_rawpath r) (st_trailer io) (Some (mkBody data None)) (in_length r))
      end
  end.

(** [http.MaxBytesReader] *)
Definition max_bytes_reader (b : Body) (n : Z) : Body :=
  if n <? len (body_data b) then mkBody (take (Z.to_nat n) (body_data b)) (Some MaxBytes) else b.

(** The request with its body limited, and whether the limit is tracked. *)
Definition trackRequestBodyLimit (r : Inbound) (maxBytes : Z) : Inbound * bool :=
  match in_body r with
  | None => (r, false)
  | Some b => if maxBytes <=? 0 then (r, false) else (with_body (Some (max_bytes_reader b maxBytes)) r, true)
  end.

(** ** Decisions *)

Record rejection := mkReject {
  rj_violation : bool;           (* recordViolation is called *)
  rj_action : str;
  rj_reason : str;
  rj_status : Z;
  rj_code : str;
  rj_error : bool;               (* processingErr != nil *)
  rj_extra : list (str * str);   (* Retry-After, Allow *)
  rj_retry : duration;
  rj_scope : str;
}.

Definition block (violation : bool) (reason : str) (status : Z) (code : str) : rejection :=
  mkReject violation "BLOCK" reason status code false [] 0 [].
Definition failure (reason : str) (code : str) : rejection := mkReject false "BLOCK" reason 400 code true [] 0 [].

Definition no_result : Result := mkResult 0 [] false false false false.

Inductive decision :=
  | Reject (rj : rejection) (res : Result)
  | Cancel
  | Forward (r : Inbound) (tracked : bool) (action reason : str) (res : Result).

(** The state the requests share. *)
Record gw := mkGw { gw_buckets : Limiter.buckets; gw_bans : BanManager.BanManager; gw_admission : Admission.Limiter }.
Definition with_buckets b (s : gw) : gw := mkGw b (gw_bans s) (gw_admission s).
Definition with_bans b (s : gw) : gw := mkGw (gw_buckets s) b (gw_admission s).
Definition with_admission a (s : gw) : gw := mkGw (gw_buckets s) (gw_bans s) a.

(** The accesses to the shared state; the clock is read at each of them. *)
Inductive point := AtAdmission | AtBan | AtRate | AtViolation | AtRelease.

Record genv := mkEnv {
  ge_id : str;
  ge_now : point → time;
  ge_meanwhile : point → gw → gw;
  ge_context_done : bool;
  ge_stage : stage_io;
  ge_next : Inbound → list wop;
}.

(** The collaborators [New] is given. *)
Record parts := mkParts {
  p_routes : list Routes.Route;
  p_policy : str → Policy;
  p_server : SecServerConfig;
  p_inspector : Inspector;
  p_clients : Resolver.Resolver;
  p_enum : gmap str BanManager.violation → list (str * BanManager.violation);
}.

Section serve.
Context {U : Unicode} {SH : Sha256} {L : WafLib} {FM : FloatMath}.

(** [prepareBody] *)
Definition prepareBody (e : genv) (policy : Policy) (server : SecServerConfig) (r : Inbound) : decision + (Inbound * bool) :=
  let reject rj := inl (Reject rj no_result) in
  let checked r :=
    match validateRequestShape r policy server with
    | Some (code, reason) => reject (block true reason code reason)
    | None => inr (trackRequestBodyLimit r (max_request_body_bytes server))
    end in
  if requestNeedsBodyStaging r then
    match stageRequestBody r (max_request_body_bytes server) (ge_stage e) with
    | StageTooLarge => reject (block true "body_too_large" 413 "body_too_large")
    | StageError LongTrailer => reject (block true "header_value_too_large" 431 "header_value_too_large")
    | StageError _ => if ge_context_done e then inl Cancel else reject (failure "body_read_failed" "body_read_failed")
    | StageNone => checked r
    | Staged r => checked r
    end
  else inr (trackRequestBodyLimit r (max_request_body_bytes server)).

Definition check_ban (e : genv) (client : str) (s : gw) : option rejection * gw :=
  let s := ge_meanwhile e AtBan s in
  let '((blocked, retry), bans) := BanManager.IsBanned client (ge_now e AtBan) (gw_bans s) in
  (if blocked
   then Some (mkReject false "BANNED" "temporary_auto_ban" 429 "temporarily_banned" false
                [(lit "Retry-After", retrySeconds retry)] retry [])
   else None, with_bans bans s).

Definition check_rate (e : genv) (route client : str) (policy : Policy) (s : gw) : option rejection * gw :=
  let s := ge_meanwhile e AtRate s in
  let '(d, b) := Limiter.Allow route client (rate_limit policy) (ge_now e AtRate) (gw_buckets s) in
  let reason := if Limiter.Reason d =?s "bucket_capacity" then lit "rate_limit_capacity"
                else if Limiter.Scope d =?s "global" then lit "global_rate_limit" else lit "client_rate_limit" in
  (if Limiter.Allowed d then None
   else Some (mkReject ((Limiter.Scope d =?s "client") && (Limiter.Reason d =?s "rate_exceeded")) "RATE_LIMIT" reason 429
                "rate_limited" false [(lit "Retry-After", retrySeconds (Limiter.RetryAfter d))] (Limiter.RetryAfter d) (Limiter.Scope d)),
   with_buckets b s).

(** The inspection of a prepared request and what follows from it. *)
Definition inspect_request (e : genv) (i : Inspector) (policy : Policy) (r : Inbound) (tracked : bool) : decision :=
  match Inspect i r policy with
  | (inl MaxBytes, _) => Reject (block true "body_too_large" 413 "body_too_large") no_result
  | (inl _, _) => if ge_context_done e then Cancel else Reject (failure "inspection_failed" "inspection_failed") no_result
  | (inr res, r) =>
      if r_body_truncated res && block_on_inspection_limit policy
      then Reject (block true "inspection_limit_exceeded" 413 "inspection_limit_exceeded") res
      else if negb (r_excluded res) && (0 <? len (r_matches res)) then
        if (anomaly_threshold policy <=? r_score res) && (policy_mode policy =?s "block")
        then Reject (block true "waf_threshold" 403 "waf_blocked") res
        else Forward r tracked "LOG" "waf_detection" res
      else Forward r tracked "ALLOW" [] res
  end.

(** The decision on an admitted request. *)
Definition decide_request (e : genv) (p : parts) (route client : str) (policy : Policy) (r : Inbound) (s : gw) : decision * gw :=
  match validateRequestShape r policy (p_server p) with
  | Some (code, reason) => (Reject (block true reason code reason) no_result, s)
  | None =>
      let r := with_header (header_set (in_header r) "X-Request-ID" (ge_id e)) r in
      let allowlisted := ipMatches client (ip_allowlist policy) in
      let '(banned, s) := if allowlisted then (None, s) else check_ban e client s in
      match banned with
      | Some rj => (Reject rj no_result, s)
      | None =>
          if negb (policy_enabled policy) || (policy_mode policy =?s "off") || allowlisted then
            (match prepareBody e policy (p_server p) r with
             | inl d => d
             | inr (r, tracked) => Forward r tracked "ALLOW" [] no_result
             end, s)
          else if ipMatches client (ip_denylist policy)
          then (Reject (block true "ip_denied" 403 "ip_denied") no_result, s)
          else if negb (methodAllowed (req_method (in_req r)) (allowed_methods policy))
          then (Reject (mkReject false "BLOCK" "method_not_allowed" 405 "method_not_allowed" false
                          [(lit "Allow", join ", " (allowed_methods policy))] 0 []) no_result, s)
          else
            let '(limited, s) := check_rate e route client policy s in
            match limited with
            | Some rj => (Reject rj no_result, s)
            | None =>
                (match prepareBody e policy (p_server p) r with
                 | inl d => d
                 | inr (r, tracked) => inspect_request e (p_inspector p) policy r tracked
                 end, s)
            end
      end
  end.

(** What [complete] reports. *)
Record outcome := mkOutcome {
  o_route : str;
  o_client : str;
  o_action : str;
  o_reason : str;
  o_status : Z;
  o_result : Result;
  o_auto_banned : bool;
  o_canceled : bool;
  o_error : bool;
  o_retry : duration;
  o_scope : str;
  o_reply : option reply;                         (* writeBlocked *)
  o_forwarded : option (Inbound * decisionWriter);  (* the request the next handler got, and its writer at the end *)
}.

Definition recordViolation (e : genv) (p : parts) (client : str) (policy : Policy) (s : gw) : bool * gw :=
  let s := ge_meanwhile e AtViolation s in
  let '((banned, _), bans) := BanManager.RecordViolation (p_enum p) client (auto_ban policy) (ge_now e AtViolation) (gw_bans s) in
  (banned, with_bans bans s).

Definition reject_reply (e : genv) (w : header) (score : Z) (security : bool) (rj : rejection) : reply :=
  let h := setDecisionHeaders w (rj_action rj) score security in
  let h := foldl (λ h kv, header_set h (fst kv) (snd kv)) h (rj_extra rj) in
  writeBlocked h (rj_status rj) (rj_code rj) (ge_id e).

(** The response writer at the end of the forwarded request, and whether the body
    limit was passed. *)
Definition forward (e : genv) (w : header) (r : Inbound) (tracked : bool) (action : str) (score : Z) (security : bool)
    : bool * decisionWriter :=
  let h := setDecisionHeaders w action score security in
  let writer := foldl writer_op (mkWriter (ge_id e) action score security tracked false 0 h []) (ge_next e r) in
  let '(over, writer) := EnforceBodyLimit writer in
  (over, Finalize writer).

(** [w] is the header of the response before the handler runs. *)
Definition conclude (e : genv) (p : parts) (w : header) (route client : str) (policy : Policy) (d : decision) (s : gw)
    : outcome * gw :=
  let security := add_security_headers (p_server p) in
  match d with
  | Cancel => (mkOutcome route client "CANCELED" "client_canceled" 0 no_result false true false 0 [] None None, s)
  | Reject rj res =>
      let '(banned, s) := if rj_violation rj then recordViolation e p client policy s else (false, s) in
      (mkOutcome route client (rj_action rj) (rj_reason rj) (rj_status rj) res banned false (rj_error rj) (rj_retry rj)
         (rj_scope rj) (Some (reject_reply e w (r_score res) security rj)) None, s)
  | Forward r tracked action reason res =>
      let '(over, writer) := forward e w r tracked action (r_score res) security in
      let '(banned, s) := if over then recordViolation e p client policy s else (false, s) in
      (mkOutcome route client (if over then "BLOCK" else action) (if over then lit "body_too_large" else reason) (Status writer) res
         banned false false 0 [] None (Some (r, writer)), s)
  end.

Definition overload (reason : str) : rejection :=
  mkReject (reason =?s "client_concurrency") "OVERLOAD" reason 503 "server_busy" false [(lit "Retry-After", lit "1")] second [].

Definition ServeHTTP (e : genv) (p : parts) (w : header) (r : Inbound) (s : gw) : outcome * gw :=
  let route := match Routes.Match (p_routes p) (in_req r) with
               | Some matched => Routes.Name matched | None => lit "__unmatched__" end in
  let policy := p_policy p route in
  let client := Resolver.Resolve (p_clients p) (in_req r) in
  let s := ge_meanwhile e AtAdmission s in
  match Admission.Acquire client (max_concurrent_requests (p_server p)) (max_concurrent_per_client (p_server p)) (gw_admission s) with
  | inl reason => conclude e p w route client policy (Reject (overload reason) no_result) s
  | inr adm =>
      let '(d, s) := decide_request e p route client policy r (with_admission adm s) in
      let '(o, s) := conclude e p w route client policy d s in
      let s := ge_meanwhile e AtRelease s in
      (o, with_admission (Admission.release_once client (gw_admission s)) s)
  end.

(** ** Telemetry *)

Fixpoint ruleData_loop (ms : list Match) (seenI seenC : gset str) (ids cats : list str) : list str * list str :=
  match ms with
  | [] => (ids, cats)
  | m :: ms =>
      let newI := negb (bool_decide (m_rule m ∈ seenI)) in
      let newC := negb (bool_decide (m_category m ∈ seenC)) in
      ruleData_loop ms ({[ m_rule m ]} ∪ seenI) ({[ m_category m ]} ∪ seenC)
        (if newI then ids ++ [m_rule m] else ids) (if newC then cats ++ [m_category m] else cats)
  end.
Definition ruleData (ms : list Match) : list str * list str := ruleData_loop ms ∅ ∅ [] [].

(** Whether [complete] appends a log record. *)
Definition logged (o : outcome) : bool :=
  negb (o_canceled o) && (negb (o_action o =?s "ALLOW") || (0 <? len (r_matches (o_result o))) || o_error o).

(** (level, event) of the record. *)
Definition log_event (o : outcome) : str * str :=
  if o_error o then (lit "ERROR", lit "inspection_error")
  else if o_action o =?s "BLOCK" then (lit "WARN", lit "waf_blocked")
  else if o_action o =?s "LOG" then (lit "WARN", lit "waf_detected")
  else if o_action o =?s "RATE_LIMIT" then (lit "WARN", lit "rate_limited")
  else if o_action o =?s "OVERLOAD" then (lit "WARN", lit "overload_rejected")
  else if o_action o =?s "BANNED" then (lit "WARN", lit "auto_ban_rejected")
  else (lit "INFO", lit "waf_allowed").

Definition path_fingerprint (value : str) : str := if value =?s [] then [] else hex_encode (take 16 (sha256 value)).

Definition logSafePath (path action reason : str) (detected : bool) : str * str :=
  let fp := path_fingerprint path in
  if detected || (action =?s "BLOCK") || contains reason "path" || contains reason "query" || contains reason "header"
     || contains reason "body"
  then (lit "[redacted]", fp)
  else if path =?s [] then (lit "/", fp)
  else if 512 <? len path then (take 512 path, fp) else (path, fp).
End serve.
End Gateway.
