(* ===== verification/SecConfigFacts.v ===== *)
(** * What a validated configuration of SecurityEdge is good for

    Validating it again changes nothing, its lists say what was written in the
    file, and an update that the guard accepts is not masked by the environment. *)

From stdpp Require Import sorting.
From S2P Require Import Prelude GoStr GoPath GoHttp GoCodec GoText NetIP NetIPFacts GoFloat Config ConfigValidate ConfigFacts ConfigStable ConfigEnv RateLimit SecPolicy Waf SecConfig Gateway.

Module SecFacts.
Import Validation SecConfig.

(** ** Lists of normalised entries *)

Lemma entries_step f msg l : let '(errs, out, seen) := foldl (entry_step f msg) ([], [], ∅) l in
  NoDup out ∧ (∀ v, v ∈ seen ↔ v ∈ out) ∧ (∀ v, v ∈ out ↔ ∃ raw, raw ∈ l ∧ f raw = Good v)
  ∧ (errs = [] ↔ ∀ raw, raw ∈ l → f raw ≠ Bad) ∧ (length out <= length l)%nat.
Proof.
  induction l as [|raw l IH] using rev_ind; [cbn; split_and!; try done; try constructor; set_solver|].
  rewrite foldl_app. cbn [foldl]. destruct (foldl _ _ l) as [[errs out] seen]. destruct IH as (Hn & Hs & Hv & He & Hl).
  unfold entry_step. destruct (f raw) as [| |value] eqn:Ef.
  - rewrite length_app. split_and!; [done|done| | |simpl; lia].
    + intros v. rewrite Hv. split; intros (r & Hr & E); exists r; (split; [|done]); [set_solver|].
      apply elem_of_app in Hr as [?| ->%list_elem_of_singleton]; [done|congruence].
    + split; [by intros ?%Stable.snoc_nil|]. intros H. by destruct (H raw ltac:(set_solver)).
  - rewrite length_app. split_and!; [done|done| | |simpl; lia].
    + intros v. rewrite Hv. split; intros (r & Hr & E); exists r; (split; [|done]); [set_solver|].
      apply elem_of_app in Hr as [?| ->%list_elem_of_singleton]; [done|congruence].
    + rewrite He. split; intros H r Hr; [|apply H; set_solver].
      apply elem_of_app in Hr as [?| ->%list_elem_of_singleton]; [by apply H|by rewrite Ef].
  - assert (errs = [] ↔ ∀ r, r ∈ l ++ [raw] → f r ≠ Bad) as He'.
    { rewrite He. split; intros H r Hr; [|apply H; set_solver].
      apply elem_of_app in Hr as [?| ->%list_elem_of_singleton]; [by apply H|by rewrite Ef]. }
    case_bool_decide as Hin; rewrite ?length_app; split_and!; try done; try (simpl; lia).
    + intros v. rewrite Hv. split; intros (r & Hr & E); [exists r; set_solver|].
      apply elem_of_app in Hr as [?| ->%list_elem_of_singleton]; [by exists r|]. apply Hv, Hs. congruence.
    + apply NoDup_app. split; [done|]. split; [|apply NoDup_singleton]. intros x Hx ->%list_elem_of_singleton. by apply Hin, Hs.
    + intros v. rewrite elem_of_union, elem_of_singleton, Hs. set_solver.
    + intros v. rewrite elem_of_app, list_elem_of_singleton, Hv. split.
      * intros [(r & Hr & E)| ->]; [exists r; set_solver|exists raw; set_solver].
      * intros (r & Hr & E). apply elem_of_app in Hr as [?| ->%list_elem_of_singleton]; [left; by exists r|right; congruence].
Qed.

Lemma entries_spec f msg l errs out : entries f msg l = (errs, out) →
  NoDup out ∧ (∀ v, v ∈ out ↔ ∃ raw, raw ∈ l ∧ f raw = Good v) ∧ (errs = [] ↔ ∀ raw, raw ∈ l → f raw ≠ Bad) ∧ len out <= len l.
Proof.
  unfold entries. pose proof (entries_step f msg l) as H. destruct (foldl _ _ l) as [[e o] s]. destruct H as (H1 & _ & H2 & H3 & H4).
  intros [= <- <-]. split_and!; [done|done|done|unfold len; lia].
Qed.

(** What the loop keeps, it keeps again. *)
Lemma entries_again f msg l errs out : (∀ raw v, v ∈ out → f raw = Good v → f v = Good v) → entries f msg l = (errs, out) →
  entries f msg out = ([], out).
Proof.
  intros Hf H. apply entries_spec in H as (Hn & Hv & _ & _). assert (∀ v, v ∈ out → f v = Good v) as Hg.
  { intros v Hin. pose proof Hin as (raw & Hr & E)%Hv. by eapply Hf. }
  clear Hf Hv. unfold entries. assert (∀ o seen, (∀ v, v ∈ seen → v ∉ out) → foldl (entry_step f msg) ([], o, seen) out
    = ([], o ++ out, seen ∪ list_to_set out)) as ->; [|done|set_solver].
  induction out as [|v out IH]; intros o seen Hs; [cbn; by rewrite app_nil_r, (right_id_L ∅ (∪))|].
  apply NoDup_cons in Hn as [Hv Hn]. cbn [foldl]. unfold entry_step at 2. rewrite (Hg v) by by left.
  rewrite bool_decide_eq_false_2; [|intros Hin; apply (Hs v Hin); by left].
  rewrite IH; [|done|intros w Hw; apply Hg; by right|].
  - rewrite <- (assoc_L (++)). f_equal. cbn. set_solver.
  - intros w. rewrite elem_of_union, elem_of_singleton. intros [->|Hw]; [done|]. intros Hin. apply (Hs w Hw). by right.
Qed.

Lemma limited_again f msg maximum l errs out : (∀ raw v, v ∈ out → f raw = Good v → f v = Good v) → len l <= maximum →
  entries f msg (limited maximum l) = (errs, out) → entries f msg (limited maximum out) = ([], out) ∧ len out <= maximum.
Proof.
  intros Hf Hl. rewrite Facts.limited_all by done. intros H. pose proof (entries_spec _ _ _ _ _ H) as (_ & _ & _ & Hlen).
  assert (len out <= maximum) by lia. rewrite Facts.limited_all by done. split; [|done]. by eapply entries_again.
Qed.

Ltac split_nil := repeat match goal with H : _ ++ _ = [] |- _ => apply app_nil in H as [? H] end.
Ltac join_nil := repeat (first [assumption | apply app_nil; split]).

Lemma check_ltb_nil a b m : check (a <? b) m = [] ↔ b <= a.
Proof. rewrite Facts.check_nil. apply Z.ltb_ge. Qed.

(** ** Entries are written as they are read *)

Section facts.
Context {U : Unicode} {R : Resolve} {L : WafLib}.

Lemma ip_trim a : trim_space (ip_string a) = ip_string a.
Proof.
  apply trim_space_id. destruct (Facts.ip_string_ok a) as (_ & Hb & _). eapply Facts.forallb_weaken; [|exact Hb].
  intros b. all_bytes b.
Qed.

Lemma net_of s n : ParseCIDR s = Some n → "/"%char ∈ s.
Proof.
  unfold ParseCIDR. destruct (cut s "/") as [[a m] found] eqn:E. destruct found; [|done]. intros _.
  apply cut_true in E as (-> & _). set_solver.
Qed.

Lemma proxy_again raw v : trusted_entry raw = Good v → trusted_entry v = Good v.
Proof.
  unfold trusted_entry. destruct (ParseCIDR (trim_space raw)) as [n|] eqn:E; [|done]. intros [= <-].
  destruct (Stable.net_reparse _ _ E) as (n' & -> & Es & _). cbn. by rewrite Es.
Qed.

Lemma address_again raw v : address_entry raw = Good v → address_entry v = Good v.
Proof.
  unfold address_entry. destruct (ParseIP (trim_space raw)) as [a|] eqn:E; [|done]. intros [= <-].
  rewrite ip_trim, NetFacts.ip_roundtrip; [done|by eapply NetFacts.ParseIP_range].
Qed.

Lemma ip_again raw v : ip_entry raw = Good v → ip_entry v = Good v.
Proof.
  unfold ip_entry. destruct (ParseIP (trim_space raw)) as [a|] eqn:E.
  - intros [= <-]. rewrite ip_trim, NetFacts.ip_roundtrip; [done|by eapply NetFacts.ParseIP_range].
  - destruct (ParseCIDR (trim_space raw)) as [n|] eqn:En; [|done]. intros [= <-].
    destruct (Stable.net_reparse _ _ En) as (n' & En' & Es & _). destruct (ParseIP (trim_space (net_string n))) as [b|] eqn:Eb.
    + by destruct (NetFacts.ParseIP_no_slash _ _ Eb (net_of _ _ En')).
    + rewrite En'. cbn. by rewrite Es.
Qed.

Lemma skip_bytes (P : ascii → bool) s : (∀ b, P b = true → lower_ascii b = b ∧ solid b = true) → forallb P s = true →
  to_lower s = s ∧ trim_space s = s.
Proof.
  intros HP Hs. assert (forallb solid s = true) as Hsolid by (eapply Facts.forallb_weaken; [|exact Hs]; intros b Hb; by apply HP).
  split; [|by apply trim_space_id].
  rewrite to_lower_ascii_fmap.
  - induction s as [|c s IH]; [done|]. cbn [forallb] in Hs, Hsolid. boolify. cbn [fmap list_fmap]. f_equal; [by apply HP|by apply IH].
  - clear HP Hs. induction s as [|c s IH]; [done|]. cbn [forallb] in Hsolid. rewrite is_ascii_cons. unfold solid in Hsolid. boolify.
    rewrite IH by done. by destruct (rune_self c).
Qed.

Lemma suffix_back s x : (if has_suffix s x then trim_suffix s x ++ x else trim_suffix s x) = s.
Proof.
  destruct (has_suffix s x) eqn:Hs; [|unfold trim_suffix; by rewrite Hs]. apply has_suffix_inv in Hs as (t & Et & ->). done.
Qed.

Definition dns_byte (b : ascii) : bool := is_lower b || is_digit b || (b =?c "-") || (b =?c "_") || (b =?c ".").

Lemma dns_byte_plain b : dns_byte b = true → lower_ascii b = b ∧ solid b = true.
Proof. all_bytes b. Qed.

Lemma dns_again raw v : dns_name_entry raw = Good v → dns_name_entry v = Good v.
Proof.
  unfold dns_name_entry, normalizeDNSProbeName. set (value := to_lower (trim_space raw)). destruct (value =?s []) eqn:E0; [done|].
  destruct (ParseIP value) as [a|] eqn:Ea.
  { intros [= <-]. assert (to_lower (ip_string a) = ip_string a ∧ trim_space (ip_string a) = ip_string a) as [H1 H2].
    { apply (skip_bytes Facts.host_byte); [intros b; all_bytes b|]. by destruct (Facts.ip_string_ok a) as (_ & ? & _). }
    rewrite H2, H1, NetFacts.ip_roundtrip by (by eapply NetFacts.ParseIP_range).
    destruct (ip_string a =?s []) eqn:E; [|done]. boolify. by destruct (Facts.ip_string_ok a) as [? _]. }
  destruct (contains_any _ _) eqn:Ec; [done|]. cbv zeta. set (core := trim_suffix value ".").
  destruct (_ || _) eqn:El; [done|]. destruct (forallb dns_label_ok (split core ".")) eqn:Ed; [|done]. cbn [negb].
  pose proof (suffix_back value ".") as Hback. fold core in Hback. rewrite Hback.
  intros [= <-]. assert (forallb dns_byte core = true) as Hb.
  { rewrite <- (join_split "." core). apply Facts.forallb_join; [done|]. apply Forall_forall. intros l Hl.
    rewrite forallb_forall in Ed. apply list_elem_of_In, Ed in Hl. unfold dns_label_ok in Hl. boolify.
    eapply Facts.forallb_weaken; [|eassumption]. intros b. unfold dns_byte. intros ->. done. }
  assert (forallb dns_byte value = true) as Hv.
  { rewrite <- Hback. destruct (has_suffix value "."); [|done]. by rewrite forallb_app, Hb. }
  destruct (skip_bytes _ _ dns_byte_plain Hv) as [H1 H2]. rewrite H2, H1, E0, Ea, Ec. fold core. rewrite El, Ed. cbn [negb]. by rewrite Hback.
Qed.

Lemma trim_right_stem s : ∃ t, s = trim_right_bytes "/" s ++ t ∧ Forall (λ c, c = "/"%char) t ∧ last (trim_right_bytes "/" s) ≠ Some "/"%char.
Proof.
  unfold trim_right_bytes. assert (∀ l, ∃ t, l = t ++ trim_left_bytes "/" l ∧ Forall (λ c, c = "/"%char) t
    ∧ head (trim_left_bytes "/" l) ≠ Some "/"%char) as H.
  { induction l as [|c l (t & E & Ht & Hh)]; [by exists []|]. cbn [trim_left_bytes]. destruct (mem_byte c "/") eqn:Ec.
    - exists (c :: t). split; [by rewrite E at 1|]. split; [|done]. constructor; [|done]. apply mem_byte_true, list_elem_of_singleton in Ec. done.
    - exists []. split_and!; [done|done|]. intros [= ->]. by vm_compute in Ec. }
  destruct (H (reverse s)) as (t & E & Ht & Hh). exists (reverse t). split_and!.
  - rewrite <- reverse_app, <- E. by rewrite reverse_involutive.
  - by apply Forall_reverse.
  - by rewrite last_reverse.
Qed.

Lemma trim_right_fix s : last s ≠ Some "/"%char → trim_right_bytes "/" s = s.
Proof.
  intros Hl. destruct (trim_right_stem s) as (t & E & Ht & _). destruct t as [|c t _] using rev_ind; [by rewrite app_nil_r in E|].
  apply Forall_app in Ht as [_ Ht]. apply Forall_singleton in Ht as ->. destruct Hl. rewrite E, (assoc_L (++)). apply last_snoc.
Qed.

(** As in EdgeProxy: the slash behind a space is taken off after the spaces. *)
Lemma excluded_again raw v : excluded_entry raw = Good v → trim_space v = v → excluded_entry v = Good v.
Proof.
  unfold excluded_entry. destruct (normalizePolicyPathPrefix raw) as [w|] eqn:E; [|done]. destruct (w =?s []) eqn:Ew; [done|].
  intros [= ->] Ht. assert (normalizePolicyPathPrefix v = Some v) as ->; [|by rewrite Ew].
  revert E. unfold normalizePolicyPathPrefix at 1. set (value := trim_space raw). destruct (value =?s []); [by intros [= <-]|].
  destruct (has_prefix value "/") eqn:Hp; [|done]. cbn [negb]. destruct (contains_any value "?#") eqn:Hc; [done|].
  destruct (path_unescape value) as [d|] eqn:Ed; [|done]. destruct (d =?s value) eqn:Edv; [|done]. cbn [negb]. boolify. subst d.
  destruct (trim_right_stem value) as (t & Et & _ & Hl). set (core := trim_right_bytes "/" value) in *. destruct (core =?s []) eqn:Ecore.
  { destruct (negb (path_clean "/" =?s "/")); [done|]. intros [= <-]. by vm_compute. }
  destruct (path_clean core =?s core) eqn:Ecl; [|done]. cbn [negb]. intros [= <-]. unfold normalizePolicyPathPrefix. rewrite Ht, Ecore.
  apply has_prefix_inv in Hp as (u & Eu & _). assert (has_prefix core "/" = true) as ->.
  { destruct core as [|c core']; [done|]. rewrite Et in Eu. cbn in Eu. injection Eu as -> _. apply bool_decide_eq_true. by exists core'. }
  cbn [negb]. assert (contains_any core "?#" = false) as ->.
  { rewrite Et in Hc. unfold contains_any in *. rewrite existsb_app in Hc. by apply orb_false_iff in Hc as [? _]. }
  assert (path_unescape core = Some core) as ->.
  { apply Stable.path_unescape_plain. apply Stable.path_unescape_plain in Ed. rewrite Et, not_elem_of_app in Ed. by destruct Ed. }
  rewrite (proj2 (eqs_true _ _)) by done. cbn [negb]. rewrite trim_right_fix by done. rewrite Ecore, Ecl. done.
Qed.

Lemma target_again raw v : target_entry raw = Good v → target_entry v = Good v.
Proof.
  unfold target_entry. case_bool_decide as Hin; [|done]. intros [= <-].
  unfold validTargets, lits in Hin. cbn [fmap list_fmap] in Hin. rewrite !elem_of_cons, elem_of_nil in Hin.
  destruct Hin as [->|[->|[->|[->|[->|[]]]]]]; by vm_compute.
Qed.

(** What the case mappings, and [mime.ParseMediaType], are documented to do: their
    results are not changed by them again. *)
Record stable_text : Prop := {
  st_upper : ∀ s, to_upper (trim_space (to_upper (trim_space s))) = to_upper (trim_space s);
  st_lower : ∀ s, to_lower (trim_space (to_lower (trim_space s))) = to_lower (trim_space s);
  st_media : ∀ s t, parse_media_type s = (t, true) → media_params s = 0 → to_lower (trim_space t) ≠ [] →
    parse_media_type (trim_space (to_lower (trim_space t))) = (to_lower (trim_space t), true)
    ∧ media_params (trim_space (to_lower (trim_space t))) = 0 }.
Context (HT : stable_text).

Lemma method_again raw v : method_entry raw = Good v → method_entry v = Good v.
Proof.
  unfold method_entry. destruct (_ =?s []) eqn:E; [done|]. destruct (validHTTPToken _) eqn:Ev; [|done]. cbn [negb]. intros [= <-].
  by rewrite (st_upper HT), E, Ev.
Qed.

Lemma disabled_again raw v : disabled_entry raw = Good v → disabled_entry v = Good v.
Proof. unfold disabled_entry. destruct (_ =?s []) eqn:E; [done|]. intros [= <-]. by rewrite (st_upper HT), E. Qed.

Lemma body_type_again raw v : body_type_entry raw = Good v → body_type_entry v = Good v.
Proof.
  unfold body_type_entry. destruct (parse_media_type (trim_space raw)) as [t ok] eqn:Et. destruct (_ || _) eqn:E; [done|]. intros [= <-].
  rewrite !orb_false_iff in E. destruct E as [[Eok Ene] Ep]. boolify. subst ok. destruct (st_media HT _ _ Et Ep) as [-> ->]; [done|].
  by rewrite (st_lower HT), (proj2 (eqs_false _ _)) by done.
Qed.

(** ** Policies *)

Definition paths_trimmed (p : Policy) : Prop := Forall (λ v, trim_space v = v) (excluded_path_prefixes p).

Lemma mode_again m : to_lower (trim_space m) ∈ lits ["block"; "log"; "off"] →
  to_lower (trim_space (to_lower (trim_space m))) = to_lower (trim_space m).
Proof.
  unfold lits. cbn [fmap list_fmap]. rewrite !elem_of_cons, elem_of_nil. intros [->|[->|[->|[]]]]; by vm_compute.
Qed.

Lemma validatePolicy_again p p' : validatePolicy p = ([], p') → paths_trimmed p' → validatePolicy p' = ([], p').
Proof.
  unfold validatePolicy at 1. unfold normalizeIPList. destruct (entries body_type_entry _ _) as [e2 body] eqn:E2.
  destruct (entries method_entry _ _) as [e4 methods] eqn:E4. destruct (entries excluded_entry _ _) as [e5 excl] eqn:E5.
  destruct (entries disabled_entry _ _) as [e9 dis] eqn:E9. destruct (entries ip_entry _ (limited _ (ip_allowlist p))) as [e6 allow] eqn:E6.
  destruct (entries ip_entry _ (limited _ (ip_denylist p))) as [e7 deny] eqn:E7. cbv zeta. intros H. apply pair_equal_spec in H as [H <-].
  unfold paths_trimmed. cbn [excluded_path_prefixes]. intros Htrim. split_nil.
  rewrite !check_ltb_nil in *. match goal with H : check ((_ <? _) || (_ <? _)) _ = [] |- _ => apply Facts.check_nil, orb_false_iff in H as [Ha Hd] end.
  apply Z.ltb_ge in Ha, Hd.
  apply limited_again in E2 as [E2 L2]; [|intros; by eapply body_type_again|done].
  apply limited_again in E4 as [E4 L4]; [|intros; by eapply method_again|done].
  apply limited_again in E5 as [E5 L5]; [|intros raw v Hin Hg; eapply excluded_again; [exact Hg|by eapply (proj1 (Forall_forall _ _) Htrim)]|done].
  apply limited_again in E9 as [E9 L9]; [|intros; by eapply disabled_again|done].
  apply limited_again in E6 as [E6 L6]; [|intros; by eapply ip_again|done].
  apply limited_again in E7 as [E7 L7]; [|intros; by eapply ip_again|done].
  match goal with H : check (negb (bool_decide (_ ∈ _))) _ = [] |- _ => pose proof H as Hmode; apply Facts.check_nil, negb_false_iff, bool_decide_eq_true in Hmode end.
  unfold validatePolicy, normalizeIPList.
  cbn [policy_enabled policy_mode anomaly_threshold inspect_request_body max_inspection_body_bytes body_content_types allowed_methods
    excluded_path_prefixes disabled_rules ip_allowlist ip_denylist max_path_bytes max_query_bytes max_header_count max_header_value_bytes
    reject_encoded_request_bodies reject_unsupported_body_types block_on_inspection_limit rate_limit auto_ban].
  rewrite E2, E4, E5, E9, E6, E7, (mode_again _ Hmode). cbv zeta. f_equal. join_nil; try done; try by apply check_ltb_nil.
  apply Facts.check_nil, orb_false_iff. split; by apply Z.ltb_ge.
Qed.

(** What the loop over the route policies asks of one of them. *)
Record policy_fits (maxBody : Z) (d : Policy) (name : str) (p : Policy) : Prop := {
  pf_name : name ≠ []; pf_trim : trim_space name = name; pf_reserved : equal_fold name reservedUnmatchedRouteName = false;
  pf_body : max_inspection_body_bytes p <= maxBody;
  pf_lifecycle : same_lifecycle p d = true;
  pf_tracked : BanManager.MaxTrackedClients (auto_ban p) = BanManager.MaxTrackedClients (auto_ban d) }.

Lemma policy_fold maxBody d names errs m m' : NoDup names → foldl (policy_step maxBody d) (errs, m) names = ([], m') →
  errs = [] ∧ (∀ k, k ∉ names → m' !! k = m !! k)
  ∧ ∀ k p, k ∈ names → m !! k = Some p → ∃ p', validatePolicy p = ([], p') ∧ policy_fits maxBody d k p' ∧ m' !! k = Some p'.
Proof.
  revert errs m. induction names as [|name names IH]; intros errs m Hn; [intros [= -> ->]; split_and!; [done|done|]; intros k p []%not_elem_of_nil|].
  apply NoDup_cons in Hn as [Hnm Hn]. cbn [foldl]. unfold policy_step at 2. destruct (m !! name) as [p|] eqn:Em; cycle 1.
  { intros H. apply IH in H as (He & H1 & H2); [|done]. split_and!; [done|intros k [_ Hk]%not_elem_of_cons; by apply H1|].
    intros k q [->|Hk]%elem_of_cons Hq; [congruence|by apply H2]. }
  cbv zeta. destruct (trim_space name =?s []) eqn:E0.
  { intros H. apply IH in H as (He & _); [|done]. by apply Stable.snoc_nil in He. }
  destruct (validatePolicy p) as [e p'] eqn:Ev. intros H. apply IH in H as (He & H1 & H2); [|done]. split_nil. subst.
  rewrite check_ltb_nil, !Facts.check_nil in *. boolify.
  match goal with H : trim_space name = name |- _ => rewrite H in * end.
  split_and!; [done|intros k [Hne Hk]%not_elem_of_cons; rewrite H1 by done; by apply lookup_insert_ne|].
  intros k q [->|Hk]%elem_of_cons Hq.
  - assert (q = p) as -> by congruence. exists p'. split_and!; [done|by split|]. rewrite H1 by done. apply lookup_insert_eq.
  - assert (k ≠ name) by congruence. apply H2; [done|]. by rewrite lookup_insert_ne.
Qed.

Lemma policy_fold_again maxBody d names m :
  (∀ k p, k ∈ names → m !! k = Some p → validatePolicy p = ([], p) ∧ policy_fits maxBody d k p) →
  foldl (policy_step maxBody d) ([], m) names = ([], m).
Proof.
  induction names as [|name names IH]; intros H; [done|]. cbn [foldl].
  assert (policy_step maxBody d ([], m) name = ([], m)) as ->; [|apply IH; intros k p Hk; apply H; by right].
  unfold policy_step. destruct (m !! name) as [p|] eqn:Em; [|done]. destruct (H name p ltac:(by left) Em) as [Hv [H1 H2 H3 H4 H5 H6]].
  cbv zeta. rewrite H2, (proj2 (eqs_false _ _)) by done. rewrite (proj2 (eqs_true _ _)) by done. rewrite H3, Hv, H5, H6, Z.eqb_refl, (proj2 (Z.ltb_ge _ _)) by done.
  cbn. by rewrite insert_id.
Qed.

Lemma sorted_keys_elem {A} (m : gmap str A) k : k ∈ sorted_keys m ↔ is_Some (m !! k).
Proof.
  unfold sorted_keys, sort_strings. rewrite merge_sort_Permutation, list_elem_of_fmap. split.
  - intros ([k' a] & -> & H%elem_of_map_to_list). by exists a.
  - intros [a Ha]. exists (k, a). by rewrite elem_of_map_to_list.
Qed.
Lemma sorted_keys_NoDup {A} (m : gmap str A) : NoDup (sorted_keys m).
Proof. unfold sorted_keys, sort_strings. rewrite merge_sort_Permutation. apply NoDup_fst_map_to_list. Qed.

Lemma route_policies_spec maxBody d m m' : validate_route_policies maxBody d m = ([], m') →
  dom m' = dom m ∧ Z.of_nat (size m) <= maxRoutePolicies
  ∧ ∀ k p, m !! k = Some p → ∃ p', validatePolicy p = ([], p') ∧ policy_fits maxBody d k p' ∧ m' !! k = Some p'.
Proof.
  unfold validate_route_policies. destruct (Z.ltb_spec maxRoutePolicies (Z.of_nat (size m))); [done|]. intros E.
  apply policy_fold in E as (_ & H1 & H2); [|apply sorted_keys_NoDup]. split_and!; [|done|].
  - apply set_eq. intros k. rewrite !elem_of_dom. destruct (m !! k) as [p|] eqn:Em.
    + destruct (H2 k p) as (p' & _ & _ & ->); [apply sorted_keys_elem; by exists p|done|]. split; by eexists.
    + rewrite H1, Em; [done|]. rewrite sorted_keys_elem, Em. by intros [].
  - intros k p Hp. apply H2; [|done]. apply sorted_keys_elem. by exists p.
Qed.

Lemma route_policies_again maxBody d m m' : validate_route_policies maxBody d m = ([], m') → map_Forall (λ _, paths_trimmed) m' →
  validate_route_policies maxBody d m' = ([], m').
Proof.
  intros E Ht. pose proof (route_policies_spec _ _ _ _ E) as (Hd & Hs & H). unfold validate_route_policies.
  assert (size m' = size m) as -> by by rewrite <- !size_dom, Hd. rewrite (proj2 (Z.ltb_ge _ _)) by done.
  apply policy_fold_again. intros k p' _ Hp'. assert (is_Some (m !! k)) as [p Hp]. { apply elem_of_dom. rewrite <- Hd. by apply elem_of_dom_2 in Hp'. }
  destruct (H k p Hp) as (p2 & Hv & Hf & E2). assert (p2 = p') as -> by congruence. split; [|done].
  eapply validatePolicy_again; [exact Hv|]. exact (Ht k p' Hp').
Qed.

(** ** Custom rules *)

Lemma targets_kept l out : entries target_entry "waf.custom_rules has unsupported target" l = ([], out) → (len l =? 0) = false →
  (len out =? 0) = false.
Proof.
  intros H Hl. apply entries_spec in H as (_ & Hv & He & _). destruct l as [|t l]; [done|]. apply Z.eqb_neq. intros H0%len_zero. subst out.
  assert (target_entry t ≠ Bad) as Ht by (apply He; [done|by left]). unfold target_entry in Ht. case_bool_decide as E; [|done].
  apply (not_elem_of_nil (to_lower (trim_space t))). apply Hv. exists t. split; [by left|]. unfold target_entry. by rewrite bool_decide_eq_true_2.
Qed.

Lemma normalize_rule_again r targets : normalize_rule (with_targets targets (normalize_rule r)) = with_targets targets (normalize_rule r).
Proof.
  unfold normalize_rule, with_targets. cbn [cr_id cr_name cr_category cr_description cr_score cr_targets cr_pattern].
  by rewrite (st_upper HT), (st_lower HT), Stable.trim_space_idem.
Qed.

(** What is known of a rule that the loop keeps. *)
Record rule_ok (r : CustomRuleConfig) : Prop := {
  ru_id : to_upper (trim_space (cr_id r)) = cr_id r; ru_score : 1 <= cr_score r <= MaxCustomRuleScore;
  ru_pattern : is_Some (regexp_compile (cr_pattern r)); ru_targets : cr_targets r ≠ [] ∧ ∀ t, t ∈ cr_targets r → t ∈ validTargets }.

Lemma rule_step_again e s o r s1 o1 : rule_step (e, s, o) r = ([], s1, o1) →
  e = [] ∧ ∃ r', o1 = o ++ [r'] ∧ rule_step ([], s, o) r' = ([], s1, o1) ∧ rule_ok r' ∧ (cr_id r' ∉ s) ∧ s1 = {[ cr_id r' ]} ∪ s.
Proof.
  unfold rule_step at 1. set (n := normalize_rule r). destruct (entries target_entry _ _) as [e2 targets] eqn:Et. intros H.
  injection H as H Hs Ho. split_nil. subst e e2. split; [done|]. exists (with_targets targets n). split; [done|].
  match goal with H : rule_errors s n = [] |- _ => pose proof H as Hn; rename H into He end. unfold rule_errors in Hn. split_nil.
  rewrite !Facts.check_nil, Facts.outside_false in *. boolify.
  pose proof (entries_spec _ _ _ _ _ Et) as (_ & Hval & _ & Hlen). assert ((len targets =? 0) = false) as Hne by (eapply targets_kept; [exact Et|by apply Z.eqb_neq]).
  apply entries_again in Et; [|intros; by eapply target_again]. split_and!.
  - unfold rule_step. unfold n. rewrite normalize_rule_again. fold n. cbn [cr_targets with_targets cr_id cr_pattern]. rewrite Et. cbn [app].
    assert (rule_errors s (with_targets targets n) = []) as ->; [|cbn [app]; change (cr_pattern n) with (cr_pattern r); rewrite H; by subst].
    unfold rule_errors in He. split_nil. unfold rule_errors, with_targets. cbn [cr_id cr_name cr_category cr_description cr_score cr_targets cr_pattern].
    rewrite Hne. join_nil; try done; rewrite ?Facts.check_nil in *; boolify; [by rewrite !(proj2 (eqs_false _ _)) by done|apply Z.ltb_ge; lia].
  - split; cbn [with_targets cr_id cr_score cr_pattern cr_targets].
    + apply (st_upper HT).
    + done.
    + match goal with H : pattern_errors _ = [] |- _ => revert H end. unfold pattern_errors. change (cr_pattern n) with (cr_pattern r).
      destruct (Z.leb_spec (len (cr_pattern r)) maxCustomRulePatternBytes) as [|Hp]; [by destruct (regexp_compile _); [by eexists|]|].
      change (cr_pattern n) with (cr_pattern r) in *. lia.
    + split; [by intros ->|]. intros t (raw & _ & E)%Hval. unfold target_entry in E. case_bool_decide; [by injection E as <-|done].
  - done.
  - done.
Qed.

Lemma rules_again e s o rules s1 o1 : foldl rule_step (e, s, o) rules = ([], s1, o1) →
  e = [] ∧ ∃ ys, o1 = o ++ ys ∧ length ys = length rules ∧ foldl rule_step ([], s, o) ys = ([], s1, o1)
    ∧ Forall rule_ok ys ∧ NoDup (cr_id <$> ys) ∧ ∀ r, r ∈ ys → cr_id r ∉ s.
Proof.
  revert e s o. induction rules as [|r rules IH]; intros e s o; cbn [foldl].
  { intros [= -> -> ->]. split; [done|]. exists []. rewrite app_nil_r. split_and!; try done; [constructor|]. intros r []%not_elem_of_nil. }
  destruct (rule_step (e, s, o) r) as [[e2 s2] o2] eqn:E. intros H. apply IH in H as (-> & ys & -> & Hl & Hf & Hok & Hnd & Hs).
  apply rule_step_again in E as (-> & r' & -> & E & Hr & Hn & ->). split; [done|]. exists (r' :: ys).
  rewrite <- (assoc_L (++)) in *. split_and!; [done|by rewrite !length_cons, Hl|by cbn [foldl]; rewrite E|by constructor| |].
  - rewrite fmap_cons. apply NoDup_cons. split; [|done]. intros (q & Eq & Hq)%list_elem_of_fmap. apply (Hs q Hq). set_solver.
  - intros q [->|Hq]%elem_of_cons; [done|]. specialize (Hs q Hq). set_solver.
Qed.

Lemma custom_rules_again rules rules' : validateCustomRules rules = ([], rules') →
  validateCustomRules rules' = ([], rules') ∧ Forall rule_ok rules' ∧ NoDup (cr_id <$> rules').
Proof.
  unfold validateCustomRules. destruct (foldl rule_step _ _) as [[e s] o] eqn:E. intros H. injection H as -> <-.
  apply rules_again in E as (He & ys & -> & Hl & E & Hok & Hn & _). cbn [app] in *. apply check_ltb_nil in He. rewrite Facts.limited_all in * by done.
  assert (drop (length ys) rules = []) as -> by (apply drop_ge; lia). rewrite app_nil_r.
  assert (check (maxCustomRules <? len ys) "waf.custom_rules cannot contain more entries" = []) as ->
    by (apply check_ltb_nil; unfold len in *; lia).
  rewrite Facts.limited_all by (unfold len in *; lia). rewrite E. by rewrite drop_all, app_nil_r.
Qed.

(** ** The other sections *)

Lemma server_again s s' : validate_server (normalize_server s) = ([], s') → normalize_server s' = s' ∧ validate_server s' = ([], s').
Proof.
  unfold validate_server at 1. destruct (entries trusted_entry _ _) as [e2 trusted] eqn:Et. cbv zeta. intros H. apply pair_equal_spec in H as [H <-].
  split_nil. match goal with H : check (maxTrustedProxyCIDRs <? _) _ = [] |- _ => pose proof (proj1 (check_ltb_nil _ _ _) H) as Hlen end.
  subst e2. assert (s_mode (normalize_server s) ∈ lits ["gateway"; "embedded"]) as Hm.
  { match goal with H : check (negb (gateway_mode _) && _) _ = [] |- _ => rewrite Facts.check_nil in H; revert H end. unfold gateway_mode.
    generalize (s_mode (normalize_server s)) as m. intros m Hor%andb_false_iff. unfold lits. cbn [fmap list_fmap]. rewrite !elem_of_cons.
    destruct Hor; boolify; auto. }
  apply limited_again in Et as [Et Hl]; [|intros; by eapply proxy_again|done]. split.
  - unfold normalize_server at 1. cbn [with_trusted normalize_server s_mode s_listen s_upstream s_read_header s_read s_write s_idle s_shutdown
      s_max_header s_max_body s_max_concurrent s_max_per_client s_trusted s_forwarded s_preserve_host s_security_headers s_tls s_transport
      tls_enabled tls_cert tls_key].
    rewrite !Stable.trim_space_idem, (st_lower HT). unfold with_trusted. f_equal.
    assert (trim_space (if trim_space (s_forwarded s) =?s [] then lit "X-Forwarded-For" else trim_space (s_forwarded s))
      = if trim_space (s_forwarded s) =?s [] then lit "X-Forwarded-For" else trim_space (s_forwarded s)) as ->.
    { destruct (trim_space (s_forwarded s) =?s []) eqn:E0; [by vm_compute|apply Stable.trim_space_idem]. }
    cbn [normalize_server s_forwarded]. destruct (trim_space (s_forwarded s) =?s []) eqn:E0; [by destruct (_ =?s [])|by rewrite E0].
  - unfold validate_server. cbn [with_trusted s_trusted]. change (items (Some trusted)) with trusted. rewrite Et. f_equal.
    unfold gateway_mode, with_trusted in *. cbn [s_mode s_listen s_upstream s_read_header s_read s_write s_idle s_shutdown
      s_max_header s_max_body s_max_concurrent s_max_per_client s_trusted s_forwarded s_preserve_host s_security_headers s_tls s_transport] in *.
    join_nil; try done. by apply check_ltb_nil.
Qed.

Lemma connectivity_again c c' : validate_connectivity c = ([], c') → trim_space (dns_server (cn_dns c)) = dns_server (cn_dns c) →
  validate_connectivity c' = ([], c') ∧ trim_space (dns_server (cn_dns c')) = dns_server (cn_dns c').
Proof.
  unfold validate_connectivity at 1. destruct (cn_enabled c) eqn:En; cbn [negb]; [|intros [= <-] ?; split; [unfold validate_connectivity; by rewrite En|done]].
  cbv zeta. destruct (dns_enabled (cn_dns c)) eqn:Ed; cbn [negb]; cycle 1.
  { intros H. apply pair_equal_spec in H as [H <-]. intros Ht. split; [|done]. unfold validate_connectivity. rewrite ?En, ?Ed. cbn [negb]. by rewrite H. }
  destruct (validate_dns (cn_dns c)) as [e2 d] eqn:Edns. intros H. apply pair_equal_spec in H as [H <-]. intros Ht. split_nil. subst e2.
  revert Edns. unfold validate_dns at 1. destruct (entries dns_name_entry _ _) as [e3 names] eqn:E3.
  destruct (entries address_entry _ _) as [e4 expected] eqn:E4. cbv zeta. intros Hd. apply pair_equal_spec in Hd as [Hd <-].
  split_nil. rewrite !check_ltb_nil in *. subst.
  apply limited_again in E3 as [E3 L3]; [|intros; by eapply dns_again|done].
  apply limited_again in E4 as [E4 L4]; [|intros; by eapply address_again|done]. split; [|done].
  unfold validate_connectivity. cbn [cn_enabled cn_interval cn_timeout cn_stale cn_history cn_dns dns_enabled]. rewrite ?En, ?Ed. cbn [negb]. cbv zeta.
  unfold validate_dns. cbn [dns_enabled dns_critical dns_server dns_names dns_expected].
  change (items (Some names)) with names. change (items (Some expected)) with expected. rewrite E3, E4. cbv zeta. f_equal.
  join_nil; try done; by apply check_ltb_nil.
Qed.

Lemma admin_normal_with c a : trim_space (dns_server (cn_dns c)) = dns_server (cn_dns c) →
  normalize_admin (with_connectivity c (normalize_admin a)) = with_connectivity c (normalize_admin a).
Proof.
  intros Ht. unfold with_connectivity, normalize_admin.
  cbn [a_enabled a_listen a_token a_log a_connectivity a_history a_poll a_max_body a_failures a_lockout ls_capacity
    ls_default_page ls_max_page ls_file ls_max_bytes ls_backups cn_enabled cn_interval cn_timeout cn_stale cn_history cn_dns
    th_enabled th_capacity th_interval th_file]. rewrite !Stable.trim_space_idem, Ht. by destruct c as [????? []].
Qed.

Lemma admin_normal_again a : normalize_admin (normalize_admin a) = normalize_admin a.
Proof. apply (admin_normal_with (a_connectivity (normalize_admin a)) a). apply Stable.trim_space_idem. Qed.

Lemma admin_again s a a' : validate_admin s (normalize_admin a) = ([], a') → normalize_admin a' = a' ∧ validate_admin s a' = ([], a').
Proof.
  unfold validate_admin at 1. destruct (a_enabled (normalize_admin a)) eqn:En; cbn [negb]; cycle 1.
  { intros [= <-]. split; [|unfold validate_admin; by rewrite En].
    apply admin_normal_again. }
  cbv zeta. destruct (validate_connectivity _) as [e2 c] eqn:Ec. intros H. apply pair_equal_spec in H as [H <-].
  split_nil. subst e2. apply connectivity_again in Ec as [Ec Ht]; [|cbn; apply Stable.trim_space_idem]. split.
  - by apply admin_normal_with.
  - unfold validate_admin. change (a_enabled (with_connectivity c (normalize_admin a))) with (a_enabled (normalize_admin a)). rewrite En. cbn [negb].
    cbv zeta. change (a_connectivity (with_connectivity c (normalize_admin a))) with c. rewrite Ec. unfold with_connectivity in *. f_equal.
    cbn [a_enabled a_listen a_token a_log a_connectivity a_history a_poll a_max_body a_failures a_lockout]. join_nil; done.
Qed.

Lemma admin_kept s x e a : validate_admin s x = (e, a) → a_token a = a_token x ∧ a_log a = a_log x.
Proof.
  unfold validate_admin. destruct (negb _); [by intros [= _ <-]|]. cbv zeta. destruct (validate_connectivity _) as [e2 c].
  intros H. apply pair_equal_spec in H as [_ <-]. done.
Qed.

Definition accepted (c c' : SecConfig.Config) : Prop := Validate c = ([], c').

Definition prefixes_trimmed (c : SecConfig.Config) : Prop :=
  paths_trimmed (default_policy c) ∧ map_Forall (λ _, paths_trimmed) (route_policies c).

Lemma rules_listed w e rules m : validateCustomRules (waf_rules w) = (e, rules) → waf_rules (mkWAF m ((λ _, rules) <$> waf_custom w)) = rules.
Proof. unfold waf_rules. destruct (waf_custom w); cbn; [done|]. by intros [= _ <-]. Qed.

Lemma config_again c c' : accepted c c' → prefixes_trimmed c' → accepted c' c'.
Proof.
  unfold accepted. unfold Validate at 1. destruct (validate_server _) as [e1 s] eqn:Es. destruct (validate_admin _ _) as [e2 a] eqn:Ea.
  destruct (validateCustomRules _) as [e3 rules] eqn:Er. destruct (validatePolicy _) as [e4 d] eqn:Ed.
  destruct (validate_route_policies _ _ _) as [e5 policies] eqn:Ep. intros H. apply pair_equal_spec in H as [H <-].
  intros [Ht1 Ht2]. cbn [default_policy route_policies] in Ht1, Ht2. split_nil. subst.
  pose proof (admin_kept _ _ _ _ Ea) as [Hk1 Hk2]. rewrite <- ?Hk1, <- ?Hk2 in *.
  apply server_again in Es as [Es1 Es2]. apply admin_again in Ea as [Ea1 Ea2]. pose proof (rules_listed _ _ _ (waf_max (waf c)) Er) as Hl. apply custom_rules_again in Er as [Er _].
  apply validatePolicy_again in Ed; [|done]. apply route_policies_again in Ep; [|done].
  unfold Validate. cbn [SecConfig.server SecConfig.admin edgeproxy waf default_policy route_policies waf_max]. rewrite Hl.
  rewrite Es1, Ea1, Es2, Ea2, Er, Ed, Ep. assert (normalize_edge (normalize_edge (edgeproxy c)) = normalize_edge (edgeproxy c)) as ->
    by (unfold normalize_edge; cbn [ep_path ep_url ep_token ep_timeout]; by rewrite !Stable.trim_space_idem).
  f_equal; [join_nil; by try done|]. cbn [waf_custom]. by destruct (waf_custom (waf c)).
Qed.

End facts.
End SecFacts.
