(* ===== verification/GoOS.v ===== *)
(** * The operating system as the program sees it: files, variables, map order

    A file is what opening, [Stat] and reading give; the process environment is
    a map; [range] over a Go map visits its entries in an arbitrary order. *)

From S2P Require Import Prelude GoStr.

(** An opened file: whether it is regular, the size [Stat] gives, and what
    reading it gives (it may have changed in between). *)
Record opened := mkOpened { of_regular : bool; of_size : Z; of_data : str }.

(** What a path leads to: nothing, an error of [Stat], or a file. *)
Inductive node := Missing | Unreachable | Node (f : opened).

Definition open_node (n : node) : option opened := match n with Node f => Some f | _ => None end.

(** [io.ReadAll] of a regular file through the two size limits of the loaders:
    the size that [Stat] gives, and a reader limited to one byte more. *)
Definition read_limited (max : Z) (f : opened) : str + str :=
  if max <? of_size f then inl (lit "exceeds the safety limit")
  else
    let data := take (Z.to_nat (max + 1)) (of_data f) in
    if max <? len data then inl (lit "exceeds the safety limit") else inr data.

Lemma read_limited_ok max f : of_size f <= max → len (of_data f) <= max → read_limited max f = inr (of_data f).
Proof.
  intros Hs Hl. unfold read_limited. destruct (Z.ltb_spec max (of_size f)); [lia|].
  rewrite take_ge by (unfold len in *; lia). by destruct (Z.ltb_spec max (len (of_data f))); [lia|].
Qed.

(** ** The process environment *)

Abbreviation variables := (gmap str str).

Definition nul : ascii := chr 0.

(** [os.Setenv]: [None] is [EINVAL]. *)
Definition setenv (key value : str) (env : variables) : option variables :=
  if (key =?s []) || mem_byte "=" key || mem_byte nul key || mem_byte nul value then None
  else Some (<[key := value]> env).

(** [os.Unsetenv] *)
Definition unsetenv (key : str) (env : variables) : variables := delete key env.

(** ** [range] over a map with string keys *)

Class MapRange := {
  range : ∀ {A}, gmap str A → list (str * A);
  range_perm : ∀ A (m : gmap str A), range m ≡ₚ map_to_list m }.

Definition range_listed : MapRange := {| range A m := map_to_list m; range_perm A m := reflexivity _ |}.

Section range.
Context {R : MapRange} {A : Type}.
Implicit Types (m : gmap str A).

Lemma elem_of_range m k x : (k, x) ∈ range m ↔ m !! k = Some x.
Proof. by rewrite range_perm, elem_of_map_to_list. Qed.

Lemma NoDup_range m : NoDup (range m).*1.
Proof. rewrite range_perm. apply NoDup_fst_map_to_list. Qed.

Lemma list_to_map_range m : list_to_map (range m) = m.
Proof.
  rewrite <- (list_to_map_to_list m) at 2. apply list_to_map_proper; [apply NoDup_range|apply range_perm].
Qed.

End range.
