(* ===== verification/ConfigPersist.v ===== *)
(** * The configuration files: apps/edgeproxy/internal/config/persist.go and
    apps/securityedge/internal/config/persist.go

    The two programs save and load different documents in the same way: what
    differs (validation, environment overrides, the name of the temporary file)
    is the interface [Document], of which EdgeProxy's configuration is an instance
    here and SecurityEdge's in SecPersist.v.  Loading with the recovery of an interrupted replacement, and the replacement
    itself as the sequence of its system calls, each of which may fail or be the
    last before a crash.  JSON coding is a parameter.  A path names one file and
    does not end in a separator; in a pattern it stands for itself (it has none
    of the metacharacters of [filepath.Glob]). *)

From stdpp Require Import sorting.
From S2P Require Import Prelude GoStr GoPath GoText GoHttp GoFloat NetIP Config ConfigValidate ConfigEnv.

Module Persistence.

Definition maxConfigFileBytes : Z := 4 * 2 ^ 20.
Definition maxConfigBackups : nat := 10.

(** ** Files and system calls *)

Inductive entry := Regular (data : str) | Special.
Abbreviation files := (gmap str entry).

(** The files, the outcomes of the next calls ([Some n]: the call fails, a write
    after [n] bytes; no more outcomes: all calls work), and the files after each
    call so far. *)
Record world := mkWorld { disk : files; faults : list (option nat); history : list files }.

Definition sys (A : Type) : Type := world → A * world.
#[export] Instance sys_ret : MRet sys := λ A a w, (a, w).
#[export] Instance sys_bind : MBind sys := λ A B f m w, let '(a, w) := m w in f a w.

Definition call {A} (good : files → A * files) (bad : nat → files → A * files) : sys A := λ w,
  let '(o, fs) := match faults w with [] => (None, []) | o :: fs => (o, fs) end in
  let '(a, d) := match o with None => good (disk w) | Some n => bad n (disk w) end in
  (a, mkWorld d fs (history w ++ [d])).

(** A call that changes no file. *)
Definition quiet : sys bool := call (λ d, (true, d)) (λ _ d, (false, d)).

Inductive found := Failed | NotExist | Found (e : entry).

Definition look (path : str) : sys found :=
  call (λ d, (match d !! path with Some e => Found e | None => NotExist end, d)) (λ _ d, (Failed, d)).

(** Creation of a file that must not exist. *)
Definition create_new (path : str) : sys bool :=
  call (λ d, match d !! path with Some _ => (false, d) | None => (true, <[path := Regular []]> d) end) (λ _ d, (false, d)).

Definition write (path data : str) : sys bool :=
  call (λ d, (true, <[path := Regular data]> d)) (λ n d, (false, <[path := Regular (take n data)]> d)).

(** [os.Remove], whose result is ignored. *)
Definition remove (path : str) : sys () := call (λ d, ((), delete path d)) (λ _ d, ((), d)).

Definition rename (src dst : str) : sys bool :=
  call (λ d, match d !! src, d !! dst with
             | None, _ | _, Some Special => (false, d)
             | Some e, _ => (true, <[dst := e]> (delete src d))
             end) (λ _ d, (false, d)).

(** [filepath.Glob(prefix + "*")] *)
Definition glob (prefix : str) : sys (option (list str)) :=
  call (λ d, (Some (filter (λ name, has_prefix name prefix && negb (mem_byte "/" (trim_prefix name prefix)))
                     (map_to_list d).*1), d)) (λ _ d, (None, d)).

(** ** Names *)

(** The directory with its separator, and the last element. *)
Definition dir_base (path : str) : str * str :=
  match last_index_byte path "/" with
  | Some i => (take (S i) path, drop (S i) path)
  | None => ([], path)
  end.

(** [filepath.Dir] *)
Definition path_dir (p : str) : str := path_clean (fst (dir_base p)).

Definition temp_name (path rand : str) : str :=
  let '(dir, base) := dir_base path in dir ++ "." ++ base ++ ".tmp-" ++ rand.

Definition staging_name (path : str) : str := path ++ ".bak".

(** What saving and loading need of a document.  At a [plain] path the temporary
    file is neither the file nor the staged one. *)
Class Document (C : Type) := {
  doc_validate : C → list str * C;
  doc_overrides : Environment.environment → C → str + C;
  doc_temp : str → str → str;
  doc_plain : str → Prop;
  doc_temp_foreign : ∀ path rand, doc_plain path → doc_temp path rand ≠ path ∧ doc_temp path rand ≠ staging_name path }.

Lemma dir_base_spec path dir base : dir_base path = (dir, base) → path = dir ++ base.
Proof. unfold dir_base. destruct (last_index_byte path "/"); intros [= <- <-]; [by rewrite take_drop|done]. Qed.

Lemma longer_foreign path name : (length path + 4 < length name)%nat → name ≠ path ∧ name ≠ staging_name path.
Proof. intros H. split; intros ->; [lia|]. unfold staging_name in H. rewrite length_app in H. simpl in H. lia. Qed.

Lemma temp_name_foreign path rand : True → temp_name path rand ≠ path ∧ temp_name path rand ≠ staging_name path.
Proof.
  intros _. apply longer_foreign. unfold temp_name. destruct (dir_base path) as [dir base] eqn:E.
  rewrite (dir_base_spec _ _ _ E), !length_app. simpl. lia.
Qed.

#[export] Instance edge_document {U : Unicode} {R : Resolve} : Document Config := {|
  doc_validate := Validation.Validate; doc_overrides := Environment.ApplyEnvironmentOverrides;
  doc_temp := temp_name; doc_plain := λ _, True; doc_temp_foreign := temp_name_foreign |}.

Section persist.
Context {C : Type} {D : Document C}.
Context (encode : C → option str) (decode : str → option C).
Context (windows : bool).

(** ** Loading *)

(** What reading a node gives. *)
Definition bounded (f : found) : option str :=
  match f with
  | Found (Regular data) => if maxConfigFileBytes <? len data then None else if negb (valid_utf8 data) then None else Some data
  | _ => None
  end.

(** The bytes and, when they come from there, the staging file. *)
Definition readConfigForLoad (path : str) : sys (option (str * option str)) :=
  f ← look path;
  match f with
  | NotExist =>
      g ← look (staging_name path);
      mret ((λ data, (data, Some (staging_name path))) <$> bounded g)
  | _ => mret ((λ data, (data, None)) <$> bounded f)
  end.

Definition LoadFile (path : str) : sys (str + C) :=
  r ← readConfigForLoad path;
  match r with
  | None => mret (inl (lit "read config"))
  | Some (data, recoveryPath) =>
      match decode data with
      | None => mret (inl (lit "parse config"))
      | Some cfg =>
          match doc_validate cfg with
          | (e :: _, _) => mret (inl e)
          | ([], cfg) =>
              match recoveryPath with
              | None => mret (inr cfg)
              | Some staging =>
                  ok ← rename staging path;
                  mret (if (ok : bool) then inr cfg else inl (lit "restore staged config"))
              end
          end
      end
  end.

Definition Load (env : Environment.environment) (path : str) : sys (str + C) :=
  r ← LoadFile path;
  mret match r with
  | inl e => inl e
  | inr cfg =>
      match doc_overrides env cfg with
      | inl e => inl e
      | inr cfg => match doc_validate cfg with (e :: _, _) => inl e | ([], cfg) => inr cfg end
      end
  end.

(** ** Replacing *)

Definition trimConfigBackups (path : str) (keep : nat) : sys () :=
  names ← glob (path ++ ".bak-");
  match names with
  | None => mret ()
  | Some names => foldl (λ m name, m ≫= λ _, remove name) (mret ()) (take (length names - keep) (sort_strings names))
  end.

(** Whether it worked; a copy that fails is removed. *)
Definition copyFile (source destination : str) : sys bool :=
  f ← look source;
  match f with
  | Found (Regular data) =>
      created ← create_new destination;
      if negb created then mret false
      else
        copied ← write destination (take (Z.to_nat (maxConfigFileBytes + 1)) data);
        synced ← (if (copied : bool) && (len data <=? maxConfigFileBytes) then quiet else mret false);
        closed ← (if (synced : bool) then quiet else mret false);
        if (closed : bool) then mret true else _ ← remove destination; mret false
  | _ => mret false
  end.

(** From the temporary file on: [exists_] says whether there was a file. *)
Definition replace_file (path rand data : str) (exists_ : bool) : sys (option str) :=
  let tmpName := doc_temp path rand in
  created ← create_new tmpName;
  if negb created then mret (Some (lit "create temporary config"))
  else
    mode ← quiet;
    written ← (if (mode : bool) then write tmpName data else mret false);
    synced ← (if (written : bool) then quiet else mret false);
    closed ← (if (synced : bool) then quiet else mret false);
    result ← (if negb closed then mret (Some (lit "write temporary config"))
              else
                staged ← (if windows && exists_ then _ ← remove (staging_name path); rename path (staging_name path)
                          else mret true);
                if negb staged then mret (Some (lit "stage existing config"))
                else
                  replaced ← rename tmpName path;
                  if negb replaced then
                    _ ← (if windows && exists_ then rename (staging_name path) path else mret true);
                    mret (Some (lit "replace config"))
                  else
                    _ ← (if windows then remove (staging_name path) else mret ());
                    mret None);
    _ ← remove tmpName;
    mret result.

(** [stamp] is the time in the name of the backup, [rand] the random part of the
    temporary name; [None] is success. *)
Definition Save (stamp rand path : str) (cfg : C) : sys (option str) :=
  match doc_validate cfg with
  | (e :: _, _) => mret (Some e)
  | ([], cfg) =>
      match encode cfg with
      | None => mret (Some (lit "encode config"))
      | Some data =>
          let data := data ++ [chr 10] in
          if maxConfigFileBytes <? len data then mret (Some (lit "encoded config exceeds the safety limit"))
          else
            dirs ← quiet;
            if negb dirs then mret (Some (lit "create config directory"))
            else
              f ← look path;
              match f with
              | Failed => mret (Some (lit "stat config"))
              | Found Special => mret (Some (lit "config path is not a regular file"))
              | Found (Regular old) =>
                  if maxConfigFileBytes <? len old then mret (Some (lit "existing config exceeds the safety limit"))
                  else
                    copied ← copyFile path (path ++ ".bak-" ++ stamp);
                    if negb copied then mret (Some (lit "backup config"))
                    else _ ← trimConfigBackups path maxConfigBackups; replace_file path rand data true
              | NotExist => replace_file path rand data false
              end
      end
  end.

End persist.
End Persistence.
