(* ===== verification/SecPersist.v ===== *)
(** * SecurityEdge's configuration file: internal/config/persist.go and the loading half of config.go

    [Save] and [LoadFile] are those of EdgeProxy but for the document and the
    name of the temporary file, so they are the ones of ConfigPersist.v at
    another [Document]. *)

From S2P Require Import Prelude GoStr GoText GoHttp GoFloat NetIP Config ConfigValidate ConfigEnv ConfigPersist RateLimit SecPolicy Waf SecConfig.

Module SecPersist.
Import Persistence.

(** [os.CreateTemp(dir, ".security-config-*.tmp")] *)
Definition temp_name (path rand : str) : str := (dir_base path).1 ++ ".security-config-" ++ rand ++ ".tmp".

(** A path whose last element cannot be the name of a temporary file. *)
Definition plain (path : str) : Prop := has_prefix (dir_base path).2 ".security-config-" = false.

Lemma temp_foreign path rand : plain path → temp_name path rand ≠ path ∧ temp_name path rand ≠ staging_name path.
Proof.
  unfold plain, temp_name. destruct (dir_base path) as [dir base] eqn:E. cbn [fst snd]. intros Hp.
  apply dir_base_spec in E. subst path. split.
  - intros H. apply (app_inj_1 dir dir) in H as [_ H]; [|done]. subst base. by vm_compute in Hp.
  - unfold staging_name. rewrite !(assoc_L (++)). intros H. apply (f_equal reverse) in H. rewrite !reverse_app in H. by vm_compute in H.
Qed.

#[export] Instance sec_document {U : Unicode} {R : Resolve} {L : WafLib} : Document SecConfig.Config := {|
  doc_validate := SecConfig.Validate; doc_overrides := SecConfig.ApplyEnvironmentOverrides;
  doc_temp := temp_name; doc_plain := plain; doc_temp_foreign := temp_foreign |}.

Section persist.
Context {U : Unicode} {R : Resolve} {L : WafLib}.
Context (encode : SecConfig.Config → option str) (decode : str → option SecConfig.Config) (windows : bool).

Definition readBoundedConfigFile : found → option str := bounded.
Definition readConfigForLoad : str → sys (option (str * option str)) := Persistence.readConfigForLoad.
Definition trimConfigBackups : str → nat → sys () := Persistence.trimConfigBackups.
Definition copyConfigFile : str → str → sys bool := copyFile.

Definition LoadFile (path : str) : sys (str + SecConfig.Config) := Persistence.LoadFile decode path.
Definition Load (env : Environment.environment) (path : str) : sys (str + SecConfig.Config) := Persistence.Load decode env path.
Definition Save (stamp rand path : str) (cfg : SecConfig.Config) : sys (option str) :=
  Persistence.Save encode windows stamp rand path cfg.

End persist.
End SecPersist.
