(* ===== verification/ConfigPersistFacts.v ===== *)
(** * The configuration file survives a crash

    At every system call of [Save], whatever calls fail, what a restart would
    load is the old file or the new one, and [Save] reports which. *)

From S2P Require Import Prelude GoStr GoText GoHttp GoFloat NetIP Config ConfigValidate ConfigFacts ConfigStable ConfigEnv ConfigPersist.

Module PersistFacts.
Import Persistence.

(** ** Triples over every disk on the way *)

(** From a disk with [Pre], [m] passes only through disks with [Inv] and ends
    with [Q]. *)
Definition triple {A : Type} (Inv Pre : files → Prop) (m : sys A) (Q : A → files → Prop) : Prop := ∀ w, Pre (disk w) →
  match m w with (a, w') => Q a (disk w') ∧ ∃ new, history w' = history w ++ new ∧ Forall Inv new end.

Lemma triple_call {A : Type} (Inv Pre : files → Prop) (good : files → A * files) (bad : nat → files → A * files) (Q : A → files → Prop) :
  (∀ d, Pre d → Inv (good d).2 ∧ Q (good d).1 (good d).2) →
  (∀ n d, Pre d → Inv (bad n d).2 ∧ Q (bad n d).1 (bad n d).2) → triple Inv Pre (call good bad) Q.
Proof.
  intros Hg Hb w Hw. unfold call. destruct (match faults w with [] => _ | _ => _ end) as [o fs].
  destruct o as [n|]; [specialize (Hb n (disk w) Hw); destruct (bad n (disk w)) as [a d]
                      |specialize (Hg (disk w) Hw); destruct (good (disk w)) as [a d]]; cbn in *.
  all: split; [by apply Hb || by apply Hg|]; exists [d]; split; [done|]; constructor; [by apply Hb || by apply Hg|constructor].
Qed.

Lemma triple_ret {A : Type} (Inv Pre : files → Prop) (a : A) (Q : A → files → Prop) : (∀ d, Pre d → Q a d) → triple Inv Pre (mret a) Q.
Proof. intros H w Hw. split; [by apply H|]. exists []. by rewrite app_nil_r. Qed.

Lemma triple_bind {A B : Type} (Inv Pre : files → Prop) (m : sys A) (f : A → sys B) (Q : A → files → Prop) (Q' : B → files → Prop) :
  triple Inv Pre m Q → (∀ a, triple Inv (Q a) (f a) Q') → triple Inv Pre (m ≫= f) Q'.
Proof.
  intros Hm Hf w Hw. unfold mbind, sys_bind. specialize (Hm w Hw). destruct (m w) as [a w1]. destruct Hm as (H1 & new1 & E1 & H2).
  specialize (Hf a w1 H1). destruct (f a w1) as [b w2]. destruct Hf as (H3 & new2 & E2 & H4). split; [done|].
  exists (new1 ++ new2). rewrite (assoc_L (++)), <- E1. split; [done|]. by apply Forall_app.
Qed.

Lemma triple_weaken {A : Type} (Inv Inv' Pre Pre' : files → Prop) (m : sys A) (Q Q' : A → files → Prop) :
  triple Inv Pre m Q → (∀ d, Inv d → Inv' d) → (∀ d, Pre' d → Pre d) → (∀ a d, Q a d → Q' a d) → triple Inv' Pre' m Q'.
Proof.
  intros Hm HI HP HQ w Hw. specialize (Hm w (HP _ Hw)). destruct (m w) as [a w']. destruct Hm as (H1 & new & H2 & H3).
  split; [by apply HQ|]. exists new. split; [done|]. by eapply Forall_impl.
Qed.

Section save.
Context (path : str).
Abbreviation staging := (staging_name path).

(** What a restart finds: the file, or else the staged one. *)
Definition current_file (d : files) : option entry :=
  match d !! path with Some e => Some e | None => d !! staging end.

Definition still (p s : option entry) (d : files) : Prop := d !! path = p ∧ d !! staging = s.

Definition untouched {A : Type} (m : sys A) : Prop := ∀ p s, triple (still p s) (still p s) m (λ _, still p s).

Definition foreign (name : str) : Prop := name ≠ path ∧ name ≠ staging.

Lemma untouched_ret {A : Type} (a : A) : untouched (mret a).
Proof. intros p s. by apply triple_ret. Qed.
Lemma untouched_bind {A B : Type} (m : sys A) (f : A → sys B) : untouched m → (∀ a, untouched (f a)) → untouched (m ≫= f).
Proof. intros Hm Hf p s. eapply triple_bind; [apply Hm|]. intros a. apply Hf. Qed.
Lemma untouched_call {A : Type} (good : files → A * files) (bad : nat → files → A * files) : (∀ p s d, still p s d → still p s (good d).2) →
  (∀ n p s d, still p s d → still p s (bad n d).2) → untouched (call good bad).
Proof. intros Hg Hb p s. apply triple_call; [by auto|by auto]. Qed.

Lemma still_insert name e p s d : foreign name → still p s d → still p s (<[name := e]> d).
Proof. intros [H1 H2] [H3 H4]. split; by rewrite lookup_insert_ne. Qed.
Lemma still_delete name p s d : foreign name → still p s d → still p s (delete name d).
Proof. intros [H1 H2] [H3 H4]. split; by rewrite lookup_delete_ne. Qed.

Lemma untouched_quiet : untouched quiet.
Proof. by apply untouched_call. Qed.
Lemma untouched_look name : untouched (look name).
Proof. by apply untouched_call. Qed.
Lemma untouched_glob prefix : untouched (glob prefix).
Proof. by apply untouched_call. Qed.
Lemma untouched_create name : foreign name → untouched (create_new name).
Proof. intros Hn. apply untouched_call; [|done]. intros p s d Hd. destruct (d !! name); [done|by apply still_insert]. Qed.
Lemma untouched_write name data : foreign name → untouched (write name data).
Proof. intros Hn. apply untouched_call; intros; by apply still_insert. Qed.
Lemma untouched_remove name : foreign name → untouched (remove name).
Proof. intros Hn. apply untouched_call; intros; [by apply still_delete|done]. Qed.

End save.

Create HintDb syscalls.
#[export] Hint Resolve untouched_ret untouched_quiet untouched_look untouched_glob untouched_create untouched_write
  untouched_remove : syscalls.

(** Steps through a program whose calls touch other files only. *)
Ltac untouched := repeat (first
  [ assumption
  | apply untouched_bind; [|intros ?]
  | match goal with |- untouched _ (match ?x with _ => _ end) => destruct x end
  | solve [eauto with syscalls] ]).

Section names.
Context (path : str).

Lemma foreign_longer name : (length path + 4 < length name)%nat → foreign path name.
Proof. apply longer_foreign. Qed.

Lemma backup_foreign stamp : foreign path (path ++ ".bak-" ++ stamp).
Proof. apply foreign_longer. rewrite !length_app. simpl. lia. Qed.

Lemma untouched_copy src dst : foreign path dst → untouched path (copyFile src dst).
Proof. intros Hd. unfold copyFile. untouched. Qed.

Lemma untouched_backups q keep : (∀ stamp, foreign q (path ++ ".bak-" ++ stamp)) → untouched q (trimConfigBackups path keep).
Proof.
  intros Hq. unfold trimConfigBackups. intros p s. unfold glob.
  apply (triple_bind _ _ _ _ (λ names d, still q p s d ∧ ∀ ns, names = Some ns → Forall (foreign q) ns)).
  { apply triple_call; cbn [fst snd]; intros; (split; [done|split; [done|]]); [|done].
    intros ns [= <-]. apply Forall_forall. intros name [Hn _]%list_elem_of_filter.
    apply Is_true_true, andb_true_iff in Hn as [(t & -> & _)%has_prefix_inv _]. rewrite <- (assoc_L (++)). apply Hq. }
  intros [names|]; [|apply triple_ret; by intros ? [? _]].
  intros w [Hw Hns]. specialize (Hns names eq_refl).
  assert (untouched q (foldl (λ m name, m ≫= λ _, remove name) (mret ()) (take (length names - keep) (sort_strings names)))) as Hu; [|by apply Hu].
  assert (Forall (foreign q) (take (length names - keep) (sort_strings names))) as Hf.
  { apply Forall_take. unfold sort_strings. by rewrite sorting.merge_sort_Permutation. }
  assert (untouched q (mret ())) as H0 by apply untouched_ret. revert H0. generalize (mret () : sys ()) as m.
  induction Hf as [|name l Hname _ IH]; intros m Hm; [done|]. cbn [foldl]. apply IH. apply untouched_bind; [done|].
  intros []. by apply untouched_remove.
Qed.

Lemma untouched_trim keep : untouched path (trimConfigBackups path keep).
Proof. apply untouched_backups, backup_foreign. Qed.

Definition old_or_new (old : option entry) (data : str) (d : files) : Prop :=
  current_file path d = old ∨ current_file path d = Some (Regular data).

(** What [Save] promises when it returns. *)
Definition done_or_undone (old : option entry) (data : str) (r : option str) (d : files) : Prop :=
  match r with None => d !! path = Some (Regular data) | Some _ => current_file path d = old end.

Lemma still_current p s d : still path p s d → current_file path d = match p with Some e => Some e | None => s end.
Proof. intros [H1 H2]. unfold current_file. by rewrite H1, H2. Qed.

Lemma staging_other : staging_name path ≠ path.
Proof. unfold staging_name. intros H. apply (f_equal length) in H. rewrite length_app in H. simpl in H. lia. Qed.

(** The two renames, with what can be staged in between. *)
Lemma swap_safe windows exists_ tmp data p s : foreign path tmp → (exists_ = true → is_Some p) →
  let old := match p with Some e => Some e | None => s end in
  triple (old_or_new old data) (λ d, still path p s d ∧ d !! tmp = Some (Regular data))
    (staged ← (if windows && exists_ then _ ← remove (staging_name path); rename path (staging_name path) else mret true);
     if negb staged then mret (Some (lit "stage existing config"))
     else
       replaced ← rename tmp path;
       if negb replaced then
         _ ← (if windows && exists_ then rename (staging_name path) path else mret true);
         mret (Some (lit "replace config"))
       else
         _ ← (if windows then remove (staging_name path) else mret ());
         mret None)
    (done_or_undone old data).
Proof.
  intros [Ht1 Ht2] Hex. cbv zeta. set (old := match p with Some _ => _ | None => _ end). pose proof staging_other as Hst.
  apply (triple_bind _ _ _ _ (λ staged d, d !! tmp = Some (Regular data) ∧ current_file path d = old
    ∧ (staged = true → windows && exists_ = true → d !! path = None))).
  - destruct (windows && exists_) eqn:Ew; cycle 1.
    { apply triple_ret. intros d [Hd Htmp]. split_and!; [done|by apply still_current|done]. }
    apply andb_true_iff in Ew as [_ Ew]. destruct (Hex Ew) as [e ->].
    apply (triple_bind _ _ _ _ (λ _ d, d !! tmp = Some (Regular data) ∧ d !! path = Some e)).
    + apply triple_call; cbn [fst snd].
      * intros d [[H1 H2] H3]. rewrite !lookup_delete_ne by done. split; [|done]. left. unfold current_file. by rewrite lookup_delete_ne, H1.
      * intros _ d [[H1 H2] H3]. split; [|done]. left. unfold current_file. by rewrite H1.
    + intros _. apply triple_call; cbn [fst snd].
      * intros d [H1 H2]. rewrite H2. assert (old_or_new old data d) as Hd by (left; unfold current_file; by rewrite H2).
        assert (current_file path (<[staging_name path := e]> (delete path d)) = Some e) as Hc.
        { unfold current_file. by rewrite lookup_insert_ne, lookup_delete_eq, lookup_insert_eq. }
        assert (old_or_new old data (<[staging_name path := e]> (delete path d))) as Hd' by by left.
        destruct (d !! staging_name path) as [[]|]; cbn [fst snd]; split; try done; split_and!; try done.
        all: try (by rewrite lookup_insert_ne, lookup_delete_ne). all: try (by rewrite lookup_insert_ne, lookup_delete_eq).
        unfold current_file. by rewrite H2.
      * intros _ d [H1 H2]. unfold old_or_new, current_file. rewrite H2. split; [by left|done].
  - intros [|]; cbn [negb]; [|apply triple_ret; by intros d (_ & H & _)].
    apply (triple_bind _ _ _ _ (λ replaced d, if replaced : bool then d !! path = Some (Regular data)
      else current_file path d = old ∧ (windows && exists_ = true → d !! path = None))).
    + apply triple_call; cbn [fst snd].
      * intros d (H1 & H2 & H3). specialize (H3 eq_refl). rewrite H1.
        assert (<[path := Regular data]> (delete tmp d) !! path = Some (Regular data)) as Hn by apply lookup_insert_eq.
        assert (old_or_new old data (<[path := Regular data]> (delete tmp d))) as Hd by (right; unfold current_file; by rewrite Hn).
        destruct (d !! path) as [[]|] eqn:Ep; cbn [fst snd]; [by split| |by split].
        split; [by left|]. split; [done|]. intros Hw. specialize (H3 Hw). congruence.
      * intros _ d (H1 & H2 & H3). split; [by left|]. split; [done|]. by apply H3.
    + intros [|]; cbn [negb].
      * apply (triple_bind _ _ _ _ (λ _ d, d !! path = Some (Regular data))); [|intros _; by apply triple_ret].
        destruct windows; [|by apply triple_ret]. apply triple_call; cbn [fst snd].
        -- intros d H. rewrite lookup_delete_ne by done. split; [right; unfold current_file; by rewrite lookup_delete_ne, H|done].
        -- intros _ d H. split; [right; unfold current_file; by rewrite H|done].
      * apply (triple_bind _ _ _ _ (λ _ d, current_file path d = old)); [|intros _; by apply triple_ret].
        destruct (windows && exists_); [|apply triple_ret; by intros d [? _]]. apply triple_call; cbn [fst snd].
        -- intros d [H1 H2]. specialize (H2 eq_refl). unfold current_file in H1. rewrite H2 in *.
           assert (current_file path d = old) as Hd by (unfold current_file; by rewrite H2).
           destruct (d !! staging_name path) as [e|] eqn:Es; cbn [fst snd]; [|split; [by left|done]].
           assert (current_file path (<[path := e]> (delete (staging_name path) d)) = old) as Hc
             by (unfold current_file; by rewrite lookup_insert_eq, <- H1).
           split; [by left|done].
        -- intros _ d [H1 _]. split; [by left|done].
Qed.

Lemma still_inv p s data d : still path p s d → old_or_new (match p with Some e => Some e | None => s end) data d.
Proof. intros H. left. by apply still_current. Qed.

(** The temporary file on the way: [b] says whether all calls worked so far. *)
Definition prepared (tmp data : str) (p s : option entry) (b : bool) (d : files) : Prop :=
  still path p s d ∧ (b = true → d !! tmp = Some (Regular data)).

Lemma quiet_prepared tmp data p s old : (∀ d, still path p s d → old_or_new old data d) → ∀ b : bool,
  triple (old_or_new old data) (prepared tmp data p s b) (if b then quiet else mret false) (prepared tmp data p s).
Proof.
  intros HI [|]; [|by apply triple_ret]. apply triple_call; cbn [fst snd].
  - intros d [H1 H2]. split; [by apply HI|by split].
  - intros _ d [H1 _]. split; [by apply HI|by split].
Qed.

Lemma replace_safe `{D : Document C} windows rand data exists_ p s : doc_plain path → (exists_ = true → is_Some p) →
  let old := match p with Some e => Some e | None => s end in
  triple (old_or_new old data) (still path p s) (replace_file windows path rand data exists_) (done_or_undone old data).
Proof.
  intros Hplain Hex old. unfold replace_file. set (tmp := doc_temp path rand).
  pose proof (doc_temp_foreign path rand Hplain : foreign path (doc_temp path rand)) as Ht. fold tmp in Ht.
  assert (∀ d, still path p s d → old_or_new old data d) as HI by (intros d; by apply still_inv).
  assert (∀ d, still path p s d → done_or_undone old data (Some (lit "create temporary config")) d) as HU
    by (intros d; by apply still_current).
  eapply triple_bind; [eapply triple_weaken; [by apply (untouched_create path tmp)|exact HI|done|]|].
  { intros a d Hd. exact Hd. }
  intros [|]; cbn [negb]; [|by apply triple_ret].
  eapply triple_bind; [eapply triple_weaken; [apply (untouched_quiet path)|exact HI|done|intros a d Hd; exact Hd]|]. intros mode.
  apply (triple_bind _ _ _ _ (prepared tmp data p s)).
  { destruct mode; [|by apply triple_ret]. apply triple_call; cbn [fst snd].
    - intros d Hd. split; [by apply HI, still_insert|]. split; [by apply still_insert|]. intros _. apply lookup_insert_eq.
    - intros n d Hd. split; [by apply HI, still_insert|]. split; [by apply still_insert|done]. }
  intros written. apply (triple_bind _ _ _ _ (prepared tmp data p s)); [by apply quiet_prepared|].
  intros synced. apply (triple_bind _ _ _ _ (prepared tmp data p s)); [by apply quiet_prepared|]. intros closed.
  apply (triple_bind _ _ _ _ (done_or_undone old data)).
  - destruct closed; cbn [negb]; [|apply triple_ret; intros d [Hd _]; by apply still_current].
    eapply triple_weaken; [by apply (swap_safe windows exists_ tmp data p s)|done| |done]. intros d [H1 H2]. by split; [|apply H2].
  - intros r. apply (triple_bind _ _ _ _ (λ _ d, done_or_undone old data r d)); [|intros _; by apply triple_ret].
    assert (∀ d, done_or_undone old data r d → old_or_new old data d) as HD.
    { intros d. destruct r; cbn; [by left|]. intros H. right. unfold current_file. by rewrite H. }
    destruct Ht as [Ht1 Ht2]. apply triple_call; cbn [fst snd].
    + intros d Hd. assert (done_or_undone old data r (delete tmp d)) as Hd'; [|by auto].
      revert Hd. destruct r; unfold done_or_undone, current_file; by rewrite !lookup_delete_ne.
    + by auto.
Qed.

End names.

Section save_theorem.
Context {C : Type} {D : Document C}.
Context (encode : C → option str) (decode : str → option C) (windows : bool).

(** What [Save] means to write. *)
Definition new_bytes (cfg : C) (data : str) : Prop := ∃ cfg' text,
  doc_validate cfg = ([], cfg') ∧ encode cfg' = Some text ∧ data = text ++ [chr 10] ∧ len data <= maxConfigFileBytes.

Definition saved (path : str) (cfg : C) (old : option entry) (data : str) (r : option str) (d : files) : Prop :=
  match r with None => new_bytes cfg data ∧ d !! path = Some (Regular data) | Some _ => current_file path d = old end.

Lemma Save_triple stamp rand path cfg p s : doc_plain path →
  let old := match p with Some e => Some e | None => s end in
  ∃ data, triple (λ d, current_file path d = old ∨ new_bytes cfg data ∧ current_file path d = Some (Regular data))
    (still path p s) (Save encode windows stamp rand path cfg)
    (saved path cfg old data).
Proof.
  intros Hplain. cbv zeta. set (old := match p with Some _ => _ | None => _ end). unfold Save.
  destruct (doc_validate cfg) as [[|e es] cfg'] eqn:EV; cycle 1.
  { exists []. apply triple_ret. intros d. apply still_current. }
  destruct (encode cfg') as [text|] eqn:EE; [|exists []; apply triple_ret; intros d; apply still_current].
  exists (text ++ [chr 10]). set (data := text ++ [chr 10]). cbv zeta.
  assert (∀ e d, still path p s d → saved path cfg old data (Some e) d) as HU by (intros e d; apply still_current).
  destruct (Z.ltb_spec maxConfigFileBytes (len data)) as [|Hsize]; [apply triple_ret, HU|].
  assert (new_bytes cfg data) as Hnew by by exists cfg', text.
  set (Inv := λ d, _ ∨ _). assert (∀ d, still path p s d → Inv d) as HI by (intros d Hd; left; by apply still_current).
  assert (∀ exists_, (exists_ = true → is_Some p) → triple Inv (still path p s) (replace_file windows path rand data exists_)
    (saved path cfg old data)) as HR.
  { intros ex Hex. eapply triple_weaken; [by apply (replace_safe path windows rand data ex p s)| |done|].
    - intros d [H|H]; [by left|by right].
    - intros [e|] d H; [done|by split]. }
  assert (∀ (A : Type) (m : sys A), untouched path m → triple Inv (still path p s) m (λ _, still path p s)) as HT.
  { intros A m Hm. eapply triple_weaken; [apply Hm|exact HI|done|by intros]. }
  eapply triple_bind; [by apply HT, untouched_quiet|]. intros [|]; cbn [negb]; [|apply triple_ret, HU].
  apply (triple_bind _ _ _ _ (λ f d, still path p s d ∧ ∀ e, f = Found e → p = Some e)).
  { apply triple_call; cbn [fst snd].
    - intros d Hd. split; [by apply HI|]. split; [done|]. intros e. rewrite (proj1 Hd). destruct p; [|done]. by intros [= ->].
    - intros _ d Hd. split; [by apply HI|]. by split. }
  intros f. assert (∀ A (m : sys A) Q, ((∀ e, f = Found e → p = Some e) → triple Inv (still path p s) m Q) →
    triple Inv (λ d, still path p s d ∧ ∀ e, f = Found e → p = Some e) m Q) as Hpull by (intros A m Q Hm w [H1 H2]; by apply Hm).
  apply Hpull. clear Hpull. intros Hf. destruct f as [| |[old_data|]]; [apply triple_ret, HU|by apply HR| |apply triple_ret, HU].
  destruct (_ <? _); [apply triple_ret, HU|]. specialize (Hf _ eq_refl).
  eapply triple_bind; [by apply HT, untouched_copy, backup_foreign|]. intros [|]; cbn [negb]; [|apply triple_ret, HU].
  eapply triple_bind; [by apply HT, untouched_trim|]. intros u. apply HR. by rewrite Hf.
Qed.

(** The configuration a node of the file system holds. *)
Definition config_of (e : option entry) : str + C :=
  match e with
  | None => inl (lit "read config")
  | Some e =>
      match bounded (Found e) with
      | None => inl (lit "read config")
      | Some data =>
          match decode data with
          | None => inl (lit "parse config")
          | Some cfg => match doc_validate cfg with (e :: _, _) => inl e | ([], cfg) => inr cfg end
          end
      end
  end.

(** A start of the program on [d], when nothing fails. *)
Definition restart (path : str) (d : files) : str + C := fst (LoadFile decode path (mkWorld d [] [])).

Lemma restart_spec path d : restart path d = config_of (current_file path d).
Proof.
  unfold restart, LoadFile, readConfigForLoad, config_of, current_file, mbind, sys_bind, look, call, mret, sys_ret.
  cbn [disk faults fst snd]. destruct (d !! path) as [e|] eqn:Ep; cbn [fst snd disk faults].
  - destruct (bounded (Found e)) as [data|]; [|done]. cbn [fmap option_fmap option_map]. destruct (decode data) as [cfg|]; [|done].
    by destruct (doc_validate cfg) as [[|] ?].
  - destruct (d !! staging_name path) as [e|] eqn:Es; [|done]. destruct (bounded (Found e)) as [data|]; [|done].
    cbn [fmap option_fmap option_map]. destruct (decode data) as [cfg|]; [|done].
    destruct (doc_validate cfg) as [[|] ?]; [|done]. unfold rename, call. cbn [disk faults]. by rewrite Es, Ep.
Qed.

(** ** What loading leaves and finds *)

Lemma look_disk path w : disk (look path w).2 = disk w.
Proof. unfold look, call. by destruct (faults w) as [|[n|] fs]. Qed.

Lemma rename_current path w : disk w !! path = None →
  current_file path (disk (rename (staging_name path) path w).2) = current_file path (disk w).
Proof.
  intros Hp. unfold rename, call. destruct (faults w) as [|[n|] fs]; cbn [fst snd disk]; try done; rewrite Hp.
  all: destruct (disk w !! staging_name path) as [e|] eqn:Es; cbn [fst snd disk]; [|done]; unfold current_file; by rewrite lookup_insert_eq, Hp, Es.
Qed.

Lemma LoadFile_current path w : current_file path (disk (LoadFile decode path w).2) = current_file path (disk w).
Proof.
  unfold LoadFile, mbind, sys_bind.
  assert (∃ r w1, readConfigForLoad path w = (r, w1) ∧ disk w1 = disk w ∧ ∀ data staging, r = Some (data, Some staging) → staging = staging_name path ∧ disk w !! path = None)
    as (r & w1 & -> & Hd & Hr).
  { unfold readConfigForLoad, mbind, sys_bind, mret, sys_ret. destruct (look path w) as [f w1] eqn:El. pose proof (look_disk path w) as H1. rewrite El in H1. cbn [snd] in H1.
    assert (f = NotExist → disk w !! path = None) as Hf.
    { intros ->. revert El. unfold look, call. destruct (faults w) as [|[n|] fs]; cbn; try done; by destruct (disk w !! path). }
    destruct f as [| |e].
    - eexists _, w1. split; [done|]. split; [done|]. intros data st. by destruct (bounded _).
    - destruct (look (staging_name path) w1) as [g w2] eqn:E2. pose proof (look_disk (staging_name path) w1) as H2. rewrite E2 in H2. cbn [snd] in H2.
      eexists _, w2. split; [done|]. split; [congruence|]. intros data st. destruct (bounded g); [|done]. intros [= _ <-]. auto.
    - eexists _, w1. split; [done|]. split; [done|]. intros data st. by destruct (bounded _). }
  destruct r as [[data rec]|]; [|by rewrite <- Hd]. destruct (decode data) as [cfg|]; [|by rewrite <- Hd].
  destruct (doc_validate cfg) as [[|] cfg']; [|by rewrite <- Hd]. destruct rec as [st|]; [|by rewrite <- Hd].
  destruct (Hr _ _ eq_refl) as [-> Hp]. rewrite <- Hd in *. pose proof (rename_current path w1 Hp) as Hren. by destruct (rename _ _ w1).
Qed.

(** What loading returns is what a start would load, whatever fails. *)
Lemma LoadFile_restart path w cfg : (LoadFile decode path w).1 = inr cfg → restart path (disk w) = inr cfg.
Proof.
  rewrite restart_spec. unfold config_of, current_file, LoadFile, readConfigForLoad, mbind, sys_bind, mret, sys_ret.
  unfold look at 1, call at 1. destruct (faults w) as [|[n|] fs]; cbn [fst snd disk faults]; [|done|].
  all: destruct (disk w !! path) as [e|]; cbn [fst snd].
  all: try (destruct (bounded (Found e)) as [data|]; [|done]; cbn [fmap option_fmap option_map]; destruct (decode data) as [c|]; [|done];
            by destruct (doc_validate c) as [[|] ?]).
  all: unfold look, call; cbn [disk faults].
  2: destruct fs as [|[n|] fs]; cbn [fst snd disk faults]; [|done|].
  all: destruct (disk w !! staging_name path) as [e|]; cbn [fst snd]; [|done]; destruct (bounded (Found e)) as [data|]; [|done].
  all: cbn [fmap option_fmap option_map]; destruct (decode data) as [c|]; [|done]; destruct (doc_validate c) as [[|] ?]; [|done].
  all: by destruct (rename _ _ _) as [[] ?].
Qed.

(** Replacing a document is atomic against crashes and failing calls. *)
Lemma save_safe stamp rand path cfg w : doc_plain path →
  ∃ data, let '(r, w') := Save encode windows stamp rand path cfg w in
  (∃ visited, history w' = history w ++ visited ∧ ∀ d, d ∈ visited →
     restart path d = restart path (disk w)
     ∨ new_bytes cfg data ∧ restart path d = config_of (Some (Regular data)))
  ∧ match r with
    | None => new_bytes cfg data ∧ disk w' !! path = Some (Regular data)
    | Some _ => restart path (disk w') = restart path (disk w)
    end.
Proof.
  intros Hplain. destruct (Save_triple stamp rand path cfg (disk w !! path) (disk w !! staging_name path) Hplain) as [data Ht]. exists data.
  specialize (Ht w (conj eq_refl eq_refl)). destruct (Save _ _ _ _ _ _ w) as [r w']. destruct Ht as (Hr & new & Hh & Hall).
  fold (current_file path (disk w)) in *. split.
  - exists new. split; [done|]. intros d Hd. rewrite !restart_spec. apply (proj1 (Forall_forall _ _) Hall) in Hd as [->|[H ->]];
      [by left|by right].
  - destruct r as [e|]; [|done]. by rewrite !restart_spec, Hr.
Qed.

(** A save that fails leaves the file. *)
Lemma save_keeps stamp rand path c w : doc_plain path →
  match Save encode windows stamp rand path c w with
  | (Some _, w') => current_file path (disk w') = current_file path (disk w)
  | (None, _) => True
  end.
Proof.
  intros Hplain. destruct (Save_triple stamp rand path c (disk w !! path) (disk w !! staging_name path) Hplain) as [data Ht].
  specialize (Ht w (conj eq_refl eq_refl)). destruct (Save _ _ _ _ _ _ w) as [[e|] w']; [|done]. by destruct Ht as [Hr _].
Qed.

(** ** Other files *)

Definition apart (path q : str) : Prop :=
  foreign q path ∧ foreign q (staging_name path) ∧ (∀ stamp, foreign q (path ++ ".bak-" ++ stamp)) ∧ ∀ rand, foreign q (doc_temp path rand).

Lemma untouched_rename q src dst : foreign q src → foreign q dst → untouched q (rename src dst).
Proof.
  intros Hs Hd. apply untouched_call; [|done]. intros p s d Hq. destruct (d !! src) as [e|]; [|done].
  destruct (d !! dst) as [[]|]; try done; by apply still_insert, still_delete.
Qed.

Lemma Save_untouched stamp rand path q cfg : apart path q → untouched q (Save encode windows stamp rand path cfg).
Proof.
  intros (H1 & H2 & H3 & H4). pose proof (H4 rand). pose proof (H3 stamp). unfold Save, replace_file, copyFile. cbv zeta.
  pose proof (untouched_backups path q maxConfigBackups H3). pose proof (untouched_rename q path (staging_name path) H1 H2).
  pose proof (untouched_rename q (staging_name path) path H2 H1). pose proof (untouched_rename q (doc_temp path rand) path (H4 rand) H1).
  untouched.
Qed.

Lemma LoadFile_untouched path q : apart path q → untouched q (LoadFile decode path).
Proof.
  intros (H1 & H2 & _) p s. unfold LoadFile.
  apply (triple_bind _ _ _ _ (λ r d, still q p s d ∧ ∀ data st, r = Some (data, Some st) → st = staging_name path)).
  { unfold readConfigForLoad. eapply triple_bind; [apply untouched_look|]. intros f. cbn beta.
    destruct f; [apply triple_ret; intros d Hd; split; [done|]; by intros data st; destruct (bounded _)| |
                 apply triple_ret; intros d Hd; split; [done|]; by intros data st; destruct (bounded _)].
    eapply triple_bind; [apply untouched_look|]. intros g. apply triple_ret. intros d Hd. split; [done|].
    intros data st. destruct (bounded g); [|done]. by intros [= _ <-]. }
  assert (∀ A (a : A), triple (still q p s) (still q p s) (mret a) (λ _, still q p s)) as Hret by (intros; by apply triple_ret).
  intros r w [Hw Hst]. revert w Hw. change (triple (still q p s) (still q p s) (match r with
    | None => mret (inl (lit "read config"))
    | Some (data, recoveryPath) =>
        match decode data with
        | None => mret (inl (lit "parse config"))
        | Some cfg =>
            match doc_validate cfg with
            | (e :: _, _) => mret (inl e)
            | ([], cfg) =>
                match recoveryPath with
                | None => mret (inr cfg)
                | Some staging => ok ← rename staging path; mret (if (ok : bool) then inr cfg else inl (lit "restore staged config"))
                end
            end
        end
    end) (λ _ : str + C, still q p s)).
  destruct r as [[data [st|]]|]; [|by case_match; [repeat case_match|]|done].
  destruct (decode data) as [c|]; [|done]. destruct (doc_validate c) as [[|] ?]; [|done].
  apply (triple_bind _ _ _ _ (λ _, still q p s)); [|intros ok; by apply triple_ret]. rewrite (Hst _ _ eq_refl). by apply untouched_rename.
Qed.

(** The codec of the document: what was encoded is decoded again. *)
Definition codec : Prop := ∀ cfg text, encode cfg = Some text → decode (text ++ [chr 10]) = Some cfg ∧ valid_utf8 (text ++ [chr 10]) = true.

(** What [Save] normalises a document to is what is normalised again and loaded. *)
Lemma save_loads stamp rand path c c' c'' w : doc_plain path → codec → doc_validate c = ([], c') → doc_validate c' = ([], c'') →
  let '(r, w') := Save encode windows stamp rand path c w in
  restart path (disk w') = match r with None => inr c'' | Some _ => restart path (disk w) end.
Proof.
  intros Hplain Hcodec Hc Hc'. destruct (Save_triple stamp rand path c (disk w !! path) (disk w !! staging_name path) Hplain) as [data Ht].
  specialize (Ht w (conj eq_refl eq_refl)). destruct (Save _ _ _ _ _ _ w) as [r w']. destruct Ht as (Hr & _).
  destruct r as [e|]; cbn [saved] in Hr; [rewrite !restart_spec; fold (current_file path (disk w)) in Hr; by rewrite Hr|].
  destruct Hr as ((c1 & text & Ev & Ee & -> & Hlen) & Hd). rewrite Hc in Ev. injection Ev as <-.
  destruct (Hcodec _ _ Ee) as [Hdec Hutf]. rewrite restart_spec. unfold config_of, current_file. rewrite Hd. unfold bounded.
  destruct (Z.ltb_spec maxConfigFileBytes (len (text ++ [chr 10]))); [lia|]. rewrite Hutf. cbn [negb]. by rewrite Hdec, Hc'.
Qed.

(** The document in the file, where a start looks for it, before it is validated. *)
Definition stored (path : str) (d : files) : option C :=
  e ← current_file path d; data ← bounded (Found e); decode data.

Lemma restart_stored path d c : stored path d = Some c →
  restart path d = match doc_validate c with ([], c') => inr c' | (e :: _, _) => inl e end.
Proof.
  unfold stored. intros (e & He & H)%bind_Some. apply bind_Some in H as (data & Hb & Hd).
  rewrite restart_spec, He. unfold config_of. rewrite Hb, Hd. by destruct (doc_validate c) as [[] ?].
Qed.

(** After a save the file holds the document as the save has validated it. *)
Lemma save_stored stamp rand path c w w' : doc_plain path → codec → Save encode windows stamp rand path c w = (None, w') →
  ∃ c', doc_validate c = ([], c') ∧ stored path (disk w') = Some c'.
Proof.
  intros Hplain Hcodec E. destruct (Save_triple stamp rand path c (disk w !! path) (disk w !! staging_name path) Hplain) as [data Ht].
  specialize (Ht w (conj eq_refl eq_refl)). rewrite E in Ht. destruct Ht as (((c' & text & Ev & Ee & -> & Hlen) & Hd) & _).
  exists c'. split; [done|]. destruct (Hcodec _ _ Ee) as [Hdec Hutf]. unfold stored, current_file, bounded. rewrite Hd. cbn [mbind option_bind].
  destruct (Z.ltb_spec maxConfigFileBytes (len (text ++ [chr 10]))); [lia|]. by rewrite Hutf.
Qed.

(** A validated document that was saved is the document that is loaded: nothing
    is changed on the way.  When [Save] reports an error, what is loaded is what
    was there. *)
Lemma save_restart stamp rand path c w : doc_plain path → codec → doc_validate c = ([], c) →
  let '(r, w') := Save encode windows stamp rand path c w in
  restart path (disk w') = match r with None => inr c | Some _ => restart path (disk w) end.
Proof. intros Hp Hcodec Hc. by apply save_loads with (c' := c). Qed.

End save_theorem.

(** ** EdgeProxy's configuration *)

Section edge.
Context {U : Unicode} {R : Resolve}.
Context (encode : Config → option str) (decode : str → option Config) (windows : bool).

(** C35: Replacing the configuration is atomic against crashes and failing calls, on
    Windows as well, where the old file is staged in between.  After every
    system call of [Save], whichever of them fail, a restart loads what it would
    have loaded before, or the new bytes; [Save] reports success exactly when the
    new bytes are at the path, and otherwise nothing is lost. *)
Theorem save_crash_safe stamp rand path cfg w :
  ∃ data, let '(r, w') := Save encode windows stamp rand path cfg w in
  (∃ visited, history w' = history w ++ visited ∧ ∀ d, d ∈ visited →
     restart decode path d = restart decode path (disk w)
     ∨ new_bytes encode cfg data ∧ restart decode path d = config_of decode (Some (Regular data)))
  ∧ match r with
    | None => new_bytes encode cfg data ∧ disk w' !! path = Some (Regular data)
    | Some _ => restart decode path (disk w') = restart decode path (disk w)
    end.
Proof. exact (save_safe encode decode windows stamp rand path cfg w I). Qed.

(** C29: Saving a configuration and loading it gives the same configuration.  Whatever
    [Validate] has made of a configuration that it accepted, if [Save] succeeds
    with it then a start on the files it leaves loads exactly that, and if [Save]
    reports an error, at whatever point, a start loads what it would have loaded
    before.  Conditions: the JSON codec reads back what it has written, in valid
    UTF-8, and no path prefix of a route ends in a space (validation would take
    it off only the second time). *)
Theorem config_roundtrip stamp rand path c0 c w : codec encode decode → Facts.accepted c0 c → Forall Stable.prefix_trimmed (routes c) →
  let '(r, w') := Save encode windows stamp rand path c w in
  restart decode path (disk w') = match r with None => inr c | Some _ => restart decode path (disk w) end.
Proof. intros Hcodec Hc Hp. apply save_restart; [done|done|]. by eapply Stable.Validate_again. Qed.

End edge.

(** ** Examples *)

(** A codec that knows one configuration. *)
Definition sample_encode (c c' : Config) : option str := if bool_decide (c' = c) then Some (lit "{}") else None.
Definition sample_decode (c : Config) (data : str) : option Config := if data =?s ("{}" ++ [chr 10]) then Some c else None.

Lemma sample_codec c : codec (sample_encode c) (sample_decode c).
Proof. intros c' text. unfold sample_encode. case_bool_decide as E; [|done]. intros [= <-]. subst. by split. Qed.

Lemma sample_trimmed : Forall Stable.prefix_trimmed (routes Facts.sample_valid).
Proof. apply (bool_decide_eq_true_1 _). vm_compute. reflexivity. Qed.

Definition sample_disk : world := mkWorld {[ lit "/etc/edge.json" := Regular "old" ]} [] [].

Lemma config_roundtrip_witness :
  @restart Config (@edge_document unicode_ascii Facts.sample_resolve) (sample_decode Facts.sample_valid) "/etc/edge.json"
    (disk (@Save Config (@edge_document unicode_ascii Facts.sample_resolve) (sample_encode Facts.sample_valid) false "1" "2" "/etc/edge.json" Facts.sample_valid sample_disk).2)
  = inr Facts.sample_valid.
Proof.
  pose proof (@config_roundtrip unicode_ascii Facts.sample_resolve (sample_encode Facts.sample_valid) (sample_decode Facts.sample_valid) false
    "1" "2" "/etc/edge.json" Facts.sample_config Facts.sample_valid sample_disk (sample_codec _) ltac:(by vm_compute) sample_trimmed) as H.
  assert ((@Save Config (@edge_document unicode_ascii Facts.sample_resolve) (sample_encode Facts.sample_valid) false "1" "2" "/etc/edge.json" Facts.sample_valid sample_disk).1 = None)
    as E by (vm_compute; reflexivity).
  destruct (Save _ _ _ _ _ _ _) as [r w']. cbn [fst snd] in *. by rewrite E in H.
Defined.

(** The exception is real: a prefix before whose last slash there is a space is
    accepted with the space, and loses it when it is validated again. *)
Example prefix_space_lost : ∃ c c' c'', @Facts.accepted unicode_ascii Facts.sample_resolve c c' ∧ @Facts.accepted unicode_ascii Facts.sample_resolve c' c''
  ∧ path_prefix <$> head (routes c') = Some (lit "/a ") ∧ path_prefix <$> head (routes c'') = Some (lit "/a").
Proof.
  set (c := mkConfig (server Facts.sample_config) (admin Facts.sample_config) [Facts.sample_route "shop" "*.Shop.test." "/a /" "http://10.0.0.1:80"]).
  exists c, (@Validation.Validate unicode_ascii Facts.sample_resolve c).2,
    (@Validation.Validate unicode_ascii Facts.sample_resolve (@Validation.Validate unicode_ascii Facts.sample_resolve c).2).2.
  unfold Facts.accepted. by vm_compute.
Qed.

End PersistFacts.
