(* ===== verification/SecPersistFacts.v ===== *)
(** * SecurityEdge's configuration from the file to the gateway

    What is saved is loaded, what the operator lists is who is matched, what the
    guard accepts takes effect, and accepted rules compile. *)

From S2P Require Import Prelude GoStr GoPath GoHttp GoCodec GoText NetIP NetIPFacts GoFloat Config ConfigValidate ConfigFacts ConfigStable ConfigEnv ConfigPersist ConfigPersistFacts RateLimit SecPolicy Waf SecConfig SecConfigFacts SecPersist Gateway.

Module SecPersistFacts.
Import Validation SecConfig SecFacts SecPersist.

Section facts.
Context {U : Unicode} {R : Resolve} {L : WafLib}.

(** ** The file *)

(** What an accepted configuration is saved as is what the next start loads, and
    a save that fails leaves what was there: nothing is changed on the way, as
    long as no excluded path ends in a space. *)
Theorem security_roundtrip (encode : SecConfig.Config → option str) (decode : str → option SecConfig.Config) windows stamp rand path c0 c w :
  stable_text → PersistFacts.codec encode decode → SecPersist.plain path → accepted c0 c → prefixes_trimmed c →
  let '(r, w') := SecPersist.Save encode windows stamp rand path c w in
  PersistFacts.restart decode path (Persistence.disk w')
  = match r with None => inr c | Some _ => PersistFacts.restart decode path (Persistence.disk w) end.
Proof.
  intros HT Hcodec Hplain Hc Ht. apply PersistFacts.save_restart; [done|done|]. by eapply config_again.
Qed.

(** ** The address lists *)

Lemma entry_matches client raw v : ip_entry raw = Good v →
  Gateway.ipMatches client [raw] = Gateway.ipMatches client [v].
Proof.
  unfold ip_entry, Gateway.ipMatches. destruct (ParseIP client) as [parsed|]; [|done]. cbn [existsb]. rewrite !orb_false_r.
  destruct (ParseIP (trim_space raw)) as [a|] eqn:E.
  - intros [= <-]. pose proof (NetFacts.ParseIP_range _ _ E) as Ha. rewrite ip_trim, NetFacts.ip_roundtrip by done.
    assert (∀ s b, ParseIP s = Some b → (s =?s []) = false ∧ ParseCIDR s = None) as Hno.
    { intros s b Hs. split; [apply eqs_false; by intros ->|]. destruct (ParseCIDR s) as [n|] eqn:En; [|done].
      by destruct (NetFacts.ParseIP_no_slash _ _ Hs (net_of _ _ En)). }
    destruct (Hno _ _ E) as [-> ->]. by destruct (Hno _ _ (NetFacts.ip_roundtrip a Ha)) as [-> ->].
  - destruct (ParseCIDR (trim_space raw)) as [n|] eqn:En; [|done]. intros [= <-].
    destruct (Stable.net_reparse _ _ En) as (n' & En' & _ & Hc). rewrite En'.
    assert (∀ s b, ParseCIDR s = Some b → (s =?s []) = false ∧ ParseIP s = None) as Hno.
    { intros s b Hs. pose proof (net_of _ _ Hs) as Hin. split; [apply eqs_false; intros ->; by apply not_elem_of_nil in Hin|].
      destruct (ParseIP s) as [i|] eqn:Ei; [|done]. by destruct (NetFacts.ParseIP_no_slash _ _ Ei Hin). }
    destruct (Hno _ _ En) as [-> _]. destruct (Hno _ _ En') as [-> ->]. cbn [orb]. by rewrite Hc.
Qed.

Lemma ipMatches_exists client l : Gateway.ipMatches client l = existsb (λ raw, Gateway.ipMatches client [raw]) l.
Proof.
  unfold Gateway.ipMatches. destruct (ParseIP client); [|by induction l].
  induction l as [|raw l IH]; [done|]. cbn [existsb] in *. by rewrite IH, orb_false_r.
Qed.

Lemma list_matches msg l out client : entries ip_entry msg l = ([], out) → Gateway.ipMatches client out = Gateway.ipMatches client l.
Proof.
  intros H. apply entries_spec in H as (_ & Hv & He & _). rewrite !(ipMatches_exists client).
  apply eq_true_iff_eq. rewrite !existsb_exists. split.
  - intros (v & Hin%list_elem_of_In & Hm). apply Hv in Hin as (raw & Hr & E). exists raw. split; [by apply list_elem_of_In|].
    by rewrite (entry_matches client _ _ E).
  - intros (raw & Hin%list_elem_of_In & Hm). destruct (ip_entry raw) as [| |v] eqn:E.
    + by destruct (proj1 He eq_refl raw Hin).
    + unfold ip_entry in E. destruct (ParseIP _); [done|]. by destruct (ParseCIDR _).
    + exists v. split; [apply list_elem_of_In, Hv; by exists raw|]. by rewrite <- (entry_matches client _ _ E).
Qed.

Definition same_clients (p p' : Policy) : Prop := ∀ client,
  Gateway.ipMatches client (ip_allowlist p') = Gateway.ipMatches client (ip_allowlist p)
  ∧ Gateway.ipMatches client (ip_denylist p') = Gateway.ipMatches client (ip_denylist p).

Lemma policy_matches p p' : validatePolicy p = ([], p') → same_clients p p'.
Proof.
  unfold validatePolicy. unfold normalizeIPList. destruct (entries body_type_entry _ _) as [e2 body] eqn:E2.
  destruct (entries method_entry _ _) as [e4 methods] eqn:E4. destruct (entries excluded_entry _ _) as [e5 excl] eqn:E5.
  destruct (entries disabled_entry _ _) as [e9 dis] eqn:E9. destruct (entries ip_entry _ (limited _ (ip_allowlist p))) as [e6 allow] eqn:E6.
  destruct (entries ip_entry _ (limited _ (ip_denylist p))) as [e7 deny] eqn:E7. cbv zeta. intros H. apply pair_equal_spec in H as [H <-].
  split_nil. match goal with H : check ((_ <? _) || (_ <? _)) _ = [] |- _ => apply Facts.check_nil, orb_false_iff in H as [Ha Hd] end.
  apply Z.ltb_ge in Ha, Hd. subst. rewrite Facts.limited_all in E6, E7 by done.
  intros client. split; by eapply list_matches.
Qed.

Lemma accepted_parts c c' : accepted c c' →
  validatePolicy (default_policy c) = ([], default_policy c')
  ∧ validate_route_policies (s_max_body (SecConfig.server c')) (default_policy c') (route_policies c) = ([], route_policies c')
  ∧ validateCustomRules (waf_rules (waf c)) = ([], waf_rules (waf c')).
Proof.
  unfold accepted, Validate. destruct (validate_server _) as [e1 s]. destruct (validate_admin _ _) as [e2 a].
  destruct (validateCustomRules _) as [e3 rules] eqn:Er. destruct (validatePolicy _) as [e4 d] eqn:Ed.
  destruct (validate_route_policies _ _ _) as [e5 policies] eqn:Ep. intros H. apply pair_equal_spec in H as [H <-].
  cbn [default_policy route_policies waf SecConfig.server]. rewrite (rules_listed _ _ _ _ Er). split_nil. by subst.
Qed.

(** Canonical spelling and the removal of duplicates never change whom a list
    names: for every client, the allow and deny lists of an accepted
    configuration match exactly when those of the file do, in the default policy
    and in every route policy, and no route policy is lost or made up. *)
Theorem lists_name_the_same_clients c c' : accepted c c' →
  same_clients (default_policy c) (default_policy c')
  ∧ dom (route_policies c') = dom (route_policies c)
  ∧ ∀ route p, route_policies c !! route = Some p → ∃ p', route_policies c' !! route = Some p' ∧ same_clients p p'.
Proof.
  intros (Hd & Hp & _)%accepted_parts. split; [by apply policy_matches|]. apply route_policies_spec in Hp as (Hdom & _ & H).
  split; [done|]. intros route p (p' & Hv & _ & E)%H. exists p'. split; [done|]. by apply policy_matches.
Qed.

(** ** The rules *)

Lemma custom_steps out seen rules : Forall rule_ok rules → NoDup (cr_id <$> rules) →
  (∀ r, r ∈ rules → cr_id r ∉ seen) →
  ∃ new, foldl Waf.custom_step (inr (out, seen)) rules = inr (out ++ new, list_to_set (cr_id <$> rules) ∪ seen)
    ∧ Waf.ID <$> new = cr_id <$> rules.
Proof.
  intros Hok. revert out seen. induction Hok as [|r rules [Hid Hscore [f Hpat] _] _ IH]; intros out seen Hn Hs.
  { exists []. rewrite app_nil_r. change (list_to_set (cr_id <$> [])) with (∅ : gset str). by rewrite (left_id_L ∅ (∪)). }
  rewrite fmap_cons in Hn. apply NoDup_cons in Hn as [Hr Hn]. cbn [foldl]. unfold Waf.custom_step at 2. rewrite Hid. cbv zeta.
  rewrite bool_decide_eq_false_2 by (apply Hs; by left).
  assert (((cr_score r <=? 0) || (MaxCustomRuleScore <? cr_score r)) = false) as -> by (apply orb_false_iff; lia). rewrite Hpat.
  set (rule := Waf.mkRule _ _ _ _ _ _ _ _). destruct (IH (out ++ [rule]) ({[cr_id r]} ∪ seen)) as (new & E & Hnew); [done| |].
  { intros q Hq. rewrite elem_of_union, elem_of_singleton. intros [Eq|Hin]; [|apply (Hs q); [by right|done]].
    apply Hr, list_elem_of_fmap. by exists q. }
  exists (rule :: new). rewrite E. split; [|by rewrite !fmap_cons, Hnew].
  rewrite <- (assoc_L (++)). f_equal. f_equal. cbn. set_solver.
Qed.

Lemma custom_clash rules acc : (∃ e, acc = inl e) ∨ (∃ out seen r, acc = inr (out, seen) ∧ r ∈ rules ∧ cr_id r ∈ seen) →
  Forall rule_ok rules → ∃ e, foldl Waf.custom_step acc rules = inl e.
Proof.
  intros H Hok. revert acc H. induction Hok as [|r rules [Hid Hscore [f Hpat] _] _ IH]; intros acc H.
  { destruct H as [[e ->]|(out & seen & r & _ & []%not_elem_of_nil & _)]. by exists e. }
  cbn [foldl]. apply IH. destruct H as [[e ->]|(out & seen & q & -> & Hin & Hq)]; [left; by exists e|].
  unfold Waf.custom_step. rewrite Hid. cbv zeta. case_bool_decide as Hs; [left; by eexists|].
  assert (((cr_score r <=? 0) || (MaxCustomRuleScore <? cr_score r)) = false) as -> by (apply orb_false_iff; lia). rewrite Hpat.
  right. do 2 eexists. exists q. split; [done|]. apply elem_of_cons in Hin as [->|Hin]; [done|]. split; [done|set_solver].
Qed.

(** The custom rules of an accepted configuration compile, all of them and in
    their order behind the built-in ones, unless one of them takes the id of a
    built-in rule; only then is there an error, and the firewall that runs keeps
    its rules. *)
Theorem accepted_rules_compile c c' builtin : stable_text → accepted c c' → Waf.BuiltinRules = Some builtin →
  if bool_decide (Exists (λ r, cr_id r ∈ Waf.ID <$> builtin) (waf_rules (waf c')))
  then ∀ i max, ∃ e, Waf.Replace i (waf_rules (waf c')) max = (Some e, i)
  else ∃ new, Waf.CompileRules (waf_rules (waf c')) = inr (builtin ++ new) ∧ Waf.ID <$> new = cr_id <$> waf_rules (waf c').
Proof.
  intros HT (_ & _ & Hr)%accepted_parts Hb. apply custom_rules_again in Hr as (_ & Hok & Hn); [|done].
  unfold Waf.Replace, Waf.CompileRules. rewrite Hb. case_bool_decide as Hex.
  - intros i max. apply Exists_exists in Hex as (r & Hin & Hid).
    destruct (custom_clash (waf_rules (waf c')) (inr (builtin, list_to_set (Waf.ID <$> builtin)))) as [e E]; [|done|].
    + right. do 2 eexists. exists r. split_and!; [done|done|by apply elem_of_list_to_set].
    + rewrite E. by exists e.
  - destruct (custom_steps builtin (list_to_set (Waf.ID <$> builtin)) _ Hok Hn) as (new & E & Hnew).
    + intros r Hr' Hin. apply Hex, Exists_exists. exists r. split; [done|]. by apply elem_of_list_to_set in Hin.
    + exists new. by rewrite E.
Qed.

(** ** The environment *)

Section guard.
Context (env : Environment.environment).
Abbreviation managed := (Environment.managed env).

Lemma locked_nil l locked : foldl (λ locked f, let '(key, field, changed) := f in Environment.add_locked env key field changed locked) locked l = [] →
  locked = [] ∧ ∀ key field changed, (key, field, changed) ∈ l → managed key = true → changed = false.
Proof.
  revert locked. induction l as [|[[key field] changed] l IH]; intros locked H; [split; [done|by intros ??? ?%not_elem_of_nil]|].
  cbn [foldl] in H. apply IH in H as [H1 H2]. apply Environment.add_locked_nil in H1 as [-> H1]. split; [done|].
  intros k f c [[= -> -> ->]|Hin]%elem_of_cons; [done|by eapply H2].
Qed.

Definition effective {A} (current next cfg : SecConfig.Config) (field : SecConfig.Config → A) : Prop :=
  field next ≠ field current → field cfg = field next.

Definition managed_texts : list (SecConfig.Config → str) :=
  [(λ c, s_listen (server c)); (λ c, s_upstream (server c)); (λ c, s_forwarded (server c)); (λ c, tls_cert (s_tls (server c)));
   (λ c, tls_key (s_tls (server c))); (λ c, a_listen (admin c)); (λ c, a_token (admin c)); (λ c, ls_file (a_log (admin c)));
   (λ c, th_file (a_history (admin c))); (λ c, dns_server (cn_dns (a_connectivity (admin c)))); (λ c, ep_path (edgeproxy c));
   (λ c, ep_url (edgeproxy c)); (λ c, ep_token (edgeproxy c))].
Definition managed_lists : list (SecConfig.Config → slice) :=
  [(λ c, s_trusted (server c)); (λ c, dns_names (cn_dns (a_connectivity (admin c))));
   (λ c, dns_expected (cn_dns (a_connectivity (admin c))))].
Definition managed_flags : list (SecConfig.Config → bool) :=
  [(λ c, tls_enabled (s_tls (server c))); (λ c, dns_enabled (cn_dns (a_connectivity (admin c))));
   (λ c, dns_critical (cn_dns (a_connectivity (admin c))))].

Lemma list_env_effective key (x y : slice) : (managed key = true → negb (bool_decide (x = y)) = false) → y ≠ x → list_env env key y = y.
Proof.
  intros H Hne. unfold list_env, nonEmptyEnvironment. apply (Environment.managed_default env key (λ v, Some (Environment.splitEnvironmentList v)) y), not_true_is_false. intros Hm. apply Hne.
  specialize (H Hm). by apply negb_false_iff, bool_decide_eq_true in H.
Qed.
Lemma bool_env_effective key (x y : bool) v : (managed key = true → negb (eqb x y) = false) → y ≠ x → bool_env env key y = Some v → v = y.
Proof.
  intros H Hne. unfold bool_env, nonEmptyEnvironment. rewrite (Environment.managed_default env key Environment.parse_bool (Some y)); [by intros [= ->]|].
  apply not_true_is_false. intros Hm. apply Hne. specialize (H Hm). by apply negb_false_iff, eqb_prop in H.
Qed.
Lemma string_env_effective key (x y : str) : (managed key = true → negb (x =?s y) = false) → y ≠ x → Environment.applyStringEnv env key y = y.
Proof. intros H Hne. apply Environment.unmanaged_string. by eapply Environment.string_unmanaged. Qed.

(** An update of SecurityEdge's file that the guard accepts is not masked: every
    field that the environment can override and that the update changes has the
    updated value after the overrides have been applied; the rules and policies
    are never overridden. *)
Theorem security_changes_take_effect current next cfg :
  ValidateEnvironmentManagedChanges env current next = None → ApplyEnvironmentOverrides env next = inr cfg →
  Forall (effective current next cfg) managed_texts ∧ Forall (effective current next cfg) managed_lists
  ∧ Forall (effective current next cfg) managed_flags
  ∧ waf cfg = waf next ∧ default_policy cfg = default_policy next ∧ route_policies cfg = route_policies next.
Proof.
  unfold ValidateEnvironmentManagedChanges, ApplyEnvironmentOverrides. intros Hg Ha.
  destruct (Z.ltb_spec 0 (len (locked_fields env current next))) as [|Hl]; [done|]. clear Hg.
  assert (locked_fields env current next = []) as Hg by (apply len_zero; pose proof (len_nonneg (locked_fields env current next)); lia).
  clear Hl. unfold locked_fields in Hg. apply locked_nil in Hg as [_ Hg].
  assert (∀ i key field changed, managed_fields current next !! i = Some (key, field, changed) → managed key = true → changed = false) as Hf.
  { intros i key field changed Hi. eapply Hg. by eapply list_elem_of_lookup_2. } clear Hg.
  destruct (bool_env env "SECURITYEDGE_TLS_ENABLED" _) as [tls|] eqn:E1; [|done].
  destruct (bool_env env "SECURITYEDGE_DNS_ENABLED" _) as [on|] eqn:E2; [|done].
  destruct (bool_env env "SECURITYEDGE_DNS_CRITICAL" _) as [critical|] eqn:E3; [|done]. injection Ha as <-.
  split_and!; try done; unfold managed_texts, managed_lists, managed_flags; repeat apply Forall_cons_2; try apply Forall_nil_2; unfold effective; intros Hne.
  - exact (string_env_effective _ _ _ (Hf 0%nat _ _ _ eq_refl) Hne).
  - exact (string_env_effective _ _ _ (Hf 1%nat _ _ _ eq_refl) Hne).
  - exact (string_env_effective _ _ _ (Hf 2%nat _ _ _ eq_refl) Hne).
  - exact (string_env_effective _ _ _ (Hf 5%nat _ _ _ eq_refl) Hne).
  - exact (string_env_effective _ _ _ (Hf 6%nat _ _ _ eq_refl) Hne).
  - exact (string_env_effective _ _ _ (Hf 7%nat _ _ _ eq_refl) Hne).
  - exact (string_env_effective _ _ _ (Hf 8%nat _ _ _ eq_refl) Hne).
  - exact (string_env_effective _ _ _ (Hf 9%nat _ _ _ eq_refl) Hne).
  - exact (string_env_effective _ _ _ (Hf 10%nat _ _ _ eq_refl) Hne).
  - exact (string_env_effective _ _ _ (Hf 11%nat _ _ _ eq_refl) Hne).
  - exact (string_env_effective _ _ _ (Hf 16%nat _ _ _ eq_refl) Hne).
  - exact (string_env_effective _ _ _ (Hf 17%nat _ _ _ eq_refl) Hne).
  - exact (string_env_effective _ _ _ (Hf 18%nat _ _ _ eq_refl) Hne).
  - exact (list_env_effective _ _ _ (Hf 3%nat _ _ _ eq_refl) Hne).
  - exact (list_env_effective _ _ _ (Hf 12%nat _ _ _ eq_refl) Hne).
  - exact (list_env_effective _ _ _ (Hf 13%nat _ _ _ eq_refl) Hne).
  - exact (bool_env_effective _ _ _ _ (Hf 4%nat _ _ _ eq_refl) Hne E1).
  - exact (bool_env_effective _ _ _ _ (Hf 14%nat _ _ _ eq_refl) Hne E2).
  - exact (bool_env_effective _ _ _ _ (Hf 15%nat _ _ _ eq_refl) Hne E3).
Qed.

End guard.

End facts.

(** ** ASCII case mapping and the white space around a text *)

Lemma trim_runes_fmap (f : ascii → ascii) s2 s3 s : (∀ c, space1 (f c) = space1 c) → (∀ c d, s2 (f c) (f d) = s2 c d) →
  (∀ c d e, s3 (f c) (f d) (f e) = s3 c d e) → trim_runes s2 s3 (f <$> s) = f <$> trim_runes s2 s3 s.
Proof.
  intros H1 H2 H3. induction s as [s IH] using (well_founded_induction (Wf_nat.well_founded_ltof _ length)).
  destruct s as [|c [|d [|e s]]]; [done|cbn; rewrite H1; by destruct (space1 c)| |].
  - cbn. rewrite !H1, H2. destruct (space1 c); [by destruct (space1 d)|]. by destruct (s2 c d).
  - assert (∀ c d e s, trim_runes s2 s3 (c :: d :: e :: s) = if space1 c then trim_runes s2 s3 (d :: e :: s)
      else if s2 c d then trim_runes s2 s3 (e :: s) else if s3 c d e then trim_runes s2 s3 s else c :: d :: e :: s) as E by done.
    rewrite !fmap_cons, !E, H1, H2, H3.
    destruct (space1 c); [apply (IH (d :: e :: s)); unfold Wf_nat.ltof; simpl; lia|].
    destruct (s2 c d); [apply (IH (e :: s)); unfold Wf_nat.ltof; simpl; lia|].
    destruct (s3 c d e); [apply IH; unfold Wf_nat.ltof; simpl; lia|done].
Qed.

Lemma space2_ascii c d : rune_self c = false ∨ rune_self d = false → space2 c d = false.
Proof. unfold rune_self, space2. rewrite !Z.leb_gt, !andb_false_iff, !orb_false_iff, !Z.eqb_neq. lia. Qed.
Lemma space3_ascii c d e : rune_self c = false ∨ rune_self d = false ∨ rune_self e = false → space3 c d e = false.
Proof. unfold rune_self, space3. rewrite !Z.leb_gt, !orb_false_iff, !andb_false_iff, !orb_false_iff, !Z.eqb_neq, !andb_false_iff, !Z.leb_gt. lia. Qed.

(** A mapping that moves only letters. *)
Definition letterwise (f : ascii → ascii) : Prop := ∀ c, f c = c ∨ rune_self c = false ∧ rune_self (f c) = false ∧ space1 c = false ∧ space1 (f c) = false.

Lemma trim_space_fmap f s : letterwise f → trim_space (f <$> s) = f <$> trim_space s.
Proof.
  intros Hf. assert (∀ c, space1 (f c) = space1 c) as H1 by (intros c; destruct (Hf c) as [->|(_ & _ & -> & ->)]; done).
  assert (∀ c d, space2 (f c) (f d) = space2 c d) as H2.
  { intros c d. destruct (Hf c) as [->|(? & ? & _)]; [|by rewrite !space2_ascii by auto].
    destruct (Hf d) as [->|(? & ? & _)]; [done|by rewrite !space2_ascii by auto]. }
  assert (∀ c d e, space3 (f c) (f d) (f e) = space3 c d e) as H3.
  { intros c d e. destruct (Hf c) as [->|(? & ? & _)]; [|by rewrite !space3_ascii by auto].
    destruct (Hf d) as [->|(? & ? & _)]; [|by rewrite !space3_ascii by auto].
    destruct (Hf e) as [->|(? & ? & _)]; [done|by rewrite !space3_ascii by auto]. }
  unfold trim_space, trim_left_space, trim_right_space. rewrite (trim_runes_fmap f) by done. rewrite <- fmap_reverse.
  rewrite (trim_runes_fmap f) by (intros; done || by rewrite H2 || by rewrite H3). by rewrite <- fmap_reverse.
Qed.

Lemma lower_letterwise : letterwise lower_ascii.
Proof. intros c. destruct (decide (lower_ascii c = c)); [by left|right]. revert n. all_bytes c. Qed.
Lemma upper_letterwise : letterwise upper_ascii.
Proof. intros c. destruct (decide (upper_ascii c = c)); [by left|right]. revert n. all_bytes c. Qed.

(** ** A sample configuration *)

Definition sample_lib : WafLib := {|
  regexp_compile p := Some (λ s, contains s p); html_unescape s := s; parse_media_type s := (s, true); media_params _ := 0;
  json_unmarshal _ := None; request_cookies _ := [] |}.

Definition sample_policy : Policy :=
  let d := default_policy Default in
  mkPolicy true " Block " 5 true (2 ^ 20) (lits ["Text/Plain"; "text/plain "]) (lits ["get"; "GET"; ""]) (lits ["/static/"]) (lits ["xss-001"])
    (lits ["192.168.1.1"]) (lits [" 10.1.2.3/8 "; "10.0.0.0/8"; "2001:0db8::0001"]) 4096 8192 100 8192 true false true (rate_limit d) (auto_ban d).

Definition sample_config : SecConfig.Config :=
  mkConfig (server Default) (admin Default) (mkEdgeProxy "edgeproxy.json" "http://127.0.0.1:9090" [] second)
    (mkWAF 32 (Some [mkCustomRule " custom-1 " " Probe " " Custom " "test" 7 (lits [" Query"; "query"; "body"]) "evil"]))
    sample_policy {[ lit "App" := sample_policy ]}.

Definition sample_valid : SecConfig.Config := (@Validate unicode_ascii Facts.sample_resolve sample_lib sample_config).2.

Lemma sample_accepted : @accepted unicode_ascii Facts.sample_resolve sample_lib sample_config sample_valid.
Proof. vm_compute. reflexivity. Qed.

Lemma sample_text : @stable_text unicode_ascii sample_lib.
Proof.
  assert (∀ s, @to_lower unicode_ascii s = lower_ascii <$> s) as HL by (intros s; unfold to_lower; by destruct (is_ascii s)).
  assert (∀ s, @to_upper unicode_ascii s = upper_ascii <$> s) as HU by (intros s; unfold to_upper; by destruct (is_ascii s)).
  assert (∀ s : str, lower_ascii <$> (lower_ascii <$> s) = lower_ascii <$> s) as HL2.
  { intros s. rewrite <- list_fmap_compose. apply list_fmap_ext. intros _ b _. unfold compose. all_bytes b. }
  assert (∀ s : str, upper_ascii <$> (upper_ascii <$> s) = upper_ascii <$> s) as HU2.
  { intros s. rewrite <- list_fmap_compose. apply list_fmap_ext. intros _ b _. unfold compose. all_bytes b. }
  split.
  - intros s. rewrite !HU, (trim_space_fmap _ _ upper_letterwise), HU2. by rewrite Stable.trim_space_idem.
  - intros s. rewrite !HL, (trim_space_fmap _ _ lower_letterwise), HL2. by rewrite Stable.trim_space_idem.
  - intros s t [= ->] _ _. split; [|done]. rewrite !HL, (trim_space_fmap _ _ lower_letterwise), Stable.trim_space_idem. done.
Qed.

Lemma sec_sample_trimmed : prefixes_trimmed sample_valid.
Proof.
  unfold prefixes_trimmed, paths_trimmed. split; apply (bool_decide_eq_true_1 _); vm_compute; reflexivity.
Qed.

(** A codec that knows one configuration. *)
Definition sample_encode (c : SecConfig.Config) : option str := if bool_decide (c = sample_valid) then Some (lit "{}") else None.
Definition sample_decode (data : str) : option SecConfig.Config := if data =?s ("{}" ++ [chr 10]) then Some sample_valid else None.

Lemma sec_sample_codec : PersistFacts.codec sample_encode sample_decode.
Proof. intros c text. unfold sample_encode. case_bool_decide as E; [|done]. intros [= <-]. subst c. split; [|by vm_compute]. unfold sample_decode. by rewrite (proj2 (eqs_true _ _)). Qed.

Definition sample_world : Persistence.world := Persistence.mkWorld {[ lit "/etc/security.json" := Persistence.Regular "old" ]} [] [].

Abbreviation sample_save := (@SecPersist.Save unicode_ascii Facts.sample_resolve sample_lib sample_encode false "1" "2" "/etc/security.json" sample_valid sample_world).

Lemma sample_saved : sample_save.1 = None.
Proof. vm_compute. reflexivity. Qed.
Lemma sample_plain : SecPersist.plain "/etc/security.json".
Proof. vm_compute. reflexivity. Qed.

Lemma saved_outcome {A B : Type} (F : A → B) (r : option str * A) (G K : B) :
  (let '(o, w) := r in F w = match o with None => G | Some _ => K end) → r.1 = None → F r.2 = G.
Proof. destruct r as [[e|] w]; cbn; [done|by intros -> _]. Qed.

Abbreviation sample_restart w := (@PersistFacts.restart _ (@sec_document unicode_ascii Facts.sample_resolve sample_lib) sample_decode
  "/etc/security.json" (Persistence.disk w)).

Lemma security_roundtrip_witness : sample_restart sample_save.2 = inr sample_valid.
Proof.
  exact (saved_outcome (λ w, sample_restart w) sample_save (inr sample_valid) (sample_restart sample_world)
    (@security_roundtrip unicode_ascii Facts.sample_resolve sample_lib sample_encode sample_decode false "1" "2"
      "/etc/security.json" sample_config sample_valid sample_world sample_text sec_sample_codec sample_plain sample_accepted sec_sample_trimmed)
    sample_saved).
Defined.

(** The file says " 10.1.2.3/8 ", what runs says "10.0.0.0/8". *)
Lemma lists_name_the_same_clients_witness :
  ip_denylist (default_policy sample_valid) = lits ["10.0.0.0/8"; "2001:db8::1"]
  ∧ Gateway.ipMatches "10.200.0.1" (ip_denylist (default_policy sample_valid))
    = Gateway.ipMatches "10.200.0.1" (lits [" 10.1.2.3/8 "; "10.0.0.0/8"; "2001:0db8::0001"])
  ∧ Gateway.ipMatches "10.200.0.1" (ip_denylist (default_policy sample_valid)) = true.
Proof.
  pose proof (@lists_name_the_same_clients unicode_ascii Facts.sample_resolve sample_lib sample_config sample_valid sample_accepted) as H.
  refine (conj _ (conj (proj2 (proj1 H (lit "10.200.0.1"))) _)); vm_compute; reflexivity.
Defined.

Definition sample_builtin : list Waf.Rule := default [] (@Waf.BuiltinRules sample_lib).
Lemma sample_builtin_rules : @Waf.BuiltinRules sample_lib = Some sample_builtin.
Proof. vm_compute. reflexivity. Qed.

Lemma accepted_rules_compile_witness :
  ∃ new, @Waf.CompileRules unicode_ascii sample_lib (waf_rules (waf sample_valid)) = inr (sample_builtin ++ new) ∧ Waf.ID <$> new = lits ["CUSTOM-1"].
Proof.
  pose proof (@accepted_rules_compile unicode_ascii Facts.sample_resolve sample_lib sample_config sample_valid sample_builtin
    sample_text sample_accepted sample_builtin_rules) as H.
  assert (bool_decide (Exists (λ r, cr_id r ∈ Waf.ID <$> sample_builtin) (waf_rules (waf sample_valid))) = false) as E by (vm_compute; reflexivity).
  rewrite E in H. exact H.
Defined.

(** The token is managed, the deny list is not. *)
Definition sample_env : Environment.environment := λ key, if key =?s "SECURITYEDGE_ADMIN_TOKEN" then Some (lit " secret ") else None.

Definition sample_next : SecConfig.Config :=
  mkConfig (server sample_valid) (admin sample_valid) (mkEdgeProxy "other.json" "http://127.0.0.1:9090" [] second)
    (waf sample_valid) (default_policy sample_valid) ∅.

Lemma security_changes_take_effect_witness :
  ∃ cfg, ApplyEnvironmentOverrides sample_env sample_next = inr cfg
  ∧ a_token (admin cfg) = lit "secret" ∧ ep_path (edgeproxy cfg) = lit "other.json" ∧ route_policies cfg = ∅.
Proof.
  assert (∃ cfg, ApplyEnvironmentOverrides sample_env sample_next = inr cfg ∧ a_token (admin cfg) = lit "secret") as (cfg & E & Et)
    by (eexists; split; vm_compute; reflexivity).
  exists cfg. pose proof (security_changes_take_effect sample_env sample_valid sample_next cfg
    ltac:(vm_compute; reflexivity) E) as (H1 & _ & _ & _ & _ & H2).
  pose proof (proj1 (Forall_lookup _ _) H1 10%nat _ eq_refl) as H. refine (conj E (conj Et (conj (H _) H2))). vm_compute. congruence.
Defined.

End SecPersistFacts.
