(* ===== verification/AdminAuth.v ===== *)
(** * Who may use the admin APIs: internal/admin/server.go of both programs

    Both accept one bearer token.  SecurityEdge also counts the failures of a
    client and locks it out.  A request is three critical sections: is the client
    locked out, and then a failure is recorded or its failures are forgotten.
    They are steps of their own, because other requests come in between. *)

From S2P Require Import Prelude GoStr GoPath GoText GoHttp GoCodec GoOS NetIP Config ConfigValidate ConfigFacts ClientIP RateLimit SecPolicy Waf SecConfig SecConfigFacts ConfigPersist ConfigPersistFacts SecPersist SecPersistFacts.

(** ** The bearer token *)

Module Bearer.

(** [strings.Fields]; [w] is the word so far. *)
Definition emit (w : str) (words : list str) : list str := if w =?s [] then words else w :: words.
Fixpoint fields_from (w s : str) : list str :=
  match s with
  | [] => emit w []
  | c :: s1 =>
      if space1 c then emit w (fields_from [] s1)
      else match s1 with
      | [] => fields_from (w ++ [c]) s1
      | d :: t =>
          if space2 c d then emit w (fields_from [] t)
          else match t with
          | [] => fields_from (w ++ [c]) s1
          | e :: u => if space3 c d e then emit w (fields_from [] u) else fields_from (w ++ [c]) s1
          end
      end
  end.
Definition fields (s : str) : list str := fields_from [] s.

Section bearer.
Context {U : Unicode} {SH : Sha256}.

Definition secureTokenEqual (got want : str) : bool := sha256 got =?s sha256 want.

Definition validBearerAuthorization (h : header) (expected : str) : bool :=
  match header_values h "Authorization" with
  | [value] =>
      match fields value with
      | [scheme; token] => equal_fold scheme "Bearer" && secureTokenEqual token expected
      | _ => false
      end
  | _ => false
  end.

(** What a client sends that has the token. *)
Definition credential (token : str) : str := "Bearer " ++ token.

Definition plain_byte (c : ascii) : bool := in_range "!" "~" c.

Lemma plain_byte_spaces c d e : plain_byte c = true → space1 c = false ∧ space2 c d = false ∧ space3 c d e = false.
Proof.
  unfold plain_byte, in_range, space1, space2, space3. change (code "!") with 33. change (code "~") with 126. intros H. boolify.
  replace (code c =? 194) with false by lia. replace (code c =? 225) with false by lia. replace (code c =? 226) with false by lia.
  replace (code c =? 227) with false by lia. split_and!; [lia|done|done].
Qed.

Lemma fields_step w c s : plain_byte c = true → fields_from w (c :: s) = fields_from (w ++ [c]) s.
Proof.
  intros Hc. cbn [fields_from]. destruct s as [|d [|e u]].
  - by rewrite (proj1 (plain_byte_spaces c c c Hc)).
  - by destruct (plain_byte_spaces c d c Hc) as (-> & -> & _).
  - by destruct (plain_byte_spaces c d e Hc) as (-> & -> & ->).
Qed.

Lemma fields_word w s rest : forallb plain_byte s = true → fields_from w (s ++ rest) = fields_from (w ++ s) rest.
Proof.
  revert w. induction s as [|c s IH]; intros w H; [by rewrite app_nil_r|]. cbn [forallb] in H. apply andb_true_iff in H as [Hc H].
  change ((c :: s) ++ rest) with (c :: s ++ rest). rewrite fields_step, IH by done. by rewrite <- app_assoc.
Qed.

Lemma fields_credential token : token ≠ [] → forallb plain_byte token = true → fields (credential token) = [lit "Bearer"; token].
Proof.
  intros Hne H. unfold fields, credential. change (lit "Bearer ") with (lit "Bearer" ++ [" "%char]).
  rewrite <- app_assoc, fields_word by (by vm_compute). rewrite <- (app_nil_r token) at 1. cbn [app fields_from].
  replace (space1 " ") with true by (by vm_compute). rewrite fields_word by done. cbn [app fields_from]. unfold emit.
  change (lit "Bearer" =?s []) with false. destruct (token =?s []) eqn:E; [by apply eqs_true in E|done].
Qed.

(** A token that validation accepts is a word. *)
Lemma credential_accepted token : token ≠ [] → Validation.validateBearerCredential token = [] → fields (credential token) = [lit "Bearer"; token].
Proof.
  intros Hne H. apply fields_credential; [done|]. unfold Validation.validateBearerCredential, Validation.check in H.
  destruct (negb (forallb (in_range "!" "~") token)) eqn:E; [by rewrite orb_true_r in H|]. by apply negb_false_iff in E.
Qed.

Lemma bearer_opens token h : token ≠ [] → Validation.validateBearerCredential token = [] → header_values h "Authorization" = [credential token] →
  validBearerAuthorization h token = true.
Proof.
  intros Hne Hv Hh. unfold validBearerAuthorization. rewrite Hh, credential_accepted by done. unfold secureTokenEqual.
  rewrite (proj2 (eqs_true _ _)) by done. rewrite andb_true_r. apply equal_fold_refl_ascii. by vm_compute.
Qed.

(** The header shows a word that the comparison of digests takes for the token. *)
Lemma bearer_spec token h : validBearerAuthorization h token = true ↔
  ∃ value scheme word, header_values h "Authorization" = [value] ∧ fields value = [scheme; word] ∧ equal_fold scheme "Bearer" = true
    ∧ sha256 word = sha256 token.
Proof.
  unfold validBearerAuthorization, secureTokenEqual. split.
  - destruct (header_values _ _) as [|value [|]]; [done| |done]. destruct (fields value) as [|scheme [|word [|]]] eqn:E; [done|done| |done].
    intros [Hs Ht%eqs_true]%andb_true_iff. by exists value, scheme, word.
  - intros (value & scheme & word & -> & -> & -> & ->). by apply eqs_true.
Qed.

End bearer.
End Bearer.

(** ** Clients that fail *)

Module Lockout.
Import Bearer.

Record authFailure := mkFailure { af_count : Z; af_window : time; af_locked : time }.
Abbreviation table := (gmap str authFailure).

Definition maxTrackedAuthClients : Z := 4096.

Section lockout.
Context {U : Unicode} {SH : Sha256} {MR : MapRange}.
(** [auth_token], [auth_failures_per_minute], [auth_lockout_duration] *)
Context (token : str) (failures : Z) (lockout : duration).

Definition authLocked (client : str) (now : time) (t : table) : option duration * table :=
  match t !! client with
  | None => (None, t)
  | Some v =>
      if time_before now (af_locked v) then (Some (time_sub (af_locked v) now), t)
      else if minute <=? time_sub now (af_window v) then (None, delete client t) else (None, t)
  end.

Definition pruneAuthFailuresLocked (now : time) (t : table) : table :=
  filter (λ kv, ¬ (time_before now (af_locked kv.2) = false ∧ minute <= time_sub now (af_window kv.2))) t.

(** The oldest entry that is not locked, as the loop finds it; an empty name is none. *)
Definition oldest_step (now : time) (oldest : str * time) (kv : str * authFailure) : str * time :=
  if time_before now (af_locked kv.2) then oldest
  else if (oldest.1 =?s []) || time_before (af_window kv.2) oldest.2 then (kv.1, af_window kv.2) else oldest.

Definition evictOldestUnlockedAuthFailureLocked (now : time) (t : table) : option table :=
  let oldest := foldl (oldest_step now) ([], time_zero) (range t) in
  if oldest.1 =?s [] then None else Some (delete oldest.1 t).

Definition counted (now : time) (v : authFailure) : authFailure :=
  let count := wrap64 (af_count v + 1) in
  mkFailure count (af_window v) (if failures <=? count then time_add now lockout else af_locked v).

Definition recordAuthFailure (client : str) (now : time) (t : table) : table :=
  let t := pruneAuthFailuresLocked now t in
  let fresh t := <[client := counted now (mkFailure 0 now time_zero)]> t in
  match t !! client with
  | None =>
      if maxTrackedAuthClients <=? Z.of_nat (size t)
      then match evictOldestUnlockedAuthFailureLocked now t with Some t => fresh t | None => t end
      else fresh t
  | Some v => if minute <=? time_sub now (af_window v) then fresh t else <[client := counted now v]> t
  end.

Definition clearAuthFailures (client : str) (t : table) : table := delete client t.

(** The critical sections of [auth]. *)
Inductive section := Look (client : str) (now : time) | Failed (client : str) (now : time) | Cleared (client : str).

Definition run_section (t : table) (s : section) : table :=
  match s with
  | Look c now => (authLocked c now t).2
  | Failed c now => recordAuthFailure c now t
  | Cleared c => clearAuthFailures c t
  end.

Inductive admission := TooMany (retryAfter : Z) | Unauthorized | Entered.

(** [Duration.Round(time.Second)] of a positive duration *)
Definition round_second (d : duration) : duration :=
  let r := d mod second in
  if r + r <? second then d - r else if d + (second - r) <=? max_int64 then d + (second - r) else max_int64.

Definition retry_after (retry : duration) : Z := Z.max 1 (round_second retry / second).

(** The second section of a request that is not locked out, and its answer. *)
Definition judged (client : str) (now : time) (h : header) : section * admission :=
  if negb (token =?s []) && negb (validBearerAuthorization h token) then (Failed client now, Unauthorized) else (Cleared client, Entered).

(** A request that nothing comes in between of. *)
Definition auth (client : str) (now : time) (h : header) (t : table) : admission * table :=
  let '(locked, t) := authLocked client now t in
  match locked with
  | Some retry => (TooMany (retry_after retry), t)
  | None => let '(s, a) := judged client now h in (a, run_section t s)
  end.

(** ** A lock holds *)

Definition client_of (s : section) : str := match s with Look c _ | Failed c _ | Cleared c => c end.
Definition in_time (P : time → Prop) (s : section) : Prop := match s with Look _ now | Failed _ now => P now | Cleared _ => True end.

Lemma prune_lookup now t c v : pruneAuthFailuresLocked now t !! c = Some v ↔
  t !! c = Some v ∧ ¬ (time_before now (af_locked v) = false ∧ minute <= time_sub now (af_window v)).
Proof. apply map_lookup_filter_Some. Qed.

Lemma prune_size now t : (size (pruneAuthFailuresLocked now t) <= size t)%nat.
Proof. unfold pruneAuthFailuresLocked. rewrite <- !size_dom. apply subseteq_size, subseteq_dom, map_filter_subseteq. Qed.

(** Who is thrown out is in the table and not locked. *)
Lemma evicted_entry now t t' : evictOldestUnlockedAuthFailureLocked now t = Some t' →
  ∃ c v, t !! c = Some v ∧ time_before now (af_locked v) = false ∧ t' = delete c t.
Proof.
  unfold evictOldestUnlockedAuthFailureLocked. set (oldest := foldl _ _ _). destruct (oldest.1 =?s []) eqn:E; [done|]. intros [= <-].
  assert (∀ l acc, (∀ kv, kv ∈ l → t !! kv.1 = Some kv.2) →
    (acc.1 = [] ∨ ∃ v, t !! acc.1 = Some v ∧ time_before now (af_locked v) = false) →
    let o := foldl (oldest_step now) acc l in o.1 = [] ∨ ∃ v, t !! o.1 = Some v ∧ time_before now (af_locked v) = false) as H.
  { induction l as [|kv l IH]; intros acc Hl Hacc; [done|]. cbn [foldl]. apply IH; [intros; apply Hl; by right|].
    unfold oldest_step. destruct (time_before now (af_locked kv.2)) eqn:El; [done|]. case_match; [|done].
    right. exists kv.2. split; [apply Hl; by left|done]. }
  specialize (H (range t) ([], time_zero)). fold oldest in H. destruct H as [H|(v & Hv & Hl)].
  - intros [c v] Hin. by apply elem_of_range in Hin.
  - by left.
  - rewrite H in E. by vm_compute in E.
  - by exists oldest.1, v.
Qed.

Lemma locked_pruned now t c v : t !! c = Some v → time_before now (af_locked v) = true → pruneAuthFailuresLocked now t !! c = Some v.
Proof. intros Hv Hl. apply prune_lookup. split; [done|]. intros [H _]. congruence. Qed.

(** What other clients do, at whatever time before its end, does not touch a lock. *)
Lemma lock_kept c v t s : t !! c = Some v → in_time (λ now, time_before now (af_locked v) = true) s →
  (client_of s ≠ c ∨ ∃ now, s = Look c now) → run_section t s !! c = Some v.
Proof.
  intros Hv Ht Hs. destruct s as [c' now|c' now|c']; cbn [run_section in_time client_of] in *.
  - unfold authLocked. destruct (t !! c') as [v'|] eqn:E'; [|done]. destruct (time_before now (af_locked v')) eqn:El; [done|].
    case_match; [|done]. cbn. apply lookup_delete_Some. split; [|done]. intros ->. congruence.
  - destruct Hs as [Hs|[? [=]]]. unfold recordAuthFailure. pose proof (locked_pruned now t c v Hv Ht) as Hp.
    set (t0 := pruneAuthFailuresLocked now t) in *.
    assert (∀ x t1, t1 !! c = Some v → <[c' := x]> t1 !! c = Some v) as Hins by (intros; by rewrite lookup_insert_ne).
    destruct (t0 !! c') as [v'|] eqn:E'; [case_match; by apply Hins|]. case_match; [|by apply Hins].
    destruct (evictOldestUnlockedAuthFailureLocked now t0) as [t1|] eqn:Ee; [|done]. apply Hins.
    apply evicted_entry in Ee as (c1 & v1 & H1 & Hl & ->). apply lookup_delete_Some. split; [|done]. intros ->. congruence.
  - destruct Hs as [Hs|[? [=]]]. apply lookup_delete_Some. by split.
Qed.

Lemma locks_kept c v t l : t !! c = Some v → Forall (in_time (λ now, time_before now (af_locked v) = true)) l →
  Forall (λ s, client_of s ≠ c ∨ ∃ now, s = Look c now) l → foldl run_section t l !! c = Some v.
Proof.
  revert t. induction l as [|s l IH]; intros t Hv Ht Hs; [done|]. decompose_Forall_hyps. apply IH; [|done|done]. by apply lock_kept.
Qed.

Lemma auth_locked client now h t v : t !! client = Some v → time_before now (af_locked v) = true →
  auth client now h t = (TooMany (retry_after (time_sub (af_locked v) now)), t).
Proof. intros Hv Hl. unfold auth, authLocked. by rewrite Hv, Hl. Qed.

(** ** Failures add up *)

Lemma in_window now t1 : t1 <= now < t1 + minute → time_sub now t1 < minute.
Proof. unfold time_sub, min_int64, max_int64, minute, second. intros H. repeat case_match; lia. Qed.

Lemma prune_window now t1 c v t : t !! c = Some v → af_window v = t1 → t1 <= now < t1 + minute → pruneAuthFailuresLocked now t !! c = Some v.
Proof. intros Hv Hw Hn. apply prune_lookup. split; [done|]. apply in_window in Hn. rewrite Hw. lia. Qed.

Lemma prune_dom now t : dom (pruneAuthFailuresLocked now t) ⊆ dom t.
Proof. apply subseteq_dom, map_filter_subseteq. Qed.

(** No more clients than the table holds. *)
Definition few (S : gset str) (t : table) : Prop := dom t ⊆ S ∧ Z.of_nat (size S) <= maxTrackedAuthClients.

Lemma few_room S now c t : few S t → c ∈ S → pruneAuthFailuresLocked now t !! c = None →
  (maxTrackedAuthClients <=? Z.of_nat (size (pruneAuthFailuresLocked now t))) = false.
Proof.
  intros [Hd Hs] Hc Hn. set (t0 := pruneAuthFailuresLocked now t) in *. apply Z.leb_gt.
  assert (size ({[c]} ∪ dom t0) <= size S)%nat as H.
  { apply subseteq_size. pose proof (prune_dom now t). set_solver. }
  rewrite size_union, size_singleton, size_dom in H by (apply not_elem_of_dom in Hn; set_solver). lia.
Qed.

Lemma few_step S t s : few S t → client_of s ∈ S → few S (run_section t s).
Proof.
  intros [Hd Hs] Hc. split; [|done]. destruct s as [c now|c now|c]; cbn [run_section client_of] in *.
  - unfold authLocked. destruct (t !! c) as [v|]; [|done]. repeat case_match; cbn; [done| |done]. rewrite dom_delete. set_solver.
  - assert (∀ v t1, dom t1 ⊆ S → dom (<[c:=v]> t1 : table) ⊆ S) as Hins by (intros; rewrite dom_insert; set_solver).
    unfold recordAuthFailure. pose proof (prune_dom now t). assert (dom (pruneAuthFailuresLocked now t) ⊆ S) as H0 by set_solver.
    set (t0 := pruneAuthFailuresLocked now t) in *. destruct (t0 !! c) as [v|]; [case_match; by apply Hins|]. case_match; [|by apply Hins].
    destruct (evictOldestUnlockedAuthFailureLocked now t0) as [t1|] eqn:Ee; [|done]. apply Hins.
    apply evicted_entry in Ee as (c1 & v1 & _ & _ & ->). rewrite dom_delete. set_solver.
  - unfold clearAuthFailures. rewrite dom_delete. set_solver.
Qed.

(** A section within the minute of an entry: the failures of its client count, and
    nothing else touches it. *)
Definition counted_by (c : str) (v : authFailure) (s : section) : authFailure :=
  match s with Failed c' now => if c' =?s c then counted now v else v | _ => v end.

Lemma count_step S t1 c v t s : few S t → client_of s ∈ S → t !! c = Some v → af_window v = t1 →
  in_time (λ now, t1 <= now < t1 + minute) s → s ≠ Cleared c → run_section t s !! c = Some (counted_by c v s).
Proof.
  intros Hf Hc Hv Hw Ht Hs. destruct s as [c' now|c' now|c']; cbn [run_section in_time client_of counted_by] in *.
  - unfold authLocked. destruct (t !! c') as [v'|] eqn:E'; [|done]. case_match; [done|]. case_match; [|done]. cbn.
    apply lookup_delete_Some. split; [|done]. intros ->. rewrite Hv in E'. injection E' as <-. boolify. apply in_window in Ht. rewrite Hw in *. lia.
  - pose proof (prune_window now t1 c v t Hv Hw Ht) as Hp. unfold recordAuthFailure. destruct (c' =?s c) eqn:E.
    + apply eqs_true in E as ->. rewrite Hp, Hw. apply in_window in Ht. replace (minute <=? time_sub now t1) with false by lia. apply lookup_insert_eq.
    + assert (c' ≠ c) as Hne by (intros ->; rewrite (proj2 (eqs_true c c)) in E; done). set (t0 := pruneAuthFailuresLocked now t) in *.
      destruct (t0 !! c') as [v'|] eqn:E'; [case_match; by rewrite lookup_insert_ne|]. pose proof (few_room S now c' t Hf Hc E') as Hroom.
      fold t0 in Hroom. rewrite Hroom. by rewrite lookup_insert_ne.
  - apply lookup_delete_Some. split; [congruence|done].
Qed.

Lemma counted_window c v s : af_window (counted_by c v s) = af_window v.
Proof. destruct s; [done| |done]. cbn. by case_match. Qed.

Lemma counts S t1 c v t l : few S t → t !! c = Some v → af_window v = t1 →
  Forall (λ s, client_of s ∈ S ∧ in_time (λ now, t1 <= now < t1 + minute) s ∧ s ≠ Cleared c) l →
  foldl run_section t l !! c = Some (foldl (counted_by c) v l).
Proof.
  revert v t. induction l as [|s l IH]; intros v t Hf Hv Hw Hl; [done|]. inversion_clear Hl as [|? ? (Hc & Ht & Hs) Hl'].
  cbn [foldl]. apply IH; [by apply few_step|by eapply count_step|by rewrite counted_window|done].
Qed.

(** The times at which a client failed. *)
Definition failures_of (c : str) (l : list section) : list time :=
  omap (λ s, match s with Failed c' now => if c' =?s c then Some now else None | _ => None end) l.

Lemma counted_times c v l : foldl (counted_by c) v l = foldl (λ v now, counted now v) v (failures_of c l).
Proof. revert v. induction l as [|s l IH]; intros v; [done|]. cbn. destruct s; cbn; [apply IH| |apply IH]. case_match; cbn; apply IH. Qed.

Lemma counted_locked v ts now : 0 <= af_count v → failures <= af_count v + len ts + 1 <= max_int64 →
  af_locked (foldl (λ v now, counted now v) v (ts ++ [now])) = time_add now lockout.
Proof.
  revert v. induction ts as [|t ts IH]; intros v H0 Hn.
  - cbn. change (len []) with 0 in Hn. rewrite wrap64_id by (unfold int64_ok, min_int64; lia). by replace (failures <=? af_count v + 1) with true by lia.
  - cbn [foldl app]. rewrite len_cons in Hn. pose proof (len_nonneg ts). assert (af_count (counted t v) = af_count v + 1) as E.
    { unfold counted. cbn. apply wrap64_id. unfold int64_ok, min_int64, max_int64 in *. lia. }
    apply IH; lia.
Qed.

(** An entry that says nothing any more. *)
Definition outdated (v : authFailure) (now : time) : Prop := time_before now (af_locked v) = false ∧ minute <= time_sub now (af_window v).

Lemma size_step t s : Z.of_nat (size t) <= maxTrackedAuthClients → Z.of_nat (size (run_section t s)) <= maxTrackedAuthClients.
Proof.
  intros Ht. assert (∀ c t, (size (delete c t : table) <= size t)%nat) as Hdel.
  { intros c t0. rewrite <- !size_dom. apply subseteq_size, subseteq_dom, delete_subseteq. }
  destruct s as [c now|c now|c]; cbn [run_section].
  - unfold authLocked. specialize (Hdel c t). repeat case_match; cbn; lia.
  - unfold recordAuthFailure. pose proof (prune_size now t) as Hp. set (t0 := pruneAuthFailuresLocked now t) in *.
    assert (∀ v v0, t0 !! c = Some v0 → size (<[c:=v]> t0) = size t0) as Hin by (intros; rewrite map_size_insert; by simplify_option_eq).
    destruct (t0 !! c) as [v|] eqn:E; [case_match; erewrite Hin by done; lia|].
    assert (∀ v t1, (size (<[c:=v]> t1 : table) <= size t1 + 1)%nat) as Hup.
    { intros v t1. rewrite map_size_insert. destruct (t1 !! c); unfold id; lia. }
    case_match; boolify; [|specialize (Hup (counted now (mkFailure 0 now time_zero)) t0); lia].
    destruct (evictOldestUnlockedAuthFailureLocked now t0) as [t1|] eqn:Ee; [|lia]. apply evicted_entry in Ee as (c1 & v1 & H1 & _ & ->).
    specialize (Hup (counted now (mkFailure 0 now time_zero)) (delete c1 t0)). rewrite map_size_delete_Some in Hup by eauto.
    assert (size t0 ≠ 0%nat) by (intros H0%map_size_empty_inv; by rewrite H0 in H1). lia.
  - unfold clearAuthFailures. specialize (Hdel c t). lia.
Qed.

(** However the sections of requests from any number of clients come, no more than
    4096 clients are remembered. *)
Theorem failures_table_bounded l : Z.of_nat (size (foldl run_section ∅ l)) <= maxTrackedAuthClients.
Proof.
  assert (∀ t, Z.of_nat (size t) <= maxTrackedAuthClients → Z.of_nat (size (foldl run_section t l)) <= maxTrackedAuthClients) as H.
  { induction l as [|s l IH]; intros t Ht; [done|]. by apply IH, size_step. }
  apply H. unfold maxTrackedAuthClients. rewrite map_size_empty. lia.
Qed.

(** C8: Guessing the token is limited.  A failure of a client without a record, or
    with an outdated one, opens a window of one minute.  When the client has
    failed in it as often as the configuration allows, or more often, every
    request of the client is refused until the lockout has passed since the last
    of these failures, before its token is looked at, be it the right one.  The
    sections of other clients, and further requests of the client, come in between
    in any order: before the last failure within the window, and afterwards until
    the lockout is over.  Conditions: no request of the client that was let pass
    before the lock clears the record by showing the right token, or fails only
    after the others (one that fails in the window is counted with them); and the
    clients that fail are no more than the 4096 that the table holds. *)
Theorem guesses_are_limited (known : gset str) client t l1 l2 t1 now h : 0 < failures → (∀ v, t !! client = Some v → outdated v t1) → few known t →
  client ∈ known → Forall (λ s, client_of s ∈ known ∧ in_time (λ now, t1 <= now < t1 + minute) s ∧ s ≠ Cleared client) l1 →
  failures <= 1 + len (failures_of client l1) <= max_int64 →
  let until := default t1 (last (failures_of client l1)) + lockout in
  Forall (in_time (λ now, now < until)) l2 → Forall (λ s, client_of s ≠ client ∨ ∃ now, s = Look client now) l2 → now < until →
  let t' := foldl run_section t (Failed client t1 :: l1 ++ l2) in
  auth client now h t' = (TooMany (retry_after (time_sub until now)), t').
Proof.
  intros Hf Hn Hfew Hk Hl1 Hlen until Hl2 Ho Hnow t'. unfold t'. cbn [foldl]. rewrite foldl_app.
  assert (run_section t (Failed client t1) !! client = Some (counted t1 (mkFailure 0 t1 time_zero))) as H0.
  { cbn [run_section]. unfold recordAuthFailure. assert (pruneAuthFailuresLocked t1 t !! client = None) as Hp.
    { apply eq_None_not_Some. intros [v Hv]. apply prune_lookup in Hv as [Hv Hout]. by apply Hout, Hn. }
    rewrite Hp, (few_room known t1 client t Hfew Hk Hp). apply lookup_insert_eq. }
  pose proof (few_step known t (Failed client t1) Hfew Hk) as Hfew1.
  pose proof (counts known t1 client _ _ l1 Hfew1 H0 eq_refl Hl1) as H1. set (v := foldl (counted_by client) _ l1) in H1.
  assert (af_locked v = until) as Hv.
  { unfold v, until. rewrite counted_times. revert Hlen Hf. clear. set (v0 := mkFailure 0 t1 time_zero).
    intros Hlen Hf. change (foldl (λ v now, counted now v) (counted t1 v0) (failures_of client l1))
      with (foldl (λ v now, counted now v) v0 (t1 :: failures_of client l1)).
    destruct (failures_of client l1) as [|x ts _] using rev_ind; [apply (counted_locked v0 []); [done|]|].
    - change (len []) with 0 in *. cbn [af_count v0]. lia.
    - rewrite last_snoc. change (t1 :: ts ++ [x]) with ((t1 :: ts) ++ [x]). rewrite len_app in Hlen. change (len [x]) with 1 in Hlen.
      apply counted_locked; [done|]. cbn [af_count v0]. rewrite len_cons. lia. }
  assert (foldl run_section (foldl run_section (run_section t (Failed client t1)) l1) l2 !! client = Some v) as H2.
  { apply locks_kept; [done| |done]. eapply Forall_impl; [exact Hl2|]. intros s. destruct s; cbn; unfold time_before; rewrite ?Hv; lia. }
  rewrite (auth_locked client now h _ v H2) by (unfold time_before; rewrite Hv; lia). by rewrite Hv.
Qed.

End lockout.
End Lockout.

(** ** What an accepted configuration lets in *)

Module AuthFacts.
Import SecConfig SecFacts Bearer Lockout.

Section facts.
Context {U : Unicode} {R : Resolve} {L : WafLib} {SH : Sha256} {MR : MapRange}.

(** The middleware as a configuration sets it up. *)
Definition auth_of (a : AdminConfig) : str → time → header → table → admission * table := auth (a_token a) (a_failures a) (a_lockout a).

(** The request shows the token, or a word with the same digest. *)
Definition shows (token : str) (h : header) : Prop := ∃ value scheme word,
  header_values h "Authorization" = [value] ∧ fields value = [scheme; word] ∧ equal_fold scheme "Bearer" = true ∧ sha256 word = sha256 token.

Lemma accepted_token c c' : accepted c c' → validate_token (a_token (admin c')) = [].
Proof.
  unfold accepted, Validate. destruct (validate_server _) as [e1 s]. destruct (validate_admin _ _) as [e2 a] eqn:Ea.
  destruct (validateCustomRules _) as [e3 rules]. destruct (validatePolicy _) as [e4 d]. destruct (validate_route_policies _ _ _) as [e5 policies].
  intros H. apply pair_equal_spec in H as [H <-]. cbn [admin]. apply app_eq_nil in H as [H _].
  assert (a_token a = a_token (normalize_admin (admin c))) as -> by
    (revert Ea; unfold validate_admin; destruct (negb _); [by intros [= _ <-]|]; destruct (validate_connectivity _) as [e con]; by intros [= _ <-]).
  exact H.
Qed.

Lemma accepted_open c c' : accepted c c' → a_enabled (admin c') = true → a_token (admin c') = [] →
  ∃ host port, SplitHostPort (a_listen (admin c')) = Some (host, port) ∧ isLoopback host = true.
Proof.
  unfold accepted, Validate. destruct (validate_server _) as [e1 s]. destruct (validate_admin _ _) as [e2 a] eqn:Ea.
  destruct (validateCustomRules _) as [e3 rules]. destruct (validatePolicy _) as [e4 d]. destruct (validate_route_policies _ _ _) as [e5 policies].
  intros H. apply pair_equal_spec in H as [H <-]. cbn [admin]. do 4 apply app_eq_nil in H as [_ H].
  apply app_eq_nil in H as [He _].
  revert Ea. unfold validate_admin. destruct (a_enabled (normalize_admin (admin c))) eqn:Een; cbn [negb]; [|intros [= _ <-]; by rewrite Een].
  destruct (validate_connectivity _) as [e con]. intros H'. apply pair_equal_spec in H' as [<- <-]. cbv zeta in He.
  apply app_eq_nil in He as [He _]. apply app_eq_nil in He as [_ He]. apply app_eq_nil in He as [_ He]. apply app_eq_nil in He as [He _].
  cbn [with_connectivity a_enabled a_token a_listen]. intros _ Ht. rewrite Ht in He.
  apply Facts.check_nil in He. replace (trim_space [] =?s []) with true in He by (by vm_compute). cbn [andb] in He. apply negb_false_iff in He.
  destruct (SplitHostPort (a_listen (normalize_admin (admin c)))) as [[host port]|]; [by exists host, port|].
  exfalso. revert He. unfold isLoopback. by vm_compute.
Qed.

(** C13: With an admin section that validation has accepted, exactly the requests that
    show its token get in, unless the client is locked out; what is shown is
    compared by SHA-256, so a word with the digest of the token would do as well.
    Validation accepts no token that a client could not show: the usual header
    gets in.  When the section has no token everyone gets in, but then the API
    listens on a loopback address.  Whoever gets in has no failures left. *)
Theorem only_the_token_opens c c' client now h t : accepted c c' → a_enabled (admin c') = true →
  let token := a_token (admin c') in
  let '(a, t') := auth_of (admin c') client now h t in
  (a = Entered ↔ (authLocked client now t).1 = None ∧ (token = [] ∨ shows token h))
  ∧ (token ≠ [] → header_values h "Authorization" = [credential token] → shows token h)
  ∧ (token = [] → ∃ host port, SplitHostPort (a_listen (admin c')) = Some (host, port) ∧ isLoopback host = true)
  ∧ (a = Entered → t' = delete client t).
Proof.
  intros Hc Hen. cbv zeta. pose proof (accepted_token c c' Hc) as Hv. pose proof (accepted_open c c' Hc Hen) as Hopen.
  set (token := a_token (admin c')) in *.
  assert (token ≠ [] → header_values h "Authorization" = [credential token] → shows token h) as Hcred.
  { intros Hne Hh. exists (credential token), (lit "Bearer"), token. split; [done|]. split; [|split; [by vm_compute|done]]. apply credential_accepted; [done|].
    unfold validate_token in Hv. destruct (token =?s []) eqn:E; [by apply eqs_true in E|done]. }
  assert (negb (token =?s []) && negb (validBearerAuthorization h token) = false ↔ token = [] ∨ shows token h) as Hb.
  { rewrite andb_false_iff, !negb_false_iff, eqs_true, bearer_spec. done. }
  assert ((authLocked client now t).1 = None → delete client (authLocked client now t).2 = delete client t) as Hdel.
  { unfold authLocked. destruct (t !! client) as [v|]; [|done]. repeat case_match; cbn; [done| |done]. intros _. apply delete_delete_eq. }
  unfold auth_of, auth, judged. fold token.
  destruct (authLocked client now t) as [[retry|] t0]; cbn [fst snd] in *; [by split_and!; [split; [|intros [? _]]| | |]|].
  destruct (negb (token =?s []) && negb (validBearerAuthorization h token)) eqn:Eb.
  - split_and!; [split; [done|]; intros [_ H]; apply Hb in H; congruence|done|done|done].
  - split_and!; [split; [|done]; intros _; split; [done|by apply Hb]|done|done|]. intros _. by apply Hdel.
Qed.

End facts.

(** ** Samples *)

#[local] Instance s_unicode : Unicode := unicode_ascii.
#[local] Instance s_sha : Sha256 := λ s, s.
#[local] Instance s_range : MapRange := range_listed.

Definition known_clients : gset str := {[ lit "192.0.2.1"; lit "192.0.2.2" ]}.
Definition guess (token : string) : header := {[ lit "Authorization" := [credential token] ]}.

(** Five failures are allowed, and cost a minute and a half; the third one is
    between the sections of another client.  The client has an outdated record. *)
Definition five (now : time) : list section :=
  [Failed "192.0.2.1" (now + 1); Look "192.0.2.2" (now + 2); Failed "192.0.2.1" (now + 2); Failed "192.0.2.2" (now + 3);
   Failed "192.0.2.1" (now + 4); Failed "192.0.2.1" (now + 5); Failed "192.0.2.1" (now + 6)].
Definition old_record : table := {[ lit "192.0.2.1" := mkFailure 4 (-60 * second) 0 ]}.

Lemma guesses_are_limited_witness :
  auth "secret" 5 (90 * second) "192.0.2.1" (80 * second) (guess "secret")
    (foldl (run_section 5 (90 * second)) old_record (Failed "192.0.2.1" second :: five second ++ [Look "192.0.2.1" (70 * second); Cleared "192.0.2.2"]))
  = (TooMany 11, foldl (run_section 5 (90 * second)) old_record
      (Failed "192.0.2.1" second :: five second ++ [Look "192.0.2.1" (70 * second); Cleared "192.0.2.2"])).
Proof.
  rewrite (guesses_are_limited "secret" 5 (90 * second) known_clients "192.0.2.1" old_record (five second) [Look "192.0.2.1" (70 * second); Cleared "192.0.2.2"] second
    (80 * second) (guess "secret")); [reflexivity|reflexivity| | |reflexivity| |split; vm_compute; congruence| | |reflexivity].
  - intros v Hv. vm_compute in Hv. injection Hv as <-. split; [reflexivity|vm_compute; discriminate].
  - split; [apply (bool_decide_eq_true_1 _); vm_compute; reflexivity|vm_compute; discriminate].
  - repeat (apply Forall_cons; split; [split; [apply (bool_decide_eq_true_1 _); vm_compute; reflexivity|]; split; [split; vm_compute; congruence|discriminate]|]).
    apply Forall_nil. exact I.
  - repeat (apply Forall_cons; split; [first [exact I|vm_compute; reflexivity]|]). apply Forall_nil. exact I.
  - apply Forall_cons; split; [right; eexists; reflexivity|]. apply Forall_cons; split; [left; discriminate|]. apply Forall_nil. exact I.
Defined.

(** The sample configuration with a token. *)
Definition guarded : Config :=
  let c := SecPersistFacts.sample_config in let a := admin c in
  mkConfig (server c)
    (mkAdminConfig (a_enabled a) (a_listen a) " s3cret " (a_log a) (a_connectivity a) (a_history a) (a_poll a) (a_max_body a) (a_failures a) (a_lockout a))
    (edgeproxy c) (waf c) (default_policy c) (route_policies c).
Definition guarded_valid : Config := (@Validate unicode_ascii Facts.sample_resolve SecPersistFacts.sample_lib guarded).2.

Lemma guarded_accepted : @accepted unicode_ascii Facts.sample_resolve SecPersistFacts.sample_lib guarded guarded_valid ∧ a_token (admin guarded_valid) = lit "s3cret".
Proof. split; vm_compute; reflexivity. Qed.

Lemma only_the_token_opens_witness :
  (auth_of (admin guarded_valid) "192.0.2.1" second (guess "s3cret") ∅).1 = Entered
  ∧ (auth_of (admin guarded_valid) "192.0.2.1" second (guess "S3cret") ∅).1 ≠ Entered.
Proof.
  destruct guarded_accepted as [Ha Ht]. assert (a_enabled (admin guarded_valid) = true) as Hen by (vm_compute; reflexivity).
  pose proof (@only_the_token_opens unicode_ascii Facts.sample_resolve SecPersistFacts.sample_lib s_sha s_range guarded guarded_valid "192.0.2.1" second
    (guess "s3cret") ∅ Ha Hen) as H1.
  pose proof (@only_the_token_opens unicode_ascii Facts.sample_resolve SecPersistFacts.sample_lib s_sha s_range guarded guarded_valid "192.0.2.1" second
    (guess "S3cret") ∅ Ha Hen) as H2.
  cbv zeta in H1, H2. rewrite Ht in H1, H2.
  destruct (auth_of (admin guarded_valid) "192.0.2.1" second (guess "s3cret") ∅) as [a1 t1].
  destruct (auth_of (admin guarded_valid) "192.0.2.1" second (guess "S3cret") ∅) as [a2 t2]. destruct H1 as (H1 & Hs & _), H2 as (H2 & _ & _). split.
  - apply H1. split; [reflexivity|]. right. apply Hs; [discriminate|vm_compute; reflexivity].
  - intros E. apply H2 in E as [_ [E|(value & scheme & word & Hv & Hf & _ & Hw)]]; [discriminate E|].
    injection Hv as <-. vm_compute in Hf. injection Hf as _ <-. discriminate Hw.
Defined.

End AuthFacts.
