(* ===== verification/WafFacts.v ===== *)
(** * What the web application firewall guarantees (Waf.v)

    An inspection reports exactly the enabled rules that match a sample, once
    each, with the saturated sum of their scores; it gives the next handler the
    request it was given; its structured samples are bounded; an exclusion covers
    decoded paths below the prefix only; rule identifiers are unique. *)

From stdpp Require Import sorting.
From S2P Require Import Prelude GoStr GoPath GoHttp GoCodec GoText GoFloat RateLimit SecPolicy Waf.

Module WafFacts.
Import Waf.

Section facts.
Context {U : Unicode} {SH : Sha256} {L : WafLib}.

(** ** The body is given back *)

Lemma readAndRestore_spec b max : 0 <= max < max_int64 →
  match readAndRestore b max with
  | (inr (seen, truncated), b') => b' = b ∧ seen = take (Z.to_nat max) (body_data b)
                                   ∧ (truncated = true ↔ max < len (body_data b))
  | (inl e, _) => body_end b = Some e ∧ len (body_data b) <= max
  end.
Proof.
  intros Hm. unfold readAndRestore. rewrite wrap64_id by (unfold int64_ok, min_int64, max_int64 in *; lia).
  unfold limit_reader, read_all, after_limit. destruct b as [data fin]. cbn [body_data body_end].
  destruct (Z.leb_spec (max + 1) (len data)) as [Hl|Hl]; cbn [body_data body_end].
  - assert (len (take (Z.to_nat (max + 1)) data) = max + 1) as Ht by (unfold len in *; rewrite length_take; lia).
    rewrite Ht. destruct (Z.ltb_spec max (max + 1)); [|lia]. unfold multi_reader. cbn [body_data body_end].
    rewrite take_drop, take_take, Nat.min_l by lia. split_and!; [done|done|]. split; [lia|done].
  - destruct fin as [e|]; [split; [done|lia]|]. destruct (Z.ltb_spec max (len data)); [lia|].
    split_and!; [done| |split; [done|lia]]. rewrite take_ge; [done|]. unfold len in *. lia.
Qed.

(** inspection is transparent: unless the body's reader itself failed, the request leaves [Inspect]
    as it came in, with every byte of its body in place and the same ending, also when only a prefix
    was inspected; and an error is only reported when the reader failed within the inspected part. *)
Theorem Inspect_transparent i r policy : 0 <= max_inspection_body_bytes policy < max_int64 →
  match Inspect i r policy with
  | (inr res, r') => r' = r
      ∧ (r_body_truncated res = true ↔
           r_body_inspected res = true ∧ ∃ b, in_body r = Some b ∧ max_inspection_body_bytes policy < len (body_data b))
  | (inl e, _) => ∃ b, in_body r = Some b ∧ body_end b = Some e ∧ len (body_data b) <= max_inspection_body_bytes policy
  end.
Proof.
  intros Hm. unfold Inspect. destruct (existsb _ _); [split; [done|split; [done|by intros [? _]]]|].
  destruct (if inspects_body r policy then in_body r else None) as [b|] eqn:Eb.
  - assert (in_body r = Some b) as Hb by (by destruct (inspects_body r policy)).
    pose proof (readAndRestore_spec b _ Hm) as Hs. destruct (readAndRestore b _) as [[e|[seen tr]] b'].
    + exists b. tauto.
    + destruct Hs as (-> & _ & Htr). split; [destruct r; unfold with_body; simpl in *; by rewrite Hb|].
      unfold finish_scan. destruct (scan _ _ _ _ _ _) as [[score ms] lim]. cbn [r_body_truncated r_body_inspected].
      rewrite Htr, Hb. split; [intros ?; split; [done|by exists b]|by intros (_ & ? & [= ->] & ?)].
  - split; [done|]. unfold finish_scan. destruct (scan _ _ _ _ _ _) as [[score ms] lim]. split; [done|].
    cbn [r_body_inspected]. by intros [? _].
Qed.

(** ** Rules and hits *)

(** [r] matches a sample of one of its targets. *)
Definition matches_sample (targets : str → list sample) (r : Rule) : Prop :=
  ∃ t s, t ∈ Targets r ∧ s ∈ targets t ∧ value s ≠ [] ∧ pattern r (value s) = true.

Lemma rule_hit_spec targets r ts :
  match rule_hit targets r ts with
  | Some (t, s) => t ∈ ts ∧ s ∈ targets t ∧ value s ≠ [] ∧ pattern r (value s) = true
  | None => ∀ t s, t ∈ ts → s ∈ targets t → value s ≠ [] → pattern r (value s) = false
  end.
Proof.
  induction ts as [|t ts IH]; [intros t s Ht; by apply not_elem_of_nil in Ht|]. cbn [rule_hit].
  destruct (List.find _ (targets t)) as [s|] eqn:E.
  - apply List.find_some in E as [Hin Hs]. boolify. apply list_elem_of_In in Hin. split_and!; [by left|done..].
  - pose proof (List.find_none _ _ E) as Hn. destruct (rule_hit targets r ts) as [[t' s]|].
    + destruct IH as (? & ? & ? & ?). split_and!; [by right|done..].
    + intros t' s [->|Ht]%elem_of_cons Hs Hv; [|by apply (IH t' s)].
      apply list_elem_of_In, Hn in Hs. destruct (value s =?s []) eqn:Ev; [by boolify|]. done.
Qed.

(** The match an enabled rule contributes. *)
Definition hit (targets : str → list sample) (disabled : gset str) (r : Rule) : option Match :=
  if bool_decide (ID r ∈ disabled) then None
  else '(t, s) ← rule_hit targets r (Targets r); Some (match_of r t s).

Lemma hit_rule targets disabled r m : hit targets disabled r = Some m → m_rule m = ID r ∧ m_score m = Score r.
Proof. unfold hit. case_bool_decide; [done|]. destruct (rule_hit _ _ _) as [[t s]|]; [|done]. by intros [= <-]. Qed.

Lemma hit_is_Some targets disabled r :
  is_Some (hit targets disabled r) ↔ (ID r ∉ disabled) ∧ matches_sample targets r.
Proof.
  unfold hit, matches_sample. pose proof (rule_hit_spec targets r (Targets r)) as Hs.
  case_bool_decide as Hd; [split; [by intros [? ?]|tauto]|].
  destruct (rule_hit _ _ _) as [[t s]|]; simpl.
  - split; [|done]. intros _. split; [done|]. exists t, s. tauto.
  - split; [by intros [? ?]|]. intros (_ & t & s & Ht & Hin & Hv & Hp). by rewrite (Hs t s Ht Hin Hv) in Hp.
Qed.

(** The saturated score of a list of matches. *)
Definition add_scores (score : Z) (ms : list Match) : Z := foldl (λ s m, saturatingAddScore s (m_score m)) score ms.

Lemma saturating_min cur inc : 0 <= cur <= max_int64 → 0 < inc →
  saturatingAddScore cur inc = Z.min max_int64 (cur + inc).
Proof. intros Hc Hi. unfold saturatingAddScore. destruct (Z.leb_spec inc 0); [lia|]. destruct (Z.ltb_spec (max_int64 - inc) cur); lia. Qed.

Lemma add_scores_sum ms score : 0 <= score <= max_int64 → (∀ m, m ∈ ms → 0 < m_score m) →
  add_scores score ms = Z.min max_int64 (score + zsum m_score ms).
Proof.
  revert score. induction ms as [|m ms IH]; intros score Hs Hm; [simpl; lia|].
  pose proof (Hm m ltac:(by left)). pose proof (zsum_nonneg m_score ms ltac:(intros x Hx; pose proof (Hm x ltac:(by right)); lia)).
  cbn [add_scores foldl]. fold (add_scores (saturatingAddScore score (m_score m)) ms).
  rewrite saturating_min, IH; [rewrite zsum_cons; lia|lia|intros x Hx; apply Hm; by right|done|done].
Qed.

Lemma scan_cons targets disabled max r rs score ms :
  scan targets disabled max (r :: rs) score ms
  = match hit targets disabled r with
    | None => scan targets disabled max rs score ms
    | Some m => if max <=? len (ms ++ [m]) then (saturatingAddScore score (m_score m), ms ++ [m], true)
                else scan targets disabled max rs (saturatingAddScore score (m_score m)) (ms ++ [m])
    end.
Proof. cbn [scan]. unfold hit. case_bool_decide; [done|]. by destruct (rule_hit _ _ _) as [[t s]|]. Qed.

Lemma scan_spec targets disabled max rs score ms : len ms < max →
  let new := take (Z.to_nat (max - len ms)) (omap (hit targets disabled) rs) in
  scan targets disabled max rs score ms
  = (add_scores score new, ms ++ new, bool_decide (max <= len ms + len (omap (hit targets disabled) rs))).
Proof.
  revert score ms. induction rs as [|r rs IH]; intros score ms Hl.
  { cbn [scan omap list_omap]. rewrite take_nil, app_nil_r, len_nil. rewrite bool_decide_eq_false_2 by lia. done. }
  rewrite scan_cons. change (omap (hit targets disabled) (r :: rs)) with
    (match hit targets disabled r with Some m => m :: omap (hit targets disabled) rs | None => omap (hit targets disabled) rs end).
  destruct (hit targets disabled r) as [m|]; [|by apply IH].
  set (hs := omap _ rs) in *. destruct (Z.to_nat (max - len ms)) as [|k] eqn:Ek; [lia|]. cbn [take].
  rewrite len_app, len_cons, len_nil, (len_cons _ hs). destruct (Z.leb_spec max (len ms + (1 + 0))) as [Hm|Hm].
  - assert (k = 0%nat) as -> by lia. cbn [take]. rewrite bool_decide_eq_true_2; [done|]. pose proof (len_nonneg hs). lia.
  - rewrite IH by (rewrite len_app, len_cons, len_nil; lia). fold hs. rewrite len_app, len_cons, len_nil.
    replace (Z.to_nat (max - (len ms + (1 + 0)))) with k by lia. cbn [add_scores foldl]. f_equal; [f_equal|].
    + by rewrite <- app_assoc.
    + apply bool_decide_ext. lia.
Qed.

#[local] Instance match_le_total : Total match_le.
Proof.
  intros a b. unfold match_le, match_less. destruct (decide (m_rule a = m_rule b)) as [Hr|Hr].
  - rewrite Hr, eqs_refl. apply str_ltb_total.
  - rewrite !(proj2 (eqs_false _ _)) by congruence. apply str_ltb_total.
Qed.

(** ** Compilation of the rules *)

Definition rules_ok (rs : list Rule) : Prop := NoDup (ID <$> rs) ∧ ∀ r, r ∈ rs → 1 <= Score r <= MaxCustomRuleScore.

Definition spec_id (s : spec) : str := fst (fst (fst (fst (fst (fst s))))).
Definition spec_score (s : spec) : Z := snd (fst s).

Lemma builtin_fields l rs : mapM builtin_rule l = Some rs → ID <$> rs = spec_id <$> l ∧ Score <$> rs = spec_score <$> l.
Proof.
  revert rs. induction l as [|[[[[[[id name] cat] desc] pat] score] ts] l IH]; intros rs; [by intros [= <-]|].
  cbn [mapM builtin_rule]. destruct (regexp_compile pat); [|done]. cbn [mbind option_bind].
  destruct (mapM builtin_rule l) as [k|]; [|done]. intros [= <-]. destruct (IH k eq_refl) as [H1 H2].
  cbn. by rewrite H1, H2.
Qed.

Lemma BuiltinRules_ok rs : BuiltinRules = Some rs → rules_ok rs ∧ len rs = 32.
Proof.
  intros [H1 H2]%builtin_fields. split; [split|].
  - rewrite H1. apply (bool_decide_unpack _). vm_compute. exact I.
  - intros r Hr. apply (list_elem_of_fmap_2 Score) in Hr. rewrite H2 in Hr.
    assert (Forall (λ z, 1 <= z <= MaxCustomRuleScore) (spec_score <$> specs)) as Hall
      by (apply (bool_decide_unpack _); vm_compute; exact I).
    rewrite Forall_forall in Hall. by apply Hall.
  - apply (f_equal length) in H1. rewrite !length_fmap in H1. unfold len. by rewrite H1.
Qed.

Lemma custom_step_error l e : foldl custom_step (inl e) l = inl e.
Proof. by induction l. Qed.

Lemma custom_fold l out seen res : rules_ok out → seen ≡ list_to_set (ID <$> out) →
  foldl custom_step (inr (out, seen)) l = inr res →
  rules_ok (fst res) ∧ ∃ new, fst res = out ++ new ∧ ID <$> new = (λ c, to_upper (trim_space (cr_id c))) <$> l
    ∧ Score <$> new = cr_score <$> l.
Proof.
  revert out seen. induction l as [|c l IH]; intros out seen [Hnd Hsc] Hseen.
  { intros [= <-]. split; [done|]. exists []. by rewrite app_nil_r. }
  cbn [foldl custom_step]. case_bool_decide as Hid; [by rewrite custom_step_error|].
  destruct (_ || _) eqn:Esc; [by rewrite custom_step_error|].
  destruct (regexp_compile _) as [p|]; [|by rewrite custom_step_error]. boolify.
  set (r := mkRule _ _ _ _ _ _ _ _). intros [Hok (new & Hn & Hi & Hs)]%IH.
  - split; [done|]. exists (r :: new). rewrite Hn, <- app_assoc. cbn. by rewrite Hi, Hs.
  - split.
    + rewrite fmap_app. apply NoDup_app. split_and!; [done| |apply NoDup_singleton].
      intros x Hx Hr. apply list_elem_of_singleton in Hr as ->. apply Hid. by rewrite Hseen, elem_of_list_to_set.
    + intros x [Hx| ->%list_elem_of_singleton]%elem_of_app; [by apply Hsc|]. simpl. lia.
  - rewrite fmap_app, list_to_set_app, Hseen. simpl. clear. set_solver.
Qed.

(** the rules an inspector works with: when [CompileRules] succeeds, the built-in rules come first,
    followed by one rule per custom rule in the order of the configuration, all identifiers are
    distinct (so a custom rule can neither replace nor shadow a built-in one), and every score is
    between 1 and 1000. *)
Theorem CompileRules_sound custom rs : CompileRules custom = inr rs →
  rules_ok rs ∧ ∃ builtin new, BuiltinRules = Some builtin ∧ rs = builtin ++ new
    ∧ ID <$> new = (λ c, to_upper (trim_space (cr_id c))) <$> custom ∧ Score <$> new = cr_score <$> custom.
Proof.
  unfold CompileRules. destruct BuiltinRules as [out|] eqn:Eb; [|done].
  destruct (foldl _ _ _) as [e|res] eqn:Ef; [done|]. destruct (BuiltinRules_ok out Eb) as [Hok _].
  apply custom_fold in Ef as [H1 (new & Hn & Hi & Hs)]; [|done|done]. destruct res as [o seen]. intros [= <-].
  split; [done|]. exists out, new. by split_and!.
Qed.

Lemma NewInspector_ok custom max i : NewInspector custom max = inr i → rules_ok (rules i) ∧ 1 <= maxMatches i.
Proof.
  unfold NewInspector, CompileRules. destruct BuiltinRules as [out|] eqn:Eb; [|done].
  destruct (foldl _ _ _) as [e|res] eqn:Ef; [done|]. destruct (BuiltinRules_ok out Eb) as [Hok _].
  apply custom_fold in Ef as [H1 _]; [|done|done]. destruct res as [o seen]. intros [= <-]. split; [done|].
  simpl. destruct (Z.leb_spec max 0); lia.
Qed.

(** ** What an inspection reports *)

(** The part of the body that is inspected. *)
Definition inspected_body (r : Inbound) (policy : Policy) : option str :=
  if inspects_body r policy
  then (λ b, take (Z.to_nat (max_inspection_body_bytes policy)) (body_data b)) <$> in_body r else None.

(** An enabled rule that matches a sample. *)
Definition detects (r : Inbound) (policy : Policy) (rule : Rule) : Prop :=
  (ID rule ∉ disabled_set policy) ∧ matches_sample (request_targets r policy (inspected_body r policy)) rule.

Lemma Inspect_finish i r policy res r' : 0 <= max_inspection_body_bytes policy < max_int64 →
  Inspect i r policy = (inr res, r') → r_excluded res = false →
  ∃ truncated, res = finish_scan i r policy (inspected_body r policy) truncated.
Proof.
  intros Hm. unfold Inspect, inspected_body. destruct (existsb _ _); [by intros [= <- _]|].
  destruct (inspects_body r policy); [|intros [= <- _] _; by eexists].
  destruct (in_body r) as [b|]; [|intros [= <- _] _; by eexists].
  pose proof (readAndRestore_spec b _ Hm) as Hs. destruct (readAndRestore b _) as [[e|[seen tr]] b']; [done|].
  destruct Hs as (_ & -> & _). intros [= <- _] _. by exists tr.
Qed.

Lemma hits_NoDup targets disabled rs : NoDup (ID <$> rs) → NoDup (m_rule <$> omap (hit targets disabled) rs).
Proof.
  intros Hnd. apply (sublist_NoDup _ (ID <$> rs)); [done|]. clear Hnd. induction rs as [|r rs IH]; [done|].
  change (omap (hit targets disabled) (r :: rs)) with
    (match hit targets disabled r with Some m => m :: omap (hit targets disabled) rs | None => omap (hit targets disabled) rs end).
  destruct (hit targets disabled r) as [m|] eqn:E; cbn; [|by constructor].
  apply hit_rule in E as [-> _]. by constructor.
Qed.

(** C14: the verdict of an inspection is exact: every reported match is an enabled rule that matches a
    sample of one of its targets, each rule is reported at most once, unless the limit on matches is
    reached every such rule is reported, the limit is never exceeded, the matches are sorted, and the
    score is the sum of the scores of the reported rules, saturated at the largest [int]. *)
Theorem Inspect_exact custom max i r policy res r' : NewInspector custom max = inr i →
  0 <= max_inspection_body_bytes policy < max_int64 →
  Inspect i r policy = (inr res, r') → r_excluded res = false →
  Sorted match_le (r_matches res) ∧ NoDup (m_rule <$> r_matches res)
  ∧ (∀ m, m ∈ r_matches res → ∃ rule, rule ∈ rules i ∧ ID rule = m_rule m ∧ Score rule = m_score m ∧ detects r policy rule)
  ∧ (r_limit_reached res = false → ∀ rule, rule ∈ rules i → detects r policy rule → ID rule ∈ m_rule <$> r_matches res)
  ∧ len (r_matches res) <= maxMatches i ∧ (r_limit_reached res = true ↔ len (r_matches res) = maxMatches i)
  ∧ r_score res = Z.min max_int64 (zsum m_score (r_matches res)).
Proof.
  intros Hi Hm HI Hex. apply NewInspector_ok in Hi as [[Hnd Hsc] Hmax].
  destruct (Inspect_finish i r policy res r' Hm HI Hex) as [tr ->]. unfold finish_scan, detects.
  set (targets := request_targets _ _ _). set (dis := disabled_set policy).
  pose proof (scan_spec targets dis (maxMatches i) (rules i) 0 [] ltac:(rewrite len_nil; lia)) as Hscan.
  cbv zeta in Hscan. change (len []) with 0 in Hscan. rewrite Z.sub_0_r in Hscan. rewrite Hscan. cbn [app].
  set (hs := omap (hit targets dis) (rules i)). set (new := take (Z.to_nat (maxMatches i)) hs).
  cbn [r_matches r_score r_limit_reached]. unfold sortMatches.
  pose proof (merge_sort_Permutation match_le new) as Hp. set (ms := merge_sort match_le new) in *.
  assert (∀ m, m ∈ new → ∃ rule, rule ∈ rules i ∧ hit targets dis rule = Some m) as Hnew.
  { intros m (j & Hj & _)%elem_of_take. by apply list_elem_of_lookup_2, list_elem_of_omap in Hj. }
  assert (len new = Z.min (maxMatches i) (len hs)) as Hlen by (unfold new, len; rewrite length_take; lia).
  assert (len ms = len new) as Hlm by (unfold len; by rewrite Hp).
  split_and!.
  - apply Sorted_merge_sort. apply _.
  - rewrite Hp. unfold new. rewrite fmap_take. eapply sublist_NoDup; [apply (hits_NoDup targets dis), Hnd|apply sublist_take].
  - intros m Hin. rewrite Hp in Hin. destruct (Hnew m Hin) as (rule & Hr & Hh). exists rule.
    destruct (hit_rule _ _ _ _ Hh) as [-> ->]. split_and!; [done..| |]; by apply (hit_is_Some targets dis rule).
  - intros Hlim%bool_decide_eq_false rule Hr Hd. apply hit_is_Some in Hd as [m Hh]. rewrite Hp.
    unfold new. rewrite take_ge by (unfold len in *; lia). apply list_elem_of_fmap. exists m.
    split; [symmetry; by apply (hit_rule targets dis)|]. apply list_elem_of_omap. by exists rule.
  - lia.
  - rewrite bool_decide_eq_true. lia.
  - rewrite (zsum_Permutation _ _ _ Hp).
    apply (add_scores_sum new 0); [done|].
    intros m (rule & Hr & Hh)%Hnew. destruct (hit_rule _ _ _ _ Hh) as [_ ->]. apply Hsc in Hr. lia.
Qed.

(** ** Exclusions *)

(** an exclusion cannot be reached by encoding tricks: with an excluded prefix made of clean
    segments, a request is excluded from inspection exactly when the path obtained by up to three
    rounds of percent-decoding, with dot-segments resolved, starts with those segments. *)
Theorem exclusion_confined path prefix ps : Forall seg_ok ps → trim_space prefix = render ps →
  excludedPathMatches path prefix = true ↔ ps `prefix_of` request_segments (multiPathDecode path).
Proof.
  intros Hok Hp. rewrite <- prefix_segments_iff by done. unfold excludedPathMatches. rewrite Hp.
  assert ((render ps =?s []) = false) as -> by done. set (p := canonicalRequestPath _). unfold pathPrefixMatches.
  destruct (render ps =?s "/") eqn:E1; [done|]. cbn [orb]. destruct (p =?s render ps); [done|].
  assert (has_suffix (render ps) "/" = false) as ->; [|done].
  pose proof (form_trailing ps false Hok) as Hf. unfold canonical_form in Hf. cbn [andb] in Hf. rewrite app_nil_r in Hf.
  rewrite Hf. apply bool_decide_eq_false. intros ->. by vm_compute in E1.
Qed.

(** ** Bounds on the samples *)

Lemma append_bound out item out' : appendStructuredSample out item = Some out' → len out' <= maxStructuredSamples.
Proof.
  unfold appendStructuredSample. destruct (Z.leb_spec maxStructuredSamples (len out)); [done|]. intros [= <-].
  rewrite len_app, len_cons, len_nil. lia.
Qed.

Lemma value_samples_bound loc cap values out : len out <= maxStructuredSamples →
  len (fst (value_samples loc cap values out)) <= maxStructuredSamples.
Proof.
  revert values out. induction cap as [|cap IH]; intros [|v vs] out Hl; [done..|]. cbn [value_samples].
  destruct (appendStructuredSample _ _) as [out'|] eqn:E; [|done]. by eapply IH, append_bound.
Qed.

Lemma named_samples_bound nl vp cap m keys out : len out <= maxStructuredSamples →
  len (named_samples nl vp cap m keys out) <= maxStructuredSamples.
Proof.
  revert out. induction keys as [|k keys IH]; intros out Hl; [done|]. cbn [named_samples].
  destruct (appendStructuredSample _ _) as [out'|] eqn:E; [|done]. apply append_bound in E.
  pose proof (value_samples_bound (boundedMatchLocation (vp ++ k)) (cap (default [] (m !! k))) (default [] (m !! k)) out' E) as Hv.
  destruct (value_samples _ _ _ _) as [out'' []]; [by apply IH|done].
Qed.

Lemma flatten_bound fuel out path v : len out <= maxStructuredSamples → len (flattenJSON fuel out path v) <= maxStructuredSamples.
Proof.
  revert out path v. induction fuel as [|fuel IH]; intros out path v Hl; [done|]. cbn [flattenJSON].
  destruct (Z.leb_spec maxStructuredSamples (len out)); [done|]. destruct v as [fields|items|s|]; [| | |done].
  - set (l := merge_sort _ fields). clearbody l. clear H. revert out Hl. induction l as [|[k v] l IHf]; intros out Hl; [done|]. cbn [flatten_fields].
    destruct (appendStructuredSample _ _) as [out'|] eqn:E; [|done]. apply append_bound in E. case_goal; [by apply IH|].
    by apply IHf, IH.
  - generalize 128%nat. intros cap. revert cap out Hl H. induction items as [|v items IHi]; intros [|cap] out Hl _; [done..|].
    cbn [flatten_items]. case_goal; [by apply IH|]. boolify. apply IHi; [by apply IH|done].
  - destruct (appendStructuredSample _ _) as [out'|] eqn:E; [by eapply append_bound|done].
Qed.

Lemma location_bound s : (∀ x, len (sha256 x) = 32) → len (boundedMatchLocation s) <= maxMatchLocationBytes.
Proof.
  intros Hsha. unfold boundedMatchLocation. destruct (Z.leb_spec (len s) maxMatchLocationBytes); [done|].
  unfold fingerprint. rewrite len_app. change (len (lit "oversized-field:")) with 16.
  assert (∀ t, len (hex_encode t) = 2 * len t) as Hh.
  { induction t as [|c t IH]; [done|]. change (hex_encode (c :: t)) with (hex_char (code c / 16) :: hex_char (code c mod 16) :: hex_encode t).
    rewrite !len_cons. lia. }
  rewrite Hh. specialize (Hsha s). unfold len in *. rewrite length_take. unfold maxMatchLocationBytes. lia.
Qed.

(** the work of an inspection is bounded whatever a client sends: a query string and a body give at
    most 512 samples each, the path gives three, and each location that is recorded in a match has at
    most 256 bytes. *)
Theorem samples_bounded r policy body i max custom res r' : (∀ x, len (sha256 x) = 32) →
  NewInspector custom max = inr i → 0 <= max_inspection_body_bytes policy < max_int64 →
  Inspect i r policy = (inr res, r') →
  len (querySamples r) <= maxStructuredSamples
  ∧ len (bodySamples body (header_get (in_header r) "Content-Type")) <= maxStructuredSamples
  ∧ len (pathSamples r) = 3
  ∧ ∀ m, m ∈ r_matches res → len (m_location m) <= maxMatchLocationBytes.
Proof.
  intros Hsha Hi Hm HI. split_and!; [| |done|].
  - unfold querySamples. destruct (parse_query _); [by apply named_samples_bound|done].
  - unfold bodySamples. repeat case_goal; try done; [by apply flatten_bound|by apply named_samples_bound].
  - intros m Hin. destruct (r_excluded res) eqn:Ex.
    { revert HI. unfold Inspect. destruct (existsb _ _); [intros [= <- _]; by apply not_elem_of_nil in Hin|].
      assert (∀ b tr, r_excluded (finish_scan i r policy b tr) = false) as Hf
        by (intros b tr; unfold finish_scan; by destruct (scan _ _ _ _ _ _) as [[? ?] ?]).
      destruct (if inspects_body r policy then in_body r else None) as [b|]; [|intros [= <- _]; by rewrite Hf in Ex].
      destruct (readAndRestore b _) as [[e|[seen tr]] b']; [done|]. intros [= <- _]. by rewrite Hf in Ex. }
    destruct (Inspect_finish i r policy res r' Hm HI Ex) as [tr ->]. revert Hin. unfold finish_scan.
    apply NewInspector_ok in Hi as [_ Hmax].
    pose proof (scan_spec (request_targets r policy (inspected_body r policy)) (disabled_set policy) (maxMatches i) (rules i) 0 []
      ltac:(change (len []) with 0; lia)) as Hscan. cbv zeta in Hscan. rewrite Hscan. cbn [r_matches]. unfold sortMatches.
    rewrite merge_sort_Permutation. intros (j & Hj & _)%elem_of_take. apply list_elem_of_lookup_2, list_elem_of_omap in Hj as (rule & _ & Hh).
    unfold hit in Hh. case_bool_decide; [done|]. destruct (rule_hit _ _ _) as [[t s]|]; [|done]. injection Hh as <-.
    by apply location_bound.
Qed.

(** what the rules see is clean text: a normalised sample is valid UTF-8 without NUL bytes, however
    the client encoded it. *)
Theorem normalize_clean v : valid_utf8 (normalize v) = true ∧ chr 0 ∉ normalize v.
Proof.
  unfold normalize. set (w := filter _ _).
  assert (chr 0 ∉ w) as Hw by (unfold w; rewrite list_elem_of_filter; tauto).
  destruct (valid_utf8 w) eqn:E; [done|]. split; [apply rune_string_valid|]. apply scrub_no_byte; [|done].
  unfold rune_error. rewrite !not_elem_of_cons. split_and!; [done..|apply not_elem_of_nil].
Qed.
End facts.

(** ** A concrete inspection *)

(** Patterns are substrings, the other libraries are the simplest ones. *)
Definition sample_lib : WafLib := {|
  regexp_compile p := Some (λ s, contains s p);
  html_unescape s := s;
  parse_media_type s := (fst (fst (cut s ";")), true);
  media_params s := Z.of_nat (count_byte s ";");
  json_unmarshal _ := None;
  request_cookies _ := [] |}.
Definition sample_sha : Sha256 := λ _, replicate 32 "k"%char.

Definition sample_custom : list CustomRuleConfig :=
  [mkCustomRule " custom-1 " "Probe" "Custom" "test" 7 (lits ["Query"; "body"]) "evil";
   mkCustomRule "custom-2" "Other" "Custom" "test" 3 (lits ["body"]) "bad"].

Definition sample_policy : Policy :=
  mkPolicy true "block" 5 true 6 (lits ["text/plain"]) [] (lits ["/static"]) (lits ["custom-9"]) [] [] 4096 8192 100 8192
    true false true (Limiter.mkRateCfg false f_zero 0 f_zero 0 0 0 0) (BanManager.mkBanCfg false 0 0 0 0).

Definition sample_inbound (body : str) : Inbound :=
  mkInbound (mkRequest "POST" "shop.test" (mkURL [] [] [] "/a/../login" "q=%2565vil" false)
               (header_set ∅ "Content-Type" "text/plain; charset=utf-8") []) [] ∅ (Some (mkBody body None)) (len body).

Definition sample_inspector : Inspector :=
  match @NewInspector unicode_ascii sample_lib sample_custom 0 with inr i => i | inl _ => mkInspector [] 0 end.

Definition sample_body : Inbound := sample_inbound "a bad evil day".

Definition sample_result : Result :=
  let fp := hex_encode (replicate 8 "k"%char) in
  mkResult 10 [mkMatch "CUSTOM-1" "Probe" "custom" 7 "query" "url.query.decoded" fp;
               mkMatch "CUSTOM-2" "Other" "custom" 3 "body" "request.body.raw" fp] true true false false.

Lemma sample_new : @NewInspector unicode_ascii sample_lib sample_custom 0 = inr sample_inspector.
Proof. vm_compute. reflexivity. Qed.

Lemma sample_inspect : @Inspect unicode_ascii sample_sha sample_lib sample_inspector sample_body sample_policy = (inr sample_result, sample_body).
Proof. vm_compute. reflexivity. Qed.

Lemma sample_limit : 0 <= max_inspection_body_bytes sample_policy < max_int64.
Proof. vm_compute. done. Qed.

Lemma Inspect_transparent_witness :
  match @Inspect unicode_ascii sample_sha sample_lib sample_inspector sample_body sample_policy with
  | (inr res, r') => r' = sample_body
  | (inl e, _) => False
  end.
Proof.
  pose proof (@Inspect_transparent unicode_ascii sample_sha sample_lib sample_inspector sample_body sample_policy sample_limit) as H.
  rewrite sample_inspect in *. exact (proj1 H).
Defined.

Lemma sample_compile : @CompileRules unicode_ascii sample_lib sample_custom = inr (rules sample_inspector).
Proof. vm_compute. reflexivity. Qed.

Lemma CompileRules_sound_witness :
  rules_ok (rules sample_inspector) ∧ (ID <$> drop 32 (rules sample_inspector)) = lits ["CUSTOM-1"; "CUSTOM-2"].
Proof.
  split; [exact (proj1 (@CompileRules_sound unicode_ascii sample_lib sample_custom _ sample_compile))|].
  vm_compute. reflexivity.
Defined.

Lemma Inspect_exact_witness :
  Sorted match_le (r_matches sample_result) ∧ NoDup (m_rule <$> r_matches sample_result).
Proof.
  destruct (@Inspect_exact unicode_ascii sample_sha sample_lib sample_custom 0 sample_inspector sample_body
       sample_policy sample_result sample_body sample_new sample_limit sample_inspect eq_refl) as (H1 & H2 & _).
  split; [exact H1|exact H2].
Defined.

Lemma exclusion_confined_witness :
  excludedPathMatches "/static/%252e%252e/login" "/static" = false ∧ excludedPathMatches "/x/%2e%2e/static/a" "/static" = true.
Proof.
  split; [by vm_compute|].
  apply (exclusion_confined "/x/%2e%2e/static/a" "/static" (lits ["static"])); [|by vm_compute|].
  - apply Forall_singleton. apply (bool_decide_unpack (seg_ok "static")). by vm_compute.
  - exists (lits ["a"]). by vm_compute.
Defined.

Lemma samples_bounded_witness :
  len (@querySamples sample_sha sample_lib sample_body) <= maxStructuredSamples.
Proof.
  exact (proj1 (@samples_bounded unicode_ascii sample_sha sample_lib sample_body sample_policy []
    sample_inspector 0 sample_custom sample_result sample_body (λ _, eq_refl) sample_new sample_limit sample_inspect)).
Defined.
End WafFacts.
