(* ===== verification/GatewayFacts.v ===== *)
(** * What the security gateway guarantees (Gateway.v)

    A request reaches the next handler only when every check let it pass; every
    request ends in one of three ways, with the decision in the response; the
    next handler cannot forge the decision headers; admission is given back. *)

From S2P Require Import Prelude GoStr GoPath GoHttp GoCodec GoText NetIP GoFloat RateLimit Admission Router ClientIP SecPolicy Waf WafFacts Gateway.

Module GatewayFacts.
Import Waf Gateway.

(** ** Header fields *)

Lemma header_get_same h name v : header_values (header_set h name v) name = [v].
Proof. unfold header_values, header_set. by rewrite lookup_insert_eq. Qed.

Lemma header_values_other h name name' v : canonical_key name' ≠ canonical_key name →
  header_values (header_set h name' v) name = header_values h name.
Proof. intros H. unfold header_values, header_set. by rewrite lookup_insert_ne. Qed.

Ltac header_lookup := repeat (rewrite header_get_same || rewrite header_values_other by (vm_compute; discriminate)).

Lemma security_other b h name : canonical_key "X-Content-Type-Options" ≠ canonical_key name →
  canonical_key "Referrer-Policy" ≠ canonical_key name → canonical_key "X-Frame-Options" ≠ canonical_key name →
  canonical_key "Permissions-Policy" ≠ canonical_key name → header_values (security_headers b h) name = header_values h name.
Proof. intros. destruct b; [|done]. unfold security_headers. by rewrite !header_values_other. Qed.

(** The decision fields of a response. *)
Definition decides (h : header) (id action : str) (score : Z) : Prop :=
  header_values h "X-Request-ID" = [id] ∧ header_values h "X-Security-Action" = [action]
  ∧ header_values h "X-Security-Score" = [itoa score].

Lemma base_decides h id action score b : decides (setBaseHeaders h id action score b) id action score.
Proof.
  unfold decides, setBaseHeaders. rewrite !security_other by (vm_compute; discriminate). by split_and!; header_lookup.
Qed.

(** ** The response writer *)

Definition final (sh : Z * header) : Prop := ¬ (100 <= fst sh < 200 ∧ fst sh ≠ 101).
#[local] Instance final_dec sh : Decision (final sh).
Proof. unfold final. apply _. Defined.

(** [hijacked] says that a hijack set the status. *)
Record writer_inv (id action : str) (score : Z) (w : decisionWriter) : Prop := {
  wi_id : dw_id w = id;
  wi_score : dw_score w = score;
  wi_action : dw_action w = action ∨ dw_action w = lit "BLOCK";
  wi_sent : ∀ sh, sh ∈ dw_sent w → decides (snd sh) id action score ∨ decides (snd sh) id "BLOCK" score;
  wi_none : dw_status w = 0 → filter final (dw_sent w) = [];
  wi_final : filter final (dw_sent w) = [] ∨ ∃ h, filter final (dw_sent w) = [(dw_status w, h)];
}.

Lemma write_header_inv id action score status w : status ≠ 0 → writer_inv id action score w →
  writer_inv id action score (WriteHeader status w).
Proof.
  intros Hnz [H1 H2 H3 H4 H5 H6]. unfold WriteHeader. destruct (_ && _) eqn:Ei.
  - assert (¬ final (status, base_headers w (dw_header w))) as Hnf.
    { boolify. unfold final. simpl. intros Hf. apply Hf. lia. }
    split; cbn [dw_id dw_score dw_action dw_sent dw_status]; [done|done|done| | |].
    + intros sh [Hs| ->%list_elem_of_singleton]%elem_of_app; [by apply H4|]. cbn [snd]. unfold base_headers. rewrite H1, H2.
      destruct H3 as [->| ->]; [left|right]; apply base_decides.
    + intros Hs. rewrite filter_app, H5, filter_cons_False by done. done.
    + by rewrite filter_app, filter_cons_False, filter_nil, app_nil_r.
  - destruct (dw_status w =? 0) eqn:Es; cbn [negb]; [|done]. boolify.
    set (sa := if requestBodyLimitExceeded w then _ else _).
    assert (final (fst sa, setBaseHeaders (dw_header w) (dw_id w) (snd sa) (dw_score w) (dw_security w)) ∧ fst sa ≠ 0
      ∧ (snd sa = action ∨ snd sa = lit "BLOCK")) as (Hf & Hn & Ha).
    { unfold sa. destruct (requestBodyLimitExceeded w); cbn [fst snd]; [split_and!; [unfold final; simpl; lia|done|by right]|].
      split_and!; [|done|done]. unfold final. cbn [fst]. apply andb_false_iff in Ei as [Ei|Ei]; [apply andb_false_iff in Ei as [?|?]|]; boolify; lia. }
    destruct sa as [status' action'] eqn:Esa. cbn [fst snd] in *. rewrite Es in *.
    split; cbn [dw_id dw_score dw_action dw_sent dw_status]; [done|done|done| |done|].
    + intros sh [Hs| ->%list_elem_of_singleton]%elem_of_app; [by apply H4|]. cbn [snd]. rewrite H1, H2.
      destruct Ha as [->| ->]; [left|right]; apply base_decides.
    + right. eexists. rewrite filter_app, H5, filter_cons_True by done. done.
Qed.

Lemma ensure_inv id action score status w : status ≠ 0 → writer_inv id action score w →
  writer_inv id action score (ensure_header status w).
Proof. intros. unfold ensure_header. case_goal; [by apply write_header_inv|done]. Qed.

Lemma writer_op_inv id action score w o : (∀ z, o = OWriteHeader z → z ≠ 0) → writer_inv id action score w →
  writer_inv id action score (writer_op w o).
Proof.
  intros Ho Hw. destruct o as [h|z| | |f|ok|]; cbn [writer_op].
  - by destruct Hw; split.
  - by apply write_header_inv; [apply Ho|].
  - by apply ensure_inv.
  - by apply ensure_inv.
  - destruct f; [by apply ensure_inv|done].
  - destruct Hw as [H1 H2 H3 H4 H5 H6]. split; cbn [dw_id dw_score dw_action dw_sent dw_status]; [done..| |].
    + destruct (ok && _) eqn:E; [done|done].
    + destruct (ok && (dw_status w =? 0)) eqn:E; [left; boolify; by apply H5|done].
  - by destruct Hw; split.
Qed.

Lemma enforce_inv id action score w : writer_inv id action score w → writer_inv id action score (snd (EnforceBodyLimit w)).
Proof.
  intros Hw. unfold EnforceBodyLimit. destruct (negb _); [done|]. cbn [snd]. apply ensure_inv; [done|].
  destruct Hw; split; auto.
Qed.

Lemma ensure_status status w : dw_status (ensure_header status w) = 0 → status = 0 ∨ (100 <= status < 200 ∧ status ≠ 101).
Proof.
  unfold ensure_header. destruct (dw_status w =? 0) eqn:E; [|boolify; done]. unfold WriteHeader. rewrite E. cbn [negb].
  destruct (_ && _) eqn:Ei; [intros _; boolify; lia|]. destruct (requestBodyLimitExceeded w); [done|]. cbn [dw_status]. auto.
Qed.

Lemma ensure_sent status w : dw_status w = 0 → ∃ sh, dw_sent (ensure_header status w) = dw_sent w ++ [sh].
Proof.
  intros E. unfold ensure_header, WriteHeader. rewrite E. cbn. destruct (_ && _); [by eexists|].
  destruct (requestBodyLimitExceeded w); by eexists.
Qed.

(** ** What the next handler can do *)

Section facts.
Context {U : Unicode} {SH : Sha256} {L : WafLib} {FM : FloatMath}.

Lemma forward_inv e w r tracked action score security : (∀ z, OWriteHeader z ∈ ge_next e r → z ≠ 0) →
  writer_inv (ge_id e) action score (snd (forward e w r tracked action score security))
  ∧ dw_status (snd (forward e w r tracked action score security)) ≠ 0.
Proof.
  intros Hops. unfold forward. set (w0 := mkWriter _ _ _ _ _ _ _ _ _).
  assert (writer_inv (ge_id e) action score (foldl writer_op w0 (ge_next e r))) as Hinv.
  { assert (writer_inv (ge_id e) action score w0) as H0.
    { split; cbn; [done|done|by left| |done|by left]. intros sh Hs. by apply not_elem_of_nil in Hs. }
    clearbody w0. revert w0 H0 Hops. induction (ge_next e r) as [|o ops IH]; intros w0 H0 Ho; [done|]. cbn [foldl]. apply IH.
    - apply writer_op_inv; [|done]. intros z ->. apply Ho. by left.
    - intros z Hz. apply Ho. by right. }
  pose proof (enforce_inv _ _ _ _ Hinv) as He. destruct (EnforceBodyLimit _) as [over wr]. cbn [snd] in *.
  split; [by apply ensure_inv|]. intros Hs. apply ensure_status in Hs. lia.
Qed.

(** the next handler cannot forge or hide the decision: whatever calls it makes on the response
    writer, every response that reaches the client carries exactly the gateway's request id and score
    and its action (or BLOCK, when the body limit was passed), at most one final response is sent, with
    the status the gateway records, and the recorded status is never empty. *)
Theorem decision_headers_hold e w r tracked action score security : (∀ z, OWriteHeader z ∈ ge_next e r → z ≠ 0) →
  let wr := snd (forward e w r tracked action score security) in
  dw_status wr ≠ 0
  ∧ (∀ sh, sh ∈ dw_sent wr → decides (snd sh) (ge_id e) action score ∨ decides (snd sh) (ge_id e) "BLOCK" score)
  ∧ (filter final (dw_sent wr) = [] ∨ ∃ h, filter final (dw_sent wr) = [(dw_status wr, h)]).
Proof.
  intros Hops wr. destruct (forward_inv e w r tracked action score security Hops) as [[H1 H2 H3 H4 H5 H6] Hs].
  by split_and!.
Qed.

(** ** Every request is decided *)

(** The three ways a request ends. *)
Inductive ending (e : genv) (o : outcome) : Prop :=
  | ending_reply rp : o_reply o = Some rp → o_forwarded o = None → o_canceled o = false →
      rp_status rp = o_status o → 400 <= o_status o <= 503 → decides (rp_header rp) (ge_id e) (o_action o) (r_score (o_result o)) →
      header_values (rp_header rp) "Cache-Control" = [lit "no-store"] → ending e o
  | ending_forward r wr : o_forwarded o = Some (r, wr) → o_reply o = None → o_canceled o = false →
      o_status o = dw_status wr → ending e o
  | ending_cancel : o_canceled o = true → o_reply o = None → o_forwarded o = None → o_auto_banned o = false →
      logged o = false → ending e o.

Definition reject_ok (rj : rejection) : Prop :=
  400 <= rj_status rj <= 503
  ∧ Forall (λ kv : str * str, canonical_key (fst kv) ∉ lits ["X-Request-Id"; "X-Security-Action"; "X-Security-Score"; "Cache-Control"])
      (rj_extra rj).

Definition decision_ok (d : decision) : Prop := match d with Reject rj _ => reject_ok rj | _ => True end.

Lemma extra_values extra h name : Forall (λ kv : str * str, canonical_key (fst kv) ≠ canonical_key name) extra →
  header_values (foldl (λ h kv, header_set h (fst kv) (snd kv)) h extra) name = header_values h name.
Proof. intros Hf. revert h. induction Hf as [|kv extra Hkv Hf IH]; intros h; [done|]. cbn [foldl]. by rewrite IH, header_values_other. Qed.

Lemma reject_reply_ok e w score security rj : reject_ok rj →
  rp_status (reject_reply e w score security rj) = rj_status rj
  ∧ decides (rp_header (reject_reply e w score security rj)) (ge_id e) (rj_action rj) score
  ∧ header_values (rp_header (reject_reply e w score security rj)) "Cache-Control" = [lit "no-store"].
Proof.
  intros [_ Hx]. unfold reject_reply, writeBlocked. cbn [rp_status rp_header]. split; [done|]. split; [|by header_lookup].
  unfold decides. split_and!; header_lookup; [done| |]; rewrite extra_values;
    try (eapply Forall_impl; [exact Hx|]; intros kv Hkv He; apply Hkv; rewrite He; by repeat (left || right));
    unfold setDecisionHeaders; by header_lookup.
Qed.

Lemma conclude_ending e p w route client policy d s : decision_ok d → (∀ r z, OWriteHeader z ∈ ge_next e r → z ≠ 0) →
  ending e (fst (conclude e p w route client policy d s)).
Proof.
  intros Hd Hops. unfold conclude. destruct d as [rj res| |r tracked action reason res].
  - destruct (reject_reply_ok e w (r_score res) (add_security_headers (p_server p)) rj Hd) as (H1 & H2 & H3).
    destruct (if rj_violation rj then _ else _) as [banned s']. eapply ending_reply; try done. apply Hd.
  - by apply ending_cancel.
  - destruct (forward_inv e w r tracked action (r_score res) (add_security_headers (p_server p)) (Hops r)) as [_ Hs].
    destruct (forward _ _ _ _ _ _ _) as [over wr]. cbn [snd] in Hs. destruct (if over then _ else _) as [banned s'].
    eapply ending_forward; try done. cbn [fst o_status]. unfold Status. destruct (dw_status wr =? 0) eqn:E; [boolify; done|done].
Qed.

Lemma shape_status r policy server code reason : validateRequestShape r policy server = Some (code, reason) → 400 <= code <= 503.
Proof. unfold validateRequestShape. repeat case_goal; intros [= <- _]; lia. Qed.

Lemma prepare_ok e policy server r d : prepareBody e policy server r = inl d → decision_ok d.
Proof.
  unfold prepareBody. assert (∀ v st re co, 400 <= st <= 503 → reject_ok (block v re st co)) as Hb by (intros; split; [done|constructor]).
  assert (∀ re co, reject_ok (failure re co)) as Hf by (intros; split; [simpl; lia|constructor]).
  assert (∀ r d, match validateRequestShape r policy server with
    | Some (code, reason) => inl (Reject (block true reason code reason) no_result)
    | None => inr (trackRequestBodyLimit r (max_request_body_bytes server)) end = inl d → decision_ok d) as Hc.
  { intros r' d'. destruct (validateRequestShape r' policy server) as [[code reason]|] eqn:E; [|done].
    intros [= <-]. by eapply Hb, shape_status. }
  destruct (requestNeedsBodyStaging r); [|done]. destruct (stageRequestBody _ _ _) as [| |[]|r']; try apply Hc.
  - intros [= <-]. by apply Hb.
  - destruct (ge_context_done e); intros [= <-]; [done|apply Hf].
  - intros [= <-]. by apply Hb.
  - destruct (ge_context_done e); intros [= <-]; [done|apply Hf].
Qed.

Lemma inspect_ok e i policy r tracked : decision_ok (inspect_request e i policy r tracked).
Proof.
  unfold inspect_request. assert (∀ v st re co, 400 <= st <= 503 → reject_ok (block v re st co)) as Hb by (intros; split; [done|constructor]).
  assert (∀ re co, reject_ok (failure re co)) as Hf by (intros; split; [simpl; lia|constructor]).
  destruct (Inspect i r policy) as [[[]|res] r']; repeat case_goal; try done; by (apply Hb || apply Hf).
Qed.

Lemma decide_ok e p route client policy r s : decision_ok (fst (decide_request e p route client policy r s)).
Proof.
  unfold decide_request. destruct (validateRequestShape _ _ _) as [[code reason]|] eqn:E.
  { split; [by eapply shape_status|constructor]. }
  set (r' := with_header _ r). assert (∀ h v, h ∈ lits ["Retry-After"; "Allow"] → Forall (λ kv : str * str,
    canonical_key (fst kv) ∉ lits ["X-Request-Id"; "X-Security-Action"; "X-Security-Score"; "Cache-Control"]) [(h, v)]) as Hx.
  { intros h v Hh. apply Forall_singleton. cbn [fst].
    apply elem_of_cons in Hh as [->|Hh]; [|apply list_elem_of_singleton in Hh as ->]; apply (bool_decide_unpack _); by vm_compute. }
  destruct (if ipMatches client (ip_allowlist policy) then _ else _) as [[rj|] s1] eqn:Eb.
  - cbn [fst decision_ok]. destruct (ipMatches _ _); [done|]. unfold check_ban in Eb.
    destruct (BanManager.IsBanned _ _ _) as [[blocked retry] bans]. destruct blocked; [|done]. injection Eb as <- _.
    split; [simpl; lia|]. apply Hx. by left.
  - destruct (_ || _).
    { cbn [fst]. destruct (prepareBody _ _ _ _) as [d|[r0 t]] eqn:Ep; [by eapply prepare_ok|done]. }
    destruct (ipMatches client (ip_denylist policy)); [split; [simpl; lia|constructor]|].
    destruct (negb (methodAllowed _ _)); [split; [simpl; lia|]; apply Hx; by right; left|].
    destruct (check_rate e route client policy s1) as [[rj|] s2] eqn:Er.
    + unfold check_rate in Er. destruct (Limiter.Allow _ _ _ _ _) as [d b]. destruct (Limiter.Allowed d); [done|].
      injection Er as <- _. split; [simpl; lia|]. apply Hx. by left.
    + cbn [fst]. destruct (prepareBody _ _ _ _) as [d|[r0 t]] eqn:Ep; [by eapply prepare_ok|apply inspect_ok].
Qed.

(** every request is answered once and the answer carries the decision: a refused request gets a
    status between 400 and 503 that is also the recorded one, the gateway's request id, action and
    score, and forbids storing it; a forwarded request is recorded with the status its writer sent; the
    only request without an answer is one whose client has gone, which is neither logged nor counted as
    a violation. *)
Theorem every_request_ends e p w r s : (∀ r z, OWriteHeader z ∈ ge_next e r → z ≠ 0) →
  ending e (fst (ServeHTTP e p w r s)).
Proof.
  intros Hops. unfold ServeHTTP. set (route := match Routes.Match _ _ with Some _ => _ | None => _ end).
  set (client := Resolver.Resolve _ _). destruct (Admission.Acquire _ _ _ _) as [reason|adm].
  - apply conclude_ending; [|done]. split; [simpl; lia|]. apply Forall_singleton. apply (bool_decide_unpack _). by vm_compute.
  - set (s1 := with_admission adm _). pose proof (decide_ok e p route client (p_policy p route) r s1) as Hd.
    destruct (decide_request _ _ _ _ _ _ _) as [d s2]. cbn [fst] in Hd.
    pose proof (conclude_ending e p w route client (p_policy p route) d s2 Hd Hops) as Hc.
    by destruct (conclude _ _ _ _ _ _ _ _) as [o s3].
Qed.

(** ** No bypass *)

(** The state at the ban check and at the rate check of an admitted request. *)
Definition ban_state (e : genv) (adm : Admission.Limiter) (s : gw) : gw :=
  ge_meanwhile e AtBan (with_admission adm (ge_meanwhile e AtAdmission s)).
Definition rate_state (e : genv) (client : str) (adm : Admission.Limiter) (s : gw) : gw :=
  let s := ban_state e adm s in
  ge_meanwhile e AtRate (with_bans (snd (BanManager.IsBanned client (ge_now e AtBan) (gw_bans s))) s).

Definition banned (e : genv) (client : str) (adm : Admission.Limiter) (s : gw) : bool :=
  fst (fst (BanManager.IsBanned client (ge_now e AtBan) (gw_bans (ban_state e adm s)))).
Definition rate_allowed (e : genv) (route client : str) (policy : Policy) (adm : Admission.Limiter) (s : gw) : bool :=
  Limiter.Allowed (fst (Limiter.Allow route client (rate_limit policy) (ge_now e AtRate) (gw_buckets (rate_state e client adm s)))).

(** A policy that does not filter, or a client on the allowlist. *)
Definition exempt (policy : Policy) (client : str) : bool :=
  negb (policy_enabled policy) || (policy_mode policy =?s "off") || ipMatches client (ip_allowlist policy).

(** The inspection of the prepared request does not call for a refusal. *)
Definition waf_passes (policy : Policy) (res : Result) : Prop :=
  (r_body_truncated res = true → block_on_inspection_limit policy = false)
  ∧ (r_excluded res = true ∨ r_matches res = [] ∨ r_score res < anomaly_threshold policy ∨ policy_mode policy ≠ lit "block").

Record cleared (e : genv) (p : parts) (r : Inbound) (s : gw) (o : outcome) (r' : Inbound) : Prop := {
  cl_admitted : ∃ adm, Admission.Acquire (o_client o) (max_concurrent_requests (p_server p))
      (max_concurrent_per_client (p_server p)) (gw_admission (ge_meanwhile e AtAdmission s)) = inr adm
    ∧ (ipMatches (o_client o) (ip_allowlist (p_policy p (o_route o))) = false → banned e (o_client o) adm s = false)
    ∧ (exempt (p_policy p (o_route o)) (o_client o) = false → rate_allowed e (o_route o) (o_client o) (p_policy p (o_route o)) adm s = true);
  cl_shape : validateRequestShape r (p_policy p (o_route o)) (p_server p) = None;
  cl_lists : exempt (p_policy p (o_route o)) (o_client o) = false →
    ipMatches (o_client o) (ip_denylist (p_policy p (o_route o))) = false
    ∧ methodAllowed (req_method (in_req r)) (allowed_methods (p_policy p (o_route o))) = true;
  cl_body : ∃ r0 tracked, prepareBody e (p_policy p (o_route o)) (p_server p)
      (with_header (header_set (in_header r) "X-Request-ID" (ge_id e)) r) = inr (r0, tracked)
    ∧ (exempt (p_policy p (o_route o)) (o_client o) = true → r' = r0)
    ∧ (exempt (p_policy p (o_route o)) (o_client o) = false →
         Inspect (p_inspector p) r0 (p_policy p (o_route o)) = (inr (o_result o), r') ∧ waf_passes (p_policy p (o_route o)) (o_result o));
}.

Lemma inspect_forward e i policy r tracked r' t action reason res :
  inspect_request e i policy r tracked = Forward r' t action reason res →
  Inspect i r policy = (inr res, r') ∧ waf_passes policy res.
Proof.
  unfold inspect_request, waf_passes. destruct (Inspect i r policy) as [[[]|res'] r'']; try by repeat case_goal.
  destruct (_ && _) eqn:Et; [done|]. destruct (_ && (0 <? _)) eqn:Em.
  - destruct ((_ <=? _) && _) eqn:Es; [done|]. intros [= <- _ _ _ <-]. split; [done|]. split.
    + intros Ht. by rewrite Ht in Et.
    + apply andb_false_iff in Es as [Es|Es]; boolify; auto.
  - intros [= <- _ _ _ <-]. split; [done|]. split; [intros Ht; by rewrite Ht in Et|].
    apply andb_false_iff in Em as [Em|Em]; [apply negb_false_iff in Em; by left|]. right. left. boolify.
    apply len_zero. pose proof (len_nonneg (r_matches res')). lia.
Qed.

(** The checks a forwarded request passed, on the state [s] of its admission. *)
Lemma decide_forward e p route client policy r s r' tracked action reason res s' :
  decide_request e p route client policy r s = (Forward r' tracked action reason res, s') →
  validateRequestShape r policy (p_server p) = None
  ∧ (ipMatches client (ip_allowlist policy) = false →
       fst (fst (BanManager.IsBanned client (ge_now e AtBan) (gw_bans (ge_meanwhile e AtBan s)))) = false)
  ∧ (exempt policy client = false →
       ipMatches client (ip_denylist policy) = false ∧ methodAllowed (req_method (in_req r)) (allowed_methods policy) = true
       ∧ let s1 := ge_meanwhile e AtBan s in
         let s2 := ge_meanwhile e AtRate (with_bans (snd (BanManager.IsBanned client (ge_now e AtBan) (gw_bans s1))) s1) in
         Limiter.Allowed (fst (Limiter.Allow route client (rate_limit policy) (ge_now e AtRate) (gw_buckets s2))) = true)
  ∧ ∃ r0 t0, prepareBody e policy (p_server p) (with_header (header_set (in_header r) "X-Request-ID" (ge_id e)) r) = inr (r0, t0)
    ∧ (exempt policy client = true → r' = r0)
    ∧ (exempt policy client = false → Inspect (p_inspector p) r0 policy = (inr res, r') ∧ waf_passes policy res).
Proof.
  unfold decide_request, exempt. destruct (validateRequestShape _ _ _) as [[code rs]|]; [done|].
  set (rq := with_header _ r). destruct (ipMatches client (ip_allowlist policy)) eqn:Eal.
  - rewrite orb_true_r. destruct (prepareBody e policy (p_server p) rq) as [d|[r0 t0]] eqn:Ep.
    + intros [= -> _]. exfalso. revert Ep. unfold prepareBody. repeat case_goal; done.
    + intros [= <- _ _ _ _ _]. split_and!; [done..|]. exists r0, t0. by split_and!.
  - rewrite orb_false_r. unfold check_ban. destruct (BanManager.IsBanned _ _ _) as [[blocked retry] bans] eqn:Ei.
    destruct blocked; [done|]. destruct (_ || _) eqn:Eoff.
    + destruct (prepareBody e policy (p_server p) rq) as [d|[r0 t0]] eqn:Ep.
      * intros [= -> _]. exfalso. revert Ep. unfold prepareBody. repeat case_goal; done.
      * intros [= <- _ _ _ _ _]. split_and!; [done..|]. exists r0, t0. by split_and!.
    + destruct (ipMatches client (ip_denylist policy)); [done|]. destruct (methodAllowed _ _) eqn:Em; [|done]. cbn [negb].
      unfold check_rate. destruct (Limiter.Allow _ _ _ _ _) as [dc b] eqn:El. destruct (Limiter.Allowed dc) eqn:Eok; [|done].
      destruct (prepareBody e policy (p_server p) rq) as [d|[r0 t0]] eqn:Ep.
      * intros [= -> _]. exfalso. revert Ep. unfold prepareBody. repeat case_goal; done.
      * intros [= Hi _]. split_and!; [done..| |].
        -- intros _. split_and!; [done|done|]. done.
        -- exists r0, t0. split_and!; [done..|]. intros _. by eapply inspect_forward.
Qed.

(** C1: no bypass: a request reaches the next handler only if it was admitted under the concurrency
    limits, its shape is within the policy's limits, its client was not banned (unless it is on the
    allowlist), and, unless the policy is off or the client is on the allowlist, the client is not
    denied, the method is allowed, the rate limiter let it pass, and the inspection of exactly the
    request that is forwarded found neither a score at the blocking threshold nor a truncated body the
    policy refuses. *)
Theorem forwarded_only_if_cleared e p w r s r' wr :
  o_forwarded (fst (ServeHTTP e p w r s)) = Some (r', wr) → cleared e p r s (fst (ServeHTTP e p w r s)) r'.
Proof.
  unfold ServeHTTP. set (route := match Routes.Match _ _ with Some _ => _ | None => _ end).
  set (client := Resolver.Resolve _ _). set (policy := p_policy p route).
  destruct (Admission.Acquire _ _ _ _) as [reason|adm] eqn:Ea.
  { cbn [conclude]. destruct (if rj_violation _ then _ else _) as [b s']. done. }
  destruct (decide_request _ _ _ _ _ _ _) as [d s2] eqn:Ed. unfold conclude.
  destruct d as [rj res| |r0 tracked action reason res].
  { destruct (if rj_violation rj then _ else _) as [b s']. done. }
  { done. }
  destruct (forward _ _ _ _ _ _ _) as [over wr']. destruct (if over then _ else _) as [b s']. cbn [fst o_forwarded].
  intros [= -> _]. apply decide_forward in Ed as (H1 & H2 & H3 & H4).
  split; cbn [o_client o_route o_result]; fold policy.
  - exists adm. split_and!; [done..|]. intros He. by apply H3.
  - done.
  - intros He. destruct (H3 He) as (? & ? & _). done.
  - done.
Qed.

(** a banned client is refused before it costs anything: an admitted, well-formed request of a
    client that is banned and not on the allowlist is answered 429 with a Retry-After, takes no token
    from the rate limiter, is not inspected, not forwarded and not counted as a new violation. *)
Theorem banned_is_refused e p w r s adm :
  let route := match Routes.Match (p_routes p) (in_req r) with Some m => Routes.Name m | None => lit "__unmatched__" end in
  let client := Resolver.Resolve (p_clients p) (in_req r) in
  Admission.Acquire client (max_concurrent_requests (p_server p)) (max_concurrent_per_client (p_server p))
    (gw_admission (ge_meanwhile e AtAdmission s)) = inr adm →
  validateRequestShape r (p_policy p route) (p_server p) = None →
  ipMatches client (ip_allowlist (p_policy p route)) = false → banned e client adm s = true →
  let '(o, s') := ServeHTTP e p w r s in
  o_action o = "BANNED" ∧ o_status o = 429 ∧ o_auto_banned o = false ∧ o_forwarded o = None
  ∧ (∃ rp, o_reply o = Some rp ∧ header_values (rp_header rp) "Retry-After" = [retrySeconds (o_retry o)])
  ∧ ∃ bans, s' = with_admission (Admission.release_once client (gw_admission (ge_meanwhile e AtRelease (with_bans bans (ban_state e adm s)))))
                   (ge_meanwhile e AtRelease (with_bans bans (ban_state e adm s))).
Proof.
  intros route client Ha Hs Hal Hb. unfold ServeHTTP. fold route client. rewrite Ha. unfold decide_request. rewrite Hs, Hal.
  unfold check_ban. unfold banned in Hb. fold (ban_state e adm s).
  destruct (BanManager.IsBanned _ _ _) as [[blocked retry] bans]. cbn [fst] in Hb. subst blocked.
  cbn [conclude rj_violation]. cbn [o_action o_status o_auto_banned o_forwarded o_reply o_retry fst snd].
  split_and!; [done..| |by eexists]. eexists. split; [done|]. unfold reject_reply, writeBlocked. cbn [rp_header rj_extra foldl fst snd].
  by header_lookup.
Qed.

(** ** Admission *)

Lemma release_acquire client gl cl a a' : (∀ c, Admission.perClient a !! c ≠ Some 0) →
  Admission.Acquire client gl cl a = inr a' → 0 <= Admission.active client a → Admission.release_once client a' = a.
Proof.
  intros Hz. unfold Admission.Acquire, Admission.release_once. destruct (_ <=? _); [done|]. destruct (_ <=? _); [done|].
  intros [= <-] H0. unfold Admission.active in *. cbn [Admission.global Admission.perClient]. rewrite lookup_insert_eq. cbn [default].
  destruct a as [g pc]. cbn [Admission.global Admission.perClient] in *. f_equal; [lia|].
  destruct (pc !! client) as [n|] eqn:E; simpl in *; [replace (n + 1 - 1) with n by lia|].
  - destruct (Z.leb_spec n 0); [assert (n = 0) by lia; subst; by apply Hz in E|].
    rewrite insert_insert_eq. by rewrite insert_id.
  - rewrite delete_insert_eq. by rewrite delete_id.
Qed.

Lemma conclude_admission e p w route client policy d s : (∀ pt s, gw_admission (ge_meanwhile e pt s) = gw_admission s) →
  gw_admission (snd (conclude e p w route client policy d s)) = gw_admission s.
Proof.
  intros Hm. assert (gw_admission (snd (recordViolation e p client policy s)) = gw_admission s) as Hv.
  { unfold recordViolation. destruct (BanManager.RecordViolation _ _ _ _ _) as [[b d'] bans]. apply Hm. }
  unfold conclude. destruct d as [rj res| |r tracked action reason res]; [|done|].
  - destruct (rj_violation rj); [|done]. by destruct (recordViolation _ _ _ _ _).
  - destruct (forward _ _ _ _ _ _ _) as [[] wr]; [|done]. by destruct (recordViolation _ _ _ _ _).
Qed.

Lemma decide_admission e p route client policy r s : (∀ pt s, gw_admission (ge_meanwhile e pt s) = gw_admission s) →
  gw_admission (snd (decide_request e p route client policy r s)) = gw_admission s.
Proof.
  intros Hm. unfold decide_request. destruct (validateRequestShape _ _ _) as [[code rs]|]; [done|].
  assert (gw_admission (snd (if ipMatches client (ip_allowlist policy) then (None, s) else check_ban e client s)) = gw_admission s) as Hb.
  { destruct (ipMatches _ _); [done|]. unfold check_ban. destruct (BanManager.IsBanned _ _ _) as [[b d'] bans]. apply Hm. }
  destruct (if ipMatches client (ip_allowlist policy) then _ else _) as [[rj|] s1]; [done|]. cbn [snd] in Hb.
  destruct (_ || _); [done|]. destruct (ipMatches _ _); [done|]. destruct (negb _); [done|].
  assert (gw_admission (snd (check_rate e route client policy s1)) = gw_admission s1) as Hr.
  { unfold check_rate. destruct (Limiter.Allow _ _ _ _ _) as [d b]. apply Hm. }
  destruct (check_rate _ _ _ _ _) as [[rj|] s2]; cbn [snd] in *; congruence.
Qed.

(** admission is given back on every path: if the other requests leave the admission counters as
    they found them, so does this one, whether it is refused, forwarded, cut off or canceled. *)
Theorem admission_given_back e p w r s : (∀ pt s, gw_admission (ge_meanwhile e pt s) = gw_admission s) →
  (∀ c n, Admission.perClient (gw_admission s) !! c = Some n → 0 < n) →
  gw_admission (snd (ServeHTTP e p w r s)) = gw_admission s.
Proof.
  intros Hm Hpos. unfold ServeHTTP. set (route := match Routes.Match _ _ with Some _ => _ | None => _ end).
  set (client := Resolver.Resolve _ _). rewrite Hm.
  destruct (Admission.Acquire _ _ _ _) as [reason|adm] eqn:Ea; [by rewrite conclude_admission, Hm|].
  pose proof (decide_admission e p route client (p_policy p route) r (with_admission adm (ge_meanwhile e AtAdmission s)) Hm) as Hd.
  destruct (decide_request _ _ _ _ _ _ _) as [d s2]. cbn [snd] in Hd.
  pose proof (conclude_admission e p w route client (p_policy p route) d s2 Hm) as Hc.
  destruct (conclude _ _ _ _ _ _ _ _) as [o s3]. cbn [snd gw_admission with_admission] in *. rewrite Hm, Hc, Hd.
  eapply release_acquire; [|exact Ea|].
  - intros c Hc0. apply Hpos in Hc0. lia.
  - unfold Admission.active. destruct (Admission.perClient (gw_admission s) !! client) eqn:E; simpl; [|lia]. apply Hpos in E. lia.
Qed.
End facts.

(** ** A concrete gateway *)

Section samples.
#[local] Existing Instance unicode_ascii.
#[local] Existing Instance WafFacts.sample_lib.
#[local] Existing Instance WafFacts.sample_sha.
#[local] Existing Instance Limiter.sample_fm.

(** The next handler forges a decision, answers twice and is then cut off. *)
Definition forging : list wop :=
  [OHeader {[ lit "X-Security-Action" := [lit "NONE"] ]}; OWriteHeader 103; OWriteHeader 204; OWriteHeader 500; OLimit].

Definition sample_gw_env : genv :=
  mkEnv "id-1" (λ _, 100 * second) (λ _ s, s) false (mkStage true true true true ∅) (λ _, forging).
Definition sample_parts : parts :=
  mkParts [] (λ _, WafFacts.sample_policy) (mkSecServer 1000 10 5 true) WafFacts.sample_inspector (Resolver.mk [] "X-Forwarded-For") map_to_list.
Definition sample_request : Inbound :=
  mkInbound (mkRequest "POST" "shop.test" (mkURL [] [] [] "/login" [] false)
               (header_set ∅ "Content-Type" "text/plain") "203.0.113.9:5") [] ∅ (Some (mkBody "hello" None)) (-1).
Definition sample_gw : gw := mkGw ∅ BanManager.NewBanManager Admission.New.
Definition sample_out : outcome := fst (ServeHTTP sample_gw_env sample_parts ∅ sample_request sample_gw).

Lemma forging_ok : ∀ (r : Inbound) z, OWriteHeader z ∈ ge_next sample_gw_env r → z ≠ 0.
Proof.
  intros r z. cbn [ge_next sample_gw_env]. unfold forging. rewrite !elem_of_cons.
  intros [?|[H|[H|[H|[?|H]]]]]; try done; [injection H as ->; done..|by apply not_elem_of_nil in H].
Qed.

Lemma decision_headers_hold_witness :
  dw_status (snd (forward sample_gw_env ∅ sample_request true "ALLOW" 0 true)) = 204
  ∧ length (dw_sent (snd (forward sample_gw_env ∅ sample_request true "ALLOW" 0 true))) = 2%nat
  ∧ ∀ sh, sh ∈ dw_sent (snd (forward sample_gw_env ∅ sample_request true "ALLOW" 0 true)) →
      decides (snd sh) "id-1" "ALLOW" 0 ∨ decides (snd sh) "id-1" "BLOCK" 0.
Proof.
  split; [by vm_compute|]. split; [by vm_compute|].
  exact (proj1 (proj2 (decision_headers_hold sample_gw_env ∅ sample_request true "ALLOW" 0 true (forging_ok sample_request)))).
Defined.

Lemma every_request_ends_witness : ending sample_gw_env sample_out ∧ o_status sample_out = 204.
Proof. split; [exact (every_request_ends sample_gw_env sample_parts ∅ sample_request sample_gw forging_ok)|by vm_compute]. Defined.

Lemma forwarded_only_if_cleared_witness :
  match o_forwarded sample_out with
  | Some (r', _) => cleared sample_gw_env sample_parts sample_request sample_gw sample_out r'
  | None => False
  end.
Proof.
  destruct (o_forwarded sample_out) as [[r' wr]|] eqn:E.
  - exact (forwarded_only_if_cleared sample_gw_env sample_parts ∅ sample_request sample_gw r' wr E).
  - vm_compute in E. discriminate E.
Defined.

(** The same client, banned. *)
Definition banned_gw : gw :=
  mkGw ∅ (BanManager.mkManager {[ lit "203.0.113.9" := BanManager.mkViolation [] (200 * second) 3 0 0 ]} 0) Admission.New.
Definition one_admitted : Admission.Limiter := Admission.mkLimiter 1 {[ lit "203.0.113.9" := 1 ]}.

Lemma banned_is_refused_witness :
  let '(o, s') := ServeHTTP sample_gw_env sample_parts ∅ sample_request banned_gw in
  o_action o = "BANNED" ∧ o_status o = 429 ∧ gw_buckets s' = ∅.
Proof.
  pose proof (banned_is_refused sample_gw_env sample_parts ∅ sample_request banned_gw one_admitted
    ltac:(vm_compute; reflexivity) ltac:(vm_compute; reflexivity) ltac:(vm_compute; reflexivity) ltac:(vm_compute; reflexivity)) as H.
  destruct (ServeHTTP _ _ _ _ _) as [o s']. destruct H as (H1 & H2 & _ & _ & _ & bans & ->).
  split; [exact H1|]. split; [exact H2|]. reflexivity.
Defined.

Lemma admission_given_back_witness :
  gw_admission (snd (ServeHTTP sample_gw_env sample_parts ∅ sample_request sample_gw)) = Admission.New.
Proof.
  refine (admission_given_back sample_gw_env sample_parts ∅ sample_request sample_gw _ _); [done|].
  intros c n Hn. cbn in Hn. by rewrite lookup_empty in Hn.
Defined.
End samples.
End GatewayFacts.
