(* ===== verification/Ring.v ===== *)
(** * The bounded ring of log entries

    apps/edgeproxy/internal/accesslog/store.go and
    apps/securityedge/internal/securitylog/store.go keep their entries in the
    same ring buffer: [capacity] slots, the [count] retained entries starting
    at [head], a counter of sequence numbers and one of dropped entries.  This
    file has the ring, its abstraction to the list of retained entries
    ([retained], oldest first), and what reading it page by page gives. *)

From stdpp Require Import sorting.
From S2P Require Import Prelude.

Module Ring.

Record t (E : Type) := mk {
  entries : list E; capacity : Z; head : Z; count : Z; nextSeq : Z; dropped : Z }.
Arguments mk {E}.
Arguments entries {E}.
Arguments capacity {E}.
Arguments head {E}.
Arguments count {E}.
Arguments nextSeq {E}.
Arguments dropped {E}.

Section ring.
Context {E : Type}.
Implicit Types (s : t E) (e : E) (pass : E → bool).

(** [make([]Entry, capacity)]: every slot is the zero entry. *)
Definition make (zero : E) (cap : Z) : t E := mk (replicate (Z.to_nat cap) zero) cap 0 0 1 0.

(** [(s.head + logical) % s.capacity]; Go's [%] truncates. *)
Definition slot s (logical : Z) : nat := Z.to_nat (Z.rem (head s + logical) (capacity s)).

(** Fill the next free slot, or overwrite the oldest entry. *)
Definition push e s : t E :=
  if count s <? capacity s then
    mk (<[slot s (count s) := e]> (entries s)) (capacity s) (head s) (count s + 1) (nextSeq s) (dropped s)
  else
    mk (<[Z.to_nat (head s) := e]> (entries s)) (capacity s) (Z.rem (head s + 1) (capacity s)) (count s)
      (nextSeq s) (wrapu64 (dropped s + 1)).

(** [s.nextSeq++] *)
Definition bump s : t E :=
  mk (entries s) (capacity s) (head s) (count s) (wrapu64 (nextSeq s + 1)) (dropped s).

(** [clear(s.entries); s.head = 0; s.count = 0] *)
Definition clear (zero : E) s : t E :=
  mk ((λ _, zero) <$> entries s) (capacity s) 0 0 (nextSeq s) (dropped s).

Definition oldest s : option E := entries s !! Z.to_nat (head s).
Definition newest s : option E := entries s !! slot s (count s - 1).

(** The reading loop from [logical = n - 1] down to 0: the entries that pass,
    newest first, and whether one was left when [limit] was reached. *)
Fixpoint scan_back (pass : E → bool) (limit : Z) s (n : nat) (acc : list E) : list E * bool :=
  match n with
  | O => (acc, false)
  | S n =>
      match entries s !! slot s (Z.of_nat n) with
      | None => (acc, false)
      | Some e =>
          if pass e then
            if len acc <? limit then scan_back pass limit s n (acc ++ [e]) else (acc, true)
          else scan_back pass limit s n acc
      end
  end.

(** The same, stopping at the entry that makes [limit]. *)
Fixpoint collect_back (pass : E → bool) (limit : Z) s (n : nat) (acc : list E) : list E :=
  match n with
  | O => acc
  | S n =>
      match entries s !! slot s (Z.of_nat n) with
      | None => acc
      | Some e =>
          if pass e then
            if len (acc ++ [e]) =? limit then acc ++ [e] else collect_back pass limit s n (acc ++ [e])
          else collect_back pass limit s n acc
      end
  end.

(** ** Abstraction: the retained entries, oldest first *)

Definition retained s : list E :=
  omap (λ i, entries s !! slot s (Z.of_nat i)) (seq 0 (Z.to_nat (count s))).

Record shape s : Prop := {
  shape_cap : 0 < capacity s;
  shape_len : len (entries s) = capacity s;
  shape_head : 0 <= head s < capacity s;
  shape_count : 0 <= count s <= capacity s }.

Lemma make_shape zero cap : 0 < cap → shape (make zero cap).
Proof. intros Hc. split; simpl; try lia. unfold len. rewrite length_replicate. lia. Qed.

Lemma slot_mod s i : shape s → 0 <= i → slot s i = Z.to_nat ((head s + i) mod capacity s).
Proof. intros [] Hi. unfold slot. rewrite Z.rem_mod_nonneg; lia. Qed.

Lemma slot_lt s i : shape s → 0 <= i → (slot s i < length (entries s))%nat.
Proof.
  intros Hs Hi. rewrite slot_mod by done. destruct Hs as [H1 H2 _ _]. unfold len in H2.
  pose proof (Z.mod_pos_bound (head s + i) (capacity s) H1). lia.
Qed.

Lemma slot_inj s i j : shape s → 0 <= i < capacity s → 0 <= j < capacity s → slot s i = slot s j → i = j.
Proof.
  intros Hs Hi Hj Hij. rewrite !slot_mod in Hij by (done || lia). destruct Hs as [H1 _ H3 _].
  pose proof (Z.mod_pos_bound (head s + i) (capacity s) H1).
  pose proof (Z.mod_pos_bound (head s + j) (capacity s) H1).
  assert ((head s + i) mod capacity s = (head s + j) mod capacity s) as Hm by lia.
  pose proof (Z.div_mod (head s + i) (capacity s) ltac:(lia)).
  pose proof (Z.div_mod (head s + j) (capacity s) ltac:(lia)).
  assert ((head s + i) / capacity s = (head s + j) / capacity s) by nia. nia.
Qed.

(** Every logical index below [count] has its entry. *)
Lemma retained_lookup s i : shape s → (i < Z.to_nat (count s))%nat →
  retained s !! i = entries s !! slot s (Z.of_nat i) ∧ is_Some (retained s !! i).
Proof.
  intros Hs Hi. unfold retained.
  assert (∀ l : list nat, (∀ j, j ∈ l → is_Some (entries s !! slot s (Z.of_nat j))) → ∀ i : nat,
    omap (λ i, entries s !! slot s (Z.of_nat i)) l !! i = l !! i ≫= (λ j, entries s !! slot s (Z.of_nat j))) as G.
  { clear i Hi. induction l as [|j l IH]; intros Hl i; [done|].
    destruct (Hl j ltac:(set_solver)) as [e He]. cbn [omap list_omap]. rewrite He.
    destruct i as [|i]; simpl; [done|]. apply IH. set_solver. }
  assert (∀ j, is_Some (entries s !! slot s (Z.of_nat j))) as Hsome
    by (intros j; apply lookup_lt_is_Some, slot_lt; [done|lia]).
  rewrite G by auto. rewrite lookup_seq_lt by done. simpl. auto.
Qed.

Lemma retained_length s : shape s → len (retained s) = count s.
Proof.
  intros Hs. unfold len.
  assert (length (retained s) = Z.to_nat (count s)) as ->; [|destruct Hs; lia].
  unfold retained. transitivity (length (seq 0 (Z.to_nat (count s)))); [|apply length_seq].
  generalize (seq 0 (Z.to_nat (count s))) as l. induction l as [|j l IH]; [done|].
  cbn [omap list_omap]. destruct (lookup_lt_is_Some_2 (entries s) (slot s (Z.of_nat j))) as [e ->];
    [apply slot_lt; [done|lia]|]. simpl. by f_equal.
Qed.

Lemma make_retained zero cap : retained (make zero cap) = [].
Proof. done. Qed.
Lemma clear_retained zero s : retained (clear zero s) = [].
Proof. done. Qed.
Lemma bump_retained s : retained (bump s) = retained s.
Proof. done. Qed.
Lemma bump_shape s : shape s → shape (bump s).
Proof. by intros []. Qed.
Lemma clear_shape zero s : shape s → shape (clear zero s).
Proof. intros []. split; simpl; try lia. unfold len in *. rewrite length_fmap. lia. Qed.

Lemma push_shape e s : shape s → shape (push e s).
Proof.
  intros [H1 H2 H3 H4]. unfold push. destruct (Z.ltb_spec (count s) (capacity s)); split; simpl; try lia;
    try (unfold len in *; rewrite length_insert; lia).
  rewrite Z.rem_mod_nonneg by lia. apply Z.mod_pos_bound. lia.
Qed.

(** [Append] keeps the newest [capacity] entries. *)
Lemma push_retained e s : shape s →
  retained (push e s) = drop (Z.to_nat (count s + 1 - capacity s)) (retained s ++ [e]).
Proof.
  intros Hs. pose proof (push_shape e s Hs) as Hs'. pose proof (retained_length s Hs) as Hl.
  pose proof (retained_length _ Hs') as Hl'. unfold len in Hl, Hl'.
  apply list_eq_same_length with (n := length (retained (push e s))); [|done|].
  { rewrite length_drop, length_app. simpl. revert Hl'. unfold push. destruct Hs.
    destruct (Z.ltb_spec (count s) (capacity s)); simpl; lia. }
  intros i x y Hi Hx Hy. revert Hx Hy. destruct (retained_lookup _ i Hs' ltac:(lia)) as [-> _].
  rewrite lookup_drop. revert Hi. rewrite <- (Nat2Z.id (length _)), Hl'. clear Hl'. revert Hs'. unfold push.
  destruct (Z.ltb_spec (count s) (capacity s)) as [Hc|Hc]; cbn [entries count]; intros Hs' Hi;
    pose proof Hs as [H1 H2 H3 H4].
  - replace (Z.to_nat (count s + 1 - capacity s)) with 0%nat by lia. cbn [Nat.add].
    set (s' := mk _ _ _ _ _ _). change (slot s' (Z.of_nat i)) with (slot s (Z.of_nat i)).
    destruct (decide (Z.of_nat i = count s)) as [Heq|Hne].
    + rewrite Heq, list_lookup_insert_eq by (apply slot_lt; [done|lia]).
      rewrite lookup_app_r by lia. replace (i - _)%nat with 0%nat by lia. simpl. congruence.
    + rewrite list_lookup_insert_ne by (intros Hq; apply slot_inj in Hq; [lia|done|lia|lia]).
      rewrite lookup_app_l by lia. destruct (retained_lookup s i Hs ltac:(lia)) as [-> _]. congruence.
  - assert (count s = capacity s) as Hcc by lia. replace (Z.to_nat (count s + 1 - capacity s)) with 1%nat by lia.
    set (s' := mk _ _ _ _ _ _). rewrite (slot_mod s') by (done || lia). cbn [head capacity s'].
    rewrite Z.rem_mod_nonneg by lia. rewrite Zplus_mod_idemp_l.
    replace (head s + 1 + Z.of_nat i) with (head s + Z.of_nat (1 + i)) by lia.
    destruct (decide (Z.of_nat (1 + i) = count s)) as [Heq|Hne].
    + rewrite Heq, Hcc. replace (head s + capacity s) with (head s + 1 * capacity s) by lia.
      rewrite Z_mod_plus_full, Z.mod_small by lia.
      rewrite list_lookup_insert_eq by (unfold len in H2; lia).
      rewrite lookup_app_r by lia. replace (1 + i - _)%nat with 0%nat by lia. simpl. congruence.
    + rewrite <- (slot_mod s) by (done || lia).
      rewrite list_lookup_insert_ne.
      * rewrite lookup_app_l by lia. destruct (retained_lookup s (1 + i) Hs ltac:(lia)) as [-> _]. congruence.
      * intros Hq. replace (Z.to_nat (head s)) with (slot s 0) in Hq
          by (rewrite slot_mod by (done || lia); rewrite Z.add_0_r, Z.mod_small by lia; done).
        apply slot_inj in Hq; [lia|done|lia|lia].
Qed.

(** The newest [cap] of a history of entries. *)
Definition newest_of (cap : Z) (hist : list E) : list E := drop (length hist - Z.to_nat cap) hist.

Lemma push_newest e s hist : shape s → retained s = newest_of (capacity s) hist →
  retained (push e s) = newest_of (capacity s) (hist ++ [e]).
Proof.
  intros Hs Hr. rewrite push_retained, Hr by done. pose proof (retained_length s Hs) as Hl. rewrite Hr in Hl.
  destruct Hs as [Hc _ _ _]. revert Hl. unfold newest_of, len. rewrite length_app, length_drop. cbn [length]. intros Hl.
  destruct (decide (length hist < Z.to_nat (capacity s))%nat) as [Hlt|Hge].
  - replace (length hist - Z.to_nat (capacity s))%nat with 0%nat in * by lia. rewrite !drop_0.
    replace (length hist + 1 - Z.to_nat (capacity s))%nat with 0%nat by lia. rewrite drop_0.
    by replace (Z.to_nat _) with 0%nat by lia.
  - replace (Z.to_nat (count s + 1 - capacity s)) with 1%nat by lia.
    rewrite <- drop_app_le, drop_drop by lia. f_equal. lia.
Qed.

Lemma push_capacity e s : capacity (push e s) = capacity s.
Proof. unfold push. by case_match. Qed.
Lemma push_nextSeq e s : nextSeq (push e s) = nextSeq s.
Proof. unfold push. by case_match. Qed.
Lemma bump_nextSeq s : nextSeq s < max_uint64 → 0 <= nextSeq s → nextSeq (bump s) = nextSeq s + 1.
Proof. intros. apply wrapu64_id. unfold uint64_ok. lia. Qed.

Lemma oldest_retained s : shape s → 0 < count s → oldest s = retained s !! 0%nat.
Proof.
  intros Hs Hc. destruct (retained_lookup s 0 Hs ltac:(lia)) as [-> _]. unfold oldest. f_equal.
  rewrite slot_mod by (done || lia). destruct Hs. rewrite Z.add_0_r, Z.mod_small by lia. done.
Qed.

Lemma newest_retained s : shape s → 0 < count s → newest s = last (retained s).
Proof.
  intros Hs Hc. rewrite last_lookup. pose proof (retained_length s Hs) as Hl. unfold len in Hl.
  destruct (retained_lookup s (pred (length (retained s))) Hs ltac:(lia)) as [-> _]. unfold newest. do 2 f_equal. lia.
Qed.

(** The reading loop against the list: the first [limit] passing entries,
    newest first, and whether there are more. *)
Lemma scan_back_retained pass limit s n acc : shape s → (n <= Z.to_nat (count s))%nat → len acc <= limit →
  let all := acc ++ filter pass (reverse (take n (retained s))) in
  scan_back pass limit s n acc = (take (Z.to_nat limit) all, limit <? len all).
Proof.
  intros Hs. revert acc. induction n as [|n IH]; intros acc Hn Ha.
  - simpl. rewrite take_0. simpl. rewrite app_nil_r, take_ge by (unfold len in Ha; lia).
    f_equal. symmetry. apply Z.ltb_ge. done.
  - destruct (retained_lookup s n Hs ltac:(lia)) as [H1 [e He]]. cbn [scan_back]. rewrite <- H1, He.
    rewrite (take_S_r _ _ e) by done. rewrite reverse_app. cbn [reverse rev_append app]. rewrite filter_cons.
    destruct (pass e) eqn:Hp.
    + destruct (decide _) as [_|Hd]; [|by destruct Hd]. destruct (Z.ltb_spec (len acc) limit) as [Hl|Hl].
      * rewrite IH; [|lia|rewrite len_app; change (len [e]) with 1; lia]. by rewrite <- app_assoc.
      * assert (len acc = limit) as Hq by lia. cbv zeta. rewrite take_app_le by (unfold len in Hq; lia).
        rewrite take_ge by (unfold len in Hq; lia). f_equal. symmetry. apply Z.ltb_lt. rewrite len_app, len_cons.
        pose proof (len_nonneg (filter pass (reverse (take n (retained s))))). lia.
    + destruct (decide _) as [Hd|_]; [by destruct Hd|]. apply IH; [lia|done].
Qed.

Lemma scan_back_all pass limit s : shape s → 0 <= limit →
  let all := filter pass (reverse (retained s)) in
  scan_back pass limit s (Z.to_nat (count s)) [] = (take (Z.to_nat limit) all, limit <? len all).
Proof.
  intros Hs Hl. pose proof (scan_back_retained pass limit s (Z.to_nat (count s)) [] Hs ltac:(done) Hl) as E1.
  pose proof (retained_length s Hs) as Hr. unfold len in Hr. by rewrite (take_ge (retained s)) in E1 by lia.
Qed.

Lemma collect_back_retained pass limit s n acc : shape s → (n <= Z.to_nat (count s))%nat → len acc < limit →
  collect_back pass limit s n acc = take (Z.to_nat limit) (acc ++ filter pass (reverse (take n (retained s)))).
Proof.
  intros Hs. revert acc. induction n as [|n IH]; intros acc Hn Ha.
  - simpl. rewrite take_0. simpl. rewrite app_nil_r, take_ge by (unfold len in Ha; lia). done.
  - destruct (retained_lookup s n Hs ltac:(lia)) as [H1 [e He]]. cbn [collect_back]. rewrite <- H1, He.
    rewrite (take_S_r _ _ e) by done. rewrite reverse_app. cbn [reverse rev_append app]. rewrite filter_cons.
    destruct (pass e) eqn:Hp.
    + destruct (decide _) as [_|Hd]; [|by destruct Hd]. rewrite (cons_middle e acc (filter _ _)), (assoc_L (++)).
      destruct (Z.eqb_spec (len (acc ++ [e])) limit) as [Hl|Hl].
      * rewrite take_app_le by (unfold len in Hl; lia). by rewrite take_ge by (unfold len in Hl; lia).
      * apply IH; [lia|]. rewrite len_app in *. change (len [e]) with 1 in *. lia.
    + destruct (decide _) as [Hd|_]; [by destruct Hd|]. apply IH; [lia|done].
Qed.

Lemma collect_back_all pass limit s : shape s → 0 < limit →
  collect_back pass limit s (Z.to_nat (count s)) [] = take (Z.to_nat limit) (filter pass (reverse (retained s))).
Proof.
  intros Hs Hl. pose proof (collect_back_retained pass limit s (Z.to_nat (count s)) [] Hs ltac:(done) Hl) as E1.
  pose proof (retained_length s Hs) as Hr. unfold len in Hr. by rewrite (take_ge (retained s)) in E1 by lia.
Qed.

(** ** Sequence numbers and paging *)

Section paging.
Context (sq : E → Z).

(** The entries are numbered upwards, below the next number. *)
Definition numbered s : Prop :=
  StronglySorted (λ a b, sq a < sq b) (retained s)
  ∧ Forall (λ e, 1 <= sq e < nextSeq s) (retained s).

(** What a store may do between two reads: append entries numbered by the
    counter, or be cleared. *)
Inductive evolves : t E → t E → Prop :=
  | ev_refl s : evolves s s
  | ev_push s s' e : evolves s s' → sq e = nextSeq s' → nextSeq s' < max_uint64 → evolves s (push e (bump s'))
  | ev_clear s s' zero : evolves s s' → evolves s (clear zero s').

(** [filter.BeforeSequence > 0 && entry.Sequence >= filter.BeforeSequence] skips. *)
Definition before_cursor (cursor : Z) e : bool := negb ((0 <? cursor) && (cursor <=? sq e)).

Definition visible pass (cursor : Z) s : list E :=
  filter (λ e, before_cursor cursor e && pass e) (reverse (retained s)).

Lemma bump_numbered s e : shape s → numbered s → 1 <= nextSeq s < max_uint64 → sq e = nextSeq s →
  numbered (push e (bump s)).
Proof.
  intros Hs [H1 H2] Hn He. unfold numbered. rewrite push_retained by by apply bump_shape. rewrite bump_retained.
  assert (nextSeq (push e (bump s)) = nextSeq s + 1) as ->.
  { rewrite push_nextSeq. apply bump_nextSeq; lia. }
  set (k := Z.to_nat _). assert (StronglySorted (λ a b, sq a < sq b) (retained s ++ [e])
    ∧ Forall (λ x, 1 <= sq x < nextSeq s + 1) (retained s ++ [e])) as [Hs1 Hs2].
  - split.
    + clear - H1 H2 He. induction H1 as [|a l Hl IH Ha]; simpl; [repeat constructor|].
      inversion_clear H2 as [|? ? Ha2 Hl2]. constructor; [by apply IH|]. apply Forall_app. split; [done|]. constructor; [lia|done].
    + apply Forall_app. split; [|constructor; [lia|done]]. eapply Forall_impl; [done|]. simpl. lia.
  - split; [|by apply Forall_drop]. rewrite <- (take_drop k (retained s ++ [e])) in Hs1.
    by apply StronglySorted_app_1_r in Hs1.
Qed.

Lemma evolves_inv s s' : evolves s s' → shape s → numbered s → 1 <= nextSeq s <= max_uint64 →
  shape s' ∧ numbered s' ∧ nextSeq s <= nextSeq s' <= max_uint64.
Proof.
  induction 1 as [s|s s' e H IH He Hn|s s' zero H IH]; intros Hs Hnum Hb; [split_and!; (done || lia)|..];
    destruct (IH Hs Hnum Hb) as (H1 & H2 & H3).
  - split_and!; [by apply push_shape, bump_shape|apply bump_numbered; (done || lia)|..];
      rewrite push_nextSeq, bump_nextSeq; lia.
  - split_and!; [by apply clear_shape|split; constructor|..]; cbn [nextSeq clear]; lia.
Qed.

Lemma evolves_capacity s s' : evolves s s' → capacity s' = capacity s.
Proof. induction 1 as [s|s s' e H IH _ _|s s' zero H IH]; [done|by rewrite push_capacity|done]. Qed.

(** The old entries a store still has are the newest of them, unchanged. *)
Lemma evolves_old s s' k : evolves s s' → shape s → numbered s → 1 <= nextSeq s <= max_uint64 → k <= nextSeq s →
  filter (λ e, sq e < k) (retained s') `suffix_of` filter (λ e, sq e < k) (retained s).
Proof.
  intros H Hs Hn Hb Hk. induction H as [s|s s' e H IH He Hm|s s' zero H IH]; [done|..].
  - destruct (evolves_inv s s' H Hs Hn Hb) as (H1 & H2 & H3).
    rewrite push_retained by by apply bump_shape. rewrite bump_retained. etrans; [|by apply IH].
    set (d := Z.to_nat _). exists (filter (λ e, sq e < k) (take d (retained s' ++ [e]))).
    rewrite <- filter_app, take_drop, filter_app, filter_cons, decide_False by lia. by rewrite app_nil_r.
  - rewrite clear_retained. exists (filter (λ e, sq e < k) (retained s)). by rewrite app_nil_r.
Qed.

(** Entries newest first, one after the other below. *)
Definition descending : list E → Prop := StronglySorted (λ a b, sq b < sq a).

Lemma ascending_reverse (l : list E) : StronglySorted (λ a b, sq a < sq b) l → descending (reverse l).
Proof.
  unfold descending. induction 1 as [|a l Hl IH Ha]; [constructor|]. rewrite reverse_cons.
  assert (Forall (λ x, sq a < sq x) (reverse l)) as Hr by by rewrite reverse_Permutation.
  clear - IH Hr. induction IH as [|b k Hk IH Hb]; simpl; [repeat constructor|]. inversion_clear Hr.
  constructor; [by apply IH|]. apply Forall_app. split; [done|]. by constructor.
Qed.

Lemma descending_filter (P : E → Prop) `{DP : ∀ x, Decision (P x)} (l : list E) : descending l → descending (filter P l).
Proof.
  unfold descending. induction 1 as [|a l Hl IH Ha]; [constructor|]. rewrite filter_cons. case_decide; [|done].
  constructor; [done|]. apply Forall_forall. intros x Hx. apply list_elem_of_filter in Hx as [_ Hx].
  by apply (proj1 (Forall_forall _ _) Ha).
Qed.

Lemma descending_below (l : list E) n e : descending l → last (take n l) = Some e →
  filter (λ x, sq x < sq e) l = drop n l.
Proof.
  intros Hd He. rewrite <- (take_drop n l) at 1. rewrite filter_app.
  rewrite <- (take_drop n l) in Hd. apply last_Some in He as [k Hk]. rewrite Hk in Hd |- *.
  rewrite filter_none.
  - apply filter_all. intros x Hx. unfold descending in Hd. rewrite <- app_assoc in Hd.
    apply StronglySorted_app_1_r in Hd. simpl in Hd. inversion_clear Hd as [|? ? _ Hf].
    by apply (proj1 (Forall_forall _ _) Hf).
  - intros x Hx. apply elem_of_app in Hx as [Hx|Hx]; [|apply list_elem_of_singleton in Hx as ->; lia].
    unfold descending in Hd. apply StronglySorted_app_1_l in Hd. clear - Hd Hx.
    induction k as [|a k IH]; [by apply not_elem_of_nil in Hx|]. simpl in Hd. inversion_clear Hd as [|? ? Hk Hf].
    apply elem_of_cons in Hx as [->|Hx]; [|by apply IH]. apply Forall_app in Hf as [_ Hf]. inversion_clear Hf. lia.
Qed.

Lemma visible_descending pass c s : numbered s → descending (visible pass c s).
Proof. intros [H _]. by apply descending_filter, ascending_reverse. Qed.

Lemma visible_elem pass c s e : e ∈ visible pass c s ↔ before_cursor c e = true ∧ pass e = true ∧ e ∈ retained s.
Proof.
  unfold visible. rewrite list_elem_of_filter, elem_of_reverse, Is_true_true, andb_true_iff. tauto.
Qed.

(** What is visible below the last entry of a page is what the page left. *)
Lemma visible_below pass c s n e : numbered s → 1 <= nextSeq s → last (take n (visible pass c s)) = Some e →
  visible pass (sq e) s = drop n (visible pass c s).
Proof.
  intros Hn Hb He. pose proof (visible_descending pass c s Hn) as Hd.
  rewrite <- (descending_below _ n e Hd He). unfold visible.
  assert (e ∈ visible pass c s) as Hv.
  { apply last_Some in He as [k Hk]. rewrite <- (take_drop n (visible pass c s)), Hk. set_solver. }
  apply visible_elem in Hv as (Hc & _ & Hr). pose proof (proj1 (Forall_forall _ _) (proj2 Hn) e Hr) as Hq. cbv beta in Hq.
  rewrite list_filter_filter. apply list_filter_iff. intros x. unfold before_cursor in *.
  rewrite !Is_true_true, !andb_true_iff, !negb_true_iff, !andb_false_iff, !Z.ltb_ge, !Z.leb_gt in *.
  clear He Hr Hd. intuition lia.
Qed.

Lemma visible_filter pass k s : 1 <= k → visible pass k s = filter (λ x, Is_true (pass x)) (reverse (filter (λ x, sq x < k) (retained s))).
Proof.
  intros Hk. unfold visible. rewrite <- filter_reverse, list_filter_filter. apply list_filter_iff. intros x.
  unfold before_cursor. rewrite !Is_true_true, andb_true_iff, negb_true_iff, andb_false_iff, Z.ltb_ge, Z.leb_gt. split; [|tauto].
  intros [[H|H] H']; (done || lia).
Qed.

Lemma visible_next pass c s s' n e : evolves s s' → shape s → numbered s → 1 <= nextSeq s <= max_uint64 →
  last (take n (visible pass c s)) = Some e →
  visible pass (sq e) s' `prefix_of` drop n (visible pass c s)
  ∧ ∀ x, x ∈ drop n (visible pass c s) → x ∈ retained s' → x ∈ visible pass (sq e) s'.
Proof.
  intros Hev Hs Hn Hb He. assert (e ∈ retained s) as Hr.
  { apply last_Some in He as [k Hk]. assert (e ∈ visible pass c s) as Hv; [|by apply visible_elem in Hv as (_ & _ & ?)].
    rewrite <- (take_drop n (visible pass c s)), Hk. set_solver. }
  pose proof (proj1 (Forall_forall _ _) (proj2 Hn) e Hr) as Hq. cbv beta in Hq.
  rewrite <- (visible_below pass c s n e) by (done || lia). split.
  - rewrite !visible_filter by lia. destruct (evolves_old s s' (sq e) Hev Hs Hn Hb ltac:(lia)) as [k ->].
    rewrite reverse_app, filter_app. by eexists.
  - intros x Hx Hx'. apply visible_elem in Hx as (H1 & H2 & _). apply visible_elem. auto.
Qed.

(** An entry that is still there later was there all along. *)
Lemma evolves_back s s' x : evolves s s' → shape s → numbered s → 1 <= nextSeq s <= max_uint64 →
  sq x < nextSeq s → x ∈ retained s' → x ∈ retained s.
Proof.
  intros Hev Hs Hn Hb Hx Hr. destruct (evolves_old s s' (nextSeq s) Hev Hs Hn Hb ltac:(lia)) as [k Hk].
  assert (x ∈ filter (λ e, sq e < nextSeq s) (retained s)) as Hf; [|by apply list_elem_of_filter in Hf as [_ Hf]].
  rewrite Hk, elem_of_app. right. by apply list_elem_of_filter.
Qed.

(** A view of entries below a number that was already given does not grow. *)
Lemma visible_frozen pass c k s s' : evolves s s' → shape s → numbered s → 1 <= nextSeq s <= max_uint64 →
  k <= nextSeq s → (∀ e, pass e = true → sq e < k) →
  visible pass c s' `prefix_of` visible pass c s
  ∧ ∀ x, x ∈ visible pass c s → x ∈ retained s' → x ∈ visible pass c s'.
Proof.
  intros Hev Hs Hn Hb Hk Hp. split; [|intros x (H1 & H2 & _)%visible_elem Hx; by apply visible_elem].
  assert (∀ s, visible pass c s = filter (λ e, Is_true (before_cursor c e && pass e)) (reverse (filter (λ e, sq e < k) (retained s)))) as G.
  { intros s0. unfold visible. rewrite <- filter_reverse, list_filter_filter. apply list_filter_iff. intros e.
    rewrite Is_true_true, andb_true_iff. naive_solver. }
  rewrite !G. destruct (evolves_old s s' k Hev Hs Hn Hb Hk) as [r ->]. rewrite reverse_app, filter_app. by eexists.
Qed.

(** A reader's session: the stores it finds at its successive reads. *)
Fixpoint session s (later : list (t E)) : Prop :=
  match later with [] => True | s' :: later' => evolves s s' ∧ session s' later' end.

Lemma session_last s later : session s later → shape s → numbered s → 1 <= nextSeq s <= max_uint64 →
  ∀ x, sq x < nextSeq s → x ∈ retained (default s (last later)) → x ∈ retained s.
Proof.
  revert s. induction later as [|s' later IH]; intros s Hses Hs Hn Hb x Hx Hr; [done|]. destruct Hses as [Hev Hses].
  destruct (evolves_inv s s' Hev Hs Hn Hb) as (H1 & H2 & H3).
  apply (evolves_back s s'); [done..|]. apply IH; [done|done|done|lia|lia|].
  rewrite last_cons in Hr. by destruct (last later).
Qed.

(** One page and what the pages after it give: together still a prefix of what
    was visible, and complete when the later pages are. *)
Lemma page_step pass c s s' later n e rest :
  session s (s' :: later) → shape s → numbered s → 1 <= nextSeq s <= max_uint64 →
  last (take n (visible pass c s)) = Some e →
  rest `prefix_of` visible pass (sq e) s' →
  take n (visible pass c s) ++ rest `prefix_of` visible pass c s
  ∧ ((∀ x, x ∈ visible pass (sq e) s' → x ∈ retained (default s' (last later)) → x ∈ rest) →
     ∀ x, x ∈ visible pass c s → x ∈ retained (default s (last (s' :: later))) → x ∈ take n (visible pass c s) ++ rest).
Proof.
  intros [Hev Hses] Hs Hn Hb He Hrest. destruct (visible_next pass c s s' n e Hev Hs Hn Hb He) as [Hp Hin].
  destruct (evolves_inv s s' Hev Hs Hn Hb) as (H1 & H2 & H3). split.
  - rewrite <- (take_drop n (visible pass c s)) at 2. apply prefix_app. by etrans.
  - intros Hall x Hx Hl. assert (x ∈ retained (default s' (last later))) as Hl' by (rewrite last_cons in Hl; by destruct (last later)).
    rewrite elem_of_app. pose proof Hx as Hx0. rewrite <- (take_drop n (visible pass c s)), elem_of_app in Hx.
    destruct Hx as [Hx|Hx]; [by left|right]. apply Hall; [|done]. apply Hin; [done|].
    apply (session_last s' later); try (done || lia). apply visible_elem in Hx0 as (_ & _ & Hr).
    pose proof (proj1 (Forall_forall _ _) (proj2 Hn) x Hr) as Hq. cbv beta in Hq. lia.
Qed.

End paging.
End ring.
End Ring.
