(* ===== verification/AccessLog.v ===== *)
(** * The access log of EdgeProxy: apps/edgeproxy/internal/accesslog/store.go

    Entries, their normalisation, and the bounded store: [Append], [Query],
    [Clear], [Stats].  A method runs under the store's mutex and is one step;
    [now] is the time it reads.  RFC 3339 times are the class [RFC3339]. *)

From stdpp Require Import sorting.
From S2P Require Import Prelude GoStr GoCodec GoText GoFloat Ring.

Module AccessLog.

Definition defaultMaxTextLength : Z := 2048.
Definition maxEntryTags : Z := 32.

Record Entry := mkEntry {
  Sequence : Z; Timestamp : str; Level : str; Event : str; Message : str; RequestID : str; ClientIP : str;
  Method : str; Host : str; Path : str; Query_ : str; Route : str; Status : Z; StatusClass : str;
  BytesIn : Z; BytesOut : Z; DurationMS : float64; CacheStatus : str; Upstream : str; UpstreamStatus : Z;
  UpstreamDurationMS : float64; UpstreamCalls : Z; Attempt : Z; Retries : Z; Retry : bool; ProxyError : bool;
  Timeout : bool; Canceled : bool; Healthy : option bool; Error : str; UserAgent : str; Tags : list str }.

Definition zero_entry : Entry :=
  mkEntry 0 [] [] [] [] [] [] [] [] [] [] [] 0 [] 0 0 f_zero [] [] 0 f_zero 0 0 0 false false false false None [] [] [].

Record Filter := mkFilter {
  f_route : str; f_client : str; f_upstream : str; f_request : str; f_method : str; f_event : str; f_level : str;
  f_cache : str; f_status : Z; f_class : str; f_min_duration : float64; f_since : time; f_until : time;
  f_before : Z; f_search : str; f_limit : Z }.

Record QueryResult := mkResult {
  GeneratedAt : str; Capacity : Z; Retained : Z; Dropped : Z; OldestSequence : Z; NewestSequence : Z;
  Returned : Z; HasMore : bool; NextBeforeSequence : Z; AppliedFilters : gmap str any; Entries : list Entry }.

Record Stats := mkStats {
  s_enabled : bool; s_capacity : Z; s_retained : Z; s_dropped : Z; s_oldest : Z; s_newest : Z }.

(** A [*Store]: [None] is nil. *)
Abbreviation Store := (Ring.t Entry).

Definition statusClass (status : Z) : str :=
  if (status <? 100) || (599 <? status) then [] else chr (48 + status / 100) :: lit "xx".

Definition New (capacity : Z) : Store := Ring.make zero_entry (if capacity <=? 0 then 1 else capacity).

Section log.
Context {U : Unicode} {T : RFC3339}.

(** ** Normalisation *)

(** [tags] of the loop, and the tag [raw]; [seen] has the elements of [tags]. *)
Definition tag_step (tags : list str) (raw : str) : list str :=
  let tag := truncate_text (to_lower (trim_space raw)) 64 in
  if tag =?s [] then tags else if bool_decide (tag ∈ tags) then tags else tags ++ [tag].

Definition normalize_tags (tags : list str) : list str :=
  if 0 <? len tags then sort_strings (foldl tag_step [] (take (Z.to_nat maxEntryTags) tags)) else tags.

Definition clip (s : str) (n : Z) : str := truncate_text (trim_space s) n.
Definition clip_upper (s : str) (n : Z) : str := truncate_text (to_upper (trim_space s)) n.
Definition non_negative (f : float64) : float64 := if flt f f_zero then f_zero else f.

Definition normalize (now : time) (e : Entry) : Entry :=
  let ts := clip (Timestamp e) 64 in
  let level := clip_upper (Level e) 16 in
  mkEntry (Sequence e)
    (match parse_rfc3339 ts with Some _ => ts | None => format_rfc3339 now end)
    (if level =?s [] then lit "INFO" else level)
    (clip (Event e) 128)
    (clip (Message e) defaultMaxTextLength)
    (clip (RequestID e) 256)
    (clip (ClientIP e) 256)
    (clip_upper (Method e) 32)
    (clip (Host e) 512)
    (clip (Path e) defaultMaxTextLength)
    (clip (Query_ e) defaultMaxTextLength)
    (clip (Route e) 256)
    (Status e)
    (statusClass (if Status e =? 0 then UpstreamStatus e else Status e))
    (BytesIn e) (BytesOut e) (non_negative (DurationMS e))
    (clip_upper (CacheStatus e) 32)
    (clip (Upstream e) defaultMaxTextLength)
    (UpstreamStatus e) (non_negative (UpstreamDurationMS e)) (UpstreamCalls e) (Attempt e) (Retries e) (Retry e)
    (ProxyError e) (Timeout e) (Canceled e) (Healthy e)
    (clip (Error e) defaultMaxTextLength)
    (clip (UserAgent e) 512)
    (normalize_tags (Tags e)).

Definition with_sequence (n : Z) (e : Entry) : Entry :=
  mkEntry n (Timestamp e) (Level e) (Event e) (Message e) (RequestID e) (ClientIP e) (Method e) (Host e) (Path e)
    (Query_ e) (Route e) (Status e) (StatusClass e) (BytesIn e) (BytesOut e) (DurationMS e) (CacheStatus e)
    (Upstream e) (UpstreamStatus e) (UpstreamDurationMS e) (UpstreamCalls e) (Attempt e) (Retries e) (Retry e)
    (ProxyError e) (Timeout e) (Canceled e) (Healthy e) (Error e) (UserAgent e) (Tags e).

(** ** The store *)

Definition Append (now : time) (entry : Entry) (s : option Store) : Entry * option Store :=
  match s with
  | None => (entry, None)
  | Some s =>
      let entry := with_sequence (Ring.nextSeq s) (normalize now entry) in
      (entry, Some (Ring.push entry (Ring.bump s)))
  end.

(** A filter's string field selects unless it is empty. *)
Definition unless_empty (f : str) (b : bool) : bool := (f =?s []) || b.

Definition haystack (e : Entry) : str :=
  to_lower (join " " [Event e; Message e; RequestID e; ClientIP e; Method e; Host e; Path e; Query_ e; Route e;
                      CacheStatus e; Upstream e; Error e; UserAgent e]).

Definition matches (e : Entry) (f : Filter) (searchLower statusClassLower : str) : bool :=
  unless_empty (f_route f) (equal_fold (Route e) (f_route f))
  && unless_empty (f_client f) (equal_fold (ClientIP e) (f_client f))
  && unless_empty (f_upstream f) (Upstream e =?s f_upstream f)
  && unless_empty (f_request f) (RequestID e =?s f_request f)
  && unless_empty (f_method f) (equal_fold (Method e) (f_method f))
  && unless_empty (f_event f) (equal_fold (Event e) (f_event f))
  && unless_empty (f_level f) (equal_fold (Level e) (f_level f))
  && unless_empty (f_cache f) (equal_fold (CacheStatus e) (f_cache f))
  && negb ((0 <? f_status f) && negb (Status e =? f_status f) && negb (UpstreamStatus e =? f_status f))
  && unless_empty statusClassLower
       ((StatusClass e =?s statusClassLower) || (statusClass (UpstreamStatus e) =?s statusClassLower))
  && negb (flt f_zero (f_min_duration f) && flt (DurationMS e) (f_min_duration f)
           && flt (UpstreamDurationMS e) (f_min_duration f))
  && match parse_rfc3339 (Timestamp e) with
     | Some t => negb (negb (time_is_zero (f_since f)) && time_before t (f_since f))
                 && negb (negb (time_is_zero (f_until f)) && time_after t (f_until f))
     | None => true
     end
  && unless_empty searchLower (contains (haystack e) searchLower).

Definition put_if (b : bool) (key : string) (v : any) (m : gmap str any) : gmap str any :=
  if b then <[lit key := v]> m else m.
Definition put_str (key : string) (f v : str) : gmap str any → gmap str any := put_if (negb (f =?s [])) key (AnyStr v).

Definition appliedFilters (f : Filter) : gmap str any :=
  put_str "q" (f_search f) (f_search f)
  $ put_if (0 <? f_before f) "before_sequence" (AnyInt (f_before f))
  $ put_if (negb (time_is_zero (f_until f))) "until" (AnyStr (format_rfc3339 (f_until f)))
  $ put_if (negb (time_is_zero (f_since f))) "since" (AnyStr (format_rfc3339 (f_since f)))
  $ put_if (flt f_zero (f_min_duration f)) "min_duration_ms" (AnyFloat (f_min_duration f))
  $ put_str "status_class" (f_class f) (to_lower (f_class f))
  $ put_if (0 <? f_status f) "status" (AnyInt (f_status f))
  $ put_str "cache" (f_cache f) (to_upper (f_cache f))
  $ put_str "level" (f_level f) (to_upper (f_level f))
  $ put_str "event" (f_event f) (f_event f)
  $ put_str "method" (f_method f) (to_upper (f_method f))
  $ put_str "request_id" (f_request f) (f_request f)
  $ put_str "upstream" (f_upstream f) (f_upstream f)
  $ put_str "client_ip" (f_client f) (f_client f)
  $ put_str "route" (f_route f) (f_route f)
  $ <[lit "limit" := AnyInt (f_limit f)]> ∅.

Definition with_limit (limit : Z) (f : Filter) : Filter :=
  mkFilter (f_route f) (f_client f) (f_upstream f) (f_request f) (f_method f) (f_event f) (f_level f) (f_cache f)
    (f_status f) (f_class f) (f_min_duration f) (f_since f) (f_until f) (f_before f) (f_search f) limit.

(** The sequence number of an entry that is there, 0 of one that is not. *)
Definition sequence_of (e : option Entry) : Z := default 0 (Sequence <$> e).

(** What the loop of [Query] keeps. *)
Definition selects (f : Filter) (e : Entry) : bool :=
  matches e f (to_lower (trim_space (f_search f))) (to_lower (trim_space (f_class f))).

Definition Query (now : time) (filter : Filter) (s : option Store) : QueryResult :=
  match s with
  | None => mkResult (format_rfc3339 now) 0 0 0 0 0 0 false 0 ∅ []
  | Some s =>
      let filter := if f_limit filter <=? 0 then with_limit 100 filter else filter in
      let '(es, more) :=
        Ring.scan_back (λ e, Ring.before_cursor Sequence (f_before filter) e && selects filter e) (f_limit filter) s
          (Z.to_nat (Ring.count s)) [] in
      mkResult (format_rfc3339 now) (Ring.capacity s) (Ring.count s) (Ring.dropped s)
        (if 0 <? Ring.count s then sequence_of (Ring.oldest s) else 0)
        (if 0 <? Ring.count s then sequence_of (Ring.newest s) else 0)
        (len es) more (if more && (0 <? len es) then sequence_of (last es) else 0)
        (appliedFilters filter) es
  end.

Definition Clear (s : option Store) : Z * option Store :=
  match s with
  | None => (0, None)
  | Some s => (Ring.count s, Some (Ring.clear zero_entry s))
  end.

Definition Stats_ (s : option Store) : Stats :=
  match s with
  | None => mkStats false 0 0 0 0 0
  | Some s =>
      mkStats true (Ring.capacity s) (Ring.count s) (Ring.dropped s)
        (if 0 <? Ring.count s then sequence_of (Ring.oldest s) else 0)
        (if 0 <? Ring.count s then sequence_of (Ring.newest s) else 0)
  end.

(** ** Histories

    What can happen to a store, with the entries that [Append] returned since
    the last [Clear]. *)

Inductive op := OpAppend (now : time) (e : Entry) | OpClear.

Definition apply_op (st : option Store * list Entry) (o : op) : option Store * list Entry :=
  match o with
  | OpAppend now e => let '(e', s') := Append now e st.1 in (s', st.2 ++ [e'])
  | OpClear => (snd (Clear st.1), [])
  end.
Definition run (ops : list op) (st : option Store * list Entry) : option Store * list Entry := foldl apply_op st ops.

Definition started (st : option Store * list Entry) (cap : Z) (n : Z) : Prop :=
  ∃ s, st.1 = Some s ∧ Ring.shape s ∧ Ring.numbered Sequence s ∧ 1 <= Ring.nextSeq s <= n
       ∧ Ring.capacity s = cap ∧ Ring.retained s = Ring.newest_of cap st.2.

Lemma apply_op_started st o cap n : n < max_uint64 → started st cap n → started (apply_op st o) cap (n + 1).
Proof.
  intros Hn (s & Hst & H1 & H2 & H3 & H4 & H5). destruct st as [so h]. cbn [fst snd] in *. subst so.
  pose proof (Ring.shape_cap _ H1) as Hc.
  destruct o as [now e|]; unfold started; cbn [apply_op Append Clear fst snd]; eexists; (split; [done|]).
  - split_and!.
    + by apply Ring.push_shape, Ring.bump_shape.
    + apply Ring.bump_numbered; (done || lia).
    + rewrite Ring.push_nextSeq, Ring.bump_nextSeq; lia.
    + rewrite Ring.push_nextSeq, Ring.bump_nextSeq; lia.
    + by rewrite Ring.push_capacity.
    + rewrite <- H4 in *. by apply (Ring.push_newest _ (Ring.bump s)); [apply Ring.bump_shape|].
  - split_and!; cbn [Ring.nextSeq Ring.clear]; try lia; [by apply Ring.clear_shape|split; constructor|done|done].
Qed.

Lemma run_started ops st cap n : n + len ops <= max_uint64 → started st cap n → started (run ops st) cap (n + len ops).
Proof.
  revert st n. induction ops as [|o ops IH]; intros st n Hn Hs; [by rewrite len_nil, Z.add_0_r|].
  rewrite len_cons in *. pose proof (len_nonneg ops). cbn [run foldl]. replace (n + (1 + len ops)) with (n + 1 + len ops) by lia.
  apply IH; [lia|]. apply apply_op_started; [lia|done].
Qed.

Definition store_capacity (capacity : Z) : Z := if capacity <=? 0 then 1 else capacity.

Lemma New_started capacity : started (Some (New capacity), []) (store_capacity capacity) 1.
Proof.
  unfold New, store_capacity. assert (0 < if capacity <=? 0 then 1 else capacity) as Hc by (case_match; lia).
  eexists. split; [done|]. split_and!; [by apply Ring.make_shape|split; constructor|done|done|done|].
  by rewrite Ring.make_retained.
Qed.

(** The limit a query works with. *)
Definition effective_limit (f : Filter) : Z := if f_limit f <=? 0 then 100 else f_limit f.

(** The entries a query could return, newest first. *)
Definition answer (f : Filter) (retained : list Entry) : list Entry :=
  filter (λ e, Ring.before_cursor Sequence (f_before f) e && selects f e) (reverse retained).

Lemma Query_spec now f s : Ring.shape s →
  let r := Query now f (Some s) in
  let all := answer f (Ring.retained s) in
  Entries r = take (Z.to_nat (effective_limit f)) all
  ∧ HasMore r = (effective_limit f <? len all)
  ∧ NextBeforeSequence r = (if HasMore r then sequence_of (last (Entries r)) else 0)
  ∧ OldestSequence r = sequence_of (head (Ring.retained s))
  ∧ NewestSequence r = sequence_of (last (Ring.retained s)).
Proof.
  intros Hs. cbv zeta. unfold Query. set (f' := if f_limit f <=? 0 then with_limit 100 f else f).
  assert (f_limit f' = effective_limit f ∧ 0 < f_limit f' ∧ answer f' = answer f) as (Hl & Hp & Ha).
  { subst f'. unfold effective_limit. destruct (Z.leb_spec (f_limit f) 0); repeat split; try done. }
  rewrite (Ring.scan_back_all _ _ _ Hs) by lia. cbv zeta. rewrite <- Hl.
  change (filter _ (reverse (Ring.retained s))) with (answer f' (Ring.retained s)). rewrite Ha.
  cbn [Entries HasMore NextBeforeSequence OldestSequence NewestSequence].
  split_and!; [done|done|..].
  - destruct (f_limit f' <? len _) eqn:E; [|done]. apply Z.ltb_lt in E. destruct (Z.ltb_spec 0 (len (take (Z.to_nat (f_limit f')) (answer f (Ring.retained s))))) as [|Hz]; [done|].
    exfalso. unfold len in *. rewrite length_take in Hz. lia.
  - pose proof (Ring.retained_length s Hs) as Hr. destruct (Z.ltb_spec 0 (Ring.count s)) as [Hc|Hc].
    + rewrite Ring.oldest_retained by done. by destruct (Ring.retained s).
    + destruct (Ring.retained s) as [|x l]; [done|]. rewrite len_cons in Hr. pose proof (len_nonneg l). lia.
  - pose proof (Ring.retained_length s Hs) as Hr. destruct (Z.ltb_spec 0 (Ring.count s)) as [Hc|Hc].
    + by rewrite Ring.newest_retained.
    + destruct (Ring.retained s) as [|x l]; [done|]. rewrite len_cons in Hr. pose proof (len_nonneg l). lia.
Qed.

(** C21: The store refines the list of everything logged since it was last
    cleared: after any appends and clears it holds the newest [capacity]
    entries of that list, a query returns the first [limit] of those that pass
    the filter, newest first, says exactly whether there are more and where to
    continue, and reports the oldest and the newest sequence number held. *)
Theorem log_refines capacity ops now f : len ops < max_uint64 →
  let '(so, hist) := run ops (Some (New capacity), []) in
  let held := Ring.newest_of (store_capacity capacity) hist in
  let all := answer f held in
  let r := Query now f so in
  Entries r = take (Z.to_nat (effective_limit f)) all
  ∧ HasMore r = (effective_limit f <? len all)
  ∧ NextBeforeSequence r = (if HasMore r then sequence_of (last (Entries r)) else 0)
  ∧ OldestSequence r = sequence_of (head held) ∧ NewestSequence r = sequence_of (last held)
  ∧ Retained r = len held ∧ Returned r = len (Entries r).
Proof.
  intros Hn. pose proof (run_started ops _ _ 1 ltac:(lia) (New_started capacity)) as (s & Hst & H1 & _ & _ & _ & H5).
  destruct (run ops _) as [so hist]. cbn [fst snd] in *. subst so. cbv zeta. rewrite <- H5.
  destruct (Query_spec now f s H1) as (Q1 & Q2 & Q3 & Q4 & Q5). split_and!; [done..| |].
  - unfold Query. destruct (Ring.scan_back _ _ _ _ _). cbn [Retained]. by rewrite Ring.retained_length.
  - unfold Query. by destruct (Ring.scan_back _ _ _ _ _).
Qed.

(** ** Reading page by page *)

Definition with_before (before : Z) (f : Filter) : Filter :=
  mkFilter (f_route f) (f_client f) (f_upstream f) (f_request f) (f_method f) (f_event f) (f_level f) (f_cache f)
    (f_status f) (f_class f) (f_min_duration f) (f_since f) (f_until f) before (f_search f) (f_limit f).

Definition update (s : option Store) (ops : list op) : option Store := fst (run ops (s, [])).

(** A reader that follows [next_before_sequence] while [has_more]; the log goes
    on between its reads. *)
Fixpoint browse (now : time) (f : Filter) (s : option Store) (between : list (list op)) : list Entry :=
  let r := Query now f s in
  Entries r ++
  (if HasMore r then
     match between with
     | ops :: between => browse now (with_before (NextBeforeSequence r) f) (update s ops) between
     | [] => []
     end
   else []).

Lemma run_hist ops s h h' : fst (run ops (s, h)) = fst (run ops (s, h')).
Proof.
  revert s h h'. induction ops as [|o ops IH]; intros s h h'; [done|]. cbn [run foldl].
  destruct o; cbn [apply_op fst snd]; [destruct (Append _ _ _)|]; apply IH.
Qed.

Lemma update_evolves ops s : 1 <= Ring.nextSeq s → Ring.nextSeq s + len ops <= max_uint64 →
  ∃ s', update (Some s) ops = Some s' ∧ Ring.evolves Sequence s s'
        ∧ 1 <= Ring.nextSeq s' <= Ring.nextSeq s + len ops.
Proof.
  unfold update. induction ops as [|o ops IH] using rev_ind; intros H1 H2.
  { exists s. split_and!; [done|constructor|lia|]. rewrite len_nil. lia. }
  rewrite len_app in *. change (len [o]) with 1 in *. destruct (IH H1 ltac:(lia)) as (s' & Hu & He & Hb).
  unfold run in *. rewrite foldl_app. destruct (foldl apply_op _ ops) as [so h]. cbn [fst] in Hu. subst so.
  destruct o as [now e|]; cbn [foldl apply_op Append Clear fst snd].
  - eexists. split; [done|]. split; [by apply Ring.ev_push; [|done|lia]|].
    rewrite Ring.push_nextSeq, Ring.bump_nextSeq; lia.
  - eexists. split; [done|]. split; [by apply Ring.ev_clear|]. cbn [Ring.nextSeq Ring.clear]. lia.
Qed.

(** [len (concat between)] *)
Definition op_count (between : list (list op)) : Z := zsum len between.

Lemma evolves_session between s : 1 <= Ring.nextSeq s → Ring.nextSeq s + op_count between <= max_uint64 →
  ∃ later, Ring.session Sequence s later ∧ foldl update (Some s) between = Some (default s (last later)).
Proof.
  revert s. induction between as [|ops between IH]; intros s Hb Hm; [by exists []|].
  unfold op_count in *. rewrite zsum_cons in Hm. assert (0 <= zsum len between) by (apply zsum_nonneg; intros; apply len_nonneg).
  destruct (update_evolves ops s Hb ltac:(lia)) as (s1 & Hu & Hev & Hb1).
  destruct (IH s1) as (later & Hses & Hl); [lia..|]. exists (s1 :: later). split; [done|]. cbn [foldl]. rewrite Hu, Hl.
  rewrite last_cons. by destruct (last later).
Qed.

Lemma browse_visible now between f s :
  Ring.shape s → Ring.numbered Sequence s → 1 <= Ring.nextSeq s → Ring.nextSeq s + op_count between <= max_uint64 →
  browse now f (Some s) between `prefix_of` answer f (Ring.retained s)
  ∧ (len (answer f (Ring.retained s)) <= (len between + 1) * effective_limit f →
     ∀ s', foldl update (Some s) between = Some s' →
     ∀ x, x ∈ answer f (Ring.retained s) → x ∈ Ring.retained s' → x ∈ browse now f (Some s) between).
Proof.
  revert f s. induction between as [|ops between IH]; intros f s Hs Hn Hb Hm; cbn [browse]; cbv zeta;
    destruct (Query_spec now f s Hs) as (Q1 & Q2 & Q3 & _); cbv zeta in Q1, Q2, Q3; rewrite ?Q3, Q2, Q1; clear Q1 Q2 Q3;
    set (all := answer f (Ring.retained s)) in *;
    assert (1 <= effective_limit f) as Hl by (unfold effective_limit; destruct (Z.leb_spec (f_limit f) 0); lia);
    destruct (Z.ltb_spec (effective_limit f) (len all)) as [Hmore|Hall];
    try (rewrite app_nil_r, take_ge by (unfold len in Hall; lia); done).
  - rewrite app_nil_r. split; [apply prefix_take|]. rewrite len_nil. intros; lia.
  - unfold op_count in Hm. rewrite zsum_cons in Hm. assert (0 <= op_count between) as Hop
      by (apply zsum_nonneg; intros; apply len_nonneg). unfold op_count in Hop. pose proof (len_nonneg ops).
    destruct (update_evolves ops s Hb ltac:(lia)) as (s1 & Hu & Hev & Hb1).
    destruct (Ring.evolves_inv Sequence s s1 Hev Hs Hn) as (Hs1 & Hn1 & Hb2); [lia|].
    destruct (last (take (Z.to_nat (effective_limit f)) all)) as [e|] eqn:He; cycle 1.
    { apply last_None in He. apply (f_equal length) in He. rewrite length_take in He. unfold len in Hmore. simpl in He. lia. }
    change (sequence_of (Some e)) with (Sequence e). rewrite Hu. cbn [foldl]. rewrite Hu.
    destruct (IH (with_before (Sequence e) f) s1 Hs1 Hn1 ltac:(lia)) as [IH1 IH2]; [unfold op_count; lia|].
    change (answer (with_before (Sequence e) f) (Ring.retained s1))
      with (Ring.visible Sequence (selects f) (Sequence e) s1) in *.
    subst all. change (answer f (Ring.retained s)) with (Ring.visible Sequence (selects f) (f_before f) s) in *.
    destruct (evolves_session between s1) as (later & Hses & Hlast); [lia|unfold op_count; lia|].
    destruct (Ring.page_step Sequence (selects f) (f_before f) s s1 later (Z.to_nat (effective_limit f)) e _
      (conj Hev Hses) Hs Hn ltac:(lia) He IH1) as [P1 P2].
    split; [done|]. intros Hlen s' Hs'. rewrite Hlast in Hs'. injection Hs' as <-. intros x Hx Hx'. apply P2; [|done|].
    + intros y Hy Hy'. refine (IH2 _ _ Hlast y Hy Hy').
      destruct (Ring.visible_next Sequence (selects f) (f_before f) s s1 _ e Hev Hs Hn ltac:(lia) He) as [Hp _].
      apply prefix_length in Hp. rewrite length_drop in Hp. change (effective_limit (with_before _ f)) with (effective_limit f).
      rewrite len_cons in Hlen. unfold len in *. nia.
    + rewrite last_cons. by destruct (last later).
Qed.
(** Paging through the log loses and repeats nothing: whatever is appended or
    cleared between the reads, the pages one after the other are a prefix of
    what one unlimited query would have returned at the start (so newest first
    and without duplicates), and an entry of it that they lack is one that the
    store has dropped by the end. *)
Theorem browse_exact capacity ops now f between : len ops + op_count between < max_uint64 →
  let '(so, hist) := run ops (Some (New capacity), []) in
  let held := Ring.newest_of (store_capacity capacity) hist in
  let pages := browse now f so between in
  pages `prefix_of` answer f held
  ∧ (len (answer f held) <= (len between + 1) * effective_limit f →
     ∀ s', foldl update so between = Some s' →
     ∀ x, x ∈ answer f held → x ∈ Ring.retained s' → x ∈ pages).
Proof.
  intros Hn. assert (0 <= op_count between) by (apply zsum_nonneg; intros; apply len_nonneg).
  pose proof (run_started ops _ _ 1 ltac:(lia) (New_started capacity)) as (s & Hst & H1 & H2 & H3 & _ & H5).
  destruct (run ops _) as [so hist]. cbn [fst snd] in *. subst so. cbv zeta. rewrite <- H5.
  apply browse_visible; (done || lia).
Qed.

(** ** Bounds on what is stored *)

Definition text_ok (n : Z) (s : str) : Prop := valid_utf8 s = true ∧ len s <= n.

Record entry_bounded (e : Entry) : Prop := {
  eb_time : text_ok 64 (Timestamp e) ∧ is_Some (parse_rfc3339 (Timestamp e));
  eb_level : text_ok 16 (Level e) ∧ Level e ≠ [];
  eb_short : Forall (text_ok 32) [Method e; CacheStatus e];
  eb_event : text_ok 128 (Event e);
  eb_names : Forall (text_ok 256) [RequestID e; ClientIP e; Route e];
  eb_host : Forall (text_ok 512) [Host e; UserAgent e];
  eb_long : Forall (text_ok 2048) [Message e; Path e; Query_ e; Upstream e; Error e];
  eb_class : StatusClass e = statusClass (if Status e =? 0 then UpstreamStatus e else Status e);
  eb_durations : flt (DurationMS e) f_zero = false ∧ flt (UpstreamDurationMS e) f_zero = false;
  eb_tags : Sorted str_le (Tags e) ∧ NoDup (Tags e) ∧ len (Tags e) <= 32
            ∧ ∀ t, t ∈ Tags e → text_ok 64 t ∧ t ≠ [] }.

Lemma clip_ok s n : 0 <= n → text_ok n (clip s n).
Proof. intros. destruct (truncate_text_ok (trim_space s) n). split; [done|]. unfold clip. lia. Qed.
Lemma clip_upper_ok s n : 0 <= n → text_ok n (clip_upper s n).
Proof. intros. destruct (truncate_text_ok (to_upper (trim_space s)) n). split; [done|]. unfold clip_upper. lia. Qed.

Lemma non_negative_ok f : flt (non_negative f) f_zero = false.
Proof. unfold non_negative. destruct (flt f f_zero) eqn:Hf; [by vm_compute|done]. Qed.

Lemma tags_ok raws tags :
  (NoDup tags ∧ ∀ t, t ∈ tags → text_ok 64 t ∧ t ≠ []) →
  let out := foldl tag_step tags raws in
  (NoDup out ∧ ∀ t, t ∈ out → text_ok 64 t ∧ t ≠ []) ∧ len out <= len tags + len raws.
Proof.
  revert tags. induction raws as [|raw raws IH]; intros tags Ht; cbv zeta; cbn [foldl]; [rewrite len_nil; split; [done|lia]|].
  rewrite len_cons. unfold tag_step at 2 4 6. set (tag := truncate_text _ 64).
  pose proof (truncate_text_ok (to_lower (trim_space raw)) 64) as [Hv Hl]. fold tag in Hv, Hl.
  destruct (tag =?s []) eqn:E; [destruct (IH tags Ht); split; [done|lia]|].
  destruct (bool_decide_reflect (tag ∈ tags)) as [Hin|Hin]; [destruct (IH tags Ht); split; [done|lia]|].
  destruct (IH (tags ++ [tag])) as [I1 I2].
  - destruct Ht as [Hd Hf]. split.
    + apply NoDup_app. split_and!; [done|set_solver|apply NoDup_singleton].
    + intros t [Hin'|Hin']%elem_of_app; [by apply Hf|]. apply list_elem_of_singleton in Hin' as ->. split; [split; [done|lia]|].
      intros ->. unfold eqs in E. by rewrite bool_decide_eq_true_2 in E.
  - split; [done|]. rewrite len_app in I2. change (len [tag]) with 1 in I2. lia.
Qed.

Lemma normalize_tags_ok tags : let out := normalize_tags tags in
  Sorted str_le out ∧ NoDup out ∧ len out <= 32 ∧ ∀ t, t ∈ out → text_ok 64 t ∧ t ≠ [].
Proof.
  unfold normalize_tags. destruct (Z.ltb_spec 0 (len tags)) as [Hl|Hl]; cbv zeta.
  - destruct (tags_ok (take (Z.to_nat maxEntryTags) tags) []) as [[H1 H2] H3]; [split; [constructor|set_solver]|].
    rewrite len_nil in H3. unfold sort_strings. split_and!.
    + apply Sorted_merge_sort, _.
    + by rewrite merge_sort_Permutation.
    + unfold len in *. rewrite merge_sort_Permutation. rewrite length_take in H3. unfold maxEntryTags in *. lia.
    + intros t. rewrite merge_sort_Permutation. apply H2.
  - assert (tags = []) as -> by (apply len_zero; pose proof (len_nonneg tags); lia).
    split_and!; [constructor|constructor|done|set_solver].
Qed.

(** The first instant of the year 10000; times before it are formatted with a
    four-digit year. *)
Definition year_10000 : time := 3652059 * 86400 * second.

(** What the store relies on: formatting a time gives a timestamp that parses. *)
Definition rfc3339_law : Prop :=
  ∀ t, 0 <= t < year_10000 → is_Some (parse_rfc3339 (format_rfc3339 t)) ∧ text_ok 64 (format_rfc3339 t).

Lemma normalize_bounded now e : rfc3339_law → 0 <= now < year_10000 → entry_bounded (normalize now e).
Proof.
  intros HL Hnow. destruct (HL now Hnow) as [L1 L2]. split; cbn [normalize Timestamp Level Method CacheStatus Event
    RequestID ClientIP Route Host UserAgent Message Path Query_ Upstream Error StatusClass Status UpstreamStatus
    DurationMS UpstreamDurationMS Tags].
  - pose proof (clip_ok (Timestamp e) 64 ltac:(lia)). destruct (parse_rfc3339 (clip (Timestamp e) 64)) eqn:E; [|done].
    rewrite E. by split.
  - pose proof (clip_upper_ok (Level e) 16 ltac:(lia)).
    destruct (eqs _ []) eqn:E; [done|]. split; [done|]. intros E2. rewrite E2 in E. unfold eqs in E.
    by rewrite bool_decide_eq_true_2 in E.
  - repeat constructor; by apply clip_upper_ok.
  - by apply clip_ok.
  - repeat constructor; by apply clip_ok.
  - repeat constructor; by apply clip_ok.
  - repeat constructor; by apply clip_ok.
  - done.
  - split; apply non_negative_ok.
  - apply normalize_tags_ok.
Qed.

Definition timely (o : op) : Prop := match o with OpAppend now _ => 0 <= now < year_10000 | OpClear => True end.

Lemma with_sequence_bounded n e : entry_bounded e → entry_bounded (with_sequence n e).
Proof. by intros []. Qed.

Lemma run_bounded ops st : rfc3339_law → Forall timely ops → is_Some st.1 → Forall entry_bounded st.2 →
  Forall entry_bounded (run ops st).2.
Proof.
  intros HL Ht. revert st. induction Ht as [|o ops Ho Ht IH]; intros [so h] Hs Hh; [done|]. cbn [run foldl].
  destruct Hs as [s Hs]. cbn [fst] in Hs. subst so. destruct o as [now e|]; cbn [apply_op Append Clear fst snd]; apply IH;
    cbn [fst snd]; try done.
  apply Forall_app. split; [done|]. constructor; [|done]. by apply with_sequence_bounded, normalize_bounded.
Qed.

(** What clients send cannot make the log grow without bound: the store never
    has more than [capacity] entries, and of every entry each text is valid
    UTF-8 within a fixed length, the durations are not negative, the tags are
    at most 32, sorted, distinct and lower-case-trimmed short texts, and the
    timestamp parses. *)
Theorem store_bounded capacity ops : rfc3339_law → len ops < max_uint64 → Forall timely ops →
  ∀ s, fst (run ops (Some (New capacity), [])) = Some s →
  len (Ring.retained s) <= store_capacity capacity ∧ Forall entry_bounded (Ring.retained s).
Proof.
  intros HL Hn Ht s Hs. pose proof (run_started ops _ _ 1 ltac:(lia) (New_started capacity)) as (s' & Hst & H1 & _ & _ & H4 & H5).
  rewrite Hs in Hst. injection Hst as <-. split.
  - rewrite Ring.retained_length, <- H4 by done. by destruct H1 as [_ _ _ [_ ?]].
  - rewrite H5. apply Forall_drop, run_bounded; try done.
Qed.

End log.

(** ** A sample log *)

Section sample.

#[local] Instance sample_unicode : Unicode := unicode_ascii.
#[local] Instance sample_rfc3339 : RFC3339 :=
  {| parse_rfc3339 s := if s =?s "0001-01-01T00:00:00Z" then Some 0 else None;
     format_rfc3339 _ := lit "0001-01-01T00:00:00Z" |}.

Lemma sample_law : rfc3339_law.
Proof. intros t _. split; [by eexists|]. split; [done|vm_compute; done]. Qed.

Definition sample_entry (event : string) : Entry :=
  mkEntry 0 [] [] event [] [] [] "get" [] [] [] [] 200 [] 0 0 f_zero [] [] 0 f_zero 0 0 0 false false false false
    None [] [] (lits ["B"; "a"; " b "]).
Definition sample_ops : list op := OpAppend 7 <$> (sample_entry <$> ["one"; "two"; "two"; "one"; "two"])%string.
Definition sample_filter : Filter := mkFilter [] [] [] [] [] "TWO" [] [] 0 [] f_zero 0 0 0 [] 1.

Lemma log_refines_witness : len sample_ops < max_uint64 ∧
  Sequence <$> Entries (Query 9 sample_filter (fst (run sample_ops (Some (New 4), [])))) = [5].
Proof.
  split; [vm_compute; done|]. pose proof (log_refines 4 sample_ops 9 sample_filter ltac:(vm_compute; done)) as W.
  destruct (run sample_ops (Some (New 4), [])) as [so hist] eqn:E. destruct W as [W _]. cbn [fst]. rewrite W.
  assert (hist = snd (run sample_ops (Some (New 4), []))) as -> by by rewrite E. by vm_compute.
Defined.

Lemma browse_exact_witness : len sample_ops + op_count [sample_ops; []] < max_uint64 ∧
  browse 9 sample_filter (fst (run sample_ops (Some (New 4), []))) [sample_ops; []]
    `prefix_of` answer sample_filter (Ring.newest_of 4 (snd (run sample_ops (Some (New 4), [])))).
Proof.
  split; [vm_compute; done|].
  pose proof (browse_exact 4 sample_ops 9 sample_filter [sample_ops; []] ltac:(vm_compute; done)) as W.
  destruct (run sample_ops (Some (New 4), [])) as [so hist]. exact (proj1 W).
Defined.

Lemma store_bounded_witness : ∃ s, fst (run sample_ops (Some (New 4), [])) = Some s
  ∧ Tags <$> Ring.retained s = replicate 4 (lits ["a"; "b"]) ∧ len (Ring.retained s) <= 4.
Proof.
  eexists. split; [vm_compute; reflexivity|]. split; [by vm_compute|].
  refine (proj1 (store_bounded 4 sample_ops sample_law _ _ _ _)); [vm_compute; done| |vm_compute; reflexivity].
  repeat constructor; vm_compute; done.
Defined.

End sample.
End AccessLog.
