(* ===== verification/Generation.v ===== *)
(** * Generations of the data plane: apps/edgeproxy/internal/proxy/handler.go

    [buildState] makes the router, the client resolver and the runtime of every
    route from a configuration; [Reload] publishes them at once.  [ServeHTTP]
    takes the three under one read lock and handles a request with them.
    [url.Parse] is a parameter. *)

From S2P Require Import Prelude GoStr GoPath GoHttp NetIP NetIPFacts GoFloat GoText GoCodec Config Router ConfigValidate ConfigFacts ConfigStable CachePolicy ProxyHeaders ClientIP Upstream Cache Handler AccessLog.

Module Generation.

(** ** The state of a generation *)

Import CachePolicy ProxyHeaders Upstream Handler.

Record routeRuntime := mkRuntime {
  rt_cfg : RouteConfig; rt_pool : upstreamPool; rt_cache : option Cache.Cache; rt_forwardedForHeader : str }.

Record handlerState := mkState {
  h_router : list RouteConfig; h_routes : gmap str routeRuntime; h_clients : ClientIP.clientResolver }.

Section generation.
Context {U : Unicode} {N : NetURL} {T : HttpTime} {SH : Sha256} {FM : FloatMath}.
(** [url.Parse] as a [URL]; its [String]; the text of an error. *)
Context (parse_url : str → option URL) (url_text : URL → str) (error_text : failure → str).

Definition build_runtime (clients : ClientIP.clientResolver) (now : Z) (route : RouteConfig) : option routeRuntime :=
  pool ← newUpstreamPool parse_url route now;
  Some (mkRuntime route pool
    (if cache_enabled (cache route) then Some (Cache.New (max_entries (cache route)) (max_bytes (cache route))) else None)
    (ClientIP.header_name clients)).

(** The loop over the routes; [now] is the clock at each of them. *)
Fixpoint build_routes (clients : ClientIP.clientResolver) (now : nat → Z) (i : nat) (rs : list RouteConfig)
    (m : gmap str routeRuntime) : option (gmap str routeRuntime) :=
  match rs with
  | [] => Some m
  | r :: rs =>
      match build_runtime clients (now i) r with
      | None => None
      | Some rt => build_routes clients now (S i) rs (<[route_name r := rt]> m)
      end
  end.

Definition buildState (cfg : Config) (now : nat → Z) : option handlerState :=
  clients ← ClientIP.newClientResolver (trusted_proxy_cidrs (server cfg)) (forwarded_for_header (server cfg));
  m ← build_routes clients now 0 (routes cfg) ∅;
  Some (mkState (routes cfg) m clients).

(** [Reload]: the old generation stays when the new one cannot be built. *)
Definition Reload (cfg : Config) (now : nat → Z) (h : handlerState) : handlerState * bool :=
  match buildState cfg now with Some h' => (h', true) | None => (h, false) end.

(** ** One request *)

(** [metrics.RequestObservation] *)
Record request_observation := mkRequestObs {
  ro_status : Z; ro_canceled : bool; ro_bytesIn : Z; ro_bytesOut : Z; ro_duration : duration; ro_proxyError : bool;
  ro_retries : Z; ro_cacheStatus : str }.

Record serve_env := mkServeEnv {
  se_tls : bool;
  se_rawPath : str;                     (* req.URL.RawPath *)
  se_random : option str; se_unix : Z;  (* for a new request identifier *)
  se_replayable : bool;
  se_world : nat → attempt_env; se_finish : finish_env; se_now1 : time; se_now2 : time;
  se_meanwhile : Cache.Cache → Cache.Cache;
  se_body : option Z;                   (* the bytes read of the request's body, if it has one *)
  se_written : Z;                       (* the bytes of the response that were written *)
  se_elapsed : duration }.

Record served := mkServed {
  sv_state : handlerState; sv_reply : reply; sv_result : requestResult; sv_obs : list observation;
  sv_metrics : option (str * str * request_observation); sv_entry : option AccessLog.Entry }.

Definition sensitive (key : str) : bool :=
  let lower := to_lower key in
  existsb (contains lower)
    (lits ["token"; "secret"; "password"; "passwd"; "authorization"; "api_key"; "apikey"; "signature"]).

Definition sanitizedQuery (u : URL) : str :=
  encode_query (map_imap (λ key vs, Some (if sensitive key then [lit "[REDACTED]"] else vs)) (query_values (url_rawquery u))).

Definition durationMS (d : duration) : float64 := if d <? 0 then f_zero else fdiv (f_of_Z d) (f_of_Z millisecond).

Definition saturatingAddUint64 (left right : Z) : Z :=
  if max_uint64 - left <? right then max_uint64 else left + right.

(** The status that the capture has recorded; 0 for none. *)
Definition captured (sw : switch_env) (rep : reply) (r : requestResult) : Z :=
  match rep with
  | Reply status _ _ => status
  | TunnelReply _ => 101
  | NoReply => match r_error r, sw with Some UpgradeFailed, SwitchBroken true => 101 | _, _ => 0 end
  end.

(** The deferred function: what is counted and logged of a request. *)
Definition final_status (sw : switch_env) (rep : reply) (r : requestResult) : Z :=
  let status := captured sw rep r in
  if (status =? 0) && negb (r_clientCanceled r) then 200 else status.

Definition observed_request (e : serve_env) (rep : reply) (r : requestResult) : request_observation :=
  mkRequestObs (final_status (f_switch (se_finish e)) rep r) (r_clientCanceled r)
    (saturatingAddUint64 (default 0 (se_body e)) (r_tunnelBytesIn r))
    (saturatingAddUint64 (Z.max (se_written e) 0) (r_tunnelBytesOut r))
    (if 0 <? r_responseDuration r then r_responseDuration r else se_elapsed e) (r_proxyError r) (r_retries r) (r_cacheStatus r).

Definition log_level (status : Z) (r : requestResult) : str :=
  if r_clientCanceled r then lit "INFO"
  else if (500 <=? status) || r_proxyError r then lit "ERROR"
  else if 400 <=? status then lit "WARN" else lit "INFO".

Definition upstream_text (pool : option upstreamPool) (r : requestResult) : str :=
  match r_upstream r, pool with
  | Some i, Some p => match node_at p i with Some u => url_text (url u) | None => [] end
  | _, _ => []
  end.

Definition access_entry (e : serve_env) (req : Request) (ip id routeName : str) (pool : option upstreamPool)
    (o : request_observation) (r : requestResult) : AccessLog.Entry :=
  AccessLog.mkEntry 0 [] (log_level (ro_status o) r) "request_completed"
    (if r_clientCanceled r then lit "client request canceled" else lit "client request completed")
    id (ClientIP.clientIP (Some ip) req) (req_method req) (req_host req) (EscapedPath (se_rawPath e) (url_path (req_url req)))
    (sanitizedQuery (req_url req)) routeName (ro_status o) [] (ro_bytesIn o) (ro_bytesOut o) (durationMS (ro_duration o))
    (r_cacheStatus r) (upstream_text pool r) (r_upstreamStatus r) (durationMS (r_upstreamDuration r)) (r_upstreamCalls r)
    0 (r_retries r) false (r_proxyError r) false (r_clientCanceled r) None
    (match r_error r with Some f => error_text f | None => [] end) (header_get (req_header req) "User-Agent") (lits ["access"; "proxy"]).

(** The request after the edge's own marker is taken off, or honoured. *)
Definition cleared_of (probe : bool) (req : Request) : Request :=
  let h := header_del (req_header req) internalProbeHeader in
  let h := if probe then header_set (header_set h "Cache-Control" "no-store") "Pragma" "no-cache" else h in
  mkRequest (req_method req) (req_host req) (req_url req) h (req_remote req).

Definition unmatched : str := "__unmatched__".
Definition internalProbeResponseValue : str := "matched-v1".

(** [None] is the dereference of a nil runtime. *)
Definition ServeHTTP (e : serve_env) (req : Request) (h : handlerState) : option served :=
  let probe := ClientIP.trustedOperationalProbe req (Some (h_clients h)) in
  let req := cleared_of probe req in
  let ip := ClientIP.Resolve (Some (h_clients h)) req in
  let id := requestID (req_header req) (se_random e) (se_unix e) in
  let start w := header_set w "X-Request-ID" id in
  let finish st rep r obs pool routeName :=
    let o := observed_request e rep r in
    mkServed st rep r obs
      (if probe then None else Some (routeName, req_method req, o))
      (if probe then None else Some (access_entry e req ip id routeName pool o r)) in
  match Router.Match (h_router h) req with
  | None =>
      let rep := http_error (start ∅) 404 "no route configured for this host and path" in
      Some (finish h rep (new_result "BYPASS") [] None unmatched)
  | Some route =>
      match h_routes h !! route_name route with
      | None => None
      | Some rt =>
          let w := if probe then header_set ∅ internalProbeHeader internalProbeResponseValue else ∅ in
          let env := mkEnv req (se_replayable e) probe (se_world e) id (ClientIP.clientIP (Some ip) req) (se_tls e)
                       (rt_forwardedForHeader rt) in
          let out := handleRoute (start w) env (se_finish e) (rt_cfg rt) (se_now1 e) (se_now2 e) (se_meanwhile e)
                       (rt_pool rt) (rt_cache rt) in
          let rt' := mkRuntime (rt_cfg rt) (out_pool out) (out_cache out) (rt_forwardedForHeader rt) in
          let st := mkState (h_router h) (<[route_name route := rt']> (h_routes h)) (h_clients h) in
          Some (finish st (out_reply out) (out_result out) (out_obs out) (Some (rt_pool rt)) (route_name (rt_cfg rt)))
      end
  end.

(** ** A generation serves every request *)

(** The runtime of every route is there and is its own. *)
Record serves (c : Config) (h : handlerState) : Prop := {
  sv_router : h_router h = routes c;
  sv_routes : ∀ r, r ∈ routes c → ∃ rt, h_routes h !! route_name r = Some rt ∧ rt_cfg rt = r }.

Lemma build_routes_ok clients now i rs m : NoDup (route_name <$> rs) →
  (∀ r i, r ∈ rs → is_Some (newUpstreamPool parse_url r (now i))) →
  ∃ m', build_routes clients now i rs m = Some m'
    ∧ (∀ r, r ∈ rs → ∃ rt, m' !! route_name r = Some rt ∧ rt_cfg rt = r)
    ∧ ∀ k, k ∉ route_name <$> rs → m' !! k = m !! k.
Proof.
  revert i m. induction rs as [|r rs IH]; intros i m Hnd Hp; cbn [build_routes].
  { exists m. split_and!; [done| |done]. intros r []%not_elem_of_nil. }
  rewrite fmap_cons in Hnd. apply NoDup_cons in Hnd as [Hr Hnd]. destruct (Hp r i) as [p Ep]; [by left|].
  unfold build_runtime. rewrite Ep. cbn [mbind option_bind]. set (rt := mkRuntime _ _ _ _).
  destruct (IH (S i) (<[route_name r := rt]> m)) as (m' & E & H1 & H2); [done|intros r' j Hin; apply Hp; by right|].
  exists m'. split; [done|]. split.
  - intros r' [->|Hin]%elem_of_cons; [|by apply H1]. exists rt. split; [|done]. rewrite H2 by done. apply lookup_insert_eq.
  - intros k Hk. rewrite fmap_cons, not_elem_of_cons in Hk. destruct Hk as [Hne Hk]. rewrite H2 by done. by apply lookup_insert_ne.
Qed.

Lemma build_routes_serves clients now i rs m m' : NoDup (route_name <$> rs) → build_routes clients now i rs m = Some m' →
  (∀ r, r ∈ rs → ∃ rt, m' !! route_name r = Some rt ∧ rt_cfg rt = r) ∧ ∀ k, k ∉ route_name <$> rs → m' !! k = m !! k.
Proof.
  revert i m. induction rs as [|r rs IH]; intros i m Hnd; cbn [build_routes].
  { intros [= <-]. split; [|done]. intros r []%not_elem_of_nil. }
  unfold build_runtime. destruct (newUpstreamPool parse_url r (now i)) as [p|]; [|done]. cbn [mbind option_bind]. set (rt := mkRuntime _ _ _ _).
  rewrite fmap_cons in Hnd. apply NoDup_cons in Hnd as [Hr Hnd]. intros E. destruct (IH _ _ Hnd E) as [H1 H2]. split.
  - intros r' [->|Hin]%elem_of_cons; [|by apply H1]. exists rt. split; [|done]. rewrite H2 by done. apply lookup_insert_eq.
  - intros k Hk. rewrite fmap_cons, not_elem_of_cons in Hk. destruct Hk as [Hne Hk]. rewrite H2 by done. by apply lookup_insert_ne.
Qed.

Lemma buildState_serves c now h : NoDup (route_name <$> routes c) → buildState c now = Some h → serves c h.
Proof.
  intros Hnd. unfold buildState. destruct (ClientIP.newClientResolver _ _) as [cl|]; [|done]. cbn [mbind option_bind].
  destruct (build_routes cl now 0 (routes c) ∅) as [m|] eqn:E; [|done]. intros [= <-]. split; [done|]. by apply build_routes_serves in E as [H _].
Qed.

Lemma Match_In table req r : Router.Match table req = Some r → r ∈ table.
Proof. intros H. pose proof (Facts.Match_spec table req) as Hs. rewrite H in Hs. by apply Facts.best_max in Hs as [? _]. Qed.

Lemma ServeHTTP_serves c h e req : serves c h → ∃ out, ServeHTTP e req h = Some out ∧ serves c (sv_state out)
  ∧ ∀ en, sv_entry out = Some en →
      AccessLog.Route en = match Router.Match (routes c) req with Some r => route_name r | None => unmatched end.
Proof.
  intros [Hr Hs]. unfold ServeHTTP. rewrite Hr. set (probe := ClientIP.trustedOperationalProbe _ _).
  assert (Router.Match (routes c) (cleared_of probe req) = Router.Match (routes c) req) as -> by done.
  destruct (Router.Match (routes c) req) as [r|] eqn:Em; cycle 1.
  { eexists. split; [reflexivity|]. split; [by split|]. cbn [sv_entry]. destruct probe; [done|]. by intros en [= <-]. }
  destruct (Hs r (Match_In _ _ _ Em)) as (rt & Ert & Ecfg). rewrite Ert. eexists. split; [reflexivity|]. split.
  - split; cbn [sv_state h_router h_routes]; [done|]. intros r' Hin. destruct (decide (route_name r' = route_name r)) as [E|Hne].
    + rewrite E, lookup_insert_eq. eexists. split; [done|]. cbn [rt_cfg]. destruct (Hs r' Hin) as (rt' & H1 & H2).
      rewrite E, Ert in H1. injection H1 as ->. congruence.
    + rewrite lookup_insert_ne by done. by apply Hs.
  - cbn [sv_entry]. destruct probe; [done|]. intros en [= <-]. cbn [access_entry AccessLog.Route]. by rewrite Ecfg.
Qed.

(** Requests one after the other. *)
Fixpoint serve_all (reqs : list (serve_env * Request)) (h : handlerState) : option (list served * handlerState) :=
  match reqs with
  | [] => Some ([], h)
  | (e, req) :: reqs =>
      out ← ServeHTTP e req h;
      '(outs, h') ← serve_all reqs (sv_state out);
      Some (out :: outs, h')
  end.

Context {R : Resolve}.

(** C25: A configuration that validation accepts is a configuration that works: the
    next generation is built from it, so a reload takes effect, and no sequence
    of requests meets a route without its runtime; every logged request names the
    route that the router selects.  The one assumption: the two places where the
    code calls [url.Parse] call the same function. *)
Theorem accepted_config_serves c c' now h0 : Facts.accepted c c' →
  (∀ s, is_Some (ConfigValidate.parse_url s) → is_Some (parse_url s)) →
  ∃ h, Reload c' now h0 = (h, true) ∧ ∀ reqs, ∃ outs h', serve_all reqs h = Some (outs, h') ∧ serves c' h'
    ∧ Forall2 (λ er out, ∀ en, sv_entry out = Some en →
        AccessLog.Route en = match Router.Match (routes c') er.2 with Some r => route_name r | None => unmatched end) reqs outs.
Proof.
  intros Ha Hparse. pose proof (Facts.Validate_ok _ _ Ha) as [Hserver _ _ Hroutes Hnames _].
  destruct Hserver as (_ & _ & _ & _ & _ & _ & _ & _ & _ & [_ Hcidrs] & _).
  assert (∃ cl, ClientIP.newClientResolver (trusted_proxy_cidrs (server c')) (forwarded_for_header (server c')) = Some cl) as [cl Ecl].
  { unfold ClientIP.newClientResolver.
    assert (is_Some (mapM (λ raw, ParseCIDR (trim_space raw)) (trusted_proxy_cidrs (server c')))) as [nets ->]; [|by eexists].
    apply mapM_is_Some, Forall_forall. intros x Hx. destruct (Hcidrs x Hx) as (raw & n & En & ->).
    destruct (Stable.net_reparse raw n En) as (n' & E & _). unfold compose. rewrite E. by eexists. }
  destruct (build_routes_ok cl now 0 (routes c') ∅) as (m & Em & Hm & _).
  - apply (NoDup_fmap_1 to_lower). by rewrite <- list_fmap_compose.
  - intros r i Hin. apply (proj1 (Forall_forall _ _) Hroutes) in Hin as [_ _ _ (_ & Hups & _) _ _ _ _].
    unfold newUpstreamPool.
    match goal with |- context [mapM ?g (upstreams r)] => set (f := g) end.
    assert (is_Some (mapM f (upstreams r))) as [ns ->]; [|by eexists]. apply mapM_is_Some. eapply Forall_impl; [exact Hups|].
    intros u (_ & _ & _ & _ & parsed & Ep & _). destruct (Hparse (up_url u)) as [u' Eu]; [by eexists|]. unfold f, compose. rewrite Eu. by eexists.
  - exists (mkState (routes c') m cl). split; [unfold Reload, buildState; rewrite Ecl; cbn [mbind option_bind]; by rewrite Em|].
    assert (serves c' (mkState (routes c') m cl)) as H0 by by split. revert H0. generalize (mkState (routes c') m cl) as h.
    intros h H0 reqs. revert h H0. induction reqs as [|[e req] reqs IH]; intros h H0; cbn [serve_all].
    + eexists _, _. split; [reflexivity|]. by split; [|constructor].
    + destruct (ServeHTTP_serves c' h e req H0) as (out & -> & H1 & H2). cbn [mbind option_bind].
      destruct (IH (sv_state out) H1) as (outs & h' & -> & H3 & H4). cbn [mbind option_bind]. eexists _, _. split; [reflexivity|].
      split; [done|]. by constructor.
Qed.

End generation.

(** ** Examples *)

Section samples.
#[local] Instance sU : Unicode := unicode_ascii.
#[local] Instance sN : NetURL := CachePolicy.sample_url.
#[local] Instance sT : HttpTime := CachePolicy.sample_time.
#[local] Instance sS : Sha256 := CachePolicy.sample_sha.
#[local] Instance sF : FloatMath := Upstream.sample_fm.

Definition sample_parse (s : str) : option URL := Some (mkURL "http" [] s [] [] false).
Definition sample_text (u : URL) : str := url_host u.
Definition sample_error (f : failure) : str := [].

Definition sample_old : handlerState := mkState [] ∅ (ClientIP.mkResolver [] []).

(** The two routes of the sample configuration, and their runtimes. *)
Definition sample_state : handlerState := (Reload sample_parse Facts.sample_valid (λ _, 0) sample_old).1.

Definition sample_serve : serve_env :=
  mkServeEnv false [] None 7 true sample_world (sample_fe false []) 0 0 id (Some 3) 2 5.
Definition sample_request (query : string) : Request :=
  mkRequest "GET" "www.shop.test" (mkURL [] [] [] "/api/items" query false) ∅ "1.2.3.4:5".

Lemma accepted_config_serves_witness :
  @Facts.accepted sU Facts.sample_resolve Facts.sample_config Facts.sample_valid
  ∧ ∃ outs h', serve_all sample_text sample_error [(sample_serve, sample_request "a=1")] sample_state = Some (outs, h').
Proof.
  assert (@Facts.accepted sU Facts.sample_resolve Facts.sample_config Facts.sample_valid) as Ha by (by vm_compute).
  split; [exact Ha|].
  destruct (@accepted_config_serves sU sT sS sF sample_parse sample_text sample_error Facts.sample_resolve
    Facts.sample_config Facts.sample_valid (λ _, 0) sample_old Ha (λ s _, ltac:(by eexists))) as (h & Eh & H).
  destruct (H [(sample_serve, sample_request "a=1")]) as (outs & h' & E & _). exists outs, h'.
  assert (sample_state = h) as -> by (unfold sample_state; by rewrite Eh). exact E.
Defined.

End samples.
End Generation.
