(* ===== verification/GenerationFacts.v ===== *)
(** * What a client sees of a request, and what is logged of it

    Headers that the edge sets on a response are the edge's: an origin or a
    stored response cannot add to them.  So a response carries the identifier its
    request is logged under, and the acknowledgement of a probe cannot be forged. *)

From S2P Require Import Prelude GoStr GoPath GoHttp NetIP GoFloat GoText GoCodec Config Router ConfigValidate ConfigFacts CachePolicy ProxyHeaders ClientIP Upstream Cache Handler AccessLog Generation.

Module GenerationFacts.
Import CachePolicy ProxyHeaders Upstream Handler Generation.

(** ** Query strings *)

Lemma query_unescape_escape s : query_unescape (query_escape s) = Some s.
Proof.
  unfold query_escape. induction s as [|c s IH]; [done|]. cbn [flat_map]. destruct (c =?c " ") eqn:E1.
  { apply eqc_true in E1 as ->. cbn [app query_unescape]. change (lit "+" ++ ?x) with ("+"%char :: x). cbn [query_unescape]. by rewrite IH. }
  destruct (is_alnum c || mem_byte c "-_.~") eqn:E2.
  - assert ((c =?c "%") = false ∧ (c =?c "+") = false) as [H1 H2] by (revert E2; clear; all_bytes c).
    cbn [app query_unescape]. rewrite H1, IH. cbn [mbind option_bind]. by rewrite H2.
  - cbn [app query_unescape]. rewrite eqc_refl, !unhex_upper_hex by div_lia. cbn [mbind option_bind]. rewrite IH. cbn [mbind option_bind].
    do 2 f_equal. rewrite <- Z.div_mod by lia. apply chr_code.
Qed.

Lemma query_escape_chars s : forallb (λ c, negb (mem_byte c ";&=")) (query_escape s) = true.
Proof.
  unfold query_escape. induction s as [|c s IH]; [done|]. cbn [flat_map]. rewrite forallb_app, IH, andb_true_r.
  destruct (c =?c " ") eqn:E1; [done|]. destruct (is_alnum c || mem_byte c "-_.~") eqn:E2; [revert E2; clear; all_bytes c|]. clear. all_bytes c.
Qed.

Definition query_pair (k v : str) : str := query_escape k ++ "=" ++ query_escape v.

Lemma query_part_pair m k v : query_part (Some m) (query_pair k v) = Some (<[k := default [] (m !! k) ++ [v]]> m).
Proof.
  unfold query_part, query_pair. change (?a ++ "=" ++ ?b) with (a ++ "="%char :: b). cbn [mbind option_bind].
  assert ((query_escape k ++ "="%char :: query_escape v =?s []) = false) as -> by (by destruct (query_escape k)).
  pose proof (query_escape_chars k) as Hk. pose proof (query_escape_chars v) as Hv.
  assert (∀ c s, mem_byte c ";&=" = true → forallb (λ c, negb (mem_byte c ";&=")) s = true → c ∉ s) as Hno.
  { intros c s Hc Hs Hin. pose proof (Facts.forallb_elem _ _ _ Hs Hin) as H. cbv beta in H. by rewrite Hc in H. }
  assert (mem_byte ";" (query_escape k ++ "="%char :: query_escape v) = false) as ->.
  { apply not_true_iff_false. intros H. apply mem_byte_true in H. rewrite elem_of_app, elem_of_cons in H.
    destruct H as [H|[H|H]]; [by eapply Hno, H|done|by eapply Hno, H]. }
  rewrite cut_app by by apply Hno. rewrite !query_unescape_escape. done.
Qed.

Lemma fold_pairs m k vs : vs ≠ [] → foldl lenient_part m (query_pair k <$> vs) = <[k := default [] (m !! k) ++ vs]> m.
Proof.
  revert m. induction vs as [|v vs IH]; intros m Hv; [done|]. rewrite fmap_cons. cbn [foldl]. unfold lenient_part at 2.
  rewrite query_part_pair. cbn [default id]. destruct vs as [|v' vs]; [done|].
  rewrite IH by done. unfold id. rewrite lookup_insert_eq, insert_insert_eq. cbn [default]. by rewrite <- app_assoc.
Qed.

Lemma fold_keys (m : url_values) ks m0 : NoDup ks → (∀ k, k ∈ ks → m0 !! k = None ∧ ∃ vs, m !! k = Some vs ∧ vs ≠ []) → ∀ k,
  foldl lenient_part m0 (flat_map (λ k, query_pair k <$> default [] (m !! k)) ks) !! k = if decide (k ∈ ks) then m !! k else m0 !! k.
Proof.
  intros Hnd. revert m0. induction Hnd as [|j ks Hj _ IH]; intros m0 Hm k; [done|]. cbn [flat_map]. rewrite foldl_app.
  destruct (Hm j ltac:(by left)) as (H0 & vs & Ej & Hvs). rewrite Ej. cbn [default]. rewrite fold_pairs by done. rewrite H0. cbn [default app]. rewrite IH.
  - destruct (decide (k = j)) as [->|Hne]; [by rewrite decide_False, decide_True, lookup_insert_eq by (done || by left)|].
    destruct (decide (k ∈ ks)); [by rewrite decide_True by by right|]. rewrite decide_False by (by rewrite not_elem_of_cons).
    by rewrite lookup_insert_ne.
  - intros i Hi. destruct (Hm i ltac:(by right)) as [Hi0 ?]. rewrite lookup_insert_ne by (intros ->; done). done.
Qed.

(** Encoded values are decoded unchanged, unless a key has no value. *)
Lemma query_roundtrip (m : url_values) : map_Forall (λ _ vs, vs ≠ []) m → query_values (encode_query m) = m.
Proof.
  intros Hm. unfold query_values, encode_query. set (ks := sorted_keys m).
  assert (ks ≡ₚ (map_to_list m).*1) as Hks by (unfold ks, sorted_keys, sort_strings; by rewrite sorting.merge_sort_Permutation).
  assert (∀ k, k ∈ ks ↔ is_Some (m !! k)) as Hin.
  { intros k. rewrite Hks, list_elem_of_fmap. split.
    - intros ([k' vs] & -> & H%elem_of_map_to_list). by eexists.
    - intros [vs H]. exists (k, vs). split; [done|]. by apply elem_of_map_to_list. }
  fold (query_pair). set (parts := flat_map _ ks).
  assert (parts = flat_map (λ k, query_pair k <$> default [] (m !! k)) ks) as Ep by done.
  assert (foldl lenient_part ∅ parts = m) as E.
  { rewrite Ep. apply map_eq. intros k. rewrite fold_keys.
    - case_decide as Hk; [done|]. rewrite lookup_empty. symmetry. apply eq_None_not_Some. by rewrite <- Hin.
    - rewrite Hks. apply NoDup_fst_map_to_list.
    - intros j Hj. split; [done|]. apply Hin in Hj as [vs Ej]. exists vs. split; [done|]. by eapply Hm. }
  destruct (decide (parts = [])) as [H|Hne]; [rewrite H in *; by rewrite <- E|]. change (lit "&") with ["&"%char].
  rewrite split_join; [done..|]. apply Forall_forall. intros part Hp H. rewrite Ep, list_elem_of_In, in_flat_map in Hp.
  destruct Hp as (k & _ & Hp). apply list_elem_of_In, list_elem_of_fmap in Hp as (v & -> & _). unfold query_pair in H.
  rewrite !elem_of_app in H. destruct H as [H|[H|H]].
  - by pose proof (Facts.forallb_elem _ _ _ (query_escape_chars k) H).
  - by apply list_elem_of_singleton in H.
  - by pose proof (Facts.forallb_elem _ _ _ (query_escape_chars v) H).
Qed.

Lemma query_values_nonempty query : map_Forall (λ _ vs, vs ≠ []) (query_values query).
Proof.
  unfold query_values. generalize (split query "&") as parts. intros parts.
  assert (map_Forall (λ _ (vs : list str), vs ≠ []) (∅ : url_values)) as H0 by apply map_Forall_empty. revert H0.
  generalize (∅ : url_values) as m. induction parts as [|part parts IH]; intros m Hm; cbn [foldl]; [done|]. apply IH.
  unfold lenient_part, query_part. cbn [mbind option_bind]. destruct (part =?s []); [done|]. destruct (mem_byte ";" part); [done|].
  destruct (cut part "=") as [[key value] ?]. destruct (query_unescape key) as [k|]; [|done]. destruct (query_unescape value) as [v|]; [|done].
  cbn. apply map_Forall_insert_2; [by destruct (default [] _)|done].
Qed.

(** ** Headers that only the edge sets *)

Definition edge_only : list str := [lit "X-Request-ID"; internalProbeHeader].

Lemma edge_stripped n : n ∈ edge_only → canonical_key n ∈ canonical_key <$> origin_stripped.
Proof.
  intros Hn. apply list_elem_of_fmap_2. unfold edge_only in Hn. unfold origin_stripped. rewrite !elem_of_cons, elem_of_nil in Hn.
  destruct Hn as [->|[->|[]]]; apply elem_of_app; [left; unfold lits; cbn; do 4 right; by left|right; by left].
Qed.

(** Setting another header, whose canonical name is computed. *)
Lemma edge_set n name v h : n ∈ edge_only → bool_decide (canonical_key name ∈ canonical_key <$> edge_only) = false →
  header_values (header_set h name v) n = header_values h n.
Proof.
  rewrite bool_decide_eq_false. intros Hn Hf. apply header_values_set_ne. intros E. apply Hf. rewrite E. by apply list_elem_of_fmap_2.
Qed.
Lemma edge_del n name h : n ∈ edge_only → bool_decide (canonical_key name ∈ canonical_key <$> edge_only) = false →
  header_values (header_del h name) n = header_values h n.
Proof.
  rewrite bool_decide_eq_false. intros Hn Hf. apply header_values_del_ne. intros E. apply Hf. rewrite E. by apply list_elem_of_fmap_2.
Qed.

Ltac edge_side := first [assumption | vm_compute; reflexivity].
Ltac edge_headers := repeat first [rewrite edge_set by edge_side | rewrite edge_del by edge_side].

Lemma header_values_add_ne h name name' value : canonical_key name ≠ canonical_key name' →
  header_values (header_add h name value) name' = header_values h name'.
Proof. intros. unfold header_values, header_add. by rewrite lookup_insert_ne. Qed.

Lemma copyHeaders_other dst src n : (∀ kv, kv ∈ src → canonical_key kv.1 ≠ canonical_key n) →
  header_values (copyHeaders dst src) n = header_values dst n.
Proof.
  unfold copyHeaders. revert dst. induction src as [|[k vs] src IH]; intros dst Hs; cbn [foldl]; [done|].
  rewrite IH by (intros kv Hkv; apply Hs; by right). cbn [fst snd]. specialize (Hs (k, vs) ltac:(by left)). cbn [fst] in Hs. clear IH.
  revert dst. induction vs as [|v vs IH]; intros dst; cbn [foldl]; [done|]. by rewrite IH, header_values_add_ne.
Qed.

Lemma copy_sanitized dst h n : header_canonical h → n ∈ edge_only →
  header_values (copyHeaders dst (map_to_list (sanitized h))) n = header_values dst n.
Proof.
  intros Hc Hn. apply copyHeaders_other. intros [k vs] Hk%elem_of_map_to_list E. cbn [fst] in E.
  rewrite sanitized_lookup in Hk. case_decide as Hin; [done|]. rewrite (Hc k ltac:(by eexists)) in E. apply Hin. rewrite E.
  rewrite fmap_app. apply elem_of_app. left. by apply edge_stripped.
Qed.

(** ** Replies keep them *)

Definition keeps (n : str) (w : header) (id : str) (rep : reply) : Prop :=
  match rep with
  | NoReply => True
  | Reply _ h _ => header_values h n = header_values w n
  | TunnelReply h => header_values h n = if bool_decide (n = lit "X-Request-ID") then [id] else []
  end.

Section keeps.
Context {U : Unicode} {N : NetURL} {T : HttpTime} {SH : Sha256} {FM : FloatMath}.
Context (n : str) (Hn : n ∈ edge_only).

Lemma keeps_error w id status msg : keeps n w id (http_error w status msg).
Proof. unfold http_error, keeps. by edge_headers. Qed.

Lemma keeps_entry w id done ok req entry status now : header_canonical (Cache.Header entry) →
  keeps n w id (serveCacheEntry w done ok req entry status now).1.
Proof.
  intros Hc. unfold serveCacheEntry. destruct done; [done|]. fold (sanitized (Cache.Header entry)).
  destruct (conditionalNotModified _ _ _); [|destruct (_ =?s _)]; cbn [fst keeps]; edge_headers; by apply copy_sanitized.
Qed.

Lemma keeps_forward w e fe cfg st store r resp c : header_canonical (resp_header resp) →
  keeps n w (q_id e) (forward_response w e fe cfg st store r resp c).1.2.
Proof.
  intros Hc. unfold forward_response. fold (sanitized (resp_header resp)). destruct (responseCachePolicy _ _ _) as [[[cacheable ex] su] ia].
  cbn [fst snd keeps]. destruct (cacheable && store); edge_headers; by apply copy_sanitized.
Qed.

(** Every origin answers with canonical header names: they come from [net/http]. *)
Definition wire (e : request_env) : Prop := ∀ k r, a_result (q_world e k) = inr r → header_canonical (resp_header r).

Definition resp_canonical (s : loop_state) : Prop := ∀ r, ls_resp s = Some r → header_canonical (resp_header r).

Lemma after_call_resp e cfg A k i s : wire e → resp_canonical (after_call e cfg A k i s).1.
Proof.
  intros Hw r. assert (∀ x, match a_result (q_world e k) with inl _ => None | inr y => Some y end = Some x → header_canonical (resp_header x)) as Hk.
  { intros x. destruct (a_result (q_world e k)) eqn:E; [done|]. intros [= <-]. by eapply Hw. }
  unfold after_call. cbv zeta. repeat match goal with |- context [if ?b then _ else _] => lazymatch type of b with bool => destruct b end end; cbn [fst ls_resp]; by auto.
Qed.

Lemma retry_loop_resp e cfg A m k s : wire e → resp_canonical s → resp_canonical (retry_loop e cfg A m k s).
Proof.
  intros Hw. revert k s. induction m as [|m IH]; intros k s Hs; cbn [retry_loop]; [done|].
  destruct (if q_probe e then _ else _) as [[i|] p]; [|done]. destruct (clone_attempt _ _ _ _ _); [done|].
  pose proof (after_call_resp e cfg A k i (mkLoop p (ls_excluded s) (ls_resp s) (ls_lastErr s) (ls_active s) (ls_result s) (ls_obs s)) Hw) as Ha.
  destruct (after_call _ _ _ _ _ _) as [s' [|]]; [by apply IH|done].
Qed.

Lemma keeps_tunnel w e resp sw : header_canonical (resp_header resp) →
  ∀ h, (proxyProtocolUpgrade e resp sw).2 = Some h → keeps n w (q_id e) (TunnelReply h).
Proof.
  intros Hc h. unfold proxyProtocolUpgrade. destruct (protocolUpgrade (req_header (q_req e))), (protocolUpgrade (resp_header resp)); try done.
  destruct (_ || _); [done|]. destruct sw; cbn [snd]; try done. intros Eh. apply (inj Some) in Eh. subst h. fold (sanitized (resp_header resp)). cbn [keeps].
  case_bool_decide as E; [subst n; by rewrite header_values_set|].
  rewrite header_values_set_ne by (unfold edge_only in Hn; rewrite !elem_of_cons, elem_of_nil in Hn; destruct Hn as [->|[->|[]]]; [done|by vm_compute]).
  edge_headers. unfold header_values. rewrite sanitized_lookup, decide_True; [done|]. rewrite fmap_app. apply elem_of_app. left. by apply edge_stripped.
Qed.

Lemma keeps_fetch w e fe cfg stale st store p c : wire e →
  (∀ en, stale = Some en → header_canonical (Cache.Header en)) → keeps n w (q_id e) (out_reply (fetchAndServe w e fe cfg stale st store p c)).
Proof.
  intros Hw Hst. unfold fetchAndServe, run_attempts. set (s := retry_loop _ _ _ _ _ _).
  assert (resp_canonical s) as Hs by by apply retry_loop_resp. clearbody s.
  assert (keeps n w (q_id e) (finish_request w e fe cfg stale st store s c).1.2) as H; [|by destruct (finish_request _ _ _ _ _ _ _ _ _) as [[? ?] ?]].
  assert (∀ en r, stale = Some en → keeps n w (q_id e) (serve_stale w e fe en r).2) as Hstale.
  { intros en r Hen. unfold serve_stale. pose proof (keeps_entry w (q_id e) (f_client_done_copy fe) (f_copy_ok fe) (q_req e) en "STALE" (f_now fe) (Hst en Hen)).
    by destruct (serveCacheEntry _ _ _ _ _ _ _). }
  unfold finish_request. destruct (_ || _); [done|].
  assert (keeps n w (q_id e) (match stale with
      | Some entry => (serve_stale w e fe entry (ls_result s), c)
      | None => (with_error (ls_lastErr s) (with_proxyError true (ls_result s)), http_error w 502 "bad gateway", c) end).1.2) as Hbad.
  { destruct stale as [en|]; [by apply (Hstale en)|apply keeps_error]. }
  destruct (ls_lastErr s); [exact Hbad|]. destruct (ls_resp s) as [resp|] eqn:Er; [|exact Hbad]. specialize (Hs resp Er).
  destruct (_ =? 101).
  - pose proof (keeps_tunnel w e resp (f_switch fe) Hs) as Ht. destruct (proxyProtocolUpgrade _ _ _) as [[t err] h].
    destruct err; [destruct (t_hijacked t); [done|apply keeps_error]|]. destruct h as [h|]; [by apply Ht|done].
  - destruct stale as [en|]; [destruct (retryableStatus _); [by apply (Hstale en)|]|]; by apply keeps_forward.
Qed.

(** ** The cache keeps canonical headers *)

Definition cached_canonical (c : Cache.Cache) : Prop :=
  ∀ k el, Cache.items c !! k = Some el → header_canonical (Cache.Header (Cache.entry el.2)).

Lemma cached_sub c c' : (∀ k el, Cache.items c' !! k = Some el → Cache.items c !! k = Some el) → cached_canonical c → cached_canonical c'.
Proof. intros H Hc k el Hk. by apply (Hc k), H. Qed.

Lemma removeElement_cached el ev c : cached_canonical c → cached_canonical (Cache.removeElement el ev c).
Proof. apply cached_sub. intros k el'. cbn. rewrite lookup_delete_Some. by intros []. Qed.

Lemma purge_cached sel order c : cached_canonical c → cached_canonical (Cache.purge_loop sel order c).2.
Proof.
  unfold Cache.purge_loop. change c with (0, c).2 at 1. generalize (0, c). induction order as [|ke order IH]; intros acc Hacc; cbn [foldl]; [done|].
  apply IH. destruct (sel ke.1); [by apply removeElement_cached|done].
Qed.

Lemma evict_cached fuel c c' : Cache.evict_loop fuel c = Some c' → cached_canonical c → cached_canonical c'.
Proof.
  revert c. induction fuel as [|fuel IH]; intros c; cbn [Cache.evict_loop]; destruct (_ || _); try done; try (by intros [= <-]).
  intros E Hc. apply (IH _ E). unfold Cache.removeOldest. destruct (last _); [by apply removeElement_cached|done].
Qed.

Lemma Set_cached k en c ok c' : Cache.Set_ k en c = Some (ok, c') → header_canonical (Cache.Header en) → cached_canonical c → cached_canonical c'.
Proof.
  unfold Cache.Set_. intros E Hen Hc. destruct (_ || _); [by simplify_eq|].
  set (c0 := match Cache.items c !! k with Some e => _ | None => c end) in E.
  assert (cached_canonical c0) as Hc0 by (unfold c0; destruct (_ !! k); [by apply removeElement_cached|done]).
  match type of E with context [Cache.evict_loop _ ?x] => set (c1 := x) in E end. cbv zeta in E.
  apply bind_Some in E as (c2 & Ee & [= _ <-]).
  eapply evict_cached; [done|]. intros k' el. cbn. rewrite lookup_insert_Some. intros [[<- <-]|[_ Hk]]; [done|by eapply Hc0].
Qed.

Lemma lookup_cached req k now c : cached_canonical c → let '(hit, stale, c') := cache_lookup req k now c in
  cached_canonical c' ∧ (∀ en, hit = Some en → header_canonical (Cache.Header en)) ∧ (∀ en, stale = Some en → header_canonical (Cache.Header en)).
Proof.
  intros Hc. unfold cache_lookup, Cache.Get. destruct (Cache.items c !! k) as [el|] eqn:Ek; [|by split_and!].
  destruct (time_after _ _); [cbn; split_and!; [by apply removeElement_cached|done..]|].
  pose proof (Hc _ _ Ek) as Hel. destruct (_ || _); cbn [andb]; destruct (requestAllowsCachedEntry _ _ _); cbn [andb];
    split_and!; try done; try (intros en [= <-]; done); by eapply cached_sub; [|exact Hc].
Qed.

Lemma sanitized_canonical h : header_canonical h → header_canonical (sanitized h).
Proof. intros Hh k [v Hk]. apply Hh. rewrite sanitized_lookup in Hk. case_decide; [done|by eexists]. Qed.

Definition some_cached (c : option Cache.Cache) : Prop := ∀ cc, c = Some cc → cached_canonical cc.

Lemma invalidate_cached c req status order : some_cached c → some_cached (invalidateUnsafeRequest c req status order).2.
Proof.
  intros Hc. unfold invalidateUnsafeRequest. destruct c as [cc|]; [|done]. destruct (_ || _); [done|]. intros c' [= <-]. apply purge_cached. by apply Hc.
Qed.

Lemma store_cached e fe cfg cacheable resp ex su ia c : header_canonical (resp_header resp) → some_cached c →
  some_cached (store_response e fe cfg cacheable resp ex su ia c).
Proof.
  intros Hh Hc. unfold store_response. destruct c as [cc|]; [|done]. destruct (_ || _); [done|]. cbv zeta. destruct (_ && _); [|done].
  destruct (Cache.Set_ _ _ cc) as [[ok c']|] eqn:E; [|done]. intros ? [= <-]. eapply Set_cached; [exact E| |by apply Hc].
  unfold stored_entry. cbn [Cache.Header]. intros k [v Hk]. apply Hh. rewrite header_del_lookup in Hk. case_decide; [done|by eexists].
Qed.

Lemma fetch_cached w e fe cfg stale st store p c : wire e → some_cached c → some_cached (out_cache (fetchAndServe w e fe cfg stale st store p c)).
Proof.
  intros Hw Hc. unfold fetchAndServe, run_attempts. set (s := retry_loop _ _ _ _ _ _).
  assert (resp_canonical s) as Hs by by apply retry_loop_resp. clearbody s.
  assert (some_cached (finish_request w e fe cfg stale st store s c).2) as H; [|by destruct (finish_request _ _ _ _ _ _ _ _ _) as [[? ?] ?]].
  assert (∀ resp r, ls_resp s = Some resp → some_cached (forward_response w e fe cfg st store r resp c).2) as Hf.
  { intros resp r Hr. unfold forward_response. destruct (responseCachePolicy _ _ _) as [[[cacheable ex] su] ia]. cbn [snd].
    apply store_cached; [cbn [resp_header]; by apply sanitized_canonical, Hs|by apply invalidate_cached]. }
  unfold finish_request. destruct (_ || _); [done|]. destruct (ls_lastErr s), (ls_resp s) as [resp|] eqn:Er; try (by destruct stale).
  destruct (_ =? 101); [by destruct (proxyProtocolUpgrade _ _ _) as [[? []] ?]|]. destruct stale; [destruct (retryableStatus _)|]; auto.
Qed.

Lemma keeps_route w e fe cfg now1 now2 meanwhile p c : wire e → some_cached c → (∀ c, cached_canonical c → cached_canonical (meanwhile c)) →
  let out := handleRoute w e fe cfg now1 now2 meanwhile p c in keeps n w (q_id e) (out_reply out) ∧ some_cached (out_cache out).
Proof.
  intros Hw Hc Hm out. unfold out, handleRoute. destruct (if hasProtocolUpgrade _ then _ else _); [split; [apply keeps_error|done]|].
  assert (∀ stale st store c, some_cached c → (∀ en, stale = Some en → header_canonical (Cache.Header en)) →
    let out := fetchAndServe w e fe cfg stale st store p c in keeps n w (q_id e) (out_reply out) ∧ some_cached (out_cache out)) as Hfetch.
  { intros. split; [by apply keeps_fetch|by apply fetch_cached]. }
  assert (∀ entry now c, header_canonical (Cache.Header entry) → cached_canonical c →
    let out := (let '(r, rep) := serve_hit w (q_req e) fe entry now in mkOutcome r rep p (Some c) []) in
    keeps n w (q_id e) (out_reply out) ∧ some_cached (out_cache out)) as Hhit.
  { intros entry now c0 He H0. unfold serve_hit. pose proof (keeps_entry w (q_id e) (f_client_done_copy fe) (f_copy_ok fe) (q_req e) entry "HIT" now He).
    destruct (serveCacheEntry _ _ _ _ _ _ _). split; [done|]. by intros ? [= <-]. }
  destruct (q_probe e); [by apply Hfetch|]. destruct (requestCacheMode _ _) as [[lookup store] ?].
  destruct (_ && _); [by apply Hfetch|]. destruct c as [cc|]; [|by apply Hfetch]. specialize (Hc cc eq_refl).
  assert (∀ key now c, cached_canonical c → let '(hit, stale, c') := if lookup then cache_lookup (q_req e) key now c else (None, None, c) in
    cached_canonical c' ∧ (∀ en, hit = Some en → header_canonical (Cache.Header en)) ∧ (∀ en, stale = Some en → header_canonical (Cache.Header en))) as Hl.
  { intros key now c0 H0. destruct lookup; [by apply lookup_cached|by split_and!]. }
  pose proof (Hl (cacheKey (q_req e) (cache cfg)) now1 cc Hc) as H1. destruct (if lookup then _ else _) as [[hit1 ?] c1]. destruct H1 as (Hc1 & Hh1 & _).
  destruct hit1 as [en|]; [apply Hhit; [by apply Hh1|done]|].
  pose proof (Hl (cacheKey (q_req e) (cache cfg)) now2 (meanwhile c1) (Hm _ Hc1)) as H2. destruct (if lookup then _ else _) as [[hit2 stale] c2].
  destruct H2 as (Hc2 & Hh2 & Hs2). destruct hit2 as [en|]; [apply Hhit; [by apply Hh2|done]|]. apply Hfetch; [by intros ? [= <-]|done].
Qed.

End keeps.

(** ** A whole request *)

Section serve.
Context {U : Unicode} {N : NetURL} {T : HttpTime} {SH : Sha256} {FM : FloatMath}.
Context (url_text : URL → str) (error_text : failure → str).

(** Every cache of a generation holds responses with canonical header names. *)
Definition state_canonical (h : handlerState) : Prop := ∀ k rt, h_routes h !! k = Some rt → some_cached (rt_cache rt).

(** Origins answer over [net/http], and whoever else works on the caches keeps this. *)
Record environment_ok (e : serve_env) : Prop := {
  eo_wire : ∀ k r, a_result (se_world e k) = inr r → header_canonical (resp_header r);
  eo_meanwhile : ∀ c, cached_canonical c → cached_canonical (se_meanwhile e c) }.

Definition probe_of (h : handlerState) (req : Request) : bool := ClientIP.trustedOperationalProbe req (Some (h_clients h)).
Definition id_of (h : handlerState) (e : serve_env) (req : Request) : str :=
  requestID (req_header (cleared_of (probe_of h req) req)) (se_random e) (se_unix e).

(** The acknowledgement of a probe: a trusted one, and a route that takes it. *)
Definition acknowledged (h : handlerState) (req : Request) : list str :=
  if probe_of h req && bool_decide (is_Some (Router.Match (h_router h) req)) then [internalProbeResponseValue] else [].

(** The two headers of a response that only the edge writes. *)
Definition authentic (id : str) (ack : list str) (rep : reply) : Prop :=
  match rep with
  | NoReply => True
  | Reply _ w _ => header_values w "X-Request-ID" = [id] ∧ header_values w internalProbeHeader = ack
  | TunnelReply w => header_values w "X-Request-ID" = [id] ∧ header_values w internalProbeHeader = []
  end.

Lemma id_edge : lit "X-Request-ID" ∈ edge_only.
Proof. by left. Qed.
Lemma marker_edge : internalProbeHeader ∈ edge_only.
Proof. right. by left. Qed.

Lemma keeps_authentic w id ack rep : header_values w "X-Request-ID" = [id] → header_values w internalProbeHeader = ack →
  keeps "X-Request-ID" w id rep → keeps internalProbeHeader w id rep → authentic id ack rep.
Proof. intros Hi Ha H1 H2. destruct rep as [|st h b|h]; cbn in *; [done|by rewrite H1, H2|done]. Qed.

Lemma started_id id probe : header_values (header_set (if probe : bool then header_set ∅ internalProbeHeader internalProbeResponseValue else ∅) "X-Request-ID" id)
  "X-Request-ID" = [id].
Proof. apply header_values_set. Qed.

Lemma started_ack id probe : header_values (header_set (if probe : bool then header_set ∅ internalProbeHeader internalProbeResponseValue else ∅) "X-Request-ID" id)
  internalProbeHeader = if probe then [internalProbeResponseValue] else [].
Proof. rewrite header_values_set_ne by by vm_compute. destruct probe; [apply header_values_set|done]. Qed.

(** C12: Whatever an origin answers, and whatever the cache holds: a response carries
    one request identifier, the one that its log entry has, and acknowledges a
    probe exactly when the probe is trusted and a route takes it.  What is needed
    for that holds again for the next request. *)
Theorem edge_headers_authentic h e req out : ServeHTTP url_text error_text e req h = Some out → state_canonical h → environment_ok e →
  authentic (id_of h e req) (acknowledged h req) (sv_reply out)
  ∧ (∀ en, sv_entry out = Some en → AccessLog.RequestID en = id_of h e req)
  ∧ state_canonical (sv_state out).
Proof.
  unfold ServeHTTP. fold (probe_of h req). fold (id_of h e req). set (probe := probe_of h req). intros H Hs [Hw Hm].
  assert (Router.Match (h_router h) (cleared_of probe req) = Router.Match (h_router h) req) as Em by done. rewrite Em in H. clear Em.
  unfold acknowledged. fold probe. destruct (Router.Match (h_router h) req) as [r|] eqn:Em.
  - destruct (h_routes h !! route_name r) as [rt|] eqn:Ert; [|done]. apply (inj Some) in H. subst out. cbn [sv_reply sv_entry sv_state].
    rewrite (bool_decide_eq_true_2 (is_Some (Some r))), andb_true_r by by eexists.
    match goal with |- context [handleRoute ?w ?e' ?fe ?cfg ?n1 ?n2 ?mw ?p ?c] =>
      pose proof (λ n Hn, keeps_route n Hn w e' fe cfg n1 n2 mw p c Hw (Hs _ _ Ert) Hm) as Hk; cbn zeta in Hk; set (out := handleRoute w e' fe cfg n1 n2 mw p c) in * end.
    destruct (Hk _ id_edge) as [H1 Hc]. destruct (Hk _ marker_edge) as [H2 _]. split_and!.
    + eapply keeps_authentic; [apply started_id|apply started_ack|exact H1|exact H2].
    + destruct probe; [done|]. by intros en [= <-].
    + intros k rt'. cbn [h_routes]. rewrite lookup_insert_Some. intros [[_ <-]|[_ Hk']]; [done|by eapply Hs].
  - apply (inj Some) in H. subst out. cbn [sv_reply sv_entry sv_state]. rewrite bool_decide_eq_false_2, andb_false_r by by intros [].
    split_and!; [|destruct probe; [done|]; by intros en [= <-]|done].
    pose proof (started_id (id_of h e req) false) as H1. pose proof (started_ack (id_of h e req) false) as H2.
    eapply keeps_authentic; [exact H1|exact H2|apply keeps_error, id_edge|apply keeps_error, marker_edge].
Qed.

(** A trusted connectivity probe is not seen by anything but its own origin: the
    generation is as it was, pools and caches included, and nothing is observed,
    counted or logged; the answer never comes from a cache. *)
Theorem probe_unseen h e req out : ServeHTTP url_text error_text e req h = Some out → probe_of h req = true →
  sv_state out = h ∧ sv_obs out = [] ∧ sv_metrics out = None ∧ sv_entry out = None ∧ (r_cacheStatus (sv_result out) = "BYPASS").
Proof.
  unfold ServeHTTP. fold (probe_of h req). intros H Hp. rewrite Hp in H. pose proof (proj1 (ClientIP.probe_peer_checked _ _ Hp)) as Hm.
  destruct (Router.Match _ _) as [r|]; [|apply (inj Some) in H; by subst out].
  destruct (h_routes h !! route_name r) as [rt|] eqn:Ert; [|done]. apply (inj Some) in H. subst out. cbn [sv_state sv_obs sv_metrics sv_entry sv_result].
  match goal with |- context [handleRoute ?w ?e' ?fe ?cfg ?n1 ?n2 ?mw ?p ?c] =>
    pose proof (probe_leaves_no_trace w e' fe cfg n1 n2 mw p c eq_refl Hm) as (H1 & H2 & H3 & H4) end.
  rewrite H1, H3. split_and!; try done. assert (mkRuntime (rt_cfg rt) (rt_pool rt) (rt_cache rt) (rt_forwardedForHeader rt) = rt) as -> by by destruct rt.
  rewrite insert_id by done. by destruct h.
Qed.

Lemma sanitizedQuery_values u k : query_values (sanitizedQuery u) !! k
  = (λ vs, if sensitive k then [lit "[REDACTED]"] else vs) <$> query_values (url_rawquery u) !! k.
Proof.
  unfold sanitizedQuery. rewrite query_roundtrip.
  - rewrite map_lookup_imap. by destruct (query_values (url_rawquery u) !! k).
  - intros j vs. rewrite map_lookup_imap. destruct (query_values (url_rawquery u) !! j) as [vs'|] eqn:E; [|done]. cbn [mbind option_bind]. intros Ev. apply (inj Some) in Ev as <-.
    destruct (sensitive j); [discriminate|]. exact (query_values_nonempty _ _ _ E).
Qed.

(** The log keeps every query parameter and no secret: read back, the logged
    query has the parameters of the request, the sensitive ones without their
    value; so requests that differ in secrets only are logged alike. *)
Theorem log_hides_secrets h e req out en : ServeHTTP url_text error_text e req h = Some out → sv_entry out = Some en →
  (∀ k, query_values (AccessLog.Query_ en) !! k
    = (λ vs, if sensitive k then [lit "[REDACTED]"] else vs) <$> query_values (url_rawquery (req_url req)) !! k)
  ∧ ∀ u, (∀ k, let v := query_values (url_rawquery u) !! k in let v' := query_values (url_rawquery (req_url req)) !! k in
            if sensitive k then is_Some v ↔ is_Some v' else v = v') → sanitizedQuery u = AccessLog.Query_ en.
Proof.
  intros H He. assert (AccessLog.Query_ en = sanitizedQuery (req_url req)) as ->.
  { revert H He. unfold ServeHTTP. fold (probe_of h req). destruct (Router.Match _ _) as [r|].
    - destruct (h_routes h !! route_name r) as [rt|]; [|done]. intros E. apply (inj Some) in E. subst out. cbn [sv_entry]. destruct (probe_of h req); [done|]. by intros [= <-].
    - intros E. apply (inj Some) in E. subst out. cbn [sv_entry]. destruct (probe_of h req); [done|]. by intros [= <-]. }
  split; [intros k; apply sanitizedQuery_values|]. intros u Hu. unfold sanitizedQuery. f_equal. apply map_eq. intros k. rewrite !map_lookup_imap.
  specialize (Hu k). cbv zeta in Hu. destruct (sensitive k); [|by rewrite Hu].
  destruct (query_values (url_rawquery u) !! k) as [v|], (query_values (url_rawquery (req_url req)) !! k) as [v'|]; try done; cbn in Hu;
    [destruct (proj1 Hu ltac:(by eexists))|destruct (proj2 Hu ltac:(by eexists))]; done.
Qed.

End serve.

(** ** Examples *)

Section samples.
#[local] Instance sU : Unicode := unicode_ascii.
#[local] Instance sN : NetURL := CachePolicy.sample_url.
#[local] Instance sT : HttpTime := CachePolicy.sample_time.
#[local] Instance sS : Sha256 := CachePolicy.sample_sha.
#[local] Instance sF : FloatMath := Upstream.sample_fm.

Definition nothing : served := mkServed sample_old NoReply (new_result "") [] None None.
Definition sample_served (req : Request) : served := default nothing (ServeHTTP sample_text sample_error sample_serve req sample_state).

(** A client that has chosen its identifier, and sends a token. *)
Definition token_request : Request :=
  mkRequest "GET" "www.shop.test" (mkURL [] [] [] "/api/items" "q=1&Access_Token=s3cret" false)
    {[ lit "X-Request-Id" := [lit "client-7"] ]} "1.2.3.4:5".

(** The probe of the connectivity monitor. *)
Definition sample_probe : Request :=
  mkRequest "HEAD" "www.shop.test" (mkURL [] [] [] "/api/items" [] false)
    {[ canonical_key internalProbeHeader := [ClientIP.internalProbeValue]; lit "User-Agent" := [ClientIP.internalProbeUserAgent] ]} "127.0.0.1:5".

Lemma sample_canonical : state_canonical sample_state.
Proof.
  intros k rt Hk c Hc k' el Hel. assert (map_Forall (λ _ rt, map_Forall (λ _ _, False) (default ∅ (Cache.items <$> rt_cache rt))) (h_routes sample_state)) as H
    by (apply (bool_decide_eq_true_1 _); vm_compute; reflexivity).
  pose proof (H _ _ Hk) as H'. cbv beta in H'. rewrite Hc in H'. by destruct (H' _ _ Hel).
Qed.

Lemma sample_environment : environment_ok sample_serve.
Proof.
  split; [|done]. intros k r. cbn [sample_serve se_world]. unfold sample_world. case_decide; [done|]. intros [= <-] name Hn.
  assert (map_Forall (λ n (_ : list str), canonical_key n = n) (resp_header ok_response)) as Hall by (apply (bool_decide_eq_true_1 _); vm_compute; reflexivity).
  destruct Hn as [vs Hn]. exact (Hall _ _ Hn).
Qed.

Lemma sample_answers req : is_Some (ServeHTTP sample_text sample_error sample_serve req sample_state) →
  ServeHTTP sample_text sample_error sample_serve req sample_state = Some (sample_served req).
Proof. unfold sample_served. by intros [out ->]. Qed.
Lemma token_answered : ServeHTTP sample_text sample_error sample_serve token_request sample_state = Some (sample_served token_request).
Proof. apply sample_answers, (bool_decide_eq_true_1 _). vm_compute. reflexivity. Qed.
Lemma probe_answered : ServeHTTP sample_text sample_error sample_serve sample_probe sample_state = Some (sample_served sample_probe).
Proof. apply sample_answers, (bool_decide_eq_true_1 _). vm_compute. reflexivity. Qed.

Lemma sample_queries :
  query_values "q=1&Access_Token=s3cret" = {[ lit "q" := [lit "1"]; lit "Access_Token" := [lit "s3cret"] ]}
  ∧ query_values "Access_Token=other&q=1" = {[ lit "q" := [lit "1"]; lit "Access_Token" := [lit "other"] ]}.
Proof. apply (bool_decide_eq_true_1 _). vm_compute. reflexivity. Qed.

Lemma edge_headers_authentic_witness :
  r_upstreamCalls (sv_result (sample_served token_request)) = 2
  ∧ authentic "client-7" [] (sv_reply (sample_served token_request)).
Proof.
  split; [vm_compute; reflexivity|].
  exact (proj1 (edge_headers_authentic sample_text sample_error sample_state sample_serve token_request _ token_answered sample_canonical sample_environment)).
Defined.

Lemma probe_unseen_witness : sv_state (sample_served sample_probe) = sample_state
  ∧ match sv_reply (sample_served sample_probe) with Reply _ w _ => header_values w internalProbeHeader = [lit "matched-v1"] | _ => False end.
Proof.
  split; [|assert (match sv_reply (sample_served sample_probe) with Reply _ w _ => bool_decide (header_values w internalProbeHeader = [lit "matched-v1"]) | _ => false end = true) as H by (vm_compute; reflexivity); destruct (sv_reply _) as [|st w b|]; [done| |done]; by apply bool_decide_eq_true in H].
  exact (proj1 (probe_unseen sample_text sample_error sample_state sample_serve sample_probe _ probe_answered ltac:(vm_compute; reflexivity))).
Defined.

Lemma log_hides_secrets_witness : ∃ en, sv_entry (sample_served token_request) = Some en
  ∧ (AccessLog.Query_ en = "Access_Token=%5BREDACTED%5D&q=1") ∧ (sanitizedQuery (mkURL [] [] [] "/" "Access_Token=other&q=1" false) = AccessLog.Query_ en).
Proof.
  destruct (sv_entry (sample_served token_request)) as [en|] eqn:Ee; [|by vm_compute in Ee]. exists en. split; [done|]. split.
  - assert (AccessLog.Query_ <$> sv_entry (sample_served token_request) = Some (lit "Access_Token=%5BREDACTED%5D&q=1")) as H by (vm_compute; reflexivity).
    rewrite Ee in H. by injection H.
  - apply (proj2 (log_hides_secrets sample_text sample_error sample_state sample_serve token_request _ en token_answered Ee)). intros k. cbv zeta.
    change (query_values (url_rawquery (req_url token_request))) with (query_values "q=1&Access_Token=s3cret").
    change (url_rawquery _) with (lit "Access_Token=other&q=1").
    destruct sample_queries as [-> ->].
    destruct (decide (k = lit "q")) as [->|H1]; [assert (sensitive "q" = false) as -> by (vm_compute; reflexivity); by rewrite !lookup_insert_eq|].
    rewrite !(lookup_insert_ne _ (lit "q")) by done. destruct (decide (k = lit "Access_Token")) as [->|H2].
    + assert (sensitive "Access_Token" = true) as -> by (vm_compute; reflexivity). rewrite !lookup_singleton_eq. by split; eexists.
    + rewrite !lookup_singleton_ne by done. destruct (sensitive k); [|done]. by split; intros [].
Defined.

End samples.
End GenerationFacts.
