(* ===== verification/SecurityLog.v ===== *)
(** * The security log: apps/securityedge/internal/securitylog/store.go

    Entries, their normalisation, the in-memory ring with [Query], [Export],
    [Stats] and [Clear], and the NDJSON file behind it with rotation and
    restoration ([File]).  A method runs under the store's mutex and is one
    step; [Export] takes the lock once per batch.  JSON coding and the formatting of the
    duration column are parameters. *)

From stdpp Require Import sorting.
From S2P Require Import Prelude GoStr GoCodec GoText GoFloat Ring SecPolicy Waf.

Module SecurityLog.

Definition maxPersistentLogLineBytes : Z := 512 * 2 ^ 10.
Definition maxEntryRuleIDs : Z := 256.
Definition maxEntryTags : Z := 32.
Definition maxEntryMatches : Z := 256.
Definition exportBatchSize : Z := 256.

Record Entry := mkEntry {
  Sequence : Z; Timestamp : str; Level : str; Event : str; Message : str; RequestID : str; ClientIP : str;
  Method : str; Host : str; Path : str; PathFingerprint : str; Route : str; Status : Z; DurationMS : float64;
  Action : str; Reason : str; Score : Z; RuleIDs : list str; Matches : list Waf.Match; RetryAfterMS : Z;
  UserAgentFingerprint : str; Error : str; AutoBanned : bool; MatchLimitReached : bool; Tags : list str }.

Definition zero_entry : Entry :=
  mkEntry 0 [] [] [] [] [] [] [] [] [] [] [] 0 f_zero [] [] 0 [] [] 0 [] [] false false [].

Record Filter := mkFilter {
  f_route : str; f_request : str; f_client : str; f_method : str; f_event : str; f_level : str; f_action : str;
  f_reason : str; f_rule : str; f_search : str; f_status : Z; f_since : time; f_until : time; f_before : Z;
  f_limit : Z }.

Record QueryResult := mkResult {
  GeneratedAt : str; Capacity : Z; Retained : Z; Dropped : Z; OldestSequence : Z; NewestSequence : Z;
  Returned : Z; HasMore : bool; NextBeforeSequence : Z; AppliedFilters : gmap str any; Entries : list Entry }.

Section log.
Context {U : Unicode} {T : RFC3339}.

(** ** Normalisation *)

Definition trim (v : str) (n : Z) : str := truncate_text (trim_space v) n.

(** The loop of [uniqueStrings]; [set] has the elements of [out]. *)
Definition unique_step (maxLength : Z) (normalize : str → str) (out : list str) (raw : str) : list str :=
  let value := trim (normalize raw) maxLength in
  if value =?s [] then out else if bool_decide (value ∈ out) then out else out ++ [value].

Definition uniqueStrings (v : list str) (maxCount maxLength : Z) (normalize : str → str) : list str :=
  let v := if maxCount <? len v then take (Z.to_nat maxCount) v else v in
  sort_strings (foldl (unique_step maxLength normalize) [] v).

Definition uniqueUpper (v : list str) (maxCount maxLength : Z) : list str := uniqueStrings v maxCount maxLength to_upper.
Definition uniqueLower (v : list str) (maxCount maxLength : Z) : list str := uniqueStrings v maxCount maxLength to_lower.

Definition normalize_match (m : Waf.Match) : Waf.Match :=
  Waf.mkMatch (trim (to_upper (Waf.m_rule m)) 128) (trim (Waf.m_name m) 256) (trim (to_lower (Waf.m_category m)) 128)
    (Waf.m_score m) (trim (Waf.m_target m) 128) (trim (Waf.m_location m) 512) (trim (Waf.m_fingerprint m) 128).

Definition normalizeMatches (ms : list Waf.Match) : list Waf.Match :=
  normalize_match <$> (if maxEntryMatches <? len ms then take (Z.to_nat maxEntryMatches) ms else ms).

Definition normalizeEntry (now : time) (e : Entry) : Entry :=
  let ts := trim (Timestamp e) 64 in
  let level := to_upper (trim_space (Level e)) in
  mkEntry (Sequence e)
    (match parse_rfc3339 ts with Some _ => ts | None => format_rfc3339 now end)
    (trim (if level =?s [] then lit "INFO" else level) 16)
    (trim (Event e) 128)
    (trim (Message e) 2048)
    (trim (RequestID e) 256)
    (trim (ClientIP e) 256)
    (trim (to_upper (Method e)) 32)
    (trim (Host e) 512)
    (trim (Path e) 2048)
    (trim (PathFingerprint e) 128)
    (trim (Route e) 256)
    (Status e) (DurationMS e)
    (trim (to_upper (Action e)) 32)
    (trim (to_lower (Reason e)) 128)
    (Score e)
    (uniqueUpper (RuleIDs e) maxEntryRuleIDs 128)
    (normalizeMatches (Matches e))
    (RetryAfterMS e)
    (trim (UserAgentFingerprint e) 128)
    (trim (Error e) 2048)
    (AutoBanned e) (MatchLimitReached e)
    (uniqueLower (Tags e) maxEntryTags 64).

Definition with_sequence (n : Z) (e : Entry) : Entry :=
  mkEntry n (Timestamp e) (Level e) (Event e) (Message e) (RequestID e) (ClientIP e) (Method e) (Host e) (Path e)
    (PathFingerprint e) (Route e) (Status e) (DurationMS e) (Action e) (Reason e) (Score e) (RuleIDs e) (Matches e)
    (RetryAfterMS e) (UserAgentFingerprint e) (Error e) (AutoBanned e) (MatchLimitReached e) (Tags e).

(** ** Filters *)

Definition containsFold (v : list str) (x : str) : bool := existsb (λ item, equal_fold item x) v.

Definition unless_empty (f : str) (b : bool) : bool := (f =?s []) || b.

Definition haystack (e : Entry) : str :=
  to_lower (join " " [Event e; Message e; RequestID e; ClientIP e; Method e; Host e; Path e; Route e; Action e;
                      Reason e; join " " (RuleIDs e); PathFingerprint e; UserAgentFingerprint e; Error e]).

Definition matches (e : Entry) (f : Filter) (searchLower : str) : bool :=
  unless_empty (f_route f) (equal_fold (Route e) (f_route f))
  && unless_empty (f_request f) (RequestID e =?s f_request f)
  && unless_empty (f_client f) (equal_fold (ClientIP e) (f_client f))
  && unless_empty (f_method f) (equal_fold (Method e) (f_method f))
  && unless_empty (f_event f) (equal_fold (Event e) (f_event f))
  && unless_empty (f_level f) (equal_fold (Level e) (f_level f))
  && unless_empty (f_action f) (equal_fold (Action e) (f_action f))
  && unless_empty (f_reason f) (equal_fold (Reason e) (f_reason f))
  && negb ((0 <? f_status f) && negb (Status e =? f_status f))
  && unless_empty (f_rule f) (containsFold (RuleIDs e) (f_rule f))
  && match parse_rfc3339 (Timestamp e) with
     | Some ts => negb (negb (time_is_zero (f_since f)) && time_before ts (f_since f))
                  && negb (negb (time_is_zero (f_until f)) && time_after ts (f_until f))
     | None => true
     end
  && unless_empty searchLower (contains (haystack e) searchLower).

Definition put_if (b : bool) (key : string) (v : any) (m : gmap str any) : gmap str any :=
  if b then <[lit key := v]> m else m.
Definition put_str (key : string) (f v : str) : gmap str any → gmap str any := put_if (negb (f =?s [])) key (AnyStr v).

Definition filters (f : Filter) : gmap str any :=
  put_str "q" (f_search f) (f_search f)
  $ put_if (0 <? f_before f) "before_sequence" (AnyInt (f_before f))
  $ put_if (negb (time_is_zero (f_until f))) "until" (AnyStr (format_rfc3339 (f_until f)))
  $ put_if (negb (time_is_zero (f_since f))) "since" (AnyStr (format_rfc3339 (f_since f)))
  $ put_if (0 <? f_status f) "status" (AnyInt (f_status f))
  $ put_str "rule_id" (f_rule f) (to_upper (f_rule f))
  $ put_str "reason" (f_reason f) (to_lower (f_reason f))
  $ put_str "action" (f_action f) (to_upper (f_action f))
  $ put_str "level" (f_level f) (to_upper (f_level f))
  $ put_str "event" (f_event f) (f_event f)
  $ put_str "method" (f_method f) (to_upper (f_method f))
  $ put_str "client_ip" (f_client f) (f_client f)
  $ put_str "request_id" (f_request f) (f_request f)
  $ put_str "route" (f_route f) (f_route f)
  $ <[lit "limit" := AnyInt (f_limit f)]> ∅.

Definition with_limit (limit : Z) (f : Filter) : Filter :=
  mkFilter (f_route f) (f_request f) (f_client f) (f_method f) (f_event f) (f_level f) (f_action f) (f_reason f)
    (f_rule f) (f_search f) (f_status f) (f_since f) (f_until f) (f_before f) limit.

(** ** Reading the ring *)

Definition sequence_of (e : option Entry) : Z := default 0 (Sequence <$> e).
Definition selects (f : Filter) (e : Entry) : bool := matches e f (to_lower (trim_space (f_search f))).

Definition Query (now : time) (f : Filter) (s : Ring.t Entry) : QueryResult :=
  let f := if f_limit f <=? 0 then with_limit 100 f else f in
  let '(es, more) :=
    Ring.scan_back (λ e, Ring.before_cursor Sequence (f_before f) e && selects f e) (f_limit f) s
      (Z.to_nat (Ring.count s)) [] in
  mkResult (format_rfc3339 now) (Ring.capacity s) (Ring.count s) (Ring.dropped s)
    (if 0 <? Ring.count s then sequence_of (Ring.oldest s) else 0)
    (if 0 <? Ring.count s then sequence_of (Ring.newest s) else 0)
    (len es) more (if more && (0 <? len es) then sequence_of (last es) else 0)
    (filters f) es.

Definition exportBatch (f : Filter) (maxSequence before limit : Z) (s : Ring.t Entry) : list Entry :=
  if limit <=? 0 then []
  else Ring.collect_back
         (λ e, negb ((maxSequence <? Sequence e) || ((0 <? before) && (before <=? Sequence e))) && selects f e)
         limit s (Z.to_nat (Ring.count s)) [].

(** The batches of [Export]; each locks the store anew and finds it in the next
    of the given states. *)
Fixpoint export_loop (f : Filter) (maxSequence remaining before : Z) (stores : list (Ring.t Entry)) : list Entry :=
  match stores with
  | [] => []
  | s :: stores =>
      if (0 <? remaining) && (0 <? maxSequence) then
        let batchLimit := Z.min exportBatchSize remaining in
        let batch := exportBatch f maxSequence before batchLimit s in
        if len batch =? 0 then []
        else batch ++
             (if len batch <? batchLimit then []
              else export_loop f maxSequence (remaining - len batch) (sequence_of (last batch)) stores)
      else []
  end.

Definition export_limit (f : Filter) (capacity : Z) : Z :=
  if (f_limit f <=? 0) || (capacity <? f_limit f) then capacity else f_limit f.

(** The entries an export writes: [s] is the store when it starts. *)
Definition export_entries (f : Filter) (s : Ring.t Entry) (stores : list (Ring.t Entry)) : list Entry :=
  let maxSequence := if 0 <? Ring.count s then sequence_of (Ring.newest s) else 0 in
  export_loop f maxSequence (export_limit f (Ring.capacity s)) (f_before f) stores.

(** ** CSV *)

Definition safeCSVCell (value : str) : str :=
  let trimmed := trim_left_bytes [" "%char; chr 9; chr 13; chr 10] value in
  match trimmed with
  | [] => value
  | c :: _ => if mem_byte c "=+-@" then "'"%char :: value else value
  end.

(** [csv.Writer.fieldNeedsQuotes] with the comma as separator. *)
Definition fieldNeedsQuotes (field : str) : bool :=
  if field =?s [] then false
  else if field =?s [backslash; "."%char] then true
  else existsb (λ c, mem_byte c [chr 10; chr 13; dquote; ","%char]) field
       || negb (trim_left_space field =?s field).

Definition csv_field (field : str) : str :=
  if fieldNeedsQuotes field then
    [dquote] ++ flat_map (λ c, if c =?c dquote then [dquote; dquote] else [c]) field ++ [dquote]
  else field.

(** [csv.Writer.Write] *)
Definition csv_record (record : list str) : str := join "," (csv_field <$> record) ++ [chr 10].

Definition format_bool (b : bool) : str := if b then lit "true" else lit "false".

Section csv.
(** [strconv.FormatFloat(f, 'f', 3, 64)] and [json.Encoder.Encode] *)
Context (format_float3 : float64 → str) (encode : Entry → option str).

Definition csv_header : list str :=
  lits ["sequence"; "timestamp"; "level"; "event"; "request_id"; "client_ip"; "method"; "host"; "path";
        "path_fingerprint"; "route"; "status"; "action"; "reason"; "score"; "rule_ids"; "duration_ms"; "auto_banned"].

Definition csv_row (e : Entry) : list str :=
  safeCSVCell <$>
    [itoa (Sequence e); Timestamp e; Level e; Event e; RequestID e; ClientIP e; Method e; Host e; Path e;
     PathFingerprint e; Route e; itoa (Status e); Action e; Reason e; itoa (Score e); join "|" (RuleIDs e);
     format_float3 (DurationMS e); format_bool (AutoBanned e)].

(** [inl] is an error: the format is not supported, or an entry cannot be
    encoded (a part of the lines before it may have been written).  [inr] is
    what a writer that accepts everything receives. *)
Definition Export (f : Filter) (format : str) (s : Ring.t Entry) (stores : list (Ring.t Entry)) : str + str :=
  let format := to_lower format in
  if negb (format =?s "csv") && negb (format =?s "ndjson") && negb (format =?s "jsonl")
  then inl (lit "unsupported export format")
  else
    let es := export_entries f s stores in
    if format =?s "csv" then inr (csv_record csv_header ++ flat_map csv_record (csv_row <$> es))
    else match mapM encode es with
         | Some lines => inr (concat lines)
         | None => inl (lit "encode")
         end.
End csv.

End log.
End SecurityLog.
