(* ===== verification/SecurityLogFile.v ===== *)
(** * The persistent security log: the file of securitylog/store.go

    The NDJSON file behind the ring: writing, rotation, restoration after a
    restart and clearing, over a disk whose every system call may fail. *)

From stdpp Require Import sorting.
From S2P Require Import Prelude GoStr GoText GoFloat Ring SecPolicy Waf SecurityLog.
Import SecurityLog.

Module Persist.

(** ** The disk

    Files by path; a handle is a path with the mode it was opened in (the code
    closes a file before it renames it).  Every system call takes the next
    outcome of [faults]: [Bad n] fails, a write after [n] bytes.  A call finds
    an empty list of faults to be [Good]; a call whose result the code ignores
    takes none. *)

Inductive outcome := Good | Bad (written : nat).

Record disk := mkDisk { files : gmap str str; faults : list outcome }.

Record File := mkFile { fh_path : str; fh_append : bool; fh_offset : Z }.

Definition take_fault (d : disk) : outcome * disk :=
  match faults d with
  | [] => (Good, d)
  | o :: os => (o, mkDisk (files d) os)
  end.

Definition set_file (path content : str) (d : disk) : disk := mkDisk (<[path := content]> (files d)) (faults d).

(** [os.OpenFile] with [O_CREATE] and either [O_APPEND] or [O_TRUNC]. *)
Definition open_file (path : str) (append : bool) (d : disk) : option File * disk :=
  match take_fault d with
  | (Bad _, d) => (None, d)
  | (Good, d) =>
      (Some (mkFile path append 0),
       set_file path (if append then default [] (files d !! path) else []) d)
  end.

(** [f.Close], [os.MkdirAll]: nothing but the outcome matters. *)
Definition plain_call (d : disk) : bool * disk :=
  match take_fault d with (Good, d) => (true, d) | (Bad _, d) => (false, d) end.

(** The bytes of [data] written at [offset] of [content]. *)
Definition write_at (content : str) (offset : Z) (data : str) : str :=
  let n := Z.to_nat offset in
  take n content ++ replicate (n - length content) (chr 0) ++ data ++ drop (n + length data) content.

(** [f.Write]: the bytes written, whether all, and the handle after it. *)
Definition write_file (f : File) (data : str) (d : disk) : Z * bool * File * disk :=
  let '(o, d) := take_fault d in
  let '(data, ok) := match o with Good => (data, true) | Bad n => (take n data, false) end in
  let content := default [] (files d !! fh_path f) in
  let at_ := if fh_append f then len content else fh_offset f in
  (len data, ok, mkFile (fh_path f) (fh_append f) (at_ + len data), set_file (fh_path f) (write_at content at_ data) d).

(** [os.Remove]; [removeIfExists] takes a missing file for success. *)
Definition removeIfExists (path : str) (d : disk) : bool * disk :=
  match take_fault d with
  | (Good, d) => (true, mkDisk (delete path (files d)) (faults d))
  | (Bad _, d) => (false, d)
  end.

Definition replaceRename (src dst : str) (d : disk) : bool * disk :=
  match take_fault d with                                 (* os.Stat *)
  | (Bad _, d) => (false, d)
  | (Good, d) =>
      match files d !! src with
      | None => (true, d)
      | Some content =>
          match removeIfExists dst d with
          | (false, d) => (false, d)
          | (true, d) =>
              match take_fault d with                     (* os.Rename *)
              | (Bad _, d) => (false, d)
              | (Good, d) => (true, mkDisk (<[dst := content]> (delete src (files d))) (faults d))
              end
          end
      end
  end.

(** ** The store *)

Record Store := mkStore {
  ring : Ring.t Entry; file : option File; filePath : str; fileBytes : Z; maxFileBytes : Z; maxBackups : Z;
  fileErrors : Z }.

Definition with_ring (r : Ring.t Entry) (s : Store) : Store :=
  mkStore r (file s) (filePath s) (fileBytes s) (maxFileBytes s) (maxBackups s) (fileErrors s).
Definition with_file (f : option File) (bytes : Z) (s : Store) : Store :=
  mkStore (ring s) f (filePath s) bytes (maxFileBytes s) (maxBackups s) (fileErrors s).
Definition count_error (s : Store) : Store :=
  mkStore (ring s) (file s) (filePath s) (fileBytes s) (maxFileBytes s) (maxBackups s) (wrapu64 (fileErrors s + 1)).

(** [fmt.Sprintf("%s.%d", s.filePath, i)] *)
Definition backup (path : str) (i : Z) : str := path ++ "." ++ itoa i.

Definition file_size (path : str) (d : disk) : Z := len (default [] (files d !! path)).

Definition reopenAppendLocked (s : Store) (d : disk) : Store * disk :=
  match open_file (filePath s) true d with
  | (None, d) => (s, d)
  | (Some f, d) =>
      match plain_call d with                             (* f.Stat *)
      | (false, d) => (s, d)
      | (true, d) => (with_file (Some f) (file_size (filePath s) d) s, d)
      end
  end.

(** [for i := s.maxBackups - 1; rotationErr == nil && i >= 1; i--] *)
Fixpoint shift_backups (path : str) (i : nat) (d : disk) : bool * disk :=
  match i with
  | O => (true, d)
  | S i' =>
      match replaceRename (backup path (Z.of_nat i)) (backup path (Z.of_nat i + 1)) d with
      | (false, d) => (false, d)
      | (true, d) => shift_backups path i' d
      end
  end.

(** The renaming part of [rotateLocked]. *)
Definition rename_all (s : Store) (d : disk) : bool * disk :=
  if 0 <? maxBackups s then
    match removeIfExists (backup (filePath s) (maxBackups s)) d with
    | (false, d) => (false, d)
    | (true, d) =>
        match shift_backups (filePath s) (Z.to_nat (maxBackups s - 1)) d with
        | (false, d) => (false, d)
        | (true, d) => replaceRename (filePath s) (backup (filePath s) 1) d
        end
    end
  else removeIfExists (filePath s) d.

Definition rotateLocked (s : Store) (d : disk) : bool * Store * disk :=
  let '(closed, d) := match file s with Some _ => plain_call d | None => (true, d) end in
  let s := with_file None (fileBytes s) s in
  if negb closed then (false, s, d)
  else
    match rename_all s d with
    | (false, d) => let '(s, d) := reopenAppendLocked s d in (false, s, d)
    | (true, d) =>
        match open_file (filePath s) false d with
        | (None, d) => let '(s, d) := reopenAppendLocked s d in (false, s, d)
        | (Some f, d) => (true, with_file (Some f) 0 s, d)
        end
    end.

Section persist.
Context {U : Unicode} {T : RFC3339}.
(** [json.Marshal] and [json.Unmarshal] of an [Entry]. *)
Context (marshal : Entry → option str) (unmarshal : str → option Entry).

Definition newline : ascii := chr 10.

(** The end of [writeFileLocked]: [s.file.Write(data)]. *)
Definition write_record (data : str) (s : Store) (d : disk) : Store * disk :=
  match file s with
  | None => (count_error s, d)
  | Some f =>
      let '(n, ok, f, d) := write_file f data d in
      (if ok then with_file (Some f) (fileBytes s + n) s else count_error (with_file (Some f) (fileBytes s) s), d)
  end.

Definition writeFileLocked (e : Entry) (s : Store) (d : disk) : Store * disk :=
  match file s with
  | None => (s, d)
  | Some _ =>
      match marshal e with
      | None => (count_error s, d)
      | Some data =>
          let data := data ++ [newline] in
          if maxFileBytes s <? fileBytes s + len data then
            match rotateLocked s d with
            | (false, s, d) => (count_error s, d)
            | (true, s, d) => write_record data s d
            end
          else write_record data s d
      end
  end.

Definition Append (now : time) (e : Entry) (s : Store) (d : disk) : Entry * Store * disk :=
  let e := with_sequence (Ring.nextSeq (ring s)) (normalizeEntry now e) in
  let s := with_ring (Ring.push e (Ring.bump (ring s))) s in
  let '(s, d) := writeFileLocked e s d in (e, s, d).

(** ** Restoration *)

(** [bufio.Reader.ReadSlice] over a buffer of 64 KiB. *)
Inductive slice_end := SliceLine | SliceFull | SliceEOF.
Definition read_slice (rest : str) : str * slice_end * str :=
  let size := Z.to_nat (64 * 2 ^ 10) in
  match index_byte (take size rest) newline with
  | Some i => (take (S i) rest, SliceLine, drop (S i) rest)
  | None => if len rest <? 64 * 2 ^ 10 then (rest, SliceEOF, []) else (take size rest, SliceFull, drop size rest)
  end.

(** [readPersistentLogLine]: the line, whether it was too long, whether the file
    ended with it, and the rest.  [fuel] is more than the bytes left. *)
Fixpoint readPersistentLogLine (fuel : nat) (line : str) (oversized : bool) (rest : str) : str * bool * bool * str :=
  match fuel with
  | O => (line, oversized, true, rest)
  | S fuel =>
      let '(fragment, e, rest) := read_slice rest in
      let '(line, oversized) :=
        if oversized then (line, true)
        else if maxPersistentLogLineBytes <? len line + len fragment then ([], true)
        else (line ++ fragment, false) in
      match e with
      | SliceLine => (line, oversized, false, rest)
      | SliceEOF => (line, oversized, true, rest)
      | SliceFull => readPersistentLogLine fuel line oversized rest
      end
  end.

(** The ring, the highest sequence number so far, and the errors counted. *)
Record restoring := mkRestoring { r_ring : Ring.t Entry; r_highest : Z; r_errors : Z }.

Definition restore_error (r : restoring) : restoring :=
  mkRestoring (r_ring r) (r_highest r) (wrapu64 (r_errors r + 1)).

Definition restore_line (now : time) (line : str) (oversized : bool) (r : restoring) : restoring :=
  if oversized then restore_error r
  else
    let trimmed := trim_space line in
    if 0 <? len trimmed then
      if negb (valid_utf8 trimmed) then restore_error r
      else match unmarshal trimmed with
           | None => restore_error r
           | Some entry =>
               let entry := normalizeEntry now entry in
               let entry :=
                 if (Sequence entry =? 0) || (Sequence entry <=? r_highest r)
                 then with_sequence (wrapu64 (r_highest r + 1)) entry else entry in
               mkRestoring (Ring.push entry (r_ring r)) (Sequence entry) (r_errors r)
           end
    else r.

Fixpoint restore_lines (fuel : nat) (now : time) (rest : str) (r : restoring) : restoring :=
  match fuel with
  | O => r
  | S fuel =>
      let '(line, oversized, eof, rest) := readPersistentLogLine (S (length rest)) [] false rest in
      let r := restore_line now line oversized r in
      if (eof : bool) then r else restore_lines fuel now rest r
  end.

(** One path: a file that cannot be opened is an error unless it is missing. *)
Definition restore_file (now : time) (st : restoring * disk) (path : str) : restoring * disk :=
  let '(r, d) := st in
  match take_fault d with
  | (Bad _, d) => (restore_error r, d)
  | (Good, d) =>
      match files d !! path with
      | None => (r, d)
      | Some content => (restore_lines (S (length content)) now content r, d)
      end
  end.

(** The backups from the oldest to the newest, then the active file. *)
Definition restore_paths (path : str) (maxBackups : Z) : list str :=
  (λ i, backup path (Z.of_nat i)) <$> reverse (seq 1 (Z.to_nat maxBackups)).

Definition restorePersistentEntries (now : time) (s : Store) (d : disk) : Store * disk :=
  let '(r, d) := foldl (restore_file now) (mkRestoring (ring s) 0 (fileErrors s), d)
                   (restore_paths (filePath s) (maxBackups s) ++ [filePath s]) in
  let ring' := r_ring r in
  let ring' := if Ring.nextSeq ring' <=? r_highest r
               then Ring.mk (Ring.entries ring') (Ring.capacity ring') (Ring.head ring') (Ring.count ring')
                      (wrapu64 (r_highest r + 1)) (Ring.dropped ring')
               else ring' in
  (mkStore ring' (file s) (filePath s) (fileBytes s) (maxFileBytes s) (maxBackups s) (r_errors r), d).

Definition ensureTrailingNewlineLocked (s : Store) (d : disk) : Store * disk :=
  match file s with
  | None => (s, d)
  | Some f =>
      if fileBytes s =? 0 then (s, d)
      else
        match plain_call d with                           (* f.ReadAt *)
        | (false, d) => (count_error s, d)
        | (true, d) =>
            match last (default [] (files d !! fh_path f)) with
            | None => (count_error s, d)
            | Some c =>
                if c =?c newline then (s, d)
                else
                  let '(n, ok, f, d) := write_file f [newline] d in
                  (if ok then with_file (Some f) (fileBytes s + n) s
                   else count_error (with_file (Some f) (fileBytes s) s), d)
            end
        end
  end.

(** [config.LogStoreConfig] *)
Record LogStoreConfig := mkLogStore {
  c_capacity : Z; c_default_page : Z; c_max_page : Z; c_path : str; c_max_bytes : Z; c_backups : Z }.

Definition NewWithConfig (now : time) (cfg : LogStoreConfig) (d : disk) : option Store * disk :=
  let capacity := if c_capacity cfg <=? 0 then 1 else c_capacity cfg in
  let s := mkStore (Ring.make zero_entry capacity) None (trim_space (c_path cfg)) 0 (c_max_bytes cfg) (c_backups cfg) 0 in
  if filePath s =?s [] then (Some s, d)
  else
    let s := if maxFileBytes s <=? 0
             then mkStore (ring s) (file s) (filePath s) (fileBytes s) (20 * 2 ^ 20) (maxBackups s) (fileErrors s) else s in
    match plain_call d with                               (* os.MkdirAll *)
    | (false, d) => (None, d)
    | (true, d) =>
        let '(s, d) := restorePersistentEntries now s d in
        match open_file (filePath s) true d with
        | (None, d) => (None, d)
        | (Some f, d) =>
            match plain_call d with                       (* f.Stat *)
            | (false, d) => (None, d)
            | (true, d) =>
                let s := with_file (Some f) (file_size (filePath s) d) s in
                let '(s, d) := ensureTrailingNewlineLocked s d in (Some s, d)
            end
        end
    end.

(** ** Clearing and closing *)

Fixpoint remove_backups (path : str) (i n : nat) (d : disk) : bool * disk :=
  match n with
  | O => (true, d)
  | S n =>
      let '(ok, d) := removeIfExists (backup path (Z.of_nat i)) d in
      let '(ok', d) := remove_backups path (S i) n d in (ok && ok', d)
  end.

(** The entries removed, whether the error is nil. *)
Definition Clear (s : Store) (d : disk) : Z * bool * Store * disk :=
  let n := Ring.count (ring s) in
  let s := with_ring (Ring.clear zero_entry (ring s)) s in
  let '(ok, s, d) :=
    match file s with
    | None => (true, s, d)
    | Some f =>
        match plain_call d with                           (* f.Truncate(0) *)
        | (false, d) => (false, s, d)
        | (true, d) =>
            let d := set_file (fh_path f) [] d in
            match plain_call d with                       (* f.Seek(0, io.SeekStart) *)
            | (false, d) => (false, with_file (Some f) 0 s, d)
            | (true, d) => (true, with_file (Some (mkFile (fh_path f) (fh_append f) 0)) 0 s, d)
            end
        end
    end in
  let '(ok', d) := if filePath s =?s [] then (true, d) else remove_backups (filePath s) 1 (Z.to_nat (maxBackups s)) d in
  (n, ok && ok', s, d).

Definition Close (s : Store) (d : disk) : bool * Store * disk :=
  match file s with
  | None => (true, s, d)
  | Some _ => let '(ok, d) := plain_call d in (ok, with_file None (fileBytes s) s, d)
  end.

Record Stats := mkStats {
  s_enabled : bool; s_capacity : Z; s_retained : Z; s_dropped : Z; s_oldest : Z; s_newest : Z;
  s_file_enabled : bool; s_file_path : str; s_file_bytes : Z; s_file_errors : Z }.

Definition Stats_ (s : Store) : Stats :=
  let r := ring s in
  mkStats true (Ring.capacity r) (Ring.count r) (Ring.dropped r)
    (if 0 <? Ring.count r then sequence_of (Ring.oldest r) else 0)
    (if 0 <? Ring.count r then sequence_of (Ring.newest r) else 0)
    (negb (filePath s =?s [])) (filePath s) (fileBytes s) (fileErrors s).

End persist.
End Persist.
