(* ===== verification/SecurityLogFacts.v ===== *)
(** * The security log: what it promises

    Exports are exact and cannot smuggle spreadsheet formulas; a restart gives
    the newest entries back from the files. *)

From stdpp Require Import sorting.
From S2P Require Import Prelude GoStr GoText GoFloat Ring SecPolicy Waf SecurityLog SecurityLogFile.
Import SecurityLog.

Module LogFacts.

Lemma filter_ext_in {A} (P Q : A → bool) (l : list A) : (∀ x, x ∈ l → P x = Q x) → filter P l = filter Q l.
Proof.
  induction l as [|x l IH]; intros H; [done|]. rewrite !filter_cons, (H x), IH; [done| |]; set_solver.
Qed.

Section facts.
Context {U : Unicode} {T : RFC3339}.

(** ** Export *)

(** The entries an export is about, newest first. *)
Definition answer (f : Filter) (retained : list Entry) : list Entry :=
  filter (λ e, Ring.before_cursor Sequence (f_before f) e && selects f e) (reverse retained).

Definition frozen (f : Filter) (maxSequence : Z) (e : Entry) : bool := (Sequence e <=? maxSequence) && selects f e.

Lemma exportBatch_visible f maxSequence before limit s : Ring.shape s → 0 < limit →
  exportBatch f maxSequence before limit s
  = take (Z.to_nat limit) (Ring.visible Sequence (frozen f maxSequence) before s).
Proof.
  intros Hs Hl. unfold exportBatch. destruct (Z.leb_spec limit 0); [lia|]. rewrite Ring.collect_back_all by done. f_equal.
  unfold Ring.visible, frozen, Ring.before_cursor. apply list_filter_iff. intros e.
  rewrite !Is_true_true, !andb_true_iff, !negb_true_iff, orb_false_iff, Z.leb_le, Z.ltb_ge. tauto.
Qed.

Lemma take_prefix {A} n (l k : list A) : l `prefix_of` k → take n l `prefix_of` take n k.
Proof. intros [r ->]. rewrite take_app. by eexists. Qed.

Lemma elem_take_prefix {A} n (l k : list A) x : l `prefix_of` k → NoDup k → x ∈ l → x ∈ take n k → x ∈ take n l.
Proof.
  intros [r ->] Hd Hx Ht. rewrite take_app, elem_of_app in Ht. destruct Ht as [Ht|Ht]; [done|].
  apply NoDup_app in Hd as (_ & Hd & _). destruct (Hd x Hx). eapply elem_of_take in Ht as (i & Hi & _).
  by eapply list_elem_of_lookup_2.
Qed.

Lemma visible_NoDup pass c s : Ring.numbered Sequence s → NoDup (Ring.visible Sequence pass c s).
Proof.
  intros Hn. pose proof (Ring.visible_descending Sequence pass c s Hn) as Hd. unfold Ring.descending in Hd.
  induction Hd as [|x l Hl IH Hx]; constructor; [|done]. intros Hin. pose proof (proj1 (Forall_forall _ _) Hx x Hin). simpl in *. lia.
Qed.

Lemma export_loop_cons f maxSequence remaining before s stores :
  export_loop f maxSequence remaining before (s :: stores)
  = (if (0 <? remaining) && (0 <? maxSequence) then
       let batchLimit := Z.min exportBatchSize remaining in
       let batch := exportBatch f maxSequence before batchLimit s in
       if len batch =? 0 then []
       else batch ++ (if len batch <? batchLimit then []
                      else export_loop f maxSequence (remaining - len batch) (sequence_of (last batch)) stores)
     else []).
Proof. done. Qed.

Lemma export_loop_visible f maxSequence remaining before s stores :
  0 < maxSequence → Ring.shape s → Ring.numbered Sequence s → 1 <= Ring.nextSeq s <= max_uint64 →
  Ring.session Sequence s stores →
  let out := export_loop f maxSequence remaining before (s :: stores) in
  let all := Ring.visible Sequence (frozen f maxSequence) before s in
  out `prefix_of` take (Z.to_nat remaining) all
  ∧ (remaining <= (len stores + 1) * exportBatchSize →
     ∀ x, x ∈ take (Z.to_nat remaining) all → x ∈ Ring.retained (default s (last stores)) → x ∈ out).
Proof.
  intros Hm. revert remaining before s. induction stores as [|s' stores IH]; intros remaining before s Hs Hn Hb Hses;
    cbv zeta; set (all := Ring.visible Sequence (frozen f maxSequence) before s) in *;
    rewrite export_loop_cons; rewrite (proj2 (Z.ltb_lt 0 maxSequence) Hm), andb_true_r;
    (destruct (Z.ltb_spec 0 remaining) as [Hr|Hr]; cycle 1;
      [replace (Z.to_nat remaining) with 0%nat by lia; rewrite take_0; split; [apply prefix_nil|set_solver]|]);
    cbv zeta; set (b := Z.min exportBatchSize remaining); assert (0 < b <= remaining) as Hbr by (unfold b, exportBatchSize; lia);
    rewrite exportBatch_visible by (done || lia); fold all;
    set (batch := take (Z.to_nat b) all);
    assert (batch `prefix_of` take (Z.to_nat remaining) all) as Hpre
      by (exists (drop (Z.to_nat b) (take (Z.to_nat remaining) all)); unfold batch;
          rewrite <- (take_drop (Z.to_nat b) (take (Z.to_nat remaining) all)) at 1; rewrite take_take; do 2 f_equal; lia);
    assert (len batch < b → batch = all) as Hex
      by (unfold batch; intros Hlt; apply take_ge; unfold len in Hlt; rewrite length_take in Hlt; lia);
    (destruct (Z.eqb_spec (len batch) 0) as [Hz|Hz];
      [rewrite <- Hex by lia; apply len_zero in Hz; rewrite Hz, take_nil; split; [apply prefix_nil|done]|]);
    (destruct (Z.ltb_spec (len batch) b) as [Hlt|Hge];
      [rewrite app_nil_r; split; [done|]; rewrite Hex by done; intros _ x Hx _; apply elem_of_take in Hx as (i & Hi & _);
       by eapply list_elem_of_lookup_2|]).
  - simpl. rewrite app_nil_r. split; [done|]. rewrite len_nil. intros Hrem x Hx _. unfold batch.
    by replace b with remaining by (unfold b; lia).
  - assert (len batch = b) as Hlen by (unfold batch, len in *; rewrite length_take in *; lia).
    destruct (last batch) as [e|] eqn:He; [|apply last_None in He; rewrite He in Hz; done].
    change (sequence_of (Some e)) with (Sequence e). destruct Hses as [Hev Hses].
    destruct (Ring.evolves_inv Sequence s s' Hev Hs Hn Hb) as (H1 & H2 & H3).
    destruct (Ring.visible_next Sequence _ before s s' _ e Hev Hs Hn Hb He) as [Hp Hin]. fold all in Hp, Hin.
    destruct (IH (remaining - len batch) (Sequence e) s' H1 H2 ltac:(lia) Hses) as [IH1 IH2]. cbv zeta in IH1, IH2.
    set (rest := export_loop f maxSequence (remaining - len batch) (Sequence e) (s' :: stores)) in *.
    assert (take (Z.to_nat remaining) all = batch ++ take (Z.to_nat (remaining - len batch)) (drop (Z.to_nat b) all)) as Hsplit.
    { unfold batch. rewrite <- (take_drop (Z.to_nat b) all) at 1. rewrite take_app_ge by (rewrite length_take; lia). do 2 f_equal.
      fold batch. unfold len in *. lia. }
    rewrite Hsplit. split.
    + apply prefix_app. etrans; [exact IH1|]. by apply take_prefix.
    + rewrite len_cons. intros Hrem x Hx Hl. rewrite elem_of_app in Hx |- *. destruct Hx as [Hx|Hx]; [by left|right].
      assert (x ∈ Ring.retained (default s' (last stores))) as Hl' by (rewrite last_cons in Hl; by destruct (last stores)).
      apply IH2; [unfold b, exportBatchSize in *; lia| |done].
      apply (elem_take_prefix _ _ (drop (Z.to_nat b) all)); [done| | |done].
      * pose proof (visible_NoDup (frozen f maxSequence) before s Hn) as Hd. fold all in Hd.
        rewrite <- (take_drop (Z.to_nat b) all) in Hd. by apply NoDup_app in Hd as (_ & _ & ?).
      * apply Hin; [apply elem_of_take in Hx as (i & Hi & _); by eapply list_elem_of_lookup_2|].
        apply (Ring.session_last Sequence s' stores); try (done || lia).
        assert (x ∈ all) as Hxa.
        { apply elem_of_take in Hx as (i & Hi & _). rewrite lookup_drop in Hi. by eapply list_elem_of_lookup_2. }
        apply Ring.visible_elem in Hxa as (_ & _ & Hr').
        pose proof (proj1 (Forall_forall _ _) (proj2 Hn) x Hr') as Hq. cbv beta in Hq. lia.
Qed.

Lemma numbered_newest s e : Ring.numbered Sequence s → last (Ring.retained s) = Some e →
  ∀ x, x ∈ Ring.retained s → Sequence x <= Sequence e.
Proof.
  intros [H _] Hl x Hx. apply last_Some in Hl as [k Hk]. rewrite Hk in H, Hx. apply elem_of_app in Hx as [Hx|Hx].
  - clear Hk. induction k as [|a k IH]; [by apply not_elem_of_nil in Hx|]. simpl in H. inversion_clear H as [|? ? Hs Hf].
    apply elem_of_cons in Hx as [->|Hx]; [|by apply IH]. apply Forall_app in Hf as [_ Hf]. inversion_clear Hf. lia.
  - apply list_elem_of_singleton in Hx as ->. lia.
Qed.

(** C20: An export is exact even though the log goes on while a slow client reads
    it: whatever is appended or cleared between its batches, it writes a prefix
    of the newest entries that passed the filter when it started, newest first
    and at most the limit, none twice and none younger; and with enough batches
    an entry it lacks is one that the log has dropped meanwhile. *)
Theorem export_exact capacity f s stores :
  0 < capacity → Ring.evolves Sequence (Ring.make zero_entry capacity) s → Ring.session Sequence s stores →
  let out := export_entries f s stores in
  let all := take (Z.to_nat (export_limit f capacity)) (answer f (Ring.retained s)) in
  out `prefix_of` all
  ∧ (export_limit f capacity <= len stores * exportBatchSize →
     ∀ x, x ∈ all → x ∈ Ring.retained (default s (last stores)) → x ∈ out).
Proof.
  intros Hc Hev Hses. cbv zeta.
  destruct (Ring.evolves_inv Sequence _ s Hev) as (Hs & Hn & Hb);
    [by apply Ring.make_shape|split; constructor|done|]. cbn [Ring.nextSeq Ring.make] in Hb.
  pose proof (Ring.evolves_capacity Sequence _ _ Hev) as Hcap. cbn [Ring.capacity Ring.make] in Hcap.
  unfold export_entries. rewrite Hcap. pose proof (Ring.retained_length s Hs) as Hlen.
  destruct stores as [|s1 stores]; [split; [apply prefix_nil|]|].
  { change (@len (Ring.t Entry) []) with 0. intros Hl x Hx. replace (Z.to_nat (export_limit f capacity)) with 0%nat in Hx by lia.
    by apply not_elem_of_nil in Hx. }
  destruct (Z.ltb_spec 0 (Ring.count s)) as [Hcount|Hcount]; cycle 1.
  { rewrite export_loop_cons, andb_false_r. assert (Ring.retained s = []) as ->.
    { apply len_zero. pose proof (len_nonneg (Ring.retained s)). lia. }
    change (answer f []) with (@nil Entry). rewrite take_nil. split; [done|]. intros _ x Hx. by apply not_elem_of_nil in Hx. }
  rewrite Ring.newest_retained by done. destruct (last (Ring.retained s)) as [e|] eqn:He; cycle 1.
  { apply last_None in He. rewrite He in Hlen. change (len []) with 0 in Hlen. lia. }
  change (sequence_of (Some e)) with (Sequence e). pose proof (numbered_newest s e Hn He) as Hmax.
  assert (e ∈ Ring.retained s) as Hre by (apply last_Some in He as [k ->]; set_solver).
  pose proof (proj1 (Forall_forall _ _) (proj2 Hn) e Hre) as Hq. cbv beta in Hq.
  assert (answer f (Ring.retained s) = Ring.visible Sequence (frozen f (Sequence e)) (f_before f) s) as ->.
  { unfold answer, Ring.visible. apply filter_ext_in. intros x Hx. rewrite elem_of_reverse in Hx. unfold frozen.
    by rewrite (proj2 (Z.leb_le _ _) (Hmax x Hx)). }
  destruct Hses as [Hev1 Hses]. destruct (Ring.evolves_inv Sequence s s1 Hev1 Hs Hn ltac:(lia)) as (H1 & H2 & H3).
  destruct (export_loop_visible f (Sequence e) (export_limit f capacity) (f_before f) s1 stores) as [L1 L2]; try (done || lia).
  destruct (Ring.visible_frozen Sequence (frozen f (Sequence e)) (f_before f) (Sequence e + 1) s s1) as [P1 P2];
    try (done || lia).
  { intros x Hx. apply andb_true_iff in Hx as [Hx%Z.leb_le _]. lia. }
  split; [etrans; [exact L1|by apply take_prefix]|].
  rewrite len_cons. intros Hl x Hx Hr. apply L2; [lia| |].
  - apply (elem_take_prefix _ _ _ _ P1); [by apply visible_NoDup| |done]. apply elem_of_take in Hx as (i & Hi & _).
    apply list_elem_of_lookup_2 in Hi. apply P2; [done|]. apply Ring.visible_elem in Hi as (_ & _ & Hxr).
    pose proof (proj1 (Forall_forall _ _) (proj2 Hn) x Hxr) as Hqx. cbv beta in Hqx.
    apply (Ring.session_last Sequence s1 stores); try (done || lia). rewrite last_cons in Hr. by destruct (last stores).
  - rewrite last_cons in Hr. by destruct (last stores).
Qed.

(** ** CSV: the cells read back, and none is a formula

    A reader of RFC 4180, one record at a time. *)

Inductive csv_mode := CellStart | InPlain | InQuoted | QuoteSeen.

Fixpoint csv_read (mode : csv_mode) (cell : str) (row : list str) (s : str) : option (list str * str) :=
  match s with
  | [] => None
  | c :: s =>
      match mode with
      | InQuoted =>
          if c =?c dquote then csv_read QuoteSeen cell row s else csv_read InQuoted (cell ++ [c]) row s
      | CellStart | InPlain | QuoteSeen =>
          if c =?c "," then csv_read CellStart [] (row ++ [cell]) s
          else if c =?c chr 10 then Some (row ++ [cell], s)
          else match mode with
               | CellStart => if c =?c dquote then csv_read InQuoted [] row s else csv_read InPlain [c] row s
               | InPlain => csv_read InPlain (cell ++ [c]) row s
               | _ => if c =?c dquote then csv_read InQuoted (cell ++ [dquote]) row s else None
               end
      end
  end.

(** All records of a file; [fuel] is more than its bytes. *)
Fixpoint csv_records (fuel : nat) (s : str) : option (list (list str)) :=
  match fuel, s with
  | _, [] => Some []
  | O, _ => None
  | S fuel, _ => '(row, s) ← csv_read CellStart [] [] s; rows ← csv_records fuel s; Some (row :: rows)
  end.

(** A cell that a spreadsheet takes for text: after blanks and line ends it
    does not begin with one of the formula characters. *)
Definition formula_free (cell : str) : Prop :=
  match trim_left_bytes [" "%char; chr 9; chr 13; chr 10] cell with
  | [] => True
  | c :: _ => mem_byte c "=+-@" = false
  end.

Lemma safeCSVCell_free value : formula_free (safeCSVCell value).
Proof.
  unfold safeCSVCell, formula_free. destruct (trim_left_bytes _ value) as [|c t] eqn:E; [by rewrite E|].
  destruct (mem_byte c "=+-@") eqn:Ec; [by vm_compute|]. by rewrite E.
Qed.

(** A byte that ends or opens something in a CSV file. *)
Definition csv_special (c : ascii) : bool := mem_byte c [chr 10; chr 13; dquote; ","%char].

Lemma special_false c : csv_special c = false → (c =?c ",") = false ∧ (c =?c chr 10) = false ∧ (c =?c dquote) = false.
Proof.
  unfold csv_special, mem_byte. cbn [existsb]. intros Hc. repeat (apply orb_false_iff in Hc as [? Hc]). auto.
Qed.

Lemma csv_read_plain cell row s rest d : Forall (λ c, csv_special c = false) s → d = ","%char ∨ d = chr 10 →
  csv_read InPlain cell row (s ++ d :: rest)
  = (if d =?c "," then csv_read CellStart [] (row ++ [cell ++ s]) rest else Some (row ++ [cell ++ s], rest)).
Proof.
  intros Hs Hd. revert cell. induction Hs as [|c s Hc Hs IH]; intros cell.
  - rewrite app_nil_r. by destruct Hd as [->| ->].
  - cbn [csv_read app]. destruct (special_false c Hc) as (E1 & E2 & _). rewrite E1, E2, IH. by rewrite <- app_assoc.
Qed.

Definition quote_byte (c : ascii) : str := if c =?c dquote then [dquote; dquote] else [c].

Lemma csv_read_quoted cell row s rest d : d = ","%char ∨ d = chr 10 →
  csv_read InQuoted cell row (flat_map quote_byte s ++ dquote :: d :: rest)
  = (if d =?c "," then csv_read CellStart [] (row ++ [cell ++ s]) rest else Some (row ++ [cell ++ s], rest)).
Proof.
  intros Hd. revert cell. induction s as [|c s IH]; intros cell.
  - rewrite app_nil_r. by destruct Hd as [->| ->].
  - cbn [flat_map]. unfold quote_byte at 1. destruct (c =?c dquote) eqn:Ec.
    + apply eqc_true in Ec as ->. cbn [app csv_read]. rewrite !eqc_refl. change (dquote =?c ",") with false.
      change (dquote =?c chr 10) with false. cbv iota. rewrite IH. by rewrite <- app_assoc.
    + cbn [app csv_read]. rewrite Ec, IH. by rewrite <- app_assoc.
Qed.

Lemma csv_field_cases s : csv_field s = [dquote] ++ flat_map quote_byte s ++ [dquote]
  ∨ (csv_field s = s ∧ Forall (λ c, csv_special c = false) s).
Proof.
  unfold csv_field. destruct (fieldNeedsQuotes s) eqn:E; [by left|]. right. split; [done|]. revert E. unfold fieldNeedsQuotes.
  destruct (s =?s []) eqn:E0; [by apply eqs_true in E0 as ->|]. destruct (s =?s [backslash; "."%char]); [done|].
  intros [E2 _]%orb_false_iff. clear E0. induction s as [|c s IH]; constructor; cbn [existsb] in E2; apply orb_false_iff in E2 as [E2 E3];
    [done|by apply IH].
Qed.

Lemma csv_read_field row s rest d : d = ","%char ∨ d = chr 10 →
  csv_read CellStart [] row (csv_field s ++ d :: rest)
  = (if d =?c "," then csv_read CellStart [] (row ++ [s]) rest else Some (row ++ [s], rest)).
Proof.
  intros Hd. destruct (csv_field_cases s) as [->|[-> Hs]].
  - rewrite <- !app_assoc. cbn [app csv_read]. change (dquote =?c ",") with false.
    change (dquote =?c chr 10) with false. rewrite eqc_refl. cbv iota. by apply csv_read_quoted.
  - destruct Hs as [|c s Hc Hs]; [by destruct Hd as [->| ->]|]. cbn [app csv_read].
    destruct (special_false c Hc) as (E1 & E2 & E3). rewrite E1, E2, E3. by apply csv_read_plain.
Qed.

Lemma csv_read_record row cells rest : cells ≠ [] →
  csv_read CellStart [] row (csv_record cells ++ rest) = Some (row ++ cells, rest).
Proof.
  unfold csv_record. intros Hne. rewrite <- app_assoc. cbn [app]. revert row.
  induction cells as [|cell cells IH]; intros row; [done|]. destruct cells as [|cell2 cells].
  - cbn [fmap list_fmap join]. rewrite csv_read_field by auto. by change (chr 10 =?c ",") with false.
  - rewrite fmap_cons. cbn [fmap list_fmap]. change (join "," (csv_field cell :: csv_field cell2 :: (csv_field <$> cells)))
      with (csv_field cell ++ lit "," ++ join "," (csv_field <$> cell2 :: cells)).
    rewrite <- !app_assoc. change (lit ",") with [","%char]. cbn [app]. rewrite csv_read_field by auto. rewrite eqc_refl.
    change [","%char] with (lit ","). rewrite IH by done. by rewrite <- app_assoc.
Qed.

Lemma csv_records_read rows fuel : Forall (λ r, r ≠ []) rows → (length (flat_map csv_record rows) <= fuel)%nat →
  csv_records fuel (flat_map csv_record rows) = Some rows.
Proof.
  intros Hr. revert fuel. induction Hr as [|r rows Hr _ IH]; intros fuel Hf; [by destruct fuel|].
  cbn [flat_map] in *. pose proof (csv_read_record [] r (flat_map csv_record rows) Hr) as Hread.
  rewrite length_app in Hf. assert (1 <= length (csv_record r))%nat as H1 by (unfold csv_record; rewrite length_app; simpl; lia).
  destruct fuel as [|fuel]; [lia|]. destruct (csv_record r ++ flat_map csv_record rows) as [|c s] eqn:E.
  { apply (f_equal length) in E. rewrite length_app in E. simpl in E. lia. }
  cbn [csv_records]. rewrite Hread. cbn [mbind option_bind]. by rewrite IH by lia.
Qed.

(** What an attacker puts into a request cannot corrupt a CSV export: read by
    the rules of RFC 4180 the file has the header and one record for every
    exported entry, each with exactly the cells of its row (so no text can break
    out of its cell), and every cell is one a spreadsheet takes for text. *)
Theorem export_csv_exact format_float3 encode f format s stores : to_lower format = lit "csv" →
  ∃ out, Export format_float3 encode f format s stores = inr out
  ∧ csv_records (length out) out = Some (csv_header :: (csv_row format_float3 <$> export_entries f s stores))
  ∧ ∀ e cell, cell ∈ csv_row format_float3 e → formula_free cell.
Proof.
  intros Hf. unfold Export. rewrite Hf. change (negb (lit "csv" =?s "csv")) with false.
  change (lit "csv" =?s "csv") with true. cbv iota. eexists. split; [reflexivity|]. split.
  - apply (csv_records_read (csv_header :: _)); [|done]. constructor; [done|]. apply Forall_fmap, Forall_true. done.
  - intros e cell Hc. unfold csv_row in Hc. apply list_elem_of_fmap in Hc as (v & -> & _). apply safeCSVCell_free.
Qed.

End facts.

(** ** A sample export *)

Section sample.

#[local] Instance sample_unicode : Unicode := unicode_ascii.
#[local] Instance sample_rfc3339 : RFC3339 :=
  {| parse_rfc3339 s := if s =?s "0001-01-01T00:00:00Z" then Some 0 else None;
     format_rfc3339 _ := lit "0001-01-01T00:00:00Z" |}.

Definition sample_entry (n : Z) (path : string) : Entry :=
  with_sequence n (normalizeEntry 3 (mkEntry 0 [] [] "request" [] [] [] "get" [] path [] [] 403 f_zero "block" [] 7
    (lits ["r2"; "R1"; "r1"]) [] 0 [] [] false false [])).
Definition logged (es : list Entry) (s : Ring.t Entry) : Ring.t Entry := foldl (λ s e, Ring.push e (Ring.bump s)) s es.
Definition sample_start : Ring.t Entry :=
  logged [sample_entry 1 "/a"; sample_entry 2 "=cmd()"; sample_entry 3 "/b,c"] (Ring.make zero_entry 4).
Definition sample_later : Ring.t Entry := logged [sample_entry 4 "/d"; sample_entry 5 "/e"] sample_start.
Definition sample_filter : Filter := mkFilter [] [] [] "GET" [] [] [] [] "r2" [] 0 0 0 0 0.

Lemma export_exact_witness :
  export_entries sample_filter sample_start [sample_later]
    `prefix_of` take (Z.to_nat (export_limit sample_filter 4)) (answer sample_filter (Ring.retained sample_start))
  ∧ Sequence <$> export_entries sample_filter sample_start [sample_later] = [3; 2].
Proof.
  assert (Ring.evolves Sequence (Ring.make zero_entry 4) sample_start) as H1
    by (do 3 (apply Ring.ev_push; [|by vm_compute|by vm_compute]); constructor).
  assert (Ring.evolves Sequence sample_start sample_later) as H2
    by (do 2 (apply Ring.ev_push; [|by vm_compute|by vm_compute]); constructor).
  split; [|by vm_compute]. exact (proj1 (export_exact 4 sample_filter sample_start [sample_later] ltac:(lia) H1 (conj H2 I))).
Defined.

Lemma export_csv_exact_witness : to_lower (lit "CSV") = lit "csv" ∧
  ∃ out, Export (λ _, lit "0.000") (λ _, None) sample_filter "CSV" sample_start [sample_later] = inr out
  ∧ csv_records (length out) out
    = Some (csv_header :: (csv_row (λ _, lit "0.000") <$> export_entries sample_filter sample_start [sample_later])).
Proof.
  split; [by vm_compute|].
  destruct (export_csv_exact (λ _, lit "0.000") (λ _, None) sample_filter "CSV" sample_start [sample_later])
    as (out & W1 & W2 & _); [by vm_compute|]. exists out. by split.
Defined.

End sample.
End LogFacts.
