(* ===== verification/RestartFacts.v ===== *)
(** * A restart gives the security log back

    On a disk without faults, what [NewWithConfig] restores from the files of
    an earlier run are the newest entries of that run. *)

From stdpp Require Import sorting pretty.
From S2P Require Import Prelude GoStr GoText GoFloat Ring SecPolicy Waf SecurityLog SecurityLogFile.
Import SecurityLog Persist.

Module Restart.

(** ** The files of a rotation *)

Section files.
Context (path : str).

Definition bk (i : nat) : str := backup path (Z.of_nat i).

Lemma bk_inj i j : bk i = bk j → i = j.
Proof.
  unfold bk, backup, itoa, lit. intros H. apply (inj (app path)), (inj (app (list_ascii_of_string "."))) in H.
  apply (f_equal string_of_list_ascii) in H. rewrite !string_of_list_ascii_of_string in H. apply pretty_Z_inj in H. lia.
Qed.

Lemma bk_path i : bk i ≠ path.
Proof.
  unfold bk, backup. intros H. apply (f_equal length) in H. rewrite length_app in H. simpl in H. lia.
Qed.

Definition rename_map (src dst : str) (m : gmap str str) : gmap str str :=
  match m !! src with None => m | Some c => <[dst := c]> (delete src (delete dst m)) end.

Lemma replaceRename_ok src dst m : src ≠ dst →
  replaceRename src dst (mkDisk m []) = (true, mkDisk (rename_map src dst m) []).
Proof. intros Hne. unfold replaceRename, rename_map. cbn. by destruct (m !! src). Qed.

Lemma rename_map_dst src dst m : src ≠ dst → m !! dst = None → rename_map src dst m !! dst = m !! src.
Proof. intros Hne Hd. unfold rename_map. destruct (m !! src) eqn:E; [by rewrite lookup_insert_eq|done]. Qed.
Lemma rename_map_src src dst m : src ≠ dst → rename_map src dst m !! src = None.
Proof.
  intros Hne. unfold rename_map. destruct (m !! src) eqn:E; [|done]. by rewrite lookup_insert_ne, lookup_delete_eq.
Qed.
Lemma rename_map_other src dst q m : q ≠ src → q ≠ dst → rename_map src dst m !! q = m !! q.
Proof.
  intros H1 H2. unfold rename_map. destruct (m !! src) eqn:E; [|done]. by rewrite lookup_insert_ne, !lookup_delete_ne.
Qed.

Fixpoint shift_map (n : nat) (m : gmap str str) : gmap str str :=
  match n with O => m | S n' => shift_map n' (rename_map (bk n) (bk (S n)) m) end.

Lemma shift_backups_ok n m : shift_backups path n (mkDisk m []) = (true, mkDisk (shift_map n m) []).
Proof.
  revert m. induction n as [|n IH]; intros m; [done|]. cbn [shift_backups shift_map].
  replace (Z.of_nat (S n) + 1) with (Z.of_nat (S (S n))) by lia. fold (bk (S n)) (bk (S (S n))).
  rewrite replaceRename_ok by (intros ?%bk_inj; lia). apply IH.
Qed.

Lemma shift_map_spec n m : m !! bk (S n) = None →
  (∀ j, (1 <= j <= n)%nat → shift_map n m !! bk (S j) = m !! bk j)
  ∧ shift_map n m !! bk 1 = None
  ∧ (∀ q, (∀ j, (1 <= j <= S n)%nat → q ≠ bk j) → shift_map n m !! q = m !! q).
Proof.
  revert m. induction n as [|n IH]; intros m Hm; [split_and!; (done || intros; lia)|]. cbn [shift_map].
  assert (bk (S n) ≠ bk (S (S n))) as Hne by (intros ?%bk_inj; lia).
  set (m' := rename_map _ _ m). destruct (IH m' (rename_map_src _ _ _ Hne)) as (I1 & I2 & I3). split_and!; [|done|].
  - intros j Hj. destruct (decide (j = S n)) as [->|Hj'].
    + rewrite I3 by (intros j Hj2 ?%bk_inj; lia). by apply rename_map_dst.
    + rewrite I1 by lia. apply rename_map_other; intros ?%bk_inj; lia.
  - intros q Hq. rewrite I3 by (intros; apply Hq; lia). apply rename_map_other; apply Hq; lia.
Qed.

Definition rotate_map (b : nat) (m : gmap str str) : gmap str str :=
  match b with
  | O => delete path m
  | S n => rename_map path (bk 1) (shift_map n (delete (bk b) m))
  end.

Lemma rotate_map_spec b m :
  (∀ i, (1 <= i < b)%nat → rotate_map b m !! bk (S i) = m !! bk i)
  ∧ ((1 <= b)%nat → rotate_map b m !! bk 1 = m !! path).
Proof.
  destruct b as [|n]; [split; intros; lia|]. cbn [rotate_map].
  destruct (shift_map_spec n (delete (bk (S n)) m)) as (S1 & S2 & S3); [apply lookup_delete_eq|]. split.
  - intros i Hi. rewrite rename_map_other; [|by apply bk_path|intros ?%bk_inj; lia]. rewrite S1 by lia.
    apply lookup_delete_ne. intros ?%bk_inj; lia.
  - intros _. rewrite rename_map_dst; [|by apply not_eq_sym, bk_path|done]. rewrite S3 by (intros j _; apply not_eq_sym, bk_path).
    apply lookup_delete_ne, bk_path.
Qed.

End files.

Lemma rename_all_ok s m : rename_all s (mkDisk m [])
  = (true, mkDisk (rotate_map (filePath s) (Z.to_nat (maxBackups s)) m) []).
Proof.
  unfold rename_all. destruct (Z.ltb_spec 0 (maxBackups s)) as [Hb|Hb].
  - destruct (Z.to_nat (maxBackups s)) as [|n] eqn:E; [lia|]. cbn [removeIfExists take_fault faults files].
    replace (Z.to_nat (maxBackups s - 1)) with n by lia. rewrite shift_backups_ok.
    replace (maxBackups s) with (Z.of_nat (S n)) by lia. fold (bk (filePath s) (S n)).
    change (backup (filePath s) 1) with (bk (filePath s) 1). apply replaceRename_ok, not_eq_sym, bk_path.
  - replace (Z.to_nat (maxBackups s)) with 0%nat by lia. done.
Qed.

Lemma rotateLocked_ok s m f : file s = Some f →
  rotateLocked s (mkDisk m [])
  = (true, with_file (Some (mkFile (filePath s) false 0)) 0 s,
     mkDisk (<[filePath s := []]> (rotate_map (filePath s) (Z.to_nat (maxBackups s)) m)) []).
Proof.
  intros Hf. unfold rotateLocked. rewrite Hf. cbn [plain_call take_fault faults negb].
  change (rename_all (with_file None _ s)) with (rename_all s). rewrite rename_all_ok. done.
Qed.

(** ** Writing *)

Section restart.
Context {U : Unicode} {T : RFC3339}.
Context (marshal : Entry → option str) (unmarshal : str → option Entry).

(** The line of an entry, and of a file its lines. *)
Definition record (e : Entry) : str := default [] (marshal e) ++ [newline].
Definition content (es : list Entry) : str := flat_map record es.

(** What is relied on of [encoding/json] for an entry of the log: it is coded,
    on one line of valid UTF-8 without blanks around it, decodes to itself, and
    the line is within the limit that the log reads back. *)
Definition coded (e : Entry) : Prop :=
  ∃ j, marshal e = Some j ∧ (newline ∉ j) ∧ valid_utf8 j = true ∧ trim_space (j ++ [newline]) = j ∧ j ≠ []
       ∧ unmarshal j = Some e ∧ len (j ++ [newline]) <= maxPersistentLogLineBytes.

Lemma content_app es fs : content (es ++ fs) = content es ++ content fs.
Proof. apply flat_map_app. Qed.

Definition backups (s : Store) : nat := Z.to_nat (maxBackups s).

(** The files hold the newest entries [drop k hist]: the active file the last
    ones, the backups in front of it, [backs] newest first. *)
Record on_disk (s : Store) (m : gmap str str) (hist : list Entry) (active : list Entry) (backs : list (list Entry))
    (k : nat) : Prop := {
  od_file : ∃ f, file s = Some f ∧ fh_path f = filePath s ∧ (fh_append f = true ∨ fh_offset f = len (content active));
  od_bytes : fileBytes s = len (content active);
  od_active : m !! filePath s = Some (content active);
  od_backs : ∀ i, (1 <= i <= backups s)%nat → m !! bk (filePath s) i = content <$> backs !! (i - 1)%nat;
  od_len : (length backs <= backups s)%nat;
  od_hist : concat (reverse (active :: backs)) = drop k hist;
  od_k : (k <= length hist)%nat }.

(** If entries were given up, the files have the newest one and, with backups,
    more than [maxFileBytes] bytes. *)
Definition kept (s : Store) (hist : list Entry) (k : nat) : Prop :=
  k = 0%nat ∨ ((k < length hist)%nat ∧ (backups s = 0%nat ∨ maxFileBytes s < len (content (drop k hist)))).

(** The parts of a store that writing leaves alone. *)
Definition same_config (s s' : Store) : Prop :=
  ring s' = ring s ∧ filePath s' = filePath s ∧ maxFileBytes s' = maxFileBytes s ∧ maxBackups s' = maxBackups s.

Lemma write_at_end c data : write_at c (len c) data = c ++ data.
Proof.
  unfold write_at, len. rewrite Nat2Z.id, firstn_all, Nat.sub_diag, drop_ge by lia. cbn [replicate app]. by rewrite app_nil_r.
Qed.

Lemma write_record_ok s m hist active backs k e : coded e → on_disk s m hist active backs k →
  ∃ s' m', write_record (record e) s (mkDisk m []) = (s', mkDisk m' [])
    ∧ on_disk s' m' (hist ++ [e]) (active ++ [e]) backs k ∧ same_config s s'.
Proof.
  intros Hc [(f & Hf & Hp & Ho) Hb Ha Hbk Hl Hh Hk]. unfold write_record. rewrite Hf. unfold write_file.
  cbn [take_fault faults files]. rewrite Hp, Ha. cbn [default from_option id].
  assert ((if fh_append f then len (content active) else fh_offset f) = len (content active)) as ->
    by (destruct Ho as [->|Ho]; [done|by case_match]).
  rewrite write_at_end. assert (content (active ++ [e]) = content active ++ record e) as Hca
    by (rewrite content_app; cbn; by rewrite app_nil_r).
  eexists _, _. split; [reflexivity|]. split; [|done].
  split; cbn [file with_file fileBytes filePath backups maxBackups maxFileBytes].
  - eexists. split; [done|]. split; [done|]. right. cbn [fh_offset]. by rewrite Hca, len_app.
  - by rewrite Hca, len_app, Hb.
  - unfold set_file. cbn [files]. by rewrite lookup_insert_eq, Hca.
  - intros i Hi. unfold set_file. cbn [files]. rewrite lookup_insert_ne by apply not_eq_sym, bk_path. by apply Hbk.
  - done.
  - rewrite drop_app_le, <- Hh by lia. rewrite !reverse_cons, !concat_app. cbn [concat]. by rewrite !app_nil_r, (assoc_L (++)).
  - rewrite length_app. lia.
Qed.

Lemma rotate_ok s m hist active backs k : on_disk s m hist active backs k →
  ∃ s1 m1 k', rotateLocked s (mkDisk m []) = (true, s1, mkDisk m1 [])
    ∧ on_disk s1 m1 hist [] (take (backups s) (active :: backs)) k' ∧ same_config s s1.
Proof.
  intros [(f & Hf & Hp & Ho) Hb Ha Hbk Hl Hh Hk]. rewrite (rotateLocked_ok s m f Hf).
  set (dropped := concat (reverse (drop (backups s) (active :: backs)))).
  assert (drop k hist = dropped ++ concat (reverse (take (backups s) (active :: backs)))) as Hsplit.
  { rewrite <- Hh. unfold dropped. by rewrite <- concat_app, <- reverse_app, take_drop. }
  change (Z.to_nat (maxBackups s)) with (backups s).
  eexists _, _, (k + length dropped)%nat. split; [reflexivity|]. split; [|done].
  destruct (rotate_map_spec (filePath s) (backups s) m) as [R1 R2].
  split; cbn [file with_file fileBytes filePath maxBackups].
  - eexists. split; [done|]. split; [done|]. by right.
  - done.
  - by rewrite lookup_insert_eq.
  - change (backups (with_file _ _ s)) with (backups s). intros i Hi. rewrite lookup_insert_ne by apply not_eq_sym, bk_path.
    rewrite lookup_take_lt by lia. destruct (decide (i = 1%nat)) as [->|Hi1].
    + cbn [Nat.sub lookup list_lookup]. rewrite R2 by lia. by rewrite Ha.
    + destruct i as [|[|i]]; [lia..|]. rewrite R1 by lia.
      rewrite Hbk by lia. cbn [Nat.sub]. by rewrite Nat.sub_0_r.
  - change (backups (with_file _ _ s)) with (backups s). rewrite length_take. lia.
  - rewrite reverse_cons, concat_app. cbn [concat]. rewrite !app_nil_r, <- drop_drop, Hsplit.
    by rewrite drop_app_length.
  - pose proof (f_equal length Hsplit) as HL. rewrite length_drop, length_app in HL. lia.
Qed.

(** Appending writes the entry at the end of the active file, after a rotation
    if it does not fit. *)
Lemma writeFileLocked_ok s m hist active backs k e : coded e → on_disk s m hist active backs k → kept s hist k →
  ∃ s' m' active' backs' k', writeFileLocked marshal e s (mkDisk m []) = (s', mkDisk m' [])
    ∧ on_disk s' m' (hist ++ [e]) active' backs' k' ∧ kept s' (hist ++ [e]) k' ∧ same_config s s'.
Proof.
  intros Hc Hd Hk. pose proof Hd as [(f & Hf & _) Hb _ _ _ Hh Hkl]. unfold writeFileLocked. rewrite Hf.
  pose proof Hc as (j & Hj & _). rewrite Hj. assert (j ++ [newline] = record e) as -> by (unfold record; by rewrite Hj).
  destruct (Z.ltb_spec (maxFileBytes s) (fileBytes s + len (record e))) as [Hbig|Hfit].
  - destruct (rotate_ok s m hist active backs k Hd) as (s1 & m1 & k' & -> & Hd1 & C1 & C2 & C3 & C4).
    destruct (write_record_ok s1 m1 hist [] _ k' e Hc Hd1) as (s2 & m2 & -> & Hd2 & D1 & D2 & D3 & D4).
    eexists _, _, _, _, _. split; [done|]. split; [exact Hd2|].
    assert (backups s2 = backups s) as HB by (unfold backups; by rewrite D4, C4).
    split; [|unfold same_config; by rewrite D1, D2, D3, D4].
    destruct (decide (k' = 0%nat)) as [->|Hk']; [by left|right].
    pose proof Hd1 as [_ _ _ _ _ Hh1 Hkl1]. split; [rewrite length_app; simpl; lia|].
    destruct (decide (backups s2 = 0%nat)) as [Hz|Hnz]; [by left|right].
    rewrite drop_app_le, <- Hh1, D3, C3 by lia. destruct (backups s) as [|n] eqn:En; [congruence|].
    rewrite reverse_cons, firstn_cons, reverse_cons, !concat_app, !content_app, !len_app. cbn [concat]. rewrite !app_nil_r.
    assert (len (content [e]) = len (record e)) as -> by (cbn; by rewrite app_nil_r). rewrite Hb in Hbig.
    pose proof (len_nonneg (content (concat (reverse (take n backs))))). change (len (content [])) with 0. lia.
  - destruct (write_record_ok s m hist active backs k e Hc Hd) as (s2 & m2 & -> & Hd2 & D1 & D2 & D3 & D4).
    eexists _, _, _, _, _. split; [done|]. split; [exact Hd2|]. split; [|done].
    destruct Hk as [->|[Hk1 Hk2]]; [by left|right]. rewrite length_app, drop_app_le, content_app, len_app by lia.
    pose proof (len_nonneg (content [e])). unfold backups in *. rewrite D3, D4. split; [lia|]. destruct Hk2; [by left|right; lia].
Qed.

(** ** Reading back *)

Lemma read_slice_line x rest : newline ∉ x → (length x < Z.to_nat (64 * 2 ^ 10))%nat →
  read_slice (x ++ newline :: rest) = (x ++ [newline], SliceLine, rest).
Proof.
  intros Hx Hl. unfold read_slice. rewrite take_app_ge by lia.
  destruct (Z.to_nat (64 * 2 ^ 10) - length x)%nat as [|n] eqn:E; [lia|]. cbn [take]. rewrite index_byte_app by done.
  rewrite cons_middle, (assoc_L (++)). f_equal; [f_equal|].
  - rewrite take_app_le by (rewrite length_app; simpl; lia). apply take_ge. rewrite length_app. simpl. lia.
  - rewrite drop_app_ge by (rewrite length_app; simpl; lia). rewrite length_app. cbn [length].
    by replace (S (length x) - (length x + 1))%nat with 0%nat by lia.
Qed.

Lemma read_slice_full x rest : newline ∉ x → (Z.to_nat (64 * 2 ^ 10) <= length x)%nat →
  let size := Z.to_nat (64 * 2 ^ 10) in
  read_slice (x ++ rest) = (take size x, SliceFull, drop size x ++ rest).
Proof.
  intros Hx Hl. cbv zeta. unfold read_slice. rewrite take_app_le by done.
  assert (index_byte (take (Z.to_nat (64 * 2 ^ 10)) x) newline = None) as ->.
  { apply index_byte_None. intros Hin. apply Hx. apply elem_of_take in Hin as (i & Hi & _). by eapply list_elem_of_lookup_2. }
  destruct (Z.ltb_spec (len (x ++ rest)) (64 * 2 ^ 10)) as [Hlt|_].
  { unfold len in Hlt. rewrite length_app in Hlt. lia. }
  by rewrite drop_app_le.
Qed.

(** A line within the limit is read whole, whatever the buffer cuts it into. *)
Lemma read_line_ok fuel line x rest : newline ∉ x → (length x < fuel)%nat →
  len line + len (x ++ [newline]) <= maxPersistentLogLineBytes →
  readPersistentLogLine fuel line false (x ++ newline :: rest) = (line ++ x ++ [newline], false, false, rest).
Proof.
  revert line x. induction fuel as [|fuel IH]; intros line x Hx Hf Hl; [lia|]. cbn [readPersistentLogLine].
  destruct (decide (length x < Z.to_nat (64 * 2 ^ 10))%nat) as [Hs|Hs].
  - rewrite read_slice_line by done. destruct (Z.ltb_spec maxPersistentLogLineBytes (len line + len (x ++ [newline]))); [lia|done].
  - rewrite read_slice_full by (done || lia). set (size := Z.to_nat (64 * 2 ^ 10)) in *.
    assert (0 < size)%nat by (unfold size; lia).
    pose proof (take_drop size x) as Htd. rewrite <- Htd in Hl. rewrite <- app_assoc, len_app in Hl.
    pose proof (len_nonneg (drop size x ++ [newline])).
    destruct (Z.ltb_spec maxPersistentLogLineBytes (len line + len (take size x))); [lia|].
    rewrite IH.
    + by rewrite <- app_assoc, (assoc_L (++) (take size x)), Htd.
    + intros Hin. apply Hx. rewrite <- Htd, elem_of_app. by right.
    + rewrite length_drop. lia.
    + rewrite len_app. lia.
Qed.

(** What a restored entry does to the ring. *)
Definition restore_entry (now : time) (r : restoring) (e : Entry) : restoring :=
  mkRestoring (Ring.push (normalizeEntry now e) (r_ring r)) (Sequence e) (r_errors r).

(** Sequence numbers that go up from [h]. *)
Fixpoint ascends (h : Z) (es : list Entry) : Prop :=
  match es with [] => True | e :: es => 0 <= h < Sequence e ∧ ascends (Sequence e) es end.

Lemma ascends_app r now es fs : ascends (r_highest r) (es ++ fs) ↔
  ascends (r_highest r) es ∧ ascends (r_highest (foldl (restore_entry now) r es)) fs.
Proof.
  revert r. induction es as [|e es IH]; intros r; cbn [app ascends foldl]; [tauto|].
  rewrite (IH (restore_entry now r e) : ascends (Sequence e) (es ++ fs) ↔ _). cbn [restore_entry r_highest]. tauto.
Qed.

Lemma restore_line_ok now r e : coded e → 0 <= r_highest r < Sequence e →
  restore_line unmarshal now (record e) false r = restore_entry now r e.
Proof.
  intros (j & Hj & _ & Hv & Ht & Hne & Hu & _) Hs. unfold restore_line, record. rewrite Hj. cbn [default from_option id].
  rewrite Ht, Hv, Hu. cbn [negb]. destruct (Z.ltb_spec 0 (len j)) as [_|Hz]; cycle 1.
  { destruct j as [|c j]; [done|]. rewrite len_cons in Hz. pose proof (len_nonneg j). lia. }
  change (Sequence (normalizeEntry now e)) with (Sequence e).
  destruct (Z.eqb_spec (Sequence e) 0); [lia|]. by destruct (Z.leb_spec (Sequence e) (r_highest r)); [lia|].
Qed.

Lemma restore_lines_ok now es r fuel : Forall coded es → ascends (r_highest r) es → (length (content es) < fuel)%nat →
  restore_lines unmarshal fuel now (content es) r = foldl (restore_entry now) r es.
Proof.
  intros Hc. revert r fuel. induction Hc as [|e es He Hc IH]; intros r fuel Ha Hf.
  - destruct fuel as [|fuel]; [simpl in Hf; lia|]. done.
  - destruct fuel as [|fuel]; [lia|]. change (content (e :: es)) with (record e ++ content es) in *. destruct Ha as [Ha1 Ha2].
    pose proof He as (j & Hj & Hn & _ & _ & _ & _ & Hl).
    assert (record e = j ++ [newline]) as Hr by (unfold record; by rewrite Hj).
    cbn [restore_lines]. rewrite Hr in Hf |- *. rewrite <- app_assoc. cbn [app].
    rewrite read_line_ok; [|done|rewrite length_app; simpl; lia|change (len []) with 0; lia]. cbn [app]. rewrite <- Hr.
    rewrite restore_line_ok by done. rewrite !length_app in Hf. cbn [length] in Hf. cbn [foldl]. apply IH; [done|]. lia.
Qed.

(** The backups [bk n .. bk 1] are read oldest first. *)
Lemma restore_backups_ok now path m (backs : list (list Entry)) n r :
  (∀ i, (1 <= i <= n)%nat → m !! bk path i = content <$> backs !! (i - 1)%nat) →
  Forall (Forall coded) backs → ascends (r_highest r) (concat (reverse (take n backs))) →
  foldl (restore_file unmarshal now) (r, mkDisk m []) ((λ i, backup path (Z.of_nat i)) <$> reverse (seq 1 n))
  = (foldl (restore_entry now) r (concat (reverse (take n backs))), mkDisk m []).
Proof.
  intros Hm Hc. revert r. induction n as [|n IH]; intros r Ha; [done|].
  rewrite seq_S, reverse_app, fmap_app, foldl_app. cbn [reverse rev_append fmap list_fmap foldl Nat.add restore_file take_fault faults files].
  fold (bk path (S n)). rewrite Hm by lia. cbn [Nat.sub]. rewrite Nat.sub_0_r.
  assert (∀ i, (1 <= i <= n)%nat → m !! bk path i = content <$> backs !! (i - 1)%nat) as Hm' by (intros; apply Hm; lia).
  destruct (backs !! n) as [es|] eqn:E; cbn [fmap option_fmap option_map].
  - rewrite (take_S_r _ _ es E), reverse_app, concat_app in Ha |- *. cbn [reverse rev_append concat] in Ha |- *.
    rewrite app_nil_r in Ha |- *. apply (ascends_app r now) in Ha as [Ha1 Ha2].
    rewrite restore_lines_ok; [|by eapply Forall_lookup_1|done|lia]. rewrite foldl_app. by apply IH.
  - assert (take (S n) backs = take n backs) as Ht by (rewrite !take_ge by (apply lookup_ge_None in E; lia); done).
    rewrite Ht in *. by apply IH.
Qed.

Lemma restored_entries now es r hist : Ring.shape (r_ring r) → Ring.retained (r_ring r) = Ring.newest_of (Ring.capacity (r_ring r)) hist →
  let r' := foldl (restore_entry now) r es in
  Ring.retained (r_ring r') = Ring.newest_of (Ring.capacity (r_ring r)) (hist ++ (normalizeEntry now <$> es))
  ∧ r_highest r' = default (r_highest r) (Sequence <$> last es)
  ∧ Ring.nextSeq (r_ring r') = Ring.nextSeq (r_ring r) ∧ r_errors r' = r_errors r.
Proof.
  revert r hist. induction es as [|e es IH]; intros r hist Hs Hr; cbv zeta; [by rewrite app_nil_r|].
  cbn [foldl]. destruct (IH (restore_entry now r e) (hist ++ [normalizeEntry now e])) as (I1 & I2 & I3 & I4); cbn [restore_entry r_ring].
  - by apply Ring.push_shape.
  - rewrite Ring.push_capacity. by apply Ring.push_newest.
  - cbn [restore_entry r_ring r_highest r_errors] in *. rewrite Ring.push_capacity in I1. rewrite Ring.push_nextSeq in I3.
    rewrite fmap_cons, cons_middle, (assoc_L (++)). split_and!; [done| |done|done]. rewrite I2, last_cons. by destruct (last es).
Qed.

(** ** A run *)

Fixpoint append_all (es : list (time * Entry)) (s : Store) (d : disk) : list Entry * Store * disk :=
  match es with
  | [] => ([], s, d)
  | (now, e) :: es =>
      let '(e, s, d) := Append marshal now e s d in
      let '(es, s, d) := append_all es s d in (e :: es, s, d)
  end.

(** The state of a run that has logged [hist]. *)
Definition running (s : Store) (m : gmap str str) (hist : list Entry) : Prop :=
  ascends 0 hist ∧ Ring.nextSeq (ring s) = 1 + default 0 (Sequence <$> last hist)
  ∧ ∃ active backs k, on_disk s m hist active backs k ∧ kept s hist k.

Lemma ascends_snoc h es e : ascends h es → default h (Sequence <$> last es) < Sequence e → 0 <= h → ascends h (es ++ [e]).
Proof.
  revert h. induction es as [|x es IH]; intros h Ha Hl Hh; [simpl in *; lia|]. destruct Ha as [H1 H2]. split; [done|].
  apply IH; [done| |lia]. rewrite last_cons in Hl. by destruct (last es).
Qed.

Lemma ascends_drop h k es : ascends h es → 0 <= h → ascends 0 (drop k es).
Proof.
  revert h es. induction k as [|k IH]; intros h es Ha Hh; destruct es as [|e es]; try done; destruct Ha as [H1 H2].
  - split; [lia|done].
  - apply (IH (Sequence e)); [done|lia].
Qed.

Lemma ascends_last h es : ascends h es → 0 <= h → 0 <= default 0 (Sequence <$> last es).
Proof.
  revert h. induction es as [|e es IH]; intros h Ha Hh; [done|]. destruct Ha as [H1 H2]. rewrite last_cons.
  pose proof (IH (Sequence e) H2 ltac:(lia)). destruct (last es); [done|]. cbn. lia.
Qed.

Lemma append_all_ok es s m hist : running s m hist → default 0 (Sequence <$> last hist) + len es < max_uint64 →
  ∀ logged s' d', append_all es s (mkDisk m []) = (logged, s', d') → Forall coded logged →
  ∃ m', d' = mkDisk m' [] ∧ running s' m' (hist ++ logged)
    ∧ default 0 (Sequence <$> last (hist ++ logged)) <= default 0 (Sequence <$> last hist) + len es
    ∧ filePath s' = filePath s ∧ maxFileBytes s' = maxFileBytes s ∧ maxBackups s' = maxBackups s.
Proof.
  revert s m hist. induction es as [|[now e] es IH]; intros s m hist Hr Hn logged s' d' Hrun Hc.
  { injection Hrun as <- <- <-. exists m. rewrite app_nil_r. change (len []) with 0. split_and!; (done || lia). }
  destruct Hr as (Ha & Hq & active & backs & k & Hd & Hk). rewrite len_cons in Hn. pose proof (len_nonneg es).
  pose proof (ascends_last 0 hist Ha ltac:(lia)) as Hlast.
  cbn [append_all] in Hrun. unfold Append in Hrun.
  set (e1 := with_sequence (Ring.nextSeq (ring s)) (normalizeEntry now e)) in *.
  set (s1 := with_ring (Ring.push e1 (Ring.bump (ring s))) s) in *.
  destruct (writeFileLocked marshal e1 s1 (mkDisk m [])) as [s2 d2] eqn:Hw.
  destruct (append_all es s2 d2) as [[logged2 s3] d3] eqn:Hrest. injection Hrun as <- -> ->.
  inversion_clear Hc as [|? ? Hc1 Hc2].
  destruct (writeFileLocked_ok s1 m hist active backs k e1 Hc1) as (s2' & m2 & a2 & b2 & k2 & Hw2 & Hd2 & Hk2 & C1 & C2 & C3 & C4);
    [by destruct Hd|done|]. rewrite Hw in Hw2. injection Hw2 as <- ->.
  assert (Sequence e1 = Ring.nextSeq (ring s)) as He1 by done.
  destruct (IH s2 m2 (hist ++ [e1])) with (logged := logged2) (s' := s') (d' := d') as (m' & -> & Hr' & E0 & E1 & E2 & E3); try done.
  - split_and!.
    + apply ascends_snoc; [done| |done]. rewrite He1, Hq. lia.
    + rewrite C1, last_snoc. cbn [s1 ring with_ring]. rewrite Ring.push_nextSeq, Ring.bump_nextSeq by lia.
      change (Ring.nextSeq (ring s) + 1 = 1 + Sequence e1). lia.
    + by exists a2, b2, k2.
  - rewrite last_snoc. change (Sequence e1 + len es < max_uint64). rewrite He1, Hq. lia.
  - exists m'. rewrite <- app_assoc in Hr', E0. rewrite E1, E2, E3, C2, C3, C4. split_and!; try done.
    rewrite last_snoc in E0. change (default 0 (Sequence <$> Some e1)) with (Sequence e1) in E0.
    rewrite len_cons, He1, Hq in *. cbn [app] in E0. lia.
Qed.

(** ** Opening the files *)

Lemma last_content es : content es = [] ∨ last (content es) = Some newline.
Proof.
  induction es as [|e es IH] using rev_ind; [by left|]. right. rewrite content_app. unfold content at 2. cbn [flat_map].
  rewrite app_nil_r. unfold record. by rewrite (assoc_L (++)), last_snoc.
Qed.

Definition log_path (cfg : LogStoreConfig) : str := trim_space (c_path cfg).
Definition log_limit (cfg : LogStoreConfig) : Z := if c_max_bytes cfg <=? 0 then 20 * 2 ^ 20 else c_max_bytes cfg.
Definition log_capacity (cfg : LogStoreConfig) : Z := if c_capacity cfg <=? 0 then 1 else c_capacity cfg.

Lemma ensure_newline_ok s m active : (∃ f, file s = Some f ∧ fh_path f = filePath s) → m !! filePath s = Some (content active) →
  fileBytes s = len (content active) → ensureTrailingNewlineLocked s (mkDisk m []) = (s, mkDisk m []).
Proof.
  intros (f & Hf & Hp) Hm Hb. unfold ensureTrailingNewlineLocked. rewrite Hf.
  destruct (Z.eqb_spec (fileBytes s) 0) as [|Hz]; [done|]. cbn [plain_call take_fault faults files]. rewrite Hp, Hm.
  cbn [default from_option id]. destruct (last_content active) as [E|E]; [by rewrite E in Hb|]. rewrite E. by rewrite eqc_refl.
Qed.

(** The backups and the active file, if it is there, as lists of entries. *)
Definition stored (p : str) (b : nat) (m : gmap str str) (active : list Entry) (backs : list (list Entry)) : Prop :=
  (m !! p = Some (content active) ∨ (m !! p = None ∧ active = []))
  ∧ (∀ i, (1 <= i <= b)%nat → m !! bk p i = content <$> backs !! (i - 1)%nat) ∧ (length backs <= b)%nat
  ∧ Forall (Forall coded) (active :: backs) ∧ ascends 0 (concat (reverse (active :: backs))).

Lemma restore_ok now s m active backs cap : stored (filePath s) (backups s) m active backs →
  ring s = Ring.make zero_entry cap → 0 < cap →
  let es := concat (reverse (active :: backs)) in
  default 0 (Sequence <$> last es) < max_uint64 →
  ∃ r, restorePersistentEntries unmarshal now s (mkDisk m []) = (mkStore r (file s) (filePath s) (fileBytes s) (maxFileBytes s) (maxBackups s) (fileErrors s), mkDisk m [])
    ∧ Ring.retained r = Ring.newest_of cap (normalizeEntry now <$> es)
    ∧ Ring.nextSeq r = 1 + default 0 (Sequence <$> last es).
Proof.
  intros (Hact & Hbk & Hl & Hc & Ha) Hr Hcap. cbv zeta. set (es := concat (reverse (active :: backs))) in *. intros Hmax.
  unfold restorePersistentEntries, restore_paths. rewrite foldl_app. change (Z.to_nat (maxBackups s)) with (backups s). set (r0 := mkRestoring (ring s) 0 (fileErrors s)).
  inversion_clear Hc as [|? ? Hca Hcb].
  assert (es = concat (reverse backs) ++ active) as Hes by (unfold es; rewrite reverse_cons, concat_app; simpl; by rewrite app_nil_r).
  rewrite Hes in Ha. apply (ascends_app r0 now) in Ha as [Ha1 Ha2].
  rewrite (restore_backups_ok now (filePath s) m backs (backups s) r0 Hbk Hcb) by by rewrite take_ge.
  rewrite take_ge by done. set (r1 := foldl (restore_entry now) r0 (concat (reverse backs))) in *.
  assert (restore_file unmarshal now (r1, mkDisk m []) (filePath s) = (foldl (restore_entry now) r1 active, mkDisk m [])) as Hf.
  { cbn [restore_file take_fault faults files]. destruct Hact as [->|[-> ->]]; [|done]. rewrite restore_lines_ok; (done || lia). }
  cbn [foldl]. rewrite Hf. unfold r1. rewrite <- foldl_app, <- Hes.
  destruct (restored_entries now es r0 []) as (I1 & I2 & I3 & I4); cbn [r0 r_ring].
  { rewrite Hr. by apply Ring.make_shape. }
  { by rewrite Hr. }
  cbn [r0 r_ring r_highest r_errors app] in *. rewrite Hr in I1, I3. cbn [Ring.capacity Ring.make Ring.nextSeq] in I1, I3.
  rewrite I2, I3, I4. eexists. split; [reflexivity|].
  assert (ascends 0 es) as Ha by (rewrite Hes; by apply (ascends_app r0 now)).
  pose proof (ascends_last 0 es Ha ltac:(lia)).
  destruct (Z.leb_spec 1 (default 0 (Sequence <$> last es))) as [Hle|Hgt]; (split; [exact I1|]).
  - cbn [Ring.nextSeq]. rewrite wrapu64_id by (unfold uint64_ok; lia). lia.
  - rewrite I3. lia.
Qed.

Lemma new_ok cfg now m active backs :
  let p := log_path cfg in
  let es := concat (reverse (active :: backs)) in
  p ≠ [] → stored p (Z.to_nat (c_backups cfg)) m active backs → default 0 (Sequence <$> last es) < max_uint64 →
  ∃ s m', NewWithConfig unmarshal now cfg (mkDisk m []) = (Some s, mkDisk m' [])
    ∧ Ring.retained (ring s) = Ring.newest_of (log_capacity cfg) (normalizeEntry now <$> es)
    ∧ Ring.nextSeq (ring s) = 1 + default 0 (Sequence <$> last es)
    ∧ on_disk s m' es active backs 0
    ∧ filePath s = p ∧ maxFileBytes s = log_limit cfg ∧ maxBackups s = c_backups cfg ∧ fileErrors s = 0.
Proof.
  cbv zeta. intros Hp Hst Hmax. unfold NewWithConfig. fold (log_path cfg). fold (log_capacity cfg).
  set (s0 := mkStore _ _ _ _ _ _ _). destruct (eqs (filePath s0) []) eqn:E; [by apply eqs_true in E|]. clear E.
  set (s1 := if maxFileBytes s0 <=? 0 then _ else s0).
  assert (s1 = mkStore (Ring.make zero_entry (log_capacity cfg)) None (log_path cfg) 0 (log_limit cfg) (c_backups cfg) 0) as ->.
  { subst s1 s0. unfold log_limit. cbn [maxFileBytes]. by destruct (c_max_bytes cfg <=? 0). }
  cbn [plain_call take_fault faults]. clear s0. set (s1 := mkStore _ _ _ _ _ _ _).
  destruct (restore_ok now s1 m active backs (log_capacity cfg) Hst eq_refl) as (r & -> & R1 & R2);
    [unfold log_capacity; destruct (Z.leb_spec (c_capacity cfg) 0); lia|done|]. cbn [s1 file filePath fileBytes maxFileBytes maxBackups fileErrors].
  unfold open_file. cbn [take_fault faults files set_file filePath with_file]. unfold set_file. cbn [files faults].
  destruct Hst as (Hact & Hbk & Hl & Hc & Ha).
  assert (default [] (m !! log_path cfg) = content active) as -> by by destruct Hact as [->|[-> ->]].
  set (m' := <[log_path cfg := content active]> m). cbn [plain_call take_fault faults].
  assert (m' !! log_path cfg = Some (content active)) as Hm' by apply lookup_insert_eq.
  unfold file_size. cbn [files]. rewrite Hm'. cbn [default from_option id with_file ring filePath maxFileBytes maxBackups fileErrors].
  rewrite (ensure_newline_ok _ _ active); [|by eexists|done|done].
  eexists _, _. split; [reflexivity|]. cbn [ring filePath maxFileBytes maxBackups fileErrors]. split_and!; try done.
  split; cbn [file filePath fileBytes backups maxBackups]; try done.
  - eexists. split; [reflexivity|]. split; [done|]. by left.
  - intros i Hi. unfold m'. rewrite lookup_insert_ne by apply not_eq_sym, bk_path. by apply Hbk.
  - lia.
Qed.

(** C9: A restart gives the log back.  On a disk without faults, start the log on
    files that are not there yet, append any entries, and start it again: it
    then holds the newest [capacity] of the entries that the files kept, in
    their order and as the normalisation leaves them, without an error, and
    numbers new entries where it stopped.  The files have every entry, or else
    at least the newest one and, with backups, more than [maxFileBytes] bytes
    of them.  Condition: every entry that is written is coded by the JSON codec
    on one line that reads back as the entry and is no longer than the 512 KiB
    that a restart reads; the reading loop drops a longer line. *)
Theorem restart_restores cfg now now' m es s0 d0 logged s1 d1 :
  log_path cfg ≠ [] → m !! log_path cfg = None → (∀ i, m !! bk (log_path cfg) i = None) → len es < max_uint64 →
  NewWithConfig unmarshal now cfg (mkDisk m []) = (Some s0, d0) →
  append_all es s0 d0 = (logged, s1, d1) → Forall coded logged →
  ∃ s2 d2 k, NewWithConfig unmarshal now' cfg d1 = (Some s2, d2)
    ∧ Ring.retained (ring s2) = Ring.newest_of (log_capacity cfg) (normalizeEntry now' <$> drop k logged)
    ∧ Ring.nextSeq (ring s2) = Ring.nextSeq (ring s1) ∧ fileErrors s2 = 0
    ∧ (k = 0%nat ∨ ((k < length logged)%nat ∧ (c_backups cfg <= 0 ∨ log_limit cfg < len (content (drop k logged))))).
Proof.
  intros Hp Hm Hb Hn Hnew Hrun Hc.
  destruct (new_ok cfg now m [] []) as (s0' & m0 & Hnew' & _ & N2 & N3 & N4 & N5 & N6 & _); [done| |done|].
  { split_and!; [by right|intros i _; by rewrite Hb|simpl; lia|by repeat constructor|done]. }
  rewrite Hnew in Hnew'. injection Hnew' as <- ->.
  destruct (append_all_ok es s0 m0 []) with (logged := logged) (s' := s1) (d' := d1)
    as (m1 & -> & (A1 & A2 & active & backs & k & Hd & Hk) & A0 & A3 & A4 & A5); try done.
  { split; [done|]. split; [done|]. exists [], [], 0%nat. split; [done|by left]. }
  cbn [app] in *. pose proof Hd as [_ _ D3 D4 D5 D6 D7]. rewrite A3, N4 in D3, D4.
  unfold backups in D4, D5. rewrite A5, N6 in D4, D5. pose proof (ascends_drop 0 k logged A1 ltac:(lia)) as Ha.
  assert (default 0 (Sequence <$> last (drop k logged)) = default 0 (Sequence <$> last logged)) as Hlast.
  { destruct Hk as [->|[Hk _]]; [done|]. rewrite <- (take_drop k logged) at 2. rewrite last_app.
    destruct (last (drop k logged)) eqn:E; [done|]. apply last_None in E. apply (f_equal length) in E.
    rewrite length_drop in E. simpl in E. lia. }
  destruct (new_ok cfg now' m1 active backs) as (s2 & m2 & Hnew2 & M1 & M2 & _ & _ & _ & _ & M3); [done| |rewrite D6; cbn in A0; lia|].
  { split_and!; [by left|done|done| |by rewrite D6].
    rewrite <- (take_drop k logged), <- D6 in Hc. clear - Hc. apply Forall_app in Hc as [_ Hc].
    apply Forall_concat in Hc. by rewrite reverse_Permutation in Hc. }
  exists s2, (mkDisk m2 []), k. split; [done|]. rewrite D6 in M1, M2. split; [done|]. split; [by rewrite M2, A2, Hlast|].
  split; [done|]. destruct Hk as [Hk|[Hk1 Hk2]]; [by left|right]. split; [done|]. unfold backups in Hk2.
  rewrite A4, N5, A5, N6 in Hk2. destruct Hk2; [left; lia|by right].
Qed.

End restart.

(** ** A sample run: four entries, files of two lines, one backup *)

Section sample.

#[local] Instance sample_unicode : Unicode := unicode_ascii.
#[local] Instance sample_rfc3339 : RFC3339 :=
  {| parse_rfc3339 s := if s =?s "0001-01-01T00:00:00Z" then Some 0 else None;
     format_rfc3339 _ := lit "0001-01-01T00:00:00Z" |}.

Definition sample_entry (event : string) : Entry :=
  mkEntry 0 [] [] event [] [] [] "get" [] [] [] [] 403 f_zero "block" [] 7 (lits ["r2"; "R1"; "r1"]) [] 0 [] [] false false [].
Definition sample_events : list (time * Entry) := (λ e, (5, sample_entry e)) <$> ["one"; "two"; "three"; "four"; "five"]%string.
Definition sample_marshal (e : Entry) : option str := Some ("{" ++ itoa (Sequence e) ++ "}").
Definition sample_unmarshal (j : str) : option Entry :=
  let logged := imap (λ i te, with_sequence (Z.of_nat i + 1) (normalizeEntry 5 te.2)) sample_events in
  head (filter (λ e, sample_marshal e = Some j) logged).
Definition sample_config : LogStoreConfig := mkLogStore 9 100 500 "s.log" 8 1.

Definition sample_start := NewWithConfig sample_unmarshal 1 sample_config (mkDisk ∅ []).
Definition sample_store : Store := default (mkStore (Ring.make zero_entry 1) None [] 0 0 0 0) (fst sample_start).
Definition sample_run := append_all sample_marshal sample_events sample_store (snd sample_start).

Lemma sample_coded : Forall (coded sample_marshal sample_unmarshal) (fst (fst sample_run)).
Proof.
  assert (∀ e j, sample_marshal e = Some j → bool_decide (newline ∉ j) && valid_utf8 j && (trim_space (j ++ [newline]) =?s j)
    && negb (j =?s []) && bool_decide (head (filter (λ x, x = j) [j]) = Some j) && (len (j ++ [newline]) <=? 100) = true →
    sample_unmarshal j = Some e → coded sample_marshal sample_unmarshal e) as G.
  { intros e j Hj Hb Hu. exists j. repeat (apply andb_true_iff in Hb as [Hb ?]). split_and!; try done.
    - by apply bool_decide_eq_true in Hb.
    - by apply eqs_true.
    - intros ->. done.
    - apply Z.leb_le in H. unfold maxPersistentLogLineBytes. lia. }
  replace (fst (fst sample_run)) with (imap (λ i te, with_sequence (Z.of_nat i + 1) (normalizeEntry 5 te.2)) sample_events)
    by by vm_compute.
  repeat (constructor; [eapply G; [reflexivity|by vm_compute|by vm_compute]|]). constructor.
Qed.

(** The five lines of four bytes leave the last three entries in the files. *)
Lemma restart_restores_witness : ∃ s2 d2 k,
  NewWithConfig sample_unmarshal 7 sample_config (snd sample_run) = (Some s2, d2)
  ∧ Event <$> Ring.retained (ring s2) = lits ["three"; "four"; "five"]
  ∧ Ring.retained (ring s2) = Ring.newest_of 9 (normalizeEntry 7 <$> drop k (fst (fst sample_run))).
Proof.
  destruct (restart_restores sample_marshal sample_unmarshal sample_config 1 7 ∅ sample_events sample_store (snd sample_start)
    (fst (fst sample_run)) (snd (fst sample_run)) (snd sample_run)) as (s2 & d2 & k & W1 & W2 & _);
    [by vm_compute|done|done|by vm_compute| | |apply sample_coded|].
  - vm_compute. reflexivity.
  - unfold sample_run. by destruct (append_all _ _ _ _) as [[l s] d].
  - exists s2, d2, k. split; [exact W1|]. split; [|exact W2].
    assert (Event <$> Ring.retained (ring (default s2 (fst (NewWithConfig sample_unmarshal 7 sample_config (snd sample_run)))))
      = lits ["three"; "four"; "five"]) as E by by vm_compute.
    by rewrite W1 in E.
Defined.

End sample.
End Restart.
