(* ===== verification/RouteTable.v ===== *)
(** * The route table SecurityEdge loads: apps/securityedge/internal/routes/routes.go

    [Load] reads the routes of EdgeProxy's configuration file and checks them
    with its own copy of EdgeProxy's rules.  JSON decoding is a parameter.  The
    last theorem: a configuration that EdgeProxy accepts is loaded, and both
    programs then route every request alike. *)

From S2P Require Import Prelude GoStr GoPath GoHttp NetIP GoFloat Config Router ConfigValidate ConfigFacts GoText GoOS.

Module Table.

Definition maxEdgeProxyConfigBytes : Z := 4 * 2 ^ 20.
Definition maxEdgeProxyRoutes : Z := 2048.
Definition maxHostsPerRoute : Z := 256.
Definition maxRouteNameBytes : Z := 256.
Definition reservedUnmatchedRouteName : str := "__unmatched__".

Import Routes.

Section load.
Context {U : Unicode}.

(** ** The copies of EdgeProxy's rules *)

Definition isAdminPathDotSegment (name : str) : bool := (name =?s ".") || (name =?s "..").

Definition label_ok (label : str) : bool :=
  let alnum b := is_lower b || is_digit b in
  negb ((label =?s []) || (63 <? len label))
  && forallb (λ b, alnum b || (b =?c "-")) label
  && match head label with Some b => alnum b | None => false end
  && match last label with Some b => alnum b | None => false end.

Definition normalizeExactRouteHost (value : str) : option str :=
  if has_prefix value "[" && has_suffix value "]" then
    match ParseIP (trim_suffix (trim_prefix value "[") "]") with
    | None => None
    | Some ip => Some (to_lower (ip_string ip))
    end
  else match ParseIP value with
  | Some ip => Some (to_lower (ip_string ip))
  | None =>
      if mem_byte ":" value then None
      else if 253 <? len value then None
      else if forallb label_ok (split value ".") then Some value else None
  end.

Definition normalizeRouteHostPattern (raw : str) : option str :=
  let value := trim_suffix (to_lower (trim_space raw)) "." in
  if value =?s [] then None
  else if value =?s "*" then Some value
  else if contains_any value ([" "%char; chr 9; chr 13; chr 10] ++ "/\?#@") then None
  else if has_prefix value "*." then
    if negb (Z.of_nat (count_byte value "*") =? 1) then None
    else match normalizeExactRouteHost (trim_prefix value "*.") with
    | None => None
    | Some suffix => match ParseIP suffix with Some _ => None | None => Some ("*." ++ suffix) end
    end
  else if mem_byte "*" value then None
  else normalizeExactRouteHost value.

Definition normalizePathPrefix (raw : str) : option str :=
  let value := trim_space raw in
  if value =?s [] then Some (lit "/")
  else if negb (has_prefix value "/") then None
  else if contains_any value "?#" then None
  else match path_unescape value with
  | None => None
  | Some decoded =>
      if negb (decoded =?s value) then None
      else
        let trailingSlash := has_suffix value "/" in
        let cleaned := path_clean value in
        if negb (cleaned =?s value) && negb (trailingSlash && (cleaned ++ "/" =?s value)) then None
        else
          let cleaned := if trailingSlash && negb (cleaned =?s "/") then cleaned ++ "/" else cleaned in
          Some (if negb (cleaned =?s "/") then trim_suffix cleaned "/" else cleaned)
  end.

(** ** The loop of [Load] *)

(** The host patterns of a route, in order; [seenHosts] has those of [hosts]. *)
Fixpoint load_hosts (raws hosts : list str) : str + list str :=
  match raws with
  | [] => inr hosts
  | raw :: raws =>
      match normalizeRouteHostPattern raw with
      | None => inl (lit "invalid host")
      | Some host =>
          if bool_decide (host ∈ hosts) then inl (lit "contains duplicate host pattern")
          else load_hosts raws (hosts ++ [host])
      end
  end.

Definition route_selector (host prefix : str) : str := host ++ chr 0 :: prefix.

Fixpoint load_selectors (name prefix : str) (hosts : list str) (selectors : gmap str str) : str + gmap str str :=
  match hosts with
  | [] => inr selectors
  | host :: hosts =>
      match selectors !! route_selector host prefix with
      | Some _ => inl (lit "have the same host/path selector")
      | None => load_selectors name prefix hosts (<[route_selector host prefix := name]> selectors)
      end
  end.

(** One route: the lower-case names and the selectors so far. *)
Definition load_route (st : gset str * gmap str str) (r : Route) : str + (gset str * gmap str str * Route) :=
  let '(seenNames, selectors) := st in
  let name := trim_space (Name r) in
  match normalizePathPrefix (PathPrefix r) with
  | None => inl (lit "path_prefix")
  | Some prefix =>
      if (name =?s []) || (len (Hosts r) =? 0) then inl (lit "is incomplete")
      else if isAdminPathDotSegment name then inl (lit "cannot be used as an Admin API path segment")
      else if maxRouteNameBytes <? len name then inl (lit "name is too long")
      else if maxHostsPerRoute <? len (Hosts r) then inl (lit "cannot contain more hosts")
      else if equal_fold name reservedUnmatchedRouteName then inl (lit "is reserved")
      else if bool_decide (to_lower name ∈ seenNames) then inl (lit "is duplicated")
      else match load_hosts (Hosts r) [] with
      | inl e => inl e
      | inr hosts =>
          match load_selectors name prefix hosts selectors with
          | inl e => inl e
          | inr selectors => inr ({[ to_lower name ]} ∪ seenNames, selectors, mkRoute name hosts prefix)
          end
      end
  end.

Fixpoint load_routes (st : gset str * gmap str str) (rs : list Route) : str + list Route :=
  match rs with
  | [] => inr []
  | r :: rs =>
      match load_route st r with
      | inl e => inl e
      | inr (st, r) => match load_routes st rs with inl e => inl e | inr rs => inr (r :: rs) end
      end
  end.

(** [decode] is the routes of the one JSON value that a text is. *)
Definition Load (decode : str → option (list Route)) (file : option opened) : str + list Route :=
  match file with
  | None => inl (lit "read edgeproxy config")
  | Some f =>
      if negb (of_regular f) then inl (lit "edgeproxy config path is not a regular file")
      else match read_limited maxEdgeProxyConfigBytes f with
      | inl e => inl e
      | inr data =>
        if negb (valid_utf8 data) then inl (lit "edgeproxy config must be valid UTF-8")
        else match decode data with
        | None => inl (lit "parse edgeproxy config")
        | Some rs =>
            if len rs =? 0 then inl (lit "edgeproxy config has no routes")
            else if maxEdgeProxyRoutes <? len rs then inl (lit "edgeproxy config cannot contain more routes")
            else load_routes (∅, ∅) rs
        end
      end
  end.

(** ** The copies agree with EdgeProxy *)

Lemma lower_ip a : to_lower (ip_string a) = ip_string a.
Proof.
  destruct (Facts.ip_string_ok a) as (_ & H & _). revert H. generalize (ip_string a) as s. intros s H.
  rewrite to_lower_ascii_fmap.
  - induction s as [|c s IH]; [done|]. cbn [forallb] in H. apply andb_true_iff in H as [Hc Hs].
    cbn [fmap list_fmap]. destruct (Facts.host_byte_facts c Hc) as (_ & _ & -> & _). f_equal. by apply IH.
  - induction s as [|c s IH]; [done|]. cbn [forallb] in H. apply andb_true_iff in H as [Hc Hs]. rewrite is_ascii_cons.
    destruct (Facts.host_byte_facts c Hc) as (-> & _). by apply IH.
Qed.

Lemma exact_host_agrees value : normalizeExactRouteHost value = Validation.normalizeExactRouteHost value.
Proof.
  unfold normalizeExactRouteHost, Validation.normalizeExactRouteHost.
  destruct (_ && _); [destruct (ParseIP _); cbn; by rewrite ?lower_ip|]. destruct (ParseIP value); [by rewrite lower_ip|].
  destruct (mem_byte _ _); [done|]. destruct (253 <? len value); [done|].
  assert (forallb label_ok (split value ".") = forallb Validation.host_label_ok (split value ".")) as ->; [|done].
  induction (split value ".") as [|l ls IH]; [done|]. cbn [forallb]. rewrite IH. f_equal.
  unfold label_ok, Validation.host_label_ok. destruct (l =?s []) eqn:E; [done|]. cbn [orb negb andb].
  by rewrite Z.leb_antisym.
Qed.

Lemma host_pattern_agrees raw : normalizeRouteHostPattern raw = Validation.normalizeRouteHostPattern raw.
Proof.
  unfold normalizeRouteHostPattern, Validation.normalizeRouteHostPattern. rewrite !exact_host_agrees.
  by destruct (Validation.normalizeExactRouteHost (trim_prefix _ _)).
Qed.

Lemma path_prefix_agrees raw : normalizePathPrefix raw = Validation.normalizePathPrefix raw.
Proof.
  unfold normalizePathPrefix, Validation.normalizePathPrefix, Validation.normalizeAbsolutePath.
  destruct (_ =?s []); [done|]. destruct (negb (has_prefix _ _)); [done|]. destruct (contains_any _ _); [done|].
  destruct (path_unescape _); [|done]. destruct (negb (_ =?s trim_space raw)); [done|]. by destruct (negb _ && _).
Qed.

(** ** What EdgeProxy accepts is loaded *)

Section agree.
Context {R : Resolve}.
Import Validation.

Lemma host_step_errs raws e s h : fst (fst (foldl host_step (e, s, h) raws)) = [] → e = [].
Proof.
  revert e s h. induction raws as [|raw raws IH]; intros e s h H; [done|]. cbn [foldl] in H.
  unfold host_step in H at 2. destruct (Validation.normalizeRouteHostPattern raw); [case_bool_decide|]; apply IH in H; try done;
    by apply app_nil in H as [_ ?].
Qed.

Lemma host_step_length raws acc : length (snd (foldl host_step acc raws)) = (length (snd acc) + length raws)%nat.
Proof.
  revert acc. induction raws as [|raw raws IH]; intros [[e s] h]; cbn [foldl]; [simpl; lia|]. rewrite IH. unfold host_step.
  destruct (Validation.normalizeRouteHostPattern raw); [case_bool_decide|]; cbn [snd]; rewrite length_app; simpl; lia.
Qed.

Lemma load_hosts_ok raws errs seen hosts hosts' : seen ≡@{gset str} list_to_set hosts →
  fst (fst (foldl host_step (errs, seen, hosts) raws)) = [] → snd (foldl host_step (errs, seen, hosts) raws) = hosts' →
  load_hosts raws hosts = inr hosts'.
Proof.
  revert errs seen hosts. induction raws as [|raw raws IH]; intros errs seen hosts Hs He Hh; [by simpl in Hh; subst|].
  cbn [foldl load_hosts] in *. rewrite host_pattern_agrees. unfold host_step in He, Hh.
  fold host_step in He, Hh. destruct (Validation.normalizeRouteHostPattern raw) as [host|].
  - case_bool_decide as H1.
    + apply host_step_errs in He. by apply app_nil in He as [_ ?].
    + rewrite bool_decide_eq_false_2 by (by rewrite Hs, elem_of_list_to_set in H1).
      eapply IH; [|exact He|exact Hh]. rewrite list_to_set_app, Hs. simpl. clear. set_solver.
  - apply host_step_errs in He. by apply app_nil in He as [_ ?].
Qed.

Lemma selector_key_inj h h' prefix : route_selector h prefix = route_selector h' prefix → h = h'.
Proof. unfold route_selector. apply app_inj_2. done. Qed.

Lemma load_selectors_ok name prefix hosts errs sel sel' : Forall (λ h, h ≠ []) hosts → NoDup hosts →
  (∀ h, h ∈ hosts → sel !! route_selector h prefix ≠ Some name) →
  foldl (selector_step name prefix) (errs, sel) hosts = ([], sel') → load_selectors name prefix hosts sel = inr sel'.
Proof.
  intros Hne. revert errs sel. induction Hne as [|h hosts Hh Hne IH]; intros errs sel Hnd Ho He; [by injection He as _ ->|].
  assert (∀ e s, foldl (selector_step name prefix) (e, s) hosts = ([], sel') → e = []) as Hg.
  { clear. induction hosts as [|h hosts IH]; intros e s H; [by injection H|]. cbn [foldl] in H. revert H. unfold selector_step at 2.
    destruct (h =?s []); [apply IH|]. destruct (s !! _); [destruct (negb _)|]; intros H; apply IH in H; try done. by apply app_nil in H as [_ ?]. }
  apply NoDup_cons in Hnd as [Hn Hnd]. cbn [foldl load_selectors] in *. unfold selector_step in He at 2.
  destruct (h =?s []) eqn:E; [by apply eqs_true in E|]. change (Validation.selector_key h prefix) with (route_selector h prefix) in He.
  destruct (sel !! route_selector h prefix) as [owner|] eqn:Es.
  - destruct (owner =?s name) eqn:Eo; cbn [negb] in He.
    + apply eqs_true in Eo as ->. destruct (Ho h); [set_solver|done].
    + apply Hg in He. by apply app_nil in He as [_ ?].
  - apply (IH errs); [done| |done]. intros h' Hh' Hl. rewrite lookup_insert_ne in Hl; [by apply (Ho h'); [set_solver|]|].
    intros Hk. apply selector_key_inj in Hk as ->. done.
Qed.

(** The owners of selectors are names seen. *)
Definition owners_seen (t : route_tables) : Prop := ∀ k o, selectors t !! k = Some o → to_lower o ∈ names t.

Lemma owners_after name prefix hosts acc : (∀ k o, snd acc !! k = Some o → o = name ∨ ∃ k', snd acc !! k' = Some o) →
  ∀ k o, snd (foldl (selector_step name prefix) acc hosts) !! k = Some o → o = name ∨ ∃ k', snd acc !! k' = Some o.
Proof.
  intros _. revert acc. induction hosts as [|h hosts IH]; intros acc k o H; [right; by exists k|]. cbn [foldl] in H.
  apply IH in H as [?|[k' H]]; [by left|]. revert H. destruct acc as [e s]. unfold selector_step.
  assert (∀ x, <[Validation.selector_key h prefix := name]> s !! k' = Some o → x = s → o = name ∨ ∃ k', s !! k' = Some o) as G.
  { intros x H _. apply lookup_insert_Some in H as [[_ ->]|[_ H]]; [by left|right; by exists k']. }
  destruct (h =?s []); [intros H; right; by exists k'|].
  destruct (s !! Validation.selector_key h prefix); [destruct (negb _)|]; cbn [snd]; intros H; try (by apply (G s)). right. by exists k'.
Qed.

Lemma load_route_ok t r t' r' : validate_route t r = ([], t', r') → owners_seen t →
  load_route (names t, selectors t) (of_config r) = inr (names t', selectors t', of_config r') ∧ owners_seen t'.
Proof.
  unfold validate_route. destruct (validate_name _ _) as [e1 ns] eqn:E1. destruct (validate_hosts _) as [e2 hs] eqn:E2.
  destruct (Validation.normalizePathPrefix _) as [prefix|] eqn:E3.
  2:{ repeat case_goal; intros [= He _ _]; apply app_eq_nil in He as [_ He]; by apply app_eq_nil in He as [_ He]. }
  destruct (foldl _ _ _) as [e6 sel] eqn:E6. destruct (validate_upstreams _) as [e7 us] eqn:E7.
  destruct (validate_cache _) as [e9 cc] eqn:E9. destruct (validate_health _) as [e10 hc] eqn:E10.
  intros [= He <- <-] Hown. cbn [app] in He. set (lb := normalize_lb _) in *.
  repeat match type of He with _ ++ _ = [] => let Hi := fresh "Hi" in apply app_eq_nil in He as [Hi He] end. subst.
  pose proof (Facts.validate_hosts_ok _ _ E2) as (Hhl & Hpat & Hnd).
  pose proof (Facts.validate_name_ok _ _ _ E1) as (_ & Hnew & Hns).
  rewrite Facts.limited_all in E6 by lia.
  assert (1 <= len (route_hosts r) <= Validation.maxHostsPerRoute ∧ load_hosts (route_hosts r) [] = inr hs) as (Hlen & Lh).
  { revert E2. unfold validate_hosts. destruct (foldl host_step _ _) as [[e s] h] eqn:Ef. intros [= -> <-].
    pose proof (host_step_errs _ _ _ _ (f_equal (λ a, fst (fst a)) Ef)) as Hc. pose proof (host_step_length (limited Validation.maxHostsPerRoute (route_hosts r))) as Hlen.
    destruct (route_hosts r) as [|h0 hosts] eqn:Er; [done|]. apply Facts.check_nil, Z.ltb_ge in Hc.
    assert (1 <= len (h0 :: hosts)) as H1 by (rewrite len_cons; pose proof (len_nonneg hosts); lia).
    split; [done|]. rewrite Facts.limited_all in Ef by done. rewrite Facts.limited_all in Hlen by done.
    assert (length h = length (h0 :: hosts)) as Hh by (rewrite <- (Hlen (check (Validation.maxHostsPerRoute <? len (h0 :: hosts)) "too many hosts", ∅, [])), Ef; done).
    rewrite Hh, drop_all, app_nil_r. eapply load_hosts_ok; [|by rewrite Ef|by rewrite Ef]. done. }
  assert (Forall (λ h, h ≠ []) hs) as Hne by (eapply Forall_impl; [exact Hpat|]; intros h [->|[[? _]|(x & -> & _)]]; done).
  assert (load_selectors (trim_space (route_name r)) prefix hs (selectors t) = inr sel) as Ls.
  { eapply load_selectors_ok; [done|done| |exact E6]. intros h _ Hk. apply Hown in Hk. done. }
  split.
  - unfold load_route, of_config. cbn [Name Hosts PathPrefix route_name route_hosts path_prefix]. rewrite path_prefix_agrees, E3.
    revert E1. unfold validate_name. destruct (_ =?s []) eqn:N1; [done|].
    destruct (Validation.isAdminPathDotSegment _) eqn:N2; [done|]. destruct (256 <? _) eqn:N3; [done|].
    destruct (equal_fold _ _) eqn:N4; [done|]. destruct (bool_decide _) eqn:N5; [done|]. intros _.
    destruct (Z.eqb_spec (len (route_hosts r)) 0); [lia|]. cbn [orb].
    change (load.isAdminPathDotSegment (trim_space (route_name r))) with (Validation.isAdminPathDotSegment (trim_space (route_name r))).
    rewrite N2. unfold maxRouteNameBytes. rewrite N3. destruct (Z.ltb_spec Table.maxHostsPerRoute (len (route_hosts r))) as [Hx|_].
    { unfold Table.maxHostsPerRoute, Validation.maxHostsPerRoute in *. lia. }
    rewrite Lh, Ls. cbn [names selectors]. by rewrite Hns.
  - intros k o Hk. cbn [selectors names] in *. rewrite <- (f_equal snd E6 : snd _ = sel) in Hk.
    apply owners_after in Hk as [->|[k' Hk]]; [set_solver| |by intros; right; eexists]. apply Hown in Hk. set_solver.
Qed.

Lemma load_routes_ok rs errs t done : owners_seen t →
  fst (fst (foldl route_step (errs, t, done) rs)) = [] →
  ∃ rs', snd (foldl route_step (errs, t, done) rs) = done ++ rs'
    ∧ load_routes (names t, selectors t) (of_config <$> rs) = inr (of_config <$> rs').
Proof.
  revert errs t done. induction rs as [|r rs IH]; intros errs t done Ho He; [exists []; by rewrite app_nil_r|].
  cbn [foldl] in *. unfold route_step in He at 2. unfold route_step at 2.
  destruct (validate_route t r) as [[e' t'] r'] eqn:Ev.
  assert (∀ e t d, fst (fst (foldl route_step (e, t, d) rs)) = [] → e = []) as Hg.
  { clear. induction rs as [|r rs IH]; intros e t d H; [done|]. cbn [foldl] in H. unfold route_step in H at 2.
    destruct (validate_route t r) as [[e' t'] r']. apply IH in H. by apply app_nil in H as [? _]. }
  pose proof (Hg _ _ _ He) as He'. apply app_nil in He' as [-> ->]. destruct (load_route_ok t r t' r' Ev Ho) as [Hl Ho'].
  destruct (IH _ t' (done ++ [r']) Ho' He) as (rs' & H1 & H2). exists (r' :: rs'). split; [by rewrite H1, <- app_assoc|].
  rewrite !fmap_cons. cbn [load_routes]. by rewrite Hl, H2.
Qed.

(** C39: The two programs share one route table.  When EdgeProxy accepts a
    configuration, SecurityEdge loads the routes of the same file, with exactly
    the names, host patterns and prefixes that EdgeProxy's validation made of
    them, and then selects for every request the route that EdgeProxy selects:
    no policy is applied to another route than the one that serves it. *)
Theorem route_tables_shared c c' decode f : Facts.accepted c c' →
  of_regular f = true → of_size f <= maxEdgeProxyConfigBytes → len (of_data f) <= maxEdgeProxyConfigBytes →
  valid_utf8 (of_data f) = true → decode (of_data f) = Some (of_config <$> routes c) →
  ∃ table, Load decode (Some f) = inr table ∧ table = of_config <$> routes c'
    ∧ ∀ req, Routes.Match table req = of_config <$> Router.Match (routes c') req.
Proof.
  intros Ha Hr Hs Hl Hu Hd. exists (of_config <$> routes c'). split; [|split; [done|intros; apply Routes_Match_agrees]].
  unfold Load. rewrite Hr. cbn [negb]. rewrite read_limited_ok by done. rewrite Hu, Hd. cbn [negb].
  revert Ha. unfold Facts.accepted, Validate. destruct (validate_server _ _) as [e1 s].
  destruct (foldl _ _ _) as [[e4 t] rs] eqn:E4. intros [= He <-]. cbn [routes].
  apply app_eq_nil in He as [_ He]. apply app_eq_nil in He as [_ He]. apply app_eq_nil in He as [He ->].
  assert (1 <= len (routes c) <= maxRoutes) as Hlen.
  { destruct (routes c) as [|r0 rs0]; [done|]. apply Facts.check_nil, Z.ltb_ge in He. rewrite len_cons in *. pose proof (len_nonneg rs0). lia. }
  rewrite Facts.limited_all in E4 by lia. assert (len (of_config <$> routes c) = len (routes c)) as -> by (unfold len; by rewrite length_fmap).
  destruct (Z.eqb_spec (len (routes c)) 0); [lia|]. destruct (Z.ltb_spec maxEdgeProxyRoutes (len (routes c))) as [Hx|_].
  { unfold maxEdgeProxyRoutes, maxRoutes in *. lia. }
  destruct (load_routes_ok (routes c) [] (mkTables ∅ ∅) []) as (rs' & H1 & H2); [by intros k o Hk|by rewrite E4|].
  rewrite E4 in H1. cbn [snd app] in H1. subst rs'. change (names (mkTables ∅ ∅)) with (∅ : gset str) in H2.
  change (selectors (mkTables ∅ ∅)) with (∅ : gmap str str) in H2. rewrite H2. f_equal. f_equal.
  assert (length (of_config <$> routes c) = length (of_config <$> rs)) as Hlr.
  { clear - H2. revert H2. generalize (∅ : gset str, ∅ : gmap str str) as st. generalize (of_config <$> rs) as out.
    generalize (of_config <$> routes c) as l. induction l as [|x l IH]; intros out st H; [by injection H as <-|].
    cbn [load_routes] in H. destruct (load_route st x) as [|[st' x']]; [done|]. destruct (load_routes st' l) eqn:E; [done|].
    injection H as <-. simpl. f_equal. by eapply IH. }
  rewrite !length_fmap in Hlr. by rewrite <- Hlr, drop_all, app_nil_r.
Qed.

End agree.

End load.

Definition sample_decode (text : str) : option (list Route) :=
  if text =?s "{...}" then Some (of_config <$> routes Facts.sample_config) else None.

Lemma route_tables_shared_witness :
  ∃ table, @Load unicode_ascii sample_decode (Some (mkOpened true 5 "{...}")) = inr table
  ∧ Name <$> table = lits ["shop"; "www"]
  ∧ @Routes.Match unicode_ascii table Facts.sample_req
    = of_config <$> @Router.Match unicode_ascii (routes Facts.sample_valid) Facts.sample_req.
Proof.
  destruct (@route_tables_shared unicode_ascii Facts.sample_resolve Facts.sample_config Facts.sample_valid sample_decode
    (mkOpened true 5 "{...}")) as (table & W1 & W2 & W3);
    [by vm_compute|done|by vm_compute|by vm_compute|by vm_compute|by vm_compute|].
  exists table. split; [exact W1|]. split; [rewrite W2; by vm_compute|apply W3].
Defined.
End Table.
