(* ===== verification/Traffic.v ===== *)
(** * Recent traffic: apps/securityedge/internal/traffic/tracker.go

    The bounded list of observed requests in the order of their times, and the
    summary of the activity window.  A method runs under the tracker's mutex and
    is one step; [now] is the time it reads. *)

From stdpp Require Import sorting.
From S2P Require Import Prelude GoStr GoText GoFloat.

Module Traffic.

Definition DefaultCapacity : Z := 512.
Definition DefaultWindow : duration := 5 * minute.

Record Event := mkEvent {
  ObservedAt : str; RequestID : str; ClientIP : str; Method : str; Host : str; Path : str; PathFingerprint : str;
  Route : str; Action : str; Reason : str; Status : Z; DurationMS : float64; CacheStatus : str }.

Record Snapshot := mkSnapshot {
  GeneratedAt : str; WindowSeconds : Z; RetentionCapacity : Z; WindowTruncated : bool; MinimumRequestsInWindow : Z;
  s_status : str; Summary : str; LastObservedAt : str; RequestsInWindow : Z; UniqueClients : Z; Allowed : Z;
  Rejected : Z; Canceled : Z; LastRequest : option Event }.

Record Tracker := mkTracker { capacity : Z; window : duration; events : list Event; latestEvictedAt : time }.

Definition New (cap : Z) (w : duration) : Tracker :=
  mkTracker (if cap <=? 0 then DefaultCapacity else cap) (if w <=? 0 then DefaultWindow else w) [] time_zero.

Section tracker.
Context {T : RFC3339} {FM : FloatMath}.

Definition stamp (at_ : str) (e : Event) : Event :=
  mkEvent at_ (RequestID e) (ClientIP e) (Method e) (Host e) (Path e) (PathFingerprint e) (Route e) (Action e)
    (Reason e) (Status e) (DurationMS e) (CacheStatus e).

(** [sort.Search(n, f)]: the bisection; [fuel] is more than [n]. *)
Fixpoint search (fuel : nat) (f : nat → bool) (i j : nat) : nat :=
  match fuel with
  | O => i
  | S fuel =>
      if (i <? j)%nat then
        let h := ((i + j) / 2)%nat in
        if f h then search fuel f i h else search fuel f (h + 1) j
      else i
  end.

Definition noteEvicted (observed : time) (t : Tracker) : Tracker :=
  if time_after observed (latestEvictedAt t) then mkTracker (capacity t) (window t) (events t) observed else t.

Definition with_events (es : list Event) (t : Tracker) : Tracker :=
  mkTracker (capacity t) (window t) es (latestEvictedAt t).

(** Whether the event at [i] is later than [observed]. *)
Definition later_at (es : list Event) (observed : time) (i : nat) : bool :=
  match es !! i with
  | Some e => match parse_rfc3339 (ObservedAt e) with Some existing => time_after existing observed | None => false end
  | None => false
  end.

Definition Observe (now : time) (event : Event) (t : Tracker) : Tracker :=
  let observed := match parse_rfc3339 (ObservedAt event) with Some x => x | None => now end in
  let event := stamp (format_rfc3339 observed) event in
  let es := events t in
  let position := search (S (length es)) (later_at es observed) 0 (length es) in
  if len es <? capacity t then with_events (take position es ++ event :: drop position es) t
  else if (position =? 0)%nat then noteEvicted observed t
  else
    let t := match es with
             | first :: _ => match parse_rfc3339 (ObservedAt first) with
                             | Some evicted => noteEvicted evicted t | None => t end
             | [] => t
             end in
    with_events (take (position - 1) (drop 1 es) ++ event :: drop position es) t.

(** The counts of the loop over the window. *)
Record counts := mkCounts {
  c_last : option Event; c_requests : Z; c_clients : gset str; c_allowed : Z; c_rejected : Z; c_canceled : Z }.

Definition count_step (cutoff : time) (c : counts) (event : Event) : counts :=
  match parse_rfc3339 (ObservedAt event) with
  | None => c
  | Some observed =>
      if time_before observed cutoff then c
      else
        let allowed := (Action event =?s "ALLOW") || (Action event =?s "LOG") in
        let canceled := negb allowed && (Action event =?s "CANCELED") in
        mkCounts (match c_last c with Some e => Some e | None => Some event end)
          (c_requests c + 1)
          (if ClientIP event =?s [] then c_clients c else {[ ClientIP event ]} ∪ c_clients c)
          (c_allowed c + (if allowed then 1 else 0))
          (c_rejected c + (if allowed || canceled then 0 else 1))
          (c_canceled c + (if canceled then 1 else 0))
  end.

Definition not_future (now : time) (e : Event) : bool :=
  match parse_rfc3339 (ObservedAt e) with Some observed => negb (time_after observed now) | None => false end.

Definition Snapshot_ (now : time) (t : Tracker) : Snapshot * Tracker :=
  let es := filter (λ e, not_future now e) (events t) in
  let evicted := if time_after (latestEvictedAt t) now then time_zero else latestEvictedAt t in
  let t := mkTracker (capacity t) (window t) es evicted in
  let cutoff := time_add now (- window t) in
  let truncated := negb (time_is_zero evicted) && negb (time_before evicted cutoff) in
  let c := foldl (count_step cutoff) (mkCounts None 0 ∅ 0 0 0) (reverse es) in
  let '(status, summary) :=
    match c_last c with
    | None => (lit "no_recent_traffic", lit "No client requests have been observed during the recent activity window.")
    | Some _ =>
        (lit "traffic_observed",
         if truncated then
           lit "Recent client traffic exceeds the retained event capacity; activity-window counts are a bounded retained sample and the true request volume is higher."
         else
           lit "Recent client traffic is reaching SecurityEdge; completed security decisions and cancellations are summarized separately.")
    end in
  (mkSnapshot (format_rfc3339 now) (float_to_int64 (dur_seconds (window t))) (capacity t) truncated
     (c_requests c + (if truncated then 1 else 0)) status summary
     (match c_last c with Some e => ObservedAt e | None => [] end) (c_requests c) (Z.of_nat (size (c_clients c)))
     (c_allowed c) (c_rejected c) (c_canceled c) (c_last c), t).

Definition Recent (limit : Z) (t : Tracker) : list Event :=
  let limit := if (limit <=? 0) || (len (events t) <? limit) then len (events t) else limit in
  take (Z.to_nat limit) (reverse (events t)).

(** ** The bisection *)

Lemma search_spec n f fuel i j : (i <= j <= n)%nat → (j - i < fuel)%nat →
  (∀ k, (k < i)%nat → f k = false) → (∀ k, (j <= k < n)%nat → f k = true) →
  (∀ a b, (a <= b < n)%nat → f a = true → f b = true) →
  let p := search fuel f i j in
  (p <= n)%nat ∧ (∀ k, (k < p)%nat → f k = false) ∧ (∀ k, (p <= k < n)%nat → f k = true).
Proof.
  revert i j. induction fuel as [|fuel IH]; intros i j Hij Hf Hlo Hhi Hm; [lia|]. cbn [search].
  destruct (Nat.ltb_spec i j) as [Hlt|Hge]; cycle 1.
  { cbv zeta. split_and!; [lia|done|]. intros k Hk. apply Hhi. lia. }
  cbv zeta. pose proof (Nat.Div0.div_le_upper_bound (i + j) 2 (i + j) ltac:(lia)).
  assert (i <= (i + j) / 2 < j)%nat as Hh.
  { split; [apply Nat.div_le_lower_bound; lia|apply Nat.Div0.div_lt_upper_bound; lia]. }
  destruct (f ((i + j) / 2)%nat) eqn:E.
  - apply IH; try done; try lia. intros k Hk. apply (Hm ((i + j) / 2)%nat); [lia|done].
  - apply IH; try done; try lia. intros k Hk. destruct (f k) eqn:Ek; [|done].
    by rewrite (Hm k ((i + j) / 2)%nat) in E by (done || lia).
Qed.

(** ** The events are in the order of their times *)

Definition event_time (e : Event) : time := default 0 (parse_rfc3339 (ObservedAt e)).
Definition timed (e : Event) : Prop := parse_rfc3339 (ObservedAt e) = Some (event_time e) ∧ 0 < event_time e.
Definition in_order : list Event → Prop := StronglySorted (λ a b, event_time a <= event_time b).

Lemma in_order_app a b : in_order (a ++ b) ↔
  in_order a ∧ in_order b ∧ ∀ x y, x ∈ a → y ∈ b → event_time x <= event_time y.
Proof.
  unfold in_order. induction a as [|x a IH]; cbn [app].
  - split; [intros H; split_and!; [constructor|done|set_solver]|tauto].
  - split.
    + intros H. inversion_clear H as [|? ? H1 H2]. apply IH in H1 as (I1 & I2 & I3). rewrite Forall_app in H2.
      destruct H2 as [F1 F2]. split_and!; [by constructor|done|]. intros u v [->|Hu]%elem_of_cons Hv; [|by apply I3].
      by apply (proj1 (Forall_forall _ _) F2).
    + intros (H1 & H2 & H3). inversion_clear H1 as [|? ? H4 H5]. constructor.
      * apply IH. split_and!; [done|done|]. intros u v Hu. apply H3. set_solver.
      * apply Forall_app. split; [done|]. apply Forall_forall. intros v Hv. apply H3; [set_solver|done].
Qed.

Lemma position_spec es observed : in_order es → Forall timed es →
  let p := search (S (length es)) (later_at es observed) 0 (length es) in
  (p <= length es)%nat ∧ Forall (λ e, event_time e <= observed) (take p es) ∧ Forall (λ e, observed < event_time e) (drop p es).
Proof.
  intros Ho Ht. cbv zeta.
  assert (∀ i e, es !! i = Some e → later_at es observed i = (observed <? event_time e)) as Hl.
  { intros i e Hi. unfold later_at. rewrite Hi. destruct (proj1 (Forall_lookup _ _) Ht i e Hi) as [-> _]. done. }
  destruct (search_spec (length es) (later_at es observed) (S (length es)) 0 (length es)) as (Hp & H1 & H2); try lia.
  { intros a b Hab Ha. destruct (lookup_lt_is_Some_2 es a ltac:(lia)) as [x Hx]. destruct (lookup_lt_is_Some_2 es b ltac:(lia)) as [y Hy].
    rewrite (Hl _ _ Hx) in Ha. rewrite (Hl _ _ Hy). apply Z.ltb_lt in Ha. apply Z.ltb_lt.
    destruct (decide (a = b)) as [->|Hne]; [congruence|].
    rewrite <- (take_drop b es) in Ho. apply in_order_app in Ho as (_ & _ & Ho).
    assert (event_time x <= event_time y); [|lia]. apply Ho.
    - apply list_elem_of_lookup. exists a. by rewrite lookup_take_lt by lia.
    - apply list_elem_of_lookup. exists 0%nat. by rewrite lookup_drop, Nat.add_0_r. }
  split; [done|]. split; apply Forall_lookup; intros i e Hi.
  - apply lookup_take_Some in Hi as [Hi Hlt]. specialize (H1 i Hlt). rewrite (Hl _ _ Hi) in H1. by apply Z.ltb_ge in H1.
  - rewrite lookup_drop in Hi. set (p := search _ _ _ _) in *.
    assert (p + i < length es)%nat by by eapply lookup_lt_Some. specialize (H2 (p + i)%nat ltac:(lia)).
    rewrite (Hl _ _ Hi) in H2. by apply Z.ltb_lt in H2.
Qed.

(** What is relied on of the time format: a time that is formatted with a
    four-digit year parses back to itself, to the nanosecond. *)
Definition year_10000 : time := 3652059 * 86400 * second.
Definition format_law : Prop := ∀ t, 0 < t < year_10000 → parse_rfc3339 (format_rfc3339 t) = Some t.

Definition observed_time (o : time * Event) : time :=
  match parse_rfc3339 (ObservedAt o.2) with Some x => x | None => o.1 end.
Definition recorded (o : time * Event) : Event := stamp (format_rfc3339 (observed_time o)) o.2.

(** The tracker after the events of [hist]: [gone] are those it gave up. *)
Record tracks (t : Tracker) (hist gone : list Event) : Prop := {
  tr_perm : hist ≡ₚ gone ++ events t;
  tr_timed : Forall timed hist;
  tr_order : in_order (events t);
  tr_older : ∀ g e, g ∈ gone → e ∈ events t → event_time g <= event_time e;
  tr_latest : ∀ g, g ∈ gone → event_time g <= latestEvictedAt t;
  tr_none : gone = [] → latestEvictedAt t = 0;
  tr_some : gone ≠ [] → ∃ g, g ∈ gone ∧ event_time g = latestEvictedAt t;
  tr_len : len (events t) <= capacity t;
  tr_full : gone ≠ [] → len (events t) = capacity t;
  tr_cap : 0 < capacity t }.

Lemma tracks_timed t hist gone : tracks t hist gone → Forall timed (events t).
Proof. intros [Hp Ht _ _ _ _ _ _ _ _]. rewrite Hp in Ht. by apply Forall_app in Ht as [_ Ht]. Qed.

Lemma noteEvicted_spec x t : noteEvicted x t = mkTracker (capacity t) (window t) (events t) (Z.max x (latestEvictedAt t)).
Proof.
  unfold noteEvicted, time_after. destruct (Z.ltb_spec (latestEvictedAt t) x).
  - by rewrite Z.max_l by lia.
  - rewrite Z.max_r by lia. by destruct t.
Qed.

(** Giving up an event [g] that is not later than what is kept. *)
Lemma tracks_evict t hist gone g es hist' : tracks t hist gone → timed g → hist' ≡ₚ (g :: gone) ++ es → Forall timed hist' →
  in_order es → (∀ x e, x ∈ g :: gone → e ∈ es → event_time x <= event_time e) → len es = capacity t →
  tracks (mkTracker (capacity t) (window t) es (Z.max (event_time g) (latestEvictedAt t))) hist' (g :: gone).
Proof.
  intros [_ _ _ _ Hlat Hnone Hsome _ _ Hc] Hg Hp Hti Ho Hold Hl. split; cbn [events latestEvictedAt capacity]; try (done || lia).
  - intros x [->|Hx]%elem_of_cons; [lia|]. specialize (Hlat x Hx). lia.
  - intros _. destruct (Z.max_spec (event_time g) (latestEvictedAt t)) as [[Hm ->]|[Hm ->]].
    + destruct gone as [|g0 gone]; [rewrite Hnone in Hm by done; destruct Hg; lia|].
      destruct Hsome as (x & Hx & <-); [done|]. exists x. split; [set_solver|done].
    + exists g. split; [set_solver|done].
Qed.

Lemma recorded_time o : format_law → 0 < observed_time o < year_10000 →
  timed (recorded o) ∧ event_time (recorded o) = observed_time o.
Proof.
  intros HL Ho. assert (parse_rfc3339 (ObservedAt (recorded o)) = Some (observed_time o)) as E by by apply HL.
  assert (event_time (recorded o) = observed_time o) as Et by (unfold event_time; by rewrite E).
  split; [|done]. split; [by rewrite Et|lia].
Qed.

Lemma elem_take_drop {A} (x : A) k l : x ∈ l → x ∈ take k l ∨ x ∈ drop k l.
Proof. intros H. rewrite <- (take_drop k l) in H. by apply elem_of_app in H. Qed.

Lemma Observe_tracks o t hist gone : format_law → 0 < observed_time o < year_10000 → tracks t hist gone →
  ∃ gone', tracks (Observe o.1 o.2 t) (hist ++ [recorded o]) gone' ∧ capacity (Observe o.1 o.2 t) = capacity t
           ∧ window (Observe o.1 o.2 t) = window t.
Proof.
  intros HL Hx Ht. destruct (recorded_time o HL Hx) as [Htimed Htime]. pose proof (tracks_timed _ _ _ Ht) as Htes.
  pose proof Ht as [Hp Hti Ho Hold Hlat Hnone Hsome Hlen Hfull Hcap]. unfold Observe.
  fold (observed_time o). fold (recorded o). set (r := recorded o) in *.
  destruct (position_spec (events t) (observed_time o) Ho Htes) as (Hpos & Hbefore & Hafter).
  set (p := search _ _ _ _) in *. set (es := events t) in *.
  assert (Forall timed (hist ++ [r])) as Hti' by (apply Forall_app; split; [done|by constructor]).
  assert (in_order (take p es ++ r :: drop p es)) as Hins.
  { rewrite <- (take_drop p es) in Ho. apply in_order_app in Ho as (O1 & O2 & O3). apply in_order_app. split_and!; [done| |].
    - constructor; [done|]. eapply Forall_impl; [exact Hafter|]. simpl. intros; lia.
    - intros x y Hxx [->|Hy]%elem_of_cons; [|by apply O3]. rewrite Htime. by apply (proj1 (Forall_forall _ _) Hbefore). }
  destruct (Z.ltb_spec (len es) (capacity t)) as [Hroom|Hnoroom].
  - assert (gone = []) as -> by (destruct gone; [done|]; rewrite Hfull in Hroom by done; lia).
    exists []. split; [|done]. split; cbn [events with_events latestEvictedAt capacity]; try (done || set_solver).
    + cbn [app] in *. rewrite Hp. rewrite <- (take_drop p es) at 1. rewrite <- app_assoc. apply Permutation_app_head.
      symmetry. apply Permutation_cons_append.
    + rewrite len_app, len_cons. rewrite <- (take_drop p es), len_app in Hroom. lia.
  - assert (len es = capacity t) as Heq by lia. destruct (Nat.eqb_spec p 0) as [Hp0|Hp0].
    + rewrite noteEvicted_spec, <- Htime. exists (r :: gone). split; [|done]. rewrite Hp0, drop_0 in Hafter.
      apply (tracks_evict t hist gone r es); try done.
      * rewrite Hp. cbn [app]. symmetry. apply Permutation_cons_append.
      * intros x e [->|Hxx]%elem_of_cons He; [|by apply Hold]. rewrite Htime.
        pose proof (proj1 (Forall_forall _ _) Hafter e He) as Ha. cbv beta in Ha. lia.
    + destruct es as [|first es1] eqn:Ees; [simpl in Hpos; lia|]. destruct p as [|p']; [done|].
      inversion Htes as [|? ? Hfirst Htes1]; subst. pose proof (proj1 Hfirst) as Hparse. rewrite Hparse, noteEvicted_spec.
      exists (first :: gone). split; [|done]. cbn [take drop app] in *. cbn [Nat.sub]. rewrite Nat.sub_0_r, drop_0.
      unfold with_events. cbn [capacity window latestEvictedAt].
      apply (in_order_app [first]) in Hins as (_ & Hins & Hfst). inversion Hbefore as [|? ? Hb1 Hb2]; subst.
      apply (tracks_evict t hist gone first (take p' es1 ++ r :: drop p' es1)); try done.
      * rewrite Hp. cbn [app]. rewrite <- (take_drop p' es1) at 1. etrans; [symmetry; apply Permutation_cons_append|].
        rewrite <- (Permutation_middle gone _ first), <- (Permutation_middle (take p' es1) _ r), <- (Permutation_middle gone _ r).
        apply perm_swap.
      * intros x e [->|Hxx]%elem_of_cons He; [apply Hfst; [set_solver|done]|].
        etrans; [apply (Hold x first); [done|set_solver]|]. apply Hfst; [set_solver|done].
      * rewrite <- Heq, !len_cons, len_app, len_cons. rewrite <- (take_drop p' es1) at 3. rewrite len_app. lia.
Qed.

(** ** The counts of a snapshot *)

Definition within (cutoff : time) (e : Event) : bool := cutoff <=? event_time e.

Lemma counts_spec cutoff es c0 : Forall timed es →
  let c := foldl (count_step cutoff) c0 es in
  let seen := filter (λ e, within cutoff e) es in
  c_requests c = c_requests c0 + len seen
  ∧ c_allowed c + c_rejected c + c_canceled c = c_allowed c0 + c_rejected c0 + c_canceled c0 + len seen
  ∧ c_last c = match c_last c0 with Some e => Some e | None => head seen end.
Proof.
  intros Ht. revert c0. induction Ht as [|e es [Hp _] _ IH]; intros c0; cbv zeta.
  { change (len (filter _ [])) with 0. split_and!; [simpl; lia|simpl; lia|simpl; by destruct (c_last c0)]. }
  cbn [foldl]. destruct (IH (count_step cutoff c0 e)) as (I1 & I2 & I3). rewrite I1, I2, I3. clear I1 I2 I3 IH.
  unfold count_step. rewrite Hp, filter_cons. unfold time_before, within at 5 6 7 8. unfold within.
  destruct (Z.ltb_spec (event_time e) cutoff) as [Hlt|Hge].
  - rewrite decide_False; [done|]. rewrite Is_true_true, Z.leb_le. lia.
  - rewrite decide_True by (rewrite Is_true_true, Z.leb_le; lia). rewrite len_cons.
    cbn [c_requests c_allowed c_rejected c_canceled c_last head]. split_and!; [lia| |by destruct (c_last c0)].
    destruct (_ || _); cbn [orb andb negb]; [lia|]. destruct (Action e =?s "CANCELED"); cbn [negb]; lia.
Qed.

Lemma newest_head cutoff es e : in_order es → head (filter (λ e, within cutoff e) (reverse es)) = Some e →
  e ∈ es ∧ ∀ x, x ∈ es → event_time x <= event_time e.
Proof.
  induction es as [|x es IH] using rev_ind; intros Ho He; [done|].
  apply in_order_app in Ho as (Ho & _ & Hx). rewrite reverse_snoc, filter_cons in He.
  destruct (Z.leb_spec cutoff (event_time x)) as [Hin|Hout].
  - rewrite decide_True in He by (unfold within; rewrite Is_true_true; by apply Z.leb_le). injection He as <-. split; [set_solver|].
    intros y [Hy| ->%list_elem_of_singleton]%elem_of_app; [by apply Hx; [|set_solver]|lia].
  - rewrite decide_False in He by (unfold within; rewrite Is_true_true, Z.leb_le; lia). pose proof (head_Some_elem_of _ _ He) as Hw.
    apply list_elem_of_filter in Hw as [Hw _]. unfold within in Hw. apply Is_true_true, Z.leb_le in Hw.
    destruct (IH Ho He) as [I1 I2]. split; [set_solver|].
    intros y [Hy| ->%list_elem_of_singleton]%elem_of_app; [by apply I2|lia].
Qed.

Definition observe_all (obs : list (time * Event)) (t : Tracker) : Tracker := foldl (λ t o, Observe o.1 o.2 t) t obs.

Lemma New_tracks cap w : tracks (New cap w) [] [].
Proof.
  split; cbn [New events latestEvictedAt capacity]; try done; try set_solver; try constructor.
  - change (len []) with 0. unfold DefaultCapacity. destruct (Z.leb_spec cap 0); lia.
  - unfold DefaultCapacity. destruct (Z.leb_spec cap 0); lia.
Qed.

Lemma observe_all_tracks obs t hist gone : format_law → Forall (λ o, 0 < observed_time o < year_10000) obs → tracks t hist gone →
  ∃ gone', tracks (observe_all obs t) (hist ++ (recorded <$> obs)) gone' ∧ window (observe_all obs t) = window t.
Proof.
  intros HL Ho. revert t hist gone. induction Ho as [|o obs Ho _ IH]; intros t hist gone Ht.
  - exists gone. by rewrite app_nil_r.
  - destruct (Observe_tracks o t hist gone HL Ho Ht) as (gone1 & H1 & _ & H2).
    destruct (IH _ _ _ H1) as (gone2 & H3 & H4). exists gone2. cbn [observe_all foldl fmap list_fmap].
    rewrite cons_middle, (assoc_L (++)). split; [done|]. by rewrite <- H2.
Qed.

Lemma within_recorded cutoff obs : format_law → Forall (λ o, 0 < observed_time o < year_10000) obs →
  len (filter (λ e, within cutoff e) (recorded <$> obs)) = len (filter (λ o, cutoff <= observed_time o) obs).
Proof.
  intros HL Ho. induction Ho as [|o obs Ho _ IH]; [done|]. rewrite fmap_cons, !filter_cons.
  destruct (recorded_time o HL Ho) as [_ Ht]. assert (Is_true (within cutoff (recorded o)) ↔ cutoff <= observed_time o) as Hw
    by (unfold within; by rewrite Ht, Is_true_true, Z.leb_le).
  destruct (decide (cutoff <= observed_time o)) as [Hd|Hd].
  - rewrite decide_True by by apply Hw. by rewrite !len_cons, IH.
  - rewrite decide_False by by rewrite Hw. done.
Qed.

(** The activity window does not lie.  If the clock does not run backwards, then
    after any requests the window's count is the number of requests observed in
    it, unless the snapshot says that the window is truncated; then that number
    is larger than the count and at least the reported minimum.  Every counted
    request is exactly one of allowed, rejected and canceled, and the last
    request reported is the newest of all. *)
Theorem window_counts_honest cap w obs now : format_law → 0 <= now < year_10000 →
  Forall (λ o, 0 < observed_time o <= now) obs →
  let t := observe_all obs (New cap w) in
  let s := fst (Snapshot_ now t) in
  let in_window := len (filter (λ o, now - window t <= observed_time o) obs) in
  (WindowTruncated s = false → RequestsInWindow s = in_window)
  ∧ (WindowTruncated s = true → RequestsInWindow s < in_window)
  ∧ MinimumRequestsInWindow s <= in_window
  ∧ Allowed s + Rejected s + Canceled s = RequestsInWindow s
  ∧ (∀ e, LastRequest s = Some e → ∀ o, o ∈ obs → observed_time o <= event_time e)
  ∧ (LastRequest s = None → RequestsInWindow s = 0).
Proof.
  intros HL Hnow Hobs. cbv zeta.
  assert (Forall (λ o, 0 < observed_time o < year_10000) obs) as Hobs' by (eapply Forall_impl; [exact Hobs|]; simpl; intros; lia).
  destruct (observe_all_tracks obs (New cap w) [] [] HL Hobs' (New_tracks cap w)) as (gone & Ht & _).
  set (t := observe_all obs (New cap w)) in *. rewrite app_nil_l in Ht. pose proof (tracks_timed _ _ _ Ht) as Htes.
  destruct Ht as [Hp Hti Ho Hold Hlat Hnone Hsome Hlen Hfull Hcap].
  assert (∀ e, e ∈ gone ++ events t → event_time e <= now) as Hpast.
  { intros e He. rewrite <- Hp in He. apply list_elem_of_fmap in He as (o & -> & Hin).
    pose proof (proj1 (Forall_forall _ _) Hobs o Hin) as Ho1. cbv beta in Ho1.
    destruct (recorded_time o HL ltac:(lia)) as [_ ->]. lia. }
  assert (filter (λ e, not_future now e) (events t) = events t) as Hkeep.
  { apply filter_all. intros e He. unfold not_future. destruct (proj1 (Forall_forall _ _) Htes e He) as [-> _].
    unfold time_after. rewrite Is_true_true, negb_true_iff, Z.ltb_ge. apply Hpast. set_solver. }
  assert (0 <= latestEvictedAt t <= now ∧ (latestEvictedAt t = 0 ↔ gone = [])) as [Hev Hzero].
  { destruct gone as [|g gone]; [rewrite Hnone by done; split; [lia|done]|]. destruct Hsome as (x & Hx & <-); [done|].
    assert (x ∈ (g :: gone) ++ events t) as Hxx by set_solver. pose proof (Hpast x Hxx).
    assert (timed x) as [_ ?]; [|split; [lia|split; [lia|done]]]. rewrite Hp in Hti. apply Forall_app in Hti as [Hti _].
    by apply (proj1 (Forall_forall _ _) Hti). }
  unfold Snapshot_. rewrite Hkeep. unfold time_after. destruct (Z.ltb_spec now (latestEvictedAt t)); [lia|].
  cbn [window capacity]. set (cutoff := time_add now (- window t)).
  pose proof (counts_spec cutoff (reverse (events t)) (mkCounts None 0 ∅ 0 0 0)) as Hc. cbv zeta in Hc.
  rewrite reverse_Permutation in Hc at 1. destruct (Hc Htes) as (C1 & C2 & C3). clear Hc.
  set (c := foldl (count_step cutoff) _ _) in *. cbn [c_requests c_allowed c_rejected c_canceled c_last] in *.
  set (seen := filter (λ e, within cutoff e) (events t)).
  assert (len (filter (λ e, within cutoff e) (reverse (events t))) = len seen) as Hseen.
  { unfold seen, len. by rewrite (reverse_Permutation (events t)). }
  rewrite Hseen in C1, C2.
  assert (len (filter (λ o, now - window t <= observed_time o) obs) = len (filter (λ e, within cutoff e) gone) + len seen) as ->.
  { change (now - window t) with (now + - window t). fold (time_add now (- window t)). fold cutoff.
    rewrite <- (within_recorded cutoff obs HL Hobs'). unfold len at 1. rewrite Hp, filter_app. rewrite length_app. unfold len, seen. lia. }
  set (truncated := negb (time_is_zero _) && _).
  assert (truncated = false → len (filter (λ e, within cutoff e) gone) = 0) as Hf.
  { unfold truncated. intros Htr. rewrite filter_none; [done|]. intros g Hg Hw. unfold within in Hw. apply Is_true_true, Z.leb_le in Hw.
    apply andb_false_iff in Htr. unfold time_is_zero, time_before in Htr. rewrite !negb_false_iff, Z.eqb_eq, Z.ltb_lt in Htr.
    specialize (Hlat g Hg). destruct Htr as [Hz|Hlt]; [|lia]. apply Hzero in Hz as ->. by apply not_elem_of_nil in Hg. }
  assert (truncated = true → 0 < len (filter (λ e, within cutoff e) gone)) as Htrue.
  { unfold truncated. intros Htr. apply andb_true_iff in Htr as [Hz Hlt]. unfold time_is_zero, time_before in *.
    rewrite negb_true_iff, Z.eqb_neq in Hz. rewrite negb_true_iff, Z.ltb_ge in Hlt.
    destruct Hsome as (x & Hx & Hxe); [intros ->; by rewrite Hnone in Hz|].
    assert (x ∈ filter (λ e, within cutoff e) gone) as Hin.
    { apply list_elem_of_filter. split; [|done]. unfold within. rewrite Is_true_true, Z.leb_le. lia. }
    destruct (filter (λ e, within cutoff e) gone) as [|y l]; [by apply not_elem_of_nil in Hin|]. rewrite len_cons.
    pose proof (len_nonneg l). lia. }
  assert (∀ e, c_last c = Some e → ∀ o, o ∈ obs → observed_time o <= event_time e) as Hlast.
  { rewrite C3. intros e He o Hin. destruct (newest_head _ _ _ Ho He) as [Hee Hmax].
    destruct (recorded_time o HL) as [_ <-]; [by apply (proj1 (Forall_forall _ _) Hobs')|].
    assert (recorded o ∈ gone ++ events t) as [Hg|Hk]%elem_of_app
      by (rewrite <- Hp; by apply list_elem_of_fmap_2); [by apply Hold|by apply Hmax]. }
  assert (c_last c = None → len seen = 0) as Hempty.
  { rewrite C3, <- Hseen. by destruct (filter _ (reverse (events t))). }
  pose proof (len_nonneg (filter (λ e, within cutoff e) gone)). rewrite C1. clearbody truncated c.
  destruct (c_last c) as [e|] eqn:El; cbn [fst WindowTruncated RequestsInWindow MinimumRequestsInWindow Allowed Rejected Canceled LastRequest].
  all: destruct truncated; try specialize (Hf eq_refl); try specialize (Htrue eq_refl); split_and!; try done; try lia; intros; try discriminate; try lia.
  all: try (by eapply Hlast); rewrite Hempty by done; lia.
Qed.

End tracker.

(** ** A sample *)

Section sample.

(** Times as words of binary digits. *)
Fixpoint digits (p : positive) : str :=
  match p with xI p => chr 49 :: digits p | xO p => chr 48 :: digits p | xH => [] end.

Fixpoint undigits (s : str) : positive :=
  match s with [] => xH | c :: s => if c =?c "1"%char then xI (undigits s) else xO (undigits s) end.

#[local] Instance sample_rfc3339 : RFC3339 :=
  {| parse_rfc3339 s := match s with [] => None | _ :: s => Some (Zpos (undigits s)) end;
     format_rfc3339 t := lit "T" ++ digits (Z.to_pos t) |}.
#[local] Instance sample_fm : FloatMath := {| pow x _ := x; int64_undefined _ := min_int64 |}.

Lemma sample_format : format_law.
Proof.
  intros t [H _]. destruct t as [|p|p]; [done| |done]. cbn [format_rfc3339 parse_rfc3339 sample_rfc3339 Z.to_pos app lit list_ascii_of_string].
  do 2 f_equal. clear H. induction p as [p IH|p IH|]; cbn [digits undigits]; [| |done].
  - change (chr 49 =?c "1"%char) with true. cbn iota. by rewrite IH.
  - change (chr 48 =?c "1"%char) with false. cbn iota. by rewrite IH.
Qed.

Definition sample_event (action : string) : Event :=
  mkEvent [] [] (lit "192.0.2.1") [] [] [] [] [] (lit action) [] 0 f_zero [].

(** Two events are kept of three; the third falls in the window too. *)
Definition sample_obs : list (time * Event) :=
  [(9 * minute, sample_event "ALLOW"); (8 * minute, sample_event "BLOCK"); (7 * minute, sample_event "CANCELED")].

Definition sample_snapshot : Snapshot := fst (Snapshot_ (10 * minute) (observe_all sample_obs (New 2 0))).

Lemma window_counts_honest_witness :
  (Allowed sample_snapshot, Rejected sample_snapshot, Canceled sample_snapshot, WindowTruncated sample_snapshot) = (1, 1, 0, true)
  ∧ RequestsInWindow sample_snapshot < 3.
Proof.
  assert (0 <= 10 * minute < year_10000) as Hnow by by vm_compute.
  assert (Forall (λ o, 0 < observed_time o <= 10 * minute) sample_obs) as Hobs
    by (repeat constructor; vm_compute; done).
  destruct (window_counts_honest 2 0 sample_obs (10 * minute) sample_format Hnow Hobs) as (_ & W & _).
  split; [vm_compute; reflexivity|]. apply W. vm_compute. reflexivity.
Defined.

End sample.
End Traffic.
