(* ===== verification/EnvFile.v ===== *)
(** * Dotenv files: apps/edgeproxy/internal/envfile/envfile.go

    The line parser, reading a file, and the transactional loader that owns a
    part of the process environment.  SecurityEdge has the same text.  A
    function that takes [managedMu] is one step.  [json_string] is
    [json.Unmarshal] of a text into a string. *)

From S2P Require Import Prelude GoStr GoText GoOS.

Module EnvFile.

Definition maxFileBytes : Z := 2 ^ 20.

Section parse.
Context (json_string : str → option str).

(** [^[A-Za-z_][A-Za-z0-9_]*$] *)
Definition word_byte (c : ascii) : bool := is_alnum c || (c =?c "_").
Definition keyPattern (key : str) : bool :=
  match key with [] => false | c :: _ => negb (is_digit c) && forallb word_byte key end.

Definition validateTrailing (raw : str) : bool :=
  let trailing := trim_space raw in (trailing =?s []) || has_prefix trailing "#".

Fixpoint closing_from (escaped : bool) (i : nat) (s : str) : option nat :=
  match s with
  | [] => None
  | c :: s =>
      if escaped then closing_from false (S i) s
      else if c =?c backslash then closing_from true (S i) s
      else if c =?c dquote then Some i
      else closing_from false (S i) s
  end.

(** The index of the quote that closes [raw]. *)
Definition closingDoubleQuote (raw : str) : option nat := closing_from false 1 (drop 1 raw).

(** What is before a comment; [prev] is the byte before [s]. *)
Fixpoint before_comment (prev : ascii) (s : str) : str :=
  match s with
  | [] => []
  | c :: s => if (c =?c "#") && ((prev =?c " ") || (prev =?c chr 9)) then [] else c :: before_comment c s
  end.

Definition parseValue (raw : str) : str + str :=
  match raw with
  | [] => inr []
  | c :: rest =>
      if c =?c "'" then
        match index_byte rest "'" with
        | None => inl (lit "unterminated single-quoted value")
        | Some i =>
            if validateTrailing (drop (S i) rest) then inr (take i rest)
            else inl (lit "unexpected characters after quoted value")
        end
      else if c =?c dquote then
        match closingDoubleQuote raw with
        | None => inl (lit "unterminated double-quoted value")
        | Some i =>
            if negb (validateTrailing (drop (S i) raw)) then inl (lit "unexpected characters after quoted value")
            else match json_string (take (S i) raw) with
            | None => inl (lit "invalid double-quoted value")
            | Some value => inr value
            end
        end
      else inr (trim_space (c :: before_comment c rest))
  end.

Definition parseLine (raw : str) : str + option (str * str) :=
  let line := trim_space raw in
  if (line =?s []) || has_prefix line "#" then inr None
  else
    let line := if has_prefix line "export " then trim_space (trim_prefix line "export ") else line in
    match index_byte line "=" with
    | None => inl (lit "expected KEY=VALUE")
    | Some idx =>
        let key := trim_space (take idx line) in
        if negb (keyPattern key) then inl (lit "invalid variable name")
        else match parseValue (trim_space (drop (S idx) line)) with
        | inl e => inl e
        | inr value =>
            if mem_byte nul value then inl (lit "environment values cannot contain NUL bytes")
            else inr (Some (key, value))
        end
    end.

(** [bufio.ScanLines]: the lines without their end; there is no line after the
    last newline. *)
Definition drop_cr (line : str) : str := trim_suffix line [chr 13].
Definition scan_lines (data : str) : list str :=
  let l := split data (chr 10) in
  drop_cr <$> match last l with Some [] => removelast l | _ => l end.

(** The loop of [readValues]; [n] is the number of the line. *)
Fixpoint read_lines (n : Z) (lines : list str) (values : variables) : str + variables :=
  match lines with
  | [] => inr values
  | line :: lines =>
      let line := if n =? 1 then trim_prefix line [chr 239; chr 187; chr 191] else line in
      match parseLine line with
      | inl e => inl e
      | inr kv =>
          read_lines (n + 1) lines (match kv with Some (key, value) => <[key := value]> values | None => values end)
      end
  end.

(** [file] is what opening the path gives. *)
Definition readValues (file : option opened) : str + variables :=
  match file with
  | None => inl (lit "open")
  | Some f =>
      if negb (of_regular f) then inl (lit "environment path is not a regular file")
      else match read_limited maxFileBytes f with
      | inl e => inl e
      | inr data =>
          if negb (valid_utf8 data) then inl (lit "environment file must be valid UTF-8")
          else read_lines 1 (scan_lines data) ∅
      end
  end.

End parse.

(** ** The loader *)

(** The process environment, and what this package has set in it. *)
Record State := mkState { os_env : variables; managedValues : variables }.

Definition ManagedSnapshot := variables.

Definition SnapshotManagedEnvironment (s : State) : ManagedSnapshot := managedValues s.

Section load.
Context {R : MapRange} (json_string : str → option str).

(** Setting every variable of a list; [false] after the first failure. *)
Fixpoint setenv_all (kvs : list (str * str)) (env : variables) : variables * bool :=
  match kvs with
  | [] => (env, true)
  | (key, value) :: kvs =>
      match setenv key value env with None => (env, false) | Some env => setenv_all kvs env end
  end.

Definition RestoreManagedEnvironment (snapshot : ManagedSnapshot) (s : State) : State * option str :=
  let env := foldl (λ env kv, match snapshot !! kv.1 with Some _ => env | None => unsetenv kv.1 env end)
               (os_env s) (range (managedValues s)) in
  let '(env, ok) := setenv_all (range snapshot) env in
  if ok then (mkState env snapshot, None) else (mkState env (managedValues s), Some (lit "while restoring managed environment")).

(** A reload under way: the state and the values to go back to. *)
Record transaction := mkTxn { tx_state : State; previousEnv : gmap str (option str) }.

Definition record (key : str) (t : transaction) : transaction :=
  match previousEnv t !! key with
  | Some _ => t
  | None => mkTxn (tx_state t) (<[key := os_env (tx_state t) !! key]> (previousEnv t))
  end.

Definition restore_step (env : variables) (kv : str * option str) : variables :=
  match kv.2 with
  | None => unsetenv kv.1 env
  | Some value => default env (setenv kv.1 value env)
  end.

Definition rollback (previousManaged : variables) (t : transaction) : State :=
  mkState (foldl restore_step (os_env (tx_state t)) (range (previousEnv t))) previousManaged.

(** A managed variable that the new file leaves out. *)
Definition drop_step (values : variables) (t : transaction) (kv : str * str) : transaction :=
  match values !! kv.1 with
  | Some _ => t
  | None =>
      let t := record kv.1 t in
      mkTxn (mkState (unsetenv kv.1 (os_env (tx_state t))) (delete kv.1 (managedValues (tx_state t)))) (previousEnv t)
  end.

(** The variables of the file; [false] when one cannot be set. *)
Fixpoint set_steps (kvs : list (str * str)) (t : transaction) : transaction * bool :=
  match kvs with
  | [] => (t, true)
  | (key, value) :: kvs =>
      let s := tx_state t in
      match managedValues s !! key, os_env s !! key with
      | None, Some _ => set_steps kvs t
      | _, _ =>
          let t := record key t in
          match setenv key value (os_env s) with
          | None => (t, false)
          | Some env => set_steps kvs (mkTxn (mkState env (<[key := value]> (managedValues s))) (previousEnv t))
          end
      end
  end.

(** [validate] may look at the environment and change a state of its own. *)
Definition loadFile {M} (file : option opened) (reload : bool) (validate : variables → M → M * option str)
    (s : State) (m : M) : State * M * option str :=
  match readValues json_string file with
  | inl e => (s, m, Some e)
  | inr values =>
      let t := mkTxn s ∅ in
      let t := if reload then foldl (drop_step values) t (range (managedValues s)) else t in
      let '(t, ok) := set_steps (range values) t in
      if negb ok then (rollback (managedValues s) t, m, Some (lit "set"))
      else match validate (os_env (tx_state t)) m with
      | (m, Some _) => (rollback (managedValues s) t, m, Some (lit "validation failed"))
      | (m, None) => (tx_state t, m, None)
      end
  end.

Definition no_validation (env : variables) (m : unit) : unit * option str := (m, None).

Definition load_plain (file : option opened) (reload : bool) (s : State) : State * option str :=
  let '(s, _, e) := loadFile file reload no_validation s tt in (s, e).

(** [Load]: the state and the path that was loaded; [fs] is the file system. *)
Fixpoint load_candidates (fs : str → node) (candidates : list str) (s : State) : State * (str + str) :=
  match candidates with
  | [] => (s, inr [])
  | candidate :: candidates =>
      let candidate := trim_space candidate in
      if candidate =?s [] then load_candidates fs candidates s
      else match fs candidate with
      | Missing => load_candidates fs candidates s
      | Unreachable => (s, inl (lit "stat environment file"))
      | Node f =>
          if negb (of_regular f) then (s, inl (lit "environment path is not a regular file"))
          else match load_plain (Some f) false s with
          | (s, Some e) => (s, inl e)
          | (s, None) => (s, inr candidate)
          end
      end
  end.

Definition Load (fs : str → node) (explicit : str) (candidates : list str) (s : State) : State * (str + str) :=
  let explicit := trim_space explicit in
  if negb (explicit =?s []) then
    match load_plain (open_node (fs explicit)) false s with
    | (s, Some e) => (s, inl e)
    | (s, None) => (s, inr explicit)
    end
  else load_candidates fs candidates s.

Definition Reload (fs : str → node) (path : str) (s : State) : State * option str :=
  if trim_space path =?s [] then (s, None) else load_plain (open_node (fs path)) true s.

Definition ReloadValidated {M} (fs : str → node) (path : str) (validate : variables → M → M * option str)
    (s : State) (m : M) : State * M * option str :=
  if trim_space path =?s [] then let '(m, e) := validate (os_env s) m in (s, m, e)
  else loadFile (open_node (fs path)) true validate s m.

End load.
End EnvFile.
