(* ===== verification/EnvFileFacts.v ===== *)
(** * What the dotenv loader guarantees (EnvFile.v)

    The variables of the deployment are never touched; a reload that fails
    leaves the environment as it was; a file written with single quotes is read
    back exactly. *)

From S2P Require Import Prelude GoStr GoText GoOS EnvFile.

Module EnvFacts.
Import EnvFile.

(** ** What can be set *)

Definition settable (key value : str) : Prop := keyPattern key = true ∧ nul ∉ value.

Lemma setenv_settable key value env : settable key value → setenv key value env = Some (<[key := value]> env).
Proof.
  intros [Hk Hv]. unfold setenv.
  assert (∀ c, negb (word_byte c) = true → mem_byte c key = false) as Hno.
  { intros c Hc. apply not_true_iff_false. rewrite mem_byte_true. intros Hin. destruct key as [|d key]; [done|].
    cbn [keyPattern] in Hk. apply andb_true_iff in Hk as [_ Hk]. rewrite forallb_forall in Hk.
    apply list_elem_of_In, Hk in Hin. by rewrite Hin in Hc. }
  rewrite (Hno "="%char) by done. rewrite (Hno nul) by done.
  assert (mem_byte nul value = false) as -> by (apply not_true_iff_false; by rewrite mem_byte_true).
  by destruct key.
Qed.

Lemma parseLine_settable json raw key value : parseLine json raw = inr (Some (key, value)) → settable key value.
Proof.
  unfold parseLine. destruct (_ || _); [done|]. set (line := if has_prefix _ _ then _ else _).
  destruct (index_byte line "=") as [i|]; [|done]. destruct (keyPattern _) eqn:Hk; [|done]. cbn [negb].
  destruct (parseValue _ _) as [|v]; [done|]. destruct (mem_byte nul v) eqn:Hv; [done|]. intros [= <- <-]. split; [done|].
  rewrite <- mem_byte_true. by rewrite Hv.
Qed.

Lemma readValues_settable json file values : readValues json file = inr values → map_Forall settable values.
Proof.
  unfold readValues. destruct file as [f|]; [|done]. destruct (of_regular f); [|done]. cbn [negb].
  destruct (read_limited _ _) as [|data]; [done|]. destruct (valid_utf8 data); [|done]. cbn [negb].
  assert (map_Forall settable (∅ : variables)) as H0 by apply map_Forall_empty. revert H0. generalize (∅ : variables) as m.
  generalize 1 as n. induction (scan_lines data) as [|line lines IH]; intros n m Hm H; [by injection H as <-|].
  cbn [read_lines] in H. destruct (parseLine json _) as [|[[k v]|]] eqn:E; [done| |].
  - eapply IH; [|exact H]. apply map_Forall_insert_2; [by eapply parseLine_settable|done].
  - by eapply IH.
Qed.

(** ** The loop steps *)

Section facts.
Context {R : MapRange}.
Context (dep : variables).

(** The environment is that of the deployment and what the loader owns. *)
Record owns (s : State) : Prop := {
  ow_env : os_env s = dep ∪ managedValues s;
  ow_disj : dep ##ₘ managedValues s;
  ow_set : map_Forall settable (managedValues s) }.

Lemma owns_lookup s k : owns s → os_env s !! k = match dep !! k with Some v => Some v | None => managedValues s !! k end.
Proof. intros [-> _ _]. rewrite lookup_union. destruct (dep !! k), (managedValues s !! k); done. Qed.

Lemma owns_managed s k v : owns s → managedValues s !! k = Some v → dep !! k = None.
Proof. intros [_ Hd _] Hv. by eapply map_disjoint_Some_r. Qed.

(** What a reload has recorded is enough to go back to [s0]. *)
Definition undoable (s0 : State) (t : transaction) : Prop := ∀ k,
  match previousEnv t !! k with
  | Some old => old = os_env s0 !! k ∧ (∀ v, old = Some v → settable k v)
  | None => os_env (tx_state t) !! k = os_env s0 !! k
  end.

Lemma restore_lookup (kvs : list (str * option str)) env k : NoDup kvs.*1 → (∀ x v, (x, Some v) ∈ kvs → settable x v) →
  foldl restore_step env kvs !! k = match (list_to_map kvs : gmap str (option str)) !! k with Some old => old | None => env !! k end.
Proof.
  revert env. induction kvs as [|[x old] kvs IH]; intros env Hnd Hs; [cbn; by rewrite lookup_empty|].
  inversion_clear Hnd as [|? ? Hx Hnd']. rewrite list_to_map_cons. cbn [foldl].
  rewrite IH by (done || intros y v Hy; apply Hs; by right). unfold restore_step. cbn [fst snd].
  destruct (decide (k = x)) as [->|Hne].
  - rewrite lookup_insert_eq. rewrite (not_elem_of_list_to_map_1 kvs x) by done. destruct old as [v|].
    + rewrite setenv_settable by (apply Hs; by left). apply lookup_insert_eq.
    + apply lookup_delete_eq.
  - rewrite lookup_insert_ne by done. destruct (list_to_map kvs !! k); [done|]. destruct old as [v|].
    + rewrite setenv_settable by (apply Hs; by left). by apply lookup_insert_ne.
    + by apply lookup_delete_ne.
Qed.

Lemma rollback_exact s0 t : undoable s0 t → rollback (managedValues s0) t = s0.
Proof.
  intros Hu. unfold rollback. destruct s0 as [env0 man0]. f_equal. apply map_eq. intros k. rewrite restore_lookup.
  - rewrite list_to_map_range. specialize (Hu k). destruct (previousEnv t !! k); [by destruct Hu|done].
  - apply NoDup_range.
  - intros x v Hx. apply elem_of_range in Hx. specialize (Hu x). rewrite Hx in Hu. by apply Hu.
Qed.

Lemma record_spec s0 k t : undoable s0 t → owns s0 → dep !! k = None →
  tx_state (record k t) = tx_state t ∧ is_Some (previousEnv (record k t) !! k) ∧ undoable s0 (record k t).
Proof.
  intros Hu Ho Hd. unfold record. destruct (previousEnv t !! k) as [old|] eqn:E; [by rewrite E|].
  cbn [tx_state previousEnv]. split_and!; [done|by rewrite lookup_insert_eq|]. intros x. cbn [previousEnv tx_state].
  destruct (decide (x = k)) as [->|Hne].
  - rewrite lookup_insert_eq. pose proof (Hu k) as Hk. rewrite E in Hk. split; [done|]. intros v Hv. apply (ow_set _ Ho).
    rewrite Hk, (owns_lookup _ _ Ho), Hd in Hv. done.
  - rewrite lookup_insert_ne by done. apply Hu.
Qed.

(** A step that changes only the variable [k], which is recorded. *)
Lemma undoable_step s0 t k env man : undoable s0 t → is_Some (previousEnv t !! k) →
  (∀ x, x ≠ k → env !! x = os_env (tx_state t) !! x) → undoable s0 (mkTxn (mkState env man) (previousEnv t)).
Proof.
  intros Hu Hk Henv x. cbn [previousEnv tx_state os_env]. specialize (Hu x). destruct (previousEnv t !! x) as [old|] eqn:E; [done|].
  rewrite Henv; [done|]. intros ->. rewrite E in Hk. by destruct Hk.
Qed.

Lemma owns_delete s k : owns s → dep !! k = None → owns (mkState (unsetenv k (os_env s)) (delete k (managedValues s))).
Proof.
  intros [He Hd Hs] Hk. split; cbn [os_env managedValues].
  - rewrite He. unfold unsetenv. rewrite delete_union. f_equal. by apply delete_id.
  - by apply map_disjoint_delete_r.
  - by apply map_Forall_delete.
Qed.

Lemma owns_insert s k v : owns s → dep !! k = None → settable k v →
  owns (mkState (<[k := v]> (os_env s)) (<[k := v]> (managedValues s))).
Proof.
  intros [He Hd Hs] Hk Hv. split; cbn [os_env managedValues].
  - by rewrite He, insert_union_r.
  - by apply map_disjoint_insert_r.
  - by apply map_Forall_insert_2.
Qed.

Lemma drop_all values s0 kvs t : owns s0 → owns (tx_state t) → undoable s0 t →
  (∀ kv, kv ∈ kvs → managedValues s0 !! kv.1 = Some kv.2) →
  let t' := foldl (drop_step values) t kvs in
  owns (tx_state t') ∧ undoable s0 t'
  ∧ ∀ k, managedValues (tx_state t') !! k
         = if decide (k ∈ kvs.*1 ∧ values !! k = None) then None else managedValues (tx_state t) !! k.
Proof.
  intros H0. revert t. induction kvs as [|[x v] kvs IH]; intros t Ho Hu Hk; cbv zeta.
  { split_and!; [done|done|]. intros k. rewrite decide_False; [done|]. intros [[]%not_elem_of_nil _]. }
  cbn [foldl].
  assert (dep !! x = None) as Hd by (eapply owns_managed; [exact H0|apply (Hk (x, v)); by left]).
  destruct (record_spec s0 x t Hu H0 Hd) as (R1 & R2 & R3).
  assert (∃ t1, drop_step values t (x, v) = t1 ∧ owns (tx_state t1) ∧ undoable s0 t1
    ∧ ∀ k, managedValues (tx_state t1) !! k = if decide (k = x ∧ values !! k = None) then None else managedValues (tx_state t) !! k)
    as (t1 & -> & O1 & U1 & M1).
  { unfold drop_step. cbn [fst]. destruct (values !! x) as [w|] eqn:E.
    - exists t. split_and!; [done|done|done|]. intros k. rewrite decide_False; [done|]. intros [-> ?]. congruence.
    - eexists. split; [reflexivity|]. rewrite R1. cbn [tx_state managedValues]. split_and!.
      + by apply owns_delete.
      + apply (undoable_step _ _ x); [done|done|]. intros y Hy. rewrite R1. by apply lookup_delete_ne.
      + intros k. case_decide as Hc; [destruct Hc as [-> _]; apply lookup_delete_eq|].
        apply lookup_delete_ne. intros ->. by apply Hc. }
  destruct (IH t1 O1 U1) as (I1 & I2 & I3); [intros kv Hkv; apply Hk; by right|]. split_and!; [done|done|].
  intros k. rewrite I3, M1, fmap_cons. cbn [fst]. destruct (decide (k ∈ kvs.*1 ∧ values !! k = None)) as [[A B]|A].
  - rewrite decide_True; [done|]. split; [by right|done].
  - case_decide as B; [rewrite decide_True; [done|]; destruct B as [-> B]; split; [by left|done]|].
    rewrite decide_False; [done|]. intros [[->|C]%elem_of_cons D]; [by apply B|by apply A].
Qed.

Lemma set_all s0 kvs t : owns s0 → owns (tx_state t) → undoable s0 t → NoDup kvs.*1 →
  (∀ kv, kv ∈ kvs → settable kv.1 kv.2) →
  ∃ t', set_steps kvs t = (t', true) ∧ owns (tx_state t') ∧ undoable s0 t'
    ∧ managedValues (tx_state t') = (list_to_map kvs ∖ dep) ∪ managedValues (tx_state t).
Proof.
  intros H0. revert t. induction kvs as [|[x v] kvs IH]; intros t Ho Hu Hnd Hs.
  { exists t. split_and!; [done|done|done|]. cbn [list_to_map foldr]. apply map_eq. intros k.
    rewrite lookup_union, lookup_difference, lookup_empty. by destruct (dep !! k), (managedValues (tx_state t) !! k). }
  inversion_clear Hnd as [|? ? Hx Hnd']. assert (settable x v) as Hxv by (apply (Hs (x, v)); by left).
  rewrite list_to_map_cons. cbn [set_steps]. rewrite (owns_lookup _ x Ho).
  destruct (dep !! x) as [d|] eqn:Hd.
  - assert (managedValues (tx_state t) !! x = None) as Hm by (by eapply map_disjoint_Some_l; [apply ow_disj|]).
    rewrite Hm. destruct (IH t Ho Hu Hnd') as (t' & I1 & I2 & I3 & I4); [intros kv Hkv; apply Hs; by right|].
    exists t'. split_and!; [done|done|done|]. rewrite I4. f_equal. symmetry. apply map_eq. intros k.
    rewrite !lookup_difference. destruct (dep !! k) eqn:Hk; [done|]. apply lookup_insert_ne. congruence.
  - destruct (record_spec s0 x t Hu H0 Hd) as (R1 & R2 & R3). rewrite (setenv_settable x v) by done.
    set (t1 := mkTxn _ _).
    destruct (IH t1) as (t' & I1 & I2 & I3 & I4).
    + by apply owns_insert.
    + apply (undoable_step _ _ x); [done|done|]. intros y Hy. rewrite R1. by apply lookup_insert_ne.
    + done.
    + intros kv Hkv. apply Hs. by right.
    + exists t'. split_and!; [|done|done|].
      { by destruct (managedValues (tx_state t) !! x). }
      rewrite I4. cbn [t1 tx_state managedValues]. apply map_eq. intros k. rewrite !lookup_union, !lookup_difference.
      destruct (decide (k = x)) as [->|Hne].
      * rewrite Hd, !lookup_insert_eq, (not_elem_of_list_to_map_1 kvs x) by done. by destruct (managedValues (tx_state t) !! x).
      * by rewrite !lookup_insert_ne.
Qed.

(** ** Whole operations *)

(** The state in which the loader owns the variables [m]. *)
Definition state_of (m : variables) : State := mkState (dep ∪ m) m.

Definition allowed (m : variables) : Prop := dep ##ₘ m ∧ map_Forall settable m.

Lemma owns_state_of s : owns s → s = state_of (managedValues s) ∧ allowed (managedValues s).
Proof. intros [He Hd Hs]. destruct s as [env m]. cbn in *. unfold state_of. by rewrite <- He. Qed.

Lemma state_of_owns m : allowed m → owns (state_of m).
Proof. intros [Hd Hs]. by split. Qed.

(** What the loader owns after a file with [values]. *)
Definition loaded (reload : bool) (values m : variables) : variables :=
  (values ∖ dep) ∪ (if reload then ∅ else m).

Lemma loaded_allowed reload values m : allowed m → map_Forall settable values → allowed (loaded reload values m).
Proof.
  intros [Hd Hs] Hv. split; [apply map_disjoint_union_r; split|apply map_Forall_union_2].
  - by apply map_disjoint_difference_r1.
  - destruct reload; [apply map_disjoint_empty_r|done].
  - intros k v Hk. apply lookup_difference_Some in Hk as [Hk _]. by apply (Hv k).
  - destruct reload; [apply map_Forall_empty|done].
Qed.

Lemma loadFile_spec {M} (json : str → option str) (file : option opened) (reload : bool) (validate : variables → M → M * option str) s (m : M) : owns s →
  match readValues json file with
  | inl e => loadFile json file reload validate s m = (s, m, Some e)
  | inr values =>
      let s' := state_of (loaded reload values (managedValues s)) in
      loadFile json file reload validate s m
      = match validate (os_env s') m with (m, Some _) => (s, m, Some (lit "validation failed")) | (m, None) => (s', m, None) end
  end.
Proof.
  intros Ho. unfold loadFile. destruct (readValues json file) as [e|values] eqn:Hv; [done|]. cbv zeta.
  assert (undoable s (mkTxn s ∅)) as Hu0 by (intros k; cbn [previousEnv tx_state]; by rewrite lookup_empty).
  set (t0 := if reload then _ else _).
  assert (owns (tx_state t0) ∧ undoable s t0
    ∧ ∀ k, values !! k = None → managedValues (tx_state t0) !! k = (if reload then (∅ : variables) else managedValues s) !! k)
    as (O0 & U0 & M0).
  { unfold t0. destruct reload; [|by split_and!].
    destruct (drop_all values s (range (managedValues s)) (mkTxn s ∅)) as (D1 & D2 & D3); [done|done|done| |].
    { intros [k v] Hk. by apply elem_of_range in Hk. }
    split_and!; [done|done|]. intros k Hk. rewrite D3, lookup_empty. cbn [tx_state].
    destruct (managedValues s !! k) as [v|] eqn:E; [|by case_decide]. rewrite decide_True; [done|]. split; [|done].
    apply list_elem_of_fmap. exists (k, v). split; [done|]. by apply elem_of_range. }
  destruct (set_all s (range values) t0) as (t' & S1 & S2 & S3 & S4); [done|done|done|apply NoDup_range| |].
  { intros [k v] Hk. apply elem_of_range in Hk. cbn [fst snd]. revert Hk. by apply (readValues_settable _ _ _ Hv). }
  rewrite S1. cbn [negb].
  assert (tx_state t' = state_of (loaded reload values (managedValues s))) as ->; [|by rewrite rollback_exact].
  rewrite (proj1 (owns_state_of _ S2)). f_equal. rewrite S4, list_to_map_range. unfold loaded. apply map_eq. intros k.
  rewrite !lookup_union, !lookup_difference. destruct (dep !! k) as [d|] eqn:Hd.
  - assert (∀ s, owns s → managedValues s !! k = None) as Hn by (intros s1 O1; by eapply map_disjoint_Some_l; [apply ow_disj|]).
    rewrite (Hn _ O0). destruct reload; [done|by rewrite (Hn _ Ho)].
  - destruct (values !! k) as [v|] eqn:E; [|by rewrite M0].
    by destruct (managedValues (tx_state t0) !! k), ((if reload then ∅ else managedValues s) !! k).
Qed.

Lemma setenv_all_spec kvs env : NoDup kvs.*1 → (∀ kv, kv ∈ kvs → settable kv.1 kv.2) →
  setenv_all kvs env = (list_to_map kvs ∪ env, true).
Proof.
  revert env. induction kvs as [|[k v] kvs IH]; intros env Hnd Hs; [cbn; by rewrite map_empty_union|].
  inversion_clear Hnd as [|? ? Hk Hnd']. cbn [setenv_all]. rewrite setenv_settable by (apply (Hs (k, v)); by left).
  rewrite IH by (done || intros kv Hkv; apply Hs; by right). f_equal. rewrite list_to_map_cons.
  rewrite <- insert_union_l. symmetry. apply insert_union_r. by apply not_elem_of_list_to_map_1.
Qed.

Lemma restore_spec snapshot s : owns s → allowed snapshot →
  RestoreManagedEnvironment snapshot s = (state_of snapshot, None).
Proof.
  intros Ho [Hd Hs]. unfold RestoreManagedEnvironment.
  rewrite setenv_all_spec; [|apply NoDup_range|intros [k v] Hk; by apply elem_of_range, Hs in Hk].
  rewrite list_to_map_range. unfold state_of. f_equal. f_equal. apply map_eq. intros k. rewrite !lookup_union.
  assert (∀ kvs env, foldl (λ env (kv : str * str), match snapshot !! kv.1 with Some _ => env | None => unsetenv kv.1 env end) env kvs !! k
    = if decide (k ∈ kvs.*1 ∧ snapshot !! k = None) then None else env !! k) as ->.
  { induction kvs as [|[x v] kvs IH]; intros env; [cbn; by rewrite decide_False by (intros [[]%not_elem_of_nil _])|].
    cbn [foldl]. rewrite IH, fmap_cons. cbn [fst]. case_decide as A; [rewrite decide_True; [done|]; destruct A; split; [by right|done]|].
    case_decide as B.
    - destruct B as [[->|B]%elem_of_cons C]; [|by exfalso; apply A]. rewrite C. apply lookup_delete_eq.
    - destruct (snapshot !! x) eqn:E; [done|]. apply lookup_delete_ne. intros ->. apply B. split; [by left|done]. }
  rewrite (owns_lookup _ k Ho). destruct (snapshot !! k) as [v|] eqn:E.
  - rewrite decide_False by (intros [_ ?]; done).
    assert (dep !! k = None) as -> by (by eapply map_disjoint_Some_r). by destruct (managedValues s !! k).
  - destruct (dep !! k) as [d|] eqn:Hdk.
    + rewrite decide_False; [done|]. intros [[[x v] [-> Hx]]%list_elem_of_fmap _]. apply elem_of_range in Hx.
      cbn [fst] in Hdk. rewrite (owns_managed _ _ _ Ho Hx) in Hdk. done.
    + case_decide as A; [done|]. destruct (managedValues s !! k) as [v|] eqn:Em; [|done]. exfalso. apply A. split; [|done].
      apply list_elem_of_fmap. exists (k, v). split; [done|]. by apply elem_of_range.
Qed.

(** ** Every history of the loader *)

Inductive op :=
  | OpLoad (fs : str → node) (explicit : str) (candidates : list str)
  | OpReload (fs : str → node) (path : str)
  | OpReloadValidated (fs : str → node) (path : str) (accepts : variables → bool)
  | OpSnapshot
  | OpRestore (i : nat).

Context (json : str → option str).

Definition verdict (accepts : variables → bool) (env : variables) (m : unit) : unit * option str :=
  (m, if accepts env then None else Some (lit "rejected")).

Definition act (st : State * list variables) (o : op) : State * list variables :=
  let '(s, saved) := st in
  match o with
  | OpLoad fs explicit candidates => (fst (Load json fs explicit candidates s), saved)
  | OpReload fs path => (fst (Reload json fs path s), saved)
  | OpReloadValidated fs path accepts => (fst (fst (ReloadValidated json fs path (verdict accepts) s tt)), saved)
  | OpSnapshot => (s, saved ++ [SnapshotManagedEnvironment s])
  | OpRestore i =>
      match saved !! i with Some snapshot => (fst (RestoreManagedEnvironment snapshot s), saved) | None => (s, saved) end
  end.

(** The specification keeps one map: the variables that come from the file. *)
Fixpoint first_file (fs : str → node) (candidates : list str) : option opened :=
  match candidates with
  | [] => None
  | c :: candidates =>
      if trim_space c =?s [] then first_file fs candidates
      else match fs (trim_space c) with
      | Missing => first_file fs candidates
      | Unreachable => None
      | Node f => if of_regular f then Some f else None
      end
  end.

Definition spec_load (reload : bool) (accepts : variables → bool) (file : option opened) (m : variables) : variables :=
  match readValues json file with
  | inl _ => m
  | inr values => let m' := loaded reload values m in if accepts (dep ∪ m') then m' else m
  end.

Definition spec_act (st : variables * list variables) (o : op) : variables * list variables :=
  let '(m, saved) := st in
  match o with
  | OpLoad fs explicit candidates =>
      (spec_load false (λ _, true)
         (if trim_space explicit =?s [] then first_file fs candidates else open_node (fs (trim_space explicit))) m, saved)
  | OpReload fs path =>
      (if trim_space path =?s [] then m else spec_load true (λ _, true) (open_node (fs path)) m, saved)
  | OpReloadValidated fs path accepts =>
      (if trim_space path =?s [] then m else spec_load true accepts (open_node (fs path)) m, saved)
  | OpSnapshot => (m, saved ++ [m])
  | OpRestore i => (default m (saved !! i), saved)
  end.

Lemma spec_load_allowed reload accepts file m : allowed m → allowed (spec_load reload accepts file m).
Proof.
  intros Ha. unfold spec_load. destruct (readValues json file) eqn:E; [done|]. case_match; [|done].
  apply loaded_allowed; [done|]. by eapply readValues_settable.
Qed.

Lemma load_plain_spec file reload m : allowed m →
  fst (load_plain json file reload (state_of m)) = state_of (spec_load reload (λ _, true) file m).
Proof.
  intros Ha. unfold load_plain, spec_load.
  pose proof (loadFile_spec json file reload no_validation (state_of m) tt (state_of_owns _ Ha)) as H.
  destruct (readValues json file); cbv zeta in H; by rewrite H.
Qed.

Lemma load_candidates_spec fs candidates m : allowed m →
  fst (load_candidates json fs candidates (state_of m)) = state_of (spec_load false (λ _, true) (first_file fs candidates) m).
Proof.
  intros Ha. induction candidates as [|c candidates IH]; [done|]. cbn [load_candidates first_file].
  destruct (trim_space c =?s []); [done|]. destruct (fs (trim_space c)) as [| |f]; [done|done|].
  destruct (of_regular f); [|done]. rewrite <- (load_plain_spec _ _ _ Ha). cbn [negb]. by destruct (load_plain _ _ _ _) as [s [e|]].
Qed.

Lemma act_refines m saved o : allowed m → Forall allowed saved →
  let '(m', saved') := spec_act (m, saved) o in
  act (state_of m, saved) o = (state_of m', saved') ∧ allowed m' ∧ Forall allowed saved'.
Proof.
  intros Ha Hs. destruct o as [fs explicit cs|fs path|fs path accepts| |i]; cbn [act spec_act].
  - split_and!; [|by apply spec_load_allowed|done]. f_equal. unfold Load. destruct (trim_space explicit =?s []); cbn [negb].
    + by apply load_candidates_spec.
    + rewrite <- (load_plain_spec _ _ _ Ha). by destruct (load_plain _ _ _ _) as [s [e|]].
  - unfold Reload. destruct (trim_space path =?s []); [done|]. split_and!; [|by apply spec_load_allowed|done].
    f_equal. by apply load_plain_spec.
  - unfold ReloadValidated. destruct (trim_space path =?s []); [done|]. split_and!; [|by apply spec_load_allowed|done].
    f_equal. unfold spec_load.
    pose proof (loadFile_spec json (open_node (fs path)) true (verdict accepts) (state_of m) tt (state_of_owns _ Ha)) as H.
    destruct (readValues json (open_node (fs path))); cbv zeta in H; rewrite H; [done|]. unfold verdict.
    cbn [managedValues state_of os_env]. by destruct (accepts _).
  - split_and!; [done|done|]. apply Forall_app. split; [done|]. constructor; [done|constructor].
  - destruct (saved !! i) as [snapshot|] eqn:E; cbn [from_option]; [|by split_and!]. pose proof (Forall_lookup_1 _ _ _ _ Hs E) as Hsn.
    split_and!; [|done|done]. by rewrite (restore_spec _ _ (state_of_owns _ Ha) Hsn).
Qed.

(** C36: The loader refines its specification, in every history of loads, reloads,
    rejected reloads, snapshots and restorations, whatever the order in which
    maps are visited: the environment is always that of the deployment with,
    for the names the deployment does not set, the variables of the file: of the
    last one that was accepted by a reload or restored, joined by those of the
    loads since.  A variable of the deployment keeps its value. *)
Theorem envfile_refines ops :
  let '(s, saved) := foldl act (mkState dep ∅, []) ops in
  let '(m, saved') := foldl spec_act (∅, []) ops in
  os_env s = dep ∪ m ∧ managedValues s = m ∧ saved = saved' ∧ ∀ k v, dep !! k = Some v → os_env s !! k = Some v.
Proof.
  assert (mkState dep ∅ = state_of ∅) as -> by (unfold state_of; by rewrite map_union_empty).
  assert (allowed ∅) as H0 by (split; [apply map_disjoint_empty_r|apply map_Forall_empty]).
  assert (Forall allowed []) as H1 by apply Forall_nil_2. revert H0 H1. generalize (∅ : variables) as m.
  generalize (@nil variables) as saved. induction ops as [|o ops IH]; intros saved m H0 H1; cbn [foldl].
  - split_and!; [done|done|done|]. intros k v Hk. by apply lookup_union_Some_l.
  - pose proof (act_refines m saved o H0 H1) as Ho. destruct (spec_act (m, saved) o) as [m' saved'].
    destruct Ho as (-> & I1 & I2). by apply IH.
Qed.

End facts.

(** ** Writing a file *)

Definition quotable (value : str) : Prop := ("'"%char ∉ value) ∧ (chr 10 ∉ value) ∧ nul ∉ value.

Definition render_line (kv : str * str) : str := kv.1 ++ "='" ++ kv.2 ++ "'".
Definition render (kvs : list (str * str)) : str := flat_map (λ kv, render_line kv ++ [chr 10]) kvs.

Definition printable (kv : str * str) : Prop := keyPattern kv.1 = true ∧ quotable kv.2.

Lemma word_byte_solid c : word_byte c = true → solid c = true ∧ c ≠ "="%char ∧ c ≠ chr 10 ∧ c ≠ "#"%char.
Proof.
  intros H. assert (forallb (λ n, negb (word_byte (ascii_of_nat n)) || forallb (λ b, b)
    [solid (ascii_of_nat n); negb (eqc (ascii_of_nat n) "="); negb (eqc (ascii_of_nat n) (chr 10)); negb (eqc (ascii_of_nat n) "#")])
    (seq 0 256) = true) as Hall by by vm_compute.
  rewrite forallb_forall in Hall. specialize (Hall (nat_of_ascii c)).
  rewrite ascii_nat_embedding, H in Hall. cbn [negb orb forallb] in Hall.
  rewrite !andb_true_iff, !negb_true_iff, !eqc_false in Hall.
  destruct Hall as (? & ? & ? & ? & _); [|done]. apply in_seq. pose proof (nat_ascii_bounded c). lia.
Qed.

Lemma key_words key : keyPattern key = true → key ≠ [] ∧ ∀ c, c ∈ key → word_byte c = true.
Proof.
  destruct key as [|d key]; [done|]. intros [_ H]%andb_true_iff. split; [done|]. intros c Hc.
  rewrite forallb_forall in H. by apply H, list_elem_of_In.
Qed.

Lemma parse_rendered json kv : printable kv → parseLine json (render_line kv) = inr (Some kv).
Proof.
  destruct kv as [key value]. intros [Hk (Hq & _ & Hn)]. cbn [fst snd] in *. destruct (key_words key Hk) as [Hne Hw].
  unfold render_line. cbn [fst snd]. set (line := key ++ _).
  assert (head line = head key) as Hh by (unfold line; by destruct key).
  assert (∀ c, head line = Some c → word_byte c = true) as Hhead.
  { intros c Hc. apply Hw, head_Some_elem_of. by rewrite <- Hh. }
  assert (last line = Some "'"%char) as Hl by (unfold line; rewrite (assoc_L (++) "='"), (assoc_L (++) key); apply last_snoc).
  unfold parseLine. rewrite (trim_space_ends line); cycle 1.
  { intros c Hc. by apply word_byte_solid, Hhead. }
  { rewrite Hl. intros c [= <-]. done. }
  assert (∃ c l, line = c :: l ∧ word_byte c = true) as (c & l & El & Hc).
  { destruct line as [|c l]; [done|]. exists c, l. split; [done|]. by apply Hhead. }
  assert ((line =?s []) = false) as -> by by rewrite El.
  assert (has_prefix line "#" = false) as ->.
  { apply (has_prefix_head line _ c); [by rewrite El| |done]. cbn. intros [= <-]. by apply word_byte_solid in Hc as (_ & _ & _ & ?). }
  cbn [orb].
  assert (has_prefix line "export " = false) as ->.
  { apply not_true_iff_false. intros (t & Ht & _)%has_prefix_inv. unfold line in Ht.
    assert (word_byte " " = true) as Hsp; [|done]. revert Ht. clear - Hw. intros Ht.
    do 6 (destruct key as [|? key]; [discriminate|]; injection Ht as -> Ht).
    destruct key as [|? key]; [discriminate|]. injection Ht as -> Ht. apply Hw. set_solver. }
  assert (index_byte line "=" = Some (length key)) as ->.
  { unfold line. apply (index_byte_app key ("'" ++ value ++ "'") "="). intros Hin. by apply Hw, word_byte_solid in Hin as (_ & ? & _). }
  assert (take (length key) line = key) as -> by (unfold line; apply take_app_length).
  rewrite (trim_space_ends key); [|intros; by apply word_byte_solid, Hw, head_Some_elem_of|intros; by apply word_byte_solid, Hw, last_Some_elem_of].
  rewrite Hk. cbn [negb].
  assert (drop (S (length key)) line = "'" ++ value ++ "'") as ->.
  { unfold line. change (key ++ "='" ++ value ++ "'") with (key ++ ["="%char] ++ "'" ++ value ++ "'"). rewrite (assoc_L (++)).
    replace (S (length key)) with (length (key ++ ["="%char])) by (rewrite length_app; simpl; lia). apply drop_app_length. }
  rewrite trim_space_ends; [|by intros c0 [= <-]|]; cycle 1.
  { intros c0. change ("'" ++ value ++ "'") with (("'" :: value)%char ++ ["'"%char]). rewrite last_snoc. by intros [= <-]. }
  change ("'" ++ value ++ "'") with ("'"%char :: value ++ ["'"%char]). cbn [parseValue]. change ("'" =?c "'")%char with true. cbn iota.
  rewrite (index_byte_app value [] "'") by done.
  replace (drop (S (length value)) (value ++ ["'"%char])) with (@nil ascii); cycle 1.
  { symmetry. apply drop_ge. rewrite length_app. simpl. lia. }
  change (validateTrailing []) with true. cbn iota. rewrite take_app_length.
  assert (mem_byte nul value = false) as ->; [|done]. apply not_true_iff_false. by rewrite mem_byte_true.
Qed.

Lemma render_line_bytes kv c : printable kv → c ∈ render_line kv →
  word_byte c = true ∨ c ∈ kv.2 ∨ c = "="%char ∨ c = "'"%char.
Proof.
  intros [Hk _]. destruct (key_words _ Hk) as [_ Hw]. unfold render_line. rewrite !elem_of_app.
  change (lit "='") with ["="%char; "'"%char]. change (lit "'") with ["'"%char]. rewrite !elem_of_cons.
  pose proof (not_elem_of_nil c). naive_solver.
Qed.

Lemma scan_rendered kvs : Forall printable kvs → scan_lines (render kvs) = render_line <$> kvs.
Proof.
  intros Hp. unfold scan_lines.
  assert (split (render kvs) (chr 10) = (render_line <$> kvs) ++ [[]]) as ->.
  { induction Hp as [|kv kvs Hkv _ IH]; [done|]. unfold render. cbn [flat_map]. fold (render kvs). rewrite <- (assoc_L (++)).
    cbn [app]. rewrite split_app; [by rewrite IH|]. intros Hin. destruct (render_line_bytes _ _ Hkv Hin) as [H|[H|[H|H]]]; try done.
    by destruct Hkv as [_ (_ & ? & _)]. }
  rewrite last_snoc, removelast_last. rewrite <- list_fmap_compose. apply list_fmap_ext. intros i kv _. unfold drop_cr, compose.
  apply trim_suffix_no, not_true_iff_false. intros (t & Ht & _)%has_suffix_inv. apply (f_equal last) in Ht.
  rewrite last_snoc in Ht. unfold render_line in Ht. rewrite (assoc_L (++) "='"), (assoc_L (++) kv.1) in Ht.
  change (lit "'") with ["'"%char] in Ht. by rewrite last_snoc in Ht.
Qed.

Lemma read_rendered json n kvs m : Forall printable kvs →
  read_lines json n (render_line <$> kvs) m = inr (foldl (λ m kv, <[kv.1 := kv.2]> m) m kvs).
Proof.
  intros Hp. revert n m. induction Hp as [|kv kvs Hkv _ IH]; intros n m; [done|]. rewrite fmap_cons. cbn [read_lines foldl].
  assert (trim_prefix (render_line kv) [chr 239; chr 187; chr 191] = render_line kv) as E.
  { destruct kv as [key value]. destruct (key_words _ (proj1 Hkv)) as [Hne Hw]. destruct key as [|c key]; [done|].
    apply trim_prefix_no, (has_prefix_head _ _ c); [done| |done]. cbn. intros [= <-].
    by specialize (Hw (chr 239) ltac:(by left)). }
  assert ((if n =? 1 then trim_prefix (render_line kv) [chr 239; chr 187; chr 191] else render_line kv) = render_line kv) as ->
    by (destruct (n =? 1); [exact E|done]).
  rewrite parse_rendered by done. destruct kv as [k v]. apply IH.
Qed.

(** A dotenv file that gives every value in single quotes is read back exactly,
    the last line of a name deciding: no value is trimmed, unescaped, cut at a
    comment or taken for another line. *)
Theorem dotenv_roundtrip json kvs : Forall printable kvs →
  valid_utf8 (render kvs) = true → len (render kvs) <= maxFileBytes →
  readValues json (Some (mkOpened true (len (render kvs)) (render kvs))) = inr (foldl (λ m kv, <[kv.1 := kv.2]> m) ∅ kvs).
Proof.
  intros Hp Hu Hl. unfold readValues. cbn [of_regular negb]. rewrite read_limited_ok by done. cbn [of_data].
  rewrite Hu. cbn [negb]. rewrite scan_rendered by done. by apply read_rendered.
Qed.

Definition sample_vars : list (str * str) :=
  [(lit "EDGEPROXY_CONFIG", lit "/etc/edge proxy/#1.json"); (lit "TOKEN", lit "a=b \n"); (lit "TOKEN", lit "c")].

Lemma dotenv_roundtrip_witness :
  readValues (λ _, None) (Some (mkOpened true (len (render sample_vars)) (render sample_vars)))
  = inr (<[lit "TOKEN" := lit "c"]> {[ lit "EDGEPROXY_CONFIG" := lit "/etc/edge proxy/#1.json" ]}).
Proof.
  rewrite (dotenv_roundtrip (λ _, None) sample_vars).
  - vm_compute. reflexivity.
  - unfold printable, quotable. repeat constructor; cbn [fst snd]; try (by vm_compute); rewrite <- mem_byte_true; by vm_compute.
  - by vm_compute.
  - by vm_compute.
Defined.

End EnvFacts.
