(* ===== verification/SecPaths.v ===== *)
(** * Files that must not overlap: validatePersistentPathIsolation of apps/securityedge/securityedge.go

    The program writes its security log, its telemetry history and its
    configuration; none of these may be the same file as another or as anything
    else it depends on.  What the directory tree answers is in [tree]; paths are
    those of Unix, but for the letter case on Windows. *)

From S2P Require Import Prelude GoStr GoPath GoText GoHttp GoFloat NetIP Config ConfigValidate ConfigEnv ConfigPersist RateLimit SecPolicy Waf SecConfig.

Module SecPaths.
Import Persistence SecConfig.

(** ** Results: a value, an error message, or a panic *)

Inductive failure := Panics | Error (message : str).

Definition result (A : Type) : Type := failure + A.
#[export] Instance result_ret : MRet result := λ A a, inr a.
#[export] Instance result_bind : MBind result := λ A B f m, match m with inl e => inl e | inr a => f a end.

Definition guard_error (b : bool) (message : str) : result () := if b then inl (Error message) else inr ().

(** A loop that stops at the first error. *)
Definition each {A} (f : A → result ()) (l : list A) : result () := foldr (λ a r, _ ← f a; r) (inr ()) l.

(** ** The directory tree *)

(** What a call that may find nothing returns. *)
Inductive lookup (A : Type) := Gone | Broken | There (a : A).
#[global] Arguments Gone {A}.
#[global] Arguments Broken {A}.
#[global] Arguments There {A} _.

Record tree := mkTree {
  tree_abs : str → option str;            (* filepath.Abs of a cleaned path *)
  tree_links : str → lookup str;          (* filepath.EvalSymlinks *)
  tree_stat : str → lookup Z;             (* os.Stat; os.SameFile compares the identities *)
  tree_dir : str → lookup (list str) }.   (* os.ReadDir *)

(** [filepath.Base] *)
Definition path_base (p : str) : str :=
  if p =?s [] then "."
  else let base := (dir_base (trim_right_bytes "/" p)).2 in if base =?s [] then "/" else base.

(** [filepath.Join] of any number of elements. *)
Definition path_join_all (l : list str) : str :=
  match filter (λ s : str, s ≠ []) l with [] => [] | l => path_clean (join "/" l) end.

(** [resolveEdgeConfigPath] *)
Definition resolveEdgeConfigPath (securityConfigPath edgeConfigPath : str) : str :=
  if has_prefix edgeConfigPath "/" then edgeConfigPath
  else path_clean (path_join_all [path_dir securityConfigPath; edgeConfigPath]).

Record managedPath := mkManaged { mp_field : str; mp_path : str }.

Definition staging_of (f : managedPath) : managedPath := mkManaged (mp_field f ++ " staging file") (mp_path f ++ ".bak").

Section isolation.
Context {U : Unicode} (t : tree) (windows : bool).

(** The loop over the parents of [abs]; [fuel] bounds their number. *)
Fixpoint nearest (fuel : nat) (abs current : str) (suffix : list str) : result str :=
  match fuel with
  | O => inr abs
  | S fuel =>
      let parent := path_dir current in
      if current =?s parent then inr abs
      else
        let suffix := path_base current :: suffix in
        match tree_links t parent with
        | There candidate => inr (path_join_all (candidate :: suffix))
        | Broken => inl (Error "evaluate symbolic links")
        | Gone => nearest fuel abs parent suffix
        end
  end.

Definition canonicalManagedPath (path : str) : result str :=
  match tree_abs t (path_clean path) with
  | None => inl (Error "absolute path")
  | Some abs =>
      resolved ← match tree_links t abs with
                 | There candidate => inr candidate
                 | Broken => inl (Error "evaluate symbolic links")
                 | Gone => nearest (S (length abs)) abs abs []
                 end;
      let resolved := path_clean resolved in
      mret (if windows then to_lower resolved else resolved)
  end.

Definition managedPathHasPrefix (path prefix : str) : result bool :=
  candidate ← canonicalManagedPath path;
  canonicalPrefix ← canonicalManagedPath prefix;
  mret (has_prefix candidate canonicalPrefix).

Definition managedPathsCollide (left right : str) : result bool :=
  leftPath ← canonicalManagedPath left;
  rightPath ← canonicalManagedPath right;
  if leftPath =?s rightPath then mret true
  else match tree_stat t leftPath, tree_stat t rightPath with
       | There a, There b => mret (a =? b)
       | Broken, _ | _, Broken => inl (Error "stat")
       | _, _ => mret false
       end.

Definition existingConfigBackupPaths (path : str) : result (list str) :=
  match tree_dir t (path_dir path) with
  | Gone => inr []
  | Broken => inl (Error "read directory")
  | There names =>
      inr ((λ name, path_join_all [path_dir path; name]) <$> filter (λ name, has_prefix name (path_base path ++ ".bak-") = true) names)
  end.

Definition overlap (a b : managedPath) : str := mp_field a ++ " must not overlap " ++ mp_field b.

(** [a] and [b] are different files. *)
Definition apart (a b : managedPath) : result () :=
  same ← managedPathsCollide (mp_path a) (mp_path b); guard_error same (overlap a b).

(** [a] is not named like a retained backup of [f]. *)
Definition no_backup (a f : managedPath) : result () :=
  inBackupNamespace ← managedPathHasPrefix (mp_path a) (mp_path f ++ ".bak-");
  guard_error inBackupNamespace (overlap a f ++ " retained-backup namespace").

Definition configFiles (configPath : str) (cfg : Config) : list managedPath :=
  [mkManaged "SecurityEdge configuration" configPath;
   mkManaged "EdgeProxy route configuration" (resolveEdgeConfigPath configPath (ep_path (edgeproxy cfg)))].

(** The environment files, with their fields numbered from the second one on. *)
Definition environment_files (protectedPaths : list str) : list managedPath :=
  filter (λ f, mp_path f ≠ [])
    (imap (λ i path, mkManaged (if Nat.eqb i 0 then "managed environment file" else "managed environment file " ++ itoa (Z.of_nat i + 1))
       (trim_space path)) protectedPaths).

Definition check_environment_file (files : list managedPath) (f : managedPath) : result () :=
  each (λ file, _ ← apart f file; _ ← apart f (staging_of file); no_backup f file) files.

Definition optional_file (field path : str) : list managedPath :=
  if trim_space path =?s [] then [] else [mkManaged field (trim_space path)].

Definition history_files (cfg : Config) : list managedPath :=
  let path := trim_space (th_file (a_history (admin cfg))) in
  if path =?s [] then []
  else [mkManaged "admin.telemetry_history.file_path" path;
        mkManaged "admin.telemetry_history staging/recovery file" (path ++ ".bak")].

Definition log_files (cfg : Config) : list managedPath :=
  let l := a_log (admin cfg) in
  let path := trim_space (ls_file l) in
  if path =?s [] then []
  else mkManaged "admin.log_store.file_path" path
       :: ((λ i, mkManaged ("admin.log_store rotation ." ++ itoa (Z.of_nat i)) (path ++ "." ++ itoa (Z.of_nat i)))
             <$> seq 1 (Z.to_nat (ls_backups l))).

Definition writers (cfg : Config) : list managedPath :=
  log_files cfg ++ (if th_enabled (a_history (admin cfg)) then history_files cfg else []).

Definition backups_of (f : managedPath) : result (list managedPath) :=
  backups ← existingConfigBackupPaths (mp_path f);
  mret (mkManaged (mp_field f ++ " retained backup") <$> backups).

(** The files that no writer may touch. *)
Definition protected (configPath : str) (cfg : Config) (environment backups : list managedPath) : list managedPath :=
  concat ((λ f, [f; staging_of f]) <$> configFiles configPath cfg) ++ environment ++ backups
  ++ optional_file "server.tls.cert_file" (tls_cert (s_tls (server cfg)))
  ++ optional_file "server.tls.key_file" (tls_key (s_tls (server cfg)))
  ++ (if th_enabled (a_history (admin cfg)) then [] else history_files cfg).

Definition check_writer (files targets : list managedPath) (w : managedPath) : result () :=
  _ ← each (no_backup w) files;
  each (λ target, if trim_space (mp_path target) =?s [] then inr () else apart w target) targets.

Fixpoint pairwise (ws : list managedPath) : result () :=
  match ws with
  | [] => inr ()
  | w :: ws => _ ← each (apart w) ws; pairwise ws
  end.

(** [make([]managedPath, 0, MaxBackups+3)]: a pair of strings takes 32 bytes, and
    no allocation exceeds the address space of 48 bits. *)
Definition make_writers (cfg : Config) : result () :=
  let capacity := wrap64 (ls_backups (a_log (admin cfg)) + 3) in
  if (capacity <? 0) || (2 ^ 48 <? 32 * capacity) then inl Panics else inr ().

Definition validatePersistentPathIsolation (configPath : str) (cfg : Config) (protectedPaths : list str) : result () :=
  let files := configFiles configPath cfg in
  let environment := environment_files protectedPaths in
  _ ← each (check_environment_file files) environment;
  backups ← mapM backups_of files;
  let targets := protected configPath cfg environment (concat backups) in
  _ ← make_writers cfg;
  _ ← each (check_writer files targets) (writers cfg);
  pairwise (writers cfg).

End isolation.
End SecPaths.
