(* ===== verification/SecPathsFacts.v ===== *)
(** * What the isolation of the persistent files is good for

    In a configuration that passes the check every file that the program writes
    is another object than every file that it depends on, links and all; and the
    security log writes none but those that were checked. *)

From S2P Require Import Prelude GoStr GoPath GoText GoHttp GoFloat NetIP Config ConfigValidate ConfigFacts ConfigEnv ConfigPersist RateLimit SecPolicy Waf SecConfig SecConfigFacts SecPersistFacts SecPaths Ring SecurityLog SecurityLogFile.

Module SecPathsFacts.
Import Persistence SecConfig SecPaths.

(** ** Loops *)

Lemma bind_ok {A B} (m : result A) (f : A → result B) b : m ≫= f = inr b ↔ ∃ a, m = inr a ∧ f a = inr b.
Proof. destruct m as [e|a]; cbn; [split; [done|by intros (a & ? & _)]|]. split; [eauto|by intros (? & [= <-] & ?)]. Qed.

Lemma each_ok {A} (f : A → result ()) l : each f l = inr () ↔ ∀ x, x ∈ l → f x = inr ().
Proof.
  induction l as [|x l IH]; cbn [each foldr]; [split; [by intros _ x ?%not_elem_of_nil|done]|].
  rewrite bind_ok. split.
  - intros ([] & Hx & Hl) y [->|Hy]%elem_of_cons; [done|by apply IH].
  - intros H. exists (). split; [apply H; by left|]. apply IH. intros y Hy. apply H. by right.
Qed.

Lemma guard_ok b e : guard_error b e = inr () ↔ b = false.
Proof. by destruct b. Qed.

(** ** The parents of a path *)

Definition weight (segs : list str) : nat := sum_list_with (λ s : str, S (length s)) segs.

Lemma weight_join segs : segs ≠ [] → S (length (join [slash] segs)) = weight segs.
Proof.
  induction segs as [|s [|s' segs] IH]; [done|intros _; cbn; lia|intros _].
  change (join [slash] (s :: s' :: segs)) with (s ++ [slash] ++ join [slash] (s' :: segs)). rewrite !length_app.
  change (weight (s :: s' :: segs)) with (S (length s) + weight (s' :: segs))%nat. rewrite <- IH by done. cbn [length]. lia.
Qed.

Lemma weight_cons s segs : weight (s :: segs) = (S (length s) + weight segs)%nat.
Proof. done. Qed.
Lemma weight_nil : weight [] = O.
Proof. done. Qed.
Lemma weight_app a b : weight (a ++ b) = (weight a + weight b)%nat.
Proof. unfold weight. by rewrite sum_list_with_app. Qed.
Lemma weight_reverse a : weight (reverse a) = weight a.
Proof. unfold weight. by rewrite sum_list_with_reverse. Qed.

Lemma clean_weight segs stack : (weight (foldl (clean_step true) stack segs) <= weight stack + sum_list_with (λ s : str, if s =?s [] then O else S (length s)) segs)%nat.
Proof.
  revert stack. induction segs as [|s segs IH]; intros stack; cbn [foldl sum_list_with]; [lia|].
  specialize (IH (clean_step true stack s)). enough (weight (clean_step true stack s) <= weight stack + if s =?s [] then O else S (length s))%nat by lia.
  unfold clean_step. destruct (s =?s []) eqn:E; cbn [orb]; [lia|]. destruct (s =?s "."); [lia|]. destruct (s =?s ".."); [|rewrite weight_cons; lia].
  destruct stack as [|top stack]; [rewrite weight_nil; lia|]. destruct (top =?s ".."); rewrite !weight_cons; lia.
Qed.

Lemma split_rooted p : ∃ segs, split (slash :: p) slash = [] :: segs ∧ weight segs = S (length p).
Proof.
  pose proof (split_app_sep [] p slash) as E. cbn [app] in E. change (split [] slash) with [@nil ascii] in E. exists (split p slash).
  split; [done|]. rewrite <- weight_join; [by rewrite join_split|]. by destruct p as [|c p]; [|cbn; destruct (c =?c slash); [|destruct (split p slash)]].
Qed.

(** The elements that count. *)
Definition solid_weight (segs : list str) : nat := sum_list_with (λ s : str, if s =?s [] then O else S (length s)) segs.

Lemma solid_weight_le segs : (solid_weight segs <= weight segs)%nat.
Proof.
  induction segs as [|s segs IH]; [done|]. rewrite weight_cons.
  change (solid_weight (s :: segs)) with ((if s =?s [] then O else S (length s)) + solid_weight segs)%nat. destruct (s =?s []); lia.
Qed.

Lemma render_length segs : (length (render segs) <= Nat.max 1 (weight segs))%nat.
Proof.
  unfold render. destruct segs as [|s l] eqn:E; [cbn; lia|]. rewrite <- E in *. pose proof (weight_join segs ltac:(by subst)). cbn [length]. lia.
Qed.

Lemma clean_length p : (length (path_clean (slash :: p)) <= S (length p))%nat.
Proof.
  rewrite path_clean_rooted. unfold clean_segs. destruct (split_rooted p) as (segs & -> & Hw). etransitivity; [apply render_length|].
  rewrite weight_reverse. cbn [foldl]. change (clean_step true [] []) with (@nil str).
  pose proof (clean_weight segs []) as H. fold (solid_weight segs) in H. pose proof (solid_weight_le segs). rewrite weight_nil in H. lia.
Qed.

(** A trailing slash is one byte that cleaning drops. *)
Lemma clean_length_slash p : (length (path_clean (slash :: p ++ [slash])) <= S (length p))%nat.
Proof.
  rewrite path_clean_rooted. unfold render, clean_segs. change (slash :: p ++ [slash]) with ((slash :: p) ++ slash :: []).
  rewrite split_app_sep, foldl_app. change (split [] slash) with [@nil ascii]. cbn [foldl]. unfold clean_step at 1. cbn.
  pose proof (clean_length p) as H. rewrite path_clean_rooted in H. unfold render, clean_segs in H. cbn [length] in H. exact H.
Qed.

Lemma last_index_spec s c i : last_index_byte s c = Some i → s !! i = Some c ∧ c ∉ drop (S i) s.
Proof.
  unfold last_index_byte. destruct (index_byte (reverse s) c) as [j|] eqn:E; [|done]. intros [= <-].
  apply index_byte_Some in E as [E Hn]. set (a := take j (reverse s)) in *. set (b := drop (S j) (reverse s)) in *.
  assert (j = length a) as Hj.
  { pose proof (length_take (reverse s) j : length a = _) as La. pose proof (length_drop (reverse s) (S j) : length b = _) as Lb.
    apply (f_equal length) in E. rewrite length_app in E. cbn [length] in E. lia. }
  clearbody a b.
  apply (f_equal reverse) in E. rewrite reverse_involutive, reverse_app, reverse_cons, <- (assoc_L (++)) in E. subst s.
  assert (length (reverse b ++ [c] ++ reverse a) - 1 - j = length (reverse b))%nat as ->.
  { rewrite !length_app, !length_reverse. cbn [length]. lia. }
  split; [by rewrite lookup_app_r, Nat.sub_diag by lia|].
  rewrite (assoc_L (++)), drop_app_length' by (rewrite length_app; cbn [length]; lia). by rewrite elem_of_reverse.
Qed.

Lemma rooted_index s : ∃ i, last_index_byte (slash :: s) slash = Some i.
Proof.
  unfold last_index_byte. destruct (index_byte (reverse (slash :: s)) slash) eqn:E; [by eexists|].
  apply index_byte_None in E. rewrite elem_of_reverse in E. destruct E. by left.
Qed.

(** The parent of an absolute path is shorter, unless it is the root. *)
Lemma path_dir_shorter s : path_dir (slash :: s) ≠ slash :: s →
  (length (path_dir (slash :: s)) < length (slash :: s))%nat ∧ ∃ s', path_dir (slash :: s) = slash :: s'.
Proof.
  unfold path_dir, dir_base. destruct (rooted_index s) as [i Ei].
  change (last_index_byte (slash :: s) "/") with (last_index_byte (slash :: s) slash). rewrite Ei. cbn [fst]. apply last_index_spec in Ei as [Hi _].
  pose proof (lookup_lt_Some _ _ _ Hi) as Hlt. destruct i as [|i].
  - cbn [take]. rewrite take_0. change (path_clean [slash]) with [slash]. intros Hne. split; [|by eexists].
    destruct s; [done|]. simpl. lia.
  - intros _. change (s !! i = Some slash) in Hi. change (take (S (S i)) (slash :: s)) with (slash :: take (S i) s).
    rewrite (take_S_r _ _ _ Hi). split; [|rewrite path_clean_rooted; by eexists].
    pose proof (clean_length_slash (take i s)) as H. rewrite length_take in H. cbn [length] in *. lia.
Qed.

Lemma path_dir_rooted s : ∃ s', path_dir (slash :: s) = slash :: s'.
Proof.
  destruct (decide (path_dir (slash :: s) = slash :: s)) as [->|Hne]; [by eexists|]. by apply path_dir_shorter.
Qed.

(** ** The security log changes only its own files *)

Definition own (path : str) (n : Z) (p : str) : Prop := p = path ∨ ∃ i, 1 <= i <= n ∧ p = Persist.backup path i.

Definition keeps (path : str) (n : Z) (d d' : Persist.disk) : Prop :=
  ∀ p, ¬ own path n p → Persist.files d' !! p = Persist.files d !! p.

#[export] Instance keeps_preorder path n : PreOrder (keeps path n).
Proof. split; [by intros d p|]. intros a b c H1 H2 p Hp. by rewrite H2, H1. Qed.

Section log.
Context {U : Unicode} {T : RFC3339} (marshal : SecurityLog.Entry → option str).
Context (path : str) (n : Z).
Import Persist.

Abbreviation kept d r := (keeps path n d r).

Lemma keeps_fault d : kept d (take_fault d).2.
Proof. intros p _. unfold take_fault. by destruct (faults d). Qed.

Lemma keeps_plain d : kept d (plain_call d).2.
Proof. pose proof (keeps_fault d) as H. unfold plain_call. by destruct (take_fault d) as [[] ?]. Qed.

Lemma keeps_set q content d : own path n q → kept d (set_file q content d).
Proof. intros Hq p Hp. cbn. apply lookup_insert_ne. by intros ->. Qed.

Lemma keeps_open q b d : own path n q → kept d (open_file q b d).2.
Proof.
  intros Hq. pose proof (keeps_fault d) as H. unfold open_file. destruct (take_fault d) as [[] d1]; [|done]. cbn [snd] in *.
  etransitivity; [exact H|by apply keeps_set].
Qed.

Lemma keeps_remove q d : own path n q → kept d (removeIfExists q d).2.
Proof.
  intros Hq. pose proof (keeps_fault d) as H. unfold removeIfExists. destruct (take_fault d) as [[] d1]; [|done]. cbn [snd] in *.
  etransitivity; [exact H|]. intros p Hp. cbn. apply lookup_delete_ne. by intros ->.
Qed.

Lemma keeps_rename src dst d : own path n src → own path n dst → kept d (replaceRename src dst d).2.
Proof.
  intros Hs Hd. pose proof (keeps_fault d) as H1. unfold replaceRename. destruct (take_fault d) as [[] d1]; [|done]. cbn [snd] in H1.
  destruct (files d1 !! src) as [content|]; [|done]. pose proof (keeps_remove dst d1 Hd) as H2.
  destruct (removeIfExists dst d1) as [[] d2]; cbn [snd] in H2; [|etransitivity; [exact H1|exact H2]].
  pose proof (keeps_fault d2) as H3. destruct (take_fault d2) as [[] d3]; cbn [snd] in *; (etransitivity; [exact H1|]; etransitivity; [exact H2|]); [|done].
  etransitivity; [exact H3|]. intros p Hp. cbn. rewrite lookup_insert_ne by (by intros ->). apply lookup_delete_ne. by intros ->.
Qed.

Lemma keeps_shift i d : Z.of_nat i < n → kept d (shift_backups path i d).2.
Proof.
  revert d. induction i as [|i IH]; intros d Hi; [done|]. cbn [shift_backups].
  pose proof (keeps_rename (backup path (Z.of_nat (S i))) (backup path (Z.of_nat (S i) + 1)) d) as H.
  destruct (replaceRename _ _ d) as [[] d1]; cbn [snd] in *; [etransitivity; [apply H|apply IH; lia]|apply H]; right; eexists; (split; [|done]); lia.
Qed.

(** The handle of the store is one of the log file. *)
Definition at_path (s : Store) : Prop :=
  filePath s = path ∧ maxBackups s = n ∧ match file s with Some f => fh_path f = path | None => True end.

Lemma own_path : own path n path.
Proof. by left. Qed.

Lemma keeps_rename_all s d : at_path s → kept d (rename_all s d).2.
Proof.
  unfold rename_all. intros (-> & -> & _). destruct (Z.ltb_spec 0 n) as [Hn|]; [|apply keeps_remove, own_path].
  assert (own path n (backup path n)) as Hon by (right; exists n; split; [lia|done]).
  assert (own path n (backup path 1)) as Ho1 by (right; exists 1; split; [lia|done]).
  pose proof (keeps_remove (backup path n) d Hon) as H1. destruct (removeIfExists _ d) as [[] d1]; [|done]. cbn [snd] in H1.
  pose proof (keeps_shift (Z.to_nat (n - 1)) d1 ltac:(lia)) as H2. destruct (shift_backups _ _ d1) as [[] d2]; cbn [snd] in H2;
    (etransitivity; [exact H1|]); [|done]. etransitivity; [exact H2|]. by apply keeps_rename; [apply own_path|].
Qed.

Lemma keeps_reopen s d : at_path s → at_path (reopenAppendLocked s d).1 ∧ kept d (reopenAppendLocked s d).2.
Proof.
  intros Hs. unfold reopenAppendLocked. pose proof Hs as (Hp & Hn & Hf). rewrite Hp. pose proof (keeps_open path true d own_path) as H.
  destruct (open_file path true d) as [[f|] d1] eqn:E; [|done]. cbn [snd] in H. pose proof (keeps_plain d1) as H2.
  destruct (plain_call d1) as [[] d2]; cbn [fst snd] in *; (split; [|etransitivity; [exact H|exact H2]]); [|done].
  split_and!; [by destruct Hs|done|]. cbn. unfold open_file in E. destruct (take_fault d) as [[] ?]; [|done]. by injection E as <- _.
Qed.

Lemma keeps_rotate s d : at_path s → at_path (rotateLocked s d).1.2 ∧ kept d (rotateLocked s d).2.
Proof.
  intros Hs. unfold rotateLocked. destruct (match file s with Some _ => plain_call d | None => (true, d) end) as [closed d0] eqn:E0.
  assert (kept d d0) as H0. { destruct (file s); [|by injection E0 as _ <-]. pose proof (keeps_plain d) as H. by rewrite E0 in H. }
  set (s1 := with_file None (fileBytes s) s). assert (at_path s1) as Hs1 by (by destruct Hs as (? & ? & ?)).
  destruct closed; [|by split]. cbn [negb]. pose proof (keeps_rename_all s1 d0 Hs1) as H1. destruct (rename_all s1 d0) as [[] d1]; cbn [snd] in H1; cycle 1.
  { pose proof (keeps_reopen s1 d1 Hs1) as [H2 H3]. destruct (reopenAppendLocked s1 d1) as [s2 d2]. cbn [fst snd] in *. split; [done|].
    etransitivity; [exact H0|]. by etransitivity. }
  destruct Hs1 as (Hp & Hn & Hf). rewrite Hp in *. pose proof (keeps_open path false d1 own_path) as H2.
  destruct (open_file path false d1) as [[f|] d2] eqn:E; cbn [snd] in H2; cycle 1.
  { pose proof (keeps_reopen s1 d2 (conj Hp (conj Hn Hf))) as [H3 H4]. destruct (reopenAppendLocked s1 d2) as [s3 d3]. cbn [fst snd] in *. split; [done|].
    etransitivity; [exact H0|]. etransitivity; [exact H1|]. by etransitivity. }
  cbn [fst snd]. split; [|etransitivity; [exact H0|]; by etransitivity]. split_and!; [done|done|]. cbn. unfold open_file in E.
  destruct (take_fault d1) as [[] ?]; [|done]. by injection E as <- _.
Qed.

Lemma keeps_record data s d : at_path s → at_path (write_record data s d).1 ∧ kept d (write_record data s d).2.
Proof.
  intros (Hp & Hn & Hf). unfold write_record. destruct (file s) as [f|] eqn:Ef; [|split; [split_and!; [done|done|by cbn; rewrite Ef]|done]].
  pose proof (keeps_fault d) as H. unfold write_file. destruct (take_fault d) as [o d1]. cbn [snd] in H.
  destruct o as [|k]; cbn [fst snd]; (split; [done|]); (etransitivity; [exact H|]); apply keeps_set; rewrite Hf; apply own_path.
Qed.

Lemma keeps_write e s d : at_path s → at_path (writeFileLocked marshal e s d).1 ∧ kept d (writeFileLocked marshal e s d).2.
Proof.
  intros Hs. unfold writeFileLocked. destruct (file s) eqn:Ef; [|done]. destruct (marshal e) as [data|]; [|done].
  destruct (_ <? _); [|by apply keeps_record]. pose proof (keeps_rotate s d Hs) as [H1 H2].
  destruct (rotateLocked s d) as [[[] s1] d1]; cbn [fst snd] in *; [|by split].
  pose proof (keeps_record (data ++ [newline]) s1 d1 H1) as [H3 H4]. split; [done|]. by etransitivity.
Qed.

(** Any number of records, at any times. *)
Definition append_all (entries : list (time * SecurityLog.Entry)) (s : Store) (d : disk) : Store * disk :=
  foldl (λ sd e, let '(_, s, d) := Append marshal e.1 e.2 sd.1 sd.2 in (s, d)) (s, d) entries.

Lemma keeps_append_all entries s d : at_path s → kept d (append_all entries s d).2.
Proof.
  unfold append_all. revert s d. induction entries as [|e entries IH]; intros s d Hs; [done|]. cbn [foldl fst snd]. unfold Append.
  set (s1 := with_ring _ s). set (e1 := SecurityLog.with_sequence _ _). assert (at_path s1) as Hs1 by (by destruct Hs as (? & ? & ?)).
  pose proof (keeps_write e1 s1 d Hs1) as [H1 H2]. destruct (writeFileLocked marshal e1 s1 d) as [s2 d2]. cbn [fst snd] in *.
  etransitivity; [exact H2|by apply IH].
Qed.

Lemma append_all_closed entries s d : file s = None → (append_all entries s d).2 = d.
Proof.
  unfold append_all. revert s d. induction entries as [|e entries IH]; intros s d Hs; [done|]. cbn [foldl fst snd]. unfold Append, writeFileLocked.
  set (s1 := with_ring _ s). assert (file s1 = None) as H by exact Hs. rewrite H. by apply IH.
Qed.

Context (unmarshal : str → option SecurityLog.Entry).

Lemma keeps_restore now paths st : kept st.2 (foldl (restore_file unmarshal now) st paths).2.
Proof.
  revert st. induction paths as [|p paths IH]; intros [r d]; [done|]. cbn [foldl snd]. etransitivity; [|apply IH].
  pose proof (keeps_fault d) as H. unfold restore_file. destruct (take_fault d) as [[] d1]; [|done]. cbn [snd] in H. by destruct (files d1 !! p).
Qed.

Lemma keeps_ensure s d : at_path s → at_path (ensureTrailingNewlineLocked s d).1 ∧ kept d (ensureTrailingNewlineLocked s d).2.
Proof.
  intros Hs. pose proof Hs as (Hp & Hn & Hf). unfold ensureTrailingNewlineLocked. destruct (file s) as [f|] eqn:Ef; [|done].
  destruct (_ =? 0); [done|]. pose proof (keeps_plain d) as H. assert (at_path (count_error s)) as Hc by (split_and!; [done|done|by cbn; rewrite Ef]).
  destruct (plain_call d) as [[] d1]; cbn [fst snd] in *; [|done]. destruct (last _) as [c|]; [|done]. destruct (c =?c newline); [done|].
  pose proof (keeps_fault d1) as H2. unfold write_file. destruct (take_fault d1) as [o d2]. cbn [snd] in H2.
  destruct o as [|k]; cbn [fst snd]; (split; [done|]); (etransitivity; [exact H|]); (etransitivity; [exact H2|]); apply keeps_set; rewrite Hf; apply own_path.
Qed.

(** Opening the log. *)
Lemma keeps_new now cfg d s d' : trim_space (c_path cfg) = path → c_backups cfg = n → path ≠ [] →
  NewWithConfig unmarshal now cfg d = (Some s, d') → at_path s ∧ kept d d'.
Proof.
  intros Hp Hn Hne. unfold NewWithConfig. rewrite Hp, Hn. set (s0 := mkStore _ None path 0 _ n 0). cbv zeta.
  change (filePath s0) with path. rewrite (proj2 (eqs_false _ _)) by done. set (s1 := if _ <=? 0 then _ else s0).
  assert (filePath s1 = path ∧ maxBackups s1 = n) as [H1 H2] by (subst s1; by destruct (maxFileBytes s0 <=? 0)).
  pose proof (keeps_plain d) as K0. destruct (plain_call d) as [[] d0]; [|done]. cbn [snd] in K0. unfold restorePersistentEntries.
  pose proof (keeps_restore now (restore_paths (filePath s1) (maxBackups s1) ++ [filePath s1]) (mkRestoring (ring s1) 0 (fileErrors s1), d0)) as K1.
  destruct (foldl _ _ _) as [r d1]. cbn [snd] in K1. set (s2 := mkStore _ (file s1) _ _ _ _ _).
  change (filePath s2) with (filePath s1). rewrite H1. pose proof (keeps_open path true d1 own_path) as K2.
  destruct (open_file path true d1) as [[f|] d2] eqn:Eo; [|done]. cbn [snd] in K2. pose proof (keeps_plain d2) as K3.
  destruct (plain_call d2) as [[] d3]; [|done]. cbn [snd] in K3. set (s3 := with_file (Some f) _ s2).
  assert (at_path s3) as H3.
  { split_and!; [done|done|]. cbn. unfold open_file in Eo. destruct (take_fault d1) as [[] ?]; [|done]. by injection Eo as <- _. }
  pose proof (keeps_ensure s3 d3 H3) as [H4 K4]. destruct (ensureTrailingNewlineLocked s3 d3) as [s4 d4]. intros [= <- <-]. split; [done|].
  do 4 (etransitivity; [eassumption|]). done.
Qed.

End log.

Section isolation.
Context {U : Unicode} (t : tree) (windows : bool).

(** The loop ends at the root: with one round for every byte of the path the
    fuel is never used up. *)
Lemma nearest_enough fuel more abs s suffix : (length (slash :: s) < fuel)%nat →
  nearest t (fuel + more) abs (slash :: s) suffix = nearest t fuel abs (slash :: s) suffix.
Proof.
  revert s suffix. induction fuel as [|fuel IH]; intros s suffix Hf; [lia|]. cbn [Nat.add nearest].
  destruct (slash :: s =?s path_dir (slash :: s)) eqn:E; [done|]. apply eqs_false in E.
  destruct (path_dir_shorter s) as [Hlen [s' Es]]; [congruence|]. rewrite Es in *.
  destruct (tree_links t (slash :: s')); [|done|done]. apply IH. lia.
Qed.

(** ** The check *)

Definition different (a b : managedPath) : Prop := managedPathsCollide t windows (mp_path a) (mp_path b) = inr false.

Lemma apart_ok a b : apart t windows a b = inr () ↔ different a b.
Proof.
  unfold apart, different. rewrite bind_ok. split.
  - by intros (same & -> & ->%guard_ok).
  - intros ->. exists false. done.
Qed.

(** What a path stands for: an object that is there, or a place where one could
    be made.  Links of either kind lead to the same object. *)
Inductive object := Inode (id : Z) | Place (path : str).

Definition object_of (path : str) : option object :=
  match canonicalManagedPath t windows path with
  | inl _ => None
  | inr c => match tree_stat t c with There id => Some (Inode id) | Gone => Some (Place c) | Broken => None end
  end.

Definition separate (a b : managedPath) : Prop := ∃ x y, object_of (mp_path a) = Some x ∧ object_of (mp_path b) = Some y ∧ x ≠ y.

Lemma different_separate a b : different a b → separate a b.
Proof.
  unfold different, separate, managedPathsCollide, object_of. destruct (canonicalManagedPath t windows (mp_path a)) as [e|p]; [done|].
  destruct (canonicalManagedPath t windows (mp_path b)) as [e|q]; [done|]. cbn [mbind result_bind].
  destruct (p =?s q) eqn:E; [done|]. apply eqs_false in E.
  destruct (tree_stat t p) as [| |x], (tree_stat t q) as [| |y]; try done; intros H; eexists _, _; (split; [done|]); (split; [done|]); try congruence.
  intros [= ->]. by rewrite Z.eqb_refl in H.
Qed.

(** [a] is not named like a retained backup of [f]. *)
Definition outside_backups (a f : managedPath) : Prop := ∃ c p,
  canonicalManagedPath t windows (mp_path a) = inr c ∧ canonicalManagedPath t windows (mp_path f ++ ".bak-") = inr p ∧ has_prefix c p = false.

Lemma no_backup_ok a f : no_backup t windows a f = inr () → outside_backups a f.
Proof.
  unfold no_backup, managedPathHasPrefix, outside_backups. destruct (canonicalManagedPath t windows (mp_path a)) as [e|c]; [done|].
  destruct (canonicalManagedPath t windows (mp_path f ++ ".bak-")) as [e|p]; [done|]. cbn [mbind result_bind mret result_ret].
  intros H%guard_ok. by exists c, p.
Qed.

Lemma pairwise_ok ws : pairwise t windows ws = inr () → ∀ i j a b, ws !! i = Some a → ws !! j = Some b → (i < j)%nat → different a b.
Proof.
  induction ws as [|w ws IH]; [by intros _ i j a b Hi|]. cbn [pairwise]. rewrite bind_ok. intros ([] & Hw & Hp) i j a b Hi Hj Hij.
  destruct j as [|j]; [lia|]. cbn in Hj. destruct i as [|i]; [|eapply IH; [done|exact Hi|exact Hj|lia]].
  injection Hi as <-. apply apart_ok. rewrite each_ok in Hw. apply Hw. by eapply list_elem_of_lookup_2.
Qed.

Lemma isolation_spec configPath cfg prot : validatePersistentPathIsolation t windows configPath cfg prot = inr () →
  (∀ e f, e ∈ environment_files prot → f ∈ configFiles configPath cfg → different e f ∧ different e (staging_of f) ∧ outside_backups e f)
  ∧ ∃ backups, mapM (backups_of t) (configFiles configPath cfg) = inr backups
  ∧ (∀ w f, w ∈ writers cfg → f ∈ protected configPath cfg (environment_files prot) (concat backups) → trim_space (mp_path f) ≠ [] → different w f)
  ∧ (∀ w f, w ∈ writers cfg → f ∈ configFiles configPath cfg → outside_backups w f)
  ∧ (∀ i j a b, writers cfg !! i = Some a → writers cfg !! j = Some b → (i < j)%nat → different a b).
Proof.
  unfold validatePersistentPathIsolation. rewrite !bind_ok. intros ([] & He & H). split.
  { intros e f Hin Hf. rewrite each_ok in He. specialize (He e Hin). unfold check_environment_file in He. rewrite each_ok in He. specialize (He f Hf).
    rewrite bind_ok in He. destruct He as ([] & H1 & He). rewrite bind_ok in He. destruct He as ([] & H2 & H3).
    split_and!; [by apply apart_ok..|by apply no_backup_ok]. }
  rewrite bind_ok in H. destruct H as (backups & Hb & H). rewrite !bind_ok in H. destruct H as ([] & _ & H). rewrite bind_ok in H.
  destruct H as ([] & Hw & Hp). exists backups. split; [done|].
  assert (∀ w, w ∈ writers cfg → each (no_backup t windows w) (configFiles configPath cfg) = inr ()
    ∧ each (λ target, if trim_space (mp_path target) =?s [] then inr () else apart t windows w target)
        (protected configPath cfg (environment_files prot) (concat backups)) = inr ()) as Hone.
  { intros w Hin. rewrite each_ok in Hw. specialize (Hw w Hin). unfold check_writer in Hw. rewrite bind_ok in Hw. by destruct Hw as ([] & ? & ?). }
  split_and!.
  - intros w f Hin Hf Hne. destruct (Hone w Hin) as [_ Ht]. rewrite each_ok in Ht. specialize (Ht f Hf).
    rewrite (proj2 (eqs_false _ _)) in Ht by done. by apply apart_ok.
  - intros w f Hin Hf. destruct (Hone w Hin) as [Hn _]. rewrite each_ok in Hn. by apply no_backup_ok, Hn.
  - by apply pairwise_ok.
Qed.

Lemma own_is_writer cfg p : trim_space (ls_file (a_log (admin cfg))) ≠ [] →
  own (trim_space (ls_file (a_log (admin cfg)))) (ls_backups (a_log (admin cfg))) p → ∃ w, w ∈ log_files cfg ∧ mp_path w = p.
Proof.
  intros Hne Ho. unfold log_files. rewrite (proj2 (eqs_false _ _)) by done. destruct Ho as [->|(i & Hi & ->)]; [eexists; split; [by left|done]|].
  eexists. split; [right; apply list_elem_of_fmap; exists (Z.to_nat i); split; [done|]; apply elem_of_seq; lia|].
  cbn [mp_path]. by rewrite Z2Nat.id by lia.
Qed.

Definition log_config (l : SecConfig.LogStoreConfig) : Persist.LogStoreConfig :=
  Persist.mkLogStore (ls_capacity l) (ls_default_page l) (ls_max_page l) (ls_file l) (ls_max_bytes l) (ls_backups l).

(** Whatever system calls fail, the names whose contents the security log changes
    are those of its file and of its rotations. *)
Lemma log_writes `{T : RFC3339} cfg marshal unmarshal now entries d s d' p :
  Persist.NewWithConfig unmarshal now (log_config (a_log (admin cfg))) d = (Some s, d') →
  Persist.files (append_all marshal entries s d').2 !! p ≠ Persist.files d !! p → ∃ w, w ∈ log_files cfg ∧ mp_path w = p.
Proof.
  intros Hnew Hp. set (path := trim_space (ls_file (a_log (admin cfg)))). destruct (decide (path = [])) as [E|Hpath].
  { exfalso. apply Hp. revert Hnew. unfold Persist.NewWithConfig. cbn [log_config Persist.c_path Persist.filePath]. fold path. rewrite E. cbn. intros [= <- <-].
    by rewrite append_all_closed. }
  destruct (keeps_new path (ls_backups (a_log (admin cfg))) unmarshal now (log_config (a_log (admin cfg))) d s d' eq_refl eq_refl Hpath Hnew) as [Hs K].
  assert (own path (ls_backups (a_log (admin cfg))) p ∨ ¬ own path (ls_backups (a_log (admin cfg))) p) as [Ho|Ho].
  { unfold own. destruct (decide (p = path)) as [|Hne]; [by left; left|].
    destruct (decide (Exists (λ i, p = Persist.backup path (Z.of_nat i)) (seq 1 (Z.to_nat (ls_backups (a_log (admin cfg))))))) as [Hx|Hx].
    - left. right. apply Exists_exists in Hx as (i & Hi%elem_of_seq & ->). exists (Z.of_nat i). split; [lia|done].
    - right. intros [|(i & Hi & ->)]; [done|]. apply Hx, Exists_exists. exists (Z.to_nat i). rewrite elem_of_seq, Z2Nat.id by lia. split; [lia|done]. }
  - by eapply own_is_writer.
  - exfalso. apply Hp. by rewrite (keeps_append_all marshal path _ entries s d' Hs), K.
Qed.


(** ** Panics *)

Definition calm {A} (m : result A) : Prop := m ≠ inl Panics.

Lemma quiet_bind {A B} (m : result A) (f : A → result B) : calm m → (∀ a, calm (f a)) → calm (m ≫= f).
Proof. destruct m; cbn; [by intros H _ [= ->]|by intros _ H; apply H]. Qed.
Lemma calm_each {A} (f : A → result ()) l : (∀ x, calm (f x)) → calm (each f l).
Proof. intros Hf. induction l as [|x l IH]; [done|]. cbn [each foldr]. apply quiet_bind; [done|by intros []]. Qed.
Lemma calm_guard b e : calm (guard_error b e).
Proof. by destruct b. Qed.
Lemma calm_nearest fuel abs current suffix : calm (nearest t fuel abs current suffix).
Proof.
  revert current suffix. induction fuel as [|fuel IH]; intros current suffix; [done|]. cbn [nearest]. destruct (_ =?s _); [done|].
  destruct (tree_links _ _); [apply IH|done|done].
Qed.
Lemma calm_canonical p : calm (canonicalManagedPath t windows p).
Proof.
  unfold canonicalManagedPath. destruct (tree_abs t _) as [abs|]; [|done]. apply quiet_bind; [|done].
  destruct (tree_links t abs); [apply calm_nearest|done|done].
Qed.
Lemma calm_collide a b : calm (managedPathsCollide t windows a b).
Proof.
  unfold managedPathsCollide. apply quiet_bind; [apply calm_canonical|]. intros p. apply quiet_bind; [apply calm_canonical|]. intros q.
  destruct (p =?s q); [done|]. by destruct (tree_stat t p), (tree_stat t q).
Qed.
Lemma calm_apart a b : calm (apart t windows a b).
Proof. apply quiet_bind; [apply calm_collide|intros; apply calm_guard]. Qed.
Lemma calm_no_backup a f : calm (no_backup t windows a f).
Proof.
  apply quiet_bind; [|intros; apply calm_guard]. unfold managedPathHasPrefix. apply quiet_bind; [apply calm_canonical|]. intros p.
  by apply quiet_bind; [apply calm_canonical|].
Qed.
Lemma calm_writer files targets w : calm (check_writer t windows files targets w).
Proof. apply quiet_bind; [apply calm_each, calm_no_backup|]. intros []. apply calm_each. intros x. destruct (_ =?s _); [done|apply calm_apart]. Qed.
Lemma calm_pairwise ws : calm (pairwise t windows ws).
Proof. induction ws as [|w ws IH]; [done|]. cbn [pairwise]. apply quiet_bind; [apply calm_each, calm_apart|by intros []]. Qed.

Lemma calm_tail files targets cfg :
  calm (_ ← each (check_writer t windows files targets) (writers cfg); pairwise t windows (writers cfg)).
Proof. apply quiet_bind; [apply calm_each, calm_writer|intros []; apply calm_pairwise]. Qed.

(** The check of a configuration either comes to a verdict or panics, and it
    panics exactly when three more than the number of retained log files is no
    possible length of a slice.  [Validate] bounds that number only when the
    security log is written to a file, so that without one it lets the panic
    happen. *)
Theorem isolation_panics configPath cfg prot backups :
  each (check_environment_file t windows (configFiles configPath cfg)) (environment_files prot) = inr () →
  mapM (backups_of t) (configFiles configPath cfg) = inr backups →
  (validatePersistentPathIsolation t windows configPath cfg prot = inl Panics
   ↔ wrap64 (ls_backups (a_log (admin cfg)) + 3) < 0 ∨ 2 ^ 48 < 32 * wrap64 (ls_backups (a_log (admin cfg)) + 3)).
Proof.
  intros He Hb. unfold validatePersistentPathIsolation. rewrite He. cbn [mbind result_bind]. rewrite Hb. cbn [mbind result_bind].
  unfold make_writers. cbv zeta. set (capacity := wrap64 _). rewrite <- !Z.ltb_lt, <- orb_true_iff.
  destruct (_ || _) eqn:E; [done|]. split; [|done]. intros H. by destruct (calm_tail _ _ _ H).
Qed.

End isolation.

(** ** A sample tree and configuration *)

(** Nothing is there yet; the program runs in /srv. *)
Definition empty_tree : tree :=
  mkTree (λ p, if has_prefix p "/" then Some p else Some (path_join "/srv" p)) (λ p, if p =?s "/" then There (lit "/") else Gone)
    (λ _, Gone) (λ _, Gone).

Definition with_log (file : string) (backups : Z) (c : SecConfig.Config) : SecConfig.Config :=
  let a := admin c in
  mkConfig (server c)
    (mkAdminConfig (a_enabled a) (a_listen a) (a_token a)
       (mkLogStore 3 1 2 file 8 backups)
       (a_connectivity a) (a_history a) (a_poll a) (a_max_body a) (a_failures a) (a_lockout a))
    (edgeproxy c) (waf c) (default_policy c) (route_policies c).

Definition sample_logged : SecConfig.Config := with_log "/var/log/security.log" 2 SecPersistFacts.sample_valid.

Lemma sample_isolated : @validatePersistentPathIsolation unicode_ascii empty_tree false "/etc/security.json" sample_logged [] = inr ().
Proof. vm_compute. reflexivity. Qed.

(** A log file that would be the configuration is refused. *)
Example overlap_refused :
  @validatePersistentPathIsolation unicode_ascii empty_tree false "/etc/security.json" (with_log "/etc/../etc/security.json" 2 SecPersistFacts.sample_valid) []
  = inl (Error "admin.log_store.file_path must not overlap SecurityEdge configuration").
Proof. vm_compute. reflexivity. Qed.

Definition sample_panic : SecConfig.Config := with_log "" (-4) SecPersistFacts.sample_valid.

Lemma sample_panic_accepted : @SecFacts.accepted unicode_ascii Facts.sample_resolve SecPersistFacts.sample_lib sample_panic sample_panic.
Proof. vm_compute. reflexivity. Qed.

Lemma isolation_panics_witness :
  @SecFacts.accepted unicode_ascii Facts.sample_resolve SecPersistFacts.sample_lib sample_panic sample_panic
  ∧ @validatePersistentPathIsolation unicode_ascii empty_tree false "/etc/security.json" sample_panic [] = inl Panics.
Proof.
  split; [exact sample_panic_accepted|].
  apply (@isolation_panics unicode_ascii empty_tree false "/etc/security.json" sample_panic [] [[]; []]); [vm_compute; reflexivity..|].
  left. vm_compute. reflexivity.
Defined.

#[local] Instance sample_times : RFC3339 := {| parse_rfc3339 _ := None; format_rfc3339 _ := [] |}.

(** Two records of six bytes: the second one rotates the log. *)
Definition sample_marshal (e : SecurityLog.Entry) : option str := Some (lit "event").
Definition sample_disk : Persist.disk := Persist.mkDisk {[ lit "/etc/security.json" := lit "old" ]} [].
Definition sample_entries : list (time * SecurityLog.Entry) := [(1, SecurityLog.zero_entry); (2, SecurityLog.zero_entry)].
Abbreviation sample_open := (@Persist.NewWithConfig unicode_ascii sample_times (λ _, None) 0 (log_config (a_log (admin sample_logged))) sample_disk).

Lemma sample_rotates : match sample_open with
  | (Some s, d) => Persist.files (@append_all unicode_ascii sample_times sample_marshal sample_entries s d).2 !! lit "/var/log/security.log.1"
  | _ => None
  end = Some ("event" ++ [Persist.newline]).
Proof. vm_compute. reflexivity. Qed.

Lemma sample_opens : ∃ s d, sample_open = (Some s, d)
  ∧ Persist.files (@append_all unicode_ascii sample_times sample_marshal sample_entries s d).2 !! lit "/var/log/security.log.1" = Some ("event" ++ [Persist.newline]).
Proof. pose proof sample_rotates as H. destruct sample_open as [[s|] d]; [by exists s, d|done]. Qed.

Lemma config_before : Persist.files sample_disk !! lit "/var/log/security.log.1" = None.
Proof. vm_compute. reflexivity. Qed.


End SecPathsFacts.
