(* ===== verification/SecRuntime.v ===== *)
(** * The running program: apps/securityedge/securityedge.go, watch.go and restart_preflight.go

    A [Runtime] holds what serves requests (route table, inspector, resolver,
    client of EdgeProxy's admin API) and the file it came from.  An operation
    that holds [configMu] is one step over the runtime and the files; the files
    and the fates of its system calls are the [world] of ConfigPersist.v.  What
    the rest of the outside answers (directory tree, certificates, addresses,
    probes of directories) is in [outside].

    The limiter, bans, admission, metrics, logs and traffic of a [Runtime] are
    not changed by these operations and are modelled with the gateway. *)

From S2P Require Import Prelude GoStr GoPath GoText GoHttp GoCodec GoFloat GoOS NetIP Config ConfigValidate ConfigEnv ConfigPersist Router RouteTable ClientIP RateLimit SecPolicy Waf SecConfig SecPersist SecPaths.

(** ** The client of EdgeProxy's admin API: internal/edgeadmin/client.go *)

Module EdgeAdmin.
Import SecPaths.

Record Client := mkClient { c_base : ParsedURL; c_token : str; c_timeout : duration }.

Definition maxResponseBytes : Z := 16 * 2 ^ 20.

Definition New {U : Unicode} {R : Resolve} (rawURL token : str) (timeout : duration) : result Client :=
  match parse_url (trim_right_bytes "/" (trim_space rawURL)) with
  | None => inl (Error "invalid edgeproxy admin URL")
  | Some u =>
      if (negb (pu_scheme u =?s "http") && negb (pu_scheme u =?s "https")) || (pu_host u =?s []) || pu_user u
         || negb (pu_query u =?s []) || negb (pu_fragment u =?s [])
      then inl (Error "invalid edgeproxy admin URL")
      else inr (mkClient u token (if timeout <=? 0 then 5 * second else timeout))
  end.

(** [readJSONResponse]: the body that can be read, and its announced length. *)
Definition readJSONResponse (body : option str) (contentLength maxBytes : Z) : result str :=
  if maxBytes <=? 0 then inl (Error "edgeproxy response limit must be positive")
  else if maxBytes <? contentLength then inl (Error "edgeproxy response exceeds the limit")
  else match body with
       | None => inl (Error "read")
       | Some data =>
           let data := take (Z.to_nat (maxBytes + 1)) data in
           if maxBytes <? len data then inl (Error "edgeproxy response exceeds the limit") else inr data
       end.

End EdgeAdmin.

Module SecRuntime.
Import Persistence SecConfig SecPersist SecPaths.

(** ** Operations that change a state and may fail

    What was done before an error stays done. *)

Definition op (S A : Type) : Type := S → result A * S.
#[export] Instance op_ret S : MRet (op S) := λ A a s, (inr a, s).
#[export] Instance op_bind S : MBind (op S) := λ A B f m s, match m s with (inl e, s) => (inl e, s) | (inr a, s) => f a s end.

Definition of_result {S A} (r : result A) : op S A := λ s, (r, s).
Definition fail_with {S A} (message : str) : op S A := of_result (inl (Error message)).
(** The result, whatever it is. *)
Definition attempt {S A} (m : op S A) : op S (result A) := λ s, let '(r, s) := m s in (inr r, s).

Definition from_files {A} (m : sys (str + A)) : op world A := λ w, let '(r, w) := m w in (match r with inl e => inl (Error e) | inr a => inr a end, w).
Definition look_up (path : str) : op world found := λ w, let '(f, w) := look path w in (inr f, w).

(** ** State *)

Record WatchStatus := mkWatch {
  w_enabled : bool; w_security : str; w_edge : str; w_environment : str; w_revision : Z; w_applied : Z; w_scheduled : bool;
  w_changed : str; w_changed_at : str; w_applied_at : str; w_error : str }.

Definition no_watch : WatchStatus := mkWatch false [] [] [] 0 0 false [] [] [] [].

Record Runtime := mkRuntime {
  r_path : str; r_protected : list str;
  r_cfg : Config; r_table : list Routes.Route; r_edge : EdgeAdmin.Client; r_inspector : Waf.Inspector; r_clients : Resolver.Resolver;
  r_healthy : Config; r_watch : WatchStatus }.

Definition with_watch (w : WatchStatus) (r : Runtime) : Runtime :=
  mkRuntime (r_path r) (r_protected r) (r_cfg r) (r_table r) (r_edge r) (r_inspector r) (r_clients r) (r_healthy r) w.
Definition with_healthy (c : Config) (r : Runtime) : Runtime :=
  mkRuntime (r_path r) (r_protected r) (r_cfg r) (r_table r) (r_edge r) (r_inspector r) (r_clients r) c (r_watch r).
Definition with_table (t : list Routes.Route) (r : Runtime) : Runtime :=
  mkRuntime (r_path r) (r_protected r) (r_cfg r) t (r_edge r) (r_inspector r) (r_clients r) (r_healthy r) (r_watch r).
Definition with_inspector (i : Waf.Inspector) (r : Runtime) : Runtime :=
  mkRuntime (r_path r) (r_protected r) (r_cfg r) (r_table r) (r_edge r) i (r_clients r) (r_healthy r) (r_watch r).
Definition with_clients (c : Resolver.Resolver) (r : Runtime) : Runtime :=
  mkRuntime (r_path r) (r_protected r) (r_cfg r) (r_table r) (r_edge r) (r_inspector r) c (r_healthy r) (r_watch r).
Definition with_live (c : Config) (t : list Routes.Route) (e : EdgeAdmin.Client) (r : Runtime) : Runtime :=
  mkRuntime (r_path r) (r_protected r) c t e (r_inspector r) (r_clients r) (r_healthy r) (r_watch r).

(** The runtime, the files, and how often the clock was read. *)
Record cell := mkCell { c_rt : Runtime; c_world : world; c_ticks : nat }.

Definition get : op cell Runtime := λ s, (inr (c_rt s), s).
Definition modify (f : Runtime → Runtime) : op cell () := λ s, (inr (), mkCell (f (c_rt s)) (c_world s) (c_ticks s)).
Definition lift {A} (m : op world A) : op cell A := λ s, let '(r, w) := m (c_world s) in (r, mkCell (c_rt s) w (c_ticks s)).
Definition fresh : op cell nat := λ s, (inr (c_ticks s), mkCell (c_rt s) (c_world s) (S (c_ticks s))).

(** ** Copies

    [append([]string(nil), s...)] is nil when [s] is empty; the copy of the rules is
    made anew and never nil. *)

Definition clone_slice (s : slice) : slice := match s with Some [] => None | _ => s end.

Definition cloneServerConfig (s : ServerConfig) : ServerConfig := with_trusted (clone_slice (s_trusted s)) s.

Definition clone_dns (d : DNSProbeConfig) : DNSProbeConfig :=
  mkDNS (dns_enabled d) (dns_critical d) (dns_server d) (clone_slice (dns_names d)) (clone_slice (dns_expected d)).

Definition cloneConfig (c : Config) : Config :=
  let a := admin c in let cn := a_connectivity a in
  mkConfig (cloneServerConfig (server c))
    (with_connectivity (mkConnectivity (cn_enabled cn) (cn_interval cn) (cn_timeout cn) (cn_stale cn) (cn_history cn) (clone_dns (cn_dns cn))) a)
    (edgeproxy c) (mkWAF (waf_max (waf c)) (Some (waf_rules (waf c)))) (default_policy c) (route_policies c).

(** In a copy the empty lists of a policy are nil, in a validated policy they are
    not: [reflect.DeepEqual] finds the two different. *)
Definition lists_filled (p : Policy) : bool :=
  forallb (λ l : list str, negb (len l =? 0))
    [body_content_types p; allowed_methods p; excluded_path_prefixes p; disabled_rules p; ip_allowlist p; ip_denylist p].

(** [reflect.DeepEqual] of a copy of [c] and the validated [n]. *)
Definition copy_equal (c n : Config) : bool :=
  bool_decide (cloneConfig c = n) && lists_filled (default_policy n)
  && forallb (λ kp, lists_filled kp.2) (map_to_list (route_policies n)).

(** ** Which changes need a restart *)

Definition changed_field (name : string) (changed : bool) : list str := if changed then [lit name] else [].
Definition different {A} `{EqDecision A} (x y : A) : bool := negb (bool_decide (x = y)).

Definition restartRequiredChanges (current next : Config) : list str :=
  let s := server current in let s' := server next in
  let rl := rate_limit (default_policy current) in let rl' := rate_limit (default_policy next) in
  sort_strings (
    changed_field "server.mode" (different (s_mode s) (s_mode s'))
    ++ changed_field "server.listen_addr" (different (s_listen s) (s_listen s'))
    ++ changed_field "server.upstream_proxy_url" (different (s_upstream s) (s_upstream s'))
    ++ changed_field "server.read_header_timeout" (different (s_read_header s) (s_read_header s'))
    ++ changed_field "server.read_timeout" (different (s_read s) (s_read s'))
    ++ changed_field "server.write_timeout" (different (s_write s) (s_write s'))
    ++ changed_field "server.idle_timeout" (different (s_idle s) (s_idle s'))
    ++ changed_field "server.shutdown_timeout" (different (s_shutdown s) (s_shutdown s'))
    ++ changed_field "server.max_header_bytes" (different (s_max_header s) (s_max_header s'))
    ++ changed_field "server.max_request_body_bytes" (different (s_max_body s) (s_max_body s'))
    ++ changed_field "server.forwarded_for_header" (different (s_forwarded s) (s_forwarded s'))
    ++ changed_field "server.preserve_host" (different (s_preserve_host s) (s_preserve_host s'))
    ++ changed_field "server.tls" (different (s_tls s) (s_tls s'))
    ++ changed_field "server.upstream_transport" (different (s_transport s) (s_transport s'))
    ++ changed_field "admin" (different (admin current) (admin next))
    ++ changed_field "default_policy.rate_limit.cleanup_interval" (different (Limiter.CleanupInterval rl) (Limiter.CleanupInterval rl'))
    ++ changed_field "default_policy.rate_limit.idle_ttl" (different (Limiter.IdleTTL rl) (Limiter.IdleTTL rl'))
    ++ changed_field "default_policy.rate_limit.max_buckets" (different (Limiter.MaxBuckets rl) (Limiter.MaxBuckets rl'))
    ++ changed_field "default_policy.auto_ban.max_tracked_clients"
         (different (BanManager.MaxTrackedClients (auto_ban (default_policy current))) (BanManager.MaxTrackedClients (auto_ban (default_policy next))))).

(** ** What a directory and a file answer to the probes of a restart *)

Record outside := mkOutside {
  o_tree : tree;
  o_keypair : str → str → bool;       (* tls.LoadX509KeyPair *)
  o_listen : str → bool;              (* net.Listen and Close *)
  o_mkdir : str → bool; o_create_temp : str → bool; o_close_temp : str → bool; o_remove_temp : str → bool;
  o_stat_dir : str → lookup bool;     (* os.Stat: whether it is a directory *)
  o_reopen : str → bool;              (* os.OpenFile for appending, and Close *)
  o_log : LogStoreConfig → bool;      (* securitylog.NewWithConfig *)
  o_admin : AdminConfig → bool }.     (* admin.New *)

Definition probeWritableDirectory (o : outside) (path : str) : bool :=
  let dir := path_dir path in o_mkdir o dir && o_create_temp o dir && o_close_temp o dir && o_remove_temp o dir.

Definition probeSecurityLogDestination (o : outside) (path : str) : list str :=
  let path := trim_space path in
  if path =?s [] then []
  else if negb (probeWritableDirectory o path) then [lit "admin.log_store.file_path directory is not writable"]
  else match o_stat_dir o path with
       | Gone => []
       | Broken => [lit "stat admin.log_store.file_path"]
       | There true => [lit "admin.log_store.file_path is a directory"]
       | There false => if o_reopen o path then [] else [lit "admin.log_store.file_path cannot be reopened"]
       end.

Definition redacted : str := "[REDACTED]".

Section runtime.
Context {U : Unicode} {R : Resolve} {L : WafLib} {SH : Sha256} {MR : MapRange}.
Context (encode : Config → option str) (decode : str → option Config) (decode_routes : str → option (list Routes.Route)).
Context (windows : bool) (clock stamp rand : nat → str).

Definition now : op cell str := n ← fresh; mret (clock n).

Definition load_file (path : str) : op world Config := from_files (LoadFile decode path).
Definition load (vars : variables) (path : str) : op world Config := from_files (Load decode (λ key, vars !! key) path).
Definition save (path : str) (cfg : Config) : op cell () :=
  n ← fresh;
  lift (λ w, let '(r, w) := Save encode windows (stamp n) (rand n) path cfg w in
             (match r with Some e => inl (Error e) | None => inr () end, w)).

(** [Config.Validate]: the errors joined, or the normalised configuration. *)
Definition validated (c : Config) : result Config :=
  match Validate c with (((_ :: _) as errs), _) => inl (Error (join [chr 10] errs)) | ([], c) => inr c end.
Definition overridden (vars : variables) (c : Config) : result Config :=
  match ApplyEnvironmentOverrides (λ key, vars !! key) c with inl e => inl (Error e) | inr c => inr c end.
Definition unmasked (vars : variables) (current next : Config) : result () :=
  match ValidateEnvironmentManagedChanges (λ key, vars !! key) current next with
  | Some locked => inl (Error (join ", " locked)) | None => inr () end.

(** ** Preparation *)

(** What [routes.Load] opens. *)
Definition opened_of (f : found) : option opened :=
  match f with
  | Found (Regular data) => Some (mkOpened true (len data) data)
  | Found Special => Some (mkOpened false 0 [])
  | _ => None
  end.

Definition load_routes (path : str) : op world (list Routes.Route) :=
  f ← look_up path;
  of_result (match Table.Load decode_routes (opened_of f) with inl e => inl (Error e) | inr t => inr t end).

(** The names that the routes go by: the last of two that agree. *)
Definition known_routes (table : list Routes.Route) : gmap str str :=
  foldl (λ known r, <[to_lower (Routes.Name r) := Routes.Name r]> known) ∅ table.

Definition policy_name_step (known : gmap str str) (acc : result (gmap str str)) (name : str) : result (gmap str str) :=
  seen ← acc;
  let key := to_lower (trim_space name) in
  match known !! key with
  | None => inl (Error "route policy does not match any EdgeProxy route")
  | Some _ =>
      match seen !! key with
      | Some _ => inl (Error "route policies refer to the same case-insensitive EdgeProxy route")
      | None => inr (<[key := name]> seen)
      end
  end.

Definition validateRoutePolicies (cfg : Config) (table : list Routes.Route) : result () :=
  _ ← foldl (policy_name_step (known_routes table)) (inr ∅) ((range (route_policies cfg)).*1); inr ().

Definition new_inspector (w : WAFConfig) : result Waf.Inspector :=
  match Waf.NewInspector (waf_rules w) (waf_max w) with
  | inr i => inr i
  | inl Waf.BuiltinPanic => inl Panics
  | inl _ => inl (Error "compile WAF rules")
  end.

Definition new_clients (s : ServerConfig) : result Resolver.Resolver :=
  match Resolver.New (items (s_trusted s)) (s_forwarded s) with Some c => inr c | None => inl (Error "trusted proxies") end.

Definition new_edge (e : EdgeProxyConfig) : result EdgeAdmin.Client := EdgeAdmin.New (ep_url e) (ep_token e) (ep_timeout e).

Record preparedRuntime := mkPrepared {
  p_cfg : Config; p_table : list Routes.Route; p_edge : EdgeAdmin.Client; p_inspector : Waf.Inspector; p_clients : Resolver.Resolver }.

Definition prepareRuntimeConfig (o : outside) (configPath : str) (cfg : Config) (protectedPaths : list str) : op world preparedRuntime :=
  _ ← of_result (validatePersistentPathIsolation (o_tree o) windows configPath cfg protectedPaths);
  table ← load_routes (resolveEdgeConfigPath configPath (ep_path (edgeproxy cfg)));
  _ ← of_result (validateRoutePolicies cfg table);
  edge ← of_result (new_edge (edgeproxy cfg));
  inspector ← of_result (new_inspector (waf cfg));
  clients ← of_result (new_clients (server cfg));
  mret (mkPrepared cfg table edge inspector clients).

(** [Validate] of the package: what the flag -validate runs. *)
Definition ValidateFile (o : outside) (vars : variables) (configPath : str) (protectedPaths : list str) : op world () :=
  cfg ← load vars configPath; _ ← prepareRuntimeConfig o configPath cfg protectedPaths; mret ().

Definition New (o : outside) (vars : variables) (configPath : str) (protectedPaths : list str) : op world Runtime :=
  fileCfg ← load_file configPath;
  runtimeCfg ← of_result (overridden vars (cloneConfig fileCfg));
  runtimeCfg ← of_result (validated runtimeCfg);
  p ← prepareRuntimeConfig o configPath runtimeCfg protectedPaths;
  if negb (o_log o (a_log (admin (p_cfg p)))) then fail_with "open security log"
  else mret (mkRuntime configPath protectedPaths (p_cfg p) (p_table p) (p_edge p) (p_inspector p) (p_clients p) (cloneConfig fileCfg) no_watch).

(** ** The preflight of a restart *)

Definition securityListenerOverlapsAny (candidate : str) (active : list str) : bool := existsb (listenerEndpointsOverlap candidate) active.

Definition probeSecurityListener (o : outside) (field : string) (address : str) : list str :=
  if o_listen o address then [] else [field ++ " cannot be activated"].

(** All errors are collected, those of the preparation with them. *)
Definition validateRestartCandidate (o : outside) (protectedPaths : list str) (configPath : str) (current next : Config) : op world () :=
  prepared ← attempt (prepareRuntimeConfig o configPath next protectedPaths);
  let s := server current in let s' := server next in
  let a := admin current in let a' := admin next in
  let active := (if gateway_mode s then [s_listen s] else []) ++ (if a_enabled a then [a_listen a] else []) in
  match prepared with
  | inl Panics => of_result (inl Panics)
  | _ =>
      let errs :=
        (if gateway_mode s' && tls_enabled (s_tls s') && negb (o_keypair o (tls_cert (s_tls s')) (tls_key (s_tls s')))
         then [lit "load server TLS certificate"] else [])
        ++ match prepared with inl (Error e) => [e] | _ => [] end
        ++ (if gateway_mode s' && (negb (gateway_mode s) || different (s_listen s) (s_listen s'))
               && negb (securityListenerOverlapsAny (s_listen s') active)
            then probeSecurityListener o "server.listen_addr" (s_listen s') else [])
        ++ (if a_enabled a' && (negb (a_enabled a) || different (a_listen a) (a_listen a'))
               && negb (securityListenerOverlapsAny (a_listen a') active)
            then probeSecurityListener o "admin.listen_addr" (a_listen a') else [])
        ++ probeSecurityLogDestination o (ls_file (a_log a'))
        ++ (if a_enabled a' && th_enabled (a_history a') && negb (th_file (a_history a') =?s [])
               && negb (probeWritableDirectory o (th_file (a_history a')))
            then [lit "admin.telemetry_history.file_path directory is not writable"] else []) in
      match errs with [] => mret () | _ => fail_with (join [chr 10] errs) end
  end.

(** ** What an operation returns: done, or persisted for a restart *)

Inductive verdict := Applied | RestartRequired (fields : list str).

Definition update_watch (f : WatchStatus → WatchStatus) : op cell () := modify (λ r, with_watch (f (r_watch r)) r).

Definition MarkRestartScheduled (path : str) : op cell () :=
  t ← now;
  update_watch (λ w, mkWatch (w_enabled w) (w_security w) (w_edge w) (w_environment w) (w_revision w) (w_applied w) true path t
    (w_applied_at w) []).

Record preparedReload := mkReload { q_cfg : Config; q_table : list Routes.Route; q_edge : EdgeAdmin.Client }.

(** [inl fields]: the restart is needed, and its preflight has passed. *)
Definition prepareReload (o : outside) (cfg : Config) : op cell (list str + preparedReload) :=
  r ← get;
  let current := cloneConfig (r_cfg r) in
  match restartRequiredChanges current cfg with
  | (_ :: _) as fields => _ ← lift (validateRestartCandidate o (r_protected r) (r_path r) current cfg); mret (inl fields)
  | [] =>
      table ← lift (load_routes (resolveEdgeConfigPath (r_path r) (ep_path (edgeproxy cfg))));
      _ ← of_result (validateRoutePolicies cfg table);
      edge ← of_result (new_edge (edgeproxy cfg));
      _ ← of_result (new_inspector (waf cfg));
      _ ← of_result (new_clients (server cfg));
      mret (inr (mkReload cfg table edge))
  end.

(** The inspector is replaced before the resolver, and the rest after both. *)
Definition applyReload (q : preparedReload) : op cell () :=
  r ← get;
  match Waf.Replace (r_inspector r) (waf_rules (waf (q_cfg q))) (waf_max (waf (q_cfg q))) with
  | (Some Waf.BuiltinPanic, _) => of_result (inl Panics)
  | (Some _, _) => fail_with "compile WAF rules"
  | (None, inspector) =>
      _ ← modify (with_inspector inspector);
      match Resolver.Replace (items (s_trusted (server (q_cfg q)))) (s_forwarded (server (q_cfg q))) (r_clients r) with
      | None => fail_with "trusted proxies"
      | Some clients =>
          _ ← modify (with_clients clients);
          modify (with_live (q_cfg q) (q_table q) (q_edge q))
      end
  end.

(** Persisting a candidate whose runtime form needs a restart. *)
Definition schedule (o : outside) (candidate runtimeCfg : Config) (fields : list str) : op cell verdict :=
  r ← get;
  _ ← lift (validateRestartCandidate o (r_protected r) (r_path r) (cloneConfig (r_cfg r)) runtimeCfg);
  _ ← save (r_path r) candidate;
  _ ← MarkRestartScheduled (r_path r);
  mret (RestartRequired fields).

(** The second half of [update] and [ReplaceConfig]. *)
Definition commit (o : outside) (fileCfg candidate runtimeCfg : Config) : op cell verdict :=
  r ← get;
  match restartRequiredChanges (cloneConfig (r_cfg r)) runtimeCfg with
  | (_ :: _) as fields => schedule o candidate runtimeCfg fields
  | [] =>
      prepared ← prepareReload o runtimeCfg;
      match prepared with
      | inl fields => mret (RestartRequired fields)
      | inr q =>
          _ ← save (r_path r) candidate;
          applied ← attempt (applyReload q);
          match applied with
          | inl Panics => of_result (inl Panics)
          | inl (Error e) =>
              rollback ← attempt (save (r_path r) fileCfg);
              match rollback with
              | inl (Error e') => fail_with (join [chr 10] [e; e'])
              | inl Panics => of_result (inl Panics)
              | inr () => fail_with e
              end
          | inr () => _ ← modify (with_healthy (cloneConfig candidate)); mret Applied
          end
      end
  end.

Definition update (o : outside) (vars : variables) (mutator : Config → Config) : op cell verdict :=
  r ← get;
  fileCfg ← lift (load_file (r_path r));
  candidate ← of_result (validated (mutator (cloneConfig fileCfg)));
  runtimeCfg ← of_result (overridden vars (cloneConfig candidate));
  runtimeCfg ← of_result (validated runtimeCfg);
  commit o fileCfg candidate runtimeCfg.

(** The secrets of a candidate that was made from a redacted view. *)
Definition unredact (fileCfg candidate : Config) : Config :=
  let a := admin candidate in let e := edgeproxy candidate in
  let token := if a_token a =?s redacted then a_token (admin fileCfg) else a_token a in
  let edge_token := if ep_token e =?s redacted then ep_token (edgeproxy fileCfg) else ep_token e in
  mkConfig (server candidate)
    (mkAdminConfig (a_enabled a) (a_listen a) token (a_log a) (a_connectivity a) (a_history a) (a_poll a) (a_max_body a) (a_failures a) (a_lockout a))
    (mkEdgeProxy (ep_path e) (ep_url e) edge_token (ep_timeout e)) (waf candidate) (default_policy candidate) (route_policies candidate).

Definition ReplaceConfig (o : outside) (vars : variables) (candidate : Config) : op cell verdict :=
  r ← get;
  fileCfg ← lift (load_file (r_path r));
  let candidate := unredact fileCfg candidate in
  _ ← of_result (unmasked vars fileCfg candidate);
  candidate ← of_result (validated candidate);
  runtimeCfg ← of_result (overridden vars (cloneConfig candidate));
  commit o fileCfg candidate runtimeCfg.

Definition reload_with (o : outside) (fileCfg runtimeCfg : Config) : op cell verdict :=
  prepared ← prepareReload o runtimeCfg;
  match prepared with
  | inl fields => mret (RestartRequired fields)
  | inr q => _ ← applyReload q; _ ← modify (with_healthy (cloneConfig fileCfg)); mret Applied
  end.

Definition Reload (o : outside) (vars : variables) : op cell verdict :=
  r ← get;
  fileCfg ← lift (load_file (r_path r));
  previousFileCfg ← of_result (validated (cloneConfig (r_healthy r)));
  _ ← of_result (unmasked vars previousFileCfg fileCfg);
  if bool_decide (previousFileCfg = fileCfg) then mret Applied
  else
    cfg ← of_result (overridden vars (cloneConfig fileCfg));
    cfg ← of_result (validated cfg);
    reload_with o fileCfg cfg.

Definition ReloadEnvironment (o : outside) (vars : variables) : op cell verdict :=
  r ← get;
  fileCfg ← lift (load_file (r_path r));
  runtimeCfg ← of_result (overridden vars (cloneConfig fileCfg));
  runtimeCfg ← of_result (validated runtimeCfg);
  if copy_equal (r_cfg r) runtimeCfg then mret Applied else reload_with o fileCfg runtimeCfg.

Definition ReloadEdgeRoutes : op cell () :=
  r ← get;
  let cfg := cloneConfig (r_cfg r) in
  table ← lift (load_routes (resolveEdgeConfigPath (r_path r) (ep_path (edgeproxy cfg))));
  _ ← of_result (validateRoutePolicies cfg table);
  modify (with_table table).

Definition ValidateRestartConfig (o : outside) (vars : variables) (configPath : str) : op cell () :=
  cfg ← lift (load vars configPath);
  r ← get;
  lift (validateRestartCandidate o (r_protected r) configPath (cloneConfig (r_cfg r)) cfg).

(** ** Policies *)

Definition EffectivePolicy (r : Runtime) (route : str) : Policy :=
  match route_policies (r_cfg r) !! route with
  | Some p => p
  | None =>
      match list_find (λ np, equal_fold np.1 route = true) (range (route_policies (r_cfg r))) with
      | Some (_, (_, p)) => p
      | None => default_policy (r_cfg r)
      end
  end.

Definition canonicalRouteName (r : Runtime) (name : str) : option str :=
  Routes.Name ∘ snd <$> list_find (λ route, equal_fold (Routes.Name route) (trim_space name) = true) (r_table r).
Definition routeExists (r : Runtime) (name : str) : bool := bool_decide (is_Some (canonicalRouteName r name)).

Definition with_policies (d : Policy) (ps : gmap str Policy) (c : Config) : Config :=
  mkConfig (server c) (admin c) (edgeproxy c) (waf c) d ps.

(** The process-wide fields of a route policy follow the default policy. *)
Definition follow (d p : Policy) : Policy :=
  let rl := rate_limit p in let rd := rate_limit d in let ab := auto_ban p in
  mkPolicy (policy_enabled p) (policy_mode p) (anomaly_threshold p) (inspect_request_body p) (max_inspection_body_bytes p)
    (body_content_types p) (allowed_methods p) (excluded_path_prefixes p) (disabled_rules p) (ip_allowlist p) (ip_denylist p)
    (max_path_bytes p) (max_query_bytes p) (max_header_count p) (max_header_value_bytes p) (reject_encoded_request_bodies p)
    (reject_unsupported_body_types p) (block_on_inspection_limit p)
    (Limiter.mkRateCfg (Limiter.Enabled rl) (Limiter.RequestsPerSecond rl) (Limiter.Burst rl) (Limiter.GlobalRequestsPerSecond rl)
       (Limiter.GlobalBurst rl) (Limiter.CleanupInterval rd) (Limiter.IdleTTL rd) (Limiter.MaxBuckets rd))
    (BanManager.mkBanCfg (BanManager.Enabled ab) (BanManager.ViolationThreshold ab) (BanManager.Window ab) (BanManager.BanDuration ab)
       (BanManager.MaxTrackedClients (auto_ban d))).

Definition set_default (p : Policy) (c : Config) : Config := with_policies p (follow p <$> route_policies c) c.

Definition set_route (canonical : str) (p : Policy) (c : Config) : Config :=
  with_policies (default_policy c)
    (<[canonical := p]> (filter (λ kp, ¬ (equal_fold kp.1 canonical = true ∧ kp.1 ≠ canonical)) (route_policies c))) c.

Definition drop_route (route : str) (c : Config) : Config :=
  with_policies (default_policy c) (filter (λ kp, equal_fold kp.1 route = false) (route_policies c)) c.

Definition UpdateDefaultPolicy (o : outside) (vars : variables) (p : Policy) : op cell verdict := update o vars (set_default p).

Definition UpdateRoutePolicy (o : outside) (vars : variables) (route : str) (p : Policy) : op cell verdict :=
  r ← get;
  match canonicalRouteName r route with
  | None => fail_with "route does not exist in edgeproxy config"
  | Some canonical => update o vars (set_route canonical p)
  end.

Definition DeleteRoutePolicy (o : outside) (vars : variables) (route : str) : op cell verdict :=
  if trim_space route =?s [] then fail_with "route name is required" else update o vars (drop_route route).

(** ** The edits of the admin API *)

Inductive edit := EditDefault (p : Policy) | EditRoute (route : str) (p : Policy) | DropRoute (route : str) | Replacement (c : Config).

Definition run_edit (o : outside) (vars : variables) (e : edit) : op cell verdict :=
  match e with
  | EditDefault p => UpdateDefaultPolicy o vars p
  | EditRoute route p => UpdateRoutePolicy o vars route p
  | DropRoute route => DeleteRoutePolicy o vars route
  | Replacement c => ReplaceConfig o vars c
  end.

(** ** What the admin API shows *)

Definition RedactedConfig (r : Runtime) : Config :=
  let cfg := cloneConfig (r_cfg r) in
  let a := admin cfg in let e := edgeproxy cfg in
  let token := if trim_space (a_token a) =?s [] then a_token a else redacted in
  let edge_token := if trim_space (ep_token e) =?s [] then ep_token e else redacted in
  mkConfig (server cfg)
    (mkAdminConfig (a_enabled a) (a_listen a) token (a_log a) (a_connectivity a) (a_history a) (a_poll a) (a_max_body a) (a_failures a) (a_lockout a))
    (mkEdgeProxy (ep_path e) (ep_url e) edge_token (ep_timeout e)) (waf cfg) (default_policy cfg) (route_policies cfg).

Definition EdgeConfigPath (r : Runtime) : str := resolveEdgeConfigPath (r_path r) (ep_path (edgeproxy (r_cfg r))).

Definition RestartFallback (r : Runtime) : str * Config := (r_path r, cloneConfig (r_healthy r)).

(** ** The status of the watcher *)

Definition ConfigureWatcher (envPath : str) (previous : WatchStatus) : op cell () :=
  r ← get;
  t ← now;
  let w := if w_enabled previous
           then mkWatch true (w_security previous) (w_edge previous) (w_environment previous) (w_revision previous) (w_revision previous) false
                  (w_changed previous) (w_changed_at previous) t []
           else r_watch r in
  let w := mkWatch true (r_path r) (EdgeConfigPath r) envPath (w_revision w) (w_applied w) (w_scheduled w) (w_changed w) (w_changed_at w)
             (w_applied_at w) (w_error w) in
  t ← now;
  modify (with_watch
    (if w_revision w =? 0
     then mkWatch true (w_security w) (w_edge w) (w_environment w) 1 1 (w_scheduled w) (w_changed w) (w_changed_at w) t (w_error w)
     else w)).

Definition RecordWatchChange (path : str) (applied restart : bool) (err : option str) : op cell () :=
  r ← get;
  let w := r_watch r in
  let repeated := match err with Some e => (w_error w =?s e) && (w_changed w =?s path) && negb (w_scheduled w) | None => false end in
  if repeated then mret ()
  else
    t ← now;
    let revision := wrapu64 (w_revision w + 1) in
    match err with
    | Some e =>
        modify (with_watch (mkWatch (w_enabled w) (w_security w) (w_edge w) (w_environment w) revision (w_applied w) restart path t (w_applied_at w) e))
    | None =>
        t' ← (if applied then now else mret (w_applied_at w));
        modify (with_watch (mkWatch (w_enabled w) (w_security w) (w_edge w) (w_environment w) revision
          (if applied then revision else w_applied w) restart path t t' []))
    end.

Definition maxWatchedFileBytes : Z := 4 * 2 ^ 20.

(** [FileDigest] *)
Definition FileDigest (path : str) : op world str :=
  f ← look_up path;
  match opened_of f with
  | None => fail_with "read watched file"
  | Some f =>
      if negb (of_regular f) then fail_with "is not a regular file"
      else match read_limited maxWatchedFileBytes f with inl e => fail_with e | inr data => mret (sha256 data) end
  end.

End runtime.
End SecRuntime.
