(* ===== verification/Control.v ===== *)
(** * The control plane: apps/edgeproxy/internal/control and the run loop of internal/server/run.go

    [Manager] keeps the file, what runs and what a failed restart goes back to.
    A function that holds [transactionMu] is one step; [watch] takes it twice in
    a turn, so a turn is two steps.  File paths are those of Unix.  The clock
    gives a text for every use of it; an error is the fixed part of its message.

    What the outside decides is in [preflight] (certificates, free addresses), in
    the nodes the watcher finds at the path of the dotenv file, and in the faults
    of the file system (ConfigPersist.v). *)

From S2P Require Import Prelude GoStr GoPath GoHttp GoText GoCodec GoFloat NetIP GoOS Config ConfigValidate ConfigEnv ConfigPersist EnvFile CachePolicy ProxyHeaders ClientIP Upstream Cache Handler Generation.

Module Control.
Import Persistence Generation.

(** ** State *)

Record ApplyResult := mkApply {
  ar_applied : bool; ar_restart : bool; ar_fields : list str; ar_revision : Z; ar_source : str }.

Definition no_result : ApplyResult := mkApply false false [] 0 [].

Record WatchStatus := mkStatus {
  ws_enabled : bool; ws_config : str; ws_environment : str; ws_revision : Z; ws_applied : Z; ws_scheduled : bool;
  ws_fields : list str; ws_changed_at : str; ws_applied_at : str; ws_error : str; ws_source : str }.

Record Manager := mkManager {
  m_path : str; m_defaultPath : str; m_envPath : str; m_allowEnvPath : bool;
  m_handler : option handlerState;
  m_current : Config; m_persisted : Config;
  m_healthyPath : str; m_healthyConfig : Config;
  m_status : WatchStatus;
  m_lastDigest : str; m_lastEnvDigest : str;
  m_restartCh : option Config;                              (* a channel with room for one *)
  m_restartEnvironmentFrom : option EnvFile.ManagedSnapshot }.

Definition with_path (p : str) (m : Manager) : Manager :=
  mkManager p (m_defaultPath m) (m_envPath m) (m_allowEnvPath m) (m_handler m) (m_current m) (m_persisted m) (m_healthyPath m)
    (m_healthyConfig m) (m_status m) (m_lastDigest m) (m_lastEnvDigest m) (m_restartCh m) (m_restartEnvironmentFrom m).
Definition with_handler (h : option handlerState) (m : Manager) : Manager :=
  mkManager (m_path m) (m_defaultPath m) (m_envPath m) (m_allowEnvPath m) h (m_current m) (m_persisted m) (m_healthyPath m)
    (m_healthyConfig m) (m_status m) (m_lastDigest m) (m_lastEnvDigest m) (m_restartCh m) (m_restartEnvironmentFrom m).
Definition with_current (c : Config) (m : Manager) : Manager :=
  mkManager (m_path m) (m_defaultPath m) (m_envPath m) (m_allowEnvPath m) (m_handler m) c (m_persisted m) (m_healthyPath m)
    (m_healthyConfig m) (m_status m) (m_lastDigest m) (m_lastEnvDigest m) (m_restartCh m) (m_restartEnvironmentFrom m).
Definition with_persisted (c : Config) (m : Manager) : Manager :=
  mkManager (m_path m) (m_defaultPath m) (m_envPath m) (m_allowEnvPath m) (m_handler m) (m_current m) c (m_healthyPath m)
    (m_healthyConfig m) (m_status m) (m_lastDigest m) (m_lastEnvDigest m) (m_restartCh m) (m_restartEnvironmentFrom m).
Definition with_healthy (p : str) (c : Config) (m : Manager) : Manager :=
  mkManager (m_path m) (m_defaultPath m) (m_envPath m) (m_allowEnvPath m) (m_handler m) (m_current m) (m_persisted m) p
    c (m_status m) (m_lastDigest m) (m_lastEnvDigest m) (m_restartCh m) (m_restartEnvironmentFrom m).
Definition with_status (s : WatchStatus) (m : Manager) : Manager :=
  mkManager (m_path m) (m_defaultPath m) (m_envPath m) (m_allowEnvPath m) (m_handler m) (m_current m) (m_persisted m) (m_healthyPath m)
    (m_healthyConfig m) s (m_lastDigest m) (m_lastEnvDigest m) (m_restartCh m) (m_restartEnvironmentFrom m).
Definition with_digest (d : str) (m : Manager) : Manager :=
  mkManager (m_path m) (m_defaultPath m) (m_envPath m) (m_allowEnvPath m) (m_handler m) (m_current m) (m_persisted m) (m_healthyPath m)
    (m_healthyConfig m) (m_status m) d (m_lastEnvDigest m) (m_restartCh m) (m_restartEnvironmentFrom m).
Definition with_env_digest (d : str) (m : Manager) : Manager :=
  mkManager (m_path m) (m_defaultPath m) (m_envPath m) (m_allowEnvPath m) (m_handler m) (m_current m) (m_persisted m) (m_healthyPath m)
    (m_healthyConfig m) (m_status m) (m_lastDigest m) d (m_restartCh m) (m_restartEnvironmentFrom m).
Definition with_restart (c : option Config) (m : Manager) : Manager :=
  mkManager (m_path m) (m_defaultPath m) (m_envPath m) (m_allowEnvPath m) (m_handler m) (m_current m) (m_persisted m) (m_healthyPath m)
    (m_healthyConfig m) (m_status m) (m_lastDigest m) (m_lastEnvDigest m) c (m_restartEnvironmentFrom m).
Definition with_snapshot (s : option EnvFile.ManagedSnapshot) (m : Manager) : Manager :=
  mkManager (m_path m) (m_defaultPath m) (m_envPath m) (m_allowEnvPath m) (m_handler m) (m_current m) (m_persisted m) (m_healthyPath m)
    (m_healthyConfig m) (m_status m) (m_lastDigest m) (m_lastEnvDigest m) (m_restartCh m) s.

(** The manager, the file system, and how often the clock was read. *)
Record cell := mkCell { c_mgr : Manager; c_world : world; c_ticks : nat }.

Definition act (A : Type) : Type := cell → A * cell.
#[export] Instance act_ret : MRet act := λ A a s, (a, s).
#[export] Instance act_bind : MBind act := λ A B f m s, let '(a, s) := m s in f a s.

Definition get : act Manager := λ s, (c_mgr s, s).
Definition modify (f : Manager → Manager) : act () := λ s, ((), mkCell (f (c_mgr s)) (c_world s) (c_ticks s)).
Definition lift {A} (m : sys A) : act A := λ s, let '(a, w) := m (c_world s) in (a, mkCell (c_mgr s) w (c_ticks s)).
Definition fresh : act nat := λ s, (c_ticks s, mkCell (c_mgr s) (c_world s) (S (c_ticks s))).

(** ** Which changes need a restart *)

Definition server_timeouts (s : ServerConfig) : list Z :=
  [read_header_timeout s; read_timeout s; write_timeout s; idle_timeout s; shutdown_timeout s; max_header_bytes s].

Definition changed_field (name : string) (changed : bool) : list str := if changed then [lit name] else [].

Definition restartRequiredChanges (current next : Config) : list str :=
  let s := server current in let s' := server next in
  let a := admin current in let a' := admin next in
  changed_field "server.listen_addr" (negb (listen_addr s =?s listen_addr s'))
  ++ changed_field "server.tls" (negb (bool_decide (server_tls s = server_tls s')))
  ++ changed_field "server.timeouts" (negb (bool_decide (server_timeouts s = server_timeouts s')))
  ++ changed_field "admin.enabled" (negb (eqb (admin_enabled a) (admin_enabled a')))
  ++ changed_field "admin.listen_addr" (negb (admin_listen a =?s admin_listen a'))
  ++ changed_field "admin.auth_token" (negb (admin_token a =?s admin_token a'))
  ++ changed_field "admin.log_store" (negb (bool_decide (admin_log a = admin_log a'))).

Section control.
Context {U : Unicode} {N : NetURL} {T : HttpTime} {SH : Sha256} {FM : FloatMath} {R : Resolve} {MR : MapRange}.
Context (encode : Config → option str) (decode : str → option Config) (windows : bool).
Context (json_string : str → option str) (parse_url : str → option URL).
(** The clock, the stamps and random names of saved files, the clock of a new generation. *)
Context (clock stamp rand : nat → str) (handler_clock : nat → Z).

(** ** Names *)

(** [FindRoute]: the index of the first route with the name. *)
Definition FindRoute (cfg : Config) (name : str) : option nat :=
  fst <$> list_find (λ r, equal_fold (route_name r) (trim_space name) = true) (routes cfg).
Definition FindOrigin (route : RouteConfig) (name : str) : option nat :=
  fst <$> list_find (λ u, equal_fold (up_name u) (trim_space name) = true) (upstreams route).

Definition now : act str := n ← fresh; mret (clock n).

Definition load_file (path : str) : act (str + Config) := lift (LoadFile decode path).
Definition load (vars : variables) (path : str) : act (str + Config) := lift (Load decode (λ key, vars !! key) path).
Definition save (path : str) (cfg : Config) : act (option str) := n ← fresh; lift (Save encode windows (stamp n) (rand n) path cfg).

(** ** [fileDigest] *)

Definition maxWatchedFileBytes : Z := 4 * 2 ^ 20.

Definition digest_opened (f : opened) : str + str :=
  if negb (of_regular f) then inl (lit "is not a regular file")
  else match read_limited maxWatchedFileBytes f with inl e => inl e | inr data => inr (sha256 data) end.

Definition digest_node (n : node) : str + str :=
  match n with Node f => digest_opened f | _ => inl (lit "read watched file") end.

Definition file_node (f : found) : node :=
  match f with
  | Found (Regular data) => Node (mkOpened true (len data) data)
  | Found Special => Node (mkOpened false 0 [])
  | NotExist => Missing
  | Failed => Unreachable
  end.

Definition fileDigest (path : str) : act (str + str) := f ← lift (look path); mret (digest_node (file_node f)).

(** ** [validateRestartCandidate] *)

Record preflight := mkPreflight { pf_keypair : str → str → bool; pf_listen : str → bool }.

Definition overlapsAnyListener (candidate : str) (active : list str) : bool :=
  existsb (Validation.listenerEndpointsOverlap candidate) active.

Definition probeListener (pf : preflight) (field address : str) : list str :=
  if pf_listen pf address then [] else [field ++ " cannot be activated"].

(** The joined errors; none is success. *)
Definition validateRestartCandidate (pf : preflight) (current next : Config) : list str :=
  let s := server current in let s' := server next in
  let a := admin current in let a' := admin next in
  let active := listen_addr s :: (if admin_enabled a then [admin_listen a] else []) in
  (if tls_enabled (server_tls s') && negb (pf_keypair pf (tls_cert (server_tls s')) (tls_key (server_tls s')))
   then [lit "load server TLS certificate"] else [])
  ++ (if negb (listen_addr s =?s listen_addr s') && negb (overlapsAnyListener (listen_addr s') active)
      then probeListener pf "server.listen_addr" (listen_addr s') else [])
  ++ (if admin_enabled a' && (negb (admin_enabled a) || negb (admin_listen a =?s admin_listen a'))
         && negb (overlapsAnyListener (admin_listen a') active)
      then probeListener pf "admin.listen_addr" (admin_listen a') else []).

(** ** Applying a configuration *)

Definition update_status (f : WatchStatus → WatchStatus) : act () := modify (λ m, with_status (f (m_status m)) m).

Definition recordError (source err : str) : act () :=
  m ← get;
  if (ws_error (m_status m) =?s err) && (ws_source (m_status m) =?s source) then mret ()
  else
    t ← now;
    update_status (λ s, mkStatus (ws_enabled s) (ws_config s) (ws_environment s) (ws_revision s) (ws_applied s) (ws_scheduled s)
      (ws_fields s) t (ws_applied_at s) err source).

Definition fail_with {A} (source err : str) : act (str + A) := _ ← recordError source err; mret (inl err).

Definition changed_status (source t : str) (s : WatchStatus) : WatchStatus :=
  mkStatus (ws_enabled s) (ws_config s) (ws_environment s) (wrapu64 (ws_revision s + 1)) (ws_applied s) (ws_scheduled s)
    (ws_fields s) t (ws_applied_at s) [] source.
Definition scheduled_status (fields : list str) (s : WatchStatus) : WatchStatus :=
  mkStatus (ws_enabled s) (ws_config s) (ws_environment s) (ws_revision s) (ws_applied s) true
    fields (ws_changed_at s) (ws_applied_at s) (ws_error s) (ws_source s).
Definition applied_status (revision : Z) (t : str) (s : WatchStatus) : WatchStatus :=
  mkStatus (ws_enabled s) (ws_config s) (ws_environment s) (ws_revision s) revision false
    [] (ws_changed_at s) t (ws_error s) (ws_source s).

Definition newline : str := [chr 10].

Definition apply (pf : preflight) (persisted next : Config) (source : str) : act (str + ApplyResult) :=
  m ← get;
  let current := m_current m in let handler := m_handler m in
  let fields := restartRequiredChanges current next in
  t ← now;
  _ ← update_status (changed_status source t);
  m ← get;
  let revision := ws_revision (m_status m) in
  match fields with
  | _ :: _ =>
      match validateRestartCandidate pf current next with
      | (_ :: _) as errs => fail_with source (join newline errs)
      | [] =>
          _ ← modify (with_persisted persisted);
          _ ← update_status (scheduled_status fields);
          _ ← modify (with_restart (Some next));
          mret (inr (mkApply false true fields revision source))
      end
  | [] =>
      match handler with
      | None => fail_with source "edgeproxy runtime is not attached"
      | Some h =>
          let '(h, ok) := Generation.Reload parse_url next handler_clock h in
          if negb ok then fail_with source "reload"
          else
            _ ← modify (λ m, with_healthy (m_path m) persisted (with_persisted persisted (with_current next (with_handler (Some h) m))));
            t ← now;
            _ ← update_status (applied_status revision t);
            mret (inr (mkApply true false [] revision source))
      end
  end.

(** ** Operations *)

Definition reload (pf : preflight) (vars : variables) (source : str) : act (str + ApplyResult) :=
  m ← get;
  persisted ← load_file (m_path m);
  match persisted with
  | inl e => fail_with source e
  | inr persisted =>
      match Environment.ValidateEnvironmentManagedChanges (λ key, vars !! key) (m_persisted m) persisted with
      | Some locked => fail_with source (join ", " locked)
      | None =>
          runtimeCfg ← load vars (m_path m);
          match runtimeCfg with
          | inl e => fail_with source e
          | inr runtimeCfg => apply pf persisted runtimeCfg source
          end
      end
  end.

(** [errors.Join] of an error and the result of the rollback. *)
Definition joined (err : str) (rollback : option str) : str :=
  match rollback with None => err | Some e => err ++ newline ++ e end.

Definition rollbackPersistedUpdate (previous : Config) : act (option str) :=
  m ← get;
  saved ← save (m_path m) previous;
  match saved with
  | Some e => mret (Some ("restore previous persisted configuration: " ++ e))
  | None =>
      digest ← fileDigest (m_path m);
      match digest with
      | inl e => mret (Some ("digest restored persisted configuration: " ++ e))
      | inr digest => _ ← modify (with_digest digest); mret None
      end
  end.

Definition with_token (token : str) (c : Config) : Config :=
  mkConfig (server c) (mkAdmin (admin_enabled (admin c)) (admin_listen (admin c)) token (admin_log (admin c))) (routes c).

Definition redacted : str := "[REDACTED]".

(** [config.Redacted] *)
Definition Redacted (c : Config) : Config := if trim_space (admin_token (admin c)) =?s [] then c else with_token redacted c.

(** The mutator gets a copy; [base] is not changed by it. *)
Definition Update (pf : preflight) (vars : variables) (mutator : Config → str + Config) (source : str) : act (str + ApplyResult) :=
  m ← get;
  let base := m_persisted m in
  match mutator base with
  | inl e => mret (inl e)
  | inr candidate =>
      let candidate := if admin_token (admin candidate) =?s redacted then with_token (admin_token (admin base)) candidate else candidate in
      match Environment.ValidateEnvironmentManagedChanges (λ key, vars !! key) base candidate with
      | Some locked => mret (inl (join ", " locked))
      | None =>
          match Validation.Validate candidate with
          | ((_ :: _) as errs, _) => mret (inl (join newline errs))
          | ([], candidate) =>
              saved ← save (m_path m) candidate;
              match saved with
              | Some e => mret (inl e)
              | None =>
                  runtimeCfg ← load vars (m_path m);
                  match runtimeCfg with
                  | inl e => r ← rollbackPersistedUpdate base; mret (inl (joined e r))
                  | inr runtimeCfg =>
                      result ← apply pf candidate runtimeCfg source;
                      match result with
                      | inl e => r ← rollbackPersistedUpdate base; mret (inl (joined e r))
                      | inr result =>
                          digest ← fileDigest (m_path m);
                          _ ← match digest with inr d => modify (with_digest d) | inl _ => mret () end;
                          mret (inr result)
                      end
                  end
              end
          end
      end
  end.

Definition Replace (pf : preflight) (vars : variables) (candidate : Config) (source : str) : act (str + ApplyResult) :=
  Update pf vars (λ _, inr candidate) source.

(** [Manager.Config], what the admin API shows. *)
Definition Config_ (m : Manager) : Config := Redacted (m_persisted m).

Definition started_status (path envPath t : str) : WatchStatus :=
  mkStatus true path envPath 1 1 false [] [] t [] "startup".

(** [New]; the digest of the dotenv file is taken from [env_node]. *)
Definition New (vars : variables) (path envPath : str) (env_node : node) (allowPath : bool) (w : world) : str + Manager :=
  let blank := mkManager path path envPath allowPath None Environment.Default Environment.Default path Environment.Default
                 (started_status path envPath []) [] [] None None in
  let run : act (str + Manager) :=
    persisted ← load_file path;
    match persisted with
    | inl e => mret (inl e)
    | inr persisted =>
        runtimeCfg ← load vars path;
        match runtimeCfg with
        | inl e => mret (inl e)
        | inr runtimeCfg =>
            digest ← fileDigest path;
            match digest, (if trim_space envPath =?s [] then inr [] else digest_node env_node) with
            | inl e, _ | inr _, inl e => mret (inl e)
            | inr digest, inr envDigest =>
                t ← now;
                mret (inr (mkManager path path envPath allowPath None runtimeCfg persisted path persisted
                             (started_status path envPath t) digest envDigest None None))
            end
        end
    end in
  fst (run (mkCell blank w 0)).

Definition Attach (handler : handlerState) (current : Config) : act () :=
  _ ← modify (λ m, with_healthy (m_path m) (m_persisted m) (with_current current (with_handler (Some handler) m)));
  t ← now;
  _ ← update_status (λ s, applied_status (ws_revision s) t s);
  modify (with_snapshot None).

(** [RecoverFailedRestart]; the state of the dotenv loader comes along. *)
Definition RecoverFailedRestart (cause : str) (es : EnvFile.State) : act ((str + Config) * EnvFile.State) :=
  m ← get;
  let '(es, failed) := match m_restartEnvironmentFrom m with
                       | Some snapshot => EnvFile.RestoreManagedEnvironment snapshot es | None => (es, None) end in
  match failed with
  | Some e => mret (inl e, es)
  | None =>
      m ← get;
      let healthyPath := m_healthyPath m in let healthyConfig := m_healthyConfig m in
      if trim_space healthyPath =?s [] then mret (inl (lit "no last-known-good EdgeProxy generation is available"), es)
      else
        saved ← save healthyPath healthyConfig;
        match saved with
        | Some e => mret (inl e, es)
        | None =>
            digest ← fileDigest healthyPath;
            match digest with
            | inl e => mret (inl e, es)
            | inr digest =>
                t ← now;
                _ ← modify (λ m, with_digest digest (with_persisted healthyConfig (with_path healthyPath m)));
                _ ← update_status (λ s, mkStatus (ws_enabled s) healthyPath (ws_environment s) (ws_revision s) (ws_applied s) false
                      [] t (ws_applied_at s) ("replacement generation failed; restored last healthy configuration: " ++ cause)
                      "restart_rollback");
                _ ← modify (λ m, with_restart None (with_snapshot None m));
                mret (inr (m_current m), es)
            end
        end
  end.

(** ** The watcher *)

Definition environmentConfigPath (vars : variables) (m : Manager) : str :=
  if negb (m_allowEnvPath m) then m_defaultPath m
  else
    let value := trim_space (default [] (vars !! lit "EDGEPROXY_CONFIG")) in
    if value =?s [] then m_defaultPath m
    else if has_prefix value "/" || (trim_space (m_envPath m) =?s []) then path_clean value
    else path_clean (path_join (path_dir (m_envPath m)) value).

Definition config_status (path : str) (s : WatchStatus) : WatchStatus :=
  mkStatus (ws_enabled s) path (ws_environment s) (ws_revision s) (ws_applied s) (ws_scheduled s)
    (ws_fields s) (ws_changed_at s) (ws_applied_at s) (ws_error s) (ws_source s).

Definition at_path (path digest : str) : act () :=
  _ ← modify (λ m, with_digest digest (with_path path m)); update_status (config_status path).

Definition reloadEnvironmentRevision (pf : preflight) (vars : variables) : act (str + ApplyResult) :=
  m ← get;
  let desired := environmentConfigPath vars m in
  let currentPath := m_path m in let currentDigest := m_lastDigest m in
  if negb (desired =?s currentPath) then
    persisted ← load_file desired;
    match persisted with
    | inl e => mret (inl e)
    | inr persisted =>
        runtimeCfg ← load vars desired;
        match runtimeCfg with
        | inl e => mret (inl e)
        | inr runtimeCfg =>
            digest ← fileDigest desired;
            match digest with
            | inl e => mret (inl e)
            | inr digest =>
                _ ← at_path desired digest;
                result ← apply pf persisted runtimeCfg "environment_config_path";
                match result with
                | inl e => _ ← at_path currentPath currentDigest; mret (inl e)
                | inr result => mret (inr result)
                end
            end
        end
    end
  else reload pf vars "environment_watcher".

(** The callback of [ReloadValidated]: it also notes whether a restart is needed. *)
Definition validate_revision (pf : preflight) (vars : variables) (s : cell * bool) : (cell * bool) * option str :=
  let '(r, c) := reloadEnvironmentRevision pf vars (fst s) in
  match r with inl e => ((c, false), Some e) | inr result => ((c, ar_restart result), None) end.

(** The first half of a turn of [watch]: [seen] is what the digest is taken of,
    [opened_] what the reload then opens.  Only the watcher sets the snapshot, so
    a snapshot that is still there is its own. *)
Definition watch_environment (pf : preflight) (seen opened_ : node) (es : EnvFile.State) (c : cell) : EnvFile.State * cell :=
  let m := c_mgr c in
  if trim_space (m_envPath m) =?s [] then (es, c)
  else match digest_node seen with
  | inl e => (es, snd (recordError "environment_watcher" e c))
  | inr envDigest =>
      if envDigest =?s m_lastEnvDigest m then (es, c)
      else
        let installed := match m_restartEnvironmentFrom m with None => true | Some _ => false end in
        let c := if installed then snd (modify (with_snapshot (Some (EnvFile.SnapshotManagedEnvironment es))) c) else c in
        let '(es, (c, restartRequired), err) :=
          EnvFile.ReloadValidated json_string (λ _, opened_) (m_envPath m) (validate_revision pf) es (c, false) in
        let c := if installed && (bool_decide (is_Some err) || negb restartRequired) then snd (modify (with_snapshot None) c) else c in
        let c := match err with Some e => snd (recordError "environment_watcher" e c) | None => c end in
        (es, snd (modify (with_env_digest envDigest) c))
  end.

(** The second half. *)
Definition watch_config (pf : preflight) (vars : variables) : act () :=
  m ← get;
  digest ← fileDigest (m_path m);
  match digest with
  | inl e => recordError "config_watcher" e
  | inr digest =>
      if digest =?s m_lastDigest m then mret ()
      else _ ← reload pf vars "config_watcher"; modify (with_digest digest)
  end.

(** ** The run loop *)

(** [startGeneration]: the handler of a generation whose listeners are bound. *)
Definition startGeneration (pf : preflight) (cfg : Config) : str + handlerState :=
  match buildState parse_url cfg handler_clock with
  | None => inl (lit "build handler")
  | Some h =>
      let s := server cfg in let a := admin cfg in
      if tls_enabled (server_tls s) && negb (pf_keypair pf (tls_cert (server_tls s)) (tls_key (server_tls s)))
      then inl (lit "load proxy TLS certificate")
      else if negb (pf_listen pf (listen_addr s)) then inl (lit "listen proxy server")
      else if admin_enabled a && negb (pf_listen pf (admin_listen a)) then inl (lit "listen admin server")
      else inr h
  end.

(** Where [runLoop] is: about to start a generation; serving with one; taking its
    listeners down because a restart was asked for; returned. *)
Inductive phase := Starting (cfg : Config) | Running (cfg : Config) | Draining (next : Config) | Ended.

Record loop := mkLoop { l_phase : phase; l_cell : cell; l_env : EnvFile.State; l_fallback : bool }.

(** [latestRestart] *)
Definition latestRestart (current : Config) (m : Manager) : Config := default current (m_restartCh m).

(** What the admin API and the watcher do. *)
Inductive operation :=
  | OpUpdate (mutator : Config → str + Config) (source : str)
  | OpReload (source : str)
  | OpWatchEnvironment (seen opened_ : node)
  | OpWatchConfig.

Definition operate (pf : preflight) (o : operation) (es : EnvFile.State) (c : cell) : EnvFile.State * cell :=
  match o with
  | OpUpdate mutator source => (es, snd (Update pf (EnvFile.os_env es) mutator source c))
  | OpReload source => (es, snd (reload pf (EnvFile.os_env es) source c))
  | OpWatchEnvironment seen opened_ => watch_environment pf seen opened_ es c
  | OpWatchConfig => (es, snd (watch_config pf (EnvFile.os_env es) c))
  end.

Definition put (m : Manager) (c : cell) : cell := mkCell m (c_world c) (c_ticks c).

Context (url_text : URL → str) (error_text : Handler.failure → str).

(** Other programs may change files at any time; requests are served meanwhile. *)
Inductive loop_step : loop → loop → Prop :=
  | step_start pf cfg c es fb h : startGeneration pf cfg = inr h →
      loop_step (mkLoop (Starting cfg) c es fb) (mkLoop (Running cfg) (snd (Attach h cfg c)) es false)
  | step_recover pf cfg c es e recovered es' c' : startGeneration pf cfg = inl e →
      RecoverFailedRestart e es c = ((inr recovered, es'), c') →
      loop_step (mkLoop (Starting cfg) c es true) (mkLoop (Starting recovered) c' es' false)
  | step_recover_failed pf cfg c es e e' es' c' : startGeneration pf cfg = inl e →
      RecoverFailedRestart e es c = ((inl e', es'), c') →
      loop_step (mkLoop (Starting cfg) c es true) (mkLoop Ended c' es' false)
  | step_start_failed pf cfg c es e : startGeneration pf cfg = inl e →
      loop_step (mkLoop (Starting cfg) c es false) (mkLoop Ended c es false)
  | step_stop cfg c es fb : loop_step (mkLoop (Running cfg) c es fb) (mkLoop Ended c es fb)
  | step_take cfg c es fb next : m_restartCh (c_mgr c) = Some next →
      loop_step (mkLoop (Running cfg) c es fb) (mkLoop (Draining next) (put (with_restart None (c_mgr c)) c) es fb)
  | step_drained next c es fb :
      loop_step (mkLoop (Draining next) c es fb)
        (mkLoop (Starting (latestRestart next (c_mgr c))) (put (with_restart None (c_mgr c)) c) es true)
  | step_drain_failed next c es fb : loop_step (mkLoop (Draining next) c es fb) (mkLoop Ended c es fb)
  | step_operate pf o ph c es fb es' c' : ph ≠ Ended → operate pf o es c = (es', c') →
      loop_step (mkLoop ph c es fb) (mkLoop ph c' es' fb)
  | step_serve cfg c es fb e req h out : m_handler (c_mgr c) = Some h → ServeHTTP url_text error_text e req h = Some out →
      loop_step (mkLoop (Running cfg) c es fb) (mkLoop (Running cfg) (put (with_handler (Some (sv_state out)) (c_mgr c)) c) es fb)
  | step_disk ph c es fb d fs : loop_step (mkLoop ph c es fb) (mkLoop ph (mkCell (c_mgr c) (mkWorld d fs (history (c_world c))) (c_ticks c)) es fb).

(** [runLoop] from its start, with the configuration it is given. *)
Definition initial (m : Manager) (cfg : Config) (w : world) (es : EnvFile.State) : loop :=
  mkLoop (Starting cfg) (mkCell m w 0) es false.

End control.
End Control.
