(* ===== verification/ControlFacts.v ===== *)
(** * What the control plane guarantees

    Specifications of the operations over the manager's state, whatever the file
    system does, and the invariant of the run loop: what runs is what the manager
    says, and all of it was validated. *)

From S2P Require Import Prelude GoStr GoPath GoHttp GoText GoCodec GoFloat NetIP GoOS Config ConfigValidate ConfigFacts ConfigStable ConfigEnv ConfigPersist ConfigPersistFacts EnvFile EnvFileFacts CachePolicy ProxyHeaders ClientIP Upstream Cache Handler Generation Control.

Module ControlFacts.
Import Persistence Generation Control.

(** ** Specifications *)

(** From the manager [m0], [a] ends with [Q], in every world. *)
Definition spec {A : Type} (m0 : Manager) (a : act A) (Q : A → Manager → Prop) : Prop := ∀ c, c_mgr c = m0 →
  match a c with (x, c') => Q x (c_mgr c') end.

Lemma spec_ret {A : Type} m0 (x : A) (Q : A → Manager → Prop) : Q x m0 → spec m0 (mret x) Q.
Proof. by intros H c <-. Qed.
Lemma spec_bind {A B : Type} m0 (a : act A) (f : A → act B) (Q : A → Manager → Prop) (Q' : B → Manager → Prop) :
  spec m0 a Q → (∀ x m, Q x m → spec m (f x) Q') → spec m0 (a ≫= f) Q'.
Proof.
  intros Ha Hf c Hc. unfold mbind, act_bind. specialize (Ha c Hc). destruct (a c) as [x c1]. specialize (Hf x _ Ha c1 eq_refl). by destruct (f x c1).
Qed.
Lemma spec_weaken {A : Type} m0 (a : act A) (Q Q' : A → Manager → Prop) : spec m0 a Q → (∀ x m, Q x m → Q' x m) → spec m0 a Q'.
Proof. intros Ha H c Hc. specialize (Ha c Hc). destruct (a c). by apply H. Qed.
Lemma spec_run {A : Type} (a : act A) Q c : spec (c_mgr c) a Q → Q (a c).1 (c_mgr (a c).2).
Proof. intros H. specialize (H c eq_refl). by destruct (a c). Qed.

Lemma spec_get {B : Type} m0 (f : Manager → act B) Q : spec m0 (f m0) Q → spec m0 (get ≫= f) Q.
Proof. intros H c <-. exact (H c eq_refl). Qed.
Lemma spec_modify {B : Type} m0 g (f : () → act B) Q : spec (g m0) (f tt) Q → spec m0 (modify g ≫= f) Q.
Proof. intros H c <-. by apply (H (mkCell (g (c_mgr c)) (c_world c) (c_ticks c))). Qed.
Lemma spec_modify_end m0 g (Q : () → Manager → Prop) : Q tt (g m0) → spec m0 (modify g) Q.
Proof. by intros H c <-. Qed.
Lemma spec_lift {A B : Type} m0 (m : sys A) (P : A → Prop) (f : A → act B) Q : (∀ w, P (m w).1) → (∀ x, P x → spec m0 (f x) Q) → spec m0 (lift m ≫= f) Q.
Proof.
  intros Hm Hf c <-. unfold mbind, act_bind, lift. specialize (Hm (c_world c)). destruct (m (c_world c)) as [x w].
  exact (Hf x Hm (mkCell (c_mgr c) w (c_ticks c)) eq_refl).
Qed.
Lemma spec_fresh {B : Type} m0 (f : nat → act B) Q : (∀ n, spec m0 (f n) Q) → spec m0 (fresh ≫= f) Q.
Proof. intros H c <-. exact (H (c_ticks c) (mkCell (c_mgr c) (c_world c) (S (c_ticks c))) eq_refl). Qed.
Lemma bind_assoc {A B C : Type} m0 (a : act A) (f : A → act B) (g : B → act C) Q :
  spec m0 (a ≫= λ x, f x ≫= g) Q → spec m0 ((a ≫= f) ≫= g) Q.
Proof. intros H c Hc. specialize (H c Hc). revert H. unfold mbind, act_bind. destruct (a c) as [x c']. by destruct (f x c'). Qed.
Lemma ret_bind {A B : Type} m0 (x : A) (f : A → act B) Q : spec m0 (f x) Q → spec m0 (mret x ≫= f) Q.
Proof. intros H. exact H. Qed.

(** ** What the operations may change *)

Section facts.
Context {U : Unicode} {N : NetURL} {T : HttpTime} {SH : Sha256} {FM : FloatMath} {R : Resolve} {MR : MapRange}.
Context (encode : Config → option str) (decode : str → option Config) (windows : bool).
Context (json_string : str → option str) (parse_url : str → option URL).
Context (clock stamp rand : nat → str) (handler_clock : nat → Z).

(** A configuration that came out of validation. *)
Definition validated (c : Config) : Prop := ∃ c0, Facts.accepted c0 c.

(** Only the status and the digests differ. *)
Record kept (m m' : Manager) : Prop := {
  k_path : m_path m' = m_path m; k_default : m_defaultPath m' = m_defaultPath m; k_envPath : m_envPath m' = m_envPath m;
  k_allow : m_allowEnvPath m' = m_allowEnvPath m; k_handler : m_handler m' = m_handler m; k_current : m_current m' = m_current m;
  k_persisted : m_persisted m' = m_persisted m; k_healthyPath : m_healthyPath m' = m_healthyPath m;
  k_healthy : m_healthyConfig m' = m_healthyConfig m; k_restart : m_restartCh m' = m_restartCh m;
  k_snapshot : m_restartEnvironmentFrom m' = m_restartEnvironmentFrom m }.

#[export] Instance kept_refl : Reflexive kept.
Proof. by intros m; split. Qed.
#[export] Instance kept_trans : Transitive kept.
Proof. intros m1 m2 m3 [] []. split; congruence. Qed.

(** A configuration is applied in place, or asks for a restart. *)
Record hot (m : Manager) (persisted next : Config) (m' : Manager) : Prop := {
  hot_fields : restartRequiredChanges (m_current m) next = [];
  hot_handler : ∃ h h', m_handler m = Some h ∧ Reload parse_url next handler_clock h = (h', true) ∧ m_handler m' = Some h';
  hot_current : m_current m' = next; hot_persisted : m_persisted m' = persisted;
  hot_healthy : m_healthyConfig m' = persisted; hot_path : m_path m' = m_path m; hot_healthyPath : m_healthyPath m' = m_path m;
  hot_restart : m_restartCh m' = m_restartCh m; hot_snapshot : m_restartEnvironmentFrom m' = m_restartEnvironmentFrom m }.

Record cold (m : Manager) (persisted next : Config) (m' : Manager) : Prop := {
  cold_fields : restartRequiredChanges (m_current m) next ≠ [];
  cold_handler : m_handler m' = m_handler m; cold_current : m_current m' = m_current m; cold_persisted : m_persisted m' = persisted;
  cold_healthy : m_healthyConfig m' = m_healthyConfig m; cold_path : m_path m' = m_path m; cold_healthyPath : m_healthyPath m' = m_healthyPath m;
  cold_restart : m_restartCh m' = Some next; cold_snapshot : m_restartEnvironmentFrom m' = m_restartEnvironmentFrom m }.

Definition applied (m : Manager) (persisted next : Config) (r : str + ApplyResult) (m' : Manager) : Prop :=
  match r with
  | inl _ => kept m m'
  | inr res => ar_restart res = false ∧ hot m persisted next m' ∨ ar_restart res = true ∧ cold m persisted next m'
  end.

(** The outcome of an operation that gets a configuration from the outside. *)
Definition outcome_ok (m : Manager) (r : str + ApplyResult) (m' : Manager) : Prop :=
  match r with
  | inl _ => kept m m'
  | inr res => ∃ persisted next, validated persisted ∧ validated next
      ∧ (ar_restart res = false ∧ hot m persisted next m' ∨ ar_restart res = true ∧ cold m persisted next m')
  end.

Lemma kept_status m s : kept m (with_status s m).
Proof. by split. Qed.
Lemma kept_digest m d : kept m (with_digest d m).
Proof. by split. Qed.
Lemma kept_env_digest m d : kept m (with_env_digest d m).
Proof. by split. Qed.

Lemma hot_kept m persisted next m1 m2 m3 : kept m m1 → hot m1 persisted next m2 → kept m2 m3 → hot m persisted next m3.
Proof.
  intros [] [Hf (h & h' & H1 & H2 & H3) ? ? ? ? ? ? ?] []. split; try congruence. exists h, h'. split_and!; congruence.
Qed.
Lemma cold_kept m persisted next m1 m2 m3 : kept m m1 → cold m1 persisted next m2 → kept m2 m3 → cold m persisted next m3.
Proof. intros [] [] []. split; congruence. Qed.

Lemma outcome_kept m m1 r m2 m3 : kept m m1 → outcome_ok m1 r m2 → kept m2 m3 → outcome_ok m r m3.
Proof.
  intros H1 H2 H3. destruct r as [e|res]; cbn [outcome_ok] in *; [by do 2 (etrans; [done|])|].
  destruct H2 as (p & n & Hp & Hn & [[Hr H]|[Hr H]]); exists p, n; split_and!; try done; [left|right];
    (split; [done|]); [by eapply hot_kept|by eapply cold_kept].
Qed.

(** ** The operations *)

Lemma now_bind {B : Type} m0 (f : str → act B) Q : (∀ t, spec m0 (f t) Q) → spec m0 (now clock ≫= f) Q.
Proof. intros H. unfold now. apply bind_assoc, spec_fresh. intros n. apply ret_bind, H. Qed.

Lemma recordError_spec m0 source err : spec m0 (recordError clock source err) (λ _, kept m0).
Proof.
  unfold recordError. apply spec_get. destruct (_ && _); [by apply spec_ret|]. apply now_bind. intros t. unfold update_status.
  apply spec_modify_end, kept_status.
Qed.
Lemma fail_with_spec {A : Type} m0 source err : spec m0 (fail_with clock source err) (λ r m, (∃ e, r = @inl str A e) ∧ kept m0 m).
Proof.
  unfold fail_with. eapply spec_bind; [apply recordError_spec|]. cbn beta. intros _ m Hm. apply spec_ret. split; [by eexists|done].
Qed.

Lemma fail_with_outcome m0 m source err : kept m0 m → spec m (fail_with clock source err) (outcome_ok m0).
Proof. intros Hm. eapply spec_weaken; [apply fail_with_spec|]. intros r m' [[e ->] Hk]. cbn. by etrans. Qed.

Lemma applied_outcome m persisted next r m' : validated persisted → validated next → applied m persisted next r m' → outcome_ok m r m'.
Proof. intros Hp Hn. destruct r; [done|]. intros H. by exists persisted, next. Qed.

Lemma fail_with_applied m0 m p n source err : kept m0 m → spec m (fail_with clock source err) (applied m0 p n).
Proof. intros Hm. eapply spec_weaken; [apply fail_with_spec|]. intros r m' [[e ->] Hk]. cbn. by etrans. Qed.

Lemma apply_spec m0 pf persisted next source :
  spec m0 (apply parse_url clock handler_clock pf persisted next source) (applied m0 persisted next).
Proof.
  unfold apply. apply spec_get. cbv zeta. apply now_bind. intros t. unfold update_status at 1. apply spec_modify. apply spec_get.
  set (m1 := with_status _ m0). assert (kept m0 m1) as Hk by apply kept_status.
  destruct (restartRequiredChanges (m_current m0) next) as [|f fs] eqn:Ef.
  - assert (m_handler m1 = m_handler m0) as Hh by done. destruct (m_handler m0) as [h|] eqn:Eh; [|by apply fail_with_applied].
    destruct (Reload parse_url next handler_clock h) as [h' ok] eqn:Er. destruct ok; cbn [negb]; [|by apply fail_with_applied].
    apply spec_modify, now_bind. intros t'. unfold update_status. apply spec_modify, spec_ret. left.
    split; [done|]. split; try done. exists h, h'. by rewrite Eh.
  - destruct (validateRestartCandidate _ _ _); [|by apply fail_with_applied]. unfold update_status. do 3 apply spec_modify. apply spec_ret. right. split; [done|]. split; try done. by rewrite Ef.
Qed.

Lemma apply_outcome m0 pf persisted next source : validated persisted → validated next →
  spec m0 (apply parse_url clock handler_clock pf persisted next source) (outcome_ok m0).
Proof. intros Hp Hn. eapply spec_weaken; [apply apply_spec|]. intros r m. by apply applied_outcome. Qed.

Lemma LoadFile_validated path w : match (LoadFile decode path w).1 with inl _ => True | inr c => validated c end.
Proof.
  unfold LoadFile, readConfigForLoad, mbind, sys_bind, mret, sys_ret.
  destruct (look path w) as [f w1]. destruct f as [| |e]; cbn [fst].
  all: try (destruct (look (staging_name path) w1) as [g w2]).
  all: destruct (bounded _) as [data|]; [|done]; cbn [fmap option_fmap option_map]; destruct (decode data) as [cfg|]; [|done];
    cbn [doc_validate edge_document] in *; destruct (Validation.Validate cfg) as [[|] cfg'] eqn:Ev; [|done].
  all: try (by exists cfg). destruct (rename _ _ _) as [[] ?]; [by exists cfg|done].
Qed.

Lemma load_file_bind {B : Type} m0 path (f : str + Config → act B) Q :
  (∀ r, match r with inl _ => True | inr c => validated c end → spec m0 (f r) Q) → spec m0 (load_file decode path ≫= f) Q.
Proof. intros H. eapply spec_lift; [|exact H]. apply LoadFile_validated. Qed.

Lemma load_bind {B : Type} m0 vars path (f : str + Config → act B) Q :
  (∀ r, match r with inl _ => True | inr c => validated c end → spec m0 (f r) Q) → spec m0 (load decode vars path ≫= f) Q.
Proof.
  intros H. eapply spec_lift; [|exact H]. intros w. unfold Load, mbind, sys_bind, mret, sys_ret.
  destruct (LoadFile decode path w) as [[e|cfg] w1]; [done|]. cbn [fst doc_overrides edge_document]. destruct (Environment.ApplyEnvironmentOverrides _ _) as [|cfg']; [done|].
  cbn [doc_validate edge_document] in *; destruct (Validation.Validate cfg') as [[|] c] eqn:Ev; [|done]. by exists cfg'.
Qed.

Lemma save_bind {B : Type} m0 path cfg (f : option str → act B) Q :
  (∀ r, spec m0 (f r) Q) → spec m0 (save encode windows stamp rand path cfg ≫= f) Q.
Proof. intros H. unfold save. apply bind_assoc, spec_fresh. intros n. by apply (spec_lift _ _ (λ _, True)). Qed.
Lemma digest_bind {B : Type} m0 path (f : str + str → act B) Q : (∀ r, spec m0 (f r) Q) → spec m0 (fileDigest path ≫= f) Q.
Proof. intros H. unfold fileDigest. apply bind_assoc, (spec_lift _ _ (λ _, True)); [done|]. intros x _. apply ret_bind, H. Qed.

Lemma reload_spec m0 pf vars source : spec m0 (reload decode parse_url clock handler_clock pf vars source) (outcome_ok m0).
Proof.
  unfold reload. apply spec_get, load_file_bind. intros [e|persisted] Hp; [by apply fail_with_outcome|].
  destruct (Environment.ValidateEnvironmentManagedChanges _ _ _); [by apply fail_with_outcome|]. apply load_bind.
  intros [e|next] Hn; [by apply fail_with_outcome|]. by apply apply_outcome.
Qed.

Lemma rollback_spec m0 previous : spec m0 (rollbackPersistedUpdate encode windows stamp rand previous) (λ _, kept m0).
Proof.
  unfold rollbackPersistedUpdate. apply spec_get, save_bind. intros [e|]; [by apply spec_ret|]. apply digest_bind. intros [e|d]; [by apply spec_ret|].
  apply spec_modify, spec_ret, kept_digest.
Qed.

Lemma Update_spec m0 pf vars mutator source :
  spec m0 (Update encode decode windows parse_url clock stamp rand handler_clock pf vars mutator source) (outcome_ok m0).
Proof.
  unfold Update. apply spec_get. cbv zeta. destruct (mutator (m_persisted m0)) as [e|candidate0]; [by apply spec_ret|].
  set (candidate := if _ =?s _ then _ else _). destruct (Environment.ValidateEnvironmentManagedChanges _ _ _); [by apply spec_ret|].
  destruct (Validation.Validate candidate) as [[|e es] candidate'] eqn:Ev; [|by apply spec_ret]. apply save_bind. intros [e|]; [by apply spec_ret|].
  assert (∀ m e, kept m0 m → spec m (rollbackPersistedUpdate encode windows stamp rand (m_persisted m0) ≫= λ r, mret (inl (joined e r))) (outcome_ok m0)) as Hroll.
  { intros m e Hm. eapply spec_bind; [apply rollback_spec|]. cbn beta. intros r m' Hk. apply spec_ret. cbn. by etrans. }
  apply load_bind. intros [e|next] Hn; [by apply Hroll|]. eapply spec_bind; [apply apply_outcome; [by exists candidate|done]|].
  intros [e|res] m Hm; cbn [outcome_ok] in Hm; [by apply Hroll|]. apply digest_bind. intros r.
  apply (spec_bind _ _ _ (λ _, kept m)).
  { destruct r; [by apply spec_ret|]. apply spec_modify_end, kept_digest. }
  intros _ m' Hk. apply spec_ret. by apply (outcome_kept m0 m0 (inr res) m m').
Qed.

Lemma outcome_path p m0 m r m' : kept (with_path p m0) m → outcome_ok m r m' → outcome_ok (with_path p m0) r m'.
Proof. intros H1 H2. by eapply outcome_kept. Qed.

(** The outcome of an operation that may also move to another file. *)
Definition moved_ok (m : Manager) (r : str + ApplyResult) (m' : Manager) : Prop :=
  match r with inl _ => kept m m' | inr _ => ∃ p, outcome_ok (with_path p m) r m' end.

Lemma revision_spec m0 pf vars :
  spec m0 (reloadEnvironmentRevision decode parse_url clock handler_clock pf vars) (moved_ok m0).
Proof.
  unfold reloadEnvironmentRevision. apply spec_get. cbv zeta. set (desired := environmentConfigPath vars m0).
  destruct (negb (desired =?s m_path m0)); cycle 1.
  { eapply spec_weaken; [apply reload_spec|]. intros [e|res] m H; [done|]. exists (m_path m0). by destruct m0. }
  apply load_file_bind. intros [e|persisted] Hp; [by apply spec_ret|]. apply load_bind. intros [e|next] Hn; [by apply spec_ret|].
  apply digest_bind. intros [e|d]; [by apply spec_ret|]. unfold at_path, update_status. apply bind_assoc. do 2 apply spec_modify.
  set (m1 := with_status _ _). eapply spec_bind; [by apply apply_outcome|]. intros [e|res] m2 Hm2.
  - apply bind_assoc. do 2 apply spec_modify. apply spec_ret. cbn [outcome_ok moved_ok] in *. destruct Hm2. by split.
  - apply spec_ret. exists desired. by apply (outcome_path _ _ m1).
Qed.

(** ** The invariant *)

(** Everything that runs, or may run, was validated. *)
Record good (m : Manager) : Prop := {
  g_current : validated (m_current m); g_persisted : validated (m_persisted m); g_healthy : validated (m_healthyConfig m);
  g_restart : ∀ c, m_restartCh m = Some c → validated c }.

(** The process was started with [g] and works as [m] says: the listeners are
    those of the current configuration, and the handler serves its routes. *)
Definition runs (g : Config) (m : Manager) : Prop :=
  restartRequiredChanges g (m_current m) = [] ∧ ∃ h, m_handler m = Some h ∧ serves (m_current m) h.

Definition fit (g : option Config) (m : Manager) : Prop := good m ∧ match g with None => True | Some g => runs g m end.

Lemma changed_nil name b : changed_field name b = [] ↔ b = false.
Proof. by destruct b. Qed.

(** What a restart is needed for, as one value. *)
Definition listeners (c : Config) :=
  (listen_addr (server c), server_tls (server c), server_timeouts (server c), admin c).

Lemma restart_fields c c' : restartRequiredChanges c c' = [] ↔ listeners c = listeners c'.
Proof.
  unfold restartRequiredChanges, listeners. cbv zeta. split.
  - intros H. repeat match type of H with _ ++ _ = [] => let Hi := fresh "H" in apply app_eq_nil in H as [Hi H] end.
    repeat match goal with H : changed_field _ _ = [] |- _ => apply changed_nil, negb_false_iff in H end.
    repeat match goal with H : bool_decide _ = true |- _ => apply bool_decide_eq_true in H | H : (_ =?s _) = true |- _ => apply eqs_true in H
      | H : eqb _ _ = true |- _ => apply eqb_prop in H end.
    destruct (admin c), (admin c'). cbn in *. congruence.
  - intros [[[E1 E2]%pair_equal_spec E3]%pair_equal_spec E4]%pair_equal_spec. rewrite E1, E2, E3, E4. rewrite !eqs_refl, !bool_decide_eq_true_2, eqb_reflx by done. done.
Qed.

Lemma validated_names c : validated c → NoDup (route_name <$> routes c).
Proof.
  intros [c0 H]. apply Facts.Validate_ok in H as [_ _ _ _ Hn _]. apply (NoDup_fmap_1 to_lower). by rewrite <- list_fmap_compose.
Qed.

Lemma fit_kept g m m' : fit g m → kept m m' → fit g m'.
Proof.
  intros [[H1 H2 H3 H4] Hg] []. split; [split; by rewrite ?k_current0, ?k_persisted0, ?k_healthy0, ?k_restart0|].
  destruct g as [g|]; [|done]. unfold runs in *. by rewrite k_current0, k_handler0.
Qed.

Lemma fit_path g m p : fit g m → fit g (with_path p m).
Proof. intros [[] Hg]. by split. Qed.
Lemma fit_snapshot g m s : fit g m → fit g (with_snapshot s m).
Proof. intros [[] Hg]. by split. Qed.
Lemma fit_restart g m : fit g m → fit g (with_restart None m).
Proof. intros [[] Hg]. by split. Qed.

Lemma Reload_serves c h h' : validated c → Reload parse_url c handler_clock h = (h', true) → serves c h'.
Proof.
  intros Hc. unfold Reload. destruct (buildState parse_url c handler_clock) as [h1|] eqn:E; [|done]. intros [= <-].
  eapply buildState_serves; [by apply validated_names|exact E].
Qed.

Lemma fit_outcome g m r m' : fit g m → outcome_ok m r m' → fit g m'.
Proof.
  intros Hf. destruct r as [e|res]; cbn [outcome_ok]; [by apply fit_kept|]. destruct Hf as [[H1 H2 H3 H4] Hg].
  intros (p & n & Hp & Hn & [[_ H]|[_ H]]); destruct H.
  - split; [split; by rewrite ?hot_current0, ?hot_persisted0, ?hot_healthy0, ?hot_restart0|]. destruct g as [g|]; [|done]. destruct Hg as [Hg _]. destruct hot_handler0 as (h & h' & E1 & E2 & E3). split.
    + apply restart_fields. apply restart_fields in hot_fields0, Hg. congruence.
    + exists h'. split; [done|]. rewrite hot_current0. by eapply Reload_serves.
  - split; [split; rewrite ?cold_current0, ?cold_persisted0, ?cold_healthy0, ?cold_restart0; try done; by intros c [= <-]|].
    destruct g as [g|]; [|done]. unfold runs in *. by rewrite cold_current0, cold_handler0.
Qed.

Lemma fit_moved g m r m' : fit g m → moved_ok m r m' → fit g m'.
Proof. intros Hf. destruct r; cbn [moved_ok]; [by apply fit_kept|]. intros [p Hp]. by eapply fit_outcome; [apply fit_path|]. Qed.

Lemma fit_run {A : Type} g (a : act A) (Q : A → Manager → Prop) c : spec (c_mgr c) a Q → (∀ x m, Q x m → fit g m) → fit g (c_mgr (a c).2).
Proof. intros Ha HQ. apply (HQ (a c).1). by apply (spec_run a Q). Qed.

Lemma loadFile_state {M : Type} (file : option opened) (rel : bool) (validate : variables → M → M * option str) s (m : M) :
  let m' := (EnvFile.loadFile json_string file rel validate s m).1.2 in m' = m ∨ ∃ vars, m' = (validate vars m).1.
Proof.
  cbv zeta. unfold EnvFile.loadFile. destruct (EnvFile.readValues json_string file); [by left|]. cbv zeta. destruct (EnvFile.set_steps _ _) as [t [|]]; [|by left].
  right. exists (EnvFile.os_env (EnvFile.tx_state t)). cbn [negb]. by destruct (validate _ m) as [m1 [|]].
Qed.

Abbreviation operate' := (operate encode decode windows json_string parse_url clock stamp rand handler_clock).

Lemma fit_operate g pf o es c : fit g (c_mgr c) → fit g (c_mgr (operate' pf o es c).2).
Proof.
  intros Hf. destruct o as [mutator source|source|seen opened_|]; cbn [operate snd].
  - eapply fit_run; [apply Update_spec|]. intros r m. by apply fit_outcome.
  - eapply fit_run; [apply reload_spec|]. intros r m. by apply fit_outcome.
  - unfold watch_environment. destruct (trim_space _ =?s []); [done|].
    assert (∀ e c, fit g (c_mgr c) → fit g (c_mgr (recordError clock "environment_watcher" e c).2)) as Herr.
    { intros e c1 H1. eapply fit_run; [apply recordError_spec|]. intros [] m. by apply fit_kept. }
    destruct (digest_node seen) as [e|d]; [by apply Herr|]. destruct (d =?s _); [done|]. cbv zeta.
    set (installed := match m_restartEnvironmentFrom (c_mgr c) with None => true | _ => false end).
    set (c1 := if installed then _ else c). assert (fit g (c_mgr c1)) as H1 by (unfold c1; destruct installed; [by apply fit_snapshot|done]).
    destruct (EnvFile.ReloadValidated _ _ _ _ es (c1, false)) as [[es2 [c2 rr]] err] eqn:E.
    assert (fit g (c_mgr c2)) as H2.
    { assert ((c2, rr) = (c1, false) ∨ ∃ vars, (c2, rr) = (validate_revision decode parse_url clock handler_clock pf vars (c1, false)).1) as Hc.
      { unfold EnvFile.ReloadValidated in E. destruct (trim_space _ =?s []).
        - destruct (validate_revision _ _ _ _ _ _ _) as [m e] eqn:Ev. injection E as <- -> <-. right. eexists. by rewrite Ev.
        - match type of E with EnvFile.loadFile _ ?file ?rel ?v ?s ?m = _ => pose proof (loadFile_state file rel v s m) as Hl end.
          by rewrite E in Hl. }
      destruct Hc as [[= -> ->]|[vars Hc]]; [done|]. unfold validate_revision in Hc. cbn [fst] in Hc.
      pose proof (spec_run _ _ c1 (revision_spec (c_mgr c1) pf vars)) as Hs.
      destruct (reloadEnvironmentRevision _ _ _ _ _ _ c1) as [r c3]. cbn [fst snd] in Hs.
      assert (c2 = c3) as -> by (by destruct r; injection Hc as -> ->). by apply (fit_moved _ _ _ _ H1 Hs). }
    cbn [snd]. set (c3 := if _ && _ then _ else c2). assert (fit g (c_mgr c3)) as H3 by (unfold c3; destruct (_ && _); [by apply fit_snapshot|done]).
    set (c4 := match err with Some _ => _ | None => _ end). assert (fit g (c_mgr c4)) as H4 by (unfold c4; destruct err; [by apply Herr|done]).
    by apply (fit_kept _ _ _ H4), kept_env_digest.
  - eapply (fit_run _ _ (λ _ m, fit g m)); [|by intros]. unfold watch_config. apply spec_get, digest_bind. intros [e|d].
    { eapply spec_weaken; [apply recordError_spec|]. intros [] m. by apply fit_kept. }
    destruct (d =?s _); [by apply spec_ret|]. eapply spec_bind; [apply reload_spec|]. intros r m Hr. apply spec_modify_end.
    eapply fit_kept; [by eapply fit_outcome|apply kept_digest].
Qed.

(** ** The run loop *)

Lemma Attach_spec m0 h cfg : spec m0 (Attach clock h cfg)
  (λ _ m, m_handler m = Some h ∧ m_current m = cfg ∧ m_persisted m = m_persisted m0 ∧ m_healthyConfig m = m_persisted m0
          ∧ m_restartCh m = m_restartCh m0 ∧ m_healthyPath m = m_path m0 ∧ m_restartEnvironmentFrom m = None).
Proof. unfold Attach. apply spec_modify, now_bind. intros t. unfold update_status. apply spec_modify, spec_modify_end. done. Qed.

(** A recovery that works: the healthy generation is what is current and what is
    persisted, and no restart is pending. *)
Definition recovered (m0 : Manager) (r : Config) (m : Manager) : Prop :=
  r = m_current m0 ∧ m_current m = m_current m0 ∧ m_persisted m = m_healthyConfig m0 ∧ m_healthyConfig m = m_healthyConfig m0
  ∧ m_path m = m_healthyPath m0 ∧ m_healthyPath m = m_healthyPath m0 ∧ m_restartCh m = None ∧ m_restartEnvironmentFrom m = None
  ∧ ws_scheduled (m_status m) = false.

Lemma Recover_spec m0 cause es : spec m0 (RecoverFailedRestart encode windows clock stamp rand cause es)
  (λ r m, match r.1 with inl _ => m = m0 | inr c => recovered m0 c m end
          ∧ r.2 = match m_restartEnvironmentFrom m0 with Some s => (EnvFile.RestoreManagedEnvironment s es).1 | None => es end).
Proof.
  unfold RecoverFailedRestart. apply spec_get.
  assert (∃ failed, match m_restartEnvironmentFrom m0 with Some s => EnvFile.RestoreManagedEnvironment s es | None => (es, None) end
    = (match m_restartEnvironmentFrom m0 with Some s => (EnvFile.RestoreManagedEnvironment s es).1 | None => es end, failed)) as [failed ->].
  { destruct (m_restartEnvironmentFrom m0); [|by eexists]. destruct (EnvFile.RestoreManagedEnvironment _ _). by eexists. }
  destruct failed as [e|]; [by apply spec_ret|]. apply spec_get. cbv zeta. destruct (trim_space _ =?s []); [by apply spec_ret|].
  apply save_bind. intros [e|]; [by apply spec_ret|]. apply digest_bind. intros [e|d]; [by apply spec_ret|]. apply now_bind. intros t.
  unfold update_status. do 3 apply spec_modify. by apply spec_ret.
Qed.

(** ** The file of an update *)

(** What a start would load, in a world. *)
Abbreviation on_disk path c := (PersistFacts.restart decode path (disk (c_world c))).

(** The node of the file system that a start reads. *)
Abbreviation file_node path c := (PersistFacts.current_file path (disk (c_world c))).

(** The file holds [cfg], as the validation that is part of [Save] leaves it. *)
Definition file_holds (path : str) (cfg : Config) (c : cell) : Prop := ∃ saved,
  PersistFacts.stored decode path (disk (c_world c)) = Some saved ∧ Facts.accepted cfg saved.

(** Where nothing is changed by that, a start loads what was saved. *)
Lemma holds_loads path cfg c : file_holds path cfg c → Facts.accepted cfg cfg → on_disk path c = inr cfg.
Proof.
  intros (saved & Hs & Ha) Hc. unfold Facts.accepted in Ha, Hc. rewrite Hc in Ha. apply pair_equal_spec in Ha as [_ <-].
  rewrite (PersistFacts.restart_stored _ _ _ _ Hs). change (doc_validate cfg) with (Validation.Validate cfg). by rewrite Hc.
Qed.

(** ** Steps that leave the files alone *)

Definition silent {A : Type} (a : act A) : Prop := ∀ c, disk (c_world (a c).2) = disk (c_world c).

Lemma silent_ret {A : Type} (x : A) : silent (mret x).
Proof. done. Qed.
Lemma silent_bind {A B : Type} (a : act A) (f : A → act B) : silent a → (∀ x, silent (f x)) → silent (a ≫= f).
Proof. intros Ha Hf c. unfold mbind, act_bind. specialize (Ha c). destruct (a c) as [x c1]. cbn [snd] in Ha. by rewrite Hf. Qed.
Lemma silent_modify g : silent (modify g).
Proof. done. Qed.
Lemma silent_get : silent get.
Proof. done. Qed.
Lemma silent_fresh : silent fresh.
Proof. done. Qed.
Lemma silent_digest path : silent (fileDigest path).
Proof.
  apply silent_bind; [|intros x; apply silent_ret]. intros c. unfold lift. pose proof (PersistFacts.look_disk path (c_world c)) as H. by destruct (look path (c_world c)).
Qed.

Ltac silent := repeat (first
  [ apply silent_bind; [|intros ?] | apply silent_ret | apply silent_modify | apply silent_get | apply silent_fresh | apply silent_digest
  | match goal with |- silent (match ?x with _ => _ end) => destruct x end ]).

Lemma silent_record source err : silent (recordError clock source err).
Proof. unfold recordError, now, update_status. silent. Qed.
Lemma silent_fail {A : Type} source err : silent (@fail_with clock A source err).
Proof. apply silent_bind; [apply silent_record|]. intros []. apply silent_ret. Qed.
Lemma silent_apply pf p n source : silent (apply parse_url clock handler_clock pf p n source).
Proof.
  unfold apply, now, update_status. silent. all: apply silent_fail.
Qed.

(** ** An update is a transaction *)

Lemma save_file path cfg c : PersistFacts.codec encode decode →
  let '(r, c') := save encode windows stamp rand path cfg c in c_mgr c' = c_mgr c
  ∧ match r with None => file_holds path cfg c' | Some _ => file_node path c' = file_node path c end.
Proof.
  intros Hcodec. unfold save, fresh, lift, mbind, act_bind. cbn [c_mgr c_world c_ticks].
  pose proof (PersistFacts.save_keeps encode windows (stamp (c_ticks c)) (rand (c_ticks c)) path cfg (c_world c) ltac:(exact I)) as Hk.
  destruct (Save _ _ _ _ _ _ (c_world c)) as [r w'] eqn:E. cbn [c_mgr c_world]. split; [done|]. destruct r as [e|]; [done|].
  destruct (PersistFacts.save_stored encode decode windows _ _ path cfg (c_world c) w' ltac:(exact I) Hcodec E) as (saved & ? & ?). by exists saved.
Qed.

(** What a start reads under the variables [vars]. *)
Definition start_loads (vars : variables) (path : str) (c : cell) : str + Config :=
  fst (Load decode (λ key, vars !! key) path (mkWorld (disk (c_world c)) [] [])).

Lemma start_loads_spec vars path c : start_loads vars path c = match on_disk path c with
  | inl e => inl e
  | inr cfg => match doc_overrides (λ key, vars !! key) cfg with
               | inl e => inl e
               | inr cfg => match doc_validate cfg with (e :: _, _) => inl e | ([], cfg) => inr cfg end
               end
  end.
Proof. unfold start_loads, PersistFacts.restart, Load, mbind, sys_bind, mret, sys_ret. by destruct (LoadFile decode path _). Qed.

Lemma load_keeps vars path c : let '(r, c') := load decode vars path c in c_mgr c' = c_mgr c ∧ file_node path c' = file_node path c
  ∧ match r with inr next => start_loads vars path c = inr next | inl _ => True end.
Proof.
  rewrite start_loads_spec. unfold load, lift, Load, mbind, sys_bind, mret, sys_ret. pose proof (PersistFacts.LoadFile_current decode path (c_world c)) as H.
  pose proof (PersistFacts.LoadFile_restart decode path (c_world c)) as Hl.
  destruct (LoadFile decode path (c_world c)) as [r w']. cbn [fst snd c_mgr c_world] in *. split; [done|]. split; [exact H|].
  destruct r as [e|cfg]; [done|]. rewrite (Hl cfg eq_refl). destruct (doc_overrides _ cfg) as [|cfg']; [done|]. by destruct (doc_validate cfg') as [[] ?].
Qed.

Definition rollback_error : str := "restore previous persisted configuration: ".

Lemma rollback_file base c : PersistFacts.codec encode decode →
  let '(r, c') := rollbackPersistedUpdate encode windows stamp rand base c in
  file_holds (m_path (c_mgr c)) base c' ∨ ∃ e, r = Some (rollback_error ++ e).
Proof.
  intros Hcodec. unfold rollbackPersistedUpdate, mbind, act_bind, get. pose proof (save_file (m_path (c_mgr c)) base c Hcodec) as Hs.
  destruct (save _ _ _ _ _ _ c) as [r c1]. destruct Hs as [Hm Hs]. destruct r as [e|]; [cbn; right; by exists e|].
  pose proof (silent_digest (m_path (c_mgr c)) c1) as Hd. destruct (fileDigest _ c1) as [[e|d] c2]; cbn [snd] in Hd; cbn; left;
    unfold file_holds; cbn [c_world]; rewrite ?Hd; exact Hs.
Qed.

(** What a mutator has made, with the token that it was not shown. *)
Definition proposed (base candidate : Config) : Config :=
  if admin_token (admin candidate) =?s redacted then with_token (admin_token (admin base)) candidate else candidate.

(** Where an update that was refused leaves the file. *)
Definition file_restored (path : str) (base : Config) (c c' : cell) (e : str) : Prop :=
  file_node path c' = file_node path c ∨ file_holds path base c' ∨ ∃ e0 e1, e = e0 ++ newline ++ rollback_error ++ e1.

(** Where an update that was accepted leaves the file and the manager: a start
    loads [next], which is in use, or a restart to it is pending. *)
Definition update_applied (vars : variables) (m : Manager) (cfg : Config) (res : ApplyResult) (c' : cell) : Prop := ∃ next,
  m_persisted (c_mgr c') = cfg ∧ file_holds (m_path m) cfg c' ∧ start_loads vars (m_path m) c' = inr next
  ∧ if ar_restart res then m_restartCh (c_mgr c') = Some next ∧ m_current (c_mgr c') = m_current m ∧ m_handler (c_mgr c') = m_handler m
    else m_current (c_mgr c') = next.

Lemma Update_outcome pf vars mutator source c : PersistFacts.codec encode decode →
  let m := c_mgr c in let base := m_persisted m in
  let '(r, c') := Update encode decode windows parse_url clock stamp rand handler_clock pf vars mutator source c in
  match r with
  | inl e => kept m (c_mgr c') ∧ file_restored (m_path m) base c c' e
  | inr res => ∃ candidate c1, mutator base = inr candidate ∧ Facts.accepted (proposed base candidate) c1
      ∧ update_applied vars m c1 res c'
  end.
Proof.
  intros Hcodec m base. pose proof (spec_run _ _ c (Update_spec (c_mgr c) pf vars mutator source)) as Hspec.
  assert (let '(r, c') := Update encode decode windows parse_url clock stamp rand handler_clock pf vars mutator source c in
    match r with
    | inl e => file_restored (m_path m) base c c' e
    | inr res => ∃ candidate c1, mutator base = inr candidate ∧ Facts.accepted (proposed base candidate) c1
        ∧ update_applied vars m c1 res c'
    end) as Hfile; cycle 1.
  { destruct (Update _ _ _ _ _ _ _ _ _ _ _ _ c) as [[e|res] c']; [by split|done]. }
  clear Hspec. unfold Update, mbind, act_bind, get. fold m. fold base. cbv zeta. destruct (mutator base) as [e|candidate0]; [by left|].
  fold (proposed base candidate0). set (candidate := proposed base candidate0). destruct (Environment.ValidateEnvironmentManagedChanges _ _ _); [by left|].
  destruct (Validation.Validate candidate) as [[|e es] c1] eqn:Ev; [|by left]. pose proof (save_file (m_path m) c1 c Hcodec) as Hs.
  destruct (save _ _ _ _ _ _ c) as [r ca]. destruct Hs as [Hma Hs]. destruct r as [e|]; [by left|].
  assert (∀ cb e, m_path (c_mgr cb) = m_path m →
    let '(r, c') := (let '(a, s) := rollbackPersistedUpdate encode windows stamp rand base cb in (inl (joined e a) : str + ApplyResult, s)) in
    match r with
    | inl e => file_restored (m_path m) base c c' e
    | inr res => ∃ candidate c1, inr candidate0 = inr (A:=str) candidate ∧ Facts.accepted (proposed base candidate) c1
        ∧ update_applied vars m c1 res c'
    end) as Hroll.
  { intros cb e Hp. pose proof (rollback_file base cb Hcodec) as Hr. rewrite Hp in Hr. destruct (rollbackPersistedUpdate _ _ _ _ _ cb) as [r c'].
    cbn. right. destruct Hr as [Hr|[e1 ->]]; [by left|]. right. by exists e, e1. }
  pose proof (load_keeps vars (m_path m) ca) as Hl. destruct (load _ _ _ ca) as [[e|next] cb] eqn:El; destruct Hl as (Hmb & Hl & Hok); [apply Hroll; by rewrite Hmb, Hma|].
  pose proof (spec_run _ _ cb (apply_spec (c_mgr cb) pf c1 next source)) as Ha.
  pose proof (silent_apply pf c1 next source cb) as Hq. destruct (apply _ _ _ _ _ _ _ cb) as [[e|res] cc]; cbn [fst snd] in Ha, Hq.
  { apply Hroll. by rewrite (k_path _ _ Ha), Hmb, Hma. }
  pose proof (silent_digest (m_path m) cc) as Hd. destruct (fileDigest _ cc) as [d cd] eqn:Ed. cbn [snd] in Hd.
  assert (c_mgr cd = c_mgr cc) as Hmd.
  { revert Ed. unfold fileDigest, lift, mbind, act_bind. destruct (look _ _) as [f w']. by intros [= _ <-]. }
  assert (update_applied vars m c1 res cd) as Ht.
  { assert (file_node (m_path m) cd = file_node (m_path m) ca) as Hn by (rewrite Hd, Hq; exact Hl). exists next. rewrite Hmd.
    split; [by destruct Ha as [[_ []]|[_ []]]|]. split; [|split].
    - destruct Hs as (saved & Hs & Hv). exists saved. split; [|done]. unfold PersistFacts.stored in *. by rewrite Hn.
    - rewrite start_loads_spec, PersistFacts.restart_spec, Hn, <- PersistFacts.restart_spec, <- start_loads_spec. exact Hok.
    - assert (m = c_mgr cb) as -> by by rewrite Hmb, Hma. destruct Ha as [[-> []]|[-> []]]; by split_and?. }
  destruct d; cbn; exists candidate0, c1; (by split_and!).
Qed.


(** ** Revisions of the dotenv file, and going back *)

Context (dep : variables).

(** What a revision that was taken has changed: the configuration is in use, or
    it waits for the restart, and then the environment before it is kept for the
    case that the restart fails. *)
Definition taken (es : EnvFile.State) (restart : bool) (m m' : Manager) : Prop := ∃ persisted next, validated persisted ∧ validated next
  ∧ m_persisted m' = persisted
  ∧ if restart
    then m_current m' = m_current m ∧ m_handler m' = m_handler m ∧ m_healthyConfig m' = m_healthyConfig m ∧ m_restartCh m' = Some next
       ∧ m_restartEnvironmentFrom m' = Some (default (EnvFile.managedValues es) (m_restartEnvironmentFrom m))
    else m_current m' = next ∧ m_restartEnvironmentFrom m' = m_restartEnvironmentFrom m ∧ m_restartCh m' = m_restartCh m.

(** What a turn decides about the dotenv file: how it reads, whether it is new,
    what it says, and what the configuration comes to under it. *)
Inductive decision := Unchanged | Refusal (e : str) | TakeRevision (es : EnvFile.State) (restart : bool).

Definition decide_revision (pf : preflight) (seen opened_ : node) (es : EnvFile.State) (c : cell) : decision :=
  let m := c_mgr c in
  if trim_space (m_envPath m) =?s [] then Unchanged
  else match digest_node seen with
       | inl e => Refusal e
       | inr digest =>
           if digest =?s m_lastEnvDigest m then Unchanged
           else match EnvFile.readValues json_string (open_node opened_) with
                | inl e => Refusal e
                | inr values =>
                    let es' := EnvFacts.state_of dep (EnvFacts.loaded dep true values (EnvFile.managedValues es)) in
                    let snapshot := default (EnvFile.managedValues es) (m_restartEnvironmentFrom m) in
                    match (reloadEnvironmentRevision decode parse_url clock handler_clock pf (EnvFile.os_env es')
                             (mkCell (with_snapshot (Some snapshot) m) (c_world c) (c_ticks c))).1 with
                    | inl _ => Refusal "validation failed"
                    | inr result => TakeRevision es' (ar_restart result)
                    end
                end
       end.

(** What the turn does accordingly. *)
Definition carried_out (es : EnvFile.State) (c : cell) (d : decision) (es' : EnvFile.State) (c' : cell) : Prop :=
  match d with
  | Unchanged => es' = es ∧ c' = c
  | Refusal e => es' = es ∧ kept (c_mgr c) (c_mgr c') ∧ ws_error (m_status (c_mgr c')) = e
  | TakeRevision next restart => es' = next ∧ taken es restart (c_mgr c) (c_mgr c')
  end.

Lemma carried_change es c d es' c' : carried_out es c d es' c' → es' ≠ es → ∃ restart, taken es restart (c_mgr c) (c_mgr c').
Proof. destruct d as [|e|next restart]; cbn; [by intros []|by intros [? _]|]. intros [_ H] _. by exists restart. Qed.

Lemma record_kept source e c : kept (c_mgr c) (c_mgr (recordError clock source e c).2).
Proof. exact (spec_run _ _ c (recordError_spec (c_mgr c) source e)). Qed.

Lemma record_told source e c : ws_error (m_status (c_mgr (recordError clock source e c).2)) = e.
Proof.
  unfold recordError, get, now, update_status, modify, mbind, act_bind. cbv beta iota zeta.
  destruct (ws_error _ =?s e) eqn:E; cbn [andb]; [|done]. apply eqs_true in E. by destruct (ws_source _ =?s source).
Qed.


(** A restart that fails is taken back.  The healthy generation runs again, with
    what was current; its file is at its path, and a start would load it; nothing
    else is pending; and the variables that came from the dotenv file are those
    of the snapshot, so a revision that asked for the restart is undone. *)
Theorem recovery_restores cause es c : PersistFacts.codec encode decode → EnvFacts.owns dep es →
  Facts.accepted (m_healthyConfig (c_mgr c)) (m_healthyConfig (c_mgr c)) →
  (∀ s, m_restartEnvironmentFrom (c_mgr c) = Some s → EnvFacts.allowed dep s) →
  let '(r, es', c') := RecoverFailedRestart encode windows clock stamp rand cause es c in
  es' = match m_restartEnvironmentFrom (c_mgr c) with Some s => EnvFacts.state_of dep s | None => es end
  ∧ match r with
    | inl _ => c_mgr c' = c_mgr c
    | inr cfg => recovered (c_mgr c) cfg (c_mgr c')
        ∧ on_disk (m_healthyPath (c_mgr c)) c' = inr (m_healthyConfig (c_mgr c))
    end.
Proof.
  intros Hcodec Hown Hok Hsnap. pose proof (spec_run _ _ c (Recover_spec (c_mgr c) cause es)) as [Hr Hes].
  assert (match m_restartEnvironmentFrom (c_mgr c) with Some s => EnvFile.RestoreManagedEnvironment s es | None => (es, None) end
    = (match m_restartEnvironmentFrom (c_mgr c) with Some s => EnvFacts.state_of dep s | None => es end, None)) as Ees.
  { destruct (m_restartEnvironmentFrom (c_mgr c)) as [s|]; [|done]. apply EnvFacts.restore_spec; [done|by apply Hsnap]. }
  assert (let '(r, _, c') := RecoverFailedRestart encode windows clock stamp rand cause es c in
    match r with inl _ => True | inr cfg => on_disk (m_healthyPath (c_mgr c)) c' = inr (m_healthyConfig (c_mgr c)) end) as Hfile.
  { unfold RecoverFailedRestart, now, fresh, update_status, modify, mbind, act_bind, mret, act_ret, get. rewrite Ees. cbv zeta. destruct (trim_space _ =?s []); [done|].
    pose proof (save_file (m_healthyPath (c_mgr c)) (m_healthyConfig (c_mgr c)) c Hcodec) as Hs. destruct (save _ _ _ _ _ _ c) as [r c1].
    destruct Hs as [_ Hs]. destruct r as [e|]; [done|]. pose proof (silent_digest (m_healthyPath (c_mgr c)) c1) as Hd.
    destruct (fileDigest _ c1) as [[e|d] c2]; cbn [snd] in Hd; [done|]. apply holds_loads; [|exact Hok]. unfold file_holds. cbn [c_world]. by rewrite Hd. }
  destruct (RecoverFailedRestart _ _ _ _ _ _ _ c) as [[r es'] c']. cbn [fst snd] in *. split.
  - rewrite Hes. destruct (m_restartEnvironmentFrom (c_mgr c)) as [s|]; [|done]. apply (f_equal fst) in Ees. exact Ees.
  - destruct r; [done|by split].
Qed.

Context (url_text : URL → str) (error_text : Handler.failure → str).

Abbreviation loop_step' := (loop_step encode decode windows json_string parse_url clock stamp rand handler_clock url_text error_text).

Definition loop_inv (l : loop) : Prop :=
  let m := c_mgr (l_cell l) in
  match l_phase l with
  | Starting cfg => fit None m ∧ validated cfg
  | Running g => fit (Some g) m ∧ validated g
  | Draining next => fit None m ∧ validated next
  | Ended => fit None m
  end.

Lemma fit_weaken g m : fit g m → fit None m.
Proof. by intros [H _]. Qed.

Lemma loop_inv_step l l' : loop_inv l → loop_step' l l' → loop_inv l'.
Proof.
  intros Hi Hs. destruct Hs; unfold loop_inv in *; cbn [l_phase l_cell] in *.
  - destruct Hi as [[[H1 H2 H3 H4] _] Hc]. split; [|done].
    pose proof (spec_run _ _ c (Attach_spec (c_mgr c) h cfg)) as (E1 & E2 & E3 & E4 & E5 & _ & _). split; [split; rewrite ?E2, ?E3, ?E4, ?E5; done|].
    split; [rewrite E2; by apply restart_fields|]. exists h. split; [done|]. rewrite E2.
    match goal with H : startGeneration _ _ _ _ = inr h |- _ => revert H end. unfold startGeneration.
    destruct (buildState parse_url cfg handler_clock) as [h1|] eqn:E; [|done]. repeat (match goal with |- context [if ?b then _ else _] => destruct b end; [done|]).
    intros Eh. apply (inj inr) in Eh. subst h1. eapply buildState_serves; [by apply validated_names|exact E].
  - destruct Hi as [[[H1 H2 H3 H4] _] Hc].
    match goal with H : RecoverFailedRestart _ _ _ _ _ _ _ _ = _ |- _ => pose proof (spec_run _ _ c (Recover_spec (c_mgr c) e es)) as [Hr _]; rewrite H in Hr end.
    cbn [fst snd] in Hr. destruct Hr as (-> & E1 & E2 & E3 & _ & _ & E4 & _). split; [|done]. split; [|done]. split; rewrite ?E1, ?E2, ?E3, ?E4; done.
  - destruct Hi as [Hi _].
    match goal with H : RecoverFailedRestart _ _ _ _ _ _ _ _ = _ |- _ => pose proof (spec_run _ _ c (Recover_spec (c_mgr c) e es)) as [Hr _]; rewrite H in Hr end.
    cbn [fst snd] in Hr. by rewrite Hr.
  - by destruct Hi.
  - destruct Hi as [Hi _]. by eapply fit_weaken.
  - destruct Hi as [Hi _]. split; [|by apply (g_restart _ (proj1 Hi))]. cbn [put c_mgr]. apply fit_restart. by eapply fit_weaken.
  - destruct Hi as [Hi Hn]. split; [by apply fit_restart|]. unfold latestRestart. destruct (m_restartCh (c_mgr c)) as [n|] eqn:E; [|done].
    by apply (g_restart _ (proj1 Hi)).
  - by destruct Hi.
  - match goal with H : operate _ _ _ _ _ _ _ _ _ _ _ _ _ = _ |- _ =>
      pose proof (λ g, fit_operate g pf o es c) as Ho; rewrite H in Ho; cbn [snd] in Ho end.
    destruct ph; [destruct Hi; split; [by apply Ho|done]..|done].
  - destruct Hi as [[[H1 H2 H3 H4] [Hf (h0 & E0 & Hs)]] Hg]. split; [|done]. cbn [put c_mgr]. split; [by split|]. split; [done|].
    eexists. split; [done|]. match goal with H : m_handler _ = Some h |- _ => rewrite H in E0; injection E0 as -> end.
    destruct (ServeHTTP_serves url_text error_text _ _ e req Hs) as (out' & E' & Hs' & _).
    match goal with H : ServeHTTP _ _ _ _ _ = Some out |- _ => rewrite H in E'; injection E' as -> end. done.
  - done.
Qed.

(** C2: Whatever updates, reloads, changed files, restarts and failing calls come
    together: while a generation serves, its listeners (addresses, TLS, limits,
    the admin API with its token and log) are those of the configuration that the
    manager holds for current, and its handler has the routes of that
    configuration and a runtime for every one of them.  Only configurations that
    passed validation are started, persisted, or kept to go back to. *)
Theorem what_runs_is_current vars path envPath env_node allow w m cfg es l g :
  New decode clock vars path envPath env_node allow w = inr m → validated cfg →
  rtc loop_step' (initial m cfg w es) l → l_phase l = Running g →
  let m := c_mgr (l_cell l) in
  listeners g = listeners (m_current m) ∧ (∃ h, m_handler m = Some h ∧ serves (m_current m) h)
  ∧ validated (m_current m) ∧ validated (m_persisted m) ∧ validated (m_healthyConfig m).
Proof.
  intros Hm Hc Hsteps Hp. assert (loop_inv (initial m cfg w es)) as H0.
  { split; [|done]. cbn [initial l_cell c_mgr]. split; [|done]. revert Hm. unfold New. match goal with |- (?run ?c0).1 = _ → _ => set (a := run); set (b := c0) end.
    assert (spec (c_mgr b) a (λ r _, match r with inl _ => True | inr m => good m end)) as Ha.
    { unfold a. apply load_file_bind. intros [e|p] Hpv; [by apply spec_ret|]. apply load_bind. intros [e|n] Hnv; [by apply spec_ret|].
      apply digest_bind. intros [e|d]; [by apply spec_ret|]. destruct (if _ =?s _ then _ else _); [by apply spec_ret|]. apply now_bind. intros t.
      apply spec_ret. by split. }
    apply spec_run in Ha. intros E. by rewrite E in Ha. }
  assert (loop_inv l) as Hl by (revert H0; clear -Hsteps; induction Hsteps; intros H0; [done|]; by apply IHHsteps, (loop_inv_step _ _ H0)).
  unfold loop_inv in Hl. rewrite Hp in Hl. destruct Hl as [[[H1 H2 H3 _] [Hf Hs]] _]. split_and!; [by apply restart_fields|done..].
Qed.

End facts.

(** ** Examples *)

Definition with_listen (addr : str) (s : ServerConfig) : ServerConfig :=
  mkServer addr (trusted_proxy_cidrs s) (forwarded_for_header s) (read_header_timeout s) (read_timeout s) (write_timeout s)
    (idle_timeout s) (shutdown_timeout s) (max_header_bytes s) (server_tls s).

Section samples.
#[local] Instance sU : Unicode := unicode_ascii.
#[local] Instance sN : NetURL := CachePolicy.sample_url.
#[local] Instance sT : HttpTime := CachePolicy.sample_time.
#[local] Instance sS : Sha256 := CachePolicy.sample_sha.
#[local] Instance sF : FloatMath := Upstream.sample_fm.
#[local] Instance sR : Resolve := Facts.sample_resolve.
#[local] Instance sM : MapRange := range_listed.

(** Two configurations that differ in the listener, and a codec for them. *)
Definition conf0 : Config := Facts.sample_valid.
Definition conf1 : Config :=
  mkConfig (with_listen ":8081" (server conf0)) (admin conf0) (routes conf0).
Definition two_encode (c : Config) : option str :=
  if bool_decide (c = conf0) then Some (lit "0") else if bool_decide (c = conf1) then Some (lit "1") else None.
Definition two_decode (data : str) : option Config :=
  if data =?s ("0" ++ [chr 10]) then Some conf0 else if data =?s ("1" ++ [chr 10]) then Some conf1 else None.

Lemma two_codec : PersistFacts.codec two_encode two_decode.
Proof.
  intros c text. unfold two_encode. case_bool_decide as E0; [intros [= <-]; by subst|]. case_bool_decide as E1; [|done]. intros [= <-]. by subst.
Qed.

Definition path0 : str := "/etc/edge.json".
Definition world0 : world := mkWorld {[ path0 := Regular ("0" ++ [chr 10]) ]} [] [].
Definition count (n : nat) : str := itoa (Z.of_nat n).
Definition all_free : preflight := mkPreflight (λ _ _, true) (λ _, true).
Definition env0 : EnvFile.State := EnvFile.mkState ∅ ∅.
Definition dotenv : str := "/etc/edge.env".
Abbreviation started := (New two_decode count ∅ path0 dotenv (Node (mkOpened true 0 [])) false world0).
Definition mgr0 : Manager := match started with inr m => m | inl _ => mkManager [] [] [] false None conf0 conf0 [] conf0 (started_status [] [] []) [] [] None None end.
Definition no_json (s : str) : option str := None.

Abbreviation step0 := (loop_step two_encode two_decode false no_json sample_parse count count count (λ _, 0) sample_text sample_error).
Abbreviation operate0 := (operate two_encode two_decode false no_json sample_parse count count count (λ _, 0) all_free).

Definition run_of (cfg : Config) : handlerState :=
  match startGeneration sample_parse (λ _, 0) all_free cfg with inr h => h | inl _ => sample_old end.
Definition set_to (c : Config) : operation := OpUpdate (λ _, inr c) "admin".

(** The states of a run: the listener is changed, and changed back before the
    first restart is done. *)
Definition cell1 : cell := (Attach count (run_of conf0) conf0 (mkCell mgr0 world0 0)).2.
Definition cell2 : cell := (operate0 (set_to conf1) env0 cell1).2.
Definition cell3 : cell := put (with_restart None (c_mgr cell2)) cell2.
Definition cell4 : cell := (operate0 (set_to conf0) env0 cell3).2.
Definition cell5 : cell := put (with_restart None (c_mgr cell4)) cell4.
Definition cell6 : cell := (Attach count (run_of conf1) conf1 cell5).2.

Lemma step_set x ph c fb : ph ≠ Ended →
  step0 (Control.mkLoop ph c env0 fb) (Control.mkLoop ph (operate0 (set_to x) env0 c).2 env0 fb).
Proof. intros Hp. by apply step_operate with (pf := all_free) (o := set_to x). Qed.
Lemma step_run cfg c fb : startGeneration sample_parse (λ _, 0) all_free cfg = inr (run_of cfg) →
  step0 (Control.mkLoop (Starting cfg) c env0 fb) (Control.mkLoop (Running cfg) (Attach count (run_of cfg) cfg c).2 env0 false).
Proof. apply step_start. Qed.

Lemma starts0 : startGeneration sample_parse (λ _, 0) all_free conf0 = inr (run_of conf0).
Proof. vm_compute. reflexivity. Qed.
Lemma starts1 : startGeneration sample_parse (λ _, 0) all_free conf1 = inr (run_of conf1).
Proof. vm_compute. reflexivity. Qed.

Lemma run_to_cell2 : rtc step0 (initial mgr0 conf0 world0 env0) (Control.mkLoop (Running conf0) cell2 env0 false).
Proof.
  apply rtc_l with (Control.mkLoop (Running conf0) cell1 env0 false); [by apply step_run, starts0|].
  by apply rtc_once, (step_set conf1).
Qed.

(** The update that takes the change back is applied, but the pending restart is
    not withdrawn: the restarted process listens where the withdrawn
    configuration says, while the file has the other address, every revision
    counts as applied, and no restart is scheduled. *)
Example withdrawn_restart_wins : ∃ l, rtc step0 (initial mgr0 conf0 world0 env0) l ∧ l_phase l = Running conf1
  ∧ (let m := c_mgr (l_cell l) in m_persisted m = conf0 ∧ m_restartCh m = None ∧ ws_scheduled (m_status m) = false
     ∧ ws_applied (m_status m) = ws_revision (m_status m) ∧ ws_error (m_status m) = [])
  ∧ listen_addr (server conf1) ≠ listen_addr (server conf0)
  ∧ PersistFacts.restart two_decode path0 (disk (c_world (l_cell l))) = inr conf0.
Proof.
  exists (Control.mkLoop (Running conf1) cell6 env0 false). split; [|split; [done|]; cbv zeta; apply (bool_decide_eq_true_1 _); vm_compute; reflexivity].
  etrans; [exact run_to_cell2|].
  apply rtc_l with (Control.mkLoop (Draining conf1) cell3 env0 false); [apply step_take; vm_compute; reflexivity|].
  apply rtc_l with (Control.mkLoop (Draining conf1) cell4 env0 false); [by apply (step_set conf0)|].
  apply rtc_l with (Control.mkLoop (Starting (latestRestart conf1 (c_mgr cell4))) cell5 env0 true); [apply step_drained|].
  assert (latestRestart conf1 (c_mgr cell4) = conf1) as -> by (vm_compute; reflexivity).
  by apply rtc_once, step_run, starts1.
Qed.

Lemma outcome_of {A B} (p : A * B) (P : A → B → Prop) : (let '(a, b) := p in P a b) → P p.1 p.2.
Proof. by destruct p. Qed.

Lemma outcome_of2 {A B C} (p : A * B * C) (P : A → B → C → Prop) : (let '(a, b, c) := p in P a b c) → P p.1.1 p.1.2 p.2.
Proof. by destruct p as [[??]?]. Qed.

Lemma started_ok : started = inr mgr0.
Proof. vm_compute. reflexivity. Qed.
Lemma conf0_validated : validated conf0.
Proof. exists Facts.sample_config. by vm_compute. Qed.
Lemma conf0_stable : Facts.accepted conf0 conf0.
Proof. by vm_compute. Qed.

Lemma cell2_pending : m_restartCh (c_mgr cell2) = Some conf1.
Proof. vm_compute. reflexivity. Qed.

Lemma what_runs_is_current_witness :
  m_restartCh (c_mgr cell2) = Some conf1 ∧ listeners conf0 = listeners (m_current (c_mgr cell2)) ∧ validated (m_persisted (c_mgr cell2)).
Proof.
  split; [exact cell2_pending|].
  pose proof (what_runs_is_current two_encode two_decode false no_json sample_parse count count count (λ _, 0) sample_text sample_error
    ∅ path0 dotenv (Node (mkOpened true 0 [])) false world0 mgr0 conf0 env0 (Control.mkLoop (Running conf0) cell2 env0 false) conf0
    started_ok conf0_validated run_to_cell2 eq_refl) as H.
  cbn [l_cell] in H. cbv zeta in H. destruct H as (H1 & _ & _ & H2 & _). exact (conj H1 H2).
Defined.

Abbreviation updated :=
  (Update two_encode two_decode false sample_parse count count count (λ _, 0) all_free ∅ (λ _, inr conf1) "admin" cell1).

Lemma updated_result : updated.1 = inr (mkApply false true [lit "server.listen_addr"] 2 "admin").
Proof. vm_compute. reflexivity. Qed.


(** The dotenv file moves the listener. *)
Definition revision : node := Node (mkOpened true 36 ("EDGEPROXY_SERVER_LISTEN_ADDR=:8081" ++ [chr 10])).
Abbreviation moved := (watch_environment two_decode no_json sample_parse count (λ _, 0) all_free revision revision env0 cell1).

Lemma empty_allowed : EnvFacts.allowed ∅ ∅.
Proof. split; [apply map_disjoint_empty_l|apply map_Forall_empty]. Qed.
Lemma env0_state : EnvFacts.state_of ∅ ∅ = env0.
Proof. unfold env0, EnvFacts.state_of. by rewrite (map_empty_union (M := gmap str)). Qed.

Lemma env0_owned : EnvFacts.owns ∅ env0.
Proof.
  rewrite <- env0_state. apply (EnvFacts.state_of_owns ∅ ∅). exact empty_allowed.
Qed.

Lemma moved_pending : m_restartCh (c_mgr moved.2) = Some conf1 ∧ EnvFile.managedValues moved.1 = {[ lit "EDGEPROXY_SERVER_LISTEN_ADDR" := lit ":8081" ]}.
Proof. apply (bool_decide_eq_true_1 _). vm_compute. reflexivity. Qed.

Lemma moved_changes : moved.1 ≠ env0.
Proof. intros E. pose proof (proj2 moved_pending) as H. rewrite E in H. by apply (f_equal (λ m, m !! lit "EDGEPROXY_SERVER_LISTEN_ADDR")) in H; vm_compute in H. Qed.


(** The restart fails, and the old environment and generation come back. *)
Abbreviation back := (RecoverFailedRestart two_encode false count count count "address already in use" moved.1 moved.2).

Lemma moved_facts : EnvFacts.owns ∅ moved.1 ∧ m_healthyConfig (c_mgr moved.2) = conf0 ∧ m_restartEnvironmentFrom (c_mgr moved.2) = Some ∅.
Proof.
  split; [|apply (bool_decide_eq_true_1 _); vm_compute; reflexivity].
  assert (moved.1 = EnvFacts.state_of ∅ {[ lit "EDGEPROXY_SERVER_LISTEN_ADDR" := lit ":8081" ]}) as ->.
  { assert (EnvFile.os_env moved.1 = {[ lit "EDGEPROXY_SERVER_LISTEN_ADDR" := lit ":8081" ]}) as E by (apply (bool_decide_eq_true_1 _); vm_compute; reflexivity).
    pose proof (proj2 moved_pending) as Hm. destruct moved as [[env man] c]. cbn [fst EnvFile.os_env EnvFile.managedValues] in *. subst.
    unfold EnvFacts.state_of. by rewrite (map_empty_union (M := gmap str)). }
  apply EnvFacts.state_of_owns. split; [apply map_disjoint_empty_l|]. apply map_Forall_singleton. split; [by vm_compute|].
  rewrite <- mem_byte_true. by vm_compute.
Qed.

Lemma back_result : back.1.1 = inr conf0.
Proof. apply (bool_decide_eq_true_1 _). vm_compute. reflexivity. Qed.
Lemma healthy_accepted : Facts.accepted (m_healthyConfig (c_mgr moved.2)) (m_healthyConfig (c_mgr moved.2)).
Proof. rewrite (proj1 (proj2 moved_facts)). exact conf0_stable. Qed.
Lemma snapshot_allowed : ∀ s, m_restartEnvironmentFrom (c_mgr moved.2) = Some s → EnvFacts.allowed ∅ s.
Proof. intros s. rewrite (proj2 (proj2 moved_facts)). intros E. apply (inj Some) in E as <-. exact empty_allowed. Qed.

Lemma recovery_restores_witness : back.1.1 = inr conf0 ∧ back.1.2 = env0 ∧ m_restartCh (c_mgr back.2) = None.
Proof.
  pose proof (recovery_restores two_encode two_decode false count count count ∅ "address already in use" moved.1 moved.2 two_codec
    (proj1 moved_facts) healthy_accepted snapshot_allowed) as H.
  split; [exact back_result|]. apply (outcome_of2 _ (λ r es' c', _)) in H. rewrite back_result, (proj2 (proj2 moved_facts)) in H. cbv iota beta in H.
  destruct H as (H1 & (_ & _ & _ & _ & _ & _ & H2 & _) & _). exact (conj (eq_trans H1 env0_state) H2).
Defined.

End samples.
End ControlFacts.
