(* ===== verification/SecRuntimeFacts.v ===== *)
(** * What SecurityEdge's runtime keeps

    Whatever is reloaded, replaced or edited, and whatever happens to the files
    in between, the parts that serve requests are those of one configuration,
    and what the process captured at its start is still what that configuration
    says.  Policy edits are transactions. *)

From stdpp Require Import sorting.
From S2P Require Import Prelude GoStr GoPath GoText GoHttp GoCodec GoFloat GoOS NetIP Config ConfigValidate ConfigFacts ConfigStable ConfigEnv ConfigPersist ConfigPersistFacts Router RouteTable ClientIP RateLimit SecPolicy Waf SecConfig SecConfigFacts SecPersist SecPersistFacts SecPaths SecPathsFacts SecRuntime.

Module RuntimeFacts.
Import Persistence SecConfig SecFacts SecPersist SecPersistFacts SecPaths SecRuntime.

(** ** Rules of operations *)

Section ops.
Context {S : Type}.

(** From a state with [P], the operation ends in [Q] with its result. *)
Definition ends {A : Type} (P : S → Prop) (m : op S A) (Q : result A → S → Prop) : Prop := ∀ s, P s → Q (fst (m s)) (snd (m s)).

Lemma ends_bind {A B : Type} (P : S → Prop) (m : op S A) (f : A → op S B) (Q : result A → S → Prop) (Q' : result B → S → Prop) :
  ends P m Q → (∀ a, ends (Q (inr a)) (f a) Q') → (∀ e s, Q (inl e) s → Q' (inl e) s) → ends P (m ≫= f) Q'.
Proof.
  intros Hm Hf He s HP. specialize (Hm s HP). unfold mbind, op_bind. destruct (m s) as [[e|a] s'] eqn:E; cbn in *; [by apply He|].
  by apply Hf.
Qed.

Lemma ends_result {A : Type} (P : S → Prop) (r : result A) (Q : result A → S → Prop) : (∀ s, P s → Q r s) → ends P (of_result r) Q.
Proof. intros H s HP. by apply H. Qed.

Lemma ends_ret {A : Type} (P : S → Prop) (a : A) (Q : result A → S → Prop) : (∀ s, P s → Q (inr a) s) → ends P (mret a) Q.
Proof. intros H s HP. by apply H. Qed.

Lemma ends_weaken {A : Type} (P P' : S → Prop) (m : op S A) (Q Q' : result A → S → Prop) :
  ends P m Q → (∀ s, P' s → P s) → (∀ r s, Q r s → Q' r s) → ends P' m Q'.
Proof. intros H HP HQ s Hs. by apply HQ, H, HP. Qed.

(** A computation that cannot change the state only hands on its result. *)
Lemma ends_pure {A B : Type} (P : S → Prop) (r : result A) (f : A → op S B) (Q : result B → S → Prop) :
  (∀ a, r = inr a → ends P (f a) Q) → (∀ e s, P s → Q (inl e) s) → ends P (of_result r ≫= f) Q.
Proof. intros Hf He s HP. destruct r as [e|a]; cbn; [by apply He|by apply Hf]. Qed.

Lemma bind_inv {A B : Type} (m : op S A) (f : A → op S B) s b s' : (m ≫= f) s = (inr b, s') →
  ∃ a s1, m s = (inr a, s1) ∧ f a s1 = (inr b, s').
Proof. unfold mbind, op_bind. destruct (m s) as [[e|a] s1]; [done|eauto]. Qed.

Lemma bind_run {A B : Type} (m : op S A) (f : A → op S B) s a s1 : m s = (inr a, s1) → (m ≫= f) s = f a s1.
Proof. intros E. unfold mbind, op_bind. by rewrite E. Qed.

End ops.

(** ** What a process captures when it starts *)

(** The server section without what may change while it runs. *)
Definition fixed_server (s : ServerConfig) : ServerConfig :=
  mkServerConfig (s_mode s) (s_listen s) (s_upstream s) (s_read_header s) (s_read s) (s_write s) (s_idle s) (s_shutdown s)
    (s_max_header s) (s_max_body s) 0 0 None (s_forwarded s) (s_preserve_host s) false (s_tls s) (s_transport s).

(** Listeners, TLS and transport, the admin section, and the process-wide sizes
    of the rate limiter and of the ban list. *)
Definition captured (c : Config) : ServerConfig * AdminConfig * (duration * duration * Z * Z) :=
  let rl := rate_limit (default_policy c) in
  (fixed_server (server c), admin (cloneConfig c),
   (Limiter.CleanupInterval rl, Limiter.IdleTTL rl, Limiter.MaxBuckets rl, BanManager.MaxTrackedClients (auto_ban (default_policy c)))).

Lemma clone_slice_idem s : clone_slice (clone_slice s) = clone_slice s.
Proof. by destruct s as [[|]|]. Qed.

Lemma clone_idem c : cloneConfig (cloneConfig c) = cloneConfig c.
Proof.
  unfold cloneConfig, cloneServerConfig, clone_dns, with_connectivity, with_trusted. destruct c as [[] [] e wf d ps]. cbn.
  by rewrite !clone_slice_idem.
Qed.

Lemma sort_nil l : sort_strings l = [] → l = [].
Proof. intros H. apply Permutation_nil. rewrite <- H. symmetry. unfold sort_strings. by rewrite merge_sort_Permutation. Qed.

Lemma no_field_changed {A} `{EqDecision A} name (x y : A) : changed_field name (different x y) = [] → x = y.
Proof. unfold changed_field, different. by case_bool_decide. Qed.

Lemma changed_cons {A} `{EqDecision A} name (x y : A) l : changed_field name (different x y) ++ l = [] → x = y ∧ l = [].
Proof. intros [H1 H2]%app_nil. split; [by eapply no_field_changed|done]. Qed.

Definition clone_admin (a : AdminConfig) : AdminConfig :=
  let cn := a_connectivity a in
  with_connectivity (mkConnectivity (cn_enabled cn) (cn_interval cn) (cn_timeout cn) (cn_stale cn) (cn_history cn) (clone_dns (cn_dns cn))) a.

Lemma clone_admin_idem a : clone_admin (clone_admin a) = clone_admin a.
Proof. unfold clone_admin, clone_dns, with_connectivity. cbn. by rewrite !clone_slice_idem. Qed.

Lemma fixed_of s s' : s_mode s = s_mode s' → s_listen s = s_listen s' → s_upstream s = s_upstream s' → s_read_header s = s_read_header s' →
  s_read s = s_read s' → s_write s = s_write s' → s_idle s = s_idle s' → s_shutdown s = s_shutdown s' → s_max_header s = s_max_header s' →
  s_max_body s = s_max_body s' → s_forwarded s = s_forwarded s' → s_preserve_host s = s_preserve_host s' → s_tls s = s_tls s' →
  s_transport s = s_transport s' → fixed_server s = fixed_server s'.
Proof. intros. unfold fixed_server. by f_equal. Qed.

Lemma no_changes cur next : restartRequiredChanges (cloneConfig cur) next = [] → captured next = captured cur.
Proof.
  unfold restartRequiredChanges. intros H%sort_nil. do 18 (apply changed_cons in H as [? H]). apply no_field_changed in H.
  unfold captured. apply pair_equal_spec; split; [apply pair_equal_spec; split|].
  - symmetry. by apply fixed_of.
  - match goal with H : admin (cloneConfig cur) = admin next |- _ => change (clone_admin (admin next) = clone_admin (admin cur)); rewrite <- H end.
    apply clone_admin_idem.
  - repeat (apply pair_equal_spec; split); by symmetry.
Qed.

Section runtime.
Context {U : Unicode} {R : Resolve} {L : WafLib} {SH : Sha256} {MR : MapRange}.
Context (encode : Config → option str) (decode : str → option Config) (decode_routes : str → option (list Routes.Route)).
Context (windows : bool) (clock stamp rand : nat → str).

(** ** A configuration and its copy *)

Definition dns_of (c : Config) : DNSProbeConfig := cn_dns (a_connectivity (admin c)).
Definition dns_probed (c : Config) : Prop :=
  a_enabled (admin c) = true ∧ cn_enabled (a_connectivity (admin c)) = true ∧ dns_enabled (dns_of c) = true.

Lemma validate_dns_lists d d' : validate_dns d = ([], d') → ∃ name names expected, dns_names d' = Some (name :: names) ∧ dns_expected d' = Some expected.
Proof.
  unfold validate_dns. destruct (entries dns_name_entry _ _) as [e2 names]. destruct (entries address_entry _ _) as [e4 expected].
  intros H. apply pair_equal_spec in H as [H <-]. split_nil. destruct names as [|name names]; [done|]. by exists name, names, expected.
Qed.

Lemma probed_lists c0 c : accepted c0 c → dns_probed c →
  ∃ name names expected, dns_names (dns_of c) = Some (name :: names) ∧ dns_expected (dns_of c) = Some expected.
Proof.
  unfold accepted, Validate. destruct (validate_server _) as [e1 s]. destruct (validate_admin s _) as [e2 a] eqn:Ea.
  destruct (validateCustomRules _) as [e3 rules]. destruct (validatePolicy _) as [e4 d]. destruct (validate_route_policies _ _ _) as [e5 policies].
  intros H. apply pair_equal_spec in H as [H <-]. intros (H1 & H2 & H3). unfold dns_of in *. cbn [admin] in *. split_nil.
  revert Ea H1 H2 H3. unfold validate_admin. destruct (a_enabled (normalize_admin (admin c0))) eqn:E1; [|by intros [= <- <-] ?; congruence]. cbn [negb]. cbv zeta.
  destruct (validate_connectivity _) as [e6 cn] eqn:Ec. intros Ea. apply pair_equal_spec in Ea as [Ea <-]. intros _. cbn [a_connectivity with_connectivity].
  subst. split_nil. subst. revert Ec. unfold validate_connectivity. set (k := a_connectivity _). destruct (cn_enabled k) eqn:E2; [|by intros [= <-] ?; congruence].
  cbn [negb]. destruct (dns_enabled (cn_dns k)) eqn:E3; [|intros [= _ <-] _ ?; congruence]. cbn [negb].
  destruct (validate_dns (cn_dns k)) as [e7 dns] eqn:Ed. intros Ec _ _. apply pair_equal_spec in Ec as [Ec <-]. split_nil. subst.
  cbn [cn_dns]. by eapply validate_dns_lists.
Qed.

Lemma unchanged {A} `{EqDecision A} name (x y : A) : x = y → changed_field name (different x y) = [].
Proof. intros ->. unfold changed_field, different. by rewrite bool_decide_eq_true_2. Qed.

(** Whether a restart is needed is decided by comparing a copy of what runs with
    the new configuration.  Of an accepted configuration that probes DNS, and
    that is not changed at all, this finds nothing to do exactly when it lists
    expected addresses; when it does not, it finds a change of the admin section,
    because the copy of an empty list is a nil list. *)
Theorem unchanged_configuration c0 c : accepted c0 c → dns_probed c →
  restartRequiredChanges (cloneConfig c) c = if len (items (dns_expected (dns_of c))) =? 0 then [lit "admin"] else [].
Proof.
  intros Hc Hp. destruct (probed_lists c0 c Hc Hp) as (name & names & expected & Hn & He).
  assert (admin (cloneConfig c) = admin c ↔ expected ≠ []) as Ha.
  { change (clone_admin (admin c) = admin c ↔ expected ≠ []). unfold dns_of in *. destruct (admin c) as [en listen token lg cn hi poll mb fl lo].
    destruct cn as [cen ci ct cs ch dns]. destruct dns as [den dc ds nm ex]. cbn in *. subst. unfold clone_admin, clone_dns. cbn.
    destruct expected; split; try done; congruence. }
  rewrite He. cbn [items]. unfold restartRequiredChanges. do 14 rewrite (unchanged _ _ _ eq_refl). rewrite !(unchanged _ _ _ eq_refl), !app_nil_r.
  unfold changed_field, different. destruct expected as [|x expected]; cbn.
  - rewrite bool_decide_eq_false_2; [done|]. intros H. by apply Ha in H.
  - rewrite bool_decide_eq_true_2; [done|]. by apply Ha.
Qed.

(** ** One configuration *)

(** The parts that serve requests are those of [c]. *)
Record parts_of (c : Config) (t : list Routes.Route) (e : EdgeAdmin.Client) (i : Waf.Inspector) (cl : Resolver.Resolver) : Prop := {
  po_inspector : new_inspector (waf c) = inr i;
  po_clients : new_clients (server c) = inr cl;
  po_edge : new_edge (edgeproxy c) = inr e;
  po_policies : validateRoutePolicies c t = inr () }.

Definition consistent (r : Runtime) : Prop := parts_of (r_cfg r) (r_table r) (r_edge r) (r_inspector r) (r_clients r).

(** Later states of a runtime that started as [r0]. *)
Record sound (r0 r : Runtime) : Prop := {
  so_parts : consistent r;
  so_captured : captured (r_cfg r) = captured (r_cfg r0);
  so_path : r_path r = r_path r0 }.

(** The runtime is [r], and [x] is what the next start finds in its file. *)
Definition at_ (r : Runtime) (x : option Persistence.entry) (s : cell) : Prop :=
  c_rt s = r ∧ PersistFacts.current_file (r_path r) (disk (c_world s)) = x.

Abbreviation starts_with x := (PersistFacts.config_of decode x).

Definition reads {A : Type} (m : op world A) : Prop := ∀ w, disk (m w).2 = disk w.

Lemma reads_bind {A B : Type} (m : op world A) (f : A → op world B) : reads m → (∀ a, reads (f a)) → reads (m ≫= f).
Proof. intros Hm Hf w. unfold mbind, op_bind. specialize (Hm w). destruct (m w) as [[e|a] w1]; [done|]. by rewrite Hf. Qed.
Lemma reads_result {A : Type} (r : result A) : reads (of_result r).
Proof. done. Qed.
Lemma reads_ret {A : Type} (a : A) : reads (mret a).
Proof. done. Qed.
Lemma reads_attempt {A : Type} (m : op world A) : reads m → reads (attempt m).
Proof. intros Hm w. unfold attempt. specialize (Hm w). by destruct (m w). Qed.

Lemma reads_routes path : reads (load_routes decode_routes path).
Proof.
  apply reads_bind; [|intros; apply reads_result]. intros w. unfold look_up. pose proof (PersistFacts.look_disk path w) as H. by destruct (look path w).
Qed.

Lemma reads_prepare o path cfg protected : reads (prepareRuntimeConfig decode_routes windows o path cfg protected).
Proof.
  unfold prepareRuntimeConfig. repeat (apply reads_bind; [apply reads_result || apply reads_routes|intros]). apply reads_ret.
Qed.

Lemma reads_candidate o protected path cur next : reads (validateRestartCandidate decode_routes windows o protected path cur next).
Proof.
  unfold validateRestartCandidate. apply reads_bind; [apply reads_attempt, reads_prepare|]. intros res. cbv zeta.
  set (errs := _ ++ _). clearbody errs. destruct res as [[]|]; [done| |]; by destruct errs.
Qed.

Lemma ends_get {B : Type} r x (f : Runtime → op cell B) (Post : result B → cell → Prop) :
  (∀ r', r' = r → ends (at_ r' x) (f r') Post) → ends (at_ r x) (get ≫= f) Post.
Proof. intros H s [<- Hs]. by apply (H (c_rt s)). Qed.

Lemma ends_lift {A B : Type} r x (m : op world A) (f : A → op cell B) (Post : result B → cell → Prop) :
  reads m → (∀ a, ends (at_ r x) (f a) Post) → (∀ e s, at_ r x s → Post (inl e) s) → ends (at_ r x) (lift m ≫= f) Post.
Proof.
  intros Hm Hf He. apply (ends_bind _ _ _ (λ _, at_ r x)); [|done|done]. intros s [Hr Hx]. unfold lift. specialize (Hm (c_world s)).
  destruct (m (c_world s)). split; [done|]. cbn in *. by rewrite Hm.
Qed.

Lemma same_lift {A : Type} (m : op world A) s : c_rt (lift m s).2 = c_rt s.
Proof. unfold lift. by destruct (m (c_world s)). Qed.

Lemma ends_load {B : Type} r x (f : Config → op cell B) (Post : result B → cell → Prop) :
  (∀ cfg, starts_with x = inr cfg → ends (at_ r x) (f cfg) Post) → (∀ e s, at_ r x s → Post (inl e) s) →
  ends (at_ r x) (lift (load_file decode (r_path r)) ≫= f) Post.
Proof.
  intros Hf He s [Hr Hx]. unfold lift, load_file, from_files, LoadFile, mbind, op_bind.
  pose proof (PersistFacts.LoadFile_current decode (r_path r) (c_world s)) as Hc.
  pose proof (PersistFacts.LoadFile_restart decode (r_path r) (c_world s)) as Hl.
  destruct (Persistence.LoadFile decode (r_path r) (c_world s)) as [[e|cfg] w]; cbn [fst snd] in *.
  - apply He. split; [done|]. cbn. congruence.
  - apply Hf; [|split; [done|cbn; congruence]]. specialize (Hl cfg eq_refl). by rewrite PersistFacts.restart_spec, Hx in Hl.
Qed.

(** What [prepareReload] hands over can be applied. *)
Definition ready (r : Runtime) (q : preparedReload) : Prop :=
  restartRequiredChanges (cloneConfig (r_cfg r)) (q_cfg q) = []
  ∧ ∃ i cl, parts_of (q_cfg q) (q_table q) (q_edge q) i cl.

Definition prepares (r : Runtime) (cfg : Config) (res : result (list str + preparedReload)) : Prop :=
  match res with
  | inr (inr q) => q_cfg q = cfg ∧ ready r q
  | inr (inl fields) => fields = restartRequiredChanges (cloneConfig (r_cfg r)) cfg ∧ fields ≠ []
  | inl _ => True
  end.

Lemma prepareReload_spec o cfg r x :
  ends (at_ r x) (prepareReload decode_routes windows o cfg) (λ res s, at_ r x s ∧ prepares r cfg res).
Proof.
  unfold prepareReload. apply ends_get. intros r' <-. cbv zeta.
  destruct (restartRequiredChanges (cloneConfig (r_cfg r')) cfg) as [|f fs] eqn:Ec.
  - apply ends_lift; [apply reads_routes| |done]. intros table.
    apply ends_pure; [intros [] Hp|done]. apply ends_pure; [intros edge He|done]. apply ends_pure; [intros i Hi|done].
    apply ends_pure; [intros cl Hc|done]. apply ends_ret. intros s Hs. split; [done|]. split; [done|]. split; [done|]. by exists i, cl.
  - apply ends_lift; [apply reads_candidate| |done]. intros u. apply ends_ret. intros s Hs. split; [done|]. by split; [rewrite Ec|].
Qed.

(** Applying cannot fail, so nothing is ever rolled back. *)
Lemma applyReload_run q i cl s : parts_of (q_cfg q) (q_table q) (q_edge q) i cl →
  applyReload q s = (inr (), mkCell (with_live (q_cfg q) (q_table q) (q_edge q) (with_clients cl (with_inspector i (c_rt s)))) (c_world s) (c_ticks s)).
Proof.
  intros [Hi Hc _ _]. unfold applyReload, get, mbind, op_bind. cbv beta iota.
  unfold new_inspector, Waf.NewInspector in Hi. unfold Waf.Replace. destruct (Waf.CompileRules _) as [[]|rs]; try done. injection Hi as <-.
  cbn. unfold new_clients, Resolver.New in Hc. destruct (Resolver.Replace _ _ (Resolver.mk [] [])) as [c|] eqn:Er; [|done]. injection Hc as <-.
  unfold Resolver.Replace in *. cbv zeta in *. destruct (mapM _ _); [|done]. cbn in Er. injection Er as <-. done.
Qed.

Lemma apply_sound r0 r c t e i cl h : sound r0 r → restartRequiredChanges (cloneConfig (r_cfg r)) c = [] → parts_of c t e i cl →
  sound r0 (with_healthy h (with_live c t e (with_clients cl (with_inspector i r)))).
Proof. intros [_ Hcap Hpath] Hn Hq. split; [done| |done]. cbn. rewrite <- Hcap. by apply no_changes. Qed.

Lemma sound_watch r0 r w : sound r0 r → sound r0 (with_watch w r).
Proof. by intros [[] ? ?]. Qed.

(** ** Policies name routes *)

Lemma known_spec (table : list Routes.Route) (key : str) (known : gmap str str) : foldl (λ (known : gmap str str) r, <[to_lower (Routes.Name r) := Routes.Name r]> known) known table !! key = None ↔
  known !! key = None ∧ ∀ route, route ∈ table → to_lower (Routes.Name route) ≠ key.
Proof.
  revert known. induction table as [|r table IH]; intros known; cbn [foldl]; [split; [|tauto]; intros H; split; [done|]; by intros ? ?%not_elem_of_nil|].
  rewrite IH, lookup_insert_None. split.
  - intros [[H1 H2] H3]. split; [done|]. intros route [->|Hin]%elem_of_cons; [done|by apply H3].
  - intros [H1 H2]. split; [split; [done|]|]; intros; apply H2; by constructor.
Qed.

Lemma policy_names_spec table names seen seen' :
  foldl (policy_name_step (known_routes table)) (inr seen) names = inr seen' →
  (∀ name, name ∈ names → ∃ route, route ∈ table ∧ to_lower (Routes.Name route) = to_lower (trim_space name))
  ∧ NoDup ((λ name, to_lower (trim_space name)) <$> names) ∧ ∀ name, name ∈ names → seen !! to_lower (trim_space name) = None.
Proof.
  assert (∀ e l, foldl (policy_name_step (known_routes table)) (inl e) l = inl e) as Herr by (intros e l; by induction l).
  revert seen. induction names as [|name names IH]; intros seen.
  { intros _. split_and!; [by intros ? ?%not_elem_of_nil|constructor|by intros ? ?%not_elem_of_nil]. }
  cbn [foldl]. set (acc := policy_name_step _ _ _). destruct acc as [e|acc'] eqn:E; subst acc; [by rewrite Herr|]. intros H.
  apply IH in H as (H1 & H2 & H3). unfold policy_name_step in E. cbn in E.
  destruct (known_routes table !! to_lower (trim_space name)) eqn:Ek; [|done].
  destruct (seen !! to_lower (trim_space name)) eqn:Es; [done|]. injection E as <-.
  assert (∃ route, route ∈ table ∧ to_lower (Routes.Name route) = to_lower (trim_space name)) as Hr.
  { destruct (decide (Exists (λ route, to_lower (Routes.Name route) = to_lower (trim_space name)) table)) as [Hx|Hx]; [by apply Exists_exists in Hx|].
    unfold known_routes in Ek. assert (foldl (λ (known : gmap str str) r, <[to_lower (Routes.Name r) := Routes.Name r]> known) ∅ table !! to_lower (trim_space name) = None)
      as Hn; [|by rewrite Hn in Ek]. apply known_spec. split; [apply lookup_empty|]. intros route Hin Heq. apply Hx, Exists_exists. by exists route. }
  split_and!.
  - intros n [->|Hn]%elem_of_cons; [done|by apply H1].
  - rewrite fmap_cons. apply NoDup_cons. split; [|done]. intros (n & Hn & Hin)%list_elem_of_fmap. apply H3 in Hin. rewrite <- Hn, lookup_insert_eq in Hin. done.
  - intros n [->|Hn]%elem_of_cons; [done|]. apply H3 in Hn. by apply lookup_insert_None in Hn as [? _].
Qed.

Lemma policies_named cfg table name p : validateRoutePolicies cfg table = inr () → route_policies cfg !! name = Some p →
  ∃ route, route ∈ table ∧ to_lower (Routes.Name route) = to_lower (trim_space name).
Proof.
  unfold validateRoutePolicies. destruct (foldl _ _ _) as [e|seen] eqn:E; [done|]. intros _ Hp. apply policy_names_spec in E as [H _]. apply H.
  rewrite (Permutation_map fst (range_perm _ (route_policies cfg))). apply list_elem_of_fmap. exists (name, p). split; [done|]. by apply elem_of_map_to_list.
Qed.

(** ** Edits *)

Section edits.
Context (Hcodec : PersistFacts.codec encode decode).

(** The document in the file of the configuration, before it is validated. *)
Definition stored (r : Runtime) (s : cell) : option Config := PersistFacts.stored decode (r_path r) (disk (c_world s)).

(** The file holds [c], as the validation that [Save] repeats leaves it. *)
Definition persisted (r : Runtime) (c : Config) (s : cell) : Prop := ∃ saved, stored r s = Some saved ∧ accepted c saved.

Lemma save_spec r x c : SecPersist.plain (r_path r) →
  ends (at_ r x) (save encode windows stamp rand (r_path r) c)
    (λ res s, match res with inl _ => at_ r x s | inr _ => c_rt s = r ∧ persisted r c s end).
Proof.
  intros Hplain s [Hr Hx]. unfold save, mbind, op_bind, fresh, lift. cbn [c_world c_ticks c_rt]. unfold Save.
  pose proof (λ w', PersistFacts.save_stored encode decode windows (stamp (c_ticks s)) (rand (c_ticks s)) (r_path r) c (c_world s) w' Hplain Hcodec) as Hs.
  pose proof (PersistFacts.save_keeps encode windows (stamp (c_ticks s)) (rand (c_ticks s)) (r_path r) c (c_world s) Hplain) as Hk.
  destruct (Persistence.Save encode windows _ _ (r_path r) c (c_world s)) as [[e|] w]; cbn.
  - split; [done|]. cbn. by rewrite Hk.
  - split; [done|]. destruct (Hs _ eq_refl) as (saved & ? & ?). by exists saved.
Qed.

(** What is left of an edit that ended with [res]. *)
Definition committed (r : Runtime) (x : option Persistence.entry) (candidate runtimeCfg : Config) (res : result verdict) (s : cell) : Prop :=
  let fields := restartRequiredChanges (cloneConfig (r_cfg r)) runtimeCfg in
  match res with
  | inl _ => at_ r x s
  | inr (RestartRequired fields') =>
      fields' = fields ∧ fields ≠ [] ∧ persisted r candidate s
      ∧ ∃ w, w_scheduled w = true ∧ w_changed w = r_path r ∧ c_rt s = with_watch w r
  | inr Applied =>
      fields = [] ∧ persisted r candidate s
      ∧ ∃ t e i cl, parts_of runtimeCfg t e i cl
        ∧ c_rt s = with_healthy (cloneConfig candidate) (with_live runtimeCfg t e (with_clients cl (with_inspector i r)))
  end.

Lemma commit_spec o r x fileCfg candidate runtimeCfg : SecPersist.plain (r_path r) →
  ends (at_ r x) (commit encode decode_routes windows clock stamp rand o fileCfg candidate runtimeCfg) (committed r x candidate runtimeCfg).
Proof.
  intros Hplain. unfold commit. apply ends_get. intros r' <-.
  destruct (restartRequiredChanges (cloneConfig (r_cfg r')) runtimeCfg) as [|f fs] eqn:Ec.
  - apply (ends_bind _ _ _ _ _ (prepareReload_spec o runtimeCfg r' x)); [|by intros e s []].
    intros [fields|q]; [intros s (_ & [-> Hne]); by rewrite Ec in Hne|]. intros s (Hs & Hq & Hready). revert s Hs.
    change (ends (at_ r' x) (_ ← save encode windows stamp rand (r_path r') candidate; applied ← attempt (applyReload q);
      match applied with
      | inl Panics => of_result (inl Panics)
      | inl (Error e) =>
          rollback ← attempt (save encode windows stamp rand (r_path r') fileCfg);
          match rollback with
          | inl (Error e') => fail_with (join [chr 10] [e; e'])
          | inl Panics => of_result (inl Panics)
          | inr () => fail_with e
          end
      | inr () => _ ← modify (with_healthy (cloneConfig candidate)); mret Applied
      end) (committed r' x candidate runtimeCfg)).
    apply (ends_bind _ _ _ _ _ (save_spec r' x candidate Hplain)); [|done]. intros u s [Hr Hp].
    destruct Hready as [_ (i & cl & Hparts)]. erewrite bind_run by (unfold attempt; rewrite (applyReload_run _ _ _ s Hparts); done).
    cbv beta iota. erewrite bind_run by done. cbn [fst snd mret op_ret]. subst. unfold committed. rewrite Ec. split; [done|]. split; [exact Hp|]. by exists (q_table q), (q_edge q), i, cl.
  - unfold schedule. apply ends_get. intros r <-. apply ends_lift; [apply reads_candidate| |done]. intros u.
    apply (ends_bind _ _ _ _ _ (save_spec r x candidate Hplain)); [|done]. intros u' s [Hr Hp]. cbn. subst. unfold committed. rewrite Ec.
    split; [done|]. split; [done|]. split; [done|]. eexists; split_and!; cycle 2; [reflexivity|done|done].
Qed.

Lemma validated_ok c c' : validated c = inr c' ↔ accepted c c'.
Proof. unfold validated, accepted. destruct (Validate c) as [[|] d]; split; try done; by intros [= ->]. Qed.

Abbreviation run_edit := (SecRuntime.run_edit encode decode decode_routes windows clock stamp rand).

(** What an edit asks the file to be. *)
Definition asked (r : Runtime) (fileCfg : Config) (e : edit) : Config :=
  match e with
  | EditDefault p => set_default p (cloneConfig fileCfg)
  | EditRoute route p => set_route (default [] (canonicalRouteName r route)) p (cloneConfig fileCfg)
  | DropRoute route => drop_route route (cloneConfig fileCfg)
  | Replacement c => unredact fileCfg c
  end.

(** The candidate with the overrides of the environment, normalised again
    except by a replacement. *)
Definition effective (vars : variables) (e : edit) (candidate runtimeCfg : Config) : Prop :=
  ∃ c, ApplyEnvironmentOverrides (λ key, vars !! key) (cloneConfig candidate) = inr c
    ∧ match e with Replacement _ => runtimeCfg = c | _ => accepted c runtimeCfg end.

Definition edited (r : Runtime) (x : option Persistence.entry) (vars : variables) (e : edit) (res : result verdict) (s : cell) : Prop :=
  match res with
  | inl _ => at_ r x s
  | inr v => ∃ fileCfg candidate runtimeCfg, starts_with x = inr fileCfg ∧ accepted (asked r fileCfg e) candidate
      ∧ effective vars e candidate runtimeCfg ∧ committed r x candidate runtimeCfg (inr v) s
  end.

Lemma overridden_ok vars c c' : overridden vars c = inr c' ↔ ApplyEnvironmentOverrides (λ key, vars !! key) c = inr c'.
Proof. unfold overridden. destruct (ApplyEnvironmentOverrides _ c); split; try done; by intros [= ->]. Qed.

Lemma update_spec o vars r x e mutator : SecPersist.plain (r_path r) → (∀ c, mutator (cloneConfig c) = asked r c e) →
  (∀ c, e ≠ Replacement c) →
  ends (at_ r x) (update encode decode decode_routes windows clock stamp rand o vars mutator) (edited r x vars e).
Proof.
  intros Hplain Hm He. unfold update. apply ends_get. intros r' ->. apply ends_load; [|done]. intros fileCfg Hf.
  apply ends_pure; [intros candidate Hc%validated_ok|done]. apply ends_pure; [intros c Ho%overridden_ok|done].
  apply ends_pure; [intros runtimeCfg Hr%validated_ok|done].
  eapply ends_weaken; [by apply (commit_spec o r x fileCfg candidate runtimeCfg Hplain)|done|].
  intros [e'|v] s Hs; [done|]. exists fileCfg, candidate, runtimeCfg. split_and!; [done|by rewrite <- Hm| |done].
  exists c. split; [done|]. by destruct e; [..|by destruct (He c0)].
Qed.

Lemma edit_spec o vars r x e : SecPersist.plain (r_path r) → ends (at_ r x) (run_edit o vars e) (edited r x vars e).
Proof.
  intros Hplain. destruct e as [p|route p|route|c]; cbn [SecRuntime.run_edit].
  - by apply update_spec.
  - unfold UpdateRoutePolicy. apply ends_get. intros r' ->. destruct (canonicalRouteName r route) as [name|] eqn:En; [|by apply ends_result].
    apply update_spec; [done| |done]. intros c. cbn. by rewrite En.
  - unfold DeleteRoutePolicy. case_match; [by apply ends_result|]. by apply update_spec.
  - unfold ReplaceConfig. apply ends_get. intros r' ->. apply ends_load; [|done]. intros fileCfg Hf. cbv zeta.
    apply ends_pure; [intros [] _|done]. apply ends_pure; [intros candidate Hc%validated_ok|done].
    apply ends_pure; [intros runtimeCfg Ho%overridden_ok|done].
    eapply ends_weaken; [by apply (commit_spec o r x fileCfg candidate runtimeCfg Hplain)|done|].
    intros [e'|v] s Hs; [done|]. exists fileCfg, candidate, runtimeCfg. split_and!; [done|done| |done]. by exists runtimeCfg.
Qed.

(** ** Every operation *)

(** What can be done to a runtime; [AdminAction e] is an edit. *)
Inductive action :=
  | AdminAction (e : edit) | FileChanged | EnvironmentChanged | RoutesChanged
  | Configure (envPath : str) (previous : WatchStatus) | Mark (path : str) | Record_ (path : str) (applied restart : bool) (err : option str).

Definition forget {S A : Type} (m : op S A) : op S () := _ ← m; mret ().

Definition perform (o : outside) (vars : variables) (a : action) : op cell () :=
  match a with
  | AdminAction e => forget (run_edit o vars e)
  | FileChanged => forget (Reload decode decode_routes windows o vars)
  | EnvironmentChanged => forget (ReloadEnvironment decode decode_routes windows o vars)
  | RoutesChanged => ReloadEdgeRoutes decode_routes
  | Configure envPath previous => ConfigureWatcher clock envPath previous
  | Mark path => MarkRestartScheduled clock path
  | Record_ path applied restart err => RecordWatchChange clock path applied restart err
  end.

(** One operation, whatever the files, the environment and the rest of the
    outside are by then. *)
Inductive step : Runtime → Runtime → Prop :=
  | Step r o vars a w ticks : step r (c_rt (perform o vars a (mkCell r w ticks)).2).

(** A start of the process. *)
Definition started (r : Runtime) : Prop :=
  ∃ o vars configPath protectedPaths w, SecPersist.plain configPath
    ∧ (New decode decode_routes windows o vars configPath protectedPaths w).1 = inr r.

Lemma forget_runtime {A : Type} (m : op cell A) s : c_rt (forget m s).2 = c_rt (m s).2.
Proof. unfold forget, mbind, op_bind. by destruct (m s) as [[|] ?]. Qed.

(** A reload that is applied makes every part anew; any other leaves the runtime. *)
Definition reloaded (r : Runtime) (x : option Persistence.entry) (fileCfg runtimeCfg : Config) (res : result verdict) (s : cell) : Prop :=
  match res with
  | inr Applied => restartRequiredChanges (cloneConfig (r_cfg r)) runtimeCfg = []
      ∧ ∃ t e i cl, parts_of runtimeCfg t e i cl
        ∧ c_rt s = with_healthy (cloneConfig fileCfg) (with_live runtimeCfg t e (with_clients cl (with_inspector i r)))
  | _ => at_ r x s
  end.

Lemma security_reload_spec o fileCfg runtimeCfg r x :
  ends (at_ r x) (reload_with decode_routes windows o fileCfg runtimeCfg) (reloaded r x fileCfg runtimeCfg).
Proof.
  unfold reload_with. apply (ends_bind _ _ _ _ _ (prepareReload_spec o runtimeCfg r x)); [|by intros e s [? _]].
  intros [fields|q]; [by intros s [? _]|]. intros s ([Hs _] & Hq & Hn & i & cl & Hparts).
  erewrite bind_run by by apply applyReload_run. cbv beta iota. erewrite bind_run by done. cbn [fst snd mret op_ret c_rt reloaded].
  subst runtimeCfg. split; [done|]. exists (q_table q), (q_edge q), i, cl. by rewrite Hs.
Qed.

Lemma sound_reload o r0 fileCfg runtimeCfg r x : sound r0 r →
  ends (at_ r x) (reload_with decode_routes windows o fileCfg runtimeCfg) (λ _ s, sound r0 (c_rt s)).
Proof.
  intros Hr. eapply ends_weaken; [apply security_reload_spec|done|]. intros [f|[|fields]] s; cbn; [by intros [-> _]| |by intros [-> _]].
  intros (Hn & t & e & i & cl & Hp & ->). by apply apply_sound.
Qed.

(** What a change of the environment comes to. *)
Definition environment_taken (vars : variables) (r : Runtime) (x : option Persistence.entry) (res : result verdict) (s : cell) : Prop :=
  match res with
  | inr Applied => ∃ fileCfg c runtimeCfg, starts_with x = inr fileCfg
      ∧ ApplyEnvironmentOverrides (λ key, vars !! key) (cloneConfig fileCfg) = inr c ∧ accepted c runtimeCfg
      ∧ (copy_equal (r_cfg r) runtimeCfg = true ∧ at_ r x s
         ∨ ∃ t e i cl, parts_of runtimeCfg t e i cl
             ∧ c_rt s = with_healthy (cloneConfig fileCfg) (with_live runtimeCfg t e (with_clients cl (with_inspector i r))))
  | _ => at_ r x s
  end.

Lemma environment_spec o vars r x : ends (at_ r x) (ReloadEnvironment decode decode_routes windows o vars) (environment_taken vars r x).
Proof.
  unfold ReloadEnvironment. apply ends_get. intros r' ->. apply ends_load; [|done]. intros fileCfg Hf.
  apply ends_pure; [intros c Ho%overridden_ok|done]. apply ends_pure; [intros runtimeCfg Hr%validated_ok|done].
  destruct (copy_equal (r_cfg r) runtimeCfg) eqn:Ec.
  - apply ends_ret. intros s Hs. exists fileCfg, c, runtimeCfg. split_and!; [done|done|done|by left].
  - eapply ends_weaken; [apply security_reload_spec|done|]. intros [f|[|fields]] s; cbn; [done| |done]. intros (_ & H).
    exists fileCfg, c, runtimeCfg. split_and!; [done|done|done|by right].
Qed.

Lemma sound_edit r0 r x vars e res s : sound r0 r → edited r x vars e res s → sound r0 (c_rt s).
Proof.
  intros Hr. destruct res as [f|v]; [by intros [-> _]|]. intros (fileCfg & candidate & c & _ & _ & _ & H). destruct v as [|fields].
  - destruct H as (Hn & _ & t & e' & i & cl & Hp & ->). by apply apply_sound.
  - destruct H as (_ & _ & _ & w & _ & _ & ->). by apply sound_watch.
Qed.

Lemma keeps_ends P {A : Type} (m : op cell A) : (∀ r x, P r → ends (at_ r x) m (λ _ s, P (c_rt s))) → ∀ s, P (c_rt s) → P (c_rt (m s).2).
Proof. intros H s Hs. by apply (H (c_rt s) (PersistFacts.current_file (r_path (c_rt s)) (disk (c_world s))) Hs s). Qed.

Lemma sound_perform r0 o vars a s : SecPersist.plain (r_path r0) → sound r0 (c_rt s) → sound r0 (c_rt (perform o vars a s).2).
Proof.
  intros Hplain Hs. destruct a as [e| | | |envPath previous|path|path applied restart err]; cbn [perform]; rewrite ?forget_runtime.
  - revert s Hs. apply keeps_ends. intros r x Hr s Hs. eapply sound_edit; [done|]. apply edit_spec; [|exact Hs]. by rewrite (so_path _ _ Hr).
  - revert s Hs. apply keeps_ends. intros r x Hr. assert (∀ s, at_ r x s → sound r0 (c_rt s)) as Ha by by intros s [-> _].
    unfold Reload. apply ends_get. intros r' ->. apply ends_load; [|auto]. intros fileCfg _.
    apply ends_pure; [intros previous _|auto]. apply ends_pure; [intros [] _|auto]. case_match; [by apply ends_ret|].
    apply ends_pure; [intros c _|auto]. apply ends_pure; [intros c' _|auto]. by apply sound_reload.
  - revert s Hs. apply keeps_ends. intros r x Hr. assert (∀ s, at_ r x s → sound r0 (c_rt s)) as Ha by by intros s [-> _].
    unfold ReloadEnvironment. apply ends_get. intros r' ->. apply ends_load; [|auto]. intros fileCfg _.
    apply ends_pure; [intros c _|auto]. apply ends_pure; [intros c' _|auto]. case_match; [by apply ends_ret|]. by apply sound_reload.
  - revert s Hs. apply keeps_ends. intros r x Hr. assert (∀ s, at_ r x s → sound r0 (c_rt s)) as Ha by by intros s [-> _].
    unfold ReloadEdgeRoutes. apply ends_get. intros r' ->. cbv zeta. apply ends_lift; [apply reads_routes| |auto]. intros table.
    apply ends_pure; [intros [] Hp|auto]. intros s [<- _]. destruct Hr as [[] ? ?]. by split; [split| |].
  - by apply sound_watch.
  - by apply sound_watch.
  - unfold RecordWatchChange, get, mbind, op_bind. cbv beta iota zeta. case_match; [done|]. destruct err, applied; by apply sound_watch.
Qed.

Lemma started_sound r : started r → SecPersist.plain (r_path r) ∧ sound r r.
Proof.
  intros (o & vars & path & protected & w & Hplain & E).
  destruct (New decode decode_routes windows o vars path protected w) as [res w'] eqn:En. cbn [fst] in E. subst res.
  unfold New in En. apply bind_inv in En as (fileCfg & w1 & _ & En). apply bind_inv in En as (c & w2 & _ & En).
  apply bind_inv in En as (c' & w3 & _ & En). apply bind_inv in En as (p & w4 & Hp & En).
  destruct (negb _); [done|]. injection En as <- _. unfold prepareRuntimeConfig in Hp.
  apply bind_inv in Hp as (u & w5 & _ & Hp). apply bind_inv in Hp as (table & w6 & _ & Hp).
  apply bind_inv in Hp as ([] & ? & [= H1 <-] & Hp). do 3 (apply bind_inv in Hp as (? & ? & [= ? <-] & Hp)). injection Hp as <- <-.
  split; [done|]. split; [|done|done]. by split.
Qed.

Lemma sound_runs r0 r : started r0 → rtc step r0 r → sound r0 r.
Proof.
  intros [Hplain Hs]%started_sound H. cut (∀ r', rtc step r' r → sound r0 r' → sound r0 r); [by intros Hc; apply (Hc r0)|].
  clear Hs H. intros r' H. induction H as [|r' r1 r2 Hstep _ IH]; [done|]. intros Hs. apply IH. destruct Hstep as [x o vars a w ticks].
  by apply sound_perform.
Qed.

(** ** The next start *)

(** What an update that needs a restart has done: loaded, checked, saved. *)
Lemma update_scheduled o vars mutator s fields s' :
  update encode decode decode_routes windows clock stamp rand o vars mutator s = (inr (RestartRequired fields), s') →
  ∃ fileCfg w1 w2 candidate c runtimeCfg st rd,
    Persistence.LoadFile decode (r_path (c_rt s)) (c_world s) = (inr fileCfg, w1) ∧ accepted (mutator (cloneConfig fileCfg)) candidate
    ∧ ApplyEnvironmentOverrides (λ key, vars !! key) (cloneConfig candidate) = inr c ∧ accepted c runtimeCfg
    ∧ validateRestartCandidate decode_routes windows o (r_protected (c_rt s)) (r_path (c_rt s)) (cloneConfig (r_cfg (c_rt s))) runtimeCfg w1 = (inr (), w2)
    ∧ Persistence.Save encode windows st rd (r_path (c_rt s)) candidate w2 = (None, c_world s').
Proof.
  unfold update. intros H. apply bind_inv in H as (r & s1 & [= <- <-] & H). apply bind_inv in H as (fileCfg & s2 & Hl & H).
  apply bind_inv in H as (candidate & s3 & [= Hc <-] & H). apply bind_inv in H as (c & s4 & [= Ho <-] & H).
  apply bind_inv in H as (runtimeCfg & s5 & [= Hr <-] & H). apply validated_ok in Hc, Hr. apply overridden_ok in Ho.
  unfold lift, load_file, from_files, LoadFile in Hl.
  destruct (Persistence.LoadFile decode (r_path (c_rt s)) (c_world s)) as [[e|f] w1] eqn:El; [done|]. injection Hl as -> <-.
  unfold commit in H. apply bind_inv in H as (r & s6 & [= <- <-] & H). cbn [c_rt] in H.
  destruct (restartRequiredChanges (cloneConfig (r_cfg (c_rt s))) runtimeCfg) as [|f fs] eqn:Ef.
  - apply bind_inv in H as (prepared & s7 & Hp & H).
    pose proof (prepareReload_spec o runtimeCfg _ _ (mkCell (c_rt s) w1 (c_ticks s)) (conj eq_refl eq_refl)) as [_ Hq]. rewrite Hp in Hq. cbn [fst] in Hq.
    destruct prepared as [l|q]; [destruct Hq as [-> []]; exact Ef|]. apply bind_inv in H as (u & s8 & _ & H).
    apply bind_inv in H as (applied & s9 & _ & H). destruct applied as [[|e]|[]]; [done| |].
    + apply bind_inv in H as (rollback & s10 & _ & H). by destruct rollback as [[]|[]].
    + by apply bind_inv in H as (u' & s10 & _ & H).
  - unfold schedule in H. apply bind_inv in H as (r & s7 & [= <- <-] & H). apply bind_inv in H as (u & s8 & Hv & H).
    apply bind_inv in H as (u' & s9 & Hs & H). apply bind_inv in H as (u2 & s10 & Hm & H). injection H as _ <-.
    assert (c_world s10 = c_world s9) as ->. { unfold MarkRestartScheduled, mbind, op_bind, now in Hm. by injection Hm as _ <-. }
    unfold lift in Hv. cbn [c_world c_rt c_ticks] in Hv.
    destruct (validateRestartCandidate _ _ _ _ _ _ _ w1) as [res w2] eqn:Ev. injection Hv as -> <-.
    unfold save, fresh, lift, mbind, op_bind in Hs. cbn [c_world c_rt c_ticks] in Hs. unfold Save in Hs.
    destruct (Persistence.Save _ _ _ _ _ _ w2) as [[e|] w3] eqn:Es; [done|]. injection Hs as _ <-. destruct u.
    exists fileCfg, w1, w2, candidate, c, runtimeCfg, (stamp (c_ticks s)), (rand (c_ticks s)). by split_and!.
Qed.

Lemma candidate_prepared o protected path cur next w w' :
  validateRestartCandidate decode_routes windows o protected path cur next w = (inr (), w') →
  ∃ p, prepareRuntimeConfig decode_routes windows o path next protected w = (inr p, w').
Proof.
  unfold validateRestartCandidate. intros H. apply bind_inv in H as (prepared & w1 & Hp & H). unfold attempt in Hp.
  destruct (prepareRuntimeConfig _ _ _ _ _ _ w) as [r w2]. injection Hp as -> ->. cbv zeta in H.
  destruct prepared as [[|e]|p]; [done| |].
  - exfalso. revert H. set (errs := _ ++ _). assert (errs ≠ []) as Hne by (intros Hn; apply app_nil in Hn as [_ Hn]; by apply app_nil in Hn as [? _]).
    by destruct errs.
  - exists p. f_equal. revert H. set (errs := _ ++ _). destruct errs; [by intros [= ->]|done].
Qed.

Lemma look_again path w w' f w1 : look path w = (f, w1) → f ≠ Failed → faults w' = [] → disk w' !! path = disk w !! path → (look path w').1 = f.
Proof.
  unfold look, call. intros H Hf -> Hd. cbn. rewrite Hd. destruct (faults w) as [|[n|] fs]; cbn in H; [by injection H|by injection H as <-|by injection H].
Qed.

Lemma routes_again path w w' t w1 : load_routes decode_routes path w = (inr t, w1) → faults w' = [] → disk w' !! path = disk w !! path →
  ∃ w1', load_routes decode_routes path w' = (inr t, w1').
Proof.
  unfold load_routes, look_up, mbind, op_bind, of_result. destruct (look path w) as [f w2] eqn:El. intros H Hf Hd.
  pose proof (look_again _ _ w' _ _ El) as Ha. destruct (look path w') as [f' w2']. cbn [fst] in Ha.
  apply pair_equal_spec in H as [H _]. destruct f as [| |e]; [done|done|]. rewrite Ha by done. rewrite H. by eexists.
Qed.

Lemma prepare_again o path cfg protected p w w1 w' :
  prepareRuntimeConfig decode_routes windows o path cfg protected w = (inr p, w1) → faults w' = [] →
  disk w' !! resolveEdgeConfigPath path (ep_path (edgeproxy cfg)) = disk w !! resolveEdgeConfigPath path (ep_path (edgeproxy cfg)) →
  ∃ w1', prepareRuntimeConfig decode_routes windows o path cfg protected w' = (inr p, w1').
Proof.
  unfold prepareRuntimeConfig. intros H Hf Hd. apply bind_inv in H as (u & w2 & [= H1 <-] & H).
  apply bind_inv in H as (t & w3 & Ht & H). apply bind_inv in H as (u' & w4 & [= H2 <-] & H).
  apply bind_inv in H as (edge & w5 & [= H3 <-] & H). apply bind_inv in H as (i & w6 & [= H4 <-] & H).
  apply bind_inv in H as (cl & w7 & [= H5 <-] & H). injection H as <- <-.
  destruct (routes_again _ _ w' _ _ Ht Hf Hd) as [w1' Ht']. exists w1'.
  rewrite (bind_run _ _ w' u w') by (unfold of_result; by rewrite H1). rewrite (bind_run _ _ w' t w1') by done.
  unfold of_result. rewrite (bind_run _ _ w1' u' w1') by by rewrite H2. rewrite (bind_run _ _ w1' edge w1') by by rewrite H3.
  rewrite (bind_run _ _ w1' i w1') by by rewrite H4. by rewrite (bind_run _ _ w1' cl w1') by by rewrite H5.
Qed.

(** A start finds what is on the disk. *)
Lemma LoadFile_there path d e : d !! path = Some e →
  ∃ w, Persistence.LoadFile decode path (mkWorld d [] []) = (starts_with (Some e), w) ∧ disk w = d ∧ faults w = [].
Proof.
  intros Hd. unfold Persistence.LoadFile, Persistence.readConfigForLoad, PersistFacts.config_of, mbind, sys_bind, look, call, mret, sys_ret.
  cbn [disk faults fst snd]. rewrite Hd. destruct (bounded (Found e)) as [data|]; [|by eexists]. cbn [fmap option_fmap option_map].
  destruct (decode data) as [c|]; [|by eexists]. destruct (doc_validate c) as [[|] ?]; by eexists.
Qed.

(** C7: However the configuration is edited, replaced or reloaded, and whatever
    becomes of the files in between, what serves requests is always built from
    one configuration, the one that is reported: the inspector from its rules,
    the resolver from its trusted proxies, the client of EdgeProxy from its
    address, and every policy is for a route of the table in use. *)
Theorem one_configuration r0 r : started r0 → rtc step r0 r →
  Waf.NewInspector (waf_rules (waf (r_cfg r))) (waf_max (waf (r_cfg r))) = inr (r_inspector r)
  ∧ Resolver.New (items (s_trusted (server (r_cfg r)))) (s_forwarded (server (r_cfg r))) = Some (r_clients r)
  ∧ EdgeAdmin.New (ep_url (edgeproxy (r_cfg r))) (ep_token (edgeproxy (r_cfg r))) (ep_timeout (edgeproxy (r_cfg r))) = inr (r_edge r)
  ∧ ∀ name p, route_policies (r_cfg r) !! name = Some p →
      ∃ route, route ∈ r_table r ∧ to_lower (Routes.Name route) = to_lower (trim_space name).
Proof.
  intros H0 H. destruct (sound_runs _ _ H0 H) as [[Hi Hc He Hp] _ _]. split_and!; [| |done|].
  - unfold new_inspector in Hi. destruct (Waf.NewInspector _ _) as [[]|i]; try done. by injection Hi as ->.
  - unfold new_clients in Hc. destruct (Resolver.New _ _) as [cl|]; [|done]. by injection Hc as ->.
  - intros name p. by apply policies_named.
Qed.

(** What the process captured when it started is never changed under it: the
    listener, TLS, limits and transport of the server, the admin section, and the
    sizes of the rate limiter and the ban list are the same in every
    configuration that is applied without a restart. *)
Theorem captured_settings_stay r0 r : started r0 → rtc step r0 r →
  captured (r_cfg r) = captured (r_cfg r0) ∧ r_path r = r_path r0.
Proof. intros H0 H. by destruct (sound_runs _ _ H0 H). Qed.

(** The configuration that a load of the file gives, before the overrides of the
    environment. *)
Definition file_config (r : Runtime) (s : cell) : str + Config := PersistFacts.restart decode (r_path r) (disk (c_world s)).

(** The node that a load of the file reads. *)
Definition file_node (r : Runtime) (s : cell) : option Persistence.entry := PersistFacts.current_file (r_path r) (disk (c_world s)).


(** C18: A policy edit that needs a restart is only accepted when the restart will
    work: from the files it leaves the next process starts, and runs the edited
    configuration under the environment's overrides.  The conditions: the edit
    is one of a policy, not a replacement of the whole configuration; the route
    file is none of the files that saving writes, and nothing but the edit
    changes the files in between; the security log can be opened; validating
    the edited configuration once more changes nothing (as it does an excluded
    prefix that was left with a blank at its end); the path of the configuration is no name that saving
    uses for its own files, and the JSON codec reads back what it has
    written. *)
Theorem accepted_restart_starts o vars e s fields s' :
  SecPersist.plain (r_path (c_rt s)) → (∀ c, e ≠ Replacement c) → run_edit o vars e s = (inr (RestartRequired fields), s') →
  ∃ fileCfg candidate c runtimeCfg, file_config (c_rt s) s = inr fileCfg ∧ accepted (asked (c_rt s) fileCfg e) candidate
    ∧ ApplyEnvironmentOverrides (λ key, vars !! key) (cloneConfig candidate) = inr c ∧ accepted c runtimeCfg
    ∧ (accepted candidate candidate →
       PersistFacts.apart (C := Config) (r_path (c_rt s)) (resolveEdgeConfigPath (r_path (c_rt s)) (ep_path (edgeproxy runtimeCfg))) →
       o_log o (a_log (admin runtimeCfg)) = true →
       ∃ r', (New decode decode_routes windows o vars (r_path (c_rt s)) (r_protected (c_rt s)) (mkWorld (disk (c_world s')) [] [])).1 = inr r'
         ∧ r_cfg r' = runtimeCfg).
Proof.
  intros Hplain He H. set (r := c_rt s) in *.
  assert (∃ mutator, update encode decode decode_routes windows clock stamp rand o vars mutator s = (inr (RestartRequired fields), s')
    ∧ ∀ c, mutator (cloneConfig c) = asked r c e) as (mutator & Hu & Hm).
  { destruct e as [p|route p|route|c]; cbn [SecRuntime.run_edit] in H; [by eexists| | |by destruct (He c)].
    - unfold UpdateRoutePolicy in H. apply bind_inv in H as (r' & s1 & [= <- <-] & H). fold r in H. unfold asked.
      destruct (canonicalRouteName r route); [by eexists|done].
    - unfold DeleteRoutePolicy in H. destruct (_ =?s _); [done|by eexists]. }
  apply update_scheduled in Hu as (fileCfg & w1 & w2 & candidate & c & runtimeCfg & st & rd & Hl & Hc & Ho & Hr & Hv & Hs). fold r in Hl, Hv, Hs.
  exists fileCfg, candidate, c, runtimeCfg. split; [unfold file_config; eapply PersistFacts.LoadFile_restart; by rewrite Hl|].
  rewrite <- Hm. do 3 (split; [done|]). intros Hstable Hapart Hlog.
  apply candidate_prepared in Hv as [p Hp].
  assert (disk (c_world s') !! r_path r = Some (Regular (default [] (encode candidate) ++ [chr 10]))
    ∧ starts_with (disk (c_world s') !! r_path r) = inr candidate) as [Hfile Hstart].
  { pose proof (PersistFacts.save_safe encode decode windows st rd (r_path r) candidate w2 Hplain) as (data & Hsafe). rewrite Hs in Hsafe.
    destruct Hsafe as [_ [(c' & text & Ec & Et & -> & _) Hd]]. assert (c' = candidate) as -> by (unfold accepted in Hstable; change (Validate candidate = ([], c')) in Ec; congruence).
    pose proof (PersistFacts.save_restart encode decode windows st rd (r_path r) candidate w2 Hplain Hcodec Hstable) as Hre. rewrite Hs in Hre.
    rewrite PersistFacts.restart_spec in Hre. unfold PersistFacts.current_file in Hre. rewrite Hd in *. split; [by rewrite Et|done]. }
  rewrite Hfile in Hstart. destruct (LoadFile_there _ _ _ Hfile) as (w3 & Hload & Hd3 & Hf3). rewrite Hstart in Hload.
  pose proof (PersistFacts.Save_untouched encode windows st rd (r_path r) _ candidate Hapart _ _ w2 (conj eq_refl eq_refl)) as Hk. rewrite Hs in Hk.
  destruct Hk as [[Hk _] _].
  pose proof (reads_prepare o (r_path r) runtimeCfg (r_protected r) w1) as Hw2. rewrite Hp in Hw2. cbn [snd] in Hw2.
  destruct (prepare_again _ _ _ _ _ _ _ w3 Hp Hf3) as [w4 Hp']; [by rewrite Hd3, Hk, Hw2|].
  exists (mkRuntime (r_path r) (r_protected r) (p_cfg p) (p_table p) (p_edge p) (p_inspector p) (p_clients p) (cloneConfig candidate) no_watch).
  assert (p_cfg p = runtimeCfg) as Hcfg.
  { unfold prepareRuntimeConfig in Hp. repeat (apply bind_inv in Hp as (? & ? & _ & Hp)). by injection Hp as <- _. }
  split; [|done]. unfold New. rewrite (bind_run _ _ _ candidate w3); cycle 1.
  { unfold load_file, from_files, LoadFile. by rewrite Hload. }
  rewrite (bind_run _ _ w3 c w3) by (unfold of_result; f_equal; by apply overridden_ok).
  rewrite (bind_run _ _ w3 runtimeCfg w3) by (unfold of_result; f_equal; by apply validated_ok).
  rewrite (bind_run _ _ w3 p w4) by done. by rewrite Hcfg, Hlog.
Qed.

(** ** Policies *)

Lemma overrides_keep (vars : variables) c c' : ApplyEnvironmentOverrides (λ key, vars !! key) c = inr c' →
  default_policy c' = default_policy c ∧ route_policies c' = route_policies c.
Proof. unfold ApplyEnvironmentOverrides. repeat case_match; try done. by intros [= <-]. Qed.

(** The policies that an applied edit makes the gateway use. *)
Lemma applied_policies o vars e s s' : SecPersist.plain (r_path (c_rt s)) → (∀ c, e ≠ Replacement c) → run_edit o vars e s = (inr Applied, s') →
  ∃ fileCfg candidate c, accepted (asked (c_rt s) fileCfg e) candidate ∧ accepted c (r_cfg (c_rt s'))
    ∧ default_policy c = default_policy candidate ∧ route_policies c = route_policies candidate.
Proof.
  intros Hplain He H. pose proof (edit_spec o vars (c_rt s) _ e Hplain s (conj eq_refl eq_refl)) as Hs. rewrite H in Hs. cbn [fst snd edited] in Hs.
  destruct Hs as (fileCfg & candidate & runtimeCfg & _ & Hc & (c & Ho & Hr) & _ & _ & t & e' & i & cl & _ & ->). cbn [r_cfg with_healthy with_live].
  apply overrides_keep in Ho as [Hd Hp]. exists fileCfg, candidate, c. split_and!; [done| |done|done]. by destruct e; [..|by destruct (He c0)].
Qed.

Lemma effective_here r name p : route_policies (r_cfg r) !! name = Some p → EffectivePolicy r name = p.
Proof. unfold EffectivePolicy. by intros ->. Qed.

(** A route policy that is applied is the one the gateway uses for that route
    from then on, in its normalised form, however the route's name was spelled
    and whatever other policies there were. *)
Theorem route_edit_takes_effect o vars route p s s' : SecPersist.plain (r_path (c_rt s)) → stable_text →
  run_edit o vars (EditRoute route p) s = (inr Applied, s') →
  ∃ name p', canonicalRouteName (c_rt s) route = Some name ∧ validatePolicy p = ([], p')
    ∧ validatePolicy p' = ([], EffectivePolicy (c_rt s') name) ∧ (paths_trimmed p' → EffectivePolicy (c_rt s') name = p').
Proof.
  intros Hplain HT H. destruct (canonicalRouteName (c_rt s) route) as [name|] eqn:En; cycle 1.
  { exfalso. cbn [SecRuntime.run_edit] in H. unfold UpdateRoutePolicy in H. apply bind_inv in H as (r & s1 & [= <- <-] & H). by rewrite En in H. }
  destruct (applied_policies o vars (EditRoute route p) s s' Hplain ltac:(done) H) as (fileCfg & candidate & c & H1 & H2 & _ & Hp). exists name.
  apply accepted_parts in H1 as (_ & H1 & _), H2 as (_ & H2 & _). cbn [asked] in H1. rewrite En in H1.
  apply route_policies_spec in H1 as (_ & _ & H1), H2 as (_ & _ & H2). rewrite Hp in H2.
  destruct (H1 name p) as (p' & Hv & _ & E1); [apply lookup_insert_eq|]. destruct (H2 name p' E1) as (p2 & Hv2 & _ & E2).
  exists p'. rewrite (effective_here _ _ _ E2). split_and!; [done|done|done|]. intros Ht.
  pose proof (validatePolicy_again HT _ _ Hv Ht) as Hv3. congruence.
Qed.

(** When a route's policy has been deleted, the route has the default policy,
    under any spelling of its name. *)
Theorem route_delete_takes_effect o vars route name s s' : SecPersist.plain (r_path (c_rt s)) →
  run_edit o vars (DropRoute route) s = (inr Applied, s') →
  equal_fold name name = true → (∀ k, equal_fold k name = true → equal_fold k route = true) →
  EffectivePolicy (c_rt s') name = default_policy (r_cfg (c_rt s')).
Proof.
  intros Hplain H Hn Hk. destruct (applied_policies o vars (DropRoute route) s s' Hplain ltac:(done) H) as (fileCfg & candidate & c & H1 & H2 & _ & Hp).
  apply accepted_parts in H1 as (_ & H1 & _), H2 as (_ & H2 & _). apply route_policies_spec in H1 as (H1 & _), H2 as (H2 & _).
  rewrite Hp, H1 in H2. assert (∀ k p, route_policies (r_cfg (c_rt s')) !! k = Some p → equal_fold k name = false) as Hgone.
  { intros k p Hkp. apply not_true_is_false. intros Hf. assert (k ∈ dom (route_policies (asked (c_rt s) fileCfg (DropRoute route)))) as Hin
      by (rewrite <- H2; by eapply elem_of_dom_2).
    apply elem_of_dom in Hin as [p' [_ Hin]%map_lookup_filter_Some]. cbn in Hin. by rewrite Hk in Hin. }
  unfold EffectivePolicy. destruct (route_policies _ !! name) as [p|] eqn:E; [apply Hgone in E; congruence|].
  destruct (list_find _ _) as [[i [k p]]|] eqn:Ef; [|done]. apply list_find_Some in Ef as (Hi & Hf & _). cbn in Hf.
  apply list_elem_of_lookup_2 in Hi. rewrite (range_perm _ _), elem_of_map_to_list in Hi. apply Hgone in Hi. congruence.
Qed.

End edits.
End runtime.

End RuntimeFacts.
