(* ===== verification/SecRuntimeSamples.v ===== *)
(** * A running SecurityEdge: the theorems of SecRuntimeFacts.v on concrete files

    One configuration, one route file, a disk with both, and what happens when
    the policies are edited.  The last section has two edits that the program
    should treat otherwise. *)

From S2P Require Import Prelude GoStr GoPath GoText GoHttp GoCodec GoFloat GoOS NetIP Config ConfigValidate ConfigFacts ConfigStable ConfigEnv ConfigPersist ConfigPersistFacts Router RouteTable ClientIP RateLimit SecPolicy Waf SecConfig SecConfigFacts SecPersist SecPersistFacts SecPaths SecPathsFacts SecRuntime SecRuntimeFacts.

Module RuntimeSamples.
Import Persistence SecConfig SecFacts SecPersist SecPersistFacts SecPaths SecPathsFacts SecRuntime RuntimeFacts.

#[local] Instance s_unicode : Unicode := unicode_ascii.
#[local] Instance s_resolve : Resolve := Facts.sample_resolve.
#[local] Instance s_lib : WafLib := sample_lib.
#[local] Instance s_sha : Sha256 := λ s, s.
#[local] Instance s_range : MapRange := range_listed.

(** A codec that knows two configurations. *)
Definition two_encode (a b c : Config) : option str :=
  if bool_decide (c = a) then Some (lit "a") else if bool_decide (c = b) then Some (lit "b") else None.
Definition two_decode (a b : Config) (text : str) : option Config :=
  if text =?s ("a" ++ [chr 10]) then Some a else if text =?s ("b" ++ [chr 10]) then Some b else None.

Lemma sec_two_codec a b : PersistFacts.codec (two_encode a b) (two_decode a b).
Proof. intros c text. unfold two_encode. do 2 (case_bool_decide; [intros [= <-]; by subst|]). done. Qed.

Definition sample_routes (text : str) : option (list Routes.Route) :=
  if text =?s "routes" then Some [Routes.of_config (Facts.sample_route "app" "app.test" "/" "http://10.0.0.1:80")] else None.

Definition sample_outside : outside :=
  mkOutside empty_tree (λ _ _, true) (λ _, true) (λ _, true) (λ _, true) (λ _, true) (λ _, true) (λ _, Gone) (λ _, true) (λ _, true) (λ _, true).

Definition sample_disk : files := {[ lit "/etc/security.json" := Regular ("a" ++ [chr 10]); lit "/etc/edgeproxy.json" := Regular "routes" ]}.

Section sample.
Context (a b : Config) (vars : variables).

Definition boots (d : files) : result Runtime :=
  (New (two_decode a b) sample_routes false sample_outside vars "/etc/security.json" [] (mkWorld d [] [])).1.

Definition edits (e : edit) (s : cell) : result verdict * cell :=
  run_edit (two_encode a b) (two_decode a b) sample_routes false (λ _, []) (λ _, lit "stamp") (λ _, lit "rand") sample_outside vars e s.

Definition sample_cell (r : Runtime) : cell := mkCell r (mkWorld sample_disk [] []) 0.

(** Starting from the sample disk and editing, as far as it can be computed. *)
Definition told (e : edit) (P : Runtime → verdict → cell → bool) : bool :=
  match boots sample_disk with
  | inr r => match edits e (sample_cell r) with (inr v, s') => P r v s' | _ => false end
  | inl _ => false
  end.

Lemma told_story e P : told e P = true → ∃ r v s', boots sample_disk = inr r ∧ edits e (sample_cell r) = (inr v, s') ∧ P r v s' = true.
Proof.
  unfold told. destruct (boots sample_disk) as [|r]; [done|]. destruct (edits e (sample_cell r)) as [[|v] s'] eqn:E; [done|]. intros H. by exists r, v, s'.
Qed.

Lemma boots_path d r : boots d = inr r → r_path r = lit "/etc/security.json".
Proof.
  unfold boots. intros E. destruct (New _ _ _ _ _ _ _ _) as [res w'] eqn:En. cbn [fst] in E. subst res. unfold New in En.
  do 4 (apply bind_inv in En as (? & ? & _ & En)). destruct (negb _); [done|]. by injection En as <- _.
Qed.

Lemma boots_started r : boots sample_disk = inr r → started (two_decode a b) sample_routes false r.
Proof. intros H. exists sample_outside, vars, (lit "/etc/security.json"), [], (mkWorld sample_disk [] []). split; [exact sample_plain|exact H]. Qed.

Lemma boots_plain r : boots sample_disk = inr r → SecPersist.plain (r_path r).
Proof. intros ->%boots_path. exact sample_plain. Qed.

Lemma story_step r e v s' : edits e (sample_cell r) = (inr v, s') →
  step (two_encode a b) (two_decode a b) sample_routes false (λ _, []) (λ _, lit "stamp") (λ _, lit "rand") r (c_rt s').
Proof.
  intros H. pose proof (Step (two_encode a b) (two_decode a b) sample_routes false (λ _, []) (λ _, lit "stamp") (λ _, lit "rand")
    r sample_outside vars (AdminAction e) (mkWorld sample_disk [] []) 0) as Hs.
  cbn [perform] in Hs. rewrite forget_runtime in Hs. change (mkCell r (mkWorld sample_disk [] []) 0) with (sample_cell r) in Hs. unfold edits in H. by rewrite H in Hs.
Qed.

End sample.

(** The policy of the route is only logged. *)
Definition logging (p : Policy) : Policy :=
  mkPolicy (policy_enabled p) "Log" (anomaly_threshold p) (inspect_request_body p) (max_inspection_body_bytes p) (body_content_types p)
    (allowed_methods p) (excluded_path_prefixes p) (disabled_rules p) (ip_allowlist p) (ip_denylist p) (max_path_bytes p) (max_query_bytes p)
    (max_header_count p) (max_header_value_bytes p) (reject_encoded_request_bodies p) (reject_unsupported_body_types p)
    (block_on_inspection_limit p) (rate_limit p) (auto_ban p).

Definition logged : Config := (Validate (set_route "app" (logging sample_policy) (cloneConfig sample_valid))).2.

Definition log_edit : edit := EditRoute " APP " (logging sample_policy).

Lemma log_story : told sample_valid logged ∅ log_edit (λ _ v s',
  match v with Applied => policy_mode (EffectivePolicy (c_rt s') "app") =?s "log" | _ => false end) = true.
Proof. vm_compute. reflexivity. Qed.

Lemma route_edit_takes_effect_witness : ∃ r s', boots sample_valid logged ∅ sample_disk = inr r
  ∧ edits sample_valid logged ∅ log_edit (sample_cell r) = (inr Applied, s')
  ∧ policy_mode (EffectivePolicy (c_rt s') "app") = lit "log"
  ∧ ∃ name p', canonicalRouteName r " APP " = Some name ∧ validatePolicy p' = ([], EffectivePolicy (c_rt s') name).
Proof.
  destruct (told_story _ _ _ _ _ log_story) as (r & [|fields] & s' & Hb & He & Hm); [|discriminate Hm].
  exists r, s'. split; [exact Hb|]. split; [exact He|]. split; [exact (proj1 (eqs_true _ _) Hm)|].
  destruct (route_edit_takes_effect (two_encode sample_valid logged) (two_decode sample_valid logged) sample_routes false (λ _, []) (λ _, lit "stamp")
    (λ _, lit "rand") (sec_two_codec _ _) sample_outside ∅ " APP " (logging sample_policy) (sample_cell r) s' (boots_plain _ _ _ _ Hb) sample_text He)
    as (name & p' & H1 & _ & H2 & _).
  exists name, p'. split; [exact H1|exact H2].
Defined.

Lemma one_configuration_witness : ∃ r s', boots sample_valid logged ∅ sample_disk = inr r
  ∧ edits sample_valid logged ∅ log_edit (sample_cell r) = (inr Applied, s')
  ∧ Waf.NewInspector (waf_rules (waf (r_cfg (c_rt s')))) (waf_max (waf (r_cfg (c_rt s')))) = inr (r_inspector (c_rt s')).
Proof.
  destruct (told_story _ _ _ _ _ log_story) as (r & [|fields] & s' & Hb & He & Hm); [|discriminate Hm].
  exists r, s'. split; [exact Hb|]. split; [exact He|].
  exact (proj1 (one_configuration (two_encode sample_valid logged) (two_decode sample_valid logged) sample_routes false (λ _, [])
    (λ _, lit "stamp") (λ _, lit "rand") (sec_two_codec _ _) r (c_rt s') (boots_started _ _ _ _ Hb) (rtc_once _ _ (story_step _ _ _ _ _ _ _ He)))).
Defined.

(** The listener of an edited runtime is the one of the start. *)
Lemma captured_settings_stay_witness : ∃ r s', boots sample_valid logged ∅ sample_disk = inr r
  ∧ edits sample_valid logged ∅ log_edit (sample_cell r) = (inr Applied, s')
  ∧ captured (r_cfg (c_rt s')) = captured (r_cfg r).
Proof.
  destruct (told_story _ _ _ _ _ log_story) as (r & [|fields] & s' & Hb & He & Hm); [|discriminate Hm].
  exists r, s'. split; [exact Hb|]. split; [exact He|].
  exact (proj1 (captured_settings_stay (two_encode sample_valid logged) (two_decode sample_valid logged) sample_routes false (λ _, [])
    (λ _, lit "stamp") (λ _, lit "rand") (sec_two_codec _ _) r (c_rt s') (boots_started _ _ _ _ Hb) (rtc_once _ _ (story_step _ _ _ _ _ _ _ He)))).
Defined.

Definition unlisted : Config := (Validate (drop_route "APP" (cloneConfig sample_valid))).2.

Lemma drop_story : told sample_valid unlisted ∅ (DropRoute "APP") (λ r v s',
  match v with Applied => policy_mode (EffectivePolicy r "App") =?s "block" | _ => false end) = true.
Proof. vm_compute. reflexivity. Qed.

Lemma route_delete_takes_effect_witness : ∃ r s', boots sample_valid unlisted ∅ sample_disk = inr r
  ∧ edits sample_valid unlisted ∅ (DropRoute "APP") (sample_cell r) = (inr Applied, s')
  ∧ EffectivePolicy (c_rt s') "APP" = default_policy (r_cfg (c_rt s')).
Proof.
  destruct (told_story _ _ _ _ _ drop_story) as (r & [|fields] & s' & Hb & He & Hm); [|discriminate Hm].
  exists r, s'. split; [exact Hb|]. split; [exact He|].
  apply (route_delete_takes_effect (two_encode sample_valid unlisted) (two_decode sample_valid unlisted) sample_routes false (λ _, [])
    (λ _, lit "stamp") (λ _, lit "rand") (sec_two_codec _ _) sample_outside ∅ "APP" "APP" (sample_cell r) s' (boots_plain _ _ _ _ Hb) He);
    [vm_compute; reflexivity|by intros k].
Defined.

(** More clients for the rate limiter: the limiter has to be made anew. *)
Definition wider (p : Policy) : Policy :=
  let rl := rate_limit p in
  mkPolicy (policy_enabled p) (policy_mode p) (anomaly_threshold p) (inspect_request_body p) (max_inspection_body_bytes p) (body_content_types p)
    (allowed_methods p) (excluded_path_prefixes p) (disabled_rules p) (ip_allowlist p) (ip_denylist p) (max_path_bytes p) (max_query_bytes p)
    (max_header_count p) (max_header_value_bytes p) (reject_encoded_request_bodies p) (reject_unsupported_body_types p)
    (block_on_inspection_limit p)
    (Limiter.mkRateCfg (Limiter.Enabled rl) (Limiter.RequestsPerSecond rl) (Limiter.Burst rl) (Limiter.GlobalRequestsPerSecond rl)
       (Limiter.GlobalBurst rl) (Limiter.CleanupInterval rl) (Limiter.IdleTTL rl) 200000) (auto_ban p).

Definition widened : Config := (Validate (set_default (wider sample_policy) (cloneConfig sample_valid))).2.
Definition widen_edit : edit := EditDefault (wider sample_policy).

Lemma widened_accepted : accepted (set_default (wider sample_policy) (cloneConfig sample_valid)) widened.
Proof. vm_compute. reflexivity. Qed.

Lemma widened_again : accepted widened widened.
Proof. vm_compute. reflexivity. Qed.

Lemma widened_clone : accepted (cloneConfig widened) widened.
Proof. vm_compute. reflexivity. Qed.

Lemma accepted_same c x y : accepted c x → accepted c y → x = y.
Proof. unfold accepted. congruence. Qed.

Lemma widen_story : told sample_valid widened ∅ widen_edit (λ _ v _,
  match v with RestartRequired fields => bool_decide (fields = [lit "default_policy.rate_limit.max_buckets"]) | _ => false end) = true.
Proof. vm_compute. reflexivity. Qed.

Lemma no_overrides c : ApplyEnvironmentOverrides (λ key, (∅ : variables) !! key) c = inr c.
Proof. destruct c as [[] [] [] ? ? ?]. destruct s_tls0, a_log0, a_connectivity0, a_history0. destruct cn_dns0. vm_compute. reflexivity. Qed.

Lemma sample_start r : boots sample_valid widened ∅ sample_disk = inr r →
  file_config (two_decode sample_valid widened) r (sample_cell r) = inr sample_valid.
Proof. intros H. unfold file_config. rewrite (boots_path _ _ _ _ _ H). vm_compute. reflexivity. Qed.

Lemma sample_apart path : path = lit "/etc/security.json" →
  PersistFacts.apart (C := Config) path (resolveEdgeConfigPath path (ep_path (edgeproxy widened))).
Proof.
  intros ->. assert (resolveEdgeConfigPath "/etc/security.json" (ep_path (edgeproxy widened)) = lit "/etc/edgeproxy.json") as -> by (vm_compute; reflexivity).
  split_and!; intros; split; done.
Qed.

Lemma accepted_restart_starts_witness : ∃ r fields s' r', boots sample_valid widened ∅ sample_disk = inr r
  ∧ edits sample_valid widened ∅ widen_edit (sample_cell r) = (inr (RestartRequired fields), s')
  ∧ fields = [lit "default_policy.rate_limit.max_buckets"]
  ∧ (New (two_decode sample_valid widened) sample_routes false sample_outside ∅ (r_path r) (r_protected r) (mkWorld (disk (c_world s')) [] [])).1 = inr r'.
Proof.
  destruct (told_story _ _ _ _ _ widen_story) as (r & [|fields] & s' & Hb & He & Hm); [discriminate Hm|].
  destruct (accepted_restart_starts (two_encode sample_valid widened) (two_decode sample_valid widened) sample_routes false (λ _, []) (λ _, lit "stamp")
    (λ _, lit "rand") (sec_two_codec _ _) sample_outside ∅ widen_edit (sample_cell r) fields s' (boots_plain _ _ _ _ Hb) ltac:(discriminate) He)
    as (fileCfg & candidate & c & runtimeCfg & H1 & H2 & H3 & H4 & H5).
  pose proof (inj inr _ _ (eq_trans (eq_sym H1) (sample_start _ Hb))) as ->.
  pose proof (accepted_same _ _ _ H2 widened_accepted) as ->.
  pose proof (inj inr _ _ (eq_trans (eq_sym (no_overrides _)) H3)) as <-.
  pose proof (accepted_same _ _ _ H4 widened_clone) as ->.
  destruct (H5 widened_again (sample_apart _ (boots_path _ _ _ _ _ Hb)) eq_refl) as (r' & Hn & _).
  exists r, fields, s', r'. split_and!; [exact Hb|exact He|exact (bool_decide_eq_true_1 _ Hm)|exact Hn].
Defined.

Lemma log_accepted : accepted (set_route "app" (logging sample_policy) (cloneConfig sample_valid)) logged.
Proof. vm_compute. reflexivity. Qed.

Lemma log_again : accepted logged logged.
Proof. vm_compute. reflexivity. Qed.

Lemma log_start r : boots sample_valid logged ∅ sample_disk = inr r →
  file_config (two_decode sample_valid logged) r (sample_cell r) = inr sample_valid.
Proof. intros H. unfold file_config. rewrite (boots_path _ _ _ _ _ H). vm_compute. reflexivity. Qed.

Lemma log_name : told sample_valid logged ∅ log_edit (λ r _ _, bool_decide (canonicalRouteName r " APP " = Some (lit "app"))) = true.
Proof. vm_compute. reflexivity. Qed.


(** ** Edits that the program should treat otherwise *)

(** A configuration whose connectivity monitor asks a DNS server. *)
Definition probing (c : Config) : Config :=
  let a := admin c in let cn := a_connectivity a in
  mkConfig (server c)
    (with_connectivity (mkConnectivity true (cn_interval cn) (cn_timeout cn) (cn_stale cn) (cn_history cn)
       (mkDNS true false "192.0.2.1:53" (Some (lits ["Example.com"])) None)) a)
    (edgeproxy c) (waf c) (default_policy c) (route_policies c).
Definition probing_valid : Config := (Validate (probing sample_config)).2.

Lemma probing_accepted : accepted (probing sample_config) probing_valid.
Proof. vm_compute. reflexivity. Qed.

Lemma unchanged_configuration_witness :
  dns_probed probing_valid ∧ restartRequiredChanges (cloneConfig probing_valid) probing_valid = [lit "admin"].
Proof.
  assert (dns_probed probing_valid) as Hp by (split_and!; vm_compute; reflexivity). split; [exact Hp|].
  exact (unchanged_configuration (probing sample_config) probing_valid probing_accepted Hp).
Defined.

Definition probing_logged : Config := (Validate (set_route "app" (logging sample_policy) (cloneConfig probing_valid))).2.

(** So the edit that was applied above needs a restart here. *)
Example probing_edit_restarts : told probing_valid probing_logged ∅ log_edit (λ _ v _,
  match v with RestartRequired fields => bool_decide (fields = [lit "admin"]) | _ => false end) = true.
Proof. vm_compute. reflexivity. Qed.

(** The environment moves the admin API to another port. *)
Definition moved_admin : variables := {[ lit "SECURITYEDGE_ADMIN_LISTEN_ADDR" := lit "127.0.0.1:9443" ]}.

(** A configuration that is sound but for this override. *)
Definition collides : Config :=
  let s := server sample_valid in
  mkConfig (mkServerConfig (s_mode s) "0.0.0.0:9443" (s_upstream s) (s_read_header s) (s_read s) (s_write s) (s_idle s) (s_shutdown s)
      (s_max_header s) (s_max_body s) (s_max_concurrent s) (s_max_per_client s) (s_trusted s) (s_forwarded s) (s_preserve_host s)
      (s_security_headers s) (s_tls s) (s_transport s))
    (admin sample_valid) (edgeproxy sample_valid) (waf sample_valid) (default_policy sample_valid) (route_policies sample_valid).

(** A replacement is checked without the overrides of the environment, unlike
    every other edit: here the runtime accepts one, saves it and asks for a
    restart, and from the files it leaves the next start fails, because under the
    override the two listeners collide. *)
Theorem replacement_may_not_start :
  match boots sample_valid collides moved_admin sample_disk with
  | inr r =>
      match edits sample_valid collides moved_admin (Replacement collides) (sample_cell r) with
      | (inr (RestartRequired fields), s') =>
          fields = [lit "server.listen_addr"]
          ∧ boots sample_valid collides moved_admin (disk (c_world s')) = inl (Error "server.listen_addr and admin.listen_addr overlap")
      | _ => False
      end
  | inl _ => False
  end.
Proof.
  assert (told sample_valid collides moved_admin (Replacement collides) (λ _ v s', match v with RestartRequired fields =>
    bool_decide (fields = [lit "server.listen_addr"])
    && match boots sample_valid collides moved_admin (disk (c_world s')) with inl (Error e) => e =?s "server.listen_addr and admin.listen_addr overlap" | _ => false end
    | _ => false end) = true) as (r & v & s' & -> & -> & H)%told_story by (vm_compute; reflexivity).
  destruct v as [|fields]; [done|]. apply andb_true_iff in H as [H1%bool_decide_eq_true H2]. split; [done|].
  destruct (boots _ _ _ _) as [[|e]|]; [done| |done]. apply eqs_true in H2. by rewrite H2.
Qed.

(** With the override in place, writing back the configuration that the admin
    API shows is refused as a change of the pinned field. *)
Theorem unchanged_write_back_refused :
  match boots sample_valid collides moved_admin sample_disk with
  | inr r => (edits sample_valid collides moved_admin (Replacement (RedactedConfig r)) (sample_cell r)).1 = inl (Error "admin.listen_addr (SECURITYEDGE_ADMIN_LISTEN_ADDR)")
  | inl _ => False
  end.
Proof. vm_compute. reflexivity. Qed.

End RuntimeSamples.
