(* ===== verification/SecProxy.v ===== *)
(** * Forwarding to EdgeProxy: [newReverseProxy] and its helpers in
    apps/securityedge/cmd/securityedge/main.go, internal/edgeprobe/probe.go

    [httputil.ReverseProxy] copies the request of the client, takes the
    hop-by-hop headers off the copy and gives both to [Rewrite], and the response
    to [ModifyResponse]; the copy's headers are arbitrary here.  The rewriting of
    the URL ([SetURL]), the transport and the server's answers are the
    library's. *)

From S2P Require Import Prelude GoStr GoText GoHttp NetIP NetIPFacts ProxyHeaders ClientIP Config ConfigFacts RateLimit SecPolicy Waf SecConfig SecConfigFacts.

Module EdgeProbe.
Definition HeaderName : str := "X-SecureEdge-Internal-Probe".
Definition HeaderValue : str := "connectivity-v1".
Definition UserAgent : str := "SecurityEdge-Connectivity-Probe/1.0".

Definition Mark (h : header) : header :=
  header_set (header_set (header_set (header_set h HeaderName HeaderValue) "User-Agent" UserAgent) "Cache-Control" "no-store") "Pragma" "no-cache".

Definition Strip (h : header) : header := header_del h HeaderName.
End EdgeProbe.

Module SecProxy.
Import SecConfig.

(** What [Rewrite] works with: the incoming request and the copy. *)
Record ProxyRequest := mkProxy { in_remote : str; in_host : str; in_tls : bool; out_header : header; out_host : str }.

Definition with_out (h : header) (pr : ProxyRequest) : ProxyRequest := mkProxy (in_remote pr) (in_host pr) (in_tls pr) h (out_host pr).
Definition with_out_host (host : str) (pr : ProxyRequest) : ProxyRequest := mkProxy (in_remote pr) (in_host pr) (in_tls pr) (out_header pr) host.

(** [ProxyRequest.SetXForwarded] *)
Definition SetXForwarded (pr : ProxyRequest) : ProxyRequest :=
  let h := out_header pr in
  let h := match SplitHostPort (in_remote pr) with
           | Some (host, _) =>
               let prior := header_values h "X-Forwarded-For" in
               header_set h "X-Forwarded-For" (match prior with [] => host | _ => join ", " prior ++ ", " ++ host end)
           | None => header_del h "X-Forwarded-For"
           end in
  let h := header_set h "X-Forwarded-Host" (in_host pr) in
  with_out (header_set h "X-Forwarded-Proto" (if in_tls pr then "https" else "http")) pr.

Section proxy.
Context {U : Unicode}.

(** The same text as EdgeProxy's [removeForwardingIdentityHeaders]. *)
Definition removeForwardingIdentityHeaders (configured : str) (order : list str) (h : header) : header :=
  ProxyHeaders.removeForwardingIdentityHeaders configured order h.

(** The function given as [Rewrite]; [order] is the order in which the headers
    are visited, [client] what [gateway.ResolvedClientIP] returns. *)
Definition Rewrite (cfg : ServerConfig) (targetHost client : str) (order : list str) (pr : ProxyRequest) : ProxyRequest :=
  let h := EdgeProbe.Strip (removeForwardingIdentityHeaders (s_forwarded cfg) order (out_header pr)) in
  let pr := SetXForwarded (with_out h pr) in
  let h := match ParseIP client with
           | Some _ => header_set (out_header pr) "X-Forwarded-For" client
           | None => out_header pr
           end in
  let pr := with_out (header_set h "Via" "1.1 SecurityEdge") pr in
  with_out_host (if s_preserve_host cfg then in_host pr else targetHost) pr.

Definition decision_headers : list str := lits ["X-Request-ID"; "X-Security-Action"; "X-Security-Score"].
Definition security_headers : list str := lits ["X-Content-Type-Options"; "Referrer-Policy"; "X-Frame-Options"; "Permissions-Policy"].

(** The function given as [ModifyResponse]. *)
Definition ModifyResponse (cfg : ServerConfig) (status : Z) (h : header) : header :=
  let h := header_set (header_del h "Server") "X-Security-Gateway" "SecurityEdge" in
  if status =? 101
  then let h := foldl header_del h decision_headers in if s_security_headers cfg then foldl header_del h security_headers else h
  else h.

(** [writeProxyError]; [quote] is the verb %q, [text] is [http.StatusText].  The
    format is a raw string, so it ends in a backslash and an n. *)
Definition writeProxyError (quote : str → str) (text : Z → str) (status : Z) (code id : str) (h : header) : Z * header * str :=
  (status,
   header_set (header_set (header_set h "Content-Type" "application/json; charset=utf-8") "Cache-Control" "no-store") "X-Request-ID" id,
   "{" ++ [dquote] ++ "error" ++ [dquote] ++ ":{" ++ [dquote] ++ "code" ++ [dquote] ++ ":" ++ quote code ++ "," ++ [dquote] ++ "message"
   ++ [dquote] ++ ":" ++ quote (text status) ++ "," ++ [dquote] ++ "request_id" ++ [dquote] ++ ":" ++ quote id ++ "}}" ++ [backslash] ++ "n").

(** The function given as [ErrorHandler]; [too_large] says whether the error is
    a [MaxBytesError]. *)
Definition ErrorHandler (quote : str → str) (text : Z → str) (too_large : bool) (id : str) (h : header) : Z * header * str :=
  if too_large then writeProxyError quote text 413 "body_too_large" id h else writeProxyError quote text 502 "edgeproxy_unavailable" id h.

(** ** What EdgeProxy is told *)

Lemma resolved_ip cl req remote : Resolver.remoteIP (req_remote req) = Some remote →
  ∃ a, 0 <= a < 2 ^ 128 ∧ Resolver.Resolve cl req = ip_string a.
Proof.
  intros Hr. rewrite (proj1 (Resolver.resolvers_agree cl [] [] req)). set (r := Resolver.to_edgeproxy cl).
  change Resolver.remoteIP with ClientIP.remoteIP in Hr.
  assert (∀ addr x, ClientIP.remoteIP addr = Some x → 0 <= x < 2 ^ 128) as Hrange.
  { intros addr x. unfold ClientIP.remoteIP. destruct (SplitHostPort addr) as [[host port]|]; apply NetFacts.ParseIP_range. }
  assert (∀ values chain, ClientIP.parseForwardedIPChain values = Some chain → Forall (λ a, 0 <= a < 2 ^ 128) chain) as Hchain.
  { intros values chain Hc. unfold ClientIP.parseForwardedIPChain in Hc. apply mapM_Some_1 in Hc. clear Hr. induction Hc as [|raw a raws chain Ha _ IH]; constructor; [|done].
    unfold ClientIP.parse_token in Ha. destruct (_ =?s _); [done|]. by eapply NetFacts.ParseIP_range. }
  unfold ClientIP.Resolve. rewrite Hr. pose proof (Hrange _ _ Hr) as Hre. destruct (negb _); [by exists remote|].
  destruct (ClientIP.parseForwardedIPChain _) as [chain|] eqn:Ec; [|by exists remote]. cbv zeta.
  assert (Forall (λ a, 0 <= a < 2 ^ 128) (chain ++ [remote])) as Hall by (apply Forall_app; split; [by eapply Hchain|by constructor]).
  pose proof (ClientIP.rightmost_split (ClientIP.trusted r) (reverse (chain ++ [remote]))) as H.
  destruct (ClientIP.rightmost_untrusted _ _) as [a|].
  - destruct H as (pre & post & Heq & _). exists a. split; [|done]. apply (proj1 (Forall_forall _ _) Hall). apply elem_of_reverse.
    rewrite Heq. apply elem_of_app. right. by left.
  - destruct (chain ++ [remote]) as [|a l]; [by exists remote|]. apply Forall_cons in Hall as [Ha _]. by exists a.
Qed.

Lemma chain_of_ip a : 0 <= a < 2 ^ 128 → ClientIP.parseForwardedIPChain [ip_string a] = Some [a].
Proof.
  intros Ha. destruct (Facts.ip_string_ok a) as (Hne & Hb & _). unfold ClientIP.parseForwardedIPChain. cbn [flat_map]. rewrite app_nil_r, split_single; cycle 1.
  { intros Hin. rewrite forallb_forall in Hb. by specialize (Hb _ (proj1 (list_elem_of_In _ _) Hin)). }
  cbn [mapM]. unfold ClientIP.parse_token. rewrite SecFacts.ip_trim. destruct (ip_string a =?s []) eqn:E; [by apply eqs_true in E|].
  by rewrite NetFacts.ip_roundtrip.
Qed.

(** The headers of a forwarded request, each of them. *)
Definition forwarded_field (cfg : ServerConfig) (client : str) (pr : ProxyRequest) (k : str) : option (list str) :=
  if k =?s "Via" then Some [lit "1.1 SecurityEdge"]
  else if k =?s "X-Forwarded-For" then Some [client]
  else if k =?s "X-Forwarded-Proto" then Some [if in_tls pr then lit "https" else lit "http"]
  else if k =?s "X-Forwarded-Host" then Some [in_host pr]
  else if k =?s canonical_key EdgeProbe.HeaderName then None
  else if ProxyHeaders.is_identity (s_forwarded cfg) k then None
  else out_header pr !! k.

Lemma Rewrite_fields cfg targetHost client order pr k ip : header_canonical (out_header pr) → order ≡ₚ (map_to_list (out_header pr)).*1 →
  ParseIP client = Some ip → out_header (Rewrite cfg targetHost client order pr) !! k = forwarded_field cfg client pr k.
Proof.
  intros Hc Ho Hip. unfold Rewrite, SetXForwarded. rewrite Hip. cbn [with_out_host with_out out_header in_remote in_host in_tls]. unfold forwarded_field.
  assert (∀ name value (h : header), canonical_key (lit name) = lit name →
    header_set h name value !! k = if k =?s name then Some [value] else h !! k) as Hset.
  { intros name value h Hn. rewrite header_set_lookup, Hn. destruct (k =?s name) eqn:E; [apply eqs_true in E as ->; by rewrite decide_True|].
    apply eqs_false in E. by rewrite decide_False by congruence. }
  rewrite !Hset by (vm_compute; reflexivity). destruct (k =?s "Via"); [done|]. destruct (k =?s "X-Forwarded-For") eqn:EF; [done|].
  destruct (k =?s "X-Forwarded-Proto"); [done|]. destruct (k =?s "X-Forwarded-Host"); [done|]. apply eqs_false in EF.
  assert (canonical_key "X-Forwarded-For" ≠ k) as Hk by (intros <-; by vm_compute in EF).
  assert (EdgeProbe.Strip (removeForwardingIdentityHeaders (s_forwarded cfg) order (out_header pr)) !! k
    = if k =?s canonical_key EdgeProbe.HeaderName then None else if ProxyHeaders.is_identity (s_forwarded cfg) k then None else out_header pr !! k) as E.
  { unfold EdgeProbe.Strip. rewrite header_del_lookup. destruct (k =?s _) eqn:E; [apply eqs_true in E as ->; by rewrite decide_True|].
    apply eqs_false in E. rewrite decide_False by congruence. by apply ProxyHeaders.removeForwardingIdentityHeaders_exact. }
  destruct (SplitHostPort (in_remote pr)) as [[host port]|].
  - by rewrite header_set_lookup, decide_False.
  - by rewrite header_del_lookup, decide_False.
Qed.

Lemma sole_address r fwd peer a : header_values (req_header fwd) "X-Forwarded-For" = [ip_string a] → 0 <= a < 2 ^ 128 →
  ClientIP.header_name r = lit "X-Forwarded-For" → ClientIP.remoteIP (req_remote fwd) = Some peer → ClientIP.trustedIP peer (ClientIP.trusted r) = true →
  ClientIP.Resolve (Some r) fwd = ip_string a.
Proof.
  intros Hv Ha Hn Hp Ht. unfold ClientIP.Resolve. rewrite Hp, Ht. cbn [negb]. rewrite Hn, Hv, chain_of_ip by done.
  change (reverse ([a] ++ [peer])) with [peer; a]. cbn [ClientIP.rightmost_untrusted]. rewrite Ht. cbn [negb]. by destruct (negb _).
Qed.

Lemma forwarded_address cfg client pr : forwarded_field cfg client pr (canonical_key "X-Forwarded-For") = Some [client].
Proof. reflexivity. Qed.

(** C10: EdgeProxy and SecurityEdge see one client.  Whatever forwarding headers a
    client sends, a request that SecurityEdge forwards carries exactly one
    address, the one SecurityEdge resolved, no other header that names a client
    and no probe marker; and an EdgeProxy that trusts the connection from
    SecurityEdge and reads X-Forwarded-For resolves the same client. *)
Theorem one_client_for_both cl r cfg targetHost order pr req fwd remote peer :
  header_canonical (out_header pr) → order ≡ₚ (map_to_list (out_header pr)).*1 → Resolver.remoteIP (req_remote req) = Some remote →
  let client := Resolver.Resolve cl req in
  req_header fwd = out_header (Rewrite cfg targetHost client order pr) →
  ClientIP.header_name r = lit "X-Forwarded-For" → ClientIP.remoteIP (req_remote fwd) = Some peer → ClientIP.trustedIP peer (ClientIP.trusted r) = true →
  ClientIP.Resolve (Some r) fwd = client ∧ ∀ k, req_header fwd !! k = forwarded_field cfg client pr k.
Proof.
  intros Hc Ho Hr client Hf Hn Hp Ht. destruct (resolved_ip cl req remote Hr) as (a & Ha & E). fold client in E. clearbody client.
  assert (∀ k, req_header fwd !! k = forwarded_field cfg client pr k) as Hk.
  { intros k. rewrite Hf. apply Rewrite_fields with (ip := a); [done|done|]. by rewrite E, NetFacts.ip_roundtrip. }
  split; [|exact Hk]. rewrite E. eapply sole_address; try done. unfold header_values. by rewrite Hk, forwarded_address, E.
Qed.

End proxy.

(** *** Witness: a client that claims to be someone else *)

Definition sample_headers : header :=
  {[ lit "X-Forwarded-For" := lits ["6.6.6.6"]; lit "X-Real-Ip" := lits ["6.6.6.6"]; canonical_key EdgeProbe.HeaderName := [EdgeProbe.HeaderValue];
     lit "Accept" := lits ["*/*"] ]}.
Definition sample_request : Request := mkRequest "GET" "app.test" (mkURL [] [] [] "/" [] false) sample_headers "203.0.113.7:55555".
Definition sample_proxy : ProxyRequest := mkProxy "203.0.113.7:55555" "app.test" true sample_headers [].
Definition sample_clients : Resolver.Resolver := Resolver.mk [] "X-Forwarded-For".
Definition sample_forwarded : Request :=
  mkRequest "GET" "app.test" (mkURL [] [] [] "/" [] false)
    (out_header (@Rewrite unicode_ascii (server Default) "127.0.0.1:8080" (Resolver.Resolve sample_clients sample_request) (map_to_list sample_headers).*1 sample_proxy))
    "10.0.0.9:4000".

Lemma proxy_sample_canonical : header_canonical sample_headers.
Proof.
  assert (Forall (λ k, canonical_key k = k) (map_to_list sample_headers).*1) as H by (apply (bool_decide_eq_true_1 _); vm_compute; reflexivity).
  intros k [v Hv]. apply (proj1 (Forall_forall _ _) H). apply list_elem_of_fmap. exists (k, v). split; [done|]. by apply elem_of_map_to_list.
Qed.

Lemma one_client_for_both_witness :
  ClientIP.Resolve (Some ClientIP.sample_resolver) sample_forwarded = lit "203.0.113.7"
  ∧ req_header sample_forwarded !! lit "X-Real-Ip" = None ∧ req_header sample_forwarded !! lit "Accept" = Some (lits ["*/*"]).
Proof.
  pose proof (@one_client_for_both unicode_ascii sample_clients ClientIP.sample_resolver (server Default) "127.0.0.1:8080" (map_to_list sample_headers).*1
    sample_proxy sample_request sample_forwarded (v4_prefix + 203 * 2 ^ 24 + 113 * 2 ^ 8 + 7) ClientIP.sample_remote proxy_sample_canonical (reflexivity _)
    ltac:(vm_compute; reflexivity) eq_refl eq_refl ltac:(vm_compute; reflexivity) ltac:(vm_compute; reflexivity)) as [H1 H2].
  refine (conj (eq_trans H1 _) (conj (eq_trans (H2 _) _) (eq_trans (H2 _) _))); vm_compute; reflexivity.
Defined.

(** The answer to a failed request is no JSON text: what follows the object is
    not a newline. *)
Example error_body_ends : (@ErrorHandler (λ s, [dquote] ++ s ++ [dquote]) (λ _, lit "Bad Gateway") false "id" ∅).2
  = (λ c, if c =?c "'" then dquote else c) <$> lit "{'error':{'code':'edgeproxy_unavailable','message':'Bad Gateway','request_id':'id'}}\n".
Proof. reflexivity. Qed.
End SecProxy.
