(* ===== verification/SecMain.v ===== *)
(** * The command securityedge: apps/securityedge/cmd/securityedge/main.go

    The choice of the configuration file, the start of a generation, one turn of
    the loop that watches the files, and [runManaged] as a step relation over
    generations, their fallbacks and the environment.  Admin edits and other
    programs change the files between the turns.  Signals, the clock and the
    answers of EdgeProxy's admin API come from outside. *)

From S2P Require Import Prelude GoStr GoPath GoText GoHttp GoCodec GoFloat GoOS NetIP Config ConfigValidate ConfigEnv ConfigPersist EnvFile Router RouteTable ClientIP RateLimit SecPolicy Waf SecConfig SecPersist SecPaths SecRuntime.

Module SecMain.
Import Persistence SecConfig SecPersist SecPaths SecRuntime.

(** ** The command line *)

Definition firstNonEmpty (values : list str) : str :=
  default [] (head (filter (λ v : str, v ≠ []) (trim_space <$> values))).

(** [exists_] is whether [os.Stat] finds the path. *)
Definition resolveConfigPath (exists_ : str → bool) (cliValue environmentValue loadedEnv : str) (environmentValueFromDotenv : bool)
    (candidates : list str) : str :=
  let cli := trim_space cliValue in
  let value := trim_space environmentValue in
  if negb (cli =?s []) then cli
  else if negb (value =?s []) then
    if environmentValueFromDotenv && negb (loadedEnv =?s []) && negb (has_prefix value "/")
    then path_clean (path_join_all [path_dir loadedEnv; value]) else value
  else default (default [] (head candidates)) (head (filter (λ c, exists_ c = true) candidates)).

Inductive level := LevelDebug | LevelInfo | LevelWarn | LevelError.

Definition parseLevel {U : Unicode} (v : str) : option level :=
  let v := to_lower (trim_space v) in
  if v =?s "debug" then Some LevelDebug
  else if v =?s "info" then Some LevelInfo
  else if v =?s "warn" then Some LevelWarn
  else if v =?s "error" then Some LevelError
  else None.

(** ** Is EdgeProxy's route table in force? *)

Record watchDoc := mkWatchDoc { wd_revision : Z; wd_applied : Z; wd_restart : bool; wd_source : str }.

(** An answer of EdgeProxy's admin API: none, or a status and a body. *)
Definition answer : Type := option (Z * str).

Definition edgeProxyWatchReady (decode_watch : str → option watchDoc) (raw : str) : result bool :=
  match decode_watch raw with
  | None => inl (Error "decode EdgeProxy config watch status")
  | Some w =>
      if (wd_revision w =? 0) || (wd_applied w =? 0) then inl (Error "EdgeProxy config watch status is missing revision metadata")
      else if wd_restart w then inr false
      else if wd_source w =?s "restart_rollback" then inr true
      else inr (wd_revision w <=? wd_applied w)
  end.

Definition edgeProxyRouteTableReady (decode_watch : str → option watchDoc) (a : answer) : result bool :=
  match a with
  | None => inl (Error "read EdgeProxy config watch status")
  | Some (status, raw) => if 400 <=? status then inl (Error "read EdgeProxy config watch status: HTTP") else edgeProxyWatchReady decode_watch raw
  end.

Definition watchedConfigPath (env : variables) (defaultPath envPath currentPath : str) (allowed : bool) : str :=
  if negb allowed then currentPath
  else
    let value := trim_space (default [] (env !! lit "SECURITYEDGE_CONFIG")) in
    if value =?s [] then defaultPath
    else if has_prefix value "/" || (trim_space envPath =?s []) then path_clean value
    else path_clean (path_join_all [path_dir envPath; value]).

(** ** A generation *)

(** What is left open, and the result. *)
Definition bindSecurityListeners (o : outside) (cfg : Config) (gateway admin_ : bool) : result () * list str :=
  if gateway && negb (o_listen o (s_listen (server cfg))) then (inl (Error "listen security gateway"), [])
  else
    let held := if gateway then [s_listen (server cfg)] else [] in
    if negb admin_ then (inr (), held)
    else if negb (o_listen o (a_listen (admin cfg))) then (inl (Error "listen security admin"), [])
    else (inr (), held ++ [a_listen (admin cfg)]).

Section main.
Context {U : Unicode} {R : Resolve} {L : WafLib} {SH : Sha256} {MR : MapRange}.
Context (encode : Config → option str) (decode : str → option Config) (decode_routes : str → option (list Routes.Route)).
Context (json_string : str → option str) (decode_watch : str → option watchDoc).
Context (windows : bool) (clock stamp rand : nat → str).

(** What outlives a generation: the files, the environment, the clock. *)
Record machine := mkMachine { k_world : world; k_env : EnvFile.State; k_ticks : nat }.

Definition vars_of (k : machine) : variables := EnvFile.os_env (k_env k).

(** [startSecurityGeneration]: the runtime of a generation that serves, or the
    error after which nothing is left open. *)
Definition startSecurityGeneration (o : outside) (configPath envPath : str) (previousWatch : WatchStatus) (k : machine) : result Runtime * machine :=
  let '(r, w) := New decode decode_routes windows o (vars_of k) configPath [envPath] (k_world k) in
  match r with
  | inl e => (inl e, mkMachine w (k_env k) (k_ticks k))
  | inr rt =>
      let c := (ConfigureWatcher clock envPath previousWatch (mkCell rt w (k_ticks k))).2 in
      let k := mkMachine (c_world c) (k_env k) (c_ticks c) in
      let cfg := cloneConfig (r_cfg (c_rt c)) in
      let gateway := gateway_mode (server cfg) in
      if a_enabled (admin cfg) && negb (o_admin o (admin cfg)) then (inl (Error "admin setup failed"), k)
      else if gateway && negb (bool_decide (is_Some (parse_url (s_upstream (server cfg))))) then (inl (Error "invalid upstream proxy URL"), k)
      else if gateway && tls_enabled (s_tls (server cfg)) && negb (o_keypair o (tls_cert (s_tls (server cfg))) (tls_key (s_tls (server cfg))))
      then (inl (Error "load security gateway TLS certificate"), k)
      else match bindSecurityListeners o cfg gateway (a_enabled (admin cfg)) with
           | (inl e, _) => (inl e, k)
           | (inr (), _) => (inr (c_rt c), k)
           end
  end.

(** ** Watching the files *)

(** [sv_from] is [restartEnvironmentFrom] of the generation. *)
Record supervisor := mkSupervisor {
  sv_rt : Runtime; sv_machine : machine;
  sv_edge_path : str; sv_security_digest : str; sv_edge_digest : str; sv_env_digest : str; sv_pending : bool;
  sv_from : option EnvFile.ManagedSnapshot }.

Definition with_cell (c : cell) (sv : supervisor) : supervisor :=
  mkSupervisor (c_rt c) (mkMachine (c_world c) (k_env (sv_machine sv)) (c_ticks c)) (sv_edge_path sv) (sv_security_digest sv) (sv_edge_digest sv)
    (sv_env_digest sv) (sv_pending sv) (sv_from sv).
Definition cell_of (sv : supervisor) : cell := mkCell (sv_rt sv) (k_world (sv_machine sv)) (k_ticks (sv_machine sv)).
Definition with_env (es : EnvFile.State) (sv : supervisor) : supervisor :=
  mkSupervisor (sv_rt sv) (mkMachine (k_world (sv_machine sv)) es (k_ticks (sv_machine sv))) (sv_edge_path sv) (sv_security_digest sv) (sv_edge_digest sv)
    (sv_env_digest sv) (sv_pending sv) (sv_from sv).
Definition with_edge (path digest : str) (pending : bool) (sv : supervisor) : supervisor :=
  mkSupervisor (sv_rt sv) (sv_machine sv) path (sv_security_digest sv) digest (sv_env_digest sv) pending (sv_from sv).
Definition with_security_digest (digest : str) (sv : supervisor) : supervisor :=
  mkSupervisor (sv_rt sv) (sv_machine sv) (sv_edge_path sv) digest (sv_edge_digest sv) (sv_env_digest sv) (sv_pending sv) (sv_from sv).
Definition with_env_digest (digest : str) (sv : supervisor) : supervisor :=
  mkSupervisor (sv_rt sv) (sv_machine sv) (sv_edge_path sv) (sv_security_digest sv) (sv_edge_digest sv) digest (sv_pending sv) (sv_from sv).
Definition with_from (s : option EnvFile.ManagedSnapshot) (sv : supervisor) : supervisor :=
  mkSupervisor (sv_rt sv) (sv_machine sv) (sv_edge_path sv) (sv_security_digest sv) (sv_edge_digest sv) (sv_env_digest sv) (sv_pending sv) s.

Definition see : op supervisor supervisor := λ sv, (inr sv, sv).
Definition change (f : supervisor → supervisor) : op supervisor () := λ sv, (inr (), f sv).
Definition on_cell {A} (m : op cell A) : op supervisor A := λ sv, let '(r, c) := m (cell_of sv) in (r, with_cell c sv).

(** An operation whose error is looked at; a panic ends the process. *)
Definition tried {S A} (m : op S A) : op S (str + A) :=
  r ← attempt m; of_result (match r with inl Panics => inl Panics | inl (Error e) => inr (inl e) | inr a => inr (inr a) end).

Definition recorded (path : str) (applied restart : bool) (err : option str) : op supervisor () := on_cell (RecordWatchChange clock path applied restart err).

Definition zero_digest : str := repeat nul 32.
(** A digest whose error is ignored. *)
Definition digest_or_zero (path : str) : op supervisor str :=
  d ← tried (on_cell (lift (FileDigest path))); mret (match d with inl _ => zero_digest | inr d => d end).

(** The outcome of reloading the route table, as both places handle it. *)
Definition reload_routes (path : str) : op supervisor bool :=
  r ← tried (on_cell (ReloadEdgeRoutes decode_routes));
  match r with
  | inl e => _ ← recorded path false false (Some e); mret false
  | inr () => _ ← recorded path true false None; mret true
  end.

(** The route table that EdgeProxy was not ready for. *)
Definition retry_routes (a : answer) : op supervisor () :=
  sv ← see;
  if negb (sv_pending sv) then mret ()
  else match edgeProxyRouteTableReady decode_watch a with
       | inl Panics => of_result (inl Panics)
       | inl (Error e) => recorded (sv_edge_path sv) false false (Some e)
       | inr false => mret ()
       | inr true =>
           done ← reload_routes (sv_edge_path sv);
           if (done : bool) then change (λ sv, with_edge (sv_edge_path sv) (sv_edge_digest sv) false sv) else mret ()
       end.

(** The function given to [envfile.ReloadValidated]. *)
Inductive choice := Undecided | Crashed | RestartAt (path : str) | HotApplied.

Definition env_choice (o : outside) (defaultConfigPath envPath : str) (allowed : bool) (env : variables) (m : cell * choice) : (cell * choice) * option str :=
  let c := m.1 in
  let securityPath := r_path (c_rt c) in
  let nextPath := watchedConfigPath env defaultConfigPath envPath securityPath allowed in
  if negb (nextPath =?s securityPath) then
    match ValidateRestartConfig decode decode_routes windows o env nextPath c with
    | (inl Panics, c) => ((c, Crashed), None)
    | (inl (Error e), c) => ((c, Undecided), Some ("validate SECURITYEDGE_CONFIG target: " ++ e))
    | (inr (), c) => ((c, RestartAt nextPath), None)
    end
  else
    match ReloadEnvironment decode decode_routes windows o env c with
    | (inl Panics, c) => ((c, Crashed), None)
    | (inl (Error e), c) => ((c, Undecided), Some e)
    | (inr (RestartRequired _), c) => ((c, RestartAt nextPath), None)
    | (inr Applied, c) => ((c, HotApplied), None)
    end.

Definition node_of (f : found) : node :=
  match f with Failed => Unreachable | NotExist => Missing | _ => match opened_of f with Some f => Node f | None => Missing end end.

(** The changed environment file; [Some path] asks for a restart. *)
Definition watch_environment (o : outside) (defaultConfigPath envPath : str) (allowed : bool) : op supervisor (option str) :=
  if envPath =?s [] then mret None
  else
    digest ← tried (on_cell (lift (FileDigest envPath)));
    match digest with
    | inl e => _ ← recorded envPath false false (Some e); mret None
    | inr digest =>
        sv ← see;
        if digest =?s sv_env_digest sv then mret None
        else
          _ ← change (with_env_digest digest);
          let previousEnvironment := EnvFile.SnapshotManagedEnvironment (k_env (sv_machine sv)) in
          f ← on_cell (lift (look_up envPath));
          sv ← see;
          let '(es, (c, outcome), err) :=
            EnvFile.ReloadValidated json_string (λ _, node_of f) envPath (env_choice o defaultConfigPath envPath allowed) (k_env (sv_machine sv))
              (cell_of sv, Undecided) in
          _ ← change (λ sv, with_env es (with_cell c sv));
          match err, outcome with
          | _, Crashed => of_result (inl Panics)
          | Some e, _ => _ ← recorded envPath false false (Some e); mret None
          | None, RestartAt path =>
              _ ← change (with_from (Some previousEnvironment)); _ ← recorded envPath false true None; mret (Some path)
          | None, HotApplied =>
              _ ← recorded envPath true false None;
              sv ← see;
              let edgePath := EdgeConfigPath (sv_rt sv) in
              d ← digest_or_zero edgePath;
              _ ← change (λ sv, with_edge edgePath d (sv_pending sv) sv); mret None
          | None, Undecided => mret None
          end
    end.

(** The changed configuration file. *)
Definition watch_security (o : outside) : op supervisor (option str) :=
  sv ← see;
  let securityPath := r_path (sv_rt sv) in
  digest ← tried (on_cell (lift (FileDigest securityPath)));
  match digest with
  | inl e => _ ← recorded securityPath false false (Some e); mret None
  | inr digest =>
      if digest =?s sv_security_digest sv then mret None
      else
        _ ← change (with_security_digest digest);
        r ← tried (on_cell (Reload decode decode_routes windows o (vars_of (sv_machine sv))));
        match r with
        | inr (RestartRequired _) => _ ← recorded securityPath false true None; mret (Some securityPath)
        | inl e => _ ← recorded securityPath false false (Some e); mret None
        | inr Applied =>
            _ ← recorded securityPath true false None;
            sv ← see;
            let edgePath := EdgeConfigPath (sv_rt sv) in
            d ← digest_or_zero edgePath;
            _ ← change (λ sv, with_edge edgePath d (sv_pending sv) sv); mret None
        end
  end.

(** The changed route file of EdgeProxy. *)
Definition watch_routes (a : answer) : op supervisor () :=
  sv ← see;
  let currentEdgePath := EdgeConfigPath (sv_rt sv) in
  _ ← (if currentEdgePath =?s sv_edge_path sv then mret ()
       else d ← digest_or_zero currentEdgePath; change (with_edge currentEdgePath d false));
  sv ← see;
  let edgePath := sv_edge_path sv in
  digest ← tried (on_cell (lift (FileDigest edgePath)));
  match digest with
  | inl e => recorded edgePath false false (Some e)
  | inr digest =>
      if digest =?s sv_edge_digest sv then mret ()
      else
        _ ← change (with_edge edgePath digest (sv_pending sv));
        match edgeProxyRouteTableReady decode_watch a with
        | inl Panics => of_result (inl Panics)
        | inl (Error e) => _ ← change (with_edge edgePath digest true); recorded edgePath false false (Some e)
        | inr false => change (with_edge edgePath digest true)
        | inr true => _ ← reload_routes edgePath; mret ()
        end
  end.

(** One tick of [superviseSecurityGeneration]; [Some path] ends it with a restart
    from that path.  [retry] and [fresh_] answer the two questions to EdgeProxy. *)
Definition tick (o : outside) (defaultConfigPath envPath : str) (allowed : bool) (retry fresh_ : answer) : op supervisor (option str) :=
  _ ← retry_routes retry;
  restart ← watch_environment o defaultConfigPath envPath allowed;
  match restart with
  | Some path => mret (Some path)
  | None =>
      restart ← watch_security o;
      match restart with
      | Some path => mret (Some path)
      | None => _ ← watch_routes fresh_; mret None
      end
  end.

(** The beginning of [superviseSecurityGeneration]. *)
Definition first_digests (envPath : str) : op supervisor () :=
  sv ← see;
  security ← digest_or_zero (r_path (sv_rt sv)); _ ← change (with_security_digest security);
  edge ← digest_or_zero (sv_edge_path sv); _ ← change (with_edge (sv_edge_path sv) edge false);
  if envPath =?s [] then mret () else env ← digest_or_zero envPath; change (with_env_digest env).

Definition supervise (envPath : str) (rt : Runtime) (k : machine) : supervisor :=
  (first_digests envPath (mkSupervisor rt k (EdgeConfigPath rt) zero_digest zero_digest zero_digest false None)).2.

(** ** Generation after generation: [runManaged] *)

Record fallback := mkFallback { fb_path : str; fb_cfg : Config; fb_watch : WatchStatus; fb_env : option EnvFile.ManagedSnapshot }.

(** [None] is success. *)
Definition restoreSecurityFallback (fb : fallback) (failedPath : str) (k : machine) : option str * machine :=
  let '(es, err) := match fb_env fb with
                    | Some snapshot => EnvFile.RestoreManagedEnvironment snapshot (k_env k)
                    | None => (k_env k, None)
                    end in
  let k := mkMachine (k_world k) es (k_ticks k) in
  match err with
  | Some _ => (Some (lit "restore last-known-good SecurityEdge environment"), k)
  | None =>
      if negb (path_clean (fb_path fb) =?s path_clean failedPath) then (None, k)
      else
        let '(r, w) := Save encode windows (stamp (k_ticks k)) (rand (k_ticks k)) (fb_path fb) (fb_cfg fb) (k_world k) in
        (match r with Some e => Some ("restore last-known-good SecurityEdge configuration: " ++ e) | None => None end,
         mkMachine w es (S (k_ticks k)))
  end.

(** [gen.runtime.RestartFallback] and the rest of the fallback. *)
Definition fallback_of (sv : supervisor) : fallback :=
  let '(path, cfg) := RestartFallback (sv_rt sv) in mkFallback path cfg (r_watch (sv_rt sv)) (sv_from sv).

Definition notice_error (e : str) : str := "replacement generation failed; restored last healthy configuration: " ++ e.

(** A generation has started; a rollback before it is recorded. *)
Definition begun (notice : option (str * str)) (rt : Runtime) (k : machine) : Runtime * machine :=
  match notice with
  | None => (rt, k)
  | Some (path, e) =>
      let c := (RecordWatchChange clock path false false (Some (notice_error e)) (mkCell rt (k_world k) (k_ticks k))).2 in
      (c_rt c, mkMachine (c_world c) (k_env k) (c_ticks c))
  end.

Inductive life :=
  | Starting (path : str) (fb : option fallback) (notice : option (str * str)) (previousWatch : WatchStatus) (k : machine)
  | Running (sv : supervisor)
  | Exited (code : Z) (k : machine).

Context (defaultConfigPath envPath : str) (allowed : bool).

Inductive run_step : life → life → Prop :=
  | run_started o path fb notice prev k rt k' : startSecurityGeneration o path envPath prev k = (inr rt, k') →
      run_step (Starting path fb notice prev k) (let '(rt, k) := begun notice rt k' in Running (supervise envPath rt k))
  | run_fell_back o path fb notice prev k e k' k'' : startSecurityGeneration o path envPath prev k = (inl (Error e), k') →
      restoreSecurityFallback fb path k' = (None, k'') →
      run_step (Starting path (Some fb) notice prev k) (Starting (fb_path fb) None (Some (path, e)) (fb_watch fb) k'')
  | run_stranded o path fb notice prev k e k' e' k'' : startSecurityGeneration o path envPath prev k = (inl (Error e), k') →
      restoreSecurityFallback fb path k' = (Some e', k'') →
      run_step (Starting path (Some fb) notice prev k) (Exited 1 k'')
  | run_failed o path notice prev k e k' : startSecurityGeneration o path envPath prev k = (inl (Error e), k') →
      run_step (Starting path None notice prev k) (Exited 1 k')
  | run_turn o retry fresh_ sv sv' : tick o defaultConfigPath envPath allowed retry fresh_ sv = (inr None, sv') →
      run_step (Running sv) (Running sv')
  | run_restart o retry fresh_ sv next sv' : tick o defaultConfigPath envPath allowed retry fresh_ sv = (inr (Some next), sv') →
      run_step (Running sv) (Starting next (Some (fallback_of sv')) None (r_watch (sv_rt sv')) (sv_machine sv'))
  | run_stuck o retry fresh_ sv next sv' : tick o defaultConfigPath envPath allowed retry fresh_ sv = (inr (Some next), sv') →
      run_step (Running sv) (Exited 1 (sv_machine sv'))     (* the shutdown failed *)
  | run_stopped sv code : code = 0 ∨ code = 1 →
      run_step (Running sv) (Exited code (sv_machine sv))    (* a signal, or a listener failed *)
  | run_edited o e sv r sv' :
      on_cell (run_edit encode decode decode_routes windows clock stamp rand o (vars_of (sv_machine sv)) e) sv = (r, sv') →
      run_step (Running sv) (Running sv')
  | run_files sv w : run_step (Running sv) (Running (with_cell (mkCell (sv_rt sv) w (k_ticks (sv_machine sv))) sv)).

(** [runManaged] from its start. *)
Definition launched (k : machine) : life := Starting defaultConfigPath None None no_watch k.

End main.
End SecMain.
