(* ===== verification/SecMainFacts.v ===== *)
(** * What the watcher and the restarts of SecurityEdge promise

    A route edit is no reason for a restart, a revision of the environment is
    taken whole or not at all, and a restart that fails goes back to where it
    came from. *)

From S2P Require Import Prelude GoStr GoPath GoText GoHttp GoCodec GoFloat GoOS NetIP Config ConfigValidate ConfigFacts ConfigStable ConfigEnv ConfigPersist ConfigPersistFacts EnvFile EnvFileFacts Router RouteTable ClientIP RateLimit SecPolicy Waf SecConfig SecConfigFacts SecPersist SecPersistFacts SecPaths SecRuntime SecRuntimeFacts SecMain.

Module MainFacts.
Import Persistence SecConfig SecFacts SecPersist SecPaths SecRuntime RuntimeFacts SecMain.

Section facts.
Context {U : Unicode} {R : Resolve} {L : WafLib} {SH : Sha256} {MR : MapRange}.
Context (encode : Config → option str) (decode : str → option Config) (decode_routes : str → option (list Routes.Route)).
Context (json_string : str → option str) (decode_watch : str → option watchDoc).
Context (windows : bool) (clock stamp rand : nat → str).

(** ** Route edits *)

(** The digest of a file on a disk. *)
Definition file_digest (d : files) (path : str) : option str :=
  f ← opened_of (match d !! path with Some e => Found e | None => NotExist end);
  if negb (of_regular f) then None else match read_limited maxWatchedFileBytes f with inl _ => None | inr data => Some (sha256 data) end.

(** What a turn that only sees a route edit leaves as it was. *)
Record spared (sv0 sv : supervisor) : Prop := {
  sp_rt : ∃ t w, sv_rt sv = with_watch w (with_table t (sv_rt sv0));
  sp_env : k_env (sv_machine sv) = k_env (sv_machine sv0);
  sp_disk : disk (k_world (sv_machine sv)) = disk (k_world (sv_machine sv0));
  sp_security : sv_security_digest sv = sv_security_digest sv0;
  sp_envd : sv_env_digest sv = sv_env_digest sv0 }.

Definition calm {A : Type} (sv0 : supervisor) (m : op supervisor A) (Q : A → Prop) : Prop :=
  ends (spared sv0) m (λ r s, match r with inl _ => False | inr a => Q a ∧ spared sv0 s end).

Lemma calm_bind {A B : Type} sv0 (m : op supervisor A) (f : A → op supervisor B) (Q : A → Prop) (Q' : B → Prop) :
  calm sv0 m Q → (∀ a, Q a → calm sv0 (f a) Q') → calm sv0 (m ≫= f) Q'.
Proof. intros Hm Hf. eapply ends_bind; [exact Hm| |by intros]. intros a s [Ha Hs]. by apply Hf. Qed.
Lemma calm_ret {A : Type} sv0 (a : A) (Q : A → Prop) : Q a → calm sv0 (mret a) Q.
Proof. intros Ha s Hs. by split. Qed.
Lemma calm_see sv0 : calm sv0 see (spared sv0).
Proof. intros s Hs. by split. Qed.
Lemma calm_change sv0 f : (∀ s, spared sv0 s → spared sv0 (f s)) → calm sv0 (change f) (λ _, True).
Proof. intros Hf s Hs. split; [done|by apply Hf]. Qed.

Lemma spared_refl sv : spared sv sv.
Proof. split; try done. exists (r_table (sv_rt sv)), (r_watch (sv_rt sv)). by destruct (sv_rt sv). Qed.

Lemma spared_edge sv0 path digest pending s : spared sv0 s → spared sv0 (with_edge path digest pending s).
Proof. by intros []. Qed.

Lemma record_watch path applied restart err c :
  ∃ w n, RecordWatchChange clock path applied restart err c = (inr (), mkCell (with_watch w (c_rt c)) (c_world c) n).
Proof.
  unfold RecordWatchChange, get, mbind, op_bind. cbv beta iota zeta. case_match.
  - exists (r_watch (c_rt c)), (c_ticks c). by destruct c as [[] ? ?].
  - destruct err, applied; by eexists _, _.
Qed.

Lemma calm_record sv0 path applied restart err : calm sv0 (recorded clock path applied restart err) (λ _, True).
Proof.
  intros s [(t & w & Hr) H1 H2 H3 H4]. unfold recorded, on_cell. destruct (record_watch path applied restart err (cell_of s)) as (w' & n & ->).
  split; [done|]. split; cbn; try done. exists t, w'. by rewrite Hr.
Qed.

Lemma digest_result path w : disk (FileDigest path w).2 = disk w
  ∧ match (FileDigest path w).1 with inl Panics => False | inl (Error _) => True | inr d => file_digest (disk w) path = Some d end.
Proof.
  unfold FileDigest, look_up, mbind, op_bind. pose proof (PersistFacts.look_disk path w) as Hd. destruct (look path w) as [f w'] eqn:El. cbn [snd] in Hd.
  assert (∀ o, opened_of f = Some o → opened_of (match disk w !! path with Some e => Found e | None => NotExist end) = Some o) as Hf.
  { intros o Ho. revert El. unfold look, call. destruct (faults w) as [|[n|] fs]; cbn; intros [= <- _]; done. }
  destruct (opened_of f) as [o|]; [|by split]. specialize (Hf o eq_refl). unfold file_digest. rewrite Hf. cbn [mbind option_bind].
  destruct (negb _); [by split|]. destruct (read_limited _ _); by split.
Qed.

Lemma calm_digest sv0 path :
  calm sv0 (tried (on_cell (lift (FileDigest path)))) (λ d, ∀ x, d = inr x → file_digest (disk (k_world (sv_machine sv0))) path = Some x).
Proof.
  intros s [(t & w & Hr) H1 H2 H3 H4]. unfold tried, attempt, on_cell, lift, mbind, op_bind. cbn [cell_of c_world].
  destruct (digest_result path (k_world (sv_machine s))) as [Hd Hx].
  destruct (FileDigest path (k_world (sv_machine s))) as [[[|e]|x] w']; cbn in *; [done| |].
  - split; [done|]. split; cbn; try done; [by exists t, w|congruence].
  - split; [intros x' [= <-]; by rewrite <- H2|]. split; cbn; try done; [by exists t, w|congruence].
Qed.

Lemma names_no_panic known acc names : acc ≠ inl Panics → foldl (policy_name_step known) acc names ≠ inl Panics.
Proof.
  revert acc. induction names as [|name names IH]; intros acc Ha; cbn [foldl]; [done|]. apply IH. destruct acc as [e|seen]; [done|].
  unfold policy_name_step. cbn. by repeat case_match.
Qed.

Lemma routes_result c : (ReloadEdgeRoutes decode_routes c).1 ≠ inl Panics ∧ disk (c_world (ReloadEdgeRoutes decode_routes c).2) = disk (c_world c)
  ∧ ∃ t, c_rt (ReloadEdgeRoutes decode_routes c).2 = with_table t (c_rt c).
Proof.
  pose proof (reads_routes decode_routes (resolveEdgeConfigPath (r_path (c_rt c)) (ep_path (edgeproxy (cloneConfig (r_cfg (c_rt c))))))) as Hl.
  specialize (Hl (c_world c)). assert (∀ r : Runtime, r = with_table (r_table r) r) as Hsame by by intros [].
  unfold ReloadEdgeRoutes, get, lift, load_routes, mbind, op_bind, of_result in *. cbv beta iota zeta.
  destruct (look_up _ (c_world c)) as [[e|f] w'] eqn:El; cbn in *.
  { unfold look_up in El. by destruct (look _ _). }
  destruct (Table.Load decode_routes (opened_of f)) as [e|t]; cbn; [by split_and!; eauto|].
  unfold validateRoutePolicies. cbn. destruct (foldl _ _ _) as [[|e]|seen] eqn:Ef; cbn; [|by split_and!; eauto|by split_and!; eauto].
  by destruct (names_no_panic (known_routes t) (inr ∅) (range (route_policies (r_cfg (c_rt c)))).*1 ltac:(done) Ef).
Qed.

Lemma calm_routes sv0 path : calm sv0 (reload_routes decode_routes clock path) (λ _, True).
Proof.
  unfold reload_routes. apply (calm_bind _ _ _ (λ _, True)).
  - intros s [(t & w & Hr) H1 H2 H3 H4]. unfold tried, attempt, on_cell, mbind, op_bind. destruct (routes_result (cell_of s)) as (Hp & Hd & t' & Hc).
    destruct (ReloadEdgeRoutes decode_routes (cell_of s)) as [[[|e]|[]] c]; cbn in *; [done|split; [done|]..].
    all: split; cbn; try done; [exists t', w; by rewrite Hc, Hr|congruence].
  - intros [e|[]] _; (apply (calm_bind _ _ _ (λ _, True)); [apply calm_record|]); intros; by apply calm_ret.
Qed.

Lemma ready_result a : edgeProxyRouteTableReady decode_watch a ≠ inl Panics.
Proof. unfold edgeProxyRouteTableReady, edgeProxyWatchReady. by repeat case_match. Qed.

Lemma calm_zero sv0 path : calm sv0 (digest_or_zero path) (λ _, True).
Proof. unfold digest_or_zero. eapply calm_bind; [apply calm_digest|]. intros. by apply calm_ret. Qed.

Lemma calm_retry sv0 a : calm sv0 (retry_routes decode_routes decode_watch clock a) (λ _, True).
Proof.
  unfold retry_routes. eapply calm_bind; [apply calm_see|]. intros sv Hsv. destruct (negb _); [by apply calm_ret|].
  pose proof (ready_result a). destruct (edgeProxyRouteTableReady decode_watch a) as [[|e]|[]]; [done|apply calm_record| |by apply calm_ret].
  eapply calm_bind; [apply calm_routes|]. intros [] _; [|by apply calm_ret]. apply calm_change. intros s. apply spared_edge.
Qed.

Lemma calm_watch_routes sv0 a : calm sv0 (watch_routes decode_routes decode_watch clock a) (λ _, True).
Proof.
  unfold watch_routes. eapply calm_bind; [apply calm_see|]. intros sv Hsv. cbv zeta. apply (calm_bind _ _ _ (λ _, True)).
  { destruct (_ =?s _); [by apply calm_ret|]. eapply calm_bind; [apply calm_zero|]. intros d _. apply calm_change. intros s. apply spared_edge. }
  intros u _. eapply calm_bind; [apply calm_see|]. intros s Hs. eapply calm_bind; [apply calm_digest|].
  intros [e|d] _; [apply calm_record|]. destruct (_ =?s _); [by apply calm_ret|].
  apply (calm_bind _ _ _ (λ _, True)); [apply calm_change; intros x; apply spared_edge|]. intros u' _. pose proof (ready_result a).
  destruct (edgeProxyRouteTableReady decode_watch a) as [[|e]|[]]; [done| | |apply calm_change; intros x; apply spared_edge].
  - apply (calm_bind _ _ _ (λ _, True)); [apply calm_change; intros x; apply spared_edge|]. intros. apply calm_record.
  - eapply calm_bind; [apply calm_routes|]. intros. by apply calm_ret.
Qed.

(** C26: A turn in which neither the configuration nor the environment file is new
    never asks for a restart and never fails, whatever has become of EdgeProxy's
    route file and whatever EdgeProxy answers: the only part of the runtime that
    it changes is the route table, and no file is touched. *)
Theorem route_edits_never_restart o defaultConfigPath envPath allowed retry fresh_ sv :
  (∀ d, file_digest (disk (k_world (sv_machine sv))) (r_path (sv_rt sv)) = Some d → d = sv_security_digest sv) →
  (∀ d, file_digest (disk (k_world (sv_machine sv))) envPath = Some d → d = sv_env_digest sv) →
  let '(res, sv') := tick decode decode_routes json_string decode_watch windows clock o defaultConfigPath envPath allowed retry fresh_ sv in
  res = inr None ∧ (∃ t w, sv_rt sv' = with_watch w (with_table t (sv_rt sv)))
  ∧ k_env (sv_machine sv') = k_env (sv_machine sv) ∧ disk (k_world (sv_machine sv')) = disk (k_world (sv_machine sv)).
Proof.
  intros Hsec Henv. assert (calm sv (tick decode decode_routes json_string decode_watch windows clock o defaultConfigPath envPath allowed retry fresh_)
    (λ r, r = None)) as Hc.
  { unfold tick. eapply calm_bind; [apply calm_retry|]. intros u _. apply (calm_bind _ _ _ (λ r, r = None)).
    - unfold watch_environment. destruct (_ =?s _); [by apply calm_ret|]. eapply calm_bind; [apply calm_digest|]. intros [e|d] Hd.
      + eapply calm_bind; [apply calm_record|]. intros. by apply calm_ret.
      + eapply calm_bind; [apply calm_see|]. intros s Hs. rewrite (Henv d) by by apply Hd. rewrite <- (sp_envd _ _ Hs).
        rewrite (proj2 (eqs_true _ _)) by done. by apply calm_ret.
    - intros r ->. apply (calm_bind _ _ _ (λ r, r = None)).
      + unfold watch_security. eapply calm_bind; [apply calm_see|]. intros s Hs. cbv zeta. destruct (sp_rt _ _ Hs) as (t & w & Hr).
        eapply calm_bind; [apply calm_digest|]. intros [e|d] Hd.
        * eapply calm_bind; [apply calm_record|]. intros. by apply calm_ret.
        * rewrite Hr in Hd. rewrite (Hsec d) by by apply Hd. rewrite <- (sp_security _ _ Hs).
          rewrite (proj2 (eqs_true _ _)) by done. by apply calm_ret.
      + intros r ->. eapply calm_bind; [apply calm_watch_routes|]. intros. by apply calm_ret. }
  specialize (Hc sv (spared_refl sv)). destruct (tick _ _ _ _ _ _ _ _ _ _ _ _ sv) as [[e|r] sv']; [done|]. destruct Hc as [-> [Hr H1 H2 _ _]].
  by split_and!.
Qed.

(** ** Revisions of the environment *)

Record before (sv s : supervisor) : Prop := {
  be_rt : sv_rt s = sv_rt sv;
  be_env : k_env (sv_machine s) = k_env (sv_machine sv);
  be_from : sv_from s = sv_from sv;
  be_disk : disk (k_world (sv_machine s)) = disk (k_world (sv_machine sv)) }.

Lemma before_reads {A B : Type} sv (m : op world A) (f : str + A → op supervisor B) Q :
  reads m → (∀ w, (m w).1 ≠ inl Panics) → (∀ a, ends (before sv) (f a) Q) → ends (before sv) (tried (on_cell (lift m)) ≫= f) Q.
Proof.
  intros Hm Hp Hf. apply (ends_bind _ _ _ (λ r s, match r with inl _ => False | inr _ => before sv s end)); [|exact Hf|by intros].
  intros s [H1 H2 H3 H4]. unfold tried, attempt, on_cell, lift, mbind, op_bind. cbn [cell_of c_world].
  specialize (Hm (k_world (sv_machine s))). specialize (Hp (k_world (sv_machine s))).
  destruct (m (k_world (sv_machine s))) as [[[|e]|a] w]; cbn in *; [done|..]; split; cbn; congruence.
Qed.

Lemma digest_reads path : reads (FileDigest path).
Proof. intros w. apply digest_result. Qed.
Lemma digest_calm path w : (FileDigest path w).1 ≠ inl Panics.
Proof. pose proof (digest_result path w) as [_ H]. by intros E; rewrite E in H. Qed.

(** A turn of the environment watcher has not taken anything. *)
Definition refused (sv s : supervisor) : Prop :=
  (∃ w, sv_rt s = with_watch w (sv_rt sv)) ∧ k_env (sv_machine s) = k_env (sv_machine sv) ∧ sv_from s = sv_from sv.

Lemma before_refused sv s : before sv s → refused sv s.
Proof. intros [H1 H2 H3 _]. split_and!; [|done|done]. rewrite H1. exists (r_watch (sv_rt sv)). by destruct (sv_rt sv). Qed.

Lemma refused_record sv s path applied restart err : refused sv s → ∃ s', recorded clock path applied restart err s = (inr (), s') ∧ refused sv s'.
Proof.
  intros ([w Hr] & H1 & H2). unfold recorded, on_cell. destruct (record_watch path applied restart err (cell_of s)) as (w' & n & ->).
  eexists. split; [done|]. split_and!; [|done|done]. exists w'. cbn. by rewrite Hr.
Qed.

(** The environment of a file, below the variables of the deployment [dep]. *)
Definition env_of_file (dep : variables) (sv s : supervisor) : Prop := ∃ f values, EnvFile.readValues json_string (open_node (node_of f)) = inr values
  ∧ k_env (sv_machine s) = EnvFacts.state_of dep (EnvFacts.loaded dep true values (EnvFile.managedValues (k_env (sv_machine sv)))).

Lemma choice_spec o def envPath allowed env c : let '((c', ch), err) := env_choice decode decode_routes windows o def envPath allowed env (c, Undecided) in
  let x := PersistFacts.current_file (r_path (c_rt c)) (disk (c_world c)) in
  match err, ch with
  | None, HotApplied => environment_taken decode env (c_rt c) x (inr Applied) c'
  | None, Undecided => False
  | _, Crashed => True
  | _, _ => c_rt c' = c_rt c
  end.
Proof.
  unfold env_choice. cbn [fst snd]. cbv zeta. destruct (negb _).
  - assert (∀ s, s = c → c_rt (ValidateRestartConfig decode decode_routes windows o env (watchedConfigPath env def envPath (r_path (c_rt c)) allowed) s).2 = c_rt c) as H.
    { intros s ->. unfold ValidateRestartConfig, mbind, op_bind. pose proof (same_lift (load decode env (watchedConfigPath env def envPath (r_path (c_rt c)) allowed)) c) as Hl.
      destruct (lift (load decode env _) c) as [[e|cfg] c1]; cbn [snd fst] in *; [done|]. unfold get. cbn [fst snd]. by rewrite same_lift. }
    specialize (H c eq_refl). by destruct (ValidateRestartConfig _ _ _ _ _ _ c) as [[[|e]|[]] c'].
  - pose proof (environment_spec decode decode_routes windows o env (c_rt c) _ c (conj eq_refl eq_refl)) as H.
    destruct (ReloadEnvironment _ _ _ _ _ c) as [[[|e]|[|fields]] c']; cbn [fst snd] in H; [done|by destruct H|exact H|by destruct H].
Qed.

Definition hot_applied (sv s : supervisor) : Prop := ∃ fileCfg c runtimeCfg,
  PersistFacts.restart decode (r_path (sv_rt sv)) (disk (k_world (sv_machine sv))) = inr fileCfg
  ∧ ApplyEnvironmentOverrides (λ key, EnvFile.os_env (k_env (sv_machine s)) !! key) (cloneConfig fileCfg) = inr c ∧ accepted c runtimeCfg
  ∧ (copy_equal (r_cfg (sv_rt sv)) runtimeCfg = true ∧ (∃ w, sv_rt s = with_watch w (sv_rt sv))
     ∨ r_cfg (sv_rt s) = runtimeCfg ∧ consistent (sv_rt s)).

(** What a turn of the watcher makes of a changed environment file. *)
Definition revised (dep : variables) (sv : supervisor) (res : result (option str)) (s : supervisor) : Prop :=
  match res with
  | inl f => f = Panics
  | inr (Some _) => env_of_file dep sv s ∧ (∃ w, sv_rt s = with_watch w (sv_rt sv)) ∧ sv_from s = Some (EnvFile.managedValues (k_env (sv_machine sv)))
  | inr None => refused sv s ∨ env_of_file dep sv s ∧ sv_from s = sv_from sv ∧ hot_applied sv s
  end.

(** What a turn decides about the environment file: how it reads, whether it is
    new, what it says, and what the configuration comes to under it. *)
Inductive decision :=
  | Unchanged
  | Refusal (e : str)
  | RestartWith (es : EnvFile.State) (path : str)
  | ApplyNow (es : EnvFile.State)
  | Crash.

Definition decide_values (o : outside) (def envPath : str) (allowed : bool) (es : EnvFile.State) (c : cell) : decision :=
  let env := EnvFile.os_env es in
  let path := watchedConfigPath env def envPath (r_path (c_rt c)) allowed in
  if path =?s r_path (c_rt c) then
    match (ReloadEnvironment decode decode_routes windows o env c).1 with
    | inl Panics => Crash
    | inl (Error _) => Refusal "validation failed"
    | inr (RestartRequired _) => RestartWith es path
    | inr Applied => ApplyNow es
    end
  else
    match (ValidateRestartConfig decode decode_routes windows o env path c).1 with
    | inl Panics => Crash
    | inl (Error _) => Refusal "validation failed"
    | inr () => RestartWith es path
    end.

Definition decide_revision (dep : variables) (o : outside) (def envPath : str) (allowed : bool) (sv : supervisor) : decision :=
  if envPath =?s [] then Unchanged
  else match FileDigest envPath (k_world (sv_machine sv)) with
       | (inl Panics, _) => Crash
       | (inl (Error e), _) => Refusal e
       | (inr digest, w) =>
           if digest =?s sv_env_digest sv then Unchanged
           else
             let '(f, w) := look envPath w in
             match EnvFile.readValues json_string (open_node (node_of f)) with
             | inl e => Refusal e
             | inr values =>
                 decide_values o def envPath allowed
                   (EnvFacts.state_of dep (EnvFacts.loaded dep true values (EnvFile.managedValues (k_env (sv_machine sv)))))
                   (mkCell (sv_rt sv) w (k_ticks (sv_machine sv)))
             end
       end.

(** What the turn does accordingly. *)
Definition carried_out (sv : supervisor) (d : decision) (res : result (option str)) (s : supervisor) : Prop :=
  match d with
  | Unchanged => res = inr None ∧ before sv s
  | Refusal e => res = inr None ∧ refused sv s ∧ w_error (r_watch (sv_rt s)) = e
  | RestartWith es path => res = inr (Some path) ∧ k_env (sv_machine s) = es ∧ (∃ w, sv_rt s = with_watch w (sv_rt sv))
      ∧ sv_from s = Some (EnvFile.managedValues (k_env (sv_machine sv)))
  | ApplyNow es => res = inr None ∧ k_env (sv_machine s) = es ∧ sv_from s = sv_from sv ∧ hot_applied sv s
  | Crash => res = inl Panics
  end.

Lemma carried_restart sv d path s : carried_out sv d (inr (Some path)) s →
  (∃ es, d = RestartWith es path ∧ k_env (sv_machine s) = es) ∧ sv_from s = Some (EnvFile.managedValues (k_env (sv_machine sv))).
Proof.
  destruct d as [|e|es p|es|]; cbn; try (by intros [? _]); [|done]. intros ([= <-] & He & _ & Hf). split; [by exists es|done].
Qed.

Lemma carried_revised dep o def envPath allowed sv res s :
  carried_out sv (decide_revision dep o def envPath allowed sv) res s → revised dep sv res s.
Proof.
  unfold decide_revision. destruct (_ =?s _); [intros [-> H]; left; by apply before_refused|].
  destruct (FileDigest envPath _) as [[[|e]|digest] w]; [by intros ->|by intros (-> & H & _); left|].
  destruct (_ =?s _); [intros [-> H]; left; by apply before_refused|]. destruct (look envPath w) as [f w'].
  destruct (EnvFile.readValues json_string _) as [e|values] eqn:Ev; [by intros (-> & H & _); left|].
  set (es := EnvFacts.state_of dep _). assert (k_env (sv_machine s) = es → env_of_file dep sv s) as Hfile by (intros He; by exists f, values).
  unfold decide_values. cbv zeta. destruct (_ =?s _).
  - destruct (ReloadEnvironment _ _ _ _ _ _).1 as [[|e]|[|fields]]; [by intros ->|by intros (-> & H & _); left| |].
    + intros (-> & He & Hf & H). right. split; [by apply Hfile|done].
    + intros (-> & He & Hr & Hf). split; [by apply Hfile|done].
  - destruct (ValidateRestartConfig _ _ _ _ _ _ _).1 as [[|e]|[]]; [by intros ->|by intros (-> & H & _); left|].
    intros (-> & He & Hr & Hf). split; [by apply Hfile|done].
Qed.

Lemma record_error path e s s' : recorded clock path false false (Some e) s = (inr (), s') → w_error (r_watch (sv_rt s')) = e.
Proof.
  unfold recorded, on_cell, RecordWatchChange, get, mbind, op_bind. cbv beta iota zeta. destruct (w_error _ =?s e) eqn:E; cbn [andb].
  - apply eqs_true in E. cbn [cell_of c_rt]. destruct ((w_changed _ =?s path) && _); intros Hp; apply pair_equal_spec in Hp as [_ <-]; [exact E|done].
  - intros H. by apply pair_equal_spec in H as [_ <-].
Qed.

Lemma refuse sv path e s : refused sv s →
  let m : op supervisor (option str) := _ ← recorded clock path false false (Some e); mret None in carried_out sv (Refusal e) (m s).1 (m s).2.
Proof.
  intros H m. unfold m. destruct (refused_record sv s path false false (Some e) H) as (s' & E & H'). rewrite (bind_run _ _ s () s') by done.
  split; [done|]. split; [exact H'|]. by eapply record_error.
Qed.

Lemma tried_digest path sv : tried (on_cell (lift (FileDigest path))) sv =
  let '(r, w) := FileDigest path (k_world (sv_machine sv)) in
  (match r with inl Panics => inl Panics | inl (Error e) => inr (inl e) | inr a => inr (inr a) end,
   with_cell (mkCell (sv_rt sv) w (k_ticks (sv_machine sv))) sv).
Proof.
  unfold tried, attempt, on_cell, lift, mbind, op_bind. cbn [cell_of c_world].
  by destruct (FileDigest path (k_world (sv_machine sv))) as [[[|e]|a] w].
Qed.

Lemma taken_hot sv s es c s' : before sv s →
  environment_taken decode (EnvFile.os_env es) (c_rt (cell_of s)) (PersistFacts.current_file (r_path (c_rt (cell_of s))) (disk (c_world (cell_of s)))) (inr Applied) c →
  (∃ w, sv_rt s' = with_watch w (c_rt c)) → k_env (sv_machine s') = es → hot_applied sv s'.
Proof.
  intros [H1 _ _ H4] (fileCfg & c0 & runtimeCfg & Hf & Ho & Hr & Hcase) [w Hw] He. cbn [cell_of c_rt c_world] in *. rewrite H1, H4 in *.
  exists fileCfg, c0, runtimeCfg. rewrite PersistFacts.restart_spec, He. split_and!; [done|done|done|].
  destruct Hcase as [[Hc [Hrt _]]|(t & e & i & cl & Hp & Hrt)]; rewrite Hw, Hrt.
  - left. split; [done|]. by exists w.
  - right. by split.
Qed.

(** The end of a turn that was applied without a restart. *)
Lemma hot_end s envPath : ∃ s', (_ ← recorded clock envPath true false None;
    sv ← see; d ← digest_or_zero (EdgeConfigPath (sv_rt sv)); _ ← change (λ sv1, with_edge (EdgeConfigPath (sv_rt sv)) d (sv_pending sv1) sv1);
    mret (None : option str)) s = (inr None, s')
  ∧ (∃ w, sv_rt s' = with_watch w (sv_rt s)) ∧ k_env (sv_machine s') = k_env (sv_machine s) ∧ sv_from s' = sv_from s.
Proof.
  destruct (refused_record s s envPath true false None) as (s1 & E1 & Hs1).
  { split_and!; [|done|done]. exists (r_watch (sv_rt s)). by destruct (sv_rt s). }
  rewrite (bind_run _ _ s () s1) by done. rewrite (bind_run _ _ s1 s1 s1) by done.
  assert (∃ d s2, digest_or_zero (EdgeConfigPath (sv_rt s1)) s1 = (inr d, s2) ∧ before s1 s2) as (d & s2 & E2 & Hs2).
  { assert (ends (before s1) (digest_or_zero (EdgeConfigPath (sv_rt s1))) (λ r s, (∃ d, r = inr d) ∧ before s1 s)) as H.
    { apply before_reads; [apply digest_reads|apply digest_calm|]. intros a x Hx. split; [by eexists|exact Hx]. }
    specialize (H s1 ltac:(by split)). destruct (digest_or_zero (EdgeConfigPath (sv_rt s1)) s1) as [r s2]. cbn [fst snd] in H.
    destruct H as [[d ->] H]. by exists d, s2. }
  rewrite (bind_run _ _ s1 d s2) by done. rewrite (bind_run _ _ s2 () _) by done. eexists. split; [reflexivity|].
  destruct Hs1 as ([w Hw] & He & Hf), Hs2 as [B1 B2 B3 _]. cbn. rewrite B1, B2, B3. by split_and!; [exists w| |].
Qed.

(** The choice that [ReloadValidated] is given makes the same decision. *)
Lemma choice_decides o def envPath allowed es c : let '((c', ch), err) := env_choice decode decode_routes windows o def envPath allowed (EnvFile.os_env es) (c, Undecided) in
  decide_values o def envPath allowed es c =
  match ch, err with
  | Crashed, _ => Crash
  | _, Some _ => Refusal "validation failed"
  | RestartAt path, None => RestartWith es path
  | HotApplied, None => ApplyNow es
  | Undecided, None => Unchanged
  end.
Proof.
  unfold env_choice, decide_values. cbn [fst snd]. cbv zeta. destruct (_ =?s _); cbn [negb].
  - by destruct (ReloadEnvironment _ _ _ _ _ c) as [[[|e]|[|fields]] c'].
  - by destruct (ValidateRestartConfig _ _ _ _ _ _ c) as [[[|e]|[]] c'].
Qed.

Lemma environment_carried dep o def envPath allowed sv : EnvFacts.owns dep (k_env (sv_machine sv)) → trim_space envPath = envPath →
  let '(res, sv') := watch_environment decode decode_routes json_string windows clock o def envPath allowed sv in
  carried_out sv (decide_revision dep o def envPath allowed sv) res sv'.
Proof.
  intros Hown Htrim. cut (carried_out sv (decide_revision dep o def envPath allowed sv)
    (watch_environment decode decode_routes json_string windows clock o def envPath allowed sv).1
    (watch_environment decode decode_routes json_string windows clock o def envPath allowed sv).2); [by destruct (watch_environment _ _ _ _ _ _ _ _ _ sv)|].
  unfold watch_environment, decide_revision. destruct (envPath =?s []) eqn:Ep; [by split|].
  pose proof (tried_digest envPath sv) as Et. pose proof (digest_result envPath (k_world (sv_machine sv))) as [Hdisk Hcalm].
  destruct (FileDigest envPath (k_world (sv_machine sv))) as [[[|e]|digest] w1]; cbn [fst snd] in *; [done| |];
    set (s1 := with_cell (mkCell (sv_rt sv) w1 (k_ticks (sv_machine sv))) sv) in *; assert (before sv s1) as B1 by by split.
  { rewrite (bind_run _ _ sv (inl e) s1) by done. by apply refuse, before_refused. }
  rewrite (bind_run _ _ sv (inr digest) s1) by done. rewrite (bind_run _ _ s1 s1 s1) by done.
  change (sv_env_digest s1) with (sv_env_digest sv). destruct (digest =?s _); [by split|].
  set (s2 := with_env_digest digest s1). rewrite (bind_run _ _ s1 () s2) by done. cbv zeta. assert (before sv s2) as B2 by by destruct B1.
  pose proof (PersistFacts.look_disk envPath w1) as Hl1. destruct (look envPath w1) as [f w2] eqn:El. cbn [snd] in Hl1.
  set (c := mkCell (sv_rt sv) w2 (k_ticks (sv_machine sv))). set (s3 := with_cell c s2).
  assert (before sv s3) as B3 by (split; cbn; congruence).
  rewrite (bind_run _ _ s2 f s3) by (unfold on_cell, lift, look_up; cbn; by rewrite El). rewrite (bind_run _ _ s3 s3 s3) by done.
  change (cell_of s3) with c. change (k_env (sv_machine s3)) with (k_env (sv_machine sv)). change (k_env (sv_machine s2)) with (k_env (sv_machine sv)).
  unfold EnvFile.ReloadValidated. rewrite Htrim, Ep.
  pose proof (EnvFacts.loadFile_spec dep json_string (open_node (node_of f)) true (env_choice decode decode_routes windows o def envPath allowed)
    (k_env (sv_machine sv)) (c, Undecided) Hown) as Hl.
  assert (∀ c', c_rt c' = sv_rt sv → refused sv (with_env (k_env (sv_machine sv)) (with_cell c' s3))) as Hback.
  { intros c' Hc. split_and!; [|done|done]. exists (r_watch (sv_rt sv)). cbn. rewrite Hc. by destruct (sv_rt sv). }
  destruct (EnvFile.readValues json_string (open_node (node_of f))) as [e|values]; cbv zeta in Hl; rewrite Hl.
  { rewrite (bind_run _ _ s3 () _) by done. by apply refuse, Hback. }
  set (es := EnvFacts.state_of dep _) in *.
  pose proof (choice_spec o def envPath allowed (EnvFile.os_env es) c) as Hc. pose proof (choice_decides o def envPath allowed es c) as Hd.
  destruct (env_choice _ _ _ _ _ _ _ _ (c, Undecided)) as [[c' ch] err]; cbv zeta in Hc; rewrite Hd.
  destruct err as [e|].
  - rewrite (bind_run _ _ s3 () _) by done. destruct ch; try done; by apply refuse, Hback.
  - rewrite (bind_run _ _ s3 () _) by done. destruct ch as [| |path|]; [done|done| |].
    + rewrite (bind_run _ _ _ () _) by done. set (s4 := with_from _ _).
      destruct (refused_record s4 s4 envPath false true None) as (s5 & E5 & [w Hw] & He & Hf).
      { split_and!; [|done|done]. exists (r_watch (sv_rt s4)). by destruct (sv_rt s4). }
      rewrite (bind_run _ _ s4 () s5) by done. cbn [carried_out fst snd mret op_ret]. split; [done|]. split; [by rewrite He|]. split; [|by rewrite Hf].
      exists w. rewrite Hw. unfold s4. cbn. by rewrite Hc.
    + set (s4 := with_env _ _). destruct (hot_end s4 envPath) as (s5 & E5 & [w Hw] & He & Hf). rewrite E5. cbn [carried_out fst snd].
      split; [done|]. split; [by rewrite He|]. split; [by rewrite Hf|].
      eapply (taken_hot sv s3 es c'); [done|exact Hc|exists w; by rewrite Hw|by rewrite He].
Qed.

Lemma environment_revised dep o defaultConfigPath envPath allowed sv : EnvFacts.owns dep (k_env (sv_machine sv)) → trim_space envPath = envPath →
  let '(res, sv') := watch_environment decode decode_routes json_string windows clock o defaultConfigPath envPath allowed sv in revised dep sv res sv'.
Proof.
  intros Ho Ht. pose proof (environment_carried dep o defaultConfigPath envPath allowed sv Ho Ht) as H.
  destruct (watch_environment _ _ _ _ _ _ _ _ _ sv) as [res sv']. by eapply carried_revised.
Qed.

(** C6: A revision of the environment file is taken or left, and which of the two is
    decided by the file and the configuration alone.  Nothing happens when no
    file is watched or its digest is that of the last turn.  A file that cannot
    be read or parsed is left, and so is one under whose variables (with those of
    the deployment above them) the configuration would be refused: by
    ReloadEnvironment when they leave the configuration file where it is, by
    ValidateRestartConfig when they name another one.  Left means that the
    variables and the runtime are as before, and the status of the watcher tells
    the error.  A file that is not left is taken: the variables are those of the
    file below the deployment's, and either the runtime serves what the
    configuration file says under them, or a restart is asked for, with the old
    variables kept for its failure.  Conditions: the path of the file has no
    blanks around it, and the variables are at first those of the deployment and
    the file. *)
Theorem environment_all_or_nothing dep o defaultConfigPath envPath allowed sv : EnvFacts.owns dep (k_env (sv_machine sv)) → trim_space envPath = envPath →
  let '(res, sv') := watch_environment decode decode_routes json_string windows clock o defaultConfigPath envPath allowed sv in
  carried_out sv (decide_revision dep o defaultConfigPath envPath allowed sv) res sv'.
Proof. apply environment_carried. Qed.

(** ** A restart that fails *)

(** C16: When the generation that should replace [sv] does not start, the fallback
    puts back what [sv] came from: the variables from before the revision that
    asked for the restart, and, when the replacement was to run from the same
    file, the last configuration that was in force: a start loads what its
    validation (by the save, and again by the load) accepts; a file that the
    replacement was to run from instead is not touched.  If the file cannot be
    put back, it is left as it is.  Assumed: the path of the file is no name that
    saving uses for its own files, and the JSON codec reads back what it has
    written; the variables and those to be restored are ones that the environment
    file may set. *)
Theorem fallback_restores dep sv failedPath k : PersistFacts.codec encode decode → SecPersist.plain (r_path (sv_rt sv)) →
  EnvFacts.owns dep (k_env k) → (∀ s, sv_from sv = Some s → EnvFacts.allowed dep s) →
  let same := path_clean (r_path (sv_rt sv)) =?s path_clean failedPath in
  let on_start k := PersistFacts.restart decode (r_path (sv_rt sv)) (disk (k_world k)) in
  let '(r, k') := restoreSecurityFallback encode windows stamp rand (fallback_of sv) failedPath k in
  k_env k' = match sv_from sv with Some s => EnvFacts.state_of dep s | None => k_env k end
  ∧ match r with
    | None => if same then ∀ c c', accepted (cloneConfig (r_healthy (sv_rt sv))) c → accepted c c' → on_start k' = inr c'
              else disk (k_world k') = disk (k_world k)
    | Some _ => same = true ∧ on_start k' = on_start k
    end.
Proof.
  intros Hcodec Hplain Hown Hfrom. cbv zeta. unfold restoreSecurityFallback, fallback_of, RestartFallback. cbn [fb_env fb_path fb_cfg].
  assert (match sv_from sv with Some snapshot => EnvFile.RestoreManagedEnvironment snapshot (k_env k) | None => (k_env k, None) end
    = (match sv_from sv with Some s => EnvFacts.state_of dep s | None => k_env k end, None)) as ->.
  { destruct (sv_from sv) as [s|]; [|done]. apply EnvFacts.restore_spec; [done|by apply Hfrom]. }
  destruct (path_clean (r_path (sv_rt sv)) =?s path_clean failedPath) eqn:E; cbn [negb]; [|by split].
  cbn [k_world k_ticks]. unfold Save.
  pose proof (λ c c', PersistFacts.save_loads encode decode windows (stamp (k_ticks k)) (rand (k_ticks k)) (r_path (sv_rt sv)) (cloneConfig (r_healthy (sv_rt sv))) c c'
    (k_world k) Hplain Hcodec) as Hs.
  pose proof (PersistFacts.save_keeps encode windows (stamp (k_ticks k)) (rand (k_ticks k)) (r_path (sv_rt sv)) (cloneConfig (r_healthy (sv_rt sv))) (k_world k) Hplain) as Hk.
  destruct (Persistence.Save _ _ _ _ _ _ (k_world k)) as [[e|] w]; cbn [k_env k_world]; (split; [done|]).
  - split; [done|]. rewrite !PersistFacts.restart_spec. by rewrite Hk.
  - intros c c' Hc Hc'. by apply (Hs c c').
Qed.

(** ** The environment in a whole run *)

(** What does not concern the environment. *)
Definition still_env {A : Type} (m : op supervisor A) : Prop :=
  ∀ s, k_env (sv_machine (m s).2) = k_env (sv_machine s) ∧ sv_from (m s).2 = sv_from s.

Lemma still_bind {A B : Type} (m : op supervisor A) (f : A → op supervisor B) : still_env m → (∀ a, still_env (f a)) → still_env (m ≫= f).
Proof.
  intros Hm Hf s. unfold mbind, op_bind. specialize (Hm s). destruct (m s) as [[e|a] s1]; [done|]. cbn [snd] in Hm. destruct Hm as [H1 H2].
  rewrite <- H1, <- H2. apply Hf.
Qed.
Lemma still_ret {A : Type} (a : A) : still_env (mret a).
Proof. done. Qed.
Lemma still_result {A : Type} (r : result A) : still_env (of_result r).
Proof. done. Qed.
Lemma still_see : still_env see.
Proof. done. Qed.
Lemma still_cell {A : Type} (m : op cell A) : still_env (on_cell m).
Proof. intros s. unfold on_cell. by destruct (m (cell_of s)). Qed.
Lemma still_tried {A : Type} (m : op supervisor A) : still_env m → still_env (tried m).
Proof. intros Hm. apply still_bind; [|intros; apply still_result]. intros s. unfold attempt. specialize (Hm s). by destruct (m s). Qed.
Lemma still_edge path digest pending : still_env (change (with_edge path digest pending)).
Proof. done. Qed.
Lemma still_edge_of f g h : still_env (change (λ sv, with_edge (f sv) (g sv) (h sv) sv)).
Proof. done. Qed.
Lemma still_security digest : still_env (change (with_security_digest digest)).
Proof. done. Qed.
Lemma still_env_digest digest : still_env (change (with_env_digest digest)).
Proof. done. Qed.

Ltac still := repeat (first
  [ apply still_ret | apply still_see | apply still_cell | apply still_edge | apply still_edge_of | apply still_security | apply still_env_digest | apply still_result
  | apply still_tried | apply still_bind; [|intros ?] | progress cbv zeta
  | match goal with |- still_env (match ?x with _ => _ end) => destruct x end ]).

Lemma still_retry a : still_env (retry_routes decode_routes decode_watch clock a).
Proof. unfold retry_routes, reload_routes, recorded. still. Qed.
Lemma still_watch_security o : still_env (watch_security decode decode_routes windows clock o).
Proof. unfold watch_security, recorded, digest_or_zero. still. Qed.
Lemma still_watch_routes a : still_env (watch_routes decode_routes decode_watch clock a).
Proof. unfold watch_routes, reload_routes, recorded, digest_or_zero. still. Qed.
Lemma still_first envPath : still_env (first_digests envPath).
Proof. unfold first_digests, digest_or_zero. still. Qed.

Section dep.
Context (dep : variables).

(** The process has the variables of its deployment and, below them, the loader's;
    what a fallback would put back is of that kind. *)
Definition sound_env (s : supervisor) : Prop :=
  EnvFacts.owns dep (k_env (sv_machine s)) ∧ ∀ m, sv_from s = Some m → EnvFacts.allowed dep m.

Lemma sound_still {A : Type} (m : op supervisor A) : still_env m → ends sound_env m (λ _, sound_env).
Proof. intros Hm s Hs. specialize (Hm s) as [H1 H2]. unfold sound_env. by rewrite H1, H2. Qed.

Lemma file_owned sv s : EnvFacts.owns dep (k_env (sv_machine sv)) → env_of_file dep sv s → EnvFacts.owns dep (k_env (sv_machine s)).
Proof.
  intros Ho (f & values & Hv & ->). apply EnvFacts.state_of_owns. apply EnvFacts.loaded_allowed; [by apply EnvFacts.owns_state_of|].
  by eapply EnvFacts.readValues_settable.
Qed.

Lemma sound_revised sv s path res : sound_env sv → trim_space path = path → revised dep sv res s → res ≠ inl Panics → sound_env s.
Proof.
  intros [Ho Hf] Ht Hr Hp. destruct res as [f|[next|]]; [by cbn in Hr; subst| |].
  - destruct Hr as (He & _ & Hfrom). split; [by eapply file_owned|]. rewrite Hfrom. intros m [= <-]. by apply EnvFacts.owns_state_of.
  - destruct Hr as [(_ & He & Hfrom)|(He & Hfrom & _)]; (split; [|by rewrite Hfrom]); [by rewrite He|by eapply file_owned].
Qed.

Definition life_env (l : life) : EnvFile.State :=
  match l with Starting _ _ _ _ k | Exited _ k => k_env k | Running sv => k_env (sv_machine sv) end.
Definition life_snapshot (l : life) : option EnvFile.ManagedSnapshot :=
  match l with Starting _ (Some fb) _ _ _ => fb_env fb | Running sv => sv_from sv | _ => None end.
Definition sound_life (l : life) : Prop := EnvFacts.owns dep (life_env l) ∧ ∀ m, life_snapshot l = Some m → EnvFacts.allowed dep m.

Lemma sound_tick o def envPath allowed retry fresh_ sv next sv' : trim_space envPath = envPath → sound_env sv →
  tick decode decode_routes json_string decode_watch windows clock o def envPath allowed retry fresh_ sv = (inr next, sv') → sound_env sv'.
Proof.
  intros Ht Hs H. unfold tick in H. apply bind_inv in H as (u & s1 & E1 & H).
  pose proof (sound_still _ (still_retry retry) sv Hs) as H1. rewrite E1 in H1. cbn [snd] in H1. apply bind_inv in H as (restart & s2 & E2 & H).
  pose proof (environment_revised dep o def envPath allowed s1 (proj1 H1) Ht) as H2. rewrite E2 in H2.
  apply (sound_revised s1 s2 envPath) in H2; [|done|done|done]. destruct restart as [path|]; [by injection H as _ <-|].
  apply bind_inv in H as (restart & s3 & E3 & H). pose proof (sound_still _ (still_watch_security o) s2 H2) as H3. rewrite E3 in H3. cbn [snd] in H3.
  destruct restart as [path|]; [by injection H as _ <-|]. apply bind_inv in H as (u' & s4 & E4 & H). injection H as _ <-.
  pose proof (sound_still _ (still_watch_routes fresh_) s3 H3) as H4. by rewrite E4 in H4.
Qed.

Lemma start_env o path envPath prev k : k_env (startSecurityGeneration decode decode_routes windows clock o path envPath prev k).2 = k_env k.
Proof.
  unfold startSecurityGeneration. destruct (New _ _ _ _ _ _ _ _) as [[e|rt] w]; [done|]. cbv zeta. do 3 (destruct (_ && _); [done|]).
  by destruct (bindSecurityListeners _ _ _ _) as [[e|[]] held].
Qed.

Lemma restore_env fb failed k r k' : EnvFacts.owns dep (k_env k) → (∀ m, fb_env fb = Some m → EnvFacts.allowed dep m) →
  restoreSecurityFallback encode windows stamp rand fb failed k = (r, k') → EnvFacts.owns dep (k_env k').
Proof.
  intros Ho Hf. unfold restoreSecurityFallback. destruct (fb_env fb) as [m|].
  - rewrite (EnvFacts.restore_spec dep m (k_env k) Ho (Hf m eq_refl)). destruct (negb _); [intros [= _ <-]; by apply EnvFacts.state_of_owns, Hf|].
    destruct (Save _ _ _ _ _ _ _) as [[e|] w]; intros [= _ <-]; by apply EnvFacts.state_of_owns, Hf.
  - destruct (negb _); [by intros [= _ <-]|]. by destruct (Save _ _ _ _ _ _ _) as [[e|] w]; intros [= _ <-].
Qed.

Lemma sound_supervise envPath rt k : EnvFacts.owns dep (k_env k) → sound_env (supervise envPath rt k).
Proof. intros Ho. unfold supervise. by apply (sound_still _ (still_first envPath)). Qed.

Context (defaultConfigPath envPath : str) (allowed : bool).
Abbreviation run := (run_step encode decode decode_routes json_string decode_watch windows clock stamp rand defaultConfigPath envPath allowed).

Lemma sound_step l l' : trim_space envPath = envPath → run l l' → sound_life l → sound_life l'.
Proof.
  intros Ht Hstep. destruct Hstep as [o path fb notice prev k rt k' E|o path fb notice prev k e k' k'' E Er|o path fb notice prev k e k' e' k'' E Er
    |o path notice prev k e k' E|o retry fresh_ sv sv' E|o retry fresh_ sv next sv' E|o retry fresh_ sv next sv' E|sv code|o e sv r sv' E|sv w]; intros [Ho Hf]; cbn in Ho, Hf.
  - assert (k_env k' = k_env k) as Hk by (rewrite <- (start_env o path envPath prev k); by rewrite E).
    assert (k_env (begun clock notice rt k').2 = k_env k') as Hb by by destruct notice as [[p e]|].
    destruct (begun clock notice rt k') as [rt' k2] eqn:Eb. cbn [snd] in Hb. apply sound_supervise. by rewrite Hb, Hk.
  - assert (k_env k' = k_env k) as Hk by (rewrite <- (start_env o path envPath prev k); by rewrite E). split; [|done].
    eapply restore_env; [|exact Hf|exact Er]. by rewrite Hk.
  - assert (k_env k' = k_env k) as Hk by (rewrite <- (start_env o path envPath prev k); by rewrite E). split; [|done].
    eapply restore_env; [|exact Hf|exact Er]. by rewrite Hk.
  - split; [|done]. cbn. pose proof (start_env o path envPath prev k) as Hk. rewrite E in Hk. cbn [snd] in Hk. by rewrite Hk.
  - by eapply sound_tick.
  - eapply sound_tick in E as [H1 H2]; [|done|done]. by split.
  - eapply sound_tick in E as [H1 H2]; [|done|done]. by split.
  - by split.
  - pose proof (sound_still _ (still_cell (run_edit encode decode decode_routes windows clock stamp rand o (vars_of (sv_machine sv)) e)) sv (conj Ho Hf)) as H.
    by rewrite E in H.
  - by split.
Qed.

(** C15: In every run of the program, through any number of revisions of the
    environment file, restarts, failed generations and rollbacks: a variable of the
    deployment keeps its value, every other variable is one that the loader set,
    and so it is in what a fallback would put back. *)
Theorem deployment_variables_win k l : trim_space envPath = envPath → EnvFacts.owns dep (k_env k) → rtc run (launched defaultConfigPath k) l →
  (∀ key, EnvFile.os_env (life_env l) !! key = match dep !! key with Some v => Some v | None => EnvFile.managedValues (life_env l) !! key end)
  ∧ ∀ m key, life_snapshot l = Some m → is_Some (dep !! key) → m !! key = None.
Proof.
  intros Ht Ho H. assert (sound_life l) as [H1 H2].
  { cut (∀ l0, rtc run l0 l → sound_life l0 → sound_life l); [intros Hc; by apply (Hc _ H)|]. clear H. intros l0 H.
    induction H as [|l0 l1 l2 Hs _ IH]; [done|]. intros Hl. apply IH. by eapply sound_step. }
  split; [intros key; by apply EnvFacts.owns_lookup|]. intros m key Hm [v Hv]. destruct (H2 m Hm) as [Hd _]. by eapply map_disjoint_Some_l.
Qed.

End dep.
End facts.
End MainFacts.
