(* ===== verification/SecMainSamples.v ===== *)
(** * A watched SecurityEdge: the theorems of SecMainFacts.v on concrete files

    A generation is started from three files, one of them changes, and the
    watcher takes its turn. *)

From S2P Require Import Prelude GoStr GoPath GoText GoHttp GoCodec GoFloat GoOS NetIP Config ConfigValidate ConfigFacts ConfigStable ConfigEnv ConfigPersist ConfigPersistFacts EnvFile EnvFileFacts Router RouteTable ClientIP RateLimit SecPolicy Waf SecConfig SecConfigFacts SecPersist SecPersistFacts SecPaths SecPathsFacts SecRuntime SecRuntimeFacts SecRuntimeSamples SecMain SecMainFacts.

Module MainSamples.
Import Persistence SecConfig SecFacts SecPersist SecPersistFacts SecPaths SecPathsFacts SecRuntime RuntimeFacts RuntimeSamples SecMain MainFacts.
#[local] Existing Instances s_unicode s_resolve s_lib s_sha s_range.

Definition env_path : str := "/etc/security.env".
Definition no_json : str → option str := λ _, None.
Definition ready_watch : str → option watchDoc := λ _, Some (mkWatchDoc 1 1 false []).
Definition up : answer := Some (200, lit "{}").

Definition codec_out := two_encode sample_valid logged.
Definition codec_in := two_decode sample_valid logged.
Definition fixed (text : string) : nat → str := λ _, lit text.

Definition first_disk : files := <[env_path := Regular []]> sample_disk.
Definition env0 : EnvFile.State := EnvFile.mkState ∅ ∅.
Definition machine0 : machine := mkMachine (mkWorld first_disk [] []) env0 0.

Definition generation : result Runtime * machine :=
  startSecurityGeneration codec_in sample_routes false (fixed "") sample_outside "/etc/security.json" env_path no_watch machine0.

(** The watcher of the generation when the disk has become [d]. *)
Definition watcher (d : files) : option supervisor :=
  match generation with
  | (inr rt, k) => let sv := supervise env_path rt k in Some (with_cell (mkCell (sv_rt sv) (mkWorld d [] []) (k_ticks (sv_machine sv))) sv)
  | _ => None
  end.

Definition turn (sv : supervisor) : result (option str) * supervisor :=
  tick codec_in sample_routes no_json ready_watch false (fixed "") sample_outside "/etc/security.json" env_path true up up sv.

(** ** A route edit *)

Definition route_edit : files := <[lit "/etc/edgeproxy.json" := Regular "no routes"]> first_disk.

Definition same_digests (sv : supervisor) : bool :=
  bool_decide (file_digest (disk (k_world (sv_machine sv))) (r_path (sv_rt sv)) = Some (sv_security_digest sv))
  && bool_decide (file_digest (disk (k_world (sv_machine sv))) env_path = Some (sv_env_digest sv)).

Lemma route_edit_seen : match watcher route_edit with Some sv => same_digests sv | None => false end = true.
Proof. vm_compute. reflexivity. Qed.

(** Reloading the routes fails, and the status says so. *)
Lemma route_edit_noted : match watcher route_edit with Some sv => w_error (r_watch (sv_rt (turn sv).2)) =?s "parse edgeproxy config" | None => false end = true.
Proof. vm_compute. reflexivity. Qed.

Lemma digest_same (x : option str) (a : str) : x = Some a → ∀ d, x = Some d → d = a.
Proof. intros -> d [= <-]. reflexivity. Qed.

Lemma route_edits_never_restart_witness : ∃ sv, watcher route_edit = Some sv ∧ (turn sv).1 = inr None
  ∧ w_error (r_watch (sv_rt (turn sv).2)) = lit "parse edgeproxy config" ∧ k_env (sv_machine (turn sv).2) = k_env (sv_machine sv).
Proof.
  pose proof route_edit_seen as Hd. pose proof route_edit_noted as Hn. destruct (watcher route_edit) as [sv|]; [|discriminate Hd].
  exists sv. split; [reflexivity|]. apply andb_true_iff in Hd as [H1%bool_decide_eq_true H2%bool_decide_eq_true].
  pose proof (route_edits_never_restart codec_in sample_routes no_json ready_watch false (fixed "") sample_outside "/etc/security.json" env_path true up up sv
    (digest_same _ _ H1) (digest_same _ _ H2)) as H.
  fold (turn sv) in H. destruct (turn sv) as [res sv']. destruct H as (Hr & _ & He & _). cbn [fst snd] in *.
  split; [exact Hr|]. split; [exact (proj1 (eqs_true _ _) Hn)|exact He].
Defined.

(** ** A revision of the environment that needs a restart *)

Definition env_edit : files := <[env_path := Regular "SECURITYEDGE_ADMIN_LISTEN_ADDR=127.0.0.1:9443"]> first_disk.

Definition revise (sv : supervisor) : result (option str) * supervisor :=
  watch_environment codec_in sample_routes no_json false (fixed "") sample_outside "/etc/security.json" env_path true sv.

Lemma env0_owns : EnvFacts.owns ∅ env0.
Proof. split; [reflexivity|apply map_disjoint_empty_l|apply map_Forall_empty]. Qed.

#[local] Instance env_state_dec : EqDecision EnvFile.State.
Proof. solve_decision. Defined.

Lemma env_edit_restarts : match watcher env_edit with
  | Some sv => bool_decide (k_env (sv_machine sv) = env0)
      && match revise sv with
         | (inr (Some path), sv') => (path =?s "/etc/security.json")
             && bool_decide (EnvFile.os_env (k_env (sv_machine sv')) !! lit "SECURITYEDGE_ADMIN_LISTEN_ADDR" = Some (lit "127.0.0.1:9443"))
         | _ => false
         end
  | None => false end = true.
Proof. vm_compute. reflexivity. Qed.

Lemma environment_all_or_nothing_witness : ∃ sv sv', watcher env_edit = Some sv ∧ revise sv = (inr (Some (lit "/etc/security.json")), sv')
  ∧ EnvFile.os_env (k_env (sv_machine sv')) !! lit "SECURITYEDGE_ADMIN_LISTEN_ADDR" = Some (lit "127.0.0.1:9443")
  ∧ sv_from sv' = Some ∅.
Proof.
  pose proof env_edit_restarts as H. destruct (watcher env_edit) as [sv|]; [|discriminate H]. exists sv.
  apply andb_true_iff in H as [H0%bool_decide_eq_true H].
  assert (EnvFacts.owns ∅ (k_env (sv_machine sv))) as Ho by (rewrite H0; exact env0_owns).
  pose proof (environment_all_or_nothing codec_in sample_routes no_json false (fixed "") ∅ sample_outside "/etc/security.json" env_path true sv
    Ho eq_refl) as Hr.
  fold (revise sv) in Hr. destruct (revise sv) as [[|[path|]] sv']; [discriminate H| |discriminate H]. exists sv'.
  apply andb_true_iff in H as [->%eqs_true H%bool_decide_eq_true].
  destruct (carried_restart _ _ _ _ _ Hr) as [_ Hf]. rewrite H0 in Hf.
  split; [reflexivity|]. split; [reflexivity|]. split; [exact H|exact Hf].
Defined.

(** ** A restart that fails *)

(** The file from which the replacement did not start, and the environment that
    the replacement was to have. *)
Definition failed_disk : files := <[lit "/etc/security.json" := Regular "broken"]> first_disk.
Definition failed_values : variables := {[ lit "SECURITYEDGE_ADMIN_LISTEN_ADDR" := lit "127.0.0.1:9443" ]}.
Definition failed_machine : machine := mkMachine (mkWorld failed_disk [] []) (EnvFacts.state_of ∅ failed_values) 7.

Lemma failed_allowed : EnvFacts.allowed ∅ failed_values.
Proof. split; [apply map_disjoint_empty_l|]. apply map_Forall_singleton. split; [reflexivity|]. apply (bool_decide_eq_true_1 (nul ∉ _)). vm_compute. reflexivity. Qed.

Definition restored (sv : supervisor) : option str * machine :=
  restoreSecurityFallback codec_out false (fixed "stamp") (fixed "rand") (fallback_of sv) "/etc/./security.json" failed_machine.

Definition stranded : option supervisor := match watcher env_edit with Some sv => Some (with_from (Some ∅) sv) | None => None end.

Lemma restored_story : match stranded with
  | Some sv => bool_decide (sv_from sv = Some ∅) && (r_path (sv_rt sv) =?s "/etc/security.json")
      && bool_decide (r_healthy (sv_rt sv) = cloneConfig sample_valid)
      && bool_decide ((restored sv).1 = None)
  | None => false end = true.
Proof. vm_compute. reflexivity. Qed.

Lemma healthy_again : accepted (cloneConfig (cloneConfig sample_valid)) sample_valid ∧ accepted sample_valid sample_valid.
Proof. split; vm_compute; reflexivity. Qed.

Lemma fallback_restores_witness : ∃ sv k, stranded = Some sv ∧ restored sv = (None, k) ∧ k_env k = env0
  ∧ PersistFacts.restart codec_in "/etc/security.json" (disk (k_world failed_machine)) ≠ inr sample_valid
  ∧ PersistFacts.restart codec_in "/etc/security.json" (disk (k_world k)) = inr sample_valid.
Proof.
  pose proof restored_story as H. destruct stranded as [sv|]; [|discriminate H]. apply andb_true_iff in H as [H H4%bool_decide_eq_true].
  apply andb_true_iff in H as [H H3%bool_decide_eq_true]. apply andb_true_iff in H as [H1%bool_decide_eq_true H2%eqs_true].
  assert (∀ s, sv_from sv = Some s → EnvFacts.allowed ∅ s) as Hfrom.
  { rewrite H1. intros s [= <-]. split; [apply map_disjoint_empty_l|apply map_Forall_empty]. }
  pose proof (fallback_restores codec_out codec_in false (fixed "stamp") (fixed "rand") ∅ sv "/etc/./security.json" failed_machine
    (sec_two_codec _ _) ltac:(rewrite H2; exact sample_plain) (EnvFacts.state_of_owns _ _ failed_allowed) Hfrom) as H.
  cbv zeta in H. rewrite H1, H2 in H. fold (restored sv) in H.
  assert ((path_clean "/etc/security.json" =?s path_clean "/etc/./security.json") = true) as Hsame by (vm_compute; reflexivity). rewrite Hsame in H.
  destruct (restored sv) as [r k] eqn:E. cbn [fst] in H4. subst r.
  destruct H as [He Hs]. exists sv, k. split; [reflexivity|]. split; [exact E|]. split; [exact He|]. split; [vm_compute; discriminate|].
  rewrite H3 in Hs. exact (Hs _ _ (proj1 healthy_again) (proj2 healthy_again)).
Defined.

(** ** The variables of the deployment *)

Definition deployed : variables := {[ lit "SECURITYEDGE_ADMIN_LISTEN_ADDR" := lit "127.0.0.1:9444" ]}.
Definition deployed_machine : machine := mkMachine (mkWorld first_disk [] []) (EnvFile.mkState deployed ∅) 0.

Definition both_edit : files := <[env_path := Regular ("SECURITYEDGE_ADMIN_LISTEN_ADDR=127.0.0.1:9443" ++ [chr 10] ++ "SECURITYEDGE_NOTE=x")]> first_disk.

(** The process starts, the environment file is edited, and the watcher takes its turn. *)
Definition watched_turn : option (supervisor * supervisor) :=
  match startSecurityGeneration codec_in sample_routes false (fixed "") sample_outside "/etc/security.json" env_path no_watch deployed_machine with
  | (inr rt, k) =>
      let sv := supervise env_path rt k in
      match turn (with_cell (mkCell (sv_rt sv) (mkWorld both_edit [] []) (k_ticks (sv_machine sv))) sv) with
      | (inr None, sv') => Some (sv, sv')
      | _ => None
      end
  | _ => None
  end.

Lemma watched_story : match watched_turn with
  | Some (_, sv) => bool_decide (EnvFile.managedValues (k_env (sv_machine sv)) = {[ lit "SECURITYEDGE_NOTE" := lit "x" ]})
  | None => false end = true.
Proof. vm_compute. reflexivity. Qed.

Lemma deployed_owns : EnvFacts.owns deployed (k_env deployed_machine).
Proof. split; [symmetry; apply map_union_empty|apply map_disjoint_empty_r|apply map_Forall_empty]. Qed.

Abbreviation runs := (run_step codec_out codec_in sample_routes no_json ready_watch false (fixed "") (fixed "stamp") (fixed "rand") "/etc/security.json" env_path true).

Lemma watched_run sv sv' : watched_turn = Some (sv, sv') → rtc runs (launched "/etc/security.json" deployed_machine) (Running sv').
Proof.
  unfold watched_turn. destruct (startSecurityGeneration _ _ _ _ _ _ _ _ _) as [[|rt] k] eqn:E; [done|]. cbv zeta.
  destruct (turn _) as [[|[|]] sv1] eqn:Et; [done..|]. intros [= <- <-].
  eapply rtc_l; [eapply (run_started _ _ _ _ _ _ _ _ _ _ _ _ sample_outside); exact E|]. cbn [begun]. eapply rtc_l; [apply run_files|].
  apply rtc_once. eapply run_turn. exact Et.
Qed.

Lemma deployment_variables_win_witness : ∃ sv sv', watched_turn = Some (sv, sv')
  ∧ EnvFile.os_env (k_env (sv_machine sv')) !! lit "SECURITYEDGE_ADMIN_LISTEN_ADDR" = Some (lit "127.0.0.1:9444")
  ∧ EnvFile.os_env (k_env (sv_machine sv')) !! lit "SECURITYEDGE_NOTE" = Some (lit "x").
Proof.
  pose proof watched_story as H. destruct watched_turn as [[sv sv']|] eqn:E; [|discriminate H]. exists sv, sv'. split; [reflexivity|].
  apply bool_decide_eq_true in H.
  destruct (deployment_variables_win codec_out codec_in sample_routes no_json ready_watch false (fixed "") (fixed "stamp") (fixed "rand") deployed
    "/etc/security.json" env_path true deployed_machine (Running sv') eq_refl deployed_owns (watched_run _ _ E)) as [Hv _].
  cbn [life_env] in Hv. rewrite !Hv, H. split; vm_compute; reflexivity.
Defined.

End MainSamples.
