(* ===== verification/SecAdmin.v ===== *)
(** * SecurityEdge's admin API: internal/admin/control.go and the policy handlers of internal/admin/server.go

    A handler reads a body, calls an operation of the running program
    (SecRuntime.v) or asks EdgeProxy's admin API, and answers.  A handler is an
    operation on the runtime and the files; it collects what it sends to
    EdgeProxy.  JSON decoders come from outside, and so do EdgeProxy's answers.
    The audit entries in the security log are left out. *)

From S2P Require Import Prelude GoStr GoPath GoText GoHttp GoCodec GoFloat GoOS NetIP Config ConfigValidate ConfigEnv ConfigPersist Router RouteTable ClientIP RateLimit SecPolicy Waf SecConfig SecPersist SecPaths SecRuntime.

Module SecAdmin.
Import Persistence SecConfig SecPersist SecPaths SecRuntime.

(** ** Requests to EdgeProxy *)

(** [url.PathEscape] *)
Definition segment_plain (c : ascii) : bool := is_alnum c || mem_byte c "-_.~$&+:=@".
Definition escape_segment_byte (c : ascii) : str :=
  if segment_plain c then [c] else ["%"%char; upper_hex_char (code c / 16); upper_hex_char (code c mod 16)].
Definition PathEscape (s : str) : str := flat_map escape_segment_byte s.

Definition edgeRoutePath (route : str) : str := "/api/v1/routes/" ++ PathEscape route.
Definition edgeOriginCollectionPath (route : str) : str := edgeRoutePath route ++ "/origins".
Definition edgeOriginPath (route origin : str) : str := edgeOriginCollectionPath route ++ "/" ++ PathEscape origin.

(** The path that [Client.JSON] puts on the wire: [path] becomes [URL.Path], and
    [URL.String] escapes that. *)
Definition wire_path (base path : str) : str := path_escape (trim_right_bytes "/" base ++ path).

Record edgeRequest := mkEdge { eq_method : str; eq_path : str; eq_body : option str }.

(** An answer of EdgeProxy that [EdgeJSON] returns, or its error. *)
Definition answer : Type := str + (Z * str).

(** ** Answers *)

Inductive doc :=
  | ErrorDoc (code message : str)
  | Scheduled (message : str) (watch : WatchStatus)
  | AppliedDoc (watch : WatchStatus)
  | PolicyDoc (scope : str) (p : Policy)
  | ReloadedDoc
  | ConfigDoc (c : Config) | ServerDoc (s : ServerConfig) | AdminDoc (a : AdminConfig) | EdgeDoc (e : EdgeProxyConfig) | WAFDoc (w : WAFConfig)
  | WatchDoc (w : WatchStatus).

Inductive reply := Json (status : Z) (d : doc) | Raw (status : Z) (raw : str).

Definition writeError (status : Z) (code message : str) : reply := Json status (ErrorDoc code message).

(** ** Bodies *)

Inductive decodeError := TooLarge | Bad (message : str).

(** The bytes of the body, or an error while reading it. *)
Definition read_bounded (max : Z) (body : option str) : decodeError + str :=
  match body with
  | None => inl (Bad "read")
  | Some data =>
      let data := take (Z.to_nat (max + 1)) data in
      if max <? len data then inl TooLarge else if negb (valid_utf8 data) then inl (Bad "request body must be valid UTF-8") else inr data
  end.

(** [dec] reads exactly one JSON value without unknown fields. *)
Definition decodeJSON {A} (dec : str → option A) (max : Z) (body : option str) : decodeError + A :=
  match read_bounded max body with
  | inl e => inl e
  | inr data => match dec data with Some a => inr a | None => inl (Bad "json") end
  end.

Definition writeAdminDecodeError (e : decodeError) : reply :=
  match e with
  | TooLarge => writeError 413 "body_too_large" "admin request body too large"
  | Bad m => writeError 400 "invalid_body" m
  end.

Section api.
Context {U : Unicode} {R : Resolve} {L : WafLib} {MR : MapRange}.
Context (encode : Config → option str) (decode : str → option Config) (decode_routes : str → option (list Routes.Route)).
Context (windows : bool) (clock stamp rand : nat → str).
(** [json.Valid]; the names of the routes in a document; does it say that a restart is required? *)
Context (json_valid : str → bool) (route_names : str → option (list str)) (restart_required : str → bool).
Context (o : outside) (vars : variables) (a : AdminConfig).

(** The result of an operation that a handler looks at; a panic ends the request. *)
Definition looked {S A} (m : op S A) : op S (str + A) :=
  r ← attempt m; of_result (match r with inl Panics => inl Panics | inl (Error e) => inr (inl e) | inr a => inr (inr a) end).

(** [restartRequiredError.Error] *)
Definition restart_message (fields : list str) : str := "configuration changes require a process restart: " ++ join ", " fields.

(** ** The configuration and its sections *)

Definition applySecurityConfig (candidate : Config) (errorCode : str) : op cell reply :=
  res ← looked (ReplaceConfig encode decode decode_routes windows clock stamp rand o vars candidate);
  r ← get;
  match res with
  | inl e => mret (writeError 400 errorCode e)
  | inr (RestartRequired fields) => mret (Json 202 (Scheduled (restart_message fields) (r_watch r)))
  | inr Applied => mret (Json 200 (AppliedDoc (r_watch r)))
  end.

(** One of the four sections and the whole. *)
Inductive section := Whole | Server_ | Admin_ | EdgeProxy_ | WAF_.

Definition section_doc (s : section) (c : Config) : doc :=
  match s with Whole => ConfigDoc c | Server_ => ServerDoc (server c) | Admin_ => AdminDoc (admin c) | EdgeProxy_ => EdgeDoc (edgeproxy c) | WAF_ => WAFDoc (waf c) end.

Definition error_code (s : section) : str :=
  match s with
  | Whole => "config_rejected" | Server_ => "server_update_failed" | Admin_ => "admin_update_failed"
  | EdgeProxy_ => "edgeproxy_settings_update_failed" | WAF_ => "waf_update_failed" end.

(** The section of [value] and the rest of [c]. *)
Definition with_section (s : section) (value c : Config) : Config :=
  match s with
  | Whole => value
  | Server_ => mkConfig (server value) (admin c) (edgeproxy c) (waf c) (default_policy c) (route_policies c)
  | Admin_ => mkConfig (server c) (admin value) (edgeproxy c) (waf c) (default_policy c) (route_policies c)
  | EdgeProxy_ => mkConfig (server c) (admin c) (edgeproxy value) (waf c) (default_policy c) (route_policies c)
  | WAF_ => mkConfig (server c) (admin c) (edgeproxy c) (waf value) (default_policy c) (route_policies c)
  end.

(** [configGet], [securityServerGet], ... *)
Definition section_get (s : section) : op cell reply := r ← get; mret (Json 200 (section_doc s (RedactedConfig r))).

(** [configReplace], [securityServerUpdate], ...; [dec] decodes the section. *)
Definition section_update (s : section) (dec : str → option Config) (body : option str) : op cell reply :=
  match decodeJSON dec (a_max_body a) body with
  | inl e => mret (writeAdminDecodeError e)
  | inr value => r ← get; applySecurityConfig (with_section s value (RedactedConfig r)) (error_code s)
  end.

Definition configWatch : op cell reply := r ← get; mret (Json 200 (WatchDoc (r_watch r))).

(** ** Policies *)

Definition updateDefaultPolicy (dec : str → option Policy) (body : option str) : op cell reply :=
  match decodeJSON dec (a_max_body a) body with
  | inl e => mret (writeAdminDecodeError e)
  | inr p =>
      res ← looked (UpdateDefaultPolicy encode decode decode_routes windows clock stamp rand o vars p);
      r ← get;
      match res with
      | inr Applied => mret (Json 200 (PolicyDoc "default" (EffectivePolicy r [])))
      | inr (RestartRequired fields) => mret (Json 202 (Scheduled (restart_message fields) (r_watch r)))
      | inl e => mret (writeError 400 "invalid_policy" e)
      end
  end.

(** In the two handlers that follow a required restart is an error like any other. *)
Definition failed (res : str + verdict) : option str :=
  match res with inl e => Some e | inr (RestartRequired fields) => Some (restart_message fields) | inr Applied => None end.

Definition updateRoutePolicy (dec : str → option Policy) (route : str) (body : option str) : op cell reply :=
  let route := trim_space route in
  if (route =?s []) || (route =?s "default") then mret (writeError 400 "invalid_route" "route name is required")
  else
    match decodeJSON dec (a_max_body a) body with
    | inl e => mret (writeAdminDecodeError e)
    | inr p =>
        res ← looked (UpdateRoutePolicy encode decode decode_routes windows clock stamp rand o vars route p);
        r ← get;
        match failed res with
        | Some e => mret (writeError 400 "invalid_policy" e)
        | None => mret (Json 200 (PolicyDoc route (EffectivePolicy r route)))
        end
    end.

Definition deleteRoutePolicy (route : str) : op cell reply :=
  let route := trim_space route in
  res ← looked (DeleteRoutePolicy encode decode decode_routes windows clock stamp rand o vars route);
  r ← get;
  match failed res with
  | Some e => mret (writeError 400 "delete_failed" e)
  | None => mret (Json 200 (PolicyDoc route (EffectivePolicy r route)))
  end.

Definition reload : op cell reply :=
  res ← looked (Reload decode decode_routes windows o vars);
  r ← get;
  match res with
  | inr Applied => mret (Json 200 ReloadedDoc)
  | inr (RestartRequired fields) => mret (Json 202 (Scheduled (restart_message fields) (r_watch r)))
  | inl e => mret (writeError 500 "reload_failed" e)
  end.

(** ** EdgeProxy's control plane *)

Definition exchange : Type := list edgeRequest * reply.

Definition alone (r : reply) : exchange := ([], r).

Definition forward (edge : answer) (method path : str) : exchange :=
  ([mkEdge method path None], match edge with inl e => writeError 502 "edgeproxy_unavailable" e | inr (status, raw) => Raw status raw end).

Definition readForwardBody (body : option str) : reply + str :=
  match body with
  | None => inl (writeError 400 "invalid_body" "read")
  | Some data =>
      let data := take (Z.to_nat (a_max_body a + 1)) data in
      if a_max_body a <? len data then inl (writeError 413 "body_too_large" "request body exceeds the configured admin limit")
      else if negb (valid_utf8 data) then inl (writeError 400 "invalid_body" "request body must be valid UTF-8")
      else if (trim_space data =?s []) || negb (json_valid data) then inl (writeError 400 "invalid_body" "request body must contain valid JSON")
      else inr data
  end.

(** What follows a change that EdgeProxy has made. *)
Definition mutated (edge : answer) (sent : list edgeRequest) : op cell exchange :=
  match edge with
  | inl e => mret (sent, writeError 502 "edgeproxy_unavailable" e)
  | inr (status, raw) =>
      if (status <? 400) && negb (restart_required raw) then
        res ← looked (ReloadEdgeRoutes decode_routes);
        match res with
        | inl e => mret (sent, writeError 409 "route_table_reload_failed" e)
        | inr () => mret (sent, Raw status raw)
        end
      else mret (sent, Raw status raw)
  end.

Definition forwardRawBody (edge : answer) (method path body : str) : op cell exchange := mutated edge [mkEdge method path (Some body)].
Definition forwardAndReloadEdgeRoutes (edge : answer) (method path : str) : op cell exchange := mutated edge [mkEdge method path None].

Definition forwardBody (edge : answer) (method path : str) (body : option str) : op cell exchange :=
  match readForwardBody body with
  | inl r => mret (alone r)
  | inr data => forwardRawBody edge method path data
  end.

Definition edgeConfigReplace (edge : answer) (body : option str) : op cell exchange :=
  match readForwardBody body with
  | inl r => mret (alone r)
  | inr data =>
      match route_names data with
      | None => mret (alone (writeError 400 "invalid_body" "json"))
      | Some names =>
          r ← get;
          if forallb (λ kp : str * Policy, existsb (λ name, equal_fold (trim_space kp.1) (trim_space name)) names) (range (route_policies (r_cfg r)))
          then forwardRawBody edge "PUT" "/api/v1/config" data
          else mret (alone (writeError 409 "route_policy_conflict" "route still has a SecurityEdge policy override"))
      end
  end.

(** Deleting a route deletes its policy before, and puts it back when EdgeProxy
    refuses. *)
Definition edgeRouteDelete (edge : answer) (route : str) : op cell exchange :=
  r ← get;
  let found := snd <$> list_find (λ kp : str * Policy, equal_fold kp.1 route = true) (range (route_policies (r_cfg r))) in
  let '(key, p) := default ([], default_policy (r_cfg r)) found in
  cleaned ← (if key =?s [] then mret None
             else res ← looked (DeleteRoutePolicy encode decode decode_routes windows clock stamp rand o vars key); mret (failed res));
  match cleaned with
  | Some e => mret (alone (writeError 409 "policy_cleanup_failed" e))
  | None =>
      let sent := [mkEdge "DELETE" (edgeRoutePath route) None] in
      let refused := match edge with
                     | inl e => Some (writeError 502 "edgeproxy_unavailable" e)
                     | inr (status, raw) => if 400 <=? status then Some (Raw status raw) else None
                     end in
      match refused, edge with
      | Some answered, _ =>
          if key =?s [] then mret (sent, answered)
          else
            res ← looked (UpdateRoutePolicy encode decode decode_routes windows clock stamp rand o vars key p);
            match failed res with
            | Some e => mret (sent, writeError 500 "route_delete_rollback_failed" e)
            | None => mret (sent, answered)
            end
      | None, inr (status, raw) =>
          res ← looked (ReloadEdgeRoutes decode_routes);
          match res with
          | inl e => mret (sent, writeError 409 "route_table_reload_failed" e)
          | inr () => mret (sent, Raw status raw)
          end
      | None, inl _ => mret (sent, writeError 502 "edgeproxy_unavailable" [])
      end
  end.

End api.
End SecAdmin.
