(* ===== verification/SecAdminFacts.v ===== *)
(** * What the answers of SecurityEdge's admin API tell

    The status of an update of the configuration says what has become of it.  The
    two handlers that know no restart answer with an error although the edit is
    saved, and a route whose name has to be escaped cannot be reached in EdgeProxy:
    both are shown on samples or in general below. *)

From S2P Require Import Prelude GoStr GoPath GoText GoHttp GoCodec GoFloat GoOS NetIP Config ConfigValidate ConfigFacts ConfigStable ConfigEnv ConfigPersist ConfigPersistFacts Router RouteTable ClientIP RateLimit SecPolicy Waf SecConfig SecConfigFacts SecPersist SecPersistFacts SecPaths SecPathsFacts SecRuntime SecRuntimeFacts SecRuntimeSamples SecAdmin.

Module AdminFacts.
Import Persistence SecConfig SecFacts SecPersist SecPersistFacts SecPaths SecPathsFacts SecRuntime RuntimeFacts SecAdmin.

Section facts.
Context {U : Unicode} {R : Resolve} {L : WafLib} {MR : MapRange}.
Context (encode : Config → option str) (decode : str → option Config) (decode_routes : str → option (list Routes.Route)).
Context (windows : bool) (clock stamp rand : nat → str).
Context (codec_ok : PersistFacts.codec encode decode).
Context (json_valid : str → bool) (route_names : str → option (list str)) (restart_required : str → bool).

Abbreviation edits := (run_edit encode decode decode_routes windows clock stamp rand).

Lemma looked_run {S A} (m : op S A) s r s' : m s = (r, s') → r ≠ inl Panics →
  looked m s = (inr (match r with inl (Error e) => inl e | inl Panics => inl [] | inr a => inr a end), s').
Proof. intros H Hp. unfold looked, attempt, mbind, op_bind. rewrite H. by destruct r as [[|e]|a]. Qed.

Lemma looked_panic {S A} (m : op S A) s s' : m s = (inl Panics, s') → looked m s = (inl Panics, s').
Proof. intros H. unfold looked, attempt, mbind, op_bind. by rewrite H. Qed.

(** Where an edit has been saved. *)
Definition saved_as (r : Runtime) (e : edit) (vars : variables) (s s' : cell) (candidate runtimeCfg : Config) : Prop := ∃ fileCfg,
  file_config decode r s = inr fileCfg ∧ accepted (asked r fileCfg e) candidate ∧ effective vars e candidate runtimeCfg
  ∧ persisted decode r candidate s'.

Lemma edit_run o vars e s : SecPersist.plain (r_path (c_rt s)) → let r := c_rt s in let '(res, s') := edits o vars e s in
  match res with
  | inl _ => c_rt s' = r ∧ file_node r s' = file_node r s
  | inr v => ∃ candidate runtimeCfg, saved_as r e vars s s' candidate runtimeCfg
      ∧ match v with
        | Applied => r_cfg (c_rt s') = runtimeCfg ∧ consistent (c_rt s')
        | RestartRequired _ => ∃ w, w_scheduled w = true ∧ c_rt s' = with_watch w r
        end
  end.
Proof.
  intros Hplain. cbv zeta. pose proof (edit_spec encode decode decode_routes windows clock stamp rand codec_ok o vars (c_rt s) _ e Hplain s (conj eq_refl eq_refl)) as H.
  destruct (edits o vars e s) as [[f|v] s']; cbn [fst snd] in H; unfold saved_as, file_config; rewrite ?PersistFacts.restart_spec.
  - destruct H as [H1 H2]. by split.
  - destruct H as (fileCfg & candidate & c & H1 & H2 & H3 & H4). exists candidate, c. destruct v as [|fields].
    + destruct H4 as (Hn & Hp & t & e' & i & cl & Hparts & ->). split; [exists fileCfg; split_and!; [done..|exact Hp]|]. by split_and!.
    + destruct H4 as (-> & Hn & Hp & w & Hw & _ & ->). split; [exists fileCfg; split_and!; [done..|exact Hp]|]. by exists w.
Qed.

(** The answer of an operation that a handler looks at. *)
Lemma looked_bind {S A B} (m : op S A) (f : str + A → op S B) s r s' : m s = (r, s') →
  (looked m ≫= f) s = match r with
                      | inl Panics => (inl Panics, s')
                      | inl (Error e) => f (inl e) s'
                      | inr a => f (inr a) s'
                      end.
Proof.
  intros H. destruct r as [[|e]|b].
  - unfold mbind at 1, op_bind at 1. by rewrite (looked_panic m s s' H).
  - by rewrite (bind_run _ _ s _ s' (looked_run m s _ s' H ltac:(done))).
  - by rewrite (bind_run _ _ s _ s' (looked_run m s _ s' H ltac:(done))).
Qed.

(** ** Updates of a section *)

(** C17: The status of an update of the configuration, whole or one section of it, is
    what has happened.  200: the section, with the rest as it is shown and with
    the stored secrets in the place of the redacted ones, has been accepted; the
    file holds it and the runtime serves it under the overrides of the
    environment.  202: the file holds it, a restart is marked, and nothing that
    serves requests has changed.  Any other status, or no answer: neither the
    runtime nor the file has changed.  The file holds what was accepted as the
    validation that is part of saving normalises it once more, which is the same
    unless an excluded prefix was left with a blank at its end.  A 202 does not promise that the next
    start takes the file: it validates the configuration again under the
    overrides of the environment, which a replacement has not.  Assumed: the path
    of the file is no name that saving uses for its own files, and the JSON codec
    reads back what it has written. *)
Theorem section_update_tells o vars a part dec body s : SecPersist.plain (r_path (c_rt s)) →
  let r := c_rt s in
  let '(res, s') := section_update encode decode decode_routes windows clock stamp rand o vars a part dec body s in
  let unchanged := c_rt s' = r ∧ file_node r s' = file_node r s in
  match res with
  | inr (Json status d) =>
      status = 200 ∧ (∃ value candidate runtimeCfg, decodeJSON dec (a_max_body a) body = inr value
        ∧ saved_as r (Replacement (with_section part value (RedactedConfig r))) vars s s' candidate runtimeCfg
        ∧ r_cfg (c_rt s') = runtimeCfg ∧ consistent (c_rt s') ∧ d = AppliedDoc (r_watch (c_rt s')))
      ∨ status = 202 ∧ (∃ value candidate runtimeCfg fields w, decodeJSON dec (a_max_body a) body = inr value
        ∧ saved_as r (Replacement (with_section part value (RedactedConfig r))) vars s s' candidate runtimeCfg
        ∧ w_scheduled w = true ∧ c_rt s' = with_watch w r ∧ d = Scheduled (restart_message fields) w)
      ∨ 400 <= status ∧ unchanged
  | _ => unchanged
  end.
Proof.
  intros Hplain. cbv zeta. unfold section_update. destruct (decodeJSON dec (a_max_body a) body) as [[|m]|value].
  1-2: by right; right.
  rewrite (bind_run _ _ s (c_rt s) s) by done. unfold applySecurityConfig. set (c := with_section _ _ _).
  pose proof (edit_run o vars (Replacement c) s Hplain) as H. cbv zeta in H. cbn [SecRuntime.run_edit] in H.
  destruct (ReplaceConfig encode decode decode_routes windows clock stamp rand o vars c s) as [res s'] eqn:E.
  rewrite (looked_bind _ _ s res s' E). destruct res as [[|e]|[|fields]]; [done| | |].
  - rewrite (bind_run _ _ s' (c_rt s') s') by done. cbn. right; right. split; [lia|done].
  - rewrite (bind_run _ _ s' (c_rt s') s') by done. cbn. left. split; [done|]. destruct H as (candidate & rc & Hs & H1 & H2).
    by exists value, candidate, rc.
  - rewrite (bind_run _ _ s' (c_rt s') s') by done. cbn. right; left. split; [done|]. destruct H as (candidate & rc & Hs & w & Hw & Hr).
    exists value, candidate, rc, fields, w. rewrite Hr. by split_and!.
Qed.

(** A secret that is only shown redacted is not lost by an update of another
    section. *)
Lemma secrets_kept part value r fileCfg : part = Server_ ∨ part = WAF_ → trim_space (a_token (admin (r_cfg r))) ≠ [] →
  trim_space (ep_token (edgeproxy (r_cfg r))) ≠ [] →
  let c := unredact fileCfg (with_section part value (RedactedConfig r)) in
  a_token (admin c) = a_token (admin fileCfg) ∧ ep_token (edgeproxy c) = ep_token (edgeproxy fileCfg).
Proof.
  intros Hp Ha He. assert (∀ t : str, t ≠ [] → (t =?s []) = false) as Hne by (intros t Ht; destruct (t =?s []) eqn:E; [by apply eqs_true in E|done]).
  assert (a_token (admin (RedactedConfig r)) = redacted ∧ ep_token (edgeproxy (RedactedConfig r)) = redacted) as [H1 H2].
  { unfold RedactedConfig. cbn. by rewrite !Hne. }
  destruct Hp as [-> | ->]; cbn [with_section]; unfold unredact; cbn [admin edgeproxy a_token ep_token];
    rewrite H1, H2; by rewrite !(proj2 (eqs_true redacted redacted)).
Qed.

(** ** EdgeProxy's routes *)

(** What EdgeProxy's [http.ServeMux] takes for the name of the route in
    /api/v1/routes/{route}.  The name cannot be empty, and a path with a segment
    "." or ".." is cleaned and redirected, so that it names no route. *)
Definition dots (s : str) : bool := (s =?s []) || (s =?s ".") || (s =?s "..").

Definition mux_route (wire : str) : option str :=
  if has_prefix wire "/api/v1/routes/" then
    let segment := drop (length (lit "/api/v1/routes/")) wire in
    if mem_byte "/" segment || dots segment then None else path_unescape segment
  else None.

Definition no_slash (c : ascii) : bool := negb (c =?c "/").

Lemma segment_no_slash s : forallb no_slash (PathEscape s) = true.
Proof.
  unfold PathEscape. induction s as [|c s IH]; [done|]. cbn [flat_map]. rewrite forallb_app, IH, andb_true_r. clear. all_bytes c.
Qed.

Lemma escape_no_slash s : forallb no_slash s = true → mem_byte "/" (path_escape s) = false.
Proof.
  assert (∀ c, no_slash c = true → mem_byte "/" (escape_byte c) = false) as Hc by (intros c; all_bytes c).
  unfold path_escape, mem_byte in *. induction s as [|c s IH]; [done|]. cbn [forallb flat_map]. intros [H1 H2]%andb_true_iff.
  rewrite existsb_app, (Hc c H1). by apply IH.
Qed.

Lemma escape_grows s : (length s <= length (PathEscape s))%nat ∧ (length s = length (PathEscape s) → forallb segment_plain s = true).
Proof.
  induction s as [|c s [IH1 IH2]]; [done|]. change (PathEscape (c :: s)) with (escape_segment_byte c ++ PathEscape s). rewrite length_app.
  unfold escape_segment_byte. cbn [forallb]. destruct (segment_plain c); cbn [length andb]; (split; [lia|]).
  - intros H. apply IH2. lia.
  - intros H. exfalso. lia.
Qed.

Lemma escape_id s : PathEscape s = s ↔ forallb segment_plain s = true.
Proof.
  split; [intros E; apply escape_grows; by rewrite E|]. induction s as [|c s IH]; [done|].
  cbn [forallb]. intros [H1 H2]%andb_true_iff. change (PathEscape (c :: s)) with (escape_segment_byte c ++ PathEscape s).
  rewrite IH by done. unfold escape_segment_byte. by rewrite H1.
Qed.

Lemma escape_long s : forallb segment_plain s = false → (3 <= length (PathEscape s))%nat.
Proof.
  induction s as [|c s IH]; [done|]. change (PathEscape (c :: s)) with (escape_segment_byte c ++ PathEscape s). rewrite length_app.
  unfold escape_segment_byte. cbn [forallb]. destruct (segment_plain c); cbn [length andb]; [intros H%IH|intros _]; lia.
Qed.

Lemma dots_cases s : dots s = true ↔ s = [] ∨ s = lit "." ∨ s = lit "..".
Proof. unfold dots. rewrite !orb_true_iff, !eqs_true. tauto. Qed.

(** Only those three names look like those three segments. *)
Lemma escape_dots s : dots (path_escape (PathEscape s)) = dots s.
Proof.
  apply eq_true_iff_eq. rewrite !dots_cases. split; [|by intros [-> |[-> | ->]]; vm_compute; tauto].
  intros H. assert (PathEscape s = [] ∨ PathEscape s = lit "." ∨ PathEscape s = lit "..") as Hs.
  { pose proof (path_unescape_escape (PathEscape s)) as E. assert (∀ x : str, path_unescape x = Some x → path_unescape x = Some (PathEscape s) → PathEscape s = x) as Hx by congruence.
    destruct H as [H|[H|H]]; rewrite H in E; apply Hx in E; rewrite ?E; try (by vm_compute); tauto. }
  destruct (forallb segment_plain s) eqn:Ep; [by apply escape_id in Ep as <-|]. apply escape_long in Ep. exfalso.
  destruct Hs as [Hs|[Hs|Hs]]; rewrite Hs in Ep; apply Nat.leb_le in Ep; vm_compute in Ep; discriminate Ep.
Qed.

(** C31: The name of a route is escaped twice on its way to EdgeProxy, and unescaped
    once: EdgeProxy is asked for the route with the escaped name.  That is the
    route that was meant exactly when nothing in its name has to be escaped.  The
    names that no path can carry, "", "." and "..", which EdgeProxy's validation
    rejects, reach no route.  The base URL of EdgeProxy's admin API is one without
    a path. *)
Theorem route_names_reach route :
  mux_route (wire_path [] (edgeRoutePath route)) = (if dots route then None else Some (PathEscape route))
  ∧ (PathEscape route = route ↔ forallb segment_plain route = true).
Proof.
  split; [|apply escape_id]. unfold wire_path, edgeRoutePath. change (trim_right_bytes "/" []) with ([] : str). cbn [app].
  unfold path_escape at 1. rewrite flat_map_app. change (flat_map escape_byte (lit "/api/v1/routes/")) with (lit "/api/v1/routes/").
  fold (path_escape (PathEscape route)). unfold mux_route, has_prefix. rewrite bool_decide_eq_true_2 by by apply prefix_app_r.
  rewrite drop_app_length, escape_no_slash by apply segment_no_slash. cbn [orb].
  rewrite escape_dots. destruct (dots route); [done|]. apply path_unescape_escape.
Qed.

(** EdgeProxy is not given a configuration that lacks the route of a policy. *)
Theorem policies_keep_their_routes a edge body s sent rep s' :
  edgeConfigReplace decode_routes json_valid route_names restart_required a edge body s = (inr (sent, rep), s') →
  sent = [] ∧ s' = s ∨ ∃ data names, body = Some data ∧ sent = [mkEdge "PUT" "/api/v1/config" (Some (take (Z.to_nat (a_max_body a + 1)) data))]
    ∧ route_names (take (Z.to_nat (a_max_body a + 1)) data) = Some names ∧ len (take (Z.to_nat (a_max_body a + 1)) data) <= a_max_body a
    ∧ ∀ key p, route_policies (r_cfg (c_rt s)) !! key = Some p → ∃ name, name ∈ names ∧ equal_fold (trim_space key) (trim_space name) = true.
Proof.
  unfold edgeConfigReplace, readForwardBody. destruct body as [data|]; [|intros [= <- _ <-]; by left]. set (d := take _ data).
  destruct (a_max_body a <? len d) eqn:El; [intros [= <- _ <-]; by left|]. destruct (negb (valid_utf8 d)); [intros [= <- _ <-]; by left|].
  destruct (_ || _); [intros [= <- _ <-]; by left|]. destruct (route_names d) as [names|] eqn:En; [|intros [= <- _ <-]; by left].
  rewrite (bind_run _ _ s (c_rt s) s) by done. destruct (forallb _ _) eqn:Ef; [|intros [= <- _ <-]; by left].
  intros H. right. exists data, names. boolify. rewrite forallb_forall in Ef. split; [done|]. split.
  - revert H. unfold forwardRawBody, mutated. destruct edge as [e|[status raw]]; [by intros [= <- _ _]|]. destruct (_ && _); [|by intros [= <- _ _]].
    destruct (ReloadEdgeRoutes decode_routes s) as [res s1] eqn:Er. rewrite (looked_bind _ _ s res s1 Er).
    destruct res as [[|e]|[]]; [done|by intros [= <- _ _]|by intros [= <- _ _]].
  - split; [done|]. split; [done|]. intros key p Hp. apply elem_of_range, list_elem_of_In in Hp. apply Ef, existsb_exists in Hp as (name & Hin & He).
    exists name. split; [by apply list_elem_of_In|done].
Qed.

End facts.
End AdminFacts.
