(* ===== verification/SecAdminSamples.v ===== *)
(** * SecurityEdge's admin API on concrete files

    The theorems of SecAdminFacts.v on the configurations of SecRuntimeSamples.v,
    and three answers that do not tell what has happened. *)

From S2P Require Import Prelude GoStr GoPath GoText GoHttp GoCodec GoFloat GoOS NetIP Config ConfigValidate ConfigFacts ConfigStable ConfigEnv ConfigPersist ConfigPersistFacts Router RouteTable ClientIP RateLimit SecPolicy Waf SecConfig SecConfigFacts SecPersist SecPersistFacts SecPaths SecPathsFacts SecRuntime SecRuntimeFacts SecRuntimeSamples SecAdmin SecAdminFacts.

Module AdminSamples.
Import Persistence SecConfig SecFacts SecPersist SecPersistFacts SecPaths SecPathsFacts SecRuntime RuntimeFacts RuntimeSamples SecAdmin AdminFacts.
#[local] Existing Instances s_unicode s_resolve s_lib s_sha s_range.

Definition no_text : nat → str := λ _, [].
Definition stamps : nat → str := λ _, lit "stamp".
Definition rands : nat → str := λ _, lit "rand".

Section sample.
Context (a b : Config).

Definition started_from : result Runtime := boots a b ∅ sample_disk.

Definition section_answer (part : section) (value : Config) (s : cell) : result reply * cell :=
  section_update (two_encode a b) (two_decode a b) sample_routes false no_text stamps rands sample_outside ∅ (admin a) part
    (λ text, if text =?s "new" then Some value else None) (Some (lit "new")) s.
Definition policy_answer (route : str) (p : Policy) (s : cell) : result reply * cell :=
  updateRoutePolicy (two_encode a b) (two_decode a b) sample_routes false no_text stamps rands sample_outside ∅ (admin a)
    (λ text, if text =?s "new" then Some p else None) route (Some (lit "new")) s.
Definition deletion_answer (edge : answer) (route : str) (s : cell) : result exchange * cell :=
  edgeRouteDelete (two_encode a b) (two_decode a b) sample_routes false no_text stamps rands sample_outside ∅ edge route s.
Definition stored (s : cell) : str + Config := PersistFacts.restart (two_decode a b) "/etc/security.json" (disk (c_world s)).

End sample.

(** ** An update of the firewall's section *)

Definition narrow : Config :=
  let c := sample_valid in mkConfig (server c) (admin c) (edgeproxy c) (mkWAF 16 (waf_custom (waf c))) (default_policy c) (route_policies c).
Definition narrowed : Config := (Validate (with_section WAF_ narrow (cloneConfig sample_valid))).2.

Lemma narrow_story : match started_from sample_valid narrowed with
  | inr r => match section_answer sample_valid narrowed WAF_ narrow (sample_cell r) with
             | (inr (Json status _), s') => (status =? 200) && (waf_max (waf (r_cfg (c_rt s'))) =? 16)
             | _ => false
             end
  | inl _ => false end = true.
Proof. vm_compute. reflexivity. Qed.

Lemma narrow_accepted : accepted narrowed narrowed.
Proof. vm_compute. reflexivity. Qed.

Lemma section_update_tells_witness : ∃ r s' d value candidate runtimeCfg, started_from sample_valid narrowed = inr r
  ∧ section_answer sample_valid narrowed WAF_ narrow (sample_cell r) = (inr (Json 200 d), s')
  ∧ saved_as (two_decode sample_valid narrowed) r (Replacement (with_section WAF_ value (RedactedConfig r))) ∅ (sample_cell r) s' candidate runtimeCfg
  ∧ r_cfg (c_rt s') = runtimeCfg.
Proof.
  pose proof narrow_story as H. destruct (started_from sample_valid narrowed) as [|r] eqn:Eb; [discriminate H|].
  pose proof (section_update_tells (two_encode sample_valid narrowed) (two_decode sample_valid narrowed) sample_routes false no_text stamps rands
    (sec_two_codec _ _) sample_outside ∅ (admin sample_valid) WAF_ (λ text, if text =?s "new" then Some narrow else None) (Some (lit "new"))
    (sample_cell r) (boots_plain _ _ _ _ Eb)) as Ht.
  cbv zeta in Ht. fold (section_answer sample_valid narrowed WAF_ narrow (sample_cell r)) in Ht.
  destruct (section_answer sample_valid narrowed WAF_ narrow (sample_cell r)) as [[|[status d|status raw]] s'] eqn:Es; [discriminate H| |discriminate H].
  apply andb_true_iff in H as [->%Z.eqb_eq _].
  destruct Ht as [(_ & value & candidate & rc & _ & Hs & Hrc & _ & _)|[(E & _)|(E & _)]]; [|discriminate E|].
  - exists r, s', d, value, candidate, rc. split_and!; [reflexivity|exact Es|exact Hs|exact Hrc].
  - exfalso. apply E. reflexivity.
Defined.

(** ** A configuration for EdgeProxy *)

Definition replaced (names : list str) (s : cell) : result exchange * cell :=
  edgeConfigReplace sample_routes (λ _, true) (λ _, Some names) (λ _, true) (admin sample_valid) (inr (200, lit "ok")) (Some (lit "routes")) s.

Lemma replaced_story : match started_from sample_valid narrowed with
  | inr r => match replaced (lits [" APP "; "other"]) (sample_cell r), replaced (lits ["other"]) (sample_cell r) with
             | (inr ([q], Raw status _), _), (inr ([], Json refused _), _) => (status =? 200) && (refused =? 409) && bool_decide (is_Some (route_policies (r_cfg r) !! lit "App"))
             | _, _ => false
             end
  | inl _ => false end = true.
Proof. vm_compute. reflexivity. Qed.

Lemma policies_keep_their_routes_witness : ∃ r sent rep s', started_from sample_valid narrowed = inr r
  ∧ replaced (lits [" APP "; "other"]) (sample_cell r) = (inr (sent, rep), s') ∧ sent ≠ []
  ∧ ∃ name, name ∈ lits [" APP "; "other"] ∧ equal_fold (trim_space "App") (trim_space name) = true.
Proof.
  pose proof replaced_story as H. destruct (started_from sample_valid narrowed) as [|r] eqn:Eb; [discriminate H|].
  destruct (replaced (lits [" APP "; "other"]) (sample_cell r)) as [[|[sent rep]] s'] eqn:Es; [discriminate H|].
  exists r, sent, rep, s'. split; [reflexivity|]. split; [exact Es|].
  destruct sent as [|q [|]]; [discriminate H| |discriminate H]. split; [discriminate|].
  destruct rep as [|status raw]; [discriminate H|]. destruct (replaced (lits ["other"]) (sample_cell r)) as [[|[[|] [refused d|]]] s2]; try discriminate H.
  apply andb_true_iff in H as [_ [p Hp]%bool_decide_eq_true].
  unfold replaced in Es. pose proof (policies_keep_their_routes _ _ _ _ _ _ _ _ _ _ _ Es) as [[E _]|(data & names & _ & _ & Hn & _ & Hk)]; [discriminate E|].
  injection Hn as <-. exact (Hk (lit "App") p Hp).
Defined.

(** ** Answers that do not tell what has happened *)

(** An edit of a route's policy that needs a restart is saved, and the restart is
    marked, like every other edit; but the handler answers that the policy is
    invalid. *)
Theorem saved_policy_called_invalid :
  match started_from probing_valid probing_logged with
  | inr r =>
      let '(res, s') := policy_answer probing_valid probing_logged "app" (logging sample_policy) (sample_cell r) in
      res = inr (writeError 400 "invalid_policy" "configuration changes require a process restart: admin")
      ∧ stored probing_valid probing_logged s' = inr probing_logged ∧ w_scheduled (r_watch (c_rt s')) = true
  | inl _ => False
  end.
Proof.
  assert (match started_from probing_valid probing_logged with
    | inr r => match policy_answer probing_valid probing_logged "app" (logging sample_policy) (sample_cell r) with
        | (inr (Json status (ErrorDoc code m)), s') => (status =? 400) && (code =?s "invalid_policy") && (m =?s "configuration changes require a process restart: admin")
            && match stored probing_valid probing_logged s' with inr c => bool_decide (c = probing_logged) | inl _ => false end && w_scheduled (r_watch (c_rt s'))
        | _ => false end
    | inl _ => false end = true) as H by (vm_compute; reflexivity).
  destruct (started_from _ _) as [|r]; [done|]. destruct (policy_answer _ _ _ _ _) as [[|[status []|]] s']; try done.
  apply andb_true_iff in H as [H Hw]. apply andb_true_iff in H as [H Hs]. apply andb_true_iff in H as [H Hm]. apply andb_true_iff in H as [H1%Z.eqb_eq H2].
  destruct (stored _ _ _) as [|c]; [done|]. apply bool_decide_eq_true in Hs as ->. apply eqs_true in H2, Hm. by subst.
Qed.

Definition probing_unlisted : Config := (Validate (drop_route "app" (cloneConfig probing_valid))).2.

(** Deleting a route when a policy edit needs a restart: the handler reports a
    conflict and does not ask EdgeProxy, so the route stays; but the policy of the
    route has been deleted from the file, and nothing puts it back. *)
Theorem refused_deletion_drops_policy :
  match started_from probing_valid probing_unlisted with
  | inr r =>
      let '(res, s') := deletion_answer probing_valid probing_unlisted (inr (200, lit "{}")) "app" (sample_cell r) in
      res = inr ([], writeError 409 "policy_cleanup_failed" "configuration changes require a process restart: admin")
      ∧ stored probing_valid probing_unlisted (sample_cell r) = inr probing_valid ∧ stored probing_valid probing_unlisted s' = inr probing_unlisted
      ∧ route_policies probing_unlisted = ∅ ∧ route_policies probing_valid ≠ ∅
  | inl _ => False
  end.
Proof.
  assert (match started_from probing_valid probing_unlisted with
    | inr r => match deletion_answer probing_valid probing_unlisted (inr (200, lit "{}")) "app" (sample_cell r) with
        | (inr ([], Json status (ErrorDoc code m)), s') => (status =? 409) && (code =?s "policy_cleanup_failed") && (m =?s "configuration changes require a process restart: admin")
            && match stored probing_valid probing_unlisted (sample_cell r) with inr c => bool_decide (c = probing_valid) | inl _ => false end
            && match stored probing_valid probing_unlisted s' with inr c => bool_decide (c = probing_unlisted) | inl _ => false end
        | _ => false end
    | inl _ => false end = true) as H by (vm_compute; reflexivity).
  assert (bool_decide (route_policies probing_unlisted = ∅) && bool_decide (route_policies probing_valid ≠ ∅) = true) as Hp by (vm_compute; reflexivity).
  apply andb_true_iff in Hp as [Hp1%bool_decide_eq_true Hp2%bool_decide_eq_true].
  destruct (started_from _ _) as [|r]; [discriminate H|]. destruct (deletion_answer _ _ _ _ _) as [[|[[|] [status []|]]] s']; try discriminate H.
  apply andb_true_iff in H as [H Hs']. apply andb_true_iff in H as [H Hs]. apply andb_true_iff in H as [H Hm]. apply andb_true_iff in H as [H1%Z.eqb_eq H2].
  destruct (stored _ _ s') as [|c']; [discriminate Hs'|]. destruct (stored _ _ (sample_cell r)) as [|c]; [discriminate Hs|].
  pose proof (bool_decide_eq_true_1 _ Hs) as ->. pose proof (bool_decide_eq_true_1 _ Hs') as ->. apply eqs_true in H2, Hm. rewrite H1, H2, Hm.
  split; [reflexivity|]. split; [reflexivity|]. split; [reflexivity|]. split; [exact Hp1|exact Hp2].
Qed.

(** A route that EdgeProxy accepts but cannot be asked for. *)
Example escaped_name : mux_route (wire_path [] (edgeRoutePath "my route")) = Some (lit "my%20route").
Proof. reflexivity. Qed.

End AdminSamples.
