(* ===== verification/AdminAPI.v ===== *)
(** * EdgeProxy's admin API: internal/admin/control.go, sections.go and the bearer token of server.go

    A handler decodes a body, gives [Manager.Update] (Control.v) a function that
    changes a copy of the configuration, and answers with the outcome.  JSON
    decoders are parameters.  [errNotFound] is known by its text: no other error
    of an update is just "not found". *)

From S2P Require Import Prelude GoStr GoPath GoHttp GoText GoCodec GoFloat NetIP GoOS Config ConfigValidate ConfigFacts ConfigStable ConfigEnv ConfigPersist ConfigPersistFacts EnvFile EnvFileFacts CachePolicy ProxyHeaders ClientIP Upstream Cache Handler Generation GenerationFacts Control ControlFacts AdminAuth.

Module AdminAPI.
Import Persistence Generation Control.

(** ** The token *)

Section bearer.
Context {U : Unicode} {SH : Sha256}.

(** [auth] *)
Definition authorized (token : str) (h : header) : bool := (token =?s []) || Bearer.validBearerAuthorization h token.
End bearer.

(** ** Answers *)

Inductive doc :=
  | ErrorDoc (code message : str) | ResultDoc (r : ApplyResult) | ConfigDoc (c : Config) | RoutesDoc (rs : list RouteConfig)
  | RouteDoc (r : RouteConfig) | OriginsDoc (us : list UpstreamConfig) | OriginDoc (u : UpstreamConfig) | ServerDoc (s : ServerConfig)
  | AdminDoc (a : AdminConfig) | BalancingDoc (l : LoadBalancingConfig) | ProxyDoc (p : ProxyConfig) | CacheDoc (c : CacheConfig)
  | HealthDoc (h : HealthCheckConfig) | WatchDoc (w : WatchStatus).

Definition reply : Type := Z * doc.

Definition writeAPIError (status : Z) (code message : str) : reply := (status, ErrorDoc code message).
Definition writeCreateResult (r : ApplyResult) : reply := (if ar_restart r then 202 else 201, ResultDoc r).
Definition writeApplyResult (r : ApplyResult) : reply := (if ar_restart r then 202 else 200, ResultDoc r).

(** [strings.ReplaceAll] of one byte by another *)
Definition replace_byte (old new : ascii) (s : str) : str := (λ c, if c =?c old then new else c) <$> s.

Definition errNotFound : str := "not found".

Definition writeMutationResult (r : str + ApplyResult) (notFoundCode failureCode : str) : reply :=
  match r with
  | inl e => if e =?s errNotFound then writeAPIError 404 notFoundCode (replace_byte "_" " " notFoundCode) else writeAPIError 400 failureCode e
  | inr result => writeApplyResult result
  end.

(** ** Bodies *)

Definition maxControlBodyBytes : Z := 4 * 2 ^ 20.

(** [dec] reads exactly one value without unknown fields, or gives an error. *)
Definition decodeControlJSON {A} (dec : str → str + A) (body : option str) : str + A :=
  match body with
  | None => inl (lit "read")
  | Some data =>
      let data := take (Z.to_nat (maxControlBodyBytes + 1)) data in
      if maxControlBodyBytes <? len data then inl (lit "request body exceeds the limit")
      else if negb (valid_utf8 data) then inl (lit "request body must be valid UTF-8")
      else dec data
  end.

(** The limit is recognised by a word of its message. *)
Definition writeControlDecodeError (e : str) : reply :=
  if contains e "exceeds" then writeAPIError 413 "body_too_large" e else writeAPIError 400 "invalid_body" e.

(** ** Changes of a configuration *)

Definition with_routes (rs : list RouteConfig) (c : Config) : Config := mkConfig (server c) (admin c) rs.
Definition with_upstreams (us : list UpstreamConfig) (r : RouteConfig) : RouteConfig :=
  mkRoute (route_name r) (route_hosts r) (path_prefix r) (strip_prefix r) (preserve_host r) us (load_balancing r) (proxy r) (cache r) (health_check r).

Section names.
Context {U : Unicode}.

Definition route_at (c : Config) (name : str) : option (nat * RouteConfig) := i ← FindRoute c name; r ← routes c !! i; Some (i, r).
Definition origin_at (r : RouteConfig) (name : str) : option (nat * UpstreamConfig) := i ← FindOrigin r name; u ← upstreams r !! i; Some (i, u).

Definition create_route (route : RouteConfig) (c : Config) : str + Config :=
  match FindRoute c (route_name route) with Some _ => inl (lit "route already exists") | None => inr (with_routes (routes c ++ [route]) c) end.

Definition rename_route (name : str) (r : RouteConfig) : RouteConfig :=
  mkRoute name (route_hosts r) (path_prefix r) (strip_prefix r) (preserve_host r) (upstreams r) (load_balancing r) (proxy r) (cache r) (health_check r).

Definition update_route (name : str) (route : RouteConfig) (c : Config) : str + Config :=
  match route_at c name with
  | None => inl errNotFound
  | Some (i, old) =>
      if negb (equal_fold (trim_space (route_name route)) (trim_space (route_name old))) then inl (lit "route names are immutable")
      else inr (with_routes (<[i := rename_route (route_name old) route]> (routes c)) c)
  end.

Definition delete_route (name : str) (c : Config) : str + Config :=
  match FindRoute c name with None => inl errNotFound | Some i => inr (with_routes (take i (routes c) ++ drop (S i) (routes c)) c) end.

(** A change of one route. *)
Definition change_route (name : str) (f : RouteConfig → str + RouteConfig) (c : Config) : str + Config :=
  match route_at c name with
  | None => inl errNotFound
  | Some (i, r) => match f r with inl e => inl e | inr r' => inr (with_routes (<[i := r']> (routes c)) c) end
  end.

Definition create_origin (origin : UpstreamConfig) (r : RouteConfig) : str + RouteConfig :=
  match FindOrigin r (up_name origin) with Some _ => inl (lit "origin already exists") | None => inr (with_upstreams (upstreams r ++ [origin]) r) end.

Definition update_origin (name : str) (origin : UpstreamConfig) (r : RouteConfig) : str + RouteConfig :=
  match FindOrigin r name with
  | None => inl errNotFound
  | Some i =>
      match FindOrigin r (up_name origin) with
      | Some other => if (other =? i)%nat then inr (with_upstreams (<[i := origin]> (upstreams r)) r) else inl (lit "origin already exists")
      | None => inr (with_upstreams (<[i := origin]> (upstreams r)) r)
      end
  end.

Definition delete_origin (name : str) (r : RouteConfig) : str + RouteConfig :=
  match FindOrigin r name with
  | None => inl errNotFound
  | Some i =>
      if len (upstreams r) =? 1 then inl (lit "a route must retain at least one origin")
      else inr (with_upstreams (take i (upstreams r) ++ drop (S i) (upstreams r)) r)
  end.

(** The sections of the configuration and of a route. *)
Definition set_server (s : ServerConfig) (c : Config) : str + Config := inr (mkConfig s (admin c) (routes c)).
Definition set_admin (a : AdminConfig) (c : Config) : str + Config := inr (mkConfig (server c) a (routes c)).
Definition set_balancing (l : LoadBalancingConfig) (r : RouteConfig) : RouteConfig :=
  mkRoute (route_name r) (route_hosts r) (path_prefix r) (strip_prefix r) (preserve_host r) (upstreams r) l (proxy r) (cache r) (health_check r).
Definition set_proxy (p : ProxyConfig) (r : RouteConfig) : RouteConfig :=
  mkRoute (route_name r) (route_hosts r) (path_prefix r) (strip_prefix r) (preserve_host r) (upstreams r) (load_balancing r) p (cache r) (health_check r).
Definition set_cache (cc : CacheConfig) (r : RouteConfig) : RouteConfig :=
  mkRoute (route_name r) (route_hosts r) (path_prefix r) (strip_prefix r) (preserve_host r) (upstreams r) (load_balancing r) (proxy r) cc (health_check r).
Definition set_health (h : HealthCheckConfig) (r : RouteConfig) : RouteConfig :=
  mkRoute (route_name r) (route_hosts r) (path_prefix r) (strip_prefix r) (preserve_host r) (upstreams r) (load_balancing r) (proxy r) (cache r) h.

End names.

(** ** Handlers *)

Section handlers.
Context {U : Unicode} {N : NetURL} {T : HttpTime} {SH : Sha256} {FM : FloatMath} {R : Resolve} {MR : MapRange}.
Context (encode : Config → option str) (decode : str → option Config) (windows : bool).
Context (parse_url : str → option URL) (clock stamp rand : nat → str) (handler_clock : nat → Z).
Context (pf : preflight) (vars : variables).

Abbreviation update := (Update encode decode windows parse_url clock stamp rand handler_clock pf vars).

(** A body that is decoded for a change of the configuration. *)
Definition with_body {A} (dec : str → str + A) (body : option str) (k : A → act reply) : act reply :=
  match decodeControlJSON dec body with inl e => mret (writeControlDecodeError e) | inr a => k a end.

Definition mutation (mutator : Config → str + Config) (source notFoundCode failureCode : str) : act reply :=
  r ← update mutator source; mret (writeMutationResult r notFoundCode failureCode).

Definition configGet : act reply := m ← get; mret (200, ConfigDoc (Config_ m)).
Definition configWatch : act reply := m ← get; mret (200, WatchDoc (m_status m)).
Definition routesList : act reply := m ← get; mret (200, RoutesDoc (routes (Config_ m))).
Definition serverConfigGet : act reply := m ← get; mret (200, ServerDoc (server (Config_ m))).
Definition adminConfigGet : act reply := m ← get; mret (200, AdminDoc (admin (Config_ m))).

Definition configReplace (dec : str → str + Config) (body : option str) : act reply :=
  with_body dec body (λ candidate,
    r ← Replace encode decode windows parse_url clock stamp rand handler_clock pf vars candidate "admin_replace";
    mret (match r with inl e => writeAPIError 400 "config_rejected" e | inr result => writeApplyResult result end)).

Definition configReload : act reply :=
  r ← Control.reload decode parse_url clock handler_clock pf vars "admin_reload";
  mret (match r with inl e => writeAPIError 400 "reload_failed" e | inr result => writeApplyResult result end).

Definition routesCreate (dec : str → str + RouteConfig) (body : option str) : act reply :=
  with_body dec body (λ route,
    r ← update (create_route route) "admin_create_route";
    mret (match r with inl e => writeAPIError 409 "route_create_failed" e | inr result => writeCreateResult result end)).

(** [routeGet] and the other handlers that show a part of a route: [controlRoute]. *)
Definition routePart (part : RouteConfig → doc) (name : str) : act reply :=
  m ← get;
  mret (match route_at (Config_ m) name with
        | None => writeAPIError 404 "route_not_found" "route was not found"
        | Some (_, r) => (200, part r)
        end).
Definition routeGet : str → act reply := routePart RouteDoc.
Definition originsList : str → act reply := routePart (λ r, OriginsDoc (upstreams r)).
Definition originGet (name origin : str) : act reply :=
  m ← get;
  mret (match route_at (Config_ m) name with
        | None => writeAPIError 404 "route_not_found" "route was not found"
        | Some (_, r) => match origin_at r origin with
                         | None => writeAPIError 404 "origin_not_found" "origin was not found"
                         | Some (_, u) => (200, OriginDoc u)
                         end
        end).

Definition routeUpdate (dec : str → str + RouteConfig) (name : str) (body : option str) : act reply :=
  with_body dec body (λ route, mutation (update_route name route) "admin_update_route" "route_not_found" "route_update_failed").
Definition routeDelete (name : str) : act reply :=
  mutation (delete_route name) "admin_delete_route" "route_not_found" "route_delete_failed".

Definition originsCreate (dec : str → str + UpstreamConfig) (name : str) (body : option str) : act reply :=
  with_body dec body (λ origin,
    r ← update (change_route name (create_origin origin)) "admin_create_origin";
    mret (match r with
          | inl e => if e =?s errNotFound then writeAPIError 404 "route_not_found" "route not found" else writeAPIError 400 "origin_create_failed" e
          | inr result => writeCreateResult result
          end)).
Definition originUpdate (dec : str → str + UpstreamConfig) (name origin : str) (body : option str) : act reply :=
  with_body dec body (λ u, mutation (change_route name (update_origin origin u)) "admin_update_origin" "origin_not_found" "origin_update_failed").
Definition originDelete (name origin : str) : act reply :=
  mutation (change_route name (delete_origin origin)) "admin_delete_origin" "origin_not_found" "origin_delete_failed".

Definition serverConfigUpdate (dec : str → str + ServerConfig) (body : option str) : act reply :=
  with_body dec body (λ s, mutation (set_server s) "admin_update_server" "server_not_found" "server_update_failed").
Definition adminConfigUpdate (dec : str → str + AdminConfig) (body : option str) : act reply :=
  with_body dec body (λ a, mutation (set_admin a) "admin_update_admin" "admin_not_found" "admin_update_failed").

(** [updateRouteSection] *)
Definition updateRouteSection (name source : str) (mutate : RouteConfig → RouteConfig) : act reply :=
  mutation (change_route name (λ r, inr (mutate r))) source "route_not_found" "route_update_failed".

Definition routeLoadBalancingUpdate (dec : str → str + LoadBalancingConfig) (name : str) (body : option str) : act reply :=
  with_body dec body (λ l, updateRouteSection name "admin_update_load_balancing" (set_balancing l)).
Definition routeProxyUpdate (dec : str → str + ProxyConfig) (name : str) (body : option str) : act reply :=
  with_body dec body (λ p, updateRouteSection name "admin_update_proxy" (set_proxy p)).
Definition routeCacheUpdate (dec : str → str + CacheConfig) (name : str) (body : option str) : act reply :=
  with_body dec body (λ c, updateRouteSection name "admin_update_cache" (set_cache c)).
Definition routeHealthCheckUpdate (dec : str → str + HealthCheckConfig) (name : str) (body : option str) : act reply :=
  with_body dec body (λ h, updateRouteSection name "admin_update_health_check" (set_health h)).

End handlers.

(** ** What a change does to the routes *)

Section local.
Context {U : Unicode} {N : NetURL} {T : HttpTime} {SH : Sha256} {FM : FloatMath} {R : Resolve} {MR : MapRange}.

Inductive change :=
  | CreateRoute (route : RouteConfig) | UpdateRoute (name : str) (route : RouteConfig) | DeleteRoute (name : str)
  | CreateOrigin (name : str) (u : UpstreamConfig) | UpdateOrigin (name origin : str) (u : UpstreamConfig) | DeleteOrigin (name origin : str)
  | SetServer (s : ServerConfig) | SetAdmin (a : AdminConfig) | SetPart (name : str) (f : RouteConfig → RouteConfig).

Definition mutator_of (ch : change) : Config → str + Config :=
  match ch with
  | CreateRoute r => create_route r
  | UpdateRoute n r => update_route n r
  | DeleteRoute n => delete_route n
  | CreateOrigin n u => change_route n (create_origin u)
  | UpdateOrigin n o u => change_route n (update_origin o u)
  | DeleteOrigin n o => change_route n (delete_origin o)
  | SetServer s => set_server s
  | SetAdmin a => set_admin a
  | SetPart n f => change_route n (λ r, inr (f r))
  end.

(** What validation makes of a route; the other routes are not asked. *)
Definition normal (r : RouteConfig) : RouteConfig := (Validation.validate_route (Validation.mkTables ∅ ∅) r).2.

Lemma validate_route_normal t r e t' r' : Validation.validate_route t r = (e, t', r') → r' = normal r.
Proof.
  unfold normal, Validation.validate_route. destruct (Validation.validate_name _ (Validation.names t)) as [e1 n1].
  destruct (Validation.validate_name _ (Validation.names (Validation.mkTables ∅ ∅))) as [e1' n1'].
  destruct (Validation.validate_hosts _) as [e2 hs]. destruct (match Validation.normalizePathPrefix _ with None => _ | Some _ => _ end) as [e3 prefix].
  destruct (foldl _ ([], Validation.selectors t) _) as [e6 s6]. destruct (foldl _ ([], Validation.selectors (Validation.mkTables ∅ ∅)) _) as [e6' s6'].
  destruct (Validation.validate_upstreams _) as [e7 us]. destruct (Validation.validate_cache _) as [e9 cc].
  destruct (Validation.validate_health _) as [e10 hc]. by intros [= _ _ <-].
Qed.

Lemma route_steps l acc : (foldl Validation.route_step acc l).2 = acc.2 ++ (normal <$> l).
Proof.
  revert acc. induction l as [|r l IH]; intros [[e t] rs]; [by rewrite app_nil_r|]. cbn [foldl]. rewrite IH. unfold Validation.route_step.
  destruct (Validation.validate_route t r) as [[e' t'] r'] eqn:E. cbn [snd]. apply validate_route_normal in E as ->. rewrite fmap_cons. by rewrite <- app_assoc.
Qed.

Lemma accepted_routes c c' : Facts.accepted c c' → routes c' = normal <$> routes c.
Proof.
  unfold Facts.accepted, Validation.Validate. destruct (Validation.validate_server _ _) as [e1 s].
  destruct (foldl _ _ (Validation.limited Validation.maxRoutes (routes c))) as [[e4 t] rs] eqn:E4. intros H. injection H as He <-. cbn [routes].
  apply app_eq_nil in He as [_ He]. apply app_eq_nil in He as [_ He]. apply app_eq_nil in He as [Hr _].
  assert (len (routes c) <= Validation.maxRoutes) as Hlen.
  { destruct (routes c) as [|r rs']; [done|]. unfold Validation.check in Hr. destruct (Validation.maxRoutes <? _) eqn:El; [done|]. by apply Z.ltb_ge in El. }
  rewrite Facts.limited_all in E4 by done. pose proof (route_steps (routes c) ([], Validation.mkTables ∅ ∅, [])) as Hs. rewrite E4 in Hs. cbn [snd app] in Hs.
  by rewrite Hs, length_fmap, drop_all, app_nil_r.
Qed.

Lemma proposed_routes base c : routes (ControlFacts.proposed base c) = routes c.
Proof. unfold ControlFacts.proposed. by case_match. Qed.

Lemma normal_name r : route_name (normal r) = trim_space (route_name r).
Proof.
  unfold normal, Validation.validate_route. destruct (Validation.validate_name _ _) as [e1 n1]. destruct (Validation.validate_hosts _) as [e2 hs].
  destruct (match Validation.normalizePathPrefix _ with None => _ | Some _ => _ end) as [e3 prefix]. destruct (foldl _ _ _) as [e6 s6].
  destruct (Validation.validate_upstreams _) as [e7 us]. destruct (Validation.validate_cache _) as [e9 cc]. by destruct (Validation.validate_health _) as [e10 hc].
Qed.

(** The routes that a change makes of those before, not yet validated again. *)
Definition changed_routes (ch : change) (base : Config) (edited : list RouteConfig) : Prop :=
  let one name f := ∃ i old new, route_at base name = Some (i, old) ∧ f old = inr new ∧ edited = <[i := new]> (routes base) in
  match ch with
  | CreateRoute r => FindRoute base (route_name r) = None ∧ edited = routes base ++ [r]
  | UpdateRoute n r => one n (λ old, if equal_fold (trim_space (route_name r)) (trim_space (route_name old)) then inr (rename_route (route_name old) r) else inl [])
  | DeleteRoute n => ∃ i, FindRoute base n = Some i ∧ edited = delete i (routes base)
  | CreateOrigin n u => one n (create_origin u)
  | UpdateOrigin n o u => one n (update_origin o u)
  | DeleteOrigin n o => one n (delete_origin o)
  | SetServer _ | SetAdmin _ => edited = routes base
  | SetPart n f => one n (λ r, inr (f r))
  end.

Lemma mutated_routes ch base candidate c1 : mutator_of ch base = inr candidate →
  Facts.accepted (ControlFacts.proposed base candidate) c1 → ∃ edited, changed_routes ch base edited ∧ routes c1 = normal <$> edited.
Proof.
  intros Hm Hc. apply accepted_routes in Hc. rewrite proposed_routes in Hc. exists (routes candidate). split; [|done]. clear Hc.
  assert (∀ n f, change_route n f base = inr candidate →
    ∃ i old new, route_at base n = Some (i, old) ∧ f old = inr new ∧ routes candidate = <[i := new]> (routes base)) as Hone.
  { intros n f H. unfold change_route in H. destruct (route_at base n) as [[i old]|]; [|done]. destruct (f old) as [|new] eqn:Ef; [done|].
    injection H as <-. by exists i, old, new. }
  destruct ch as [r|n r|n|n u|n o u|n o|s|a|n f]; cbn [mutator_of changed_routes] in *; [| | | by apply Hone..| | |by apply Hone].
  - unfold create_route in Hm. destruct (FindRoute _ _); [done|]. by injection Hm as <-.
  - unfold update_route in Hm. destruct (route_at base n) as [[i old]|]; [|done]. destruct (equal_fold _ _) eqn:E; [|done]. injection Hm as <-.
    exists i, old, (rename_route (route_name old) r). by rewrite E.
  - unfold delete_route in Hm. destruct (FindRoute base n) as [i|]; [|done]. injection Hm as <-. exists i. split; [done|]. cbn.
    by rewrite delete_take_drop.
  - by injection Hm as <-.
  - by injection Hm as <-.
Qed.

(** The changes that may not touch a name. *)
Definition keeps_names (ch : change) : Prop :=
  match ch with
  | CreateRoute _ | DeleteRoute _ => False
  | SetPart _ f => ∀ r, route_name (f r) = route_name r
  | _ => True
  end.

Lemma changed_names ch base (edited : list RouteConfig) : changed_routes ch base edited → keeps_names ch → route_name <$> edited = route_name <$> routes base.
Proof.
  intros Hc Hk.
  assert (∀ n (f : RouteConfig → str + RouteConfig), (∀ old new, f old = inr new → route_name new = route_name old) →
    (∃ i old new, route_at base n = Some (i, old) ∧ f old = inr new ∧ edited = <[i := new]> (routes base)) →
    route_name <$> edited = route_name <$> routes base) as Hone.
  { intros n f Hf (i & old & new & Hr & E & ->). rewrite list_fmap_insert, (Hf _ _ E). apply list_insert_id. rewrite list_lookup_fmap.
    unfold route_at, mbind, option_bind in Hr. destruct (FindRoute base n) as [k|]; [|done]. destruct (routes base !! k) as [x|] eqn:Ex; [|done].
    injection Hr as <- <-. by rewrite Ex. }
  destruct ch as [r|n r|n|n u|n o u|n o|s|a|n f]; cbn [changed_routes keeps_names] in *; try done; try by rewrite Hc.
  all: eapply Hone; [|exact Hc]; intros old new; cbn beta.
  - case_match; [by intros [= <-]|done].
  - unfold create_origin. case_match; [done|by intros [= <-]].
  - unfold update_origin. repeat case_match; try done; by intros [= <-].
  - unfold delete_origin. repeat case_match; try done; by intros [= <-].
  - intros [= <-]. apply Hk.
Qed.

Lemma normal_names (l : list RouteConfig) : route_name <$> (normal <$> l) = trim_space <$> (route_name <$> l).
Proof. rewrite <- !list_fmap_compose. apply list_fmap_ext. intros _ r _. apply normal_name. Qed.

Context (encode : Config → option str) (decode : str → option Config) (windows : bool).
Context (parse_url : str → option URL) (clock stamp rand : nat → str) (handler_clock : nat → Z).


End local.

(** ** Samples *)

Module Samples.
Import ControlFacts.
#[local] Existing Instances sU sR sN sT sS sF sM.

Definition unshopped : Config := (Validation.Validate (with_routes (drop 1 (routes conf0)) conf0)).2.
Definition api_encode (c : Config) : option str :=
  if bool_decide (c = conf0) then Some (lit "0") else if bool_decide (c = unshopped) then Some (lit "1") else None.
Definition api_decode (data : str) : option Config :=
  if data =?s ("0" ++ [chr 10]) then Some conf0 else if data =?s ("1" ++ [chr 10]) then Some unshopped else None.

Lemma api_codec : PersistFacts.codec api_encode api_decode.
Proof.
  intros c text. unfold api_encode. case_bool_decide as E0; [intros [= <-]; by subst|]. case_bool_decide as E1; [|done]. intros [= <-]. by subst.
Qed.

Abbreviation deleted :=
  (Update api_encode api_decode false sample_parse count count count (λ _, 0) all_free ∅ (mutator_of (DeleteRoute " SHOP")) "admin_delete_route" cell1).

Lemma deleted_story : match deleted.1 with inr r => negb (ar_restart r) | inl _ => false end = true.
Proof. vm_compute. reflexivity. Qed.
Lemma cell1_base : m_persisted (c_mgr cell1) = conf0.
Proof. vm_compute. reflexivity. Qed.
Lemma shop_first : FindRoute conf0 " SHOP" = Some 0%nat.
Proof. vm_compute. reflexivity. Qed.

Lemma others_normal : normal <$> delete 0%nat (routes conf0) = delete 0%nat (routes conf0).
Proof. vm_compute. reflexivity. Qed.

End Samples.

End AdminAPI.
